(* ===== verification/_CoqProject ===== *)
-Q . S2P
Prelude.v
Slice.v
Coding.v
Status.v
CrcTables.v
Crc32c.v
LogFormat.v
LogWriter.v
LogReader.v
LogRoundtrip.v
LogFollow.v
LogSafety.v
Hash.v
Autovector.v
AlignedBuffer.v
FileApi.v
FileWriter.v
FileWriterSpec.v
FileWriterTheorems.v
LogFile.v
WalExample.v
FileReader.v
FileReaderWriterExample.v
Random.v
LruCache.v
LruTable.v
LruList.v
LruInv.v
LruTraverse.v
LruOps.v
LruInsert.v
LruSafety.v
LruFrame.v
LruTheorems.v
ShardedCache.v
ShardedTheorems.v
LruCacheExample.v
ThreadPool.v
ThreadPoolInv.v
ThreadPoolTheorems.v
ThreadLocal.v
ThreadLocalRing.v
ThreadLocalSpec.v
ThreadLocalTheorems.v
ThreadLocalExample.v
IoPosix.v
IoPosixTheorems.v
IoPosixDirect.v
IoPosixMmap.v
PosixDisk.v
PosixProps.v
StringUtil.v
Locks.v
Env.v
EnvTheorems.v
AutoRoll.v
AutoRollTheorems.v
MemEnv.v
EnvProps.v
EnvPosix.v
Random64.v
PosixLogger.v
EnvPosixTheorems.v
PosixLoggerTheorems.v
Kernel.v
EnvPosixProps.v
PosixWorld.v
EnvThreads.v
ThreadPoolExample.v
Wrappers.v
PosixWorldTheorems.v
PosixWorldLogs.v
KernelTree.v
PosixWorldProps.v
