(* ===== verification/Prelude.v ===== *)
(** * rocksutil: a verification development

    rocksutil is the utility layer of RocksDB as a library: a write-ahead log, a sharded LRU
    cache, an environment for POSIX systems with its files and loggers, a thread pool,
    thread-local pointers, and the small parts below them. This development translates its
    implementation ([src/rutil], [src/include/rocksutil], [src/rport]) into executable
    definitions and proves what makes it correct.

    ** How the parts depend on each other

    The program is layered, and the interfaces between the layers are type classes here, as
    they are abstract classes there. The theorems on a client are proved against the class, and
    what implements it is an instance:
    - [LogWriter.LogDest] is what the log writer writes to; [FileWriterTheorems] shows that
      [WritableFileWriter] is one ([FileWriter_reliable]). [LogReader.SeqFile] is what the log
      reader reads; [FileReader.SequentialFileReader] is one over any other. [Crc32c.Crc32c]
      is the checksum; both implementations of crc32c.cc are instances.
    - [FileApi.WritableFile] and [FileApi.RandomAccessFile] are the files of env.h, [WorkingFile]
      and [HonestRandomFile] their laws; [IoPosixTheorems] shows the first for the POSIX files
      that the buffered writer uses, [Wrappers] for [WritableFileWrapper].
    - [IoPosix.Posix] and [EnvPosix.PosixPaths] are the calls of the operating system, which is
      not in [src]. What the code relies on are the laws [PosixFiles], [MmapFiles], [FileLocks],
      [LogStreams], [PosixTree] and [NamedLogs]. [PosixDisk], [Kernel] and [KernelTree] are
      concrete systems that keep them, with transfers that are short and interrupted, on which
      the witnesses run.
    - [Env.Env] is the environment, [EnvFiles] and [LogFiles] its laws. [MemEnv] is an
      environment in memory; [PosixWorld] makes [PosixEnv], with its files, mapped ones included, and its
      loggers on the heap of a process, an environment, PosixWorldTheorems and PosixWorldLogs show that it
      keeps both sets of laws. So the functions of env.cc and the rolling log are proved over any
      environment, and hold for the one of the source. [EnvThreads.EnvThreads] is the part of the
      interface that schedules work, with [PosixEnv] over its two pools as an instance.
    - [Env.Logger] is the interface of loggers, [Env.Printf] is [vsnprintf].

    ** Files and sources

    - Prelude: machine words, lists indexed by [Z], the outcome monad, shared tactics and hints.
    - Slice, Coding, Status: slice.h, coding.h with coding.cc, status.h with status.cc and
      status_message.cc. StringUtil: string_util.h and string_util.cc. Hash: hash.cc.
      Autovector: autovector.h. AlignedBuffer: aligned_buffer.h.
    - CrcTables, Crc32c: crc32c.cc, the tables, the slicing-by-8 and the SSE4.2 code.
    - LogFormat, LogWriter, LogReader: log_format.h, log_writer.cc, log_reader.cc. LogRoundtrip and
      LogSafety hold the theorems on both, LogFile those on a log in a file, LogFollow those on a file
      that grows while it is read.
    - FileApi, FileWriter, FileReader: the file classes of env.h and file_reader_writer.cc.
      FileWriterSpec has the lemmas and FileWriterTheorems the properties of the writer.
    - IoPosix: every class of io_posix.cc. IoPosixTheorems, IoPosixDirect and IoPosixMmap have the
      lemmas on descriptors, direct reads and mapped files, PosixProps the properties.
    - Env: env.h and env.cc; EnvTheorems and EnvProps. Wrappers: [EnvWrapper] and
      [WritableFileWrapper]. AutoRoll, AutoRollTheorems: auto_roll_logger.cc.
    - EnvPosix, PosixLogger: env_posix.cc and posix_logger.h; EnvPosixTheorems,
      PosixLoggerTheorems, EnvPosixProps, PosixWorld, PosixWorldTheorems, PosixWorldLogs,
      PosixWorldProps.
    - EnvThreads: the scheduling methods of [Env] and of [PosixEnv].
    - WalExample, ThreadPoolExample, FileReaderWriterExample, LruCacheExample, ThreadLocalExample: five
      of the programs of [src/examples].
    - Random, Random64: random.h, random.cc, [Env::GenerateUniqueId].
    - LruCache: lru_cache.cc on a heap with a finite map per member of [LRUHandle]. LruTable (the
      hash table), LruList (the ring), LruInv (the invariant), LruTraverse (walks of the
      whole table), LruOps, LruInsert (the operations),
      LruSafety (clients and reachable states), LruFrame, LruTheorems. ShardedCache and
      ShardedTheorems: sharded_cache.cc.
    - ThreadPool: threadpool_imp.cc as an interleaving machine; ThreadPoolInv, ThreadPoolTheorems.
      ThreadLocal: thread_local.cc; ThreadLocalRing, ThreadLocalSpec, ThreadLocalTheorems.
      Locks: mutexlock.h, port_posix.h and port_posix.cc.

    A definition has the name of the function it models, with a prefix for the class where two
    classes share it ([Posix_], [Writable_], [Mmap_], [RandomRW_]); a loop is a Fixpoint of its
    own with the suffix [_loop]; the members of an object are the fields of a Record. State is
    passed explicitly: as an argument, as the system in the monad [IoPosix.IO], as the shard in
    the monad of LruCache. The results of code that may fail an assertion, read what it must not
    or run on are in [outcome]: [AssertFail], [Undef] and [NoFuel] beside [Ret].

    ** What is shown

    - The log: what is written is read back in both formats and every mode, from a prefix of the
      file too, with the zeros of a mapped file behind it (both of which [kAbsoluteConsistency]
      reports), and while the file grows; damaged payloads are found; both sides are total but for one
      loop of the reader. The example with a writer and a follower in two threads gets every record in
      order when the file has no zeros behind the log and no read falls inside a call of [AddRecord];
      both exceptions are shown to lose records.
    - Crc32c: both implementations compute the bit-by-bit definition.
    - The cache: every sequence of legal calls returns, with accounts that agree with the heap;
      each deleter is called once; insertion, erasure and eviction in terms of the map from keys
      to entries and of the order of the list; the traversal of all entries and the destruction of the
      table; the capacity, for a shard and over the shards.
    - The thread pool: under every interleaving a fifo, without aborts, that drains, and so are both pools
      of [PosixEnv] side by side. Thread-local
      pointers: a map from threads and instances to values, with the calls of the handlers.
      The locks exclude.
    - Files: the buffered writer refines an append-only byte string, up to the size that its file can
      have, and never overruns its buffer; read-ahead is invisible as long as the reads of the file
      succeed; the POSIX files transfer everything through short and interrupted calls, direct ones
      inside the file and mapped ones included. A mapping is of whole pages, and the file below it is
      extended by [fallocate], which is the default: without it the first store is a fault.
    - The environment: the table of file locks; a line per log call, flushed when it is due; rolls that
      lose no log as long as renaming works;
      strings written to files and read back over [PosixEnv] from open to the destructors, whether the
      disk is of a type for which files are mapped or not.
    - Defects: a reader that loops forever, a read-ahead buffer that serves rubbish, a stale
      [EINTR], a lock of the system that is lost, and others, each as a theorem on the code.

    ** Bounds and fuel

    Loops that are not structural have fuel. Where the number of turns depends on the arguments
    only, the definition computes enough fuel itself, and a lemma shows that [NoFuel] does not
    occur ([AddRecord], [ReadPhysicalRecord], the varints, the loops of the cache, whose bound is
    the number of handles). Loops that the system can prolong, by short transfers and
    interruptions, take the fuel as an argument, and the theorems give the amount: the number of
    interruptions that the system still has in store ([patience]) plus the size of the transfer.
    [ReadRecord] takes fuel too; that it ends on every file is [ReadRecord_terminates], with the
    bytes that are left as the measure. Integers have the width of the source, [u8] to [u64] for the
    wrapped unsigned and [swrap] for the signed ones; theorems that need a value not to
    wrap say so, with bounds as 2^62 or 2^63 on sizes of files.

    ** What is not modelled

    - The code outside of [src]: system calls, the C library's streams, [vsnprintf],
      [localtime_r], pthreads, [cpuid], the SSE4.2 instruction, [std::vector]'s growth and
      [std::uniform_int_distribution] are parameters with their documented behaviour.
    - Methods under one mutex are one step (the cache, the thread-local pointers, the lock
      table), since the mutex makes them run one after the other; the thread pool, the spin lock and the
      condition variable are interleaved. Weak memory is not modelled: atomic accesses are
      sequentially consistent.
    - A method of [ThreadLocalPtr] called from inside an [UnrefHandler]; [TEST_GetLRUList];
      functions that are declared and have no body ([Slice::ToString], [DecodeHex]).
    - [Crash] of port_posix.cc and [GetThreadID], single calls of the system; the variants for OS X
      and Windows; mutexlock_example.cc and log_example.cc, which call the library and print; headers of
      macros and versions. *)

From Stdlib Require Export ZArith Lia ZifyBool.
From Stdlib Require Import Strings.Byte Strings.String.
From stdpp Require Export base numbers list option.

#[export] Set Default Proof Using "Type".
#[export] Set Warnings "-clear-no-such-hyp".
Global Open Scope Z_scope.

(** ** Machine integers *)

(** A [w]-bit unsigned integer is a [Z]; arithmetic that the C++ code does at
    width [w] is wrapped explicitly. *)
Definition wrap (w z : Z) : Z := z mod 2 ^ w.
Abbreviation u8 := (wrap 8).
Abbreviation u32 := (wrap 32).
Abbreviation u64 := (wrap 64).

(** The value of a [w]-bit word read as a two's complement signed number. *)
Definition swrap (w z : Z) : Z := (z + 2 ^ (w - 1)) mod 2 ^ w - 2 ^ (w - 1).

Lemma wrap_range w z : 0 <= w -> 0 <= wrap w z < 2 ^ w.
Proof. intros. apply Z.mod_pos_bound. lia. Qed.

Lemma wrap_small w z : 0 <= z < 2 ^ w -> wrap w z = z.
Proof. intros. by apply Z.mod_small. Qed.

Lemma wrap_wrap w z : wrap w (wrap w z) = wrap w z.
Proof. unfold wrap. by rewrite Zmod_mod. Qed.

Lemma wrap_land_ones w z : 0 <= w -> wrap w z = Z.land z (Z.ones w).
Proof. intros. unfold wrap. by rewrite Z.land_ones. Qed.

Lemma u32_range z : 0 <= u32 z < 4294967296.
Proof. apply (wrap_range 32). lia. Qed.
Lemma u64_range z : 0 <= u64 z < 18446744073709551616.
Proof. apply (wrap_range 64). lia. Qed.
Lemma u32_small z : 0 <= z < 4294967296 -> u32 z = z.
Proof. apply (wrap_small 32). Qed.
Lemma u64_small z : 0 <= z < 18446744073709551616 -> u64 z = z.
Proof. apply (wrap_small 64). Qed.
Lemma u64_add_l a b : u64 (u64 a + b) = u64 (a + b).
Proof. unfold wrap. by rewrite Zplus_mod_idemp_l. Qed.

(** ** Bytes *)

Abbreviation byte := Init.Byte.byte.

Definition b2z (b : byte) : Z := Z.of_N (Byte.to_N b).

(** Conversion of an integer to [unsigned char]: its low eight bits. *)
Definition z2b (z : Z) : byte :=
  match Byte.of_N (Z.to_N (u8 z)) with Some b => b | None => x00 end.

(** A [signed char]. *)
Definition b2sz (b : byte) : Z := swrap 8 (b2z b).

#[export] Instance byte_eq_dec : EqDecision byte := Byte.byte_eq_dec.

Lemma b2z_range b : 0 <= b2z b < 256.
Proof. unfold b2z. pose proof (Byte.to_N_bounded b). lia. Qed.

Lemma b2z_z2b z : b2z (z2b z) = u8 z.
Proof.
  unfold z2b, b2z. pose proof (wrap_range 8 z ltac:(lia)).
  destruct (Byte.of_N (Z.to_N (u8 z))) as [b|] eqn:E.
  - apply Byte.to_of_N in E. rewrite E. lia.
  - apply Byte.of_N_None_iff in E. lia.
Qed.

Lemma z2b_b2z b : z2b (b2z b) = b.
Proof.
  unfold z2b. rewrite wrap_small by apply b2z_range.
  unfold b2z. by rewrite N2Z.id, Byte.of_to_N.
Qed.

Lemma b2z_inj b1 b2 : b2z b1 = b2z b2 -> b1 = b2.
Proof. intros E. by rewrite <- (z2b_b2z b1), E, z2b_b2z. Qed.

#[export] Instance b2z_Inj : Inj (=) (=) b2z := b2z_inj.

Lemma z2b_u8 z : z2b (u8 z) = z2b z.
Proof. apply b2z_inj. by rewrite !b2z_z2b, wrap_wrap. Qed.

Lemma b2z_z2b_small z : 0 <= z < 256 -> b2z (z2b z) = z.
Proof. intros. rewrite b2z_z2b. by apply wrap_small. Qed.

Definition str (s : string) : list byte := list_byte_of_string s.
Arguments str s%_string_scope.

(** ** Lists indexed by [size_t] values *)

Section zlist.
Context {A : Type}.
Implicit Types l k : list A.

Definition zlen l : Z := Z.of_nat (length l).
Definition ztake (n : Z) l : list A := take (Z.to_nat n) l.
Definition zdrop (n : Z) l : list A := drop (Z.to_nat n) l.
Definition znth (d : A) l (i : Z) : A := nth (Z.to_nat i) l d.
Definition zrep (n : Z) (x : A) : list A := replicate (Z.to_nat n) x.

Lemma zlen_nonneg l : 0 <= zlen l.
Proof. unfold zlen. lia. Qed.
Lemma zlen_nil : zlen [] = 0.
Proof. done. Qed.
Lemma zlen_cons x l : zlen (x :: l) = 1 + zlen l.
Proof. unfold zlen. simpl. lia. Qed.
Lemma zlen_app l k : zlen (l ++ k) = zlen l + zlen k.
Proof. unfold zlen. rewrite length_app. lia. Qed.
Lemma zlen_ztake n l : 0 <= n -> zlen (ztake n l) = Z.min n (zlen l).
Proof. intros. unfold zlen, ztake. rewrite length_take. lia. Qed.
Lemma zlen_zdrop n l : 0 <= n -> zlen (zdrop n l) = Z.max 0 (zlen l - n).
Proof. intros. unfold zlen, zdrop. rewrite length_drop. lia. Qed.
Lemma zlen_zrep n (x : A) : 0 <= n -> zlen (zrep n x) = n.
Proof. intros. unfold zlen, zrep. rewrite length_replicate. lia. Qed.
Lemma zlen_zero l : zlen l = 0 -> l = [].
Proof. destruct l; [done|]. rewrite zlen_cons. pose proof (zlen_nonneg l). lia. Qed.

Lemma ztake_zdrop n l : ztake n l ++ zdrop n l = l.
Proof. apply take_drop. Qed.
Lemma ztake_ge n l : zlen l <= n -> ztake n l = l.
Proof. unfold zlen, ztake. intros. apply take_ge. lia. Qed.
Lemma zdrop_ge n l : zlen l <= n -> zdrop n l = [].
Proof. unfold zlen, zdrop. intros. apply drop_ge. lia. Qed.
Lemma ztake_0 l : ztake 0 l = [].
Proof. done. Qed.
Lemma ztake_nil n : ztake n ([] : list A) = [].
Proof. apply take_nil. Qed.
Lemma zdrop_nil n : zdrop n ([] : list A) = [].
Proof. apply drop_nil. Qed.
Lemma zdrop_0 l : zdrop 0 l = l.
Proof. done. Qed.
Lemma ztake_neg n l : n <= 0 -> ztake n l = [].
Proof. intros. unfold ztake. by replace (Z.to_nat n) with 0%nat by lia. Qed.
Lemma zdrop_neg n l : n <= 0 -> zdrop n l = l.
Proof. intros. unfold zdrop. by replace (Z.to_nat n) with 0%nat by lia. Qed.

Lemma ztake_app n l k :
  0 <= n -> ztake n (l ++ k) = ztake n l ++ ztake (n - zlen l) k.
Proof.
  intros. unfold ztake, zlen. rewrite take_app. do 2 f_equal. lia.
Qed.
Lemma zdrop_app n l k :
  0 <= n -> zdrop n (l ++ k) = zdrop n l ++ zdrop (n - zlen l) k.
Proof.
  intros. unfold zdrop, zlen. rewrite drop_app. do 2 f_equal. lia.
Qed.
Lemma ztake_app_le n l k : n <= zlen l -> ztake n (l ++ k) = ztake n l.
Proof. unfold ztake, zlen. intros. apply take_app_le. lia. Qed.
Lemma zdrop_app_le n l k : n <= zlen l -> zdrop n (l ++ k) = zdrop n l ++ k.
Proof. unfold zdrop, zlen. intros. apply drop_app_le. lia. Qed.
Lemma ztake_app_zlen l k : ztake (zlen l) (l ++ k) = l.
Proof. rewrite ztake_app_le by lia. apply ztake_ge. lia. Qed.
Lemma zdrop_app_zlen l k : zdrop (zlen l) (l ++ k) = k.
Proof. rewrite zdrop_app_le, zdrop_ge by lia. done. Qed.
Lemma ztake_app_ge n l k :
  zlen l <= n -> ztake n (l ++ k) = l ++ ztake (n - zlen l) k.
Proof.
  intros. pose proof (zlen_nonneg l). rewrite ztake_app, ztake_ge; auto; lia.
Qed.
Lemma zdrop_app_ge n l k :
  zlen l <= n -> zdrop n (l ++ k) = zdrop (n - zlen l) k.
Proof.
  intros. pose proof (zlen_nonneg l). rewrite zdrop_app, zdrop_ge; auto; lia.
Qed.

Lemma zdrop_zdrop n m l :
  0 <= n -> 0 <= m -> zdrop n (zdrop m l) = zdrop (m + n) l.
Proof. intros. unfold zdrop. rewrite drop_drop. f_equal. lia. Qed.
Lemma ztake_ztake n m l : ztake n (ztake m l) = ztake (Z.min n m) l.
Proof. unfold ztake. rewrite take_take. f_equal. lia. Qed.
Lemma zdrop_ztake n m l :
  0 <= n -> zdrop n (ztake m l) = ztake (m - n) (zdrop n l).
Proof.
  intros. unfold zdrop, ztake. rewrite skipn_firstn_comm. f_equal. lia.
Qed.
Lemma ztake_len m l : ztake m l = ztake (zlen (ztake m l)) l.
Proof.
  destruct (Z.le_gt_cases 0 m); [|by rewrite (ztake_neg m) by lia]. rewrite zlen_ztake by done.
  destruct (Z.le_gt_cases m (zlen l)); [by rewrite Z.min_l by lia|]. rewrite !ztake_ge; [done|lia|lia].
Qed.
Lemma ztake_zdrop_split n m l :
  0 <= n -> 0 <= m -> ztake (n + m) l = ztake n l ++ ztake m (zdrop n l).
Proof.
  intros. rewrite <- (ztake_zdrop n (ztake (n + m) l)).
  rewrite ztake_ztake, zdrop_ztake by lia. do 2 f_equal; lia.
Qed.

Lemma zrep_0 (x : A) : zrep 0 x = [].
Proof. done. Qed.
Lemma zrep_add n m (x : A) : 0 <= n -> 0 <= m -> zrep (n + m) x = zrep n x ++ zrep m x.
Proof. intros. unfold zrep. rewrite Z2Nat.inj_add by lia. apply replicate_add. Qed.
Lemma ztake_zrep n m (x : A) : ztake n (zrep m x) = zrep (Z.min n m) x.
Proof. unfold ztake, zrep. rewrite take_replicate. f_equal. lia. Qed.
Lemma zdrop_zrep n m (x : A) : 0 <= n -> zdrop n (zrep m x) = zrep (m - n) x.
Proof. intros. unfold zdrop, zrep. rewrite drop_replicate. f_equal. lia. Qed.
End zlist.

Create Rewrite HintDb zlist.
#[export] Hint Rewrite @zlen_nil @zlen_cons @zlen_app @zdrop_0 @ztake_0
  @ztake_nil @zdrop_nil @app_nil_r : zlist.
#[export] Hint Rewrite @zlen_ztake @zlen_zdrop @zlen_zrep using lia : zlist.

(** Solve a linear goal over the lengths of lists. *)
Ltac zlen_pos :=
  repeat match goal with
  | |- context [zlen ?l] =>
      lazymatch goal with _ : 0 <= zlen l |- _ => fail | _ => pose proof (zlen_nonneg l) end
  | H : context [zlen ?l] |- _ =>
      lazymatch goal with _ : 0 <= zlen l |- _ => fail | _ => pose proof (zlen_nonneg l) end
  end.
Ltac zlia := autorewrite with zlist in *; zlen_pos; lia.
(** [lia] with the euclidean equations of [/] and [mod]. *)
Ltac dlia := Z.to_euclidean_division_equations; lia.

(** ** Outcomes of code that can stop

    [Ret] is a normal return; [AssertFail] is a failed [assert]; [Undef] is
    undefined behaviour (a read or write outside an object, a null pointer
    dereference); [NoFuel] says that a loop was cut off by the fuel of its model. *)
Inductive outcome (A : Type) : Type :=
| Ret (a : A)
| AssertFail
| Undef
| NoFuel.
Arguments Ret {A} a.
Arguments AssertFail {A}.
Arguments Undef {A}.
Arguments NoFuel {A}.

#[export] Instance outcome_ret : MRet outcome := @Ret.
#[export] Instance outcome_bind : MBind outcome := fun A B f m =>
  match m with Ret a => f a | AssertFail => AssertFail | Undef => Undef | NoFuel => NoFuel end.

(** [assert(b)] *)
Definition assert_that (b : bool) : outcome unit :=
  if b then Ret tt else AssertFail.

Lemma assert_true b {A} (k : unit -> outcome A) :
  b = true -> (assert_that b ≫= k) = k tt.
Proof. by intros ->. Qed.
Lemma bind_ret {A B} (a : A) (k : A -> outcome B) : (Ret a ≫= k) = k a.
Proof. done. Qed.
(** Step over a computation that has returned. *)
Ltac bret := rewrite bind_ret; cbv beta iota.
Lemma bind_Ret_inv {A B} (m : outcome A) (k : A -> outcome B) b :
  (m ≫= k) = Ret b -> exists a, m = Ret a /\ k a = Ret b.
Proof. destruct m; naive_solver. Qed.

(** ** Little-endian byte strings *)

(** The [n] low bytes of [z], least significant first. *)
Fixpoint le_enc (n : nat) (z : Z) : list byte :=
  match n with
  | O => []
  | S n' => z2b z :: le_enc n' (Z.shiftr z 8)
  end.

Fixpoint le_dec (l : list byte) : Z :=
  match l with
  | [] => 0
  | b :: l' => b2z b + 256 * le_dec l'
  end.

Lemma length_le_enc n z : length (le_enc n z) = n.
Proof. revert z; induction n; intros; simpl; auto. Qed.

Lemma zlen_le_enc n z : zlen (le_enc n z) = Z.of_nat n.
Proof. unfold zlen. by rewrite length_le_enc. Qed.

Lemma le_dec_range l : 0 <= le_dec l < 2 ^ (8 * zlen l).
Proof.
  induction l as [|b l IH]; simpl; [done|].
  rewrite zlen_cons, Z.mul_add_distr_l, Z.pow_add_r by (zlen_pos; lia).
  pose proof (b2z_range b). change (2 ^ (8 * 1)) with 256. lia.
Qed.

Lemma le_dec_enc n z : le_dec (le_enc n z) = z mod 2 ^ (8 * Z.of_nat n).
Proof.
  revert z; induction n as [|n IH]; intros z; simpl le_enc; simpl le_dec.
  - by rewrite Z.mod_1_r.
  - rewrite IH, b2z_z2b, Z.shiftr_div_pow2 by lia. unfold wrap.
    rewrite Nat2Z.inj_succ, <- Z.add_1_r, Z.mul_add_distr_l, Z.add_comm, Z.pow_add_r by lia.
    change (2 ^ (8 * 1)) with 256. change (2 ^ 8) with 256.
    rewrite (Z.mul_comm (2 ^ _)), Z.rem_mul_r by lia. lia.
Qed.

Lemma le_enc_dec l : le_enc (length l) (le_dec l) = l.
Proof.
  induction l as [|b l IH]; simpl; [done|].
  pose proof (b2z_range b). f_equal.
  - apply b2z_inj. rewrite b2z_z2b. unfold wrap. change (2 ^ 8) with 256.
    rewrite Z.mul_comm, Z_mod_plus_full. by apply Z.mod_small.
  - rewrite Z.shiftr_div_pow2 by lia. change (2 ^ 8) with 256.
    rewrite Z.mul_comm, Z.div_add, Z.div_small by lia. by rewrite Z.add_0_l.
Qed.

Lemma zlen_rev {A} (l : list A) : zlen (rev l) = zlen l.
Proof. unfold zlen. by rewrite length_rev. Qed.

Lemma le_dec_app l k : le_dec (l ++ k) = le_dec l + 2 ^ (8 * zlen l) * le_dec k.
Proof.
  induction l as [|b l IH]; simpl; [by rewrite Z.mul_1_l|].
  assert (2 ^ (8 * zlen (b :: l)) = 256 * 2 ^ (8 * zlen l)) as ->.
  { rewrite zlen_cons, Z.mul_add_distr_l, Z.pow_add_r by (zlen_pos; lia). done. }
  rewrite IH. lia.
Qed.

Lemma le_enc_mod n z : le_enc n (z mod 2 ^ (8 * Z.of_nat n)) = le_enc n z.
Proof.
  rewrite <- le_dec_enc. pose proof (le_enc_dec (le_enc n z)) as H.
  by rewrite length_le_enc in H.
Qed.

(** ** Bits *)

Lemma testbit_high z w i : 0 <= z < 2 ^ w -> w <= i -> Z.testbit z i = false.
Proof.
  intros Hz Hi. destruct (Z.eq_dec z 0) as [->|]; [apply Z.testbit_0_l|].
  apply Z.bits_above_log2; [lia|].
  apply Z.log2_lt_pow2; [lia|]. apply Z.lt_le_trans with (2 ^ w); [lia|].
  destruct (decide (0 <= w)); [apply Z.pow_le_mono_r; lia|].
  rewrite Z.pow_neg_r in Hz by lia. lia.
Qed.

(** Bounds from bits: a nonnegative integer without bits at [w] and above. *)
Lemma bits_lt_pow2 z w :
  0 <= z -> 0 <= w -> (forall i, w <= i -> Z.testbit z i = false) -> z < 2 ^ w.
Proof.
  intros Hz Hw H. destruct (Z.eq_dec z 0) as [->|]; [lia|].
  apply Z.log2_lt_pow2; [lia|]. apply Z.nle_gt. intros Hle.
  pose proof (Z.bit_log2 z ltac:(lia)) as Hb. by rewrite H in Hb.
Qed.

Lemma lxor_range w a b : 0 <= w -> 0 <= a < 2 ^ w -> 0 <= b < 2 ^ w -> 0 <= Z.lxor a b < 2 ^ w.
Proof.
  intros Hw Ha Hb. assert (0 <= Z.lxor a b) by (apply Z.lxor_nonneg; lia).
  split; [done|]. apply bits_lt_pow2; [done..|]. intros i Hi.
  by rewrite Z.lxor_spec, !(testbit_high _ w).
Qed.

Lemma lor_range w a b : 0 <= w -> 0 <= a < 2 ^ w -> 0 <= b < 2 ^ w -> 0 <= Z.lor a b < 2 ^ w.
Proof.
  intros Hw Ha Hb. assert (0 <= Z.lor a b) by (apply Z.lor_nonneg; lia).
  split; [done|]. apply bits_lt_pow2; [done..|]. intros i Hi.
  by rewrite Z.lor_spec, !(testbit_high _ w).
Qed.

Lemma land_range w a b : 0 <= w -> 0 <= a -> 0 <= b < 2 ^ w -> 0 <= Z.land a b < 2 ^ w.
Proof.
  intros Hw Ha Hb. assert (0 <= Z.land a b) by (apply Z.land_nonneg; lia).
  split; [done|]. apply bits_lt_pow2; [done..|]. intros i Hi.
  by rewrite Z.land_spec, (testbit_high b w), andb_false_r.
Qed.

Lemma shiftr_range w k a : 0 <= k <= w -> 0 <= a < 2 ^ w -> 0 <= Z.shiftr a k < 2 ^ (w - k).
Proof.
  intros Hk Ha. rewrite Z.shiftr_div_pow2 by lia.
  split; [apply Z.div_pos; lia|]. apply Z.div_lt_upper_bound; [lia|].
  rewrite <- Z.pow_add_r by lia. replace (k + (w - k)) with w by lia. lia.
Qed.

(** [|] of disjoint bit ranges is addition. *)
Lemma lor_shiftl_add a b k : 0 <= k -> 0 <= a < 2 ^ k -> Z.lor a (Z.shiftl b k) = a + b * 2 ^ k.
Proof.
  intros Hk Ha. rewrite <- Z.shiftl_mul_pow2 by lia.
  assert (Z.land a (Z.shiftl b k) = 0) as Hd.
  { apply Z.bits_inj'. intros i Hi. rewrite Z.land_spec, Z.bits_0.
    destruct (Z.lt_ge_cases i k).
    - rewrite Z.shiftl_spec_low by lia. apply andb_false_r.
    - by rewrite (testbit_high a k). }
  by rewrite Z.add_nocarry_lxor, Z.lxor_lor.
Qed.

Lemma lor_128 v : 0 <= v < 128 -> Z.lor v 128 = v + 128.
Proof. intros. change (Z.lor v (Z.shiftl 1 7) = v + 1 * 2 ^ 7). apply lor_shiftl_add; lia. Qed.

Lemma land_127 v : Z.land v 127 = v mod 128.
Proof. apply (Z.land_ones v 7). lia. Qed.

Lemma land_255 v : Z.land v 255 = v mod 256.
Proof. apply (Z.land_ones v 8). lia. Qed.

(** Prove an equation between words bit by bit. *)
Create Rewrite HintDb bits.
#[export] Hint Rewrite Z.lxor_spec Z.land_spec Z.lor_spec Z.shiftr_spec Z.testbit_0_l
  using lia : bits.
Ltac bitwise := apply Z.bits_inj'; intros ?i ?Hi; autorewrite with bits.
