(* ===== verification/Slice.v ===== *)
(** * Slice ([include/rocksutil/slice.h])

    A [Slice] is a pointer into storage owned by somebody else and a length.
    The functions of this file read the bytes it refers to and never write
    them, so a [Slice] is modelled by those bytes, [data_[0 .. size_)]. *)

From S2P Require Import Prelude.
From Stdlib Require Import Strings.Byte.

Definition Slice : Type := list byte.

Definition size (s : Slice) : Z := zlen s.
Definition empty (s : Slice) : bool := size s =? 0.

(** [operator[]], with its assertion. *)
Definition slice_index (s : Slice) (n : Z) : outcome byte :=
  _ ← assert_that (n <? size s);
  mret (znth x00 s n).

Definition remove_prefix (s : Slice) (n : Z) : outcome Slice :=
  _ ← assert_that (n <=? size s);
  mret (zdrop n s).

Definition remove_suffix (s : Slice) (n : Z) : outcome Slice :=
  _ ← assert_that (n <=? size s);
  mret (ztake (size s - n) s).

(** [memcmp(p, q, n)] of the C library, on the first [n] bytes: negative, zero or
    positive with the first difference, the bytes read as [unsigned char]. *)
Fixpoint memcmp (p q : list byte) (n : nat) : Z :=
  match n, p, q with
  | S n', a :: p', b :: q' =>
      if b2z a <? b2z b then -1
      else if b2z b <? b2z a then 1
      else memcmp p' q' n'
  | _, _, _ => 0
  end.

Definition starts_with (s x : Slice) : bool :=
  (size x <=? size s) && (memcmp s x (length x) =? 0).

Definition ends_with (s x : Slice) : bool :=
  (size x <=? size s) && (memcmp (zdrop (size s - size x) s) x (length x) =? 0).

(** [operator==] and [operator!=] *)
Definition slice_eq (x y : Slice) : bool :=
  (size x =? size y) && (memcmp x y (length x) =? 0).
Definition slice_ne (x y : Slice) : bool := negb (slice_eq x y).

Definition compare (s b : Slice) : Z :=
  let min_len := if size s <? size b then length s else length b in
  let r := memcmp s b min_len in
  if r =? 0 then
    if size s <? size b then -1
    else if size b <? size s then 1
    else r
  else r.

(** The loop of [difference_offset], at offset [off]. *)
Fixpoint difference_offset_from (off : Z) (s b : Slice) : Z :=
  match s, b with
  | x :: s', y :: b' =>
      if bool_decide (x = y) then difference_offset_from (off + 1) s' b' else off
  | _, _ => off
  end.
Definition difference_offset (s b : Slice) : Z := difference_offset_from 0 s b.

(** ** Lemmas *)

Lemma memcmp_refl p n : memcmp p p n = 0.
Proof.
  revert p; induction n as [|n IH]; intros [|a p]; simpl; auto.
  rewrite Z.ltb_irrefl. auto.
Qed.

(** [memcmp] is zero exactly on equal prefixes. *)
Lemma memcmp_zero p q n :
  (n <= length p)%nat -> (n <= length q)%nat ->
  memcmp p q n = 0 <-> take n p = take n q.
Proof.
  revert p q; induction n as [|n IH]; intros [|a p] [|b q] Hp Hq; simpl in *;
    try lia; try done.
  destruct (Z.ltb_spec (b2z a) (b2z b)) as [?|?].
  { split; [done|]. intros [= -> _]. lia. }
  destruct (Z.ltb_spec (b2z b) (b2z a)) as [?|?].
  { split; [done|]. intros [= -> _]. lia. }
  assert (a = b) as -> by (apply b2z_inj; lia).
  rewrite IH by lia. split; [by intros ->|]. by intros [= ->].
Qed.

Lemma slice_eq_spec x y : slice_eq x y = true <-> x = y.
Proof.
  unfold slice_eq, size, zlen. split.
  - intros H. apply andb_prop in H as [H1 H2].
    apply Z.eqb_eq in H1, H2. apply Nat2Z.inj in H1.
    apply memcmp_zero in H2; [|lia..]. by rewrite take_ge, H1, take_ge in H2.
  - intros ->. by rewrite Z.eqb_refl, memcmp_refl.
Qed.

Lemma starts_with_spec s x : starts_with s x = true <-> exists t, s = x ++ t.
Proof.
  unfold starts_with, size, zlen. split.
  - intros H. apply andb_prop in H as [H1 H2].
    apply Z.leb_le in H1. apply Z.eqb_eq, memcmp_zero in H2; [|lia..].
    exists (drop (length x) s). rewrite (take_ge x) in H2 by lia.
    by rewrite <- H2 at 1; rewrite take_drop.
  - intros [t ->]. apply andb_true_intro. split.
    + apply Z.leb_le. rewrite length_app. lia.
    + apply Z.eqb_eq, memcmp_zero; [rewrite ?length_app; lia..|].
      by rewrite take_app_length, take_ge.
Qed.

(** The three-way lexicographic comparison of byte strings. *)
Fixpoint lex (p q : list byte) : comparison :=
  match p, q with
  | [], [] => Eq
  | [], _ :: _ => Lt
  | _ :: _, [] => Gt
  | a :: p', b :: q' =>
      match b2z a ?= b2z b with Eq => lex p' q' | c => c end
  end.

Definition sgn_of (c : comparison) : Z :=
  match c with Eq => 0 | Lt => -1 | Gt => 1 end.

(** [compare] computes the lexicographic order of the bytes. *)
Lemma compare_lex s b : compare s b = sgn_of (lex s b).
Proof.
  unfold compare, size. revert b.
  induction s as [|x s IH]; intros [|y b]; try done.
  rewrite !zlen_cons. specialize (IH b). simpl lex.
  assert (memcmp (x :: s) (y :: b)
            (if 1 + zlen s <? 1 + zlen b then length (x :: s) else length (y :: b)) =
          memcmp (x :: s) (y :: b)
            (S (if zlen s <? zlen b then length s else length b))) as ->.
  { replace (1 + zlen s <? 1 + zlen b) with (zlen s <? zlen b) by lia.
    by destruct (zlen s <? zlen b). }
  simpl memcmp. replace (1 + zlen s <? 1 + zlen b) with (zlen s <? zlen b) by lia.
  replace (1 + zlen b <? 1 + zlen s) with (zlen b <? zlen s) by lia.
  destruct (Z.compare_spec (b2z x) (b2z y)) as [->|?|?].
  - by rewrite Z.ltb_irrefl.
  - by replace (b2z x <? b2z y) with true by lia.
  - replace (b2z x <? b2z y) with false by lia.
    by replace (b2z y <? b2z x) with true by lia.
Qed.

Lemma lex_eq p q : lex p q = Eq <-> p = q.
Proof.
  revert q; induction p as [|a p IH]; intros [|b q]; simpl; try done.
  destruct (Z.compare_spec (b2z a) (b2z b)) as [E|?|?].
  - apply b2z_inj in E as ->. rewrite IH. naive_solver.
  - split; [done|]. intros [= -> _]. lia.
  - split; [done|]. intros [= -> _]. lia.
Qed.

Lemma lex_antisym p q : lex q p = CompOpp (lex p q).
Proof.
  revert q; induction p as [|a p IH]; intros [|b q]; simpl; try done.
  rewrite (Z.compare_antisym (b2z a) (b2z b)).
  destruct (b2z a ?= b2z b); simpl; auto.
Qed.

Lemma lex_trans p q r : lex p q <> Gt -> lex q r <> Gt -> lex p r <> Gt.
Proof.
  revert q r; induction p as [|a p IH]; intros [|b q] [|c r]; simpl; try done.
  destruct (Z.compare_spec (b2z a) (b2z b)) as [E1|E1|E1];
    destruct (Z.compare_spec (b2z b) (b2z c)) as [E2|E2|E2];
    destruct (Z.compare_spec (b2z a) (b2z c)) as [E3|E3|E3]; try done; try lia; eauto.
Qed.

Lemma difference_offset_from_spec off s b :
  exists n, difference_offset_from off s b = off + Z.of_nat n /\
    take n s = take n b /\ (n <= length s)%nat /\ (n <= length b)%nat /\
    (forall x y, s !! n = Some x -> b !! n = Some y -> x <> y).
Proof.
  revert off b; induction s as [|x s IH]; intros off [|y b]; simpl.
  1-3: exists 0%nat; split_and!; simpl; [lia|done|lia|lia|done].
  case_bool_decide as E.
  - subst. destruct (IH (off + 1) b) as (n & Hn & H1 & H2 & H3 & H4).
    exists (S n). split_and!; simpl; [lia|by rewrite H1|lia|lia|done].
  - exists 0%nat. split_and!; simpl; [lia|done|lia|lia|]. naive_solver.
Qed.

(** ** Properties *)

(** [Slice::compare] is a total order on byte strings: zero exactly on equal
    slices, antisymmetric and transitive, and it agrees with [operator==]. *)
Theorem compare_total_order :
  (forall x y, compare x y = 0 <-> x = y) /\
  (forall x y, compare y x = - compare x y) /\
  (forall x y z, compare x y <= 0 -> compare y z <= 0 -> compare x z <= 0) /\
  (forall x y, slice_eq x y = true <-> compare x y = 0).
Proof.
  setoid_rewrite compare_lex. split_and!.
  - intros x y. rewrite <- lex_eq. by destruct (lex x y).
  - intros x y. rewrite (lex_antisym x y). by destruct (lex x y).
  - intros x y z H1 H2.
    assert (lex x z <> Gt) as H.
    { apply (lex_trans x y z); [destruct (lex x y)|destruct (lex y z)]; simpl in *; lia || done. }
    destruct (lex x z); simpl in *; congruence || lia.
  - intros x y. rewrite slice_eq_spec, <- lex_eq. by destruct (lex x y).
Qed.
