(* ===== verification/Coding.v ===== *)
(** * Coding ([include/rocksutil/coding.h], [rutil/coding.cc])

    Fixed-width and variable-width integer codes and length-prefixed strings.
    A function that writes at a [char*] and returns the advanced pointer is
    modelled by the bytes it writes; a function that reads in [p .. limit) and
    returns a pointer or [nullptr] is modelled by the value read and the bytes
    that are left, or [None]. *)

From S2P Require Import Prelude.
From S2P Require Import Slice.
From Stdlib Require Import Strings.Byte.

(** The byte order of the machine ([port::kLittleEndian], [rport/port_posix.h]):
    a [memcpy] of an integer copies its bytes in this order. *)
Class Host := { kLittleEndian : bool }.

Definition host_bytes `{Host} (n : nat) (v : Z) : list byte :=
  if kLittleEndian then le_enc n v else rev (le_enc n v).
Definition host_load `{Host} (l : list byte) : Z :=
  if kLittleEndian then le_dec l else le_dec (rev l).

Section Coding.
Context `{Host}.

Definition kMaxVarint64Length : Z := 10.

(** ** Fixed width *)

Definition EncodeFixed32 (value : Z) : list byte :=
  if kLittleEndian then host_bytes 4 value
  else [z2b (Z.land value 255);
        z2b (Z.land (Z.shiftr value 8) 255);
        z2b (Z.land (Z.shiftr value 16) 255);
        z2b (Z.land (Z.shiftr value 24) 255)].

Definition EncodeFixed64 (value : Z) : list byte :=
  if kLittleEndian then host_bytes 8 value
  else [z2b (Z.land value 255);
        z2b (Z.land (Z.shiftr value 8) 255);
        z2b (Z.land (Z.shiftr value 16) 255);
        z2b (Z.land (Z.shiftr value 24) 255);
        z2b (Z.land (Z.shiftr value 32) 255);
        z2b (Z.land (Z.shiftr value 40) 255);
        z2b (Z.land (Z.shiftr value 48) 255);
        z2b (Z.land (Z.shiftr value 56) 255)].

(** [ptr] points to at least four (eight) bytes. *)
Definition DecodeFixed32 (ptr : list byte) : Z :=
  if kLittleEndian then host_load (ztake 4 ptr)
  else Z.lor (Z.lor (Z.lor (b2z (znth x00 ptr 0))
                           (Z.shiftl (b2z (znth x00 ptr 1)) 8))
                    (Z.shiftl (b2z (znth x00 ptr 2)) 16))
             (Z.shiftl (b2z (znth x00 ptr 3)) 24).

Definition DecodeFixed64 (ptr : list byte) : Z :=
  if kLittleEndian then host_load (ztake 8 ptr)
  else let lo := DecodeFixed32 ptr in
       let hi := DecodeFixed32 (zdrop 4 ptr) in
       Z.lor (u64 (Z.shiftl hi 32)) lo.

(** Both branches of the preprocessor test append what [EncodeFixed32] writes
    on the machines that take them. *)
Definition PutFixed32 (dst : list byte) (value : Z) : list byte :=
  dst ++ EncodeFixed32 value.
Definition PutFixed64 (dst : list byte) (value : Z) : list byte :=
  dst ++ EncodeFixed64 value.

Definition GetFixed64 (input : Slice) : option (Z * Slice) :=
  if size input <? 8 then None
  else Some (DecodeFixed64 input, zdrop 8 input).

(** ** Variable width *)

(** A store through [unsigned char*] keeps the low eight bits. *)
Definition EncodeVarint32 (v : Z) : list byte :=
  let B := 128 in
  if v <? Z.shiftl 1 7 then [z2b v]
  else if v <? Z.shiftl 1 14 then
    [z2b (Z.lor v B); z2b (Z.shiftr v 7)]
  else if v <? Z.shiftl 1 21 then
    [z2b (Z.lor v B); z2b (Z.lor (Z.shiftr v 7) B); z2b (Z.shiftr v 14)]
  else if v <? Z.shiftl 1 28 then
    [z2b (Z.lor v B); z2b (Z.lor (Z.shiftr v 7) B); z2b (Z.lor (Z.shiftr v 14) B);
     z2b (Z.shiftr v 21)]
  else
    [z2b (Z.lor v B); z2b (Z.lor (Z.shiftr v 7) B); z2b (Z.lor (Z.shiftr v 14) B);
     z2b (Z.lor (Z.shiftr v 21) B); z2b (Z.shiftr v 28)].

(** [while (v >= B) ...]: a 64-bit value leaves the loop after at most nine
    turns; [EncodeVarint64_unfold] is the loop without the fuel. *)
Fixpoint EncodeVarint64_loop (fuel : nat) (v : Z) : list byte :=
  match fuel with
  | O => []
  | S fuel' =>
      if 128 <=? v
      then z2b (Z.lor (Z.land v 127) 128) :: EncodeVarint64_loop fuel' (Z.shiftr v 7)
      else [z2b v]
  end.
Definition EncodeVarint64 (v : Z) : list byte := EncodeVarint64_loop 10 v.

Fixpoint VarintLength_loop (fuel : nat) (v len : Z) : Z :=
  match fuel with
  | O => len
  | S fuel' =>
      if 128 <=? v then VarintLength_loop fuel' (Z.shiftr v 7) (len + 1) else len
  end.
Definition VarintLength (v : Z) : Z := VarintLength_loop 10 v 1.

Definition PutVarint32 (dst : list byte) (v : Z) := dst ++ EncodeVarint32 v.
Definition PutVarint64 (dst : list byte) (v : Z) := dst ++ EncodeVarint64 v.
Definition PutVarint32Varint32 (dst : list byte) (v1 v2 : Z) :=
  dst ++ (EncodeVarint32 v1 ++ EncodeVarint32 v2).
Definition PutVarint32Varint32Varint32 (dst : list byte) (v1 v2 v3 : Z) :=
  dst ++ (EncodeVarint32 v1 ++ EncodeVarint32 v2 ++ EncodeVarint32 v3).
Definition PutVarint64Varint64 (dst : list byte) (v1 v2 : Z) :=
  dst ++ (EncodeVarint64 v1 ++ EncodeVarint64 v2).
Definition PutVarint32Varint64 (dst : list byte) (v1 v2 : Z) :=
  dst ++ (EncodeVarint32 v1 ++ EncodeVarint64 v2).
Definition PutVarint32Varint32Varint64 (dst : list byte) (v1 v2 v3 : Z) :=
  dst ++ (EncodeVarint32 v1 ++ EncodeVarint32 v2 ++ EncodeVarint64 v3).

(** The loop of [GetVarint32PtrFallback]: the bytes of [p .. limit), the shift
    and the bits read so far. *)
Fixpoint GetVarint32Ptr_loop (p : list byte) (shift result : Z) : option (Z * list byte) :=
  match p with
  | [] => None
  | b :: p' =>
      if shift <=? 28 then
        let byte := b2z b in
        if negb (Z.land byte 128 =? 0) then
          GetVarint32Ptr_loop p' (shift + 7)
            (Z.lor result (u32 (Z.shiftl (Z.land byte 127) shift)))
        else Some (Z.lor result (u32 (Z.shiftl byte shift)), p')
      else None
  end.
Definition GetVarint32PtrFallback (p : list byte) : option (Z * list byte) :=
  GetVarint32Ptr_loop p 0 0.

Definition GetVarint32Ptr (p : list byte) : option (Z * list byte) :=
  match p with
  | b :: p' =>
      let result := b2z b in
      if Z.land result 128 =? 0 then Some (result, p') else GetVarint32PtrFallback p
  | [] => GetVarint32PtrFallback p
  end.

Fixpoint GetVarint64Ptr_loop (p : list byte) (shift result : Z) : option (Z * list byte) :=
  match p with
  | [] => None
  | b :: p' =>
      if shift <=? 63 then
        let byte := b2z b in
        if negb (Z.land byte 128 =? 0) then
          GetVarint64Ptr_loop p' (shift + 7)
            (Z.lor result (u64 (Z.shiftl (Z.land byte 127) shift)))
        else Some (Z.lor result (u64 (Z.shiftl byte shift)), p')
      else None
  end.
Definition GetVarint64Ptr (p : list byte) : option (Z * list byte) :=
  GetVarint64Ptr_loop p 0 0.

(** On failure [*input] is left as it was. *)
Definition GetVarint32 (input : Slice) : option (Z * Slice) := GetVarint32Ptr input.
Definition GetVarint64 (input : Slice) : option (Z * Slice) := GetVarint64Ptr input.

(** ** Length-prefixed strings *)

Definition PutLengthPrefixedSlice (dst : list byte) (value : Slice) : list byte :=
  PutVarint32 dst (u32 (size value)) ++ value.

Definition PutLengthPrefixedSliceParts (dst : list byte) (parts : list Slice) : list byte :=
  let total_bytes := foldl (fun t p => u64 (t + size p)) 0 parts in
  foldl (fun d p => d ++ p) (PutVarint32 dst (u32 total_bytes)) parts.

(** The boolean result, [*result] and what [*input] becomes: the varint is consumed
    even when the string behind it is too short. *)
Definition GetLengthPrefixedSlice (input : Slice) : bool * Slice * Slice :=
  match GetVarint32 input with
  | Some (len, input') =>
      if len <=? size input' then (true, ztake len input', zdrop len input')
      else (false, [], input')
  | None => (false, [], input)
  end.

(** The overload on a [const char*], which trusts its input: [None] where the code
    builds a slice from a null pointer. *)
Definition GetLengthPrefixedSlice_ptr (data : list byte) : option Slice :=
  match GetVarint32Ptr (ztake 5 data) with
  | Some (len, rest) => Some (ztake len (zdrop (zlen (ztake 5 data) - zlen rest) data))
  | None => None
  end.

(** [GetSliceUntil] counts in a [uint32_t]; the fuel is one more than the length. *)
Fixpoint GetSliceUntil_loop (fuel : nat) (s : Slice) (delimiter : byte) (len : Z) : outcome Z :=
  match fuel with
  | O => NoFuel
  | S fuel' =>
      if (len <? size s) && negb (bool_decide (znth x00 s len = delimiter))
      then GetSliceUntil_loop fuel' s delimiter (u32 (len + 1))
      else Ret len
  end.
Definition GetSliceUntil (s : Slice) (delimiter : byte) : outcome (Slice * Slice) :=
  len ← GetSliceUntil_loop (S (length s)) s delimiter 0;
  s' ← remove_prefix s (u32 (len + (if len <? size s then 1 else 0)));
  mret (ztake len s, s').

(** ** Byte order *)

Fixpoint EndianTransform_loop (pos : list byte) (i size ret_val : Z) : Z :=
  match pos with
  | [] => ret_val
  | b :: pos' =>
      EndianTransform_loop pos' (i + 1) size
        (Z.lor ret_val (u64 (Z.shiftl (b2z b) (Z.shiftl (size - i - 1) 3))))
  end.
(** [size] is at most 8, the size of [input]. *)
Definition EndianTransform (input size : Z) : Z :=
  EndianTransform_loop (ztake size (host_bytes 8 input)) 0 size 0.

End Coding.

(** ** Lemmas: fixed width *)

Lemma z2b_land_255 z : z2b (Z.land z 255) = z2b z.
Proof. rewrite land_255. apply (z2b_u8 z). Qed.

Lemma le_dec_lor4 a b c d :
  Z.lor (Z.lor (Z.lor (b2z a) (Z.shiftl (b2z b) 8)) (Z.shiftl (b2z c) 16))
        (Z.shiftl (b2z d) 24) = le_dec [a; b; c; d].
Proof.
  pose proof (b2z_range a). pose proof (b2z_range b).
  pose proof (b2z_range c). pose proof (b2z_range d).
  rewrite (lor_shiftl_add (b2z a)) by lia.
  rewrite (lor_shiftl_add _ (b2z c)) by lia.
  rewrite lor_shiftl_add by lia. simpl le_dec. lia.
Qed.

Section HostCoding.
Context `{Host}.

Lemma host_load_bytes n v : host_load (host_bytes n v) = v mod 2 ^ (8 * Z.of_nat n).
Proof.
  unfold host_load, host_bytes. destruct kLittleEndian; rewrite ?rev_involutive; apply le_dec_enc.
Qed.

Lemma host_bytes_load l : host_bytes (length l) (host_load l) = l.
Proof.
  unfold host_load, host_bytes. destruct kLittleEndian; [apply le_enc_dec|].
  rewrite <- (length_rev l), le_enc_dec. apply rev_involutive.
Qed.

Lemma EncodeFixed32_le v : EncodeFixed32 v = le_enc 4 v.
Proof.
  unfold EncodeFixed32, host_bytes. destruct kLittleEndian; [done|].
  simpl. by rewrite !z2b_land_255, !Z.shiftr_shiftr by lia.
Qed.

Lemma EncodeFixed64_le v : EncodeFixed64 v = le_enc 8 v.
Proof.
  unfold EncodeFixed64, host_bytes. destruct kLittleEndian; [done|].
  simpl. by rewrite !z2b_land_255, !Z.shiftr_shiftr by lia.
Qed.

Lemma zlen_EncodeFixed32 v : zlen (EncodeFixed32 v) = 4.
Proof. by rewrite EncodeFixed32_le, zlen_le_enc. Qed.

Lemma DecodeFixed32_le p : 4 <= zlen p -> DecodeFixed32 p = le_dec (ztake 4 p).
Proof.
  intros Hp. unfold DecodeFixed32, host_load. destruct kLittleEndian; [done|].
  destruct p as [|a [|b [|c [|d p]]]]; try (exfalso; zlia). apply le_dec_lor4.
Qed.

Lemma DecodeFixed64_le p : 8 <= zlen p -> DecodeFixed64 p = le_dec (ztake 8 p).
Proof.
  intros Hp. unfold DecodeFixed64, host_load. destruct kLittleEndian eqn:E; [done|].
  rewrite !DecodeFixed32_le by (autorewrite with zlist; lia).
  pose proof (le_dec_range (ztake 4 p)) as H1.
  pose proof (le_dec_range (ztake 4 (zdrop 4 p))) as H2.
  autorewrite with zlist in H1, H2. replace (Z.min 4 (zlen p)) with 4 in H1 by lia.
  replace (Z.min 4 (Z.max 0 (zlen p - 4))) with 4 in H2 by lia.
  rewrite u64_small by (rewrite Z.shiftl_mul_pow2; lia).
  rewrite Z.lor_comm, lor_shiftl_add by lia.
  destruct p as [|a1 [|a2 [|a3 [|a4 [|a5 [|a6 [|a7 [|a8 p]]]]]]]]; try (exfalso; zlia).
  simpl. lia.
Qed.

Lemma DecodeFixed32_range p : 4 <= zlen p -> 0 <= DecodeFixed32 p < 2 ^ 32.
Proof.
  intros Hp. rewrite DecodeFixed32_le by done.
  pose proof (le_dec_range (ztake 4 p)) as H1.
  rewrite zlen_ztake in H1 by lia. by replace (Z.min 4 (zlen p)) with 4 in H1 by lia.
Qed.

Lemma DecodeFixed32_Encode v rest :
  DecodeFixed32 (EncodeFixed32 v ++ rest) = u32 v.
Proof.
  pose proof (zlen_EncodeFixed32 v) as Hl.
  rewrite DecodeFixed32_le by zlia.
  rewrite <- Hl, ztake_app_zlen, EncodeFixed32_le. apply le_dec_enc.
Qed.

End HostCoding.

(** ** Lemmas: variable width *)

Lemma z2b_lor_128 v : z2b (Z.lor v 128) = z2b (Z.lor (Z.land v 127) 128).
Proof.
  apply b2z_inj. rewrite !b2z_z2b, !wrap_land_ones by lia. change (Z.ones 8) with 255.
  rewrite !Z.land_lor_distr_l, <- !Z.land_assoc. change (Z.land 127 255) with 127.
  change (Z.land 128 255) with 128. change 255 with (Z.lor 127 128).
  rewrite Z.land_lor_distr_r, <- Z.lor_assoc. f_equal.
  bitwise. by destruct (Z.testbit v i), (Z.testbit 128 i).
Qed.

Lemma b2z_more v : b2z (z2b (Z.lor (Z.land v 127) 128)) = v mod 128 + 128.
Proof.
  rewrite land_127. pose proof (Z.mod_pos_bound v 128 ltac:(lia)).
  rewrite lor_128 by lia. apply b2z_z2b_small. lia.
Qed.

Lemma byte_land_128 b : (Z.land (b2z b) 128 =? 0) = (b2z b <? 128).
Proof. by destruct b. Qed.

Lemma shiftr7_lt v k : 0 <= k -> 0 <= v < 2 ^ (k + 7) -> 0 <= Z.shiftr v 7 < 2 ^ k.
Proof.
  intros Hk Hv. pose proof (shiftr_range (k + 7) 7 v ltac:(lia) Hv) as Hr.
  by replace (k + 7 - 7) with k in Hr by lia.
Qed.

Lemma EncodeVarint64_loop_fuel n m v :
  (1 <= n <= m)%nat -> 0 <= v < 2 ^ (7 * Z.of_nat n) ->
  EncodeVarint64_loop m v = EncodeVarint64_loop n v.
Proof.
  revert m v; induction n as [|n IH]; intros m v Hnm Hv; [lia|].
  destruct m as [|m]; [lia|]. simpl. destruct (Z.leb_spec 128 v) as [Hb|Hb]; [|done].
  f_equal. destruct n as [|n]; [simpl in Hv; lia|]. apply IH; [lia|].
  apply shiftr7_lt; [lia|]. by replace (7 * Z.of_nat (S n) + 7) with (7 * Z.of_nat (S (S n))) by lia.
Qed.

Lemma EncodeVarint64_unfold v :
  0 <= v < 2 ^ 64 ->
  EncodeVarint64 v =
    if 128 <=? v then z2b (Z.lor (Z.land v 127) 128) :: EncodeVarint64 (Z.shiftr v 7)
    else [z2b v].
Proof.
  intros Hv. unfold EncodeVarint64.
  change (EncodeVarint64_loop 10 v) with
    (if 128 <=? v then z2b (Z.lor (Z.land v 127) 128) :: EncodeVarint64_loop 9 (Z.shiftr v 7)
     else [z2b v]).
  destruct (128 <=? v); [|done]. f_equal. symmetry. apply EncodeVarint64_loop_fuel; [lia|].
  apply (shiftr7_lt v 63); lia.
Qed.

(** The hand-unrolled 32-bit encoder agrees with the loop. *)
Lemma EncodeVarint32_loop v : 0 <= v < 2 ^ 32 -> EncodeVarint32 v = EncodeVarint64 v.
Proof.
  intros Hv. unfold EncodeVarint32.
  change (Z.shiftl 1 7) with 128. change (Z.shiftl 1 14) with 16384.
  change (Z.shiftl 1 21) with 2097152. change (Z.shiftl 1 28) with 268435456.
  assert (forall k, 0 <= k -> Z.shiftr v (k + 7) = Z.shiftr v k / 128) as Hs.
  { intros k Hk. rewrite <- Z.shiftr_shiftr by lia. by rewrite (Z.shiftr_div_pow2 _ 7) by lia. }
  assert (Z.shiftr v 7 = v / 128) as H7 by (by rewrite Z.shiftr_div_pow2 by lia).
  pose proof (Hs 7 ltac:(lia) : Z.shiftr v 14 = _) as H14.
  pose proof (Hs 14 ltac:(lia) : Z.shiftr v 21 = _) as H21.
  pose proof (Hs 21 ltac:(lia) : Z.shiftr v 28 = _) as H28.
  rewrite EncodeVarint64_unfold by lia.
  destruct (Z.ltb_spec v 128); [by replace (128 <=? v) with false by lia|].
  replace (128 <=? v) with true by lia.
  rewrite EncodeVarint64_unfold by dlia.
  destruct (Z.ltb_spec v 16384).
  { rewrite !(z2b_lor_128 v). by replace (128 <=? Z.shiftr v 7) with false by dlia. }
  replace (128 <=? Z.shiftr v 7) with true by dlia.
  rewrite Z.shiftr_shiftr by lia. change (7 + 7) with 14.
  rewrite EncodeVarint64_unfold by dlia.
  destruct (Z.ltb_spec v 2097152).
  { rewrite !(z2b_lor_128 v), (z2b_lor_128 (Z.shiftr v 7)).
    by replace (128 <=? Z.shiftr v 14) with false by dlia. }
  replace (128 <=? Z.shiftr v 14) with true by dlia.
  rewrite Z.shiftr_shiftr by lia. change (14 + 7) with 21.
  rewrite EncodeVarint64_unfold by dlia.
  destruct (Z.ltb_spec v 268435456).
  { rewrite !(z2b_lor_128 v), (z2b_lor_128 (Z.shiftr v 7)), (z2b_lor_128 (Z.shiftr v 14)).
    by replace (128 <=? Z.shiftr v 21) with false by dlia. }
  replace (128 <=? Z.shiftr v 21) with true by dlia.
  rewrite Z.shiftr_shiftr by lia. change (21 + 7) with 28.
  rewrite EncodeVarint64_unfold by dlia.
  rewrite !(z2b_lor_128 v), (z2b_lor_128 (Z.shiftr v 7)), (z2b_lor_128 (Z.shiftr v 14)),
    (z2b_lor_128 (Z.shiftr v 21)).
  by replace (128 <=? Z.shiftr v 28) with false by dlia.
Qed.

(** The two decoding loops differ in the width of the result and the last shift. *)
Fixpoint varint_dec (W maxshift : Z) (p : list byte) (shift result : Z) : option (Z * list byte) :=
  match p with
  | [] => None
  | b :: p' =>
      if shift <=? maxshift then
        if 128 <=? b2z b then
          varint_dec W maxshift p' (shift + 7)
            (Z.lor result (wrap W (Z.shiftl (b2z b mod 128) shift)))
        else Some (Z.lor result (wrap W (Z.shiftl (b2z b) shift)), p')
      else None
  end.

Lemma GetVarint32Ptr_loop_dec p shift result :
  GetVarint32Ptr_loop p shift result = varint_dec 32 28 p shift result.
Proof.
  revert shift result; induction p as [|b p IH]; intros; simpl; [done|].
  rewrite byte_land_128, land_127, IH.
  by replace (128 <=? b2z b) with (negb (b2z b <? 128)) by lia.
Qed.

Lemma GetVarint64Ptr_loop_dec p shift result :
  GetVarint64Ptr_loop p shift result = varint_dec 64 63 p shift result.
Proof.
  revert shift result; induction p as [|b p IH]; intros; simpl; [done|].
  rewrite byte_land_128, land_127, IH.
  by replace (128 <=? b2z b) with (negb (b2z b <? 128)) by lia.
Qed.

Lemma GetVarint32Ptr_dec p : GetVarint32Ptr p = varint_dec 32 28 p 0 0.
Proof.
  unfold GetVarint32Ptr, GetVarint32PtrFallback. destruct p as [|b p]; [done|].
  rewrite byte_land_128. destruct (Z.ltb_spec (b2z b) 128).
  - simpl. replace (128 <=? b2z b) with false by lia.
    rewrite Z.shiftl_0_r, wrap_small by (pose proof (b2z_range b); lia). done.
  - apply GetVarint32Ptr_loop_dec.
Qed.

(** Decoding an encoding on top of the bits already read. *)
Lemma varint_dec_enc W maxshift fuel v shift res rest :
  (forall s, s mod 7 = 0 -> s < W -> s <= maxshift) ->
  (1 <= fuel)%nat -> 0 <= v < 2 ^ (7 * Z.of_nat fuel) ->
  0 <= shift <= maxshift -> shift mod 7 = 0 ->
  v * 2 ^ shift < 2 ^ W -> 0 <= res < 2 ^ shift ->
  varint_dec W maxshift (EncodeVarint64_loop fuel v ++ rest) shift res =
    Some (res + v * 2 ^ shift, rest).
Proof.
  intros Hmax. revert v shift res; induction fuel as [|fuel IH];
    intros v shift res Hf Hv Hs Hs7 HW Hr; [lia|]. simpl.
  assert (forall x, 0 <= x <= v ->
    Z.lor res (wrap W (Z.shiftl x shift)) = res + x * 2 ^ shift) as Hor.
  { intros x Hx. rewrite <- lor_shiftl_add by lia. f_equal. apply wrap_small.
    rewrite Z.shiftl_mul_pow2 by lia. pose proof (Z.pow_pos_nonneg 2 shift). nia. }
  destruct (Z.leb_spec 128 v) as [Hb|Hb]; simpl; replace (shift <=? maxshift) with true by lia.
  - rewrite b2z_more. pose proof (Z.mod_pos_bound v 128 ltac:(lia)).
    replace (128 <=? v mod 128 + 128) with true by lia.
    replace ((v mod 128 + 128) mod 128) with (v mod 128) by dlia.
    rewrite Hor by dlia.
    assert (0 < 2 ^ shift) as Hp by (apply Z.pow_pos_nonneg; lia).
    assert (Z.shiftr v 7 = v / 128) as Hsr by (by rewrite Z.shiftr_div_pow2 by lia).
    assert (2 ^ (shift + 7) = 128 * 2 ^ shift) as Hp7 by (rewrite Z.pow_add_r; lia).
    assert (shift + 7 < W) as Hlt.
    { apply (Z.pow_lt_mono_r_iff 2); [lia| |nia].
      destruct (Z.le_gt_cases 0 W); [lia|]. rewrite (Z.pow_neg_r 2 W) in HW; nia. }
    destruct fuel as [|fuel]; [simpl in Hv; lia|].
    rewrite IH; rewrite ?Hsr, ?Hp7.
    + f_equal. f_equal. dlia.
    + lia.
    + rewrite <- Hsr. apply shiftr7_lt; [lia|].
      by replace (7 * Z.of_nat (S fuel) + 7) with (7 * Z.of_nat (S (S fuel))) by lia.
    + split; [lia|]. apply Hmax; dlia.
    + dlia.
    + apply Z.le_lt_trans with (v * 2 ^ shift); [|done]. 
      pose proof (Z.mul_div_le v 128 ltac:(lia)). nia.
    + nia.
  - rewrite b2z_z2b_small by lia. replace (128 <=? v) with false by lia.
    by rewrite Hor by lia.
Qed.

Lemma mod7_32 s : s mod 7 = 0 -> s < 32 -> s <= 28.
Proof. dlia. Qed.
Lemma mod7_64 s : s mod 7 = 0 -> s < 64 -> s <= 63.
Proof. lia. Qed.

(** What a decoder accepts: a proper prefix of bytes with the high bit set, then one
    without, within its number of bytes. *)
Lemma varint_dec_Some W maxshift p shift res v rest :
  varint_dec W maxshift p shift res = Some (v, rest) ->
  exists cont last, p = cont ++ last :: rest /\
    Forall (fun b => 128 <= b2z b) cont /\ b2z last < 128 /\
    shift + 7 * zlen cont <= maxshift.
Proof.
  revert shift res; induction p as [|b p IH]; intros shift res Hd; simpl in Hd; [done|].
  destruct (Z.leb_spec shift maxshift); [|done].
  destruct (Z.leb_spec 128 (b2z b)) as [Hb|Hb].
  - apply IH in Hd as (cont & last & -> & Hc & Hl & Hm).
    exists (b :: cont), last. split_and!; auto. rewrite zlen_cons. lia.
  - injection Hd as <- <-. exists [], b. split_and!; auto. zlia.
Qed.

Lemma varint_dec_None W maxshift p shift res :
  varint_dec W maxshift p shift res = None ->
  forall cont last rest, p = cont ++ last :: rest ->
    Forall (fun b => 128 <= b2z b) cont -> b2z last < 128 -> maxshift < shift + 7 * zlen cont.
Proof.
  revert shift res; induction p as [|b p IH]; intros shift res Hd cont last rest Hp Hc Hl.
  { by destruct cont. }
  simpl in Hd. destruct (Z.leb_spec shift maxshift).
  - destruct (Z.leb_spec 128 (b2z b)) as [Hb|Hb]; [|done].
    destruct cont as [|c cont]; simplify_eq/=; [lia|].
    apply Forall_cons_1 in Hc as [_ Hc].
    pose proof (IH _ _ Hd cont last rest eq_refl Hc Hl). zlia.
  - zlen_pos. lia.
Qed.

Lemma varint_dec_range W maxshift p shift res v rest :
  0 <= W -> 0 <= res < 2 ^ W ->
  varint_dec W maxshift p shift res = Some (v, rest) -> 0 <= v < 2 ^ W.
Proof.
  intros HW. revert shift res; induction p as [|b p IH]; intros shift res Hres Hd; simpl in Hd; [done|].
  destruct (shift <=? maxshift); [|done]. destruct (128 <=? b2z b).
  - eapply IH; [|done]. apply lor_range; auto using wrap_range.
  - injection Hd as <- <-. apply lor_range; auto using wrap_range.
Qed.

Lemma GetVarint32_Put v rest :
  0 <= v < 2 ^ 32 -> GetVarint32 (EncodeVarint32 v ++ rest) = Some (v, rest).
Proof.
  intros Hv. unfold GetVarint32. rewrite GetVarint32Ptr_dec, EncodeVarint32_loop by lia.
  unfold EncodeVarint64. rewrite (varint_dec_enc 32 28); auto using mod7_32; try lia.
  by rewrite Z.add_0_l, Z.mul_1_r.
Qed.

Lemma GetVarint64_Put v rest :
  0 <= v < 2 ^ 64 -> GetVarint64 (EncodeVarint64 v ++ rest) = Some (v, rest).
Proof.
  intros Hv. unfold GetVarint64, GetVarint64Ptr. rewrite GetVarint64Ptr_loop_dec.
  unfold EncodeVarint64. rewrite (varint_dec_enc 64 63); auto using mod7_64; try lia.
  by rewrite Z.add_0_l, Z.mul_1_r.
Qed.

Lemma VarintLength_loop_enc fuel v len :
  0 <= v < 2 ^ (7 * Z.of_nat fuel) -> (1 <= fuel)%nat ->
  VarintLength_loop fuel v len + 1 = len + zlen (EncodeVarint64_loop fuel v).
Proof.
  revert v len; induction fuel as [|fuel IH]; intros v len Hv Hf; [lia|]. simpl.
  destruct (Z.leb_spec 128 v); [|rewrite zlen_cons, zlen_nil; lia].
  destruct fuel as [|fuel]; [simpl in Hv; lia|].
  rewrite IH, zlen_cons; [lia| |lia]. apply shiftr7_lt; [lia|].
  by replace (7 * Z.of_nat (S fuel) + 7) with (7 * Z.of_nat (S (S fuel))) by lia.
Qed.

Lemma zlen_EncodeVarint64_loop fuel v : zlen (EncodeVarint64_loop fuel v) <= Z.of_nat fuel.
Proof.
  revert v; induction fuel as [|fuel IH]; intros v; [done|]. simpl.
  destruct (128 <=? v); rewrite zlen_cons; [specialize (IH (Z.shiftr v 7))|rewrite zlen_nil]; lia.
Qed.

Lemma GetSliceUntil_loop_spec fuel s d len :
  zlen s < 2 ^ 32 -> 0 <= len <= zlen s -> zlen s - len < Z.of_nat fuel ->
  exists n, GetSliceUntil_loop fuel s d len = Ret n /\ len <= n <= zlen s /\
    (forall i, len <= i < n -> znth x00 s i <> d) /\ (n < zlen s -> znth x00 s n = d).
Proof.
  intros Hs. revert len; induction fuel as [|fuel IH]; intros len Hl Hf; [lia|]. simpl.
  unfold size. destruct (Z.ltb_spec len (zlen s)) as [Hlt|Hge]; simpl.
  - case_bool_decide as Hd; simpl.
    + exists len. split_and!; auto; lia.
    + rewrite u32_small by lia. destruct (IH (len + 1)) as (n & -> & Hn & Hne & Hend); [lia..|].
      exists n. split_and!; auto; [lia..|]. intros i Hi.
      destruct (decide (i = len)) as [->|]; [done|]. apply Hne. lia.
  - exists len. split_and!; auto; lia.
Qed.

Lemma EndianTransform_loop_spec l i n r :
  zlen l = n - i -> 0 <= i -> n <= 8 -> 0 <= r -> r mod 2 ^ (8 * (n - i)) = 0 ->
  EndianTransform_loop l i n r = r + le_dec (rev l).
Proof.
  revert i r; induction l as [|b l IH]; intros i r Hl Hi Hn Hr Hm; simpl; [lia|].
  rewrite zlen_cons in Hl. pose proof (b2z_range b) as Hb. zlen_pos.
  set (k := n - i - 1) in *.
  assert (Z.shiftl k 3 = 8 * k) as -> by (rewrite Z.shiftl_mul_pow2; lia).
  assert (8 * (n - i) = 8 * k + 8) as He by lia.
  rewrite He, Z.pow_add_r in Hm by lia. change (2 ^ 8) with 256 in Hm.
  pose proof (Z.pow_pos_nonneg 2 (8 * k) ltac:(lia) ltac:(lia)) as Hp.
  assert (2 ^ (8 * k) * 256 <= 2 ^ 64) as H64.
  { change 256 with (2 ^ 8). rewrite <- Z.pow_add_r by lia. apply Z.pow_le_mono_r; lia. }
  apply Z.mod_divide in Hm as [q ->]; [|lia].
  rewrite u64_small by (rewrite Z.shiftl_mul_pow2 by lia; nia).
  replace (Z.lor (q * (2 ^ (8 * k) * 256)) (Z.shiftl (b2z b) (8 * k)))
    with (q * (2 ^ (8 * k) * 256) + b2z b * 2 ^ (8 * k)).
  2: { rewrite Z.lor_comm.
       replace (q * (2 ^ (8 * k) * 256)) with (Z.shiftl q (8 * k + 8)).
       2: { rewrite Z.shiftl_mul_pow2, Z.pow_add_r by lia. done. }
       rewrite lor_shiftl_add; rewrite ?Z.shiftl_mul_pow2, ?Z.pow_add_r by lia; lia || nia. }
  rewrite IH.
  - rewrite le_dec_app, zlen_rev. replace (zlen l) with k by lia. simpl. lia.
  - lia.
  - lia.
  - lia.
  - nia.
  - replace (n - (i + 1)) with k by lia.
    replace (q * (2 ^ (8 * k) * 256) + b2z b * 2 ^ (8 * k))
      with ((q * 256 + b2z b) * 2 ^ (8 * k)) by lia.
    apply Z.mod_mul. lia.
Qed.

(** At most five bytes for a 32-bit value, at most ten for a 64-bit one. *)
Lemma zlen_EncodeVarint64_bound v :
  0 <= v < 2 ^ 64 ->
  1 <= zlen (EncodeVarint64 v) <= 10 /\ (v < 2 ^ 32 -> zlen (EncodeVarint64 v) <= 5).
Proof.
  intros Hv. split.
  - split; [|apply (zlen_EncodeVarint64_loop 10)].
    rewrite EncodeVarint64_unfold by done. case_match; zlia.
  - intros H32. unfold EncodeVarint64. rewrite (EncodeVarint64_loop_fuel 5) by lia.
    apply (zlen_EncodeVarint64_loop 5).
Qed.

Lemma VarintLength_spec v : 0 <= v < 2 ^ 64 -> VarintLength v = zlen (EncodeVarint64 v).
Proof.
  intros Hv. unfold VarintLength, EncodeVarint64.
  pose proof (VarintLength_loop_enc 10 v 1 ltac:(lia) ltac:(lia)). lia.
Qed.

Lemma GetLengthPrefixedSlice_ptr_Put value rest :
  0 <= zlen value < 2 ^ 32 ->
  GetLengthPrefixedSlice_ptr (EncodeVarint32 (zlen value) ++ value ++ rest) = Some value.
Proof.
  intros Hr. unfold GetLengthPrefixedSlice_ptr.
  pose proof (zlen_EncodeVarint64_bound (zlen value) ltac:(lia)) as [_ H5].
  specialize (H5 ltac:(lia)). rewrite <- EncodeVarint32_loop in H5 by lia.
  rewrite (ztake_app_ge 5) by lia.
  set (r := ztake (5 - _) (value ++ rest)).
  assert (GetVarint32Ptr (EncodeVarint32 (zlen value) ++ r) = Some (zlen value, r)) as ->
    by (by apply (GetVarint32_Put (zlen value) r)).
  rewrite zlen_app, Z.add_simpl_r. by rewrite zdrop_app_zlen, ztake_app_zlen.
Qed.

Lemma foldl_app_concat (ps : list Slice) (d : list byte) :
  foldl (fun d p => d ++ p) d ps = d ++ concat ps.
Proof.
  revert d; induction ps as [|p ps IH]; intros d; simpl; [by rewrite app_nil_r|].
  by rewrite IH, app_assoc.
Qed.

Lemma foldl_size_concat (ps : list Slice) t :
  0 <= t -> t + zlen (concat ps) < 2 ^ 64 ->
  foldl (fun t p => u64 (t + zlen p)) t ps = t + zlen (concat ps).
Proof.
  revert t; induction ps as [|p ps IH]; intros t Ht Hb; simpl in *; [unfold zlen; simpl; lia|].
  rewrite zlen_app in *. zlen_pos. rewrite u64_small, IH by lia. lia.
Qed.

(** ** Properties *)

Section Properties.
Context `{Host}.

(** the fixed-width codes are endian-neutral and invertible: on every host
    [EncodeFixed32]/[EncodeFixed64] write the value's bytes least significant first,
    and [DecodeFixed32]/[DecodeFixed64]/[GetFixed64] read back the value (modulo the
    width) and leave exactly the bytes behind it. *)
Theorem fixed_roundtrip v rest :
  EncodeFixed32 v = le_enc 4 v /\ EncodeFixed64 v = le_enc 8 v /\
  DecodeFixed32 (PutFixed32 [] v ++ rest) = u32 v /\
  DecodeFixed64 (PutFixed64 [] v ++ rest) = u64 v /\
  GetFixed64 (PutFixed64 [] v ++ rest) = Some (u64 v, rest).
Proof.
  assert (zlen (EncodeFixed64 v) = 8) as Hl by (by rewrite EncodeFixed64_le, zlen_le_enc).
  assert (DecodeFixed64 (EncodeFixed64 v ++ rest) = u64 v) as Hd.
  { rewrite DecodeFixed64_le by zlia.
    rewrite <- Hl, ztake_app_zlen, EncodeFixed64_le. apply le_dec_enc. }
  split_and!; unfold PutFixed32, PutFixed64, GetFixed64, size; simpl;
    auto using EncodeFixed32_le, EncodeFixed64_le, DecodeFixed32_Encode.
  rewrite Hd. replace (_ <? 8) with false by zlia.
  by rewrite <- Hl, zdrop_app_zlen.
Qed.

(** Varint round trip. For every 32-bit (64-bit) value the decoder reads back
    what the encoder appended, whatever follows it, the two encoders agree on
    32-bit values, and [VarintLength] is the number of bytes written, between one
    and ten (and at most five for 32 bits). *)
Lemma varint_roundtrip v w rest :
  0 <= v < 2 ^ 32 -> 0 <= w < 2 ^ 64 ->
  GetVarint32 (PutVarint32 [] v ++ rest) = Some (v, rest) /\
  GetVarint64 (PutVarint64 [] w ++ rest) = Some (w, rest) /\
  PutVarint32 [] v = PutVarint64 [] v /\
  VarintLength w = zlen (PutVarint64 [] w) /\
  1 <= VarintLength w <= kMaxVarint64Length /\ VarintLength v <= 5.
Proof.
  intros Hv Hw. unfold PutVarint32, PutVarint64; simpl.
  destruct (zlen_EncodeVarint64_bound w Hw) as [H10 _].
  destruct (zlen_EncodeVarint64_bound v) as [_ H5]; [lia|].
  rewrite !VarintLength_spec by lia. unfold kMaxVarint64Length.
  split_and!; auto using GetVarint32_Put, GetVarint64_Put, EncodeVarint32_loop; lia.
Qed.

(** [GetVarint32] accepts exactly a run of at most four continuation bytes
    followed by a byte below 128: then it consumes just those bytes and yields a
    32-bit value; otherwise it fails. It never needs a byte beyond the slice. *)
Theorem GetVarint32_accepts (input : Slice) :
  match GetVarint32 input with
  | Some (v, rest) => 0 <= v < 2 ^ 32 /\
      exists cont last, input = cont ++ last :: rest /\
        Forall (fun b => 128 <= b2z b) cont /\ b2z last < 128 /\ zlen cont <= 4
  | None => ~ exists cont last rest, input = cont ++ last :: rest /\
        Forall (fun b => 128 <= b2z b) cont /\ b2z last < 128 /\ zlen cont <= 4
  end.
Proof.
  unfold GetVarint32. rewrite GetVarint32Ptr_dec.
  destruct (varint_dec 32 28 input 0 0) as [[v rest]|] eqn:E.
  - split; [by eapply varint_dec_range in E|].
    apply varint_dec_Some in E as (cont & last & -> & Hc & Hl & Hm).
    exists cont, last. split_and!; auto. lia.
  - intros (cont & last & rest & Hp & Hc & Hl & Hm).
    pose proof (varint_dec_None _ _ _ _ _ E _ _ _ Hp Hc Hl). lia.
Qed.

(** length-prefixed strings round trip: a slice shorter than 4 GiB comes back
    as written, with what follows it left in the input, and writing a list of parts
    is writing their concatenation. *)
Theorem length_prefixed_roundtrip value rest parts :
  size value < 2 ^ 32 -> size (concat parts) < 2 ^ 32 ->
  GetLengthPrefixedSlice (PutLengthPrefixedSlice [] value ++ rest) = (true, value, rest) /\
  GetLengthPrefixedSlice_ptr (PutLengthPrefixedSlice [] value ++ rest) = Some value /\
  PutLengthPrefixedSliceParts [] parts = PutLengthPrefixedSlice [] (concat parts).
Proof.
  unfold size. intros Hv Hp.
  assert (0 <= zlen value < 2 ^ 32) as Hr by zlia.
  unfold PutLengthPrefixedSliceParts, PutLengthPrefixedSlice, PutVarint32, size; simpl.
  rewrite (u32_small (zlen value)), <- app_assoc by lia.
  split_and!; [|by apply GetLengthPrefixedSlice_ptr_Put|].
  - unfold GetLengthPrefixedSlice. rewrite GetVarint32_Put by lia. unfold size.
    replace (_ <=? _) with true by zlia. by rewrite ztake_app_zlen, zdrop_app_zlen.
  - rewrite foldl_app_concat, foldl_size_concat by lia. by rewrite Z.add_0_l.
Qed.

(** [EndianTransform] with [size] 8 is a platform-independent conversion to big
    endian: on every host the memory image of its result is the value's bytes most
    significant first, and applying it twice gives the value back. *)
Theorem EndianTransform_big_endian v :
  0 <= v < 2 ^ 64 ->
  host_bytes 8 (EndianTransform v 8) = rev (le_enc 8 v) /\
  EndianTransform (EndianTransform v 8) 8 = v.
Proof.
  intros Hv.
  assert (forall x, EndianTransform x 8 = le_dec (rev (host_bytes 8 x))) as He.
  { intros x. unfold EndianTransform.
    assert (zlen (host_bytes 8 x) = 8) as Hl.
    { unfold host_bytes. destruct kLittleEndian; rewrite ?zlen_rev; apply zlen_le_enc. }
    rewrite ztake_ge by lia. rewrite EndianTransform_loop_spec; [lia|lia|lia|lia|lia|].
    by rewrite Z.mod_0_l. }
  assert (le_dec (le_enc 8 v) = v) as Hdv by (rewrite le_dec_enc; by apply Z.mod_small).
  assert (host_bytes 8 (EndianTransform v 8) = rev (le_enc 8 v)) as H1.
  { rewrite He. unfold host_bytes. destruct kLittleEndian.
    - pose proof (le_enc_dec (rev (le_enc 8 v))) as E. by rewrite length_rev, length_le_enc in E.
    - by rewrite rev_involutive, Hdv. }
  split; [done|]. by rewrite He, H1, rev_involutive.
Qed.

End Properties.

(** ** Witnesses *)

Lemma varint_roundtrip_witness :
  GetVarint32 (PutVarint32 [] 300 ++ [x07]) = Some (300, [x07]) /\
  VarintLength 18446744073709551615 = 10.
Proof.
  destruct (varint_roundtrip 300 18446744073709551615 [x07]) as (H1 & _ & _ & H2 & _);
    [lia|lia|].
  split; [exact H1|]. rewrite H2. vm_compute. reflexivity.
Defined.

Lemma length_prefixed_roundtrip_witness :
  GetLengthPrefixedSlice (PutLengthPrefixedSlice [] [x61; x62] ++ [x63]) =
    (true, [x61; x62], [x63]).
Proof.
  apply (length_prefixed_roundtrip [x61; x62] [x63] [[x61]; [x62]]); vm_compute; reflexivity.
Defined.

Lemma EndianTransform_big_endian_witness :
  EndianTransform (H := {| kLittleEndian := true |})
    (EndianTransform (H := {| kLittleEndian := true |}) 258 8) 8 = 258.
Proof. apply EndianTransform_big_endian. lia. Defined.
