(* ===== verification/Status.v ===== *)
(** * Status ([include/rocksutil/status.h], [rutil/status.cc], [rutil/status_message.cc])

    The result of an operation: a code, a subcode and a message kept in a heap
    block [state_] that starts with its length. The heap block is modelled by its
    bytes ([None] is the null pointer); assignments work on a store of [Status]
    objects, so that aliasing ([this == &s]) is visible. *)

From Stdlib Require Import Strings.Byte Strings.String.
From stdpp Require Import gmap.
From S2P Require Import Prelude.
From S2P Require Import Slice.
From S2P Require Import Coding.

Inductive Code : Set :=
| kOk | kNotFound | kCorruption | kNotSupported | kInvalidArgument | kIOError
| kMergeInProgress | kIncomplete | kShutdownInProgress | kTimedOut | kAborted
| kBusy | kExpired | kTryAgain.

Inductive SubCode : Set :=
| kNone | kMutexTimeout | kLockTimeout | kLockLimit | kNoSpace | kDeadlock | kMaxSubCode.

#[export] Instance Code_eq_dec : EqDecision Code.
Proof. solve_decision. Defined.
#[export] Instance SubCode_eq_dec : EqDecision SubCode.
Proof. solve_decision. Defined.

Definition SubCode_index (s : SubCode) : Z :=
  match s with
  | kNone => 0 | kMutexTimeout => 1 | kLockTimeout => 2 | kLockLimit => 3
  | kNoSpace => 4 | kDeadlock => 5 | kMaxSubCode => 6
  end.

Record Status : Set := mkStatus {
  code : Code;
  subcode : SubCode;
  state_ : option (list byte);
}.

#[export] Instance Status_eq_dec : EqDecision Status.
Proof. solve_decision. Defined.

(** [Status::OK()] and the constructor without a message. *)
Definition OK : Status := mkStatus kOk kNone None.
Definition Status_of (c : Code) (sub : SubCode) : Status := mkStatus c sub None.

Section Status.
Context `{Host}.

(** [size], computed in [uint32_t]. *)
Definition state_size (msg msg2 : Slice) : Z :=
  let len1 := u32 (size msg) in
  let len2 := u32 (size msg2) in
  u32 (len1 + (if negb (len2 =? 0) then 2 + len2 else 0)).

(** The bytes that the constructor writes into [state_]. *)
Definition make_state (msg msg2 : Slice) : list byte :=
  let len1 := u32 (size msg) in
  let len2 := u32 (size msg2) in
  host_bytes 4 (state_size msg msg2) ++ ztake len1 msg ++
    (if negb (len2 =? 0) then [x3a; x20] ++ ztake len2 msg2 else []).

(** [Status(Code, SubCode, const Slice&, const Slice&)]: the block has
    [size + 4] bytes, computed in [uint32_t]; writing past it is undefined. *)
Definition Status_new (c : Code) (sub : SubCode) (msg msg2 : Slice) : outcome Status :=
  _ ← assert_that (negb (bool_decide (c = kOk)));
  _ ← assert_that (negb (bool_decide (sub = kMaxSubCode)));
  let st := make_state msg msg2 in
  if zlen st <=? u32 (state_size msg msg2 + 4) then mret (mkStatus c sub (Some st)) else Undef.

(** The status that [Status_new] builds when it returns; the named constructors
    ([Corruption], [IOError], ...) are [error] at their code. *)
Definition error (c : Code) (sub : SubCode) (msg msg2 : Slice) : Status :=
  mkStatus c sub (Some (make_state msg msg2)).
Definition Corruption (msg msg2 : Slice) : Status := error kCorruption kNone msg msg2.
Definition NotFound (msg msg2 : Slice) : Status := error kNotFound kNone msg msg2.
Definition NotSupported (msg msg2 : Slice) : Status := error kNotSupported kNone msg msg2.
Definition InvalidArgument (msg msg2 : Slice) : Status := error kInvalidArgument kNone msg msg2.
Definition IOError (msg msg2 : Slice) : Status := error kIOError kNone msg msg2.
Definition NoSpace (msg msg2 : Slice) : Status := error kIOError kNoSpace msg msg2.

(** [CopyState] *)
Definition CopyState (state : list byte) : list byte :=
  let sz := host_load (ztake 4 state) in
  ztake (u32 (sz + 4)) state.

(** The copy constructor. *)
Definition copy (s : Status) : Status :=
  mkStatus (code s) (subcode s) (option_map CopyState (state_ s)).

(** [operator=(const Status&)], on a store of objects. *)
Definition copy_assign (m : gmap Z Status) (this s : Z) : gmap Z Status :=
  if bool_decide (this = s) then m
  else match m !! s with
       | Some v => <[this := copy v]> m
       | None => m
       end.

(** [operator=(Status&&)] *)
Definition move_assign (m : gmap Z Status) (this s : Z) : gmap Z Status :=
  if bool_decide (this = s) then m
  else match m !! s with
       | Some v => <[s := OK]> (<[this := v]> m)
       | None => m
       end.

(** The move constructor: [*this] starts as [Status()]. *)
Definition move_construct (m : gmap Z Status) (this s : Z) : gmap Z Status :=
  move_assign (<[this := OK]> m) this s.

(** [operator==]: only the codes are compared. *)
Definition status_eq (a b : Status) : bool := bool_decide (code a = code b).
Definition status_ne (a b : Status) : bool := negb (status_eq a b).

Definition ok (s : Status) : bool := bool_decide (code s = kOk).
Definition IsNotFound (s : Status) : bool := bool_decide (code s = kNotFound).
Definition IsCorruption (s : Status) : bool := bool_decide (code s = kCorruption).
Definition IsNotSupported (s : Status) : bool := bool_decide (code s = kNotSupported).
Definition IsInvalidArgument (s : Status) : bool := bool_decide (code s = kInvalidArgument).
Definition IsIOError (s : Status) : bool := bool_decide (code s = kIOError).
Definition IsMergeInProgress (s : Status) : bool := bool_decide (code s = kMergeInProgress).
Definition IsIncomplete (s : Status) : bool := bool_decide (code s = kIncomplete).
Definition IsShutdownInProgress (s : Status) : bool :=
  bool_decide (code s = kShutdownInProgress).
Definition IsTimedOut (s : Status) : bool := bool_decide (code s = kTimedOut).
Definition IsAborted (s : Status) : bool := bool_decide (code s = kAborted).
Definition IsLockLimit (s : Status) : bool :=
  bool_decide (code s = kAborted) && bool_decide (subcode s = kLockLimit).
Definition IsBusy (s : Status) : bool := bool_decide (code s = kBusy).
Definition IsDeadlock (s : Status) : bool :=
  bool_decide (code s = kBusy) && bool_decide (subcode s = kDeadlock).
Definition IsExpired (s : Status) : bool := bool_decide (code s = kExpired).
Definition IsTryAgain (s : Status) : bool := bool_decide (code s = kTryAgain).
Definition IsNoSpace (s : Status) : bool :=
  bool_decide (code s = kIOError) && bool_decide (subcode s = kNoSpace).

Definition type_string (c : Code) : string :=
  match c with
  | kOk => "OK"
  | kNotFound => "NotFound: "
  | kCorruption => "Corruption: "
  | kNotSupported => "Not implemented: "
  | kInvalidArgument => "Invalid argument: "
  | kIOError => "IO error: "
  | kMergeInProgress => "Merge in progress: "
  | kIncomplete => "Result incomplete: "
  | kShutdownInProgress => "Shutdown in progress: "
  | kTimedOut => "Operation timed out: "
  | kAborted => "Operation aborted: "
  | kBusy => "Resource busy: "
  | kExpired => "Operation expired: "
  | kTryAgain => "Operation failed. Try again.: "
  end.

(** The array is declared with [kMaxSubCode] entries and initialised with five, so
    that entry 5 is a null pointer. *)
Definition msgs : list (option string) :=
  [Some ""; Some "Timeout Acquiring Mutex"; Some "Timeout waiting to lock key";
   Some "Failed to acquire lock due to max_num_locks limit";
   Some "No space left on device"; None]%string.

(** [sizeof(msgs)] counts bytes, eight per pointer. *)
Definition sizeof_msgs : Z := 8 * zlen msgs.

Definition ToString (s : Status) : outcome (list byte) :=
  if bool_decide (code s = kOk) then mret (str "OK")
  else
    let result := str (type_string (code s)) in
    result ← (if negb (bool_decide (subcode s = kNone)) then
                let index := SubCode_index (subcode s) in
                _ ← assert_that (index <? sizeof_msgs);
                match msgs !! Z.to_nat index with
                | Some (Some t) => mret (result ++ str t)
                | Some None | None => Undef
                end
              else mret result);
    match state_ s with
    | Some st => mret (result ++ ztake (host_load (ztake 4 st)) (zdrop 4 st))
    | None => mret result
    end.

(** ** Lemmas *)

(** The message as it is read back from [state_]. *)
Definition message (s : Status) : list byte :=
  match state_ s with
  | Some st => ztake (host_load (ztake 4 st)) (zdrop 4 st)
  | None => []
  end.

(** The message that the constructor is asked to store. *)
Definition joined (msg msg2 : Slice) : list byte :=
  msg ++ (match msg2 with [] => [] | _ => [x3a; x20] ++ msg2 end).

(** [state_] blocks hold their length and exactly that many bytes. *)
Definition state_wf (st : list byte) : Prop :=
  4 <= zlen st /\ host_load (ztake 4 st) = zlen st - 4 /\ zlen st < 2 ^ 32.
Definition status_wf (s : Status) : Prop :=
  match state_ s with Some st => state_wf st | None => True end.

Lemma zlen_host_bytes n v : zlen (host_bytes n v) = Z.of_nat n.
Proof. unfold host_bytes. case_match; rewrite ?zlen_rev; apply zlen_le_enc. Qed.

Lemma host_load_bytes_app n v k :
  0 <= v < 2 ^ (8 * Z.of_nat n) ->
  host_load (ztake (Z.of_nat n) (host_bytes n v ++ k)) = v.
Proof.
  intros Hv. rewrite <- (zlen_host_bytes n v), ztake_app_zlen.
  unfold host_load, host_bytes. case_match; rewrite ?rev_involutive, le_dec_enc;
  by apply Z.mod_small.
Qed.

Lemma zlen_joined msg msg2 :
  zlen msg <= zlen (joined msg msg2) <= zlen msg + zlen msg2 + 2.
Proof. unfold joined. destruct msg2; zlia. Qed.

Lemma state_size_joined msg msg2 :
  size msg + size msg2 < 2 ^ 32 - 6 -> state_size msg msg2 = zlen (joined msg msg2).
Proof.
  unfold state_size, joined, size. intros Hs. zlen_pos.
  rewrite !(u32_small (zlen _)) by lia.
  destruct msg2 as [|b msg2].
  - change (zlen (@nil byte)) with 0 in *. simpl negb; cbv iota.
    rewrite Z.add_0_r, u32_small, app_nil_r by lia. done.
  - rewrite zlen_app, zlen_app. change (zlen [x3a; x20]) with 2.
    set (k := zlen (b :: msg2)) in *.
    assert (k <> 0) by (unfold k; rewrite zlen_cons; zlen_pos; lia).
    replace (k =? 0) with false by lia. simpl negb; cbv iota. apply u32_small. lia.
Qed.

Lemma make_state_joined msg msg2 :
  size msg + size msg2 < 2 ^ 32 - 6 ->
  make_state msg msg2 = host_bytes 4 (zlen (joined msg msg2)) ++ joined msg msg2.
Proof.
  intros Hs. unfold make_state. rewrite state_size_joined by done.
  unfold joined, size in *. zlen_pos.
  rewrite !(u32_small (zlen _)) by lia. rewrite !ztake_ge by lia. do 2 f_equal.
  destruct msg2 as [|b msg2]; [done|]. by replace (zlen (b :: msg2) =? 0) with false by zlia.
Qed.

Lemma make_state_wf msg msg2 :
  size msg + size msg2 < 2 ^ 32 - 6 -> state_wf (make_state msg msg2).
Proof.
  intros Hs. rewrite make_state_joined by done. pose proof (zlen_joined msg msg2).
  unfold state_wf, size in *. rewrite zlen_app, zlen_host_bytes. zlen_pos.
  split_and!; [lia| |lia].
  rewrite (host_load_bytes_app 4) by (change (2 ^ (8 * Z.of_nat 4)) with (2 ^ 32); lia). lia.
Qed.

Lemma Status_new_Ret c sub msg msg2 :
  c <> kOk -> sub <> kMaxSubCode -> size msg + size msg2 < 2 ^ 32 - 6 ->
  Status_new c sub msg msg2 = Ret (error c sub msg msg2).
Proof.
  intros Hc Hsub Hs. unfold Status_new. rewrite !bool_decide_false by done.
  cbv zeta; simpl negb; rewrite !assert_true by done.
  pose proof (make_state_joined msg msg2 Hs) as Hj.
  pose proof (zlen_joined msg msg2).
  assert ((zlen (make_state msg msg2) <=? u32 (state_size msg msg2 + 4)) = true) as ->; [|done].
  apply Z.leb_le. rewrite Hj, zlen_app, zlen_host_bytes, state_size_joined by done.
  unfold size in *. rewrite u32_small by zlia. lia.
Qed.

Lemma message_error c sub msg msg2 :
  size msg + size msg2 < 2 ^ 32 - 6 -> message (error c sub msg msg2) = joined msg msg2.
Proof.
  intros Hs. unfold message, error. simpl. rewrite make_state_joined by done.
  pose proof (zlen_joined msg msg2). unfold size in *. zlen_pos.
  rewrite (host_load_bytes_app 4) by (change (2 ^ (8 * Z.of_nat 4)) with (2 ^ 32); lia).
  change 4 with (Z.of_nat 4) at 1.
  rewrite <- (zlen_host_bytes 4 (zlen (joined msg msg2))), zdrop_app_zlen.
  by apply ztake_ge.
Qed.

Lemma CopyState_wf st : state_wf st -> CopyState st = st.
Proof.
  intros (H4 & Hl & Hb). unfold CopyState. rewrite Hl, u32_small by lia.
  apply ztake_ge. lia.
Qed.

Lemma copy_wf s : status_wf s -> copy s = s.
Proof.
  destruct s as [c sub [st|]]; unfold status_wf, copy; simpl; [|done].
  intros Hw. by rewrite CopyState_wf.
Qed.

Lemma ok_OK : ok OK = true.
Proof. done. Qed.

(** ** Properties *)

(** a [Status] carries its message. For messages whose lengths fit in 32 bits the
    constructor returns (its assertions hold, the block is large enough), copies are
    equal to their source, and [ToString] is the type's text, the subcode's text and
    the message with its two parts joined by a colon; the one subcode without a
    text is [kDeadlock], at which [ToString] appends a null pointer. *)
Theorem status_message c sub msg msg2 :
  c <> kOk -> sub <> kMaxSubCode -> size msg + size msg2 < 2 ^ 32 - 6 ->
  exists s, Status_new c sub msg msg2 = Ret s /\ code s = c /\ subcode s = sub /\
    copy s = s /\
    (sub <> kDeadlock -> exists t, msgs !! Z.to_nat (SubCode_index sub) = Some (Some t) /\
       ToString s = Ret (str (type_string c) ++ str t ++ joined msg msg2)) /\
    (sub = kDeadlock -> ToString s = Undef).
Proof.
  intros Hc Hsub Hs. exists (error c sub msg msg2).
  split_and!; [by apply Status_new_Ret|done..| | |].
  - apply copy_wf. by apply make_state_wf.
  - intros Hd. unfold ToString. rewrite (bool_decide_false (_ = kOk)) by done.
    pose proof (message_error c sub msg msg2 Hs) as Hm. unfold message in Hm. simpl in *.
    rewrite Hm. destruct sub; try done; eexists; (split; [reflexivity|]); simpl; by rewrite <- ?app_assoc.
  - intros ->. unfold ToString. by rewrite (bool_decide_false (_ = kOk)) by done.
Qed.

(** assignment between [Status] objects of a store. After [a = std::move(b)] with
    two distinct objects [a] has [b]'s value and [b] is an OK status without a
    message, other objects are untouched, and self-assignment of either kind changes
    nothing; [a = b] makes [a] a copy and keeps [b]. *)
Theorem status_assign m a b v :
  m !! b = Some v -> status_wf v ->
  (a <> b -> move_assign m a b !! a = Some v /\ move_assign m a b !! b = Some OK /\
             copy_assign m a b !! a = Some v /\ copy_assign m a b !! b = Some v) /\
  (forall c, c <> a -> c <> b ->
     move_assign m a b !! c = m !! c /\ copy_assign m a b !! c = m !! c) /\
  move_assign m b b = m /\ copy_assign m b b = m.
Proof.
  intros Hb Hw. unfold move_assign, copy_assign. rewrite Hb.
  rewrite !(bool_decide_true (b = b)) by done. split_and!; [| |done..].
  - intros Hne. rewrite bool_decide_false by done. rewrite copy_wf by done.
    by simplify_map_eq.
  - intros c Ha Hb'. case_bool_decide; by simplify_map_eq.
Qed.

End Status.

(** ** Witnesses *)

Definition le_host : Host := {| kLittleEndian := true |}.

Lemma status_message_witness :
  exists s, Status_new (H := le_host) kIOError kNoSpace [x61] [x62] = Ret s /\
    ToString (H := le_host) s = Ret (str "IO error: No space left on devicea: b").
Proof.
  destruct (status_message (H := le_host) kIOError kNoSpace [x61] [x62])
    as (s & Hs & _ & _ & _ & Ht & _); [done|done|by vm_compute|].
  exists s. split; [exact Hs|]. destruct (Ht ltac:(done)) as (t & Hm & E).
  injection Hm as <-. rewrite E. vm_compute. reflexivity.
Defined.

Lemma status_assign_witness :
  move_assign {[ 1 := OK; 2 := Status_of kBusy kDeadlock ]} 1 2 !! 2 = Some OK.
Proof.
  apply (status_assign (H := le_host) {[ 1 := OK; 2 := Status_of kBusy kDeadlock ]} 1 2
           (Status_of kBusy kDeadlock)); [reflexivity|exact I|lia].
Defined.
