(* ===== verification/Crc32c.v ===== *)
(** * Crc32c ([rutil/crc32c.cc], [rutil/crc32c.h])

    The table-driven and the SSE4.2 implementation of CRC-32C and the masking of
    stored checksums. A pointer [p] into the buffer that ends at [e] is modelled
    by the bytes of [p .. e); the address [pval] of the buffer is an argument,
    since the loops are split at its 16-byte alignment. The interface that the log
    is written against is the class [Crc32c]. *)

From Stdlib Require Import Strings.Byte Strings.String.
From S2P Require Import Prelude.
From S2P Require Import Slice.
From S2P Require Import Coding.
From S2P Require Import CrcTables.

(** ** Reference: CRC-32C bit by bit

    The reflected polynomial of CRC-32C (Castagnoli). *)
Definition poly : Z := 0x82f63b78.

Definition bitstep (c : Z) : Z :=
  if Z.odd c then Z.lxor (Z.shiftr c 1) poly else Z.shiftr c 1.
Definition bits (n : nat) (c : Z) : Z := Nat.iter n bitstep c.
Definition crc_byte (c : Z) (b : byte) : Z := bits 8 (Z.lxor c (b2z b)).
Definition crc_bytes (c : Z) (l : list byte) : Z := foldl crc_byte c l.

(** What [Extend(crc, data, n)] has to return. *)
Definition crc32c (crc : Z) (l : list byte) : Z :=
  Z.lxor (crc_bytes (Z.lxor crc 0xffffffff) l) 0xffffffff.

(** ** The code *)

Definition table_at (t : list Z) (i : Z) : Z := znth 0 t i.

(** What the compiler and the processor provide: the macros [__SSE4_2__] and
    [__LP64__], the [cpuid] bit, and the instructions. *)
Class Cpu := {
  macro_sse42 : bool;
  macro_lp64 : bool;
  cpuid_ecx : Z;
  gnuc_x86_64 : bool;
  mm_crc32_u64 : Z -> Z -> Z;
  mm_crc32_u32 : Z -> Z -> Z;
}.

(** The documented effect of the [crc32] instructions: they accumulate a CRC-32C
    over the operand, least significant byte first. *)
Class CpuOk `{Cpu} := {
  mm_crc32_u64_spec : forall c v, 0 <= c < 2 ^ 32 -> 0 <= v < 2 ^ 64 ->
    mm_crc32_u64 c v = bits 64 (Z.lxor c v);
  mm_crc32_u32_spec : forall c v, 0 <= c < 2 ^ 32 -> 0 <= v < 2 ^ 32 ->
    mm_crc32_u32 c v = bits 32 (Z.lxor c v);
}.

Section Code.
Context `{Host} `{Cpu}.

Definition LE_LOAD32 (p : list byte) : Z := DecodeFixed32 p.
Definition LE_LOAD64 (p : list byte) : Z := DecodeFixed64 p.

(** One four-byte turn of [Slow_CRC32]. *)
Definition Slow_CRC32_word (l : Z) (p : list byte) : Z * list byte :=
  let c := u32 (Z.lxor l (LE_LOAD32 p)) in
  let p := zdrop 4 p in
  (Z.lxor (Z.lxor (Z.lxor (table_at table3_ (Z.land c 0xff))
                          (table_at table2_ (Z.land (Z.shiftr c 8) 0xff)))
                  (table_at table1_ (Z.land (Z.shiftr c 16) 0xff)))
          (table_at table0_ (Z.shiftr c 24)), p).

(** The body is written twice in the source. *)
Definition Slow_CRC32 (l : Z) (p : list byte) : Z * list byte :=
  let '(l, p) := Slow_CRC32_word l p in
  Slow_CRC32_word l p.

Definition Fast_CRC32 (l : Z) (p : list byte) : Z * list byte :=
  if macro_sse42 then
    if macro_lp64 then (mm_crc32_u64 l (LE_LOAD64 p), zdrop 8 p)
    else
      let l := mm_crc32_u32 (u32 l) (LE_LOAD32 p) in
      let p := zdrop 4 p in
      let l := mm_crc32_u32 (u32 l) (LE_LOAD32 p) in
      (l, zdrop 4 p)
  else Slow_CRC32 l p.

(** [STEP1]; reading [*p] at the end of the buffer is undefined. *)
Definition STEP1 (l : Z) (p : list byte) : outcome (Z * list byte) :=
  match p with
  | b :: p' =>
      let c := Z.lxor (Z.land l 0xff) (b2z b) in
      mret (Z.lxor (table_at table0_ c) (Z.shiftr l 8), p')
  | [] => Undef
  end.

(** [ALIGN(n, m)] on [uintptr_t]. *)
Definition ALIGN (n m : Z) : Z :=
  Z.land (u64 (n + (Z.shiftl 1 m - 1))) (Z.lnot (Z.shiftl 1 m - 1)).

(** [while (p != x) STEP1]: [addr] is the address of [p]. *)
Fixpoint steps_to (fuel : nat) (addr x l : Z) (p : list byte) : outcome (Z * list byte) :=
  match fuel with
  | O => NoFuel
  | S fuel' =>
      if negb (addr =? x) then
        '(l, p) ← STEP1 l p;
        steps_to fuel' (addr + 1) x l p
      else mret (l, p)
  end.

(** [while ((e-p) >= 16)] *)
Fixpoint loop16 (CRC32 : Z -> list byte -> Z * list byte) (fuel : nat) (l : Z) (p : list byte)
  : outcome (Z * list byte) :=
  match fuel with
  | O => NoFuel
  | S fuel' =>
      if 16 <=? zlen p then
        let '(l, p) := CRC32 l p in
        let '(l, p) := CRC32 l p in
        loop16 CRC32 fuel' l p
      else mret (l, p)
  end.

(** [while ((e-p) >= 8)] *)
Fixpoint loop8 (CRC32 : Z -> list byte -> Z * list byte) (fuel : nat) (l : Z) (p : list byte)
  : outcome (Z * list byte) :=
  match fuel with
  | O => NoFuel
  | S fuel' =>
      if 8 <=? zlen p then
        let '(l, p) := CRC32 l p in
        loop8 CRC32 fuel' l p
      else mret (l, p)
  end.

(** [ExtendImpl<CRC32>] on the buffer at address [pval]. Each loop consumes at least
    one byte a turn, so that one more turn than bytes suffices as fuel. *)
Definition ExtendImpl (CRC32 : Z -> list byte -> Z * list byte) (crc : Z) (buf : list byte)
    (pval : Z) : outcome Z :=
  let fuel := S (length buf) in
  let e := pval + zlen buf in
  let l := Z.lxor crc 0xffffffff in
  let x := ALIGN pval 4 in
  '(l, p) ← (if x <=? e then steps_to fuel pval x l buf else mret (l, buf));
  '(l, p) ← loop16 CRC32 fuel l p;
  '(l, p) ← loop8 CRC32 fuel l p;
  '(l, _) ← steps_to fuel (e - zlen p) e l p;
  mret (u32 (Z.lxor l 0xffffffff)).

Definition isSSE42 : bool :=
  if gnuc_x86_64 then negb (Z.land cpuid_ecx (Z.shiftl 1 20) =? 0) else false.
Definition Choose_Extend : Z -> list byte -> Z -> outcome Z :=
  if isSSE42 then ExtendImpl Fast_CRC32 else ExtendImpl Slow_CRC32.
Definition IsFastCrc32Supported : bool := if macro_sse42 then isSSE42 else false.

Definition Extend_at (crc : Z) (buf : list byte) (pval : Z) : outcome Z :=
  Choose_Extend crc buf pval.
Definition Value_at (buf : list byte) (pval : Z) : outcome Z := Extend_at 0 buf pval.

Definition kMaskDelta : Z := 0xa282ead8.
Definition Mask (crc : Z) : Z :=
  u32 (Z.lor (Z.shiftr crc 15) (u32 (Z.shiftl crc 17)) + kMaskDelta).
Definition Unmask (masked_crc : Z) : Z :=
  let rot := u32 (masked_crc - kMaskDelta) in
  Z.lor (Z.shiftr rot 17) (u32 (Z.shiftl rot 15)).

End Code.

(** ** The interface

    What the log relies on: a checksum function that returns the CRC-32C. *)
Class Crc32c := {
  Extend : Z -> list byte -> outcome Z;
  Extend_crc32c : forall crc buf, 0 <= crc < 2 ^ 32 -> Extend crc buf = Ret (crc32c crc buf);
}.
Definition Value `{Crc32c} (buf : list byte) : outcome Z := Extend 0 buf.

(** ** Lemmas: the reference *)

Lemma lxor_shiftl_add a b k :
  0 <= k -> 0 <= a < 2 ^ k -> Z.lxor a (Z.shiftl b k) = a + b * 2 ^ k.
Proof.
  intros Hk Ha. rewrite <- lor_shiftl_add by done. apply Z.lxor_lor.
  apply Z.bits_inj'. intros i Hi. rewrite Z.land_spec, Z.bits_0.
  destruct (Z.lt_ge_cases i k).
  - rewrite Z.shiftl_spec_low by lia. apply andb_false_r.
  - by rewrite (testbit_high a k).
Qed.

Lemma bitstep_lxor a b : bitstep (Z.lxor a b) = Z.lxor (bitstep a) (bitstep b).
Proof.
  unfold bitstep. rewrite <- !Z.bit0_odd, Z.lxor_spec, Z.shiftr_lxor.
  destruct (Z.testbit a 0), (Z.testbit b 0); simpl; bitwise;
    repeat match goal with |- context [Z.testbit ?x ?i] => destruct (Z.testbit x i) end; done.
Qed.

Lemma bits_lxor n a b : bits n (Z.lxor a b) = Z.lxor (bits n a) (bits n b).
Proof. induction n as [|n IH]; simpl; [done|]. by rewrite IH, bitstep_lxor. Qed.

Lemma bits_add n m c : bits (n + m) c = bits n (bits m c).
Proof. unfold bits. by rewrite Nat.iter_add. Qed.

Lemma bits_shiftl n x : bits n (Z.shiftl x (Z.of_nat n)) = x.
Proof.
  induction n as [|n IH]; [apply Z.shiftl_0_r|]. rewrite <- Nat.add_1_r, bits_add.
  assert (bits 1 (Z.shiftl x (Z.of_nat (n + 1))) = Z.shiftl x (Z.of_nat n)) as ->; [|done].
  simpl. unfold bitstep. rewrite <- Z.bit0_odd, Z.shiftl_spec_low by lia.
  rewrite Z.shiftr_shiftl_l by lia. f_equal. lia.
Qed.

Lemma poly_range : 0 <= poly < 2 ^ 32.
Proof. done. Qed.

Lemma bitstep_range c : 0 <= c < 2 ^ 32 -> 0 <= bitstep c < 2 ^ 32.
Proof.
  intros Hc. unfold bitstep.
  assert (0 <= Z.shiftr c 1 < 2 ^ 32).
  { pose proof (shiftr_range 32 1 c ltac:(lia) Hc) as Hr. change (2 ^ (32 - 1)) with 2147483648 in Hr. lia. }
  destruct (Z.odd c); [apply lxor_range; [lia|done|apply poly_range]|done].
Qed.

Lemma bits_range n c : 0 <= c < 2 ^ 32 -> 0 <= bits n c < 2 ^ 32.
Proof. intros. induction n; simpl; auto using bitstep_range. Qed.

Lemma b2z_lt32 b : 0 <= b2z b < 2 ^ 32.
Proof. pose proof (b2z_range b). lia. Qed.

Lemma crc_byte_range c b : 0 <= c < 2 ^ 32 -> 0 <= crc_byte c b < 2 ^ 32.
Proof. intros. apply bits_range, lxor_range; auto using b2z_lt32; lia. Qed.

Lemma crc_bytes_range c l : 0 <= c < 2 ^ 32 -> 0 <= crc_bytes c l < 2 ^ 32.
Proof. revert c; induction l; intros; simpl; auto using crc_byte_range. Qed.

Lemma crc_bytes_app c l k : crc_bytes c (l ++ k) = crc_bytes (crc_bytes c l) k.
Proof. apply foldl_app. Qed.

(** Shifting a byte string through the register is shifting its little-endian
    number through it. *)
Lemma crc_bytes_le_dec l c : crc_bytes c l = bits (8 * length l) (Z.lxor c (le_dec l)).
Proof.
  revert c; induction l as [|b l IH]; intros c; [by rewrite Z.lxor_0_r|].
  change (crc_bytes c (b :: l)) with (crc_bytes (crc_byte c b) l). rewrite IH.
  replace (8 * length (b :: l))%nat with (8 * length l + 8)%nat by (simpl; lia).
  rewrite bits_add. f_equal. simpl le_dec.
  replace (b2z b + 256 * le_dec l) with (Z.lxor (b2z b) (Z.shiftl (le_dec l) 8)).
  2: { rewrite lxor_shiftl_add; [lia|lia|apply b2z_range]. }
  rewrite <- Z.lxor_assoc.
  rewrite bits_lxor, (bits_shiftl 8). done.
Qed.

Lemma crc32c_range crc l : 0 <= crc < 2 ^ 32 -> 0 <= crc32c crc l < 2 ^ 32.
Proof.
  intros. apply lxor_range; [lia| |lia]. apply crc_bytes_range, lxor_range; lia.
Qed.

Lemma crc32c_app crc l k : crc32c crc (l ++ k) = crc32c (crc32c crc l) k.
Proof.
  unfold crc32c. rewrite crc_bytes_app. do 2 f_equal.
  by rewrite Z.lxor_assoc, Z.lxor_nilpotent, Z.lxor_0_r.
Qed.

(** The register update is invertible. *)
Lemma bitstep_zero c : 0 <= c < 2 ^ 32 -> bitstep c = 0 -> c = 0.
Proof.
  intros Hc H0. unfold bitstep in H0. destruct (Z.odd c) eqn:Ho.
  - apply Z.lxor_eq in H0. pose proof (shiftr_range 32 1 c ltac:(lia) Hc) as Hr.
    rewrite H0 in Hr.
    change (2 ^ (32 - 1)) with 2147483648 in Hr. unfold poly in Hr. lia.
  - rewrite Z.shiftr_div_pow2 in H0 by lia. change (2 ^ 1) with 2 in H0.
    pose proof (Z.div_mod c 2 ltac:(lia)) as Hdm. rewrite Zmod_odd, Ho in Hdm. lia.
Qed.

Lemma bits_inj n a b : 0 <= a < 2 ^ 32 -> 0 <= b < 2 ^ 32 -> bits n a = bits n b -> a = b.
Proof.
  intros Ha Hb He. apply Z.lxor_eq. assert (bits n (Z.lxor a b) = 0) as H0.
  { by rewrite bits_lxor, He, Z.lxor_nilpotent. }
  clear He. assert (0 <= Z.lxor a b < 2 ^ 32) as Hr by (apply lxor_range; lia).
  induction n as [|n IH]; simpl in H0; [done|].
  apply IH, bitstep_zero; [by apply bits_range|exact H0].
Qed.

Lemma lxor_inj_r a b c : Z.lxor a c = Z.lxor b c -> a = b.
Proof.
  intros He. apply (f_equal (fun x => Z.lxor x c)) in He.
  by rewrite !Z.lxor_assoc, Z.lxor_nilpotent, !Z.lxor_0_r in He.
Qed.

Lemma crc_bytes_inj c d l :
  0 <= c < 2 ^ 32 -> 0 <= d < 2 ^ 32 -> crc_bytes c l = crc_bytes d l -> c = d.
Proof.
  revert c d; induction l as [|b l IH]; intros c d Hc Hd He; [done|].
  apply IH in He; [|by apply crc_byte_range..].
  apply bits_inj in He; [|apply lxor_range; auto using b2z_lt32; lia..].
  by apply lxor_inj_r in He.
Qed.

Lemma crc32c_inj c d l :
  0 <= c < 2 ^ 32 -> 0 <= d < 2 ^ 32 -> crc32c c l = crc32c d l -> c = d.
Proof.
  intros Hc Hd He. unfold crc32c in He. apply lxor_inj_r in He.
  apply crc_bytes_inj in He; [|apply lxor_range; lia..]. by apply lxor_inj_r in He.
Qed.

(** Two words of at most four bytes leave different registers. *)
Lemma crc_bytes_burst c w1 w2 :
  0 <= c < 2 ^ 32 -> length w1 = length w2 -> (length w1 <= 4)%nat ->
  crc_bytes c w1 = crc_bytes c w2 -> w1 = w2.
Proof.
  intros Hc Hl H4 He. rewrite !crc_bytes_le_dec, <- Hl in He.
  assert (forall w : list byte, (length w <= 4)%nat -> 0 <= le_dec w < 2 ^ 32) as Hr.
  { intros w Hw. pose proof (le_dec_range w) as [? Hlt]. split; [done|].
    eapply Z.lt_le_trans; [exact Hlt|]. apply Z.pow_le_mono_r; unfold zlen; lia. }
  apply bits_inj in He; [|apply lxor_range; auto; try lia; apply Hr; lia..].
  rewrite !(Z.lxor_comm c) in He. apply lxor_inj_r in He.
  by rewrite <- (le_enc_dec w1), He, Hl, le_enc_dec.
Qed.

Lemma crc32c_burst crc pre w1 w2 post :
  0 <= crc < 2 ^ 32 -> length w1 = length w2 -> (length w1 <= 4)%nat ->
  crc32c crc (pre ++ w1 ++ post) = crc32c crc (pre ++ w2 ++ post) -> w1 = w2.
Proof.
  intros Hc Hl H4 He. rewrite !crc32c_app in He.
  assert (forall w, 0 <= crc32c crc w < 2 ^ 32) as Hr by (intros; by apply crc32c_range).
  apply crc32c_inj in He; [|apply crc32c_range; auto..].
  unfold crc32c at 1 3 in He. apply lxor_inj_r in He.
  apply crc_bytes_burst in He; auto. apply lxor_range; auto; lia.
Qed.

(** ** Lemmas: the tables *)

Definition check_table (t : list Z) (n : nat) : bool :=
  forallb (fun i => table_at t (Z.of_nat i) =? bits n (Z.of_nat i)) (seq 0 256).

Lemma table_ok t n i :
  check_table t n = true -> 0 <= i < 256 -> table_at t i = bits n i.
Proof.
  intros Hc Hi. unfold check_table in Hc. rewrite forallb_forall in Hc.
  specialize (Hc (Z.to_nat i)). rewrite Z2Nat.id in Hc by lia.
  apply Z.eqb_eq, Hc, in_seq. lia.
Qed.

Lemma table0_ok i : 0 <= i < 256 -> table_at table0_ i = bits 8 i.
Proof. apply table_ok. vm_compute. reflexivity. Qed.
Lemma table1_ok i : 0 <= i < 256 -> table_at table1_ i = bits 16 i.
Proof. apply table_ok. vm_compute. reflexivity. Qed.
Lemma table2_ok i : 0 <= i < 256 -> table_at table2_ i = bits 24 i.
Proof. apply table_ok. vm_compute. reflexivity. Qed.
Lemma table3_ok i : 0 <= i < 256 -> table_at table3_ i = bits 32 i.
Proof. apply table_ok. vm_compute. reflexivity. Qed.

Lemma land_ff_range c : 0 <= Z.land c 0xff < 256.
Proof. rewrite land_255. apply Z.mod_pos_bound. lia. Qed.

(** A word is its low byte and the rest. *)
Lemma split_byte c : c = Z.lxor (Z.land c 0xff) (Z.shiftl (Z.shiftr c 8) 8).
Proof.
  rewrite lxor_shiftl_add, land_255, Z.shiftr_div_pow2 by (lia || apply land_ff_range).
  change (2 ^ 8) with 256. pose proof (Z.div_mod c 256 ltac:(lia)). lia.
Qed.

Lemma bits_split_byte n c :
  bits (n + 8) c = Z.lxor (bits (n + 8) (Z.land c 0xff)) (bits n (Z.shiftr c 8)).
Proof. rewrite (split_byte c) at 1. by rewrite bits_lxor, (bits_add n 8 (Z.shiftl _ 8)), (bits_shiftl 8). Qed.

Lemma STEP1_spec l b p : STEP1 l (b :: p) = Ret (crc_byte l b, p).
Proof.
  simpl. unfold mret, outcome_ret. do 2 f_equal. unfold crc_byte.
  pose proof (land_ff_range l). pose proof (b2z_range b).
  rewrite table0_ok by (apply (lxor_range 8); lia).
  assert (Z.lxor l (b2z b) =
    Z.lxor (Z.lxor (Z.land l 0xff) (b2z b)) (Z.shiftl (Z.shiftr l 8) 8)) as ->.
  { rewrite Z.lxor_assoc, (Z.lxor_comm (b2z b)), <- Z.lxor_assoc. by rewrite <- split_byte. }
  by rewrite (bits_lxor 8 (Z.lxor _ _)), (bits_shiftl 8).
Qed.

Section CodeLemmas.
Context `{Host} `{Cpu}.

Lemma Slow_CRC32_word_spec l p :
  0 <= l < 2 ^ 32 -> 4 <= zlen p ->
  Slow_CRC32_word l p = (crc_bytes l (ztake 4 p), zdrop 4 p).
Proof.
  intros Hl Hp. unfold Slow_CRC32_word. f_equal. unfold LE_LOAD32.
  rewrite DecodeFixed32_le, crc_bytes_le_dec by done.
  assert (length (ztake 4 p) = 4%nat) as Hlen.
  { apply Nat2Z.inj. change (Z.of_nat (length (ztake 4 p))) with (zlen (ztake 4 p)).
    rewrite zlen_ztake by lia. lia. }
  rewrite Hlen. pose proof (le_dec_range (ztake 4 p)) as Hd. unfold zlen in Hd at 1. rewrite Hlen in Hd.
  set (w := Z.lxor l (le_dec (ztake 4 p))).
  assert (0 <= w < 2 ^ 32) as Hw by (apply lxor_range; [lia|done|exact Hd]).
  rewrite u32_small by exact Hw. change (8 * 4)%nat with 32%nat.
  rewrite (bits_split_byte 24 w : bits 32 w = _), (bits_split_byte 16 _ : bits 24 _ = _),
    (bits_split_byte 8 (Z.shiftr (Z.shiftr w 8) 8) : bits 16 _ = _), !Z.shiftr_shiftr by lia.
  simpl Z.add. simpl Nat.add.
  assert (0 <= Z.shiftr w 24 < 2 ^ 8) by (apply (shiftr_range 32 24); [lia|done]).
  rewrite table0_ok by lia.
  rewrite table1_ok, table2_ok, table3_ok by apply land_ff_range.
  by rewrite !Z.lxor_assoc.
Qed.

(** What a kernel of [ExtendImpl] has to do: eight bytes. *)
Definition crc_kernel (CRC32 : Z -> list byte -> Z * list byte) : Prop :=
  forall l p, 0 <= l < 2 ^ 32 -> 8 <= zlen p ->
    CRC32 l p = (crc_bytes l (ztake 8 p), zdrop 8 p).

Lemma crc_bytes_take8 l p :
  8 <= zlen p -> crc_bytes (crc_bytes l (ztake 4 p)) (ztake 4 (zdrop 4 p)) = crc_bytes l (ztake 8 p).
Proof. intros. change 8 with (4 + 4). by rewrite ztake_zdrop_split, crc_bytes_app by lia. Qed.

Lemma Slow_CRC32_kernel : crc_kernel Slow_CRC32.
Proof.
  intros l p Hl Hp. unfold Slow_CRC32. rewrite Slow_CRC32_word_spec by (done || lia).
  rewrite Slow_CRC32_word_spec; [|by apply crc_bytes_range|rewrite zlen_zdrop; lia].
  by rewrite crc_bytes_take8, zdrop_zdrop by lia.
Qed.

Lemma Fast_CRC32_kernel `{!CpuOk} : crc_kernel Fast_CRC32.
Proof.
  intros l p Hl Hp. unfold Fast_CRC32. destruct macro_sse42; [|by apply Slow_CRC32_kernel].
  assert (forall k (q : list byte), k <= zlen q -> 0 <= k -> zlen (ztake k q) = k) as Hk.
  { intros. rewrite zlen_ztake; lia. }
  assert (forall n c (q : list byte), zlen q = Z.of_nat n -> crc_bytes c q = bits (8 * n) (Z.lxor c (le_dec q))) as Hb.
  { intros n c q Hq. rewrite crc_bytes_le_dec. unfold zlen in Hq. by apply Nat2Z.inj in Hq as ->. }
  assert (forall k (q : list byte), 0 <= k <= zlen q -> 0 <= le_dec (ztake k q) < 2 ^ (8 * k)) as Hd.
  { intros k q ?. pose proof (le_dec_range (ztake k q)) as Hr. by rewrite Hk in Hr by lia. }
  destruct macro_lp64.
  - f_equal. unfold LE_LOAD64. rewrite DecodeFixed64_le by done.
    rewrite (Hb 8%nat) by (by apply Hk). apply mm_crc32_u64_spec; [done|]. by apply (Hd 8).
  - unfold LE_LOAD32. assert (4 <= zlen (zdrop 4 p)) by (rewrite zlen_zdrop; lia).
    rewrite !DecodeFixed32_le, (u32_small l) by lia.
    rewrite (mm_crc32_u32_spec l) by (done || apply (Hd 4); lia).
    rewrite u32_small by (apply bits_range, lxor_range; [lia|done|apply (Hd 4); lia]).
    rewrite mm_crc32_u32_spec by (first [apply (Hd 4); lia | apply bits_range, lxor_range; [lia|done|apply (Hd 4); lia]]).
    rewrite zdrop_zdrop by lia. f_equal.
    rewrite <- crc_bytes_take8, !(Hb 4%nat) by (lia || apply Hk; lia). done.
Qed.

Lemma steps_to_spec fuel addr x l p :
  addr <= x -> x - addr <= zlen p -> x - addr < Z.of_nat fuel ->
  steps_to fuel addr x l p = Ret (crc_bytes l (ztake (x - addr) p), zdrop (x - addr) p).
Proof.
  revert addr l p; induction fuel as [|fuel IH]; intros addr l p Hx Hp Hf; [lia|]. simpl.
  destruct (Z.eqb_spec addr x) as [->|Hne]; simpl.
  - by rewrite Z.sub_diag.
  - destruct p as [|b p]; [rewrite zlen_nil in Hp; lia|]. rewrite zlen_cons in Hp.
    rewrite STEP1_spec, bind_ret. simpl. rewrite IH by lia.
    replace (x - addr) with (1 + (x - (addr + 1))) by lia.
    rewrite (ztake_zdrop_split 1), <- (zdrop_zdrop _ 1) by lia. done.
Qed.

Section Kernel.
Context (CRC32 : Z -> list byte -> Z * list byte) (HK : crc_kernel CRC32).

Lemma loop16_spec fuel l p :
  0 <= l < 2 ^ 32 -> zlen p < Z.of_nat fuel ->
  exists n, loop16 CRC32 fuel l p = Ret (crc_bytes l (ztake n p), zdrop n p) /\
    0 <= n <= zlen p.
Proof using HK.
  revert l p; induction fuel as [|fuel IH]; intros l p Hl Hf; [zlen_pos; lia|]. simpl.
  destruct (Z.leb_spec 16 (zlen p)).
  - rewrite HK by lia. rewrite HK by (rewrite ?zlen_zdrop by lia; auto using crc_bytes_range || lia).
    rewrite <- crc_bytes_app, <- ztake_zdrop_split, zdrop_zdrop by lia. change (8 + 8) with 16.
    destruct (IH (crc_bytes l (ztake 16 p)) (zdrop 16 p)) as (n & -> & Hn).
    + by apply crc_bytes_range.
    + rewrite zlen_zdrop; lia.
    + rewrite zlen_zdrop in Hn by lia. exists (16 + n). split; [|lia].
      by rewrite <- crc_bytes_app, <- ztake_zdrop_split, zdrop_zdrop by lia.
  - exists 0. split; [done|zlen_pos; lia].
Qed.

Lemma loop8_spec fuel l p :
  0 <= l < 2 ^ 32 -> zlen p < Z.of_nat fuel ->
  exists n, loop8 CRC32 fuel l p = Ret (crc_bytes l (ztake n p), zdrop n p) /\
    0 <= n <= zlen p.
Proof using HK.
  revert l p; induction fuel as [|fuel IH]; intros l p Hl Hf; [zlen_pos; lia|]. simpl.
  destruct (Z.leb_spec 8 (zlen p)).
  - rewrite HK by lia.
    destruct (IH (crc_bytes l (ztake 8 p)) (zdrop 8 p)) as (n & -> & Hn).
    + by apply crc_bytes_range.
    + rewrite zlen_zdrop; lia.
    + rewrite zlen_zdrop in Hn by lia. exists (8 + n). split; [|lia].
      by rewrite <- crc_bytes_app, <- ztake_zdrop_split, zdrop_zdrop by lia.
  - exists 0. split; [done|zlen_pos; lia].
Qed.

Lemma ALIGN_ge pval : 0 <= pval -> pval + 15 < 2 ^ 64 -> pval <= ALIGN pval 4.
Proof.
  intros Hp Hb. unfold ALIGN. change (Z.shiftl 1 4 - 1) with 15.
  rewrite u64_small by lia. change 15 with (Z.ones 4) at 2.
  rewrite <- Z.ldiff_land, Z.ldiff_ones_r, Z.shiftl_mul_pow2, Z.shiftr_div_pow2 by lia.
  change (2 ^ 4) with 16. dlia.
Qed.

Lemma ExtendImpl_spec crc buf pval :
  0 <= crc < 2 ^ 32 -> 0 <= pval -> pval + 15 < 2 ^ 64 ->
  ExtendImpl CRC32 crc buf pval = Ret (crc32c crc buf).
Proof using HK.
  intros Hc Hp Hb. unfold ExtendImpl. zlen_pos.
  pose proof (ALIGN_ge pval Hp Hb) as Ha. set (x := ALIGN pval 4) in *.
  set (l0 := Z.lxor crc 0xffffffff).
  assert (0 <= l0 < 2 ^ 32) as Hl0 by (apply lxor_range; lia).
  assert (exists n, (if x <=? pval + zlen buf then steps_to (S (length buf)) pval x l0 buf
                     else mret (l0, buf)) = Ret (crc_bytes l0 (ztake n buf), zdrop n buf) /\
                    0 <= n <= zlen buf) as (n1 & -> & Hn1).
  { destruct (Z.leb_spec x (pval + zlen buf)); [|exists 0; split; [done|lia]].
    exists (x - pval). split; [apply steps_to_spec|lia]; [lia|lia|unfold zlen in *; lia]. }
  bret. destruct (loop16_spec (S (length buf)) (crc_bytes l0 (ztake n1 buf)) (zdrop n1 buf))
    as (n2 & -> & Hn2); [by apply crc_bytes_range|rewrite zlen_zdrop; unfold zlen; lia|].
  rewrite zlen_zdrop in Hn2 by lia. bret.
  rewrite <- crc_bytes_app, <- ztake_zdrop_split, zdrop_zdrop by lia.
  destruct (loop8_spec (S (length buf)) (crc_bytes l0 (ztake (n1 + n2) buf)) (zdrop (n1 + n2) buf))
    as (n3 & -> & Hn3); [by apply crc_bytes_range|rewrite zlen_zdrop; unfold zlen; lia|].
  rewrite zlen_zdrop in Hn3 by lia. bret.
  rewrite <- crc_bytes_app, <- ztake_zdrop_split, zdrop_zdrop by lia.
  set (n := n1 + n2 + n3). rewrite steps_to_spec; [|rewrite zlen_zdrop; unfold zlen in *; lia..].
  bret. unfold mret, outcome_ret. f_equal.
  rewrite (ztake_ge _ (zdrop n buf)) by lia.
  rewrite <- crc_bytes_app, ztake_zdrop. apply u32_small. by apply crc32c_range.
Qed.

End Kernel.

Lemma Extend_at_spec `{!CpuOk} crc buf pval :
  0 <= crc < 2 ^ 32 -> 0 <= pval -> pval + 15 < 2 ^ 64 ->
  Extend_at crc buf pval = Ret (crc32c crc buf).
Proof.
  intros. unfold Extend_at, Choose_Extend.
  destruct isSSE42; apply ExtendImpl_spec; auto using Fast_CRC32_kernel, Slow_CRC32_kernel.
Qed.

End CodeLemmas.

(** The code implements the interface, wherever the buffers are. *)
Definition Crc32c_at `{Host} `{Cpu} `{!CpuOk} (pval : Z) (Hp : 0 <= pval < 2 ^ 64 - 15) : Crc32c :=
  {| Extend crc buf := Extend_at crc buf pval;
     Extend_crc32c crc buf Hc :=
       Extend_at_spec crc buf pval Hc (proj1 Hp) (proj2 (Z.lt_add_lt_sub_r pval (2 ^ 64) 15) (proj2 Hp)) |}.

(** ** Lemmas: masking *)

(** Rotation of a 32-bit word to the right by [k]. *)
Definition rotr32 (k x : Z) : Z := Z.lor (Z.shiftr x k) (u32 (Z.shiftl x (32 - k))).

Lemma testbit_u32 x i : 0 <= i -> Z.testbit (u32 x) i = (i <? 32) && Z.testbit x i.
Proof.
  intros Hi. unfold wrap. destruct (Z.ltb_spec i 32).
  - by rewrite Z.mod_pow2_bits_low by lia.
  - by rewrite Z.mod_pow2_bits_high by lia.
Qed.

Lemma rotr32_range k x : 0 < k < 32 -> 0 <= x < 2 ^ 32 -> 0 <= rotr32 k x < 2 ^ 32.
Proof.
  intros Hk Hx. apply lor_range; [lia| |apply wrap_range; lia].
  pose proof (shiftr_range 32 k x ltac:(lia) Hx) as [H0 H1]. split; [done|].
  eapply Z.lt_le_trans; [exact H1|]. apply Z.pow_le_mono_r; lia.
Qed.

Lemma testbit_rotr32 k x i :
  0 < k < 32 -> 0 <= x < 2 ^ 32 -> 0 <= i < 32 ->
  Z.testbit (rotr32 k x) i = Z.testbit x ((i + k) mod 32).
Proof.
  intros Hk Hx Hi. unfold rotr32. rewrite Z.lor_spec, Z.shiftr_spec, testbit_u32 by lia.
  replace (i <? 32) with true by lia. simpl. rewrite Z.shiftl_spec by lia.
  destruct (Z.lt_ge_cases (i + k) 32).
  - rewrite (Z.testbit_neg_r x (i - (32 - k))) by lia. rewrite Z.mod_small, orb_false_r by lia. done.
  - rewrite (testbit_high x 32 (i + k)) by (done || lia). simpl. f_equal. dlia.
Qed.

Lemma rotr32_inv k x : 0 < k < 32 -> 0 <= x < 2 ^ 32 -> rotr32 (32 - k) (rotr32 k x) = x.
Proof.
  intros Hk Hx. assert (0 <= rotr32 k x < 2 ^ 32) as Hr by (by apply rotr32_range).
  apply Z.bits_inj'. intros i Hi. destruct (Z.lt_ge_cases i 32).
  - rewrite !testbit_rotr32; [|try done; try lia..].
    + f_equal. dlia.
    + apply Z.mod_pos_bound. lia.
  - rewrite !(testbit_high _ 32) by (lia || done || apply rotr32_range; lia). done.
Qed.

Lemma Mask_rotr crc : Mask crc = u32 (rotr32 15 crc + kMaskDelta).
Proof. done. Qed.
Lemma Unmask_rotr m : Unmask m = rotr32 17 (u32 (m - kMaskDelta)).
Proof. done. Qed.

Lemma u32_add_sub a d : u32 (u32 (a + d) - d) = u32 a.
Proof. unfold wrap. rewrite Zminus_mod_idemp_l. f_equal. lia. Qed.
Lemma u32_sub_add a d : u32 (u32 (a - d) + d) = u32 a.
Proof. unfold wrap. rewrite Zplus_mod_idemp_l. f_equal. lia. Qed.

Lemma Mask_range crc : 0 <= Mask crc < 2 ^ 32.
Proof. apply u32_range. Qed.

Lemma Unmask_Mask crc : 0 <= crc < 2 ^ 32 -> Unmask (Mask crc) = crc.
Proof.
  intros Hc. rewrite Unmask_rotr, Mask_rotr, u32_add_sub.
  rewrite u32_small by (by apply rotr32_range). by apply (rotr32_inv 15).
Qed.

Lemma Mask_Unmask m : 0 <= m < 2 ^ 32 -> Mask (Unmask m) = m.
Proof.
  intros Hm. rewrite Unmask_rotr, Mask_rotr.
  rewrite (rotr32_inv 17), u32_sub_add; [by apply u32_small|done|apply u32_range].
Qed.

(** ** Properties *)

(** C10: both implementations of [Extend] compute CRC-32C. For every processor whose
    [crc32] instructions do what is documented and every buffer, at any alignment,
    [Extend] terminates without reading past the buffer and returns the bit-by-bit
    CRC-32C; in particular extending by a concatenation is extending twice, which is
    what lets the log precompute the checksum of the type byte. *)
Theorem Extend_correct `{Host} `{Cpu} `{!CpuOk} crc buf1 buf2 pval1 pval2 pval :
  0 <= crc < 2 ^ 32 ->
  0 <= pval < 2 ^ 64 - 15 -> 0 <= pval1 < 2 ^ 64 - 15 -> 0 <= pval2 < 2 ^ 64 - 15 ->
  Extend_at crc buf1 pval = Ret (crc32c crc buf1) /\
  ExtendImpl Slow_CRC32 crc buf1 pval = ExtendImpl Fast_CRC32 crc buf1 pval /\
  (c ← Extend_at crc buf1 pval1; Extend_at c buf2 pval2) = Extend_at crc (buf1 ++ buf2) pval.
Proof.
  intros Hc Hp Hp1 Hp2. rewrite !Extend_at_spec by lia. split_and!; [done| |].
  - rewrite !ExtendImpl_spec; auto using Slow_CRC32_kernel, Fast_CRC32_kernel; lia.
  - rewrite bind_ret, Extend_at_spec by (apply crc32c_range || lia; done).
    by rewrite crc32c_app.
Qed.

(** the checksum detects every burst of at most four bytes: if two buffers of equal
    length differ only inside a window of four bytes, their checksums differ. *)
Theorem Extend_detects_burst `{Host} `{Cpu} `{!CpuOk} crc pre w1 w2 post pval c1 c2 :
  0 <= crc < 2 ^ 32 -> 0 <= pval < 2 ^ 64 - 15 ->
  length w1 = length w2 -> (length w1 <= 4)%nat -> w1 <> w2 ->
  Extend_at crc (pre ++ w1 ++ post) pval = Ret c1 ->
  Extend_at crc (pre ++ w2 ++ post) pval = Ret c2 -> c1 <> c2.
Proof.
  intros Hc Hp Hl H4 Hne. rewrite !Extend_at_spec by lia. intros [= <-] [= <-] He. apply Hne.
  by eapply crc32c_burst.
Qed.

(** [Mask] and [Unmask] are inverse bijections of 32-bit words. *)
Theorem Mask_bijection :
  (forall crc, 0 <= crc < 2 ^ 32 -> 0 <= Mask crc < 2 ^ 32 /\ Unmask (Mask crc) = crc) /\
  (forall m, 0 <= m < 2 ^ 32 -> Mask (Unmask m) = m).
Proof. split; auto using Mask_range, Unmask_Mask, Mask_Unmask. Qed.

(** ** Witnesses *)

(** A processor without SSE4.2 and one with it. *)
Definition plain_cpu : Cpu :=
  {| macro_sse42 := false; macro_lp64 := true; cpuid_ecx := 0; gnuc_x86_64 := true;
     mm_crc32_u64 c v := bits 64 (Z.lxor c v); mm_crc32_u32 c v := bits 32 (Z.lxor c v) |}.
Definition sse_cpu : Cpu :=
  {| macro_sse42 := true; macro_lp64 := true; cpuid_ecx := 0x100000; gnuc_x86_64 := true;
     mm_crc32_u64 c v := bits 64 (Z.lxor c v); mm_crc32_u32 c v := bits 32 (Z.lxor c v) |}.
Lemma sse_cpu_ok : CpuOk (H := sse_cpu).
Proof. split; intros; cbv beta iota delta [mm_crc32_u64 mm_crc32_u32 sse_cpu]; reflexivity. Qed.
Lemma plain_cpu_ok : CpuOk (H := plain_cpu).
Proof. split; intros; cbv beta iota delta [mm_crc32_u64 mm_crc32_u32 plain_cpu]; reflexivity. Qed.

Definition digits : list byte := str "123456789".

(** The check value of CRC-32C. *)
Example crc_digits : Extend_at (H := {| kLittleEndian := true |}) (H0 := sse_cpu) 0 digits 13 = Ret 0xe3069283.
Proof. vm_compute. reflexivity. Qed.

Lemma Extend_correct_witness :
  Extend_at (H := {| kLittleEndian := true |}) (H0 := sse_cpu) 0 digits 13 = Ret (crc32c 0 digits).
Proof.
  apply (Extend_correct (H := {| kLittleEndian := true |}) (H0 := sse_cpu) (H1 := sse_cpu_ok)
           0 digits [] 0 0 13); lia.
Defined.

Lemma Extend_detects_burst_witness :
  (0x33 : Z) <> 0x34 /\ crc32c 0 (str "abc") <> crc32c 0 (str "abd").
Proof.
  split; [lia|].
  apply (Extend_detects_burst (H := {| kLittleEndian := false |}) (H0 := plain_cpu)
           (H1 := plain_cpu_ok) 0 (str "ab") (str "c") (str "d") [] 0);
    [lia|lia|reflexivity|simpl; lia|discriminate|vm_compute; reflexivity|vm_compute; reflexivity].
Defined.
