(* ===== verification/LogFormat.v ===== *)
(** * LogFormat ([rutil/log_format.h]) and the abstract log

    The constants of the format, and what a log is: a sequence of physical records
    laid out in blocks. [phys] is one physical record, [Frags] the fragments of one
    logical record, [Log] those of a list of records. The writer is proved to
    produce it ([LogWriter]) and the reader to recover it ([LogReader]). *)

From Stdlib Require Import Strings.Byte Strings.String.
From S2P Require Import Prelude.
From S2P Require Import Slice.
From S2P Require Import Coding.
From S2P Require Import Crc32c.

Inductive RecordType : Set :=
| kZeroType
| kFullType
| kFirstType
| kMiddleType
| kLastType
| kRecyclableFullType
| kRecyclableFirstType
| kRecyclableMiddleType
| kRecyclableLastType.

#[export] Instance RecordType_eq_dec : EqDecision RecordType.
Proof. solve_decision. Defined.

Definition RecordType_num (t : RecordType) : Z :=
  match t with
  | kZeroType => 0
  | kFullType => 1
  | kFirstType => 2
  | kMiddleType => 3
  | kLastType => 4
  | kRecyclableFullType => 5
  | kRecyclableFirstType => 6
  | kRecyclableMiddleType => 7
  | kRecyclableLastType => 8
  end.

Definition kMaxRecordType : Z := RecordType_num kRecyclableLastType.

Definition kBlockSize : Z := 32768.
Definition kHeaderSize : Z := 4 + 1 + 2.
Definition kRecyclableHeaderSize : Z := 4 + 1 + 4 + 2.

(** ** The abstract log *)

(** Which of the two formats, and the 32 bits that the recyclable one stores. *)
Record LogCfg : Set := mkCfg { recyclable : bool; lognum : Z }.

Definition header_size (c : LogCfg) : Z :=
  if recyclable c then kRecyclableHeaderSize else kHeaderSize.

(** The type of a fragment: is it the first and is it the last one? *)
Definition frag_type (recycle begin end_ : bool) : RecordType :=
  if begin && end_ then (if recycle then kRecyclableFullType else kFullType)
  else if begin then (if recycle then kRecyclableFirstType else kFirstType)
  else if end_ then (if recycle then kRecyclableLastType else kLastType)
  else if recycle then kRecyclableMiddleType else kMiddleType.

Definition num_bytes (c : LogCfg) : list byte :=
  if recyclable c then le_enc 4 (lognum c) else [].

(** The bytes that the checksum of a physical record covers. *)
Definition covered (c : LogCfg) (t : RecordType) (payload : list byte) : list byte :=
  z2b (RecordType_num t) :: num_bytes c ++ payload.

(** A physical record whose checksum field is [sum]; a correct one stores the masked
    checksum of the bytes it covers. *)
Definition framed (c : LogCfg) (t : RecordType) (sum : Z) (payload : list byte) : list byte :=
  le_enc 4 sum ++
  [z2b (Z.land (zlen payload) 0xff); z2b (Z.shiftr (zlen payload) 8)] ++
  covered c t payload.
Definition phys (c : LogCfg) (t : RecordType) (payload : list byte) : list byte :=
  framed c t (Mask (crc32c 0 (covered c t payload))) payload.

(** [Frags c begin off payload out off']: written at offset [off] of a block, the
    (rest of the) record [payload] is the bytes [out] and ends at [off']. *)
Inductive Frags (c : LogCfg) : bool -> Z -> list byte -> list byte -> Z -> Prop :=
| frags_pad begin off payload out off' :
    kBlockSize - off < header_size c ->
    Frags c begin 0 payload out off' ->
    Frags c begin off payload (zrep (kBlockSize - off) x00 ++ out) off'
| frags_last begin off payload :
    header_size c + zlen payload <= kBlockSize - off ->
    Frags c begin off payload (phys c (frag_type (recyclable c) begin true) payload)
      (off + header_size c + zlen payload)
| frags_more begin off avail payload out off' :
    header_size c + avail = kBlockSize - off ->
    0 <= avail < zlen payload ->
    Frags c false kBlockSize (zdrop avail payload) out off' ->
    Frags c begin off payload
      (phys c (frag_type (recyclable c) begin false) (ztake avail payload) ++ out) off'.

Inductive Log (c : LogCfg) : Z -> list (list byte) -> list byte -> Z -> Prop :=
| log_nil off : Log c off [] [] off
| log_cons off payload recs out1 off1 out2 off2 :
    Frags c true off payload out1 off1 ->
    Log c off1 recs out2 off2 ->
    Log c off (payload :: recs) (out1 ++ out2) off2.

(** ** Lemmas *)

Lemma header_size_cases c :
  (recyclable c = false /\ header_size c = 7) \/ (recyclable c = true /\ header_size c = 11).
Proof. unfold header_size. destruct (recyclable c); auto. Qed.

Lemma header_size_bounds c : 7 <= header_size c <= 11.
Proof. destruct (header_size_cases c) as [[_ ->]|[_ ->]]; lia. Qed.

Lemma zlen_num_bytes c : zlen (num_bytes c) = header_size c - 7.
Proof. unfold num_bytes, header_size. by destruct (recyclable c). Qed.

Lemma zlen_framed c t sum payload : zlen (framed c t sum payload) = header_size c + zlen payload.
Proof.
  unfold framed, covered. rewrite !zlen_app, zlen_le_enc, !zlen_cons, zlen_app, zlen_num_bytes, zlen_nil.
  lia.
Qed.
Lemma zlen_phys c t payload : zlen (phys c t payload) = header_size c + zlen payload.
Proof. apply zlen_framed. Qed.

Lemma phys_nonempty c t payload : 0 < zlen (phys c t payload).
Proof. rewrite zlen_phys. pose proof (header_size_bounds c). zlen_pos. lia. Qed.

(** Fragments never leave the block they are in. *)
Lemma Frags_off c begin off payload out off' :
  Frags c begin off payload out off' -> 0 <= off <= kBlockSize -> 0 < off' <= kBlockSize.
Proof.
  induction 1 as [begin off payload out off' Hp H IH|begin off payload Hf
    |begin off avail payload out off' Ha Hav H IH]; intros Hoff;
    pose proof (header_size_bounds c); zlen_pos; unfold kBlockSize in *; try (apply IH; lia). lia.
Qed.

(** The layout of a record is a function of the record and where it starts. *)
Lemma Frags_det c begin off payload out1 off1 out2 off2 :
  Frags c begin off payload out1 off1 -> Frags c begin off payload out2 off2 ->
  out1 = out2 /\ off1 = off2.
Proof.
  intros H1; revert out2 off2.
  induction H1 as [begin off payload out off' Hp H IH|begin off payload Hf
    |begin off avail payload out off' Ha Hav H IH];
    intros out2 off2 H2; inversion H2 as [????? Hp2 H2'|??? Hf2|? ? avail2 ??? Ha2 Hav2 H2'];
    subst; pose proof (header_size_bounds c); zlen_pos; try lia.
  - destruct (IH _ _ H2') as [-> ->]. done.
  - done.
  - assert (avail = avail2) as <- by lia. destruct (IH _ _ H2') as [-> ->]. done.
Qed.

(** Every record has a layout, wherever it starts. *)
Lemma Frags_total_0 c begin payload : exists out off', Frags c begin 0 payload out off'.
Proof.
  revert begin. remember (length payload) as n eqn:Hn. revert payload Hn.
  induction n as [n IH] using lt_wf_ind; intros payload Hn begin. pose proof (header_size_bounds c) as Hh.
  destruct (Z.le_gt_cases (header_size c + zlen payload) kBlockSize) as [Hfit|Hno].
  - do 2 eexists. apply (frags_last c begin 0). lia.
  - unfold kBlockSize in Hno. set (avail := 32768 - header_size c) in *.
    assert (length (zdrop avail payload) < n)%nat as Hlt.
    { unfold zdrop. rewrite length_drop. unfold zlen in Hno. lia. }
    destruct (IH _ Hlt (zdrop avail payload) eq_refl false) as (out & off' & Hf).
    do 2 eexists. apply (frags_more c begin 0 avail payload); [unfold kBlockSize; lia|lia|].
    apply (frags_pad c false kBlockSize); [lia|exact Hf].
Qed.

Lemma Frags_total c begin off payload : exists out off', Frags c begin off payload out off'.
Proof.
  destruct (Z.lt_ge_cases (kBlockSize - off) (header_size c)) as [Hp|Hp].
  { destruct (Frags_total_0 c begin payload) as (out & off' & Hf). do 2 eexists. by apply frags_pad. }
  destruct (Z.le_gt_cases (header_size c + zlen payload) (kBlockSize - off)) as [Hfit|Hno].
  { do 2 eexists. by apply frags_last. }
  destruct (Frags_total_0 c false (zdrop (kBlockSize - off - header_size c) payload)) as (out & off' & Hf).
  pose proof (header_size_bounds c). do 2 eexists.
  apply (frags_more c begin off (kBlockSize - off - header_size c) payload); [lia|lia|].
  apply (frags_pad c false kBlockSize); [lia|exact Hf].
Qed.

Lemma Log_det c off recs out1 off1 : Log c off recs out1 off1 -> forall out2 off2, Log c off recs out2 off2 -> out1 = out2 /\ off1 = off2.
Proof.
  induction 1 as [off|off pay recs o1 f1 o2 f2 Hf HL IH]; intros out off' HL'; inversion HL' as [|? ? ? p1 g1 p2 g2 Hf' HL2]; subst; [done|].
  destruct (Frags_det _ _ _ _ _ _ _ _ Hf Hf') as [-> ->]. by destruct (IH _ _ HL2) as [-> ->].
Qed.

(** A log goes on where another one ends. *)
Lemma Log_app c off recs1 out1 off1 recs2 out2 off2 :
  Log c off recs1 out1 off1 -> Log c off1 recs2 out2 off2 -> Log c off (recs1 ++ recs2) (out1 ++ out2) off2.
Proof.
  induction 1 as [off|off pay recs o1 f1 o2 f2 Hf HL IH]; intros HL2; [done|]. simpl. rewrite <- app_assoc. econstructor; [done|]. by apply IH.
Qed.

Lemma Log_app_inv c recs1 : forall off recs2 out off2, Log c off (recs1 ++ recs2) out off2 ->
  exists out1 off1 out2, out = out1 ++ out2 /\ Log c off recs1 out1 off1 /\ Log c off1 recs2 out2 off2.
Proof.
  induction recs1 as [|pay recs1 IH]; intros off recs2 out off2 HL; [exists [], off, out; split; [done|]; split; [constructor|done]|].
  inversion HL as [|? ? ? o1 f1 o2 f2 Hf HL2]; subst. destruct (IH _ _ _ _ HL2) as (p1 & g1 & p2 & -> & H1 & H2).
  exists (o1 ++ p1), g1, p2. split; [by rewrite app_assoc|]. split; [by econstructor|done].
Qed.

Lemma Log_total c off recs : exists out off', Log c off recs out off'.
Proof.
  revert off. induction recs as [|r recs IH]; intros off; [by exists [], off; constructor|].
  destruct (Frags_total c true off r) as (o1 & f1 & H1). destruct (IH f1) as (o2 & f2 & H2). do 2 eexists. by econstructor.
Qed.

(** Headers and trailers at most double the bytes of long records. *)
Lemma Frags_size c begin off payload out off' :
  Frags c begin off payload out off' -> 0 <= off <= kBlockSize ->
  zlen out <= 2 * zlen payload + 22 /\ (off = 0 \/ off = kBlockSize -> zlen out <= 2 * zlen payload + 11).
Proof.
  induction 1 as [begin off payload out off' Hp H IH|begin off payload Hf
    |begin off avail payload out off' Ha Hav H IH]; intros Hoff;
    pose proof (header_size_bounds c) as Hh; pose proof (zlen_nonneg payload); unfold kBlockSize in *; rewrite ?zlen_app, ?zlen_phys.
  - rewrite zlen_zrep by lia. destruct (IH ltac:(lia)) as [_ IH2]. specialize (IH2 (or_introl eq_refl)). split; [lia|]. intros Hb. destruct Hb; lia.
  - split; [lia|]. intros _. lia.
  - rewrite zlen_ztake by lia. destruct (IH ltac:(lia)) as [_ IH2]. specialize (IH2 (or_intror eq_refl)). rewrite zlen_zdrop in IH2 by lia.
    split; [lia|]. intros Hb. destruct Hb; lia.
Qed.

Definition log_bound (recs : list (list byte)) : Z := foldr (fun r n => 2 * zlen r + 22 + n) 0 recs.
Lemma Log_size c off recs out off' : Log c off recs out off' -> 0 <= off <= kBlockSize -> zlen out <= log_bound recs.
Proof.
  induction 1 as [|off pay recs o1 f1 o2 f2 Hf HL IH]; intros Ho; simpl; [by rewrite zlen_nil|].
  destruct (Frags_size _ _ _ _ _ _ Hf Ho) as [Hs _]. specialize (IH ltac:(apply Frags_off in Hf; lia)). rewrite zlen_app. lia.
Qed.

Lemma Log_off c off recs out off' :
  Log c off recs out off' -> 0 <= off <= kBlockSize -> 0 <= off' <= kBlockSize.
Proof.
  induction 1 as [|off pay recs o1 f1 o2 f2 Hf HL IH]; [done|].
  intros Ho. apply IH. apply Frags_off in Hf; [lia|done].
Qed.
