(* ===== verification/LogWriter.v ===== *)
(** * LogWriter ([include/rocksutil/log_writer.h], [rutil/log_writer.cc])

    [log::Writer]: cutting records into fragments, block trailers, checksums. The
    destination ([WritableFileWriter]) is the class [LogDest]; [FileWriter] shows
    that the buffered writer of the repository implements it. *)

From Stdlib Require Import Strings.Byte Strings.String.
From S2P Require Import Prelude.
From S2P Require Import Slice.
From S2P Require Import Coding.
From S2P Require Import Status.
From S2P Require Import Crc32c.
From S2P Require Import LogFormat.

(** ** The destination *)

Class LogDest (D : Type) := {
  dest_append : D -> Slice -> Status * D;
  dest_flush : D -> Status * D;
}.

(** A destination on which every call succeeds while what it holds is of a size that
    [dest_fits]; [contents] is what was appended, [delivered] what is beyond the
    destination's own buffers. *)
Class ReliableDest (D : Type) `{LogDest D} := {
  contents : D -> list byte;
  delivered : D -> list byte;
  dest_ok : D -> Prop;
  dest_fits : Z -> Prop;
  dest_fits_le : forall m n, dest_fits n -> m <= n -> dest_fits m;
  append_reliable : forall d s, dest_ok d -> dest_fits (zlen (contents d) + zlen s) ->
    ok (dest_append d s).1 = true /\ dest_ok (dest_append d s).2 /\
    contents (dest_append d s).2 = contents d ++ s;
  flush_reliable : forall d, dest_ok d ->
    ok (dest_flush d).1 = true /\ dest_ok (dest_flush d).2 /\
    contents (dest_flush d).2 = contents d /\ delivered (dest_flush d).2 = contents d;
}.

(** ** The code *)

Record Writer (D : Type) := mkWriter {
  dest_ : D;
  block_offset_ : Z;
  log_number_ : Z;
  recycle_log_files_ : bool;
  type_crc_ : list Z;
}.
Arguments mkWriter {D}.
Arguments dest_ {D}.
Arguments block_offset_ {D}.
Arguments log_number_ {D}.
Arguments recycle_log_files_ {D}.
Arguments type_crc_ {D}.

Section Writer.
Context `{Host} `{Crc32c} {D : Type} `{LogDest D}.

Definition set_dest (w : Writer D) (d : D) : Writer D :=
  mkWriter d (block_offset_ w) (log_number_ w) (recycle_log_files_ w) (type_crc_ w).
Definition set_block_offset (w : Writer D) (o : Z) : Writer D :=
  mkWriter (dest_ w) o (log_number_ w) (recycle_log_files_ w) (type_crc_ w).

(** The loop of the constructor, over the remaining types. *)
Fixpoint type_crcs (ts : list Z) : outcome (list Z) :=
  match ts with
  | [] => mret []
  | t :: ts' =>
      c ← Value [z2b t];
      cs ← type_crcs ts';
      mret (c :: cs)
  end.

Definition Writer_new (dest : D) (log_number : Z) (recycle_log_files : bool)
  : outcome (Writer D) :=
  cs ← type_crcs (map Z.of_nat (seq 0 (Z.to_nat (kMaxRecordType + 1))));
  mret (mkWriter dest 0 log_number recycle_log_files cs).

(** The two formats of [EmitPhysicalRecord]: the header size, the bytes of [buf + 7]
    and the checksum so far. *)
Definition format_header (w : Writer D) (t : RecordType) (n crc : Z)
  : outcome (Z * list byte * Z) :=
  if RecordType_num t <? RecordType_num kRecyclableFullType then
    _ ← assert_that (u64 (block_offset_ w + kHeaderSize + n) <=? kBlockSize);
    mret (kHeaderSize, [], crc)
  else
    _ ← assert_that (u64 (block_offset_ w + kRecyclableHeaderSize + n) <=? kBlockSize);
    let num := EncodeFixed32 (u32 (log_number_ w)) in
    crc ← Extend crc num;
    mret (kRecyclableHeaderSize, num, crc).

(** [buf] is filled from three places: bytes 0 to 3 with the checksum, 4 to 6 with
    length and type, 7 to 10 with the log number. *)
Definition EmitPhysicalRecord (w : Writer D) (t : RecordType) (ptr : list byte) (n : Z)
  : outcome (Status * Writer D) :=
  _ ← assert_that (n <=? 0xffff);
  let buf46 := [z2b (Z.land n 0xff); z2b (Z.shiftr n 8); z2b (RecordType_num t)] in
  let crc := znth 0 (type_crc_ w) (RecordType_num t) in
  '(header_size, buf710, crc) ← format_header w t n crc;
  crc ← Extend crc (ztake n ptr);
  let crc := Mask crc in
  let buf := EncodeFixed32 crc ++ buf46 ++ buf710 in
  let '(s, d) := dest_append (dest_ w) (ztake header_size buf) in
  let '(s, d) :=
    if ok s then
      let '(s, d) := dest_append d (ztake n ptr) in
      if ok s then dest_flush d else (s, d)
    else (s, d) in
  let w := set_dest w d in
  mret (s, set_block_offset w (u64 (block_offset_ w + header_size + n))).

(** The literal has ten NUL bytes and the terminating one. *)
Definition trailer_literal : list byte := zrep 11 x00.

(** The [do ... while] loop; [ptr] is what is left of the record. *)
Fixpoint AddRecord_loop (fuel : nat) (w : Writer D) (ptr : list byte) (begin : bool)
  : outcome (Status * Writer D) :=
  match fuel with
  | O => NoFuel
  | S fuel' =>
      let left := zlen ptr in
      let header_size :=
        if recycle_log_files_ w then kRecyclableHeaderSize else kHeaderSize in
      let leftover := swrap 64 (kBlockSize - block_offset_ w) in
      _ ← assert_that (0 <=? leftover);
      w ← (if leftover <? header_size then
             w ← (if 0 <? leftover then
                    _ ← assert_that (header_size <=? 11);
                    let '(_, d) := dest_append (dest_ w) (ztake leftover trailer_literal) in
                    mret (set_dest w d)
                  else mret w);
             mret (set_block_offset w 0)
           else mret w);
      _ ← assert_that (header_size <=? swrap 64 (kBlockSize - block_offset_ w));
      let avail := u64 (kBlockSize - block_offset_ w - header_size) in
      let fragment_length := if left <? avail then left else avail in
      let end_ := left =? fragment_length in
      let type :=
        if begin && end_ then
          if recycle_log_files_ w then kRecyclableFullType else kFullType
        else if begin then
          if recycle_log_files_ w then kRecyclableFirstType else kFirstType
        else if end_ then
          if recycle_log_files_ w then kRecyclableLastType else kLastType
        else if recycle_log_files_ w then kRecyclableMiddleType else kMiddleType in
      '(s, w) ← EmitPhysicalRecord w type ptr fragment_length;
      let ptr := zdrop fragment_length ptr in
      if ok s && (0 <? zlen ptr) then AddRecord_loop fuel' w ptr false
      else mret (s, w)
  end.

(** A turn that does not write anything of the record ends its block, so that two
    more turns than bytes suffice. *)
Definition AddRecord (w : Writer D) (slice : Slice) : outcome (Status * Writer D) :=
  AddRecord_loop (S (S (length slice))) w slice true.

(** Calls in sequence, with their results. *)
Fixpoint AddRecords (w : Writer D) (recs : list Slice) : outcome (list Status * Writer D) :=
  match recs with
  | [] => mret ([], w)
  | r :: recs' =>
      '(s, w) ← AddRecord w r;
      '(ss, w) ← AddRecords w recs';
      mret (s :: ss, w)
  end.

End Writer.

(** ** Lemmas *)

Lemma RecordType_num_range t : 0 <= RecordType_num t <= 8.
Proof. by destruct t. Qed.

Lemma frag_type_legacy recycle b e :
  (RecordType_num (frag_type recycle b e) <? RecordType_num kRecyclableFullType) = negb recycle.
Proof. by destruct recycle, b, e. Qed.

Section Lemmas.
Context `{Host} `{Crc32c} {D : Type} `{LogDest D}.
Implicit Types w : Writer D.

(** The invariant of the writer's state. *)
Definition writer_inv w : Prop :=
  0 <= block_offset_ w <= kBlockSize /\
  forall t, znth 0 (type_crc_ w) (RecordType_num t) = crc32c 0 [z2b (RecordType_num t)].

(** The format that a writer writes. *)
Definition writer_cfg w : LogCfg := mkCfg (recycle_log_files_ w) (u32 (log_number_ w)).

Lemma Writer_new_inv (d : D) n r :
  exists w, Writer_new d n r = Ret w /\ writer_inv w /\ dest_ w = d /\
    block_offset_ w = 0 /\ log_number_ w = n /\ recycle_log_files_ w = r.
Proof.
  assert (forall ts, type_crcs ts = Ret (map (fun t => crc32c 0 [z2b t]) ts)) as Ht.
  { induction ts as [|t ts IH]; [done|]. simpl. unfold Value.
    rewrite Extend_crc32c by lia. bret. by rewrite IH. }
  unfold Writer_new. rewrite Ht. bret. eexists. split; [reflexivity|].
  split; [|done]. split; [done|]. by intros [].
Qed.

(** The checksum that [EmitPhysicalRecord] stores. *)
Lemma covered_crc c t payload :
  crc32c (crc32c (crc32c 0 [z2b (RecordType_num t)]) (num_bytes c)) payload =
  crc32c 0 (covered c t payload).
Proof. by rewrite <- !crc32c_app. Qed.

Definition emit_to (d : D) (hdr payload : list byte) : Status * D :=
  let '(s, d) := dest_append d hdr in
  if ok s then
    let '(s, d) := dest_append d payload in
    if ok s then dest_flush d else (s, d)
  else (s, d).

Definition phys_header (c : LogCfg) (t : RecordType) (payload : list byte) : list byte :=
  le_enc 4 (Mask (crc32c 0 (covered c t payload))) ++
  [z2b (Z.land (zlen payload) 0xff); z2b (Z.shiftr (zlen payload) 8);
   z2b (RecordType_num t)] ++ num_bytes c.

Lemma phys_header_app c t payload : phys c t payload = phys_header c t payload ++ payload.
Proof. unfold phys, framed, phys_header, covered. by rewrite <- !app_assoc. Qed.

Lemma zlen_phys_header c t payload : zlen (phys_header c t payload) = header_size c.
Proof.
  pose proof (zlen_phys c t payload) as Hp. rewrite phys_header_app, zlen_app in Hp. lia.
Qed.

Lemma format_header_spec w t n crc :
  0 <= crc < 2 ^ 32 -> 0 <= block_offset_ w -> 0 <= n ->
  block_offset_ w + header_size (writer_cfg w) + n <= kBlockSize ->
  (RecordType_num t <? RecordType_num kRecyclableFullType) = negb (recycle_log_files_ w) ->
  format_header w t n crc =
    Ret (header_size (writer_cfg w), num_bytes (writer_cfg w),
         crc32c crc (num_bytes (writer_cfg w))).
Proof.
  intros Hc Ho Hn Hfit Hty. unfold format_header. rewrite Hty.
  unfold header_size, num_bytes, writer_cfg in *. simpl in *. unfold kBlockSize in *.
  destruct (recycle_log_files_ w); simpl.
  - unfold kRecyclableHeaderSize in *. rewrite u64_small, assert_true by lia.
    by rewrite EncodeFixed32_le, Extend_crc32c.
  - unfold kHeaderSize in *. rewrite u64_small, assert_true by lia.
    unfold crc32c. simpl. by rewrite Z.lxor_assoc, Z.lxor_nilpotent, Z.lxor_0_r.
Qed.

Lemma EmitPhysicalRecord_spec w t ptr n :
  writer_inv w -> 0 <= n <= zlen ptr ->
  block_offset_ w + header_size (writer_cfg w) + n <= kBlockSize ->
  (RecordType_num t <? RecordType_num kRecyclableFullType) = negb (recycle_log_files_ w) ->
  EmitPhysicalRecord w t ptr n =
    let '(s, d) := emit_to (dest_ w) (phys_header (writer_cfg w) t (ztake n ptr)) (ztake n ptr) in
    Ret (s, mkWriter d (block_offset_ w + header_size (writer_cfg w) + n) (log_number_ w)
              (recycle_log_files_ w) (type_crc_ w)).
Proof.
  intros [Ho Ht] Hn Hfit Hty. unfold EmitPhysicalRecord.
  pose proof (header_size_bounds (writer_cfg w)) as Hh.
  rewrite assert_true by (unfold kBlockSize in *; lia).
  assert (forall c x, 0 <= c < 2 ^ 32 -> 0 <= crc32c c x < 2 ^ 32) as Hr
    by (intros; by apply crc32c_range).
  rewrite Ht, format_header_spec by first [done | lia | apply Hr; lia]. bret.
  rewrite Extend_crc32c by (apply Hr, Hr; lia). bret. rewrite covered_crc, EncodeFixed32_le.
  set (pay := ztake n ptr).
  assert (n = zlen pay) as Hlen by (unfold pay; rewrite zlen_ztake; lia).
  assert (le_enc 4 (Mask (crc32c 0 (covered (writer_cfg w) t pay))) ++
    [z2b (Z.land n 0xff); z2b (Z.shiftr n 8); z2b (RecordType_num t)] ++
    num_bytes (writer_cfg w) = phys_header (writer_cfg w) t pay) as -> by (by rewrite Hlen).
  rewrite ztake_ge by (rewrite zlen_phys_header; lia).
  unfold emit_to, set_block_offset, set_dest. unfold kBlockSize in *.
  repeat (case_match; simplify_eq); simpl; by rewrite u64_small by lia.
Qed.

(** The state after the block has been ended, if it has to be. *)
Definition roll w : Writer D :=
  if kBlockSize - block_offset_ w <? header_size (writer_cfg w) then
    set_block_offset
      (if 0 <? kBlockSize - block_offset_ w
       then set_dest w (dest_append (dest_ w) (zrep (kBlockSize - block_offset_ w) x00)).2
       else w) 0
  else w.

Lemma roll_spec w :
  writer_inv w ->
  writer_inv (roll w) /\ writer_cfg (roll w) = writer_cfg w /\
  log_number_ (roll w) = log_number_ w /\
  recycle_log_files_ (roll w) = recycle_log_files_ w /\ type_crc_ (roll w) = type_crc_ w /\
  header_size (writer_cfg w) <= kBlockSize - block_offset_ (roll w).
Proof.
  intros [Ho Ht]. pose proof (header_size_bounds (writer_cfg w)). unfold roll, kBlockSize in *.
  destruct (Z.ltb_spec (32768 - block_offset_ w) (header_size (writer_cfg w))).
  - destruct (Z.ltb_spec 0 (32768 - block_offset_ w)); simpl;
      split_and!; simpl; first [done|exact Ht|lia].
  - split_and!; first [done|lia].
Qed.

Lemma swrap_small z : 0 <= z < 2 ^ 63 -> swrap 64 z = z.
Proof. intros. unfold swrap. simpl. rewrite Z.mod_small; lia. Qed.

(** One turn of the loop: end the block if needed, emit what fits, go on. *)
Lemma AddRecord_turn fuel w ptr begin :
  writer_inv w ->
  let c := writer_cfg w in
  let n := Z.min (zlen ptr) (kBlockSize - block_offset_ (roll w) - header_size c) in
  let t := frag_type (recyclable c) begin (zlen ptr =? n) in
  AddRecord_loop (S fuel) w ptr begin =
    let '(s, d) := emit_to (dest_ (roll w)) (phys_header c t (ztake n ptr)) (ztake n ptr) in
    let w2 := mkWriter d (block_offset_ (roll w) + header_size c + n) (log_number_ w)
                (recycle_log_files_ w) (type_crc_ w) in
    if ok s && (0 <? zlen (zdrop n ptr)) then AddRecord_loop fuel w2 (zdrop n ptr) false
    else Ret (s, w2).
Proof.
  intros Hinv c n t. destruct (roll_spec w Hinv) as (Hinv1 & Hc & Hl & Hr & Ht & Hs).
  destruct Hinv as [Ho _]. pose proof (header_size_bounds c) as Hh.
  cbn [AddRecord_loop]. cbv zeta.
  rewrite swrap_small by (unfold kBlockSize in *; lia). rewrite assert_true by lia.
  change (if recycle_log_files_ w then kRecyclableHeaderSize else kHeaderSize)
    with (header_size c).
  match goal with |- (?m ≫= ?k) = _ => replace m with (Ret (roll w)) end.
  2: { unfold roll. fold c. destruct (_ <? header_size c) eqn:E; [|done].
       destruct (Z.ltb_spec 0 (kBlockSize - block_offset_ w)); [|done].
       rewrite assert_true by lia. unfold trailer_literal. rewrite ztake_zrep, Z.min_l by lia.
       by destruct (dest_append _ _). }
  bret. destruct Hinv1 as [Ho1 Ht1].
  rewrite swrap_small by (unfold kBlockSize in *; lia). rewrite assert_true by (unfold c; lia).
  rewrite u64_small by (unfold kBlockSize in *; unfold c in *; lia).
  assert ((if zlen ptr <? kBlockSize - block_offset_ (roll w) - header_size c then zlen ptr
           else kBlockSize - block_offset_ (roll w) - header_size c) = n) as ->
    by (unfold n; destruct (Z.ltb_spec (zlen ptr) (kBlockSize - block_offset_ (roll w) - header_size c)); lia).
  rewrite Hr. fold (frag_type (recycle_log_files_ w) begin (zlen ptr =? n)).
  change (frag_type (recycle_log_files_ w)) with (frag_type (recyclable c)). fold t.
  rewrite EmitPhysicalRecord_spec; [|done|unfold n, c in *; zlen_pos; lia
    |rewrite Hc; unfold n, c in *; lia|rewrite Hr; apply frag_type_legacy].
  rewrite Hc, Hl, Hr, Ht. fold c. by destruct (emit_to _ _ _) as [s d].
Qed.

(** How much fuel the loop needs: a turn that writes nothing of the record is
    possible only at exactly one header from the end of a block. *)
Definition turns w (ptr : list byte) : Z :=
  zlen ptr + (if kBlockSize - block_offset_ w =? header_size (writer_cfg w) then 2 else 1).

Lemma AddRecord_loop_total fuel w ptr begin :
  writer_inv w -> turns w ptr <= Z.of_nat fuel ->
  exists s w', AddRecord_loop fuel w ptr begin = Ret (s, w') /\
    writer_inv w' /\ writer_cfg w' = writer_cfg w.
Proof.
  revert w ptr begin; induction fuel as [|fuel IH]; intros w ptr begin Hinv Hf.
  { unfold turns in Hf. zlen_pos. case_match; lia. }
  rewrite AddRecord_turn by done. cbv zeta.
  destruct (roll_spec w Hinv) as (Hinv1 & Hc & Hl & Hr & Ht & Hs).
  pose proof (header_size_bounds (writer_cfg w)) as Hh.
  set (n := Z.min _ _). destruct (emit_to _ _ _) as [s d].
  set (w2 := mkWriter d _ _ _ _).
  assert (0 <= n) by (unfold n; zlen_pos; lia).
  assert (writer_inv w2) as Hinv2.
  { destruct Hinv as [? Htc], Hinv1. split; [|exact Htc]. simpl. lia. }
  destruct (ok s && (0 <? zlen (zdrop n ptr))) eqn:E; [|by do 2 eexists].
  destruct (IH w2 (zdrop n ptr) false Hinv2) as (s' & w' & -> & ? & Hc'); [|by do 2 eexists].
  apply andb_prop in E as [_ E]. rewrite zlen_zdrop in E by done.
  unfold turns in *. change (writer_cfg w2) with (writer_cfg w). rewrite zlen_zdrop by done.
  assert (n = kBlockSize - block_offset_ (roll w) - header_size (writer_cfg w)) as Hn by lia.
  simpl block_offset_. replace (kBlockSize - _ =? _) with false by lia.
  destruct (Z.eqb_spec (kBlockSize - block_offset_ w) (header_size (writer_cfg w))) as [He|He]; [lia|].
  assert (n <> 0); [|lia]. rewrite Hn. unfold roll in *.
  destruct (Z.ltb_spec (kBlockSize - block_offset_ w) (header_size (writer_cfg w))); [|lia].
  simpl. unfold kBlockSize in *. lia.
Qed.

Lemma AddRecord_total w slice :
  writer_inv w ->
  exists s w', AddRecord w slice = Ret (s, w') /\ writer_inv w' /\ writer_cfg w' = writer_cfg w.
Proof.
  intros Hinv. apply AddRecord_loop_total; [done|]. unfold turns, zlen. case_match; lia.
Qed.

End Lemmas.

(** ** Writing to a reliable destination *)

Section Reliable.
Context `{Host} `{Crc32c} {D : Type} `{ReliableDest D}.
Implicit Types w : Writer D.

Lemma emit_to_reliable d hdr payload :
  dest_ok d -> dest_fits (zlen (contents d) + zlen (hdr ++ payload)) ->
  let '(s, d') := emit_to d hdr payload in
  ok s = true /\ dest_ok d' /\ contents d' = contents d ++ hdr ++ payload /\ delivered d' = contents d'.
Proof.
  intros Hd Hfit. rewrite zlen_app in Hfit. unfold emit_to. pose proof (zlen_nonneg payload).
  destruct (append_reliable d hdr Hd) as (Hs1 & Hd1 & Hc1); [eapply dest_fits_le; [exact Hfit|lia]|].
  destruct (dest_append d hdr) as [s1 d1]; simpl in *. rewrite Hs1.
  destruct (append_reliable d1 payload Hd1) as (Hs2 & Hd2 & Hc2).
  { rewrite Hc1, zlen_app. eapply dest_fits_le; [exact Hfit|lia]. }
  destruct (dest_append d1 payload) as [s2 d2]; simpl in *. rewrite Hs2.
  destruct (flush_reliable d2 Hd2) as (Hs3 & Hd3 & Hc3 & He3). destruct (dest_flush d2) as [s3 d3]; simpl in *.
  rewrite He3, Hc3, Hc2, Hc1, <- app_assoc. done.
Qed.

(** The records that are still to be written fit behind what is there. *)
Definition frags_fit w (begin : bool) (ptr : list byte) : Prop :=
  forall out off', Frags (writer_cfg w) begin (block_offset_ w) ptr out off' -> dest_fits (zlen (contents (dest_ w)) + zlen out).
Definition log_fits w (recs : list (list byte)) : Prop :=
  forall out off', Log (writer_cfg w) (block_offset_ w) recs out off' -> dest_fits (zlen (contents (dest_ w)) + zlen out).

Lemma roll_reliable w begin ptr :
  writer_inv w -> dest_ok (dest_ w) -> frags_fit w begin ptr ->
  dest_ok (dest_ (roll w)) /\ frags_fit (roll w) begin ptr /\
  exists pad, contents (dest_ (roll w)) = contents (dest_ w) ++ pad /\
    forall out off',
      Frags (writer_cfg w) begin (block_offset_ (roll w)) ptr out off' ->
      Frags (writer_cfg w) begin (block_offset_ w) ptr (pad ++ out) off'.
Proof.
  intros [Ho Ht] Hd Hfit. destruct (roll_spec w (conj Ho Ht)) as (_ & Hc & _).
  assert (dest_ok (dest_ (roll w)) /\ exists pad, contents (dest_ (roll w)) = contents (dest_ w) ++ pad /\
    forall out off', Frags (writer_cfg w) begin (block_offset_ (roll w)) ptr out off' ->
      Frags (writer_cfg w) begin (block_offset_ w) ptr (pad ++ out) off') as (Hd' & pad & Hp & Hf).
  { unfold roll. destruct (Z.ltb_spec (kBlockSize - block_offset_ w) (header_size (writer_cfg w))) as [Hlt|Hge].
    2: { split; [done|]. exists []. split; [by rewrite app_nil_r|done]. }
    destruct (Z.ltb_spec 0 (kBlockSize - block_offset_ w)) as [Hp|Hp]; simpl.
    - destruct (append_reliable (dest_ w) (zrep (kBlockSize - block_offset_ w) x00) Hd) as (_ & Hd1 & Hc1).
      { destruct (Frags_total (writer_cfg w) begin 0 ptr) as (out & off' & Hf).
        eapply dest_fits_le; [exact (Hfit _ _ (frags_pad _ _ _ _ _ _ Hlt Hf))|]. rewrite zlen_app. pose proof (zlen_nonneg out). lia. }
      split; [done|]. eexists. split; [exact Hc1|]. intros. by apply frags_pad.
    - split; [done|]. exists []. split; [by rewrite app_nil_r|]. intros out off' Hf.
      assert (kBlockSize - block_offset_ w = 0) as Hz by lia.
      apply (frags_pad _ _ (block_offset_ w)) in Hf; [|done]. by rewrite Hz in Hf. }
  split; [done|]. split; [|by exists pad]. intros out off' H3. rewrite Hc in H3.
  rewrite Hp, zlen_app, <- Z.add_assoc, <- zlen_app. by eapply Hfit, Hf.
Qed.

(** What a turn emits: the bytes of this fragment, and what the rest of the record comes to. *)
Lemma turn_Frags w begin ptr :
  let c := writer_cfg w in
  let n := Z.min (zlen ptr) (kBlockSize - block_offset_ w - header_size c) in
  let out := phys c (frag_type (recyclable c) begin (zlen ptr =? n)) (ztake n ptr) in
  header_size c <= kBlockSize - block_offset_ w ->
  (n = zlen ptr -> Frags c begin (block_offset_ w) ptr out (block_offset_ w + header_size c + n)) /\
  (n < zlen ptr -> block_offset_ w + header_size c + n = kBlockSize /\
     forall out2 off', Frags c false kBlockSize (zdrop n ptr) out2 off' ->
       Frags c begin (block_offset_ w) ptr (out ++ out2) off').
Proof.
  intros c n out Hs. split.
  - intros Hn. unfold out. rewrite Hn, Z.eqb_refl, ztake_ge by lia. apply frags_last. unfold n in Hn. lia.
  - intros Hn. assert (n = kBlockSize - block_offset_ w - header_size c) as Hnn by (unfold n in *; lia). split; [lia|].
    intros out2 off' Hf. unfold out. replace (zlen ptr =? n) with false by lia.
    apply (frags_more _ _ _ n); [lia|lia|exact Hf].
Qed.

Lemma AddRecord_loop_Frags fuel w ptr begin s w' :
  writer_inv w -> dest_ok (dest_ w) -> frags_fit w begin ptr -> AddRecord_loop fuel w ptr begin = Ret (s, w') ->
  ok s = true /\ dest_ok (dest_ w') /\ delivered (dest_ w') = contents (dest_ w') /\
  exists out, contents (dest_ w') = contents (dest_ w) ++ out /\
    Frags (writer_cfg w) begin (block_offset_ w) ptr out (block_offset_ w').
Proof.
  revert w ptr begin; induction fuel as [|fuel IH]; intros w ptr begin Hinv Hd Hfit Hr; [done|].
  rewrite AddRecord_turn in Hr by done. cbv zeta in Hr.
  destruct (roll_spec w Hinv) as (Hinv1 & Hc & _ & _ & _ & Hs).
  pose proof (header_size_bounds (writer_cfg w)) as Hh.
  destruct (roll_reliable w begin ptr Hinv Hd Hfit) as (Hd1 & Hfit1 & pad & Hc1 & Hpad).
  pose proof (turn_Frags (roll w) begin ptr) as Hturn. cbv zeta in Hturn. rewrite Hc in Hturn. specialize (Hturn Hs).
  unfold frags_fit in Hfit1. rewrite Hc in Hfit1.
  set (n := Z.min _ _) in *. set (t := frag_type _ _ _) in *. destruct Hturn as [Hlast Hmore].
  assert (0 <= n <= zlen ptr) as Hn by (unfold n; zlen_pos; lia).
  pose proof (emit_to_reliable (dest_ (roll w)) (phys_header (writer_cfg w) t (ztake n ptr)) (ztake n ptr) Hd1) as He.
  destruct (emit_to _ _ _) as [s2 d2]. rewrite <- phys_header_app in He.
  rewrite zlen_zdrop in Hr by lia. destruct (Z.ltb_spec 0 (Z.max 0 (zlen ptr - n))) as [Hleft|Hleft].
  - destruct (Hmore ltac:(lia)) as [Hend Hrest].
    assert (forall out2 off', Frags (writer_cfg w) false kBlockSize (zdrop n ptr) out2 off' ->
      dest_fits (zlen (contents (dest_ (roll w))) + (zlen (phys (writer_cfg w) t (ztake n ptr)) + zlen out2))) as Hf2.
    { intros out2 off' Hf. rewrite <- zlen_app. by eapply Hfit1, Hrest. }
    destruct He as (Es & Hd2 & Hc2 & _).
    { destruct (Frags_total (writer_cfg w) false kBlockSize (zdrop n ptr)) as (out2 & off' & Hf).
      eapply dest_fits_le; [exact (Hf2 _ _ Hf)|]. pose proof (zlen_nonneg out2). lia. }
    rewrite Es in Hr. cbn [andb] in Hr. apply IH in Hr as (? & ? & ? & out & Hco & Hf); [|destruct Hinv, Hinv1; split; simpl; [lia|done]|done|].
    + simpl in Hco, Hf. rewrite Hend in Hf. split_and!; [done..|]. exists (pad ++ phys (writer_cfg w) t (ztake n ptr) ++ out).
      split; [by rewrite Hco, Hc2, Hc1, <- !app_assoc|]. by apply Hpad, Hrest.
    + intros out2 off' Hf. simpl in Hf |- *. rewrite Hend in Hf. rewrite Hc2, zlen_app, <- Z.add_assoc. by eapply Hf2.
  - assert (n = zlen ptr) as Hnl by lia. specialize (Hlast Hnl). destruct He as (Es & Hd2 & Hc2 & Hdl); [by eapply Hfit1|].
    rewrite andb_false_r in Hr. injection Hr as <- <-. simpl. split_and!; [done..|].
    exists (pad ++ phys (writer_cfg w) t (ztake n ptr)). split; [by rewrite Hc2, Hc1, <- app_assoc|]. by apply Hpad.
Qed.

Lemma AddRecord_Frags w slice :
  writer_inv w -> dest_ok (dest_ w) -> frags_fit w true slice ->
  exists s w' out, AddRecord w slice = Ret (s, w') /\ ok s = true /\
    dest_ok (dest_ w') /\ delivered (dest_ w') = contents (dest_ w') /\ writer_inv w' /\ writer_cfg w' = writer_cfg w /\
    contents (dest_ w') = contents (dest_ w) ++ out /\
    Frags (writer_cfg w) true (block_offset_ w) slice out (block_offset_ w').
Proof.
  intros Hinv Hd Hfit. destruct (AddRecord_total w slice Hinv) as (s & w' & Hr & Hi & Hc).
  pose proof Hr as Hr'. unfold AddRecord in Hr'.
  apply AddRecord_loop_Frags in Hr' as (? & ? & ? & out & ? & ?); [|done..].
  by exists s, w', out.
Qed.

Lemma AddRecords_Log w recs :
  writer_inv w -> dest_ok (dest_ w) -> log_fits w recs ->
  exists ss w' out, AddRecords w recs = Ret (ss, w') /\
    Forall (fun s => ok s = true) ss /\ length ss = length recs /\
    dest_ok (dest_ w') /\ (recs <> [] -> delivered (dest_ w') = contents (dest_ w')) /\ writer_inv w' /\ writer_cfg w' = writer_cfg w /\
    contents (dest_ w') = contents (dest_ w) ++ out /\
    Log (writer_cfg w) (block_offset_ w) recs out (block_offset_ w').
Proof.
  revert w; induction recs as [|r recs IH]; intros w Hinv Hd Hfit.
  - exists [], w, []. rewrite app_nil_r. split_and!; auto; [done|apply log_nil].
  - destruct (AddRecord_Frags w r Hinv Hd) as (s & w1 & out1 & Hr & Hs & Hd1 & Hv1 & Hi1 & Hc1 & Ho1 & Hf1).
    { intros out off' Hf. destruct (Log_total (writer_cfg w) off' recs) as (o2 & f2 & HL).
      eapply dest_fits_le; [exact (Hfit _ _ (log_cons _ _ _ _ _ _ _ _ Hf HL))|]. rewrite zlen_app. pose proof (zlen_nonneg o2). lia. }
    destruct (IH w1 Hi1 Hd1) as (ss & w2 & out2 & Hr2 & Hss & Hl & Hd2 & Hv2 & Hi2 & Hc2 & Ho2 & Hf2).
    { intros out off' HL. rewrite Hc1 in HL. rewrite Ho1, zlen_app, <- Z.add_assoc, <- zlen_app. eapply Hfit. by econstructor. }
    exists (s :: ss), w2, (out1 ++ out2). simpl. rewrite Hr. bret. rewrite Hr2. bret.
    rewrite Hc1 in *. split_and!; auto; [|by rewrite Ho2, Ho1, app_assoc|by eapply log_cons].
    intros _. destruct recs as [|r2 recs]; [|by apply Hv2]. simpl in Hr2. injection Hr2 as <- <-. done.
Qed.

End Reliable.

(** A destination in memory. *)
Definition mem_dest : Type := list byte.
#[export] Instance mem_dest_ops : LogDest mem_dest :=
  {| dest_append d s := (OK, d ++ s); dest_flush d := (OK, d) |}.
#[export] Instance mem_dest_reliable : ReliableDest mem_dest.
Proof. by refine {| contents d := d; delivered d := d; dest_ok _ := True; dest_fits _ := True |}. Defined.

(** ** Properties *)

Section Properties.
Context `{Host} `{Crc32c} {D : Type} `{LogDest D}.

(** C8: whatever the destination does, including failing at any call, a [Writer] keeps its
    invariant (the block offset stays within a block, the table of type checksums is
    right), none of the assertions of [AddRecord] and [EmitPhysicalRecord] fails, and
    [AddRecord] terminates with a status, for records of every size. *)
Theorem writer_never_aborts (d : D) n recycle recs :
  exists w0 ss w, Writer_new d n recycle = Ret w0 /\ AddRecords w0 recs = Ret (ss, w) /\
    length ss = length recs /\ writer_inv w /\ writer_cfg w = mkCfg recycle (u32 n).
Proof.
  destruct (Writer_new_inv d n recycle) as (w0 & Hw & Hinv & _ & _ & Hl & Hr).
  exists w0. rewrite Hw. assert (writer_cfg w0 = mkCfg recycle (u32 n)) as <-
    by (unfold writer_cfg; by rewrite Hl, Hr).
  clear Hw Hl Hr. revert w0 Hinv. induction recs as [|r recs IH]; intros w0 Hinv.
  - by exists [], w0.
  - destruct (AddRecord_total w0 r Hinv) as (s & w1 & Ha & Hi1 & Hc1).
    destruct (IH w1 Hi1) as (ss & w & _ & Hs & Hl & Hi & Hc).
    exists (s :: ss), w. split; [done|]. simpl. rewrite Ha. bret. rewrite Hs. bret.
    split_and!; [done|by rewrite Hl|done..|congruence].
Qed.

End Properties.
