(* ===== verification/LogReader.v ===== *)
(** * LogReader ([include/rocksutil/log_reader.h], [rutil/log_reader.cc])

    [log::Reader]: block buffering, parsing of physical records, reassembly of
    fragments, error classification by recovery mode, and following a growing
    file. The file ([SequentialFileReader], which forwards to a [SequentialFile])
    is the class [SeqFile]; the reporter is the list of the reports it received. *)

From Stdlib Require Import Strings.Byte Strings.String.
From stdpp Require Import pretty.
From S2P Require Import Prelude.
From S2P Require Import Slice.
From S2P Require Import Coding.
From S2P Require Import Status.
From S2P Require Import Crc32c.
From S2P Require Import LogFormat.

(** ** The file *)

Class SeqFile (F : Type) := {
  seq_read : F -> Z -> Status * list byte * F;
  seq_skip : F -> Z -> Status * F;
}.

(** A file that always works and gives fewer bytes than asked for only at its end;
    [remaining] are the bytes behind the position. *)
Class ReliableFile (F : Type) `{SeqFile F} := {
  remaining : F -> list byte;
  read_reliable : forall f n, 0 < n ->
    ok (seq_read f n).1.1 = true /\ (seq_read f n).1.2 = ztake n (remaining f) /\
    remaining (seq_read f n).2 = zdrop n (remaining f);
  skip_reliable : forall f n, 0 <= n <= zlen (remaining f) ->
    ok (seq_skip f n).1 = true /\ remaining (seq_skip f n).2 = zdrop n (remaining f);
}.

(** ** The state *)

Inductive WALRecoveryMode : Set :=
| kTolerateCorruptedTailRecords
| kAbsoluteConsistency
| kPointInTimeRecovery
| kSkipAnyCorruptedRecords.

#[export] Instance WALRecoveryMode_eq_dec : EqDecision WALRecoveryMode.
Proof. solve_decision. Defined.

Definition kEof : Z := kMaxRecordType + 1.
Definition kBadRecord : Z := kMaxRecordType + 2.
Definition kBadHeader : Z := kMaxRecordType + 3.
Definition kOldRecord : Z := kMaxRecordType + 4.
Definition kBadRecordLen : Z := kMaxRecordType + 5.
Definition kBadRecordChecksum : Z := kMaxRecordType + 6.

(** [reporter_] is [None] for a null pointer, else the calls of [Corruption]. *)
Record Reader (F : Type) := mkReader {
  file_ : F;
  reporter_ : option (list (Z * Status));
  checksum_ : bool;
  buffer_ : list byte;
  eof_ : bool;
  read_error_ : bool;
  eof_offset_ : Z;
  last_record_offset_ : Z;
  end_of_buffer_offset_ : Z;
  initial_offset_ : Z;
  rlog_number_ : Z;
  recycled_ : bool;
}.
Arguments mkReader {F}.
Arguments file_ {F}.
Arguments reporter_ {F}.
Arguments checksum_ {F}.
Arguments buffer_ {F}.
Arguments eof_ {F}.
Arguments read_error_ {F}.
Arguments eof_offset_ {F}.
Arguments last_record_offset_ {F}.
Arguments end_of_buffer_offset_ {F}.
Arguments initial_offset_ {F}.
Arguments rlog_number_ {F}.
Arguments recycled_ {F}.

Section Setters.
Context {F : Type}.
Implicit Types r : Reader F.

Definition set_file r (x : F) := mkReader x (reporter_ r) (checksum_ r) (buffer_ r) (eof_ r)
  (read_error_ r) (eof_offset_ r) (last_record_offset_ r) (end_of_buffer_offset_ r)
  (initial_offset_ r) (rlog_number_ r) (recycled_ r).
Definition set_reporter r x := mkReader (file_ r) x (checksum_ r) (buffer_ r) (eof_ r)
  (read_error_ r) (eof_offset_ r) (last_record_offset_ r) (end_of_buffer_offset_ r)
  (initial_offset_ r) (rlog_number_ r) (recycled_ r).
Definition set_buffer r x := mkReader (file_ r) (reporter_ r) (checksum_ r) x (eof_ r)
  (read_error_ r) (eof_offset_ r) (last_record_offset_ r) (end_of_buffer_offset_ r)
  (initial_offset_ r) (rlog_number_ r) (recycled_ r).
Definition set_eof r x := mkReader (file_ r) (reporter_ r) (checksum_ r) (buffer_ r) x
  (read_error_ r) (eof_offset_ r) (last_record_offset_ r) (end_of_buffer_offset_ r)
  (initial_offset_ r) (rlog_number_ r) (recycled_ r).
Definition set_read_error r x := mkReader (file_ r) (reporter_ r) (checksum_ r) (buffer_ r)
  (eof_ r) x (eof_offset_ r) (last_record_offset_ r) (end_of_buffer_offset_ r)
  (initial_offset_ r) (rlog_number_ r) (recycled_ r).
Definition set_eof_offset r x := mkReader (file_ r) (reporter_ r) (checksum_ r) (buffer_ r)
  (eof_ r) (read_error_ r) x (last_record_offset_ r) (end_of_buffer_offset_ r)
  (initial_offset_ r) (rlog_number_ r) (recycled_ r).
Definition set_last r x := mkReader (file_ r) (reporter_ r) (checksum_ r) (buffer_ r)
  (eof_ r) (read_error_ r) (eof_offset_ r) x (end_of_buffer_offset_ r)
  (initial_offset_ r) (rlog_number_ r) (recycled_ r).
Definition set_end r x := mkReader (file_ r) (reporter_ r) (checksum_ r) (buffer_ r)
  (eof_ r) (read_error_ r) (eof_offset_ r) (last_record_offset_ r) x
  (initial_offset_ r) (rlog_number_ r) (recycled_ r).
Definition set_recycled r x := mkReader (file_ r) (reporter_ r) (checksum_ r) (buffer_ r)
  (eof_ r) (read_error_ r) (eof_offset_ r) (last_record_offset_ r) (end_of_buffer_offset_ r)
  (initial_offset_ r) (rlog_number_ r) x.
End Setters.

(** ** The code *)

Section Reader.
Context `{Host} `{Crc32c} {F : Type} `{SeqFile F}.
Implicit Types r : Reader F.

Definition Reader_new (file : F) (reporter : option (list (Z * Status))) (checksum : bool)
    (initial_offset log_num : Z) : Reader F :=
  mkReader file reporter checksum [] false false 0 0 0 initial_offset log_num false.

(** [ReportDrop]; the subtraction is in [uint64_t]. *)
Definition ReportDrop r (bytes : Z) (reason : Status) : Reader F :=
  match reporter_ r with
  | Some reports =>
      if initial_offset_ r <=? u64 (end_of_buffer_offset_ r - size (buffer_ r) - bytes)
      then set_reporter r (Some (reports ++ [(bytes, reason)]))
      else r
  | None => r
  end.

Definition ReportCorruption r (bytes : Z) (reason : list byte) : Reader F :=
  ReportDrop r bytes (Corruption reason []).

Definition SkipToInitialBlock r : bool * Reader F :=
  let initial_offset_in_block := initial_offset_ r mod kBlockSize in
  let block_start_location := initial_offset_ r - initial_offset_in_block in
  let block_start_location :=
    if kBlockSize - 6 <? initial_offset_in_block
    then u64 (block_start_location + kBlockSize) else block_start_location in
  let r := set_end r block_start_location in
  if 0 <? block_start_location then
    let '(skip_status, f) := seq_skip (file_ r) block_start_location in
    let r := set_file r f in
    if negb (ok skip_status) then (false, ReportDrop r block_start_location skip_status)
    else (true, r)
  else (true, r).

(** [ReadMore]: the result, [*drop_size], [*error]. *)
Definition ReadMore r (drop_size error : Z) : bool * Z * Z * Reader F :=
  if negb (eof_ r) && negb (read_error_ r) then
    let r := set_buffer r [] in
    let '(status, data, f) := seq_read (file_ r) kBlockSize in
    let r := set_buffer (set_file r f) data in
    let r := set_end r (u64 (end_of_buffer_offset_ r + size (buffer_ r))) in
    if negb (ok status) then
      let r := set_buffer r [] in
      let r := ReportDrop r kBlockSize status in
      (false, drop_size, kEof, set_read_error r true)
    else if size (buffer_ r) <? kBlockSize then
      (true, drop_size, error, set_eof_offset (set_eof r true) (size (buffer_ r)))
    else (true, drop_size, error, r)
  else if negb (size (buffer_ r) =? 0) then
    (false, size (buffer_ r), kBadHeader, set_buffer r [])
  else (false, drop_size, kEof, set_buffer r []).

(** [while (true)] of [ReadPhysicalRecord]: the type or special value, [*result]
    and [*drop_size]. *)
Fixpoint ReadPhysicalRecord_loop (fuel : nat) r (result : list byte) (drop_size : Z)
  : outcome (Z * list byte * Z * Reader F) :=
  match fuel with
  | O => NoFuel
  | S fuel' =>
      if size (buffer_ r) <? kHeaderSize then
        let '(more, drop_size, err, r) := ReadMore r drop_size 0 in
        if negb more then mret (err, result, drop_size, r)
        else ReadPhysicalRecord_loop fuel' r result drop_size
      else
        let header := buffer_ r in
        let a := b2z (znth x00 header 4) in
        let b := b2z (znth x00 header 5) in
        let type := u32 (b2sz (znth x00 header 6)) in
        let length := Z.lor a (Z.shiftl b 8) in
        let recyclable_type :=
          (RecordType_num kRecyclableFullType <=? type) &&
          (type <=? RecordType_num kRecyclableLastType) in
        let r :=
          if recyclable_type && (u64 (end_of_buffer_offset_ r - size (buffer_ r)) =? 0)
          then set_recycled r true else r in
        if recyclable_type && (size (buffer_ r) <? kRecyclableHeaderSize) then
          let '(more, drop_size, err, r) := ReadMore r drop_size 0 in
          if negb more then mret (err, result, drop_size, r)
          else ReadPhysicalRecord_loop fuel' r result drop_size
        else if recyclable_type &&
                negb (DecodeFixed32 (zdrop 7 header) =? rlog_number_ r) then
          mret (kOldRecord, result, drop_size, r)
        else
          let header_size := if recyclable_type then kRecyclableHeaderSize else kHeaderSize in
          if size (buffer_ r) <? header_size + length then
            let drop_size := size (buffer_ r) in
            let r := set_buffer r [] in
            if negb (eof_ r) then mret (kBadRecordLen, result, drop_size, r)
            else if negb (drop_size =? 0) then mret (kBadHeader, result, drop_size, r)
            else mret (kEof, result, drop_size, r)
          else if (type =? RecordType_num kZeroType) && (length =? 0) then
            mret (kBadRecord, result, drop_size, set_buffer r [])
          else
            crc_ok ← (if checksum_ r then
                        let expected_crc := Unmask (DecodeFixed32 header) in
                        actual_crc ← Value (ztake (length + header_size - 6) (zdrop 6 header));
                        mret (actual_crc =? expected_crc)
                      else mret true);
            if negb crc_ok then
              mret (kBadRecordChecksum, result, size (buffer_ r), set_buffer r [])
            else
              buf ← remove_prefix (buffer_ r) (header_size + length);
              let r := set_buffer r buf in
              if u64 (end_of_buffer_offset_ r - size (buffer_ r) - header_size - length)
                 <? initial_offset_ r
              then mret (kBadRecord, [], drop_size, r)
              else mret (type, ztake length (zdrop header_size header), drop_size, r)
  end.

(** A turn that continues has read a block, and the next one then has either a
    header in the buffer or the end of the file behind it. *)
Definition ReadPhysicalRecord r (result : list byte) (drop_size : Z) :=
  ReadPhysicalRecord_loop 3 r result drop_size.

Definition is_type (record_type : Z) (t1 t2 : RecordType) : bool :=
  (record_type =? RecordType_num t1) || (record_type =? RecordType_num t2).

(** What the body of the loop does: go round again with a new fragment state, or
    return. *)
Inductive step_result : Type :=
| Again (r : Reader F) (scratch : list byte) (in_fragmented_record : bool)
    (prospective_record_offset : Z)
| Done (found : bool) (record scratch : list byte) (r : Reader F).

(** [case kEof] *)
Definition on_eof r (record scratch : list byte) (in_frag : bool) (mode : WALRecoveryMode)
  : step_result :=
  if in_frag then
    let r := if bool_decide (mode = kAbsoluteConsistency)
             then ReportCorruption r (size scratch) (str "error reading trailing data") else r in
    Done false record [] r
  else Done false record scratch r.

(** The tail that [kBadRecord], [kBadRecordLen] and [kBadRecordChecksum] share. *)
Definition drop_partial r (scratch : list byte) (in_frag : bool) (pro : Z) : step_result :=
  if in_frag
  then Again (ReportCorruption r (size scratch) (str "error in middle of record")) [] false pro
  else Again r scratch in_frag pro.

(** The [switch] of [ReadRecord]. *)
Definition dispatch r (record_type : Z) (fragment : list byte) (drop_size : Z)
    (physical_record_offset : Z) (record scratch : list byte) (in_frag : bool) (pro : Z)
    (mode : WALRecoveryMode) : step_result :=
  if is_type record_type kFullType kRecyclableFullType then
    let r := if in_frag && negb (size scratch =? 0)
             then ReportCorruption r (size scratch) (str "partial record without end(1)") else r in
    Done true fragment [] (set_last r physical_record_offset)
  else if is_type record_type kFirstType kRecyclableFirstType then
    let r := if in_frag && negb (size scratch =? 0)
             then ReportCorruption r (size scratch) (str "partial record without end(2)") else r in
    Again r fragment true physical_record_offset
  else if is_type record_type kMiddleType kRecyclableMiddleType then
    if negb in_frag then
      Again (ReportCorruption r (size fragment) (str "missing start of fragmented record(1)"))
        scratch in_frag pro
    else Again r (scratch ++ fragment) in_frag pro
  else if is_type record_type kLastType kRecyclableLastType then
    if negb in_frag then
      Again (ReportCorruption r (size fragment) (str "missing start of fragmented record(2)"))
        scratch in_frag pro
    else Done true (scratch ++ fragment) (scratch ++ fragment) (set_last r pro)
  else if record_type =? kBadHeader then
    let r := if bool_decide (mode = kAbsoluteConsistency)
             then ReportCorruption r drop_size (str "truncated header") else r in
    on_eof r record scratch in_frag mode
  else if record_type =? kEof then on_eof r record scratch in_frag mode
  else if record_type =? kOldRecord then
    if negb (bool_decide (mode = kSkipAnyCorruptedRecords))
    then on_eof r record scratch in_frag mode
    else drop_partial r scratch in_frag pro
  else if record_type =? kBadRecord then drop_partial r scratch in_frag pro
  else if (record_type =? kBadRecordLen) || (record_type =? kBadRecordChecksum) then
    if recycled_ r && bool_decide (mode = kTolerateCorruptedTailRecords)
    then Done false record [] r
    else
      let r := if record_type =? kBadRecordLen
               then ReportCorruption r drop_size (str "bad record length")
               else ReportCorruption r drop_size (str "checksum mismatch") in
      drop_partial r scratch in_frag pro
  else
    let r := ReportCorruption r (size fragment + (if in_frag then size scratch else 0))
               (str "unknown record type " ++ str (pretty (Z.to_N record_type))) in
    Again r [] false pro.

(** The loop of [ReadRecord]: whether a record was found, [*record], [*scratch]. *)
Fixpoint ReadRecord_loop (fuel : nat) r (fragment record scratch : list byte) (in_frag : bool)
    (pro : Z) (mode : WALRecoveryMode) : outcome (bool * list byte * list byte * Reader F) :=
  match fuel with
  | O => NoFuel
  | S fuel' =>
      let physical_record_offset := u64 (end_of_buffer_offset_ r - size (buffer_ r)) in
      '(record_type, fragment, drop_size, r) ← ReadPhysicalRecord r fragment 0;
      match dispatch r record_type fragment drop_size physical_record_offset
              record scratch in_frag pro mode with
      | Done found record scratch r => mret (found, record, scratch, r)
      | Again r scratch in_frag pro =>
          ReadRecord_loop fuel' r fragment record scratch in_frag pro mode
      end
  end.

Definition ReadRecord (fuel : nat) r (record scratch : list byte) (mode : WALRecoveryMode)
  : outcome (bool * list byte * list byte * Reader F) :=
  if last_record_offset_ r <? initial_offset_ r then
    let '(found, r) := SkipToInitialBlock r in
    if negb found then mret (false, record, scratch, r)
    else ReadRecord_loop fuel r [] [] [] false 0 mode
  else ReadRecord_loop fuel r [] [] [] false 0 mode.

Definition LastRecordOffset r : Z := last_record_offset_ r.
Definition EndOfBufferOffset r : Z := end_of_buffer_offset_ r.
Definition IsEOF r : bool := eof_ r.

(** [UnmarkEOF]. After the moves [backing_store_] holds at [consumed_bytes] what was
    left in [buffer_], and behind it what was read. *)
Definition UnmarkEOF r : Reader F :=
  if read_error_ r then r
  else
    let r := set_eof r false in
    if eof_offset_ r =? 0 then r
    else
      let consumed_bytes := u64 (eof_offset_ r - size (buffer_ r)) in
      let remaining := u64 (kBlockSize - eof_offset_ r) in
      let '(status, read_buffer, f) := seq_read (file_ r) remaining in
      let r := set_file r f in
      let added := size read_buffer in
      let r := set_end r (u64 (end_of_buffer_offset_ r + added)) in
      if negb (ok status) then
        let r := if 0 <? added then ReportDrop r added status else r in
        set_read_error r true
      else
        let r := set_buffer r (ztake (u64 (eof_offset_ r + added - consumed_bytes))
                                 (buffer_ r ++ read_buffer)) in
        if added <? remaining then set_eof_offset (set_eof r true) (u64 (eof_offset_ r + added))
        else set_eof_offset r 0.

(** Reading until [ReadRecord] returns false: the records, in order. *)
Fixpoint ReadAll (calls fuel : nat) r (mode : WALRecoveryMode)
  : outcome (list (list byte) * Reader F) :=
  match calls with
  | O => NoFuel
  | S calls' =>
      '(found, record, _, r) ← ReadRecord fuel r [] [] mode;
      if found : bool then
        '(recs, r) ← ReadAll calls' fuel r mode;
        mret (record :: recs, r)
      else mret ([], r)
  end.

End Reader.

(** A file in memory: the bytes behind the position. *)
Definition mem_file : Type := list byte.
#[export] Instance mem_file_ops : SeqFile mem_file :=
  {| seq_read f n := (OK, ztake n f, zdrop n f); seq_skip f n := (OK, zdrop n f) |}.
#[export] Instance mem_file_reliable : ReliableFile mem_file.
Proof. by refine {| remaining f := f |}. Defined.
