(* ===== verification/LogRoundtrip.v ===== *)
(** * LogRoundtrip: the reader recovers what the writer wrote

    Theorems about [LogWriter] and [LogReader] together. [before r off bytes] says
    that a reader stands at offset [off] of a block with [bytes] in front of it,
    partly in its buffer and partly in the file. *)

From Stdlib Require Import Strings.Byte Strings.String.
From S2P Require Import Prelude.
From S2P Require Import Slice.
From S2P Require Import Coding.
From S2P Require Import Status.
From S2P Require Import Crc32c.
From S2P Require Import LogFormat.
From S2P Require Import LogWriter.
From S2P Require Import LogReader.

#[local] Arguments framed : simpl never.
#[local] Arguments phys : simpl never.
#[local] Arguments covered : simpl never.
#[local] Arguments wrap : simpl never.

(** ** Reader states *)

Section States.
Context `{Host} `{Crc32c} {F : Type} `{ReliableFile F}.
Implicit Types r : Reader F.

(** [bytes] are in front of the reader, the first [k] of them (or all, when there are
    fewer) in the buffer, where [k] is what is left of the current block. *)
Record at_ (c : LogCfg) (rep : option (list (Z * Status))) r (k : Z) (bytes : list byte)
  : Prop := {
  at_k : 0 <= k <= kBlockSize;
  at_buffer : buffer_ r = ztake k bytes;
  at_file : remaining (file_ r) = zdrop k bytes;
  at_eof : eof_ r = (zlen bytes <? k);
  at_eof_offset : eof_ r = true -> eof_offset_ r = kBlockSize - k + zlen bytes;
  at_no_error : read_error_ r = false;
  at_reporter : reporter_ r = rep;
  at_initial : initial_offset_ r = 0;
  at_last : 0 <= last_record_offset_ r;
  at_number : recyclable c = true -> rlog_number_ r = lognum c /\ 0 <= lognum c < 2 ^ 32;
}.

Definition before (c : LogCfg) (rep : option (list (Z * Status))) r (off : Z)
    (bytes : list byte) : Prop :=
  0 <= off <= kBlockSize /\
  exists pad, zlen pad < 7 /\ (off <> 0 -> pad = []) /\
    at_ c rep r (if off =? 0 then zlen pad else kBlockSize - off) (pad ++ bytes).

(** *** The header of a physical record *)

Lemma framed_split c t sum pay :
  exists b0 b1 b2 b3, framed c t sum pay =
    b0 :: b1 :: b2 :: b3 :: z2b (Z.land (zlen pay) 0xff) :: z2b (Z.shiftr (zlen pay) 8) ::
    z2b (RecordType_num t) :: num_bytes c ++ pay.
Proof. do 4 eexists. reflexivity. Qed.

Lemma length_bytes n :
  0 <= n < 2 ^ 16 ->
  Z.lor (b2z (z2b (Z.land n 0xff))) (Z.shiftl (b2z (z2b (Z.shiftr n 8))) 8) = n.
Proof.
  intros Hn. rewrite !b2z_z2b, land_255, Z.shiftr_div_pow2 by lia.
  rewrite !wrap_small by (split; [dlia|]; change (2 ^ 8) with 256; dlia).
  change (2 ^ 8) with 256. rewrite lor_shiftl_add by dlia. change (2 ^ 8) with 256. dlia.
Qed.

Lemma type_byte t : u32 (b2sz (z2b (RecordType_num t))) = RecordType_num t.
Proof. by destruct t. Qed.

Definition is_recyclable_num (n : Z) : bool :=
  (RecordType_num kRecyclableFullType <=? n) && (n <=? RecordType_num kRecyclableLastType).

Lemma frag_type_recyclable recycle b e :
  is_recyclable_num (RecordType_num (frag_type recycle b e)) = recycle.
Proof. by destruct recycle, b, e. Qed.

Lemma zdrop_framed_number c t sum pay tail :
  zdrop 7 (framed c t sum pay ++ tail) = num_bytes c ++ pay ++ tail.
Proof. destruct (framed_split c t sum pay) as (? & ? & ? & ? & ->). simpl. by rewrite <- app_assoc. Qed.

Lemma framed_number c t sum pay tail :
  recyclable c = true -> 0 <= lognum c < 2 ^ 32 ->
  DecodeFixed32 (zdrop 7 (framed c t sum pay ++ tail)) = lognum c.
Proof.
  intros Hr Hn. rewrite zdrop_framed_number. unfold num_bytes. rewrite Hr, <- EncodeFixed32_le.
  rewrite DecodeFixed32_Encode. by apply u32_small.
Qed.

Lemma framed_sum c t sum pay tail : DecodeFixed32 (framed c t sum pay ++ tail) = u32 sum.
Proof. unfold framed. by rewrite <- app_assoc, <- EncodeFixed32_le, DecodeFixed32_Encode. Qed.

Lemma framed_covered c t sum pay tail :
  ztake (zlen pay + header_size c - 6) (zdrop 6 (framed c t sum pay ++ tail)) = covered c t pay.
Proof.
  replace (zdrop 6 (framed c t sum pay ++ tail)) with (covered c t pay ++ tail)
    by (destruct (framed_split c t sum pay) as (? & ? & ? & ? & ->); done).
  assert (zlen (covered c t pay) = zlen pay + header_size c - 6) as <-.
  { unfold covered. rewrite zlen_cons, zlen_app, zlen_num_bytes. lia. }
  apply ztake_app_zlen.
Qed.

Lemma framed_payload c t sum pay tail :
  ztake (zlen pay) (zdrop (header_size c) (framed c t sum pay ++ tail)) = pay /\
  zdrop (header_size c + zlen pay) (framed c t sum pay ++ tail) = tail.
Proof.
  split.
  - replace (header_size c) with (7 + zlen (num_bytes c)) by (rewrite zlen_num_bytes; lia).
    rewrite <- zdrop_zdrop, zdrop_framed_number by (zlen_pos; lia).
    by rewrite zdrop_app_zlen, ztake_app_zlen.
  - rewrite <- (zlen_framed c t sum). apply zdrop_app_zlen.
Qed.

(** What the reader decodes from a header. *)
Lemma framed_fields c t sum pay tail :
  0 <= zlen pay < 2 ^ 16 ->
  let header := framed c t sum pay ++ tail in
  Z.lor (b2z (znth x00 header 4)) (Z.shiftl (b2z (znth x00 header 5)) 8) = zlen pay /\
  u32 (b2sz (znth x00 header 6)) = RecordType_num t.
Proof.
  intros Hl. cbv zeta. pose proof (length_bytes (zlen pay) Hl) as Hb.
  rewrite <- (type_byte t). destruct (framed_split c t sum pay) as (? & ? & ? & ? & ->).
  split; [exact Hb|done].
Qed.

(** The check that [ReadPhysicalRecord] makes of a record with checksum field [sum]. *)
Definition sum_ok (checksum : bool) (c : LogCfg) (t : RecordType) (sum : Z) (pay : list byte) :=
  if checksum then crc32c 0 (covered c t pay) =? Unmask (u32 sum) else true.

Lemma framed_checksum (checksum : bool) c t sum pay tail :
  (if checksum then
     actual ← Value (ztake (zlen pay + header_size c - 6) (zdrop 6 (framed c t sum pay ++ tail)));
     mret (actual =? Unmask (DecodeFixed32 (framed c t sum pay ++ tail)))
   else mret true) = Ret (sum_ok checksum c t sum pay).
Proof.
  destruct checksum; [|done]. rewrite framed_sum, framed_covered. unfold Value.
  by rewrite Extend_crc32c by lia.
Qed.

Lemma sum_ok_Mask checksum c t pay :
  sum_ok checksum c t (Mask (crc32c 0 (covered c t pay))) pay = true.
Proof.
  unfold sum_ok. destruct checksum; [|done].
  rewrite u32_small by apply Mask_range. rewrite Unmask_Mask by (by apply crc32c_range).
  by rewrite Z.eqb_refl.
Qed.

(** [ReadPhysicalRecord] may note that the log is a recycled one. *)
Definition marked r : Reader F :=
  if u64 (end_of_buffer_offset_ r - size (buffer_ r)) =? 0 then set_recycled r true else r.

(** The buffer starts with a record of this log, whatever its checksum field. *)
Lemma loop_framed c n r t sum pay tail res d :
  buffer_ r = framed c t sum pay ++ tail -> zlen pay < 2 ^ 16 ->
  is_recyclable_num (RecordType_num t) = recyclable c -> t <> kZeroType ->
  (recyclable c = true -> rlog_number_ r = lognum c /\ 0 <= lognum c < 2 ^ 32) ->
  ReadPhysicalRecord_loop (S n) r res d =
    let r1 := if recyclable c then marked r else r in
    if sum_ok (checksum_ r) c t sum pay then
      let r2 := set_buffer r1 tail in
      if u64 (end_of_buffer_offset_ r - zlen tail - header_size c - zlen pay) <? initial_offset_ r
      then Ret (kBadRecord, [], d, r2)
      else Ret (RecordType_num t, pay, d, r2)
    else Ret (kBadRecordChecksum, res, zlen (buffer_ r), set_buffer r1 []).
Proof.
  intros Hbuf Hpay Ht Hz Hn. pose proof (header_size_bounds c) as Hh.
  assert (zlen (buffer_ r) = header_size c + zlen pay + zlen tail) as Hbl
    by (rewrite Hbuf, zlen_app, zlen_framed; lia). zlen_pos.
  destruct (framed_fields c t sum pay tail ltac:(lia)) as [Hlen Htype].
  rewrite <- Hbuf in Hlen, Htype.
  cbn [ReadPhysicalRecord_loop]. unfold size in *. rewrite Hbl.
  replace (_ <? kHeaderSize) with false by (unfold kHeaderSize; lia).
  cbv zeta. rewrite Hlen, Htype. fold (is_recyclable_num (RecordType_num t)). rewrite Ht.
  assert ((if recyclable c then kRecyclableHeaderSize else kHeaderSize) = header_size c) as -> by done.
  match goal with |- context [if recyclable c && ?g then set_recycled r true else r] =>
    replace (if recyclable c && g then set_recycled r true else r)
      with (if recyclable c then marked r else r)
      by (unfold marked, size; rewrite Hbl; by destruct (recyclable c)) end.
  set (r1 := if recyclable c then marked r else r).
  assert (buffer_ r1 = buffer_ r /\ rlog_number_ r1 = rlog_number_ r /\ checksum_ r1 = checksum_ r /\
    end_of_buffer_offset_ r1 = end_of_buffer_offset_ r /\ initial_offset_ r1 = initial_offset_ r)
    as (Hb1 & Hn1 & Hc1 & He1 & Hi1) by (subst r1; unfold marked; by repeat case_match).
  rewrite Hb1, Hbl, Hn1, Hc1.
  replace (recyclable c && (header_size c + zlen pay + zlen tail <? kRecyclableHeaderSize)) with false
    by (destruct (header_size_cases c) as [[-> _]|[-> ->]]; [done|unfold kRecyclableHeaderSize; simpl; lia]).
  replace (recyclable c && negb (DecodeFixed32 (zdrop 7 (buffer_ r)) =? rlog_number_ r)) with false.
  2: { destruct (recyclable c) eqn:Hrc; [|done]. destruct (Hn eq_refl) as [Hnum Hnr].
       by rewrite Hbuf, framed_number, Hnum, Z.eqb_refl by done. }
  replace (_ <? header_size c + zlen pay) with false by lia.
  replace (RecordType_num t =? RecordType_num kZeroType) with false by (by destruct t). cbn [andb].
  rewrite Hbuf, framed_checksum. bret. destruct (sum_ok _ _ _ _ _); cbn [negb]; [|done].
  unfold remove_prefix, size. rewrite <- Hbuf, Hbl, assert_true by lia. rewrite bind_ret, Hbuf.
  destruct (framed_payload c t sum pay tail) as [-> ->].
  cbn [initial_offset_ end_of_buffer_offset_ buffer_ set_buffer]. by rewrite He1, Hi1.
Qed.

(** *** Steps of [ReadPhysicalRecord] *)

(** The buffer cannot hold a header and the file goes on: read the next block. *)
Lemma loop_fill c rep n r k bytes res d :
  at_ c rep r k bytes -> k < 7 -> k <= zlen bytes ->
  exists r', ReadPhysicalRecord_loop (S n) r res d = ReadPhysicalRecord_loop n r' res d /\
    at_ c rep r' kBlockSize (zdrop k bytes) /\ rlog_number_ r' = rlog_number_ r.
Proof.
  intros [Hk Hb Hf He Heo Hne Hrep Hi Hl Hn] H7 Hlen.
  assert (eof_ r = false) as Heof by (rewrite He; lia).
  cbn [ReadPhysicalRecord_loop]. unfold size. rewrite Hb, zlen_ztake by lia.
  replace (_ <? kHeaderSize) with true by (unfold kHeaderSize; lia).
  unfold ReadMore. rewrite Heof, Hne. cbn [negb andb].
  pose proof (read_reliable (file_ r) kBlockSize ltac:(done)) as (Hok & Hd & Hrem).
  cbn [file_ set_buffer]. destruct (seq_read _ _) as [[st data] f]; cbn [fst snd] in *.
  rewrite Hok. cbn [negb]. unfold size. cbn [buffer_ set_end set_buffer set_file].
  rewrite Hf in Hd, Hrem.
  assert (zlen data = Z.min kBlockSize (zlen (zdrop k bytes))) as Hdl
    by (rewrite Hd, zlen_ztake; done).
  destruct (Z.ltb_spec (zlen data) kBlockSize); cbn [negb]; (eexists; split; [reflexivity|]);
    (split; [|done]); split; simpl; auto; unfold kBlockSize in *; rewrite ?Heof; try lia; congruence.
Qed.

(** The file ends before a whole header. *)
Lemma loop_eof c rep n r k bytes res d :
  at_ c rep r k bytes -> zlen bytes < k -> zlen bytes < 7 ->
  exists code d', ReadPhysicalRecord_loop (S n) r res d = Ret (code, res, d', set_buffer r []) /\
    (code = kEof \/ code = kBadHeader) /\ (bytes = [] -> code = kEof).
Proof.
  intros [Hk Hb Hf He Heo Hne Hrep Hi Hl Hn] Hk7 H7.
  assert (eof_ r = true) as Heof by (rewrite He; lia).
  cbn [ReadPhysicalRecord_loop]. unfold size. rewrite Hb, ztake_ge by lia.
  replace (_ <? kHeaderSize) with true by (unfold kHeaderSize; lia).
  unfold ReadMore. rewrite Heof. cbn [negb andb]. unfold size. rewrite Hb, ztake_ge by lia.
  destruct (Z.eqb_spec (zlen bytes) 0); cbn [negb]; do 2 eexists; (split; [reflexivity|]);
    (split; [auto|]); [done|intros ->; done].
Qed.

(** The buffer starts with a whole physical record of this log. *)
Lemma loop_phys c rep n r k t pay rest res d :
  at_ c rep r k (phys c t pay ++ rest) ->
  is_recyclable_num (RecordType_num t) = recyclable c -> t <> kZeroType ->
  header_size c + zlen pay <= k ->
  exists r', ReadPhysicalRecord_loop (S n) r res d = Ret (RecordType_num t, pay, d, r') /\
    at_ c rep r' (k - header_size c - zlen pay) rest.
Proof.
  intros [Hk Hb Hf He Heo Hne Hrep Hi Hl Hn] Ht Hz Hfit.
  pose proof (header_size_bounds c) as Hh. pose proof (zlen_phys c t pay) as Hp. zlen_pos.
  set (tail := ztake (k - header_size c - zlen pay) rest).
  assert (buffer_ r = phys c t pay ++ tail) as Hbuf.
  { rewrite Hb, ztake_app_ge by lia. do 2 f_equal. lia. }
  rewrite (loop_framed c n r t _ pay tail res d Hbuf) by (auto; unfold kBlockSize in *; lia).
  cbv zeta. rewrite sum_ok_Mask, Hi.
  pose proof (u64_range (end_of_buffer_offset_ r - zlen tail - header_size c - zlen pay)).
  replace (_ <? 0) with false by lia. eexists. split; [reflexivity|].
  rewrite zlen_app in *.
  assert (zdrop k (phys c t pay ++ rest) = zdrop (k - header_size c - zlen pay) rest) as Hz'
    by (rewrite zdrop_app_ge by lia; f_equal; lia).
  destruct (recyclable c) eqn:Hrc; unfold marked; [case_match|]; split; rewrite ?Hrc; simpl; auto;
    first [lia | congruence | rewrite He; lia | intros E; rewrite (Heo E); lia].
Qed.

(** The recyclable type makes the reader look for a longer header. *)
Lemma loop_short c rep n r k bytes res d :
  at_ c rep r k bytes -> zlen bytes < k -> 7 <= zlen bytes < kRecyclableHeaderSize ->
  is_recyclable_num (u32 (b2sz (znth x00 bytes 6))) = true ->
  exists r', ReadPhysicalRecord_loop (S n) r res d = Ret (kBadHeader, res, zlen bytes, r') /\
    reporter_ r' = rep.
Proof.
  intros [Hk Hb Hf He Heo Hne Hrep Hi Hl Hn] Hk7 H7 Ht.
  assert (eof_ r = true) as Heof by (rewrite He; lia). rewrite ztake_ge in Hb by lia.
  cbn [ReadPhysicalRecord_loop]. unfold size. rewrite Hb.
  replace (_ <? kHeaderSize) with false by (unfold kHeaderSize; lia).
  cbv zeta. fold (is_recyclable_num (u32 (b2sz (znth x00 bytes 6)))). rewrite Ht.
  replace (zlen bytes <? kRecyclableHeaderSize) with true by lia. cbn [andb].
  match goal with |- context [if ?g then set_recycled r true else r] => set (r1 := if g then _ else _) end.
  assert (buffer_ r1 = bytes /\ eof_ r1 = true /\ reporter_ r1 = rep) as (Hb1 & He1 & Hr1)
    by (subst r1; by case_match).
  rewrite Hb1. replace (zlen bytes <? kRecyclableHeaderSize) with true by lia.
  unfold ReadMore. rewrite He1. cbn [negb andb]. unfold size. rewrite Hb1.
  replace (zlen bytes =? 0) with false by lia. cbn [negb]. eexists. by split.
Qed.

Lemma znth_ztake (l : list byte) m i : 0 <= i < m -> znth x00 (ztake m l) i = znth x00 l i.
Proof.
  intros Hi. unfold znth, ztake. rewrite !nth_lookup, lookup_take_lt by lia. done.
Qed.

Lemma ztake_header c t pay m :
  0 <= zlen pay < 2 ^ 16 -> 7 <= m ->
  let h := ztake m (phys c t pay) in
  Z.lor (b2z (znth x00 h 4)) (Z.shiftl (b2z (znth x00 h 5)) 8) = zlen pay /\
  u32 (b2sz (znth x00 h 6)) = RecordType_num t.
Proof.
  intros Hl Hm h. subst h. rewrite !znth_ztake by lia.
  pose proof (framed_fields c t (Mask (crc32c 0 (covered c t pay))) pay [] Hl) as Hp. by rewrite app_nil_r in Hp.
Qed.

Lemma ztake_number c t pay m :
  recyclable c = true -> 0 <= lognum c < 2 ^ 32 -> 11 <= m ->
  DecodeFixed32 (zdrop 7 (ztake m (phys c t pay))) = lognum c.
Proof.
  intros Hr Hn Hm. pose proof (zlen_phys c t pay) as Hp. unfold header_size in Hp. rewrite Hr in Hp.
  unfold kRecyclableHeaderSize in *. zlen_pos.
  assert (forall x, 11 <= zlen x -> DecodeFixed32 (zdrop 7 x) = le_dec (ztake 4 (zdrop 7 x))) as Hd.
  { intros x Hx. apply DecodeFixed32_le. rewrite zlen_zdrop; lia. }
  rewrite Hd by (rewrite zlen_ztake; lia).
  rewrite zdrop_ztake, ztake_ztake, Z.min_l, <- Hd by lia.
  pose proof (framed_number c t (Mask (crc32c 0 (covered c t pay))) pay [] Hr Hn) as Hx. by rewrite app_nil_r in Hx.
Qed.

(** The file ends inside a physical record: a truncated header, or a payload that is
    shorter than the header says. *)
Lemma loop_trunc c rep n r k t pay m res d :
  at_ c rep r k (ztake m (phys c t pay)) ->
  is_recyclable_num (RecordType_num t) = recyclable c ->
  header_size c + zlen pay <= k -> 0 <= m < zlen (phys c t pay) ->
  exists code res' d' r', ReadPhysicalRecord_loop (S n) r res d = Ret (code, res', d', r') /\
    (code = kEof \/ code = kBadHeader) /\ reporter_ r' = rep /\ (m = 0 -> code = kEof).
Proof.
  intros Hat Ht Hfit Hm. pose proof (header_size_bounds c) as Hh.
  pose proof (zlen_phys c t pay) as Hp. pose proof (at_k _ _ _ _ _ Hat) as Hk.
  assert (zlen (ztake m (phys c t pay)) = m) as Hl by (rewrite zlen_ztake; lia).
  assert (0 <= zlen pay < 2 ^ 16) as Hpl by (unfold kBlockSize in *; zlen_pos; lia).
  destruct (Z.lt_ge_cases m 7) as [H7|H7].
  { destruct (loop_eof c rep n r k _ res d Hat) as (code & d' & -> & Hc & Hc0); [lia|lia|].
    do 4 eexists. split; [reflexivity|]. split; [done|]. split; [apply (at_reporter _ _ _ _ _ Hat)|].
    intros ->. by apply Hc0. }
  destruct (ztake_header c t pay m Hpl H7) as [Hlen Htype].
  destruct (decide (recyclable c = true /\ m < 11)) as [[Hrc H11]|Hno].
  { destruct (loop_short c rep n r k _ res d Hat) as (r' & -> & Hr');
      [lia|unfold kRecyclableHeaderSize; lia|by rewrite Htype, Ht|].
    do 4 eexists. split; [reflexivity|]. split; [auto|]. split; [done|lia]. }
  destruct Hat as [_ Hb Hf He Heo Hne Hrep Hi Hla Hn].
  assert (eof_ r = true) as Heof by (rewrite He; lia). rewrite (ztake_ge k) in Hb by lia.
  cbn [ReadPhysicalRecord_loop]. unfold size. rewrite Hb, Hl.
  replace (m <? kHeaderSize) with false by (unfold kHeaderSize; lia).
  cbv zeta. rewrite Hlen, Htype. fold (is_recyclable_num (RecordType_num t)). rewrite Ht.
  match goal with |- context [if recyclable c && ?g then set_recycled r true else r] =>
    set (r1 := if recyclable c && g then _ else _) end.
  assert (buffer_ r1 = buffer_ r /\ eof_ r1 = true /\ reporter_ r1 = rep /\
          rlog_number_ r1 = rlog_number_ r) as (Hb1 & He1 & Hr1 & Hn1) by (subst r1; by case_match).
  rewrite Hb1, Hb, Hl, Hn1.
  assert ((recyclable c && (m <? kRecyclableHeaderSize)) = false) as ->.
  { unfold kRecyclableHeaderSize. destruct (recyclable c); [|done]. simpl. apply Z.ltb_ge. lia. }
  assert ((recyclable c && negb (DecodeFixed32 (zdrop 7 (ztake m (phys c t pay))) =? rlog_number_ r)) = false) as ->.
  { destruct (recyclable c) eqn:Hrc; [|done]. destruct (Hn eq_refl) as [-> Hnr].
    rewrite ztake_number, Z.eqb_refl by (done || lia). done. }
  change (if recyclable c then kRecyclableHeaderSize else kHeaderSize) with (header_size c).
  replace (m <? header_size c + zlen pay) with true by lia.
  cbn [eof_ set_buffer]. rewrite He1. cbn [negb]. replace (m =? 0) with false by lia. cbn [negb].
  do 4 eexists. split; [reflexivity|]. split; [auto|]. split; [done|lia].
Qed.

(** A block trailer long enough to look like an empty record is skipped. *)
Lemma loop_zeros c rep n r k m rest res d :
  at_ c rep r k (zrep m x00 ++ rest) -> 7 <= m <= k -> 
  ReadPhysicalRecord_loop (S n) r res d = Ret (kBadRecord, res, d, set_buffer r []).
Proof.
  intros [Hk Hb Hf He Heo Hne Hrep Hi Hl Hn] Hm.
  assert (exists tl, buffer_ r = zrep 7 x00 ++ tl) as [tl Hbuf].
  { exists (zrep (m - 7) x00 ++ ztake (k - m) rest). rewrite Hb, ztake_app_ge, app_assoc by (rewrite zlen_zrep; lia).
    rewrite zlen_zrep by lia. f_equal. unfold zrep. rewrite <- replicate_add. f_equal. lia. }
  cbn [ReadPhysicalRecord_loop]. unfold size. rewrite Hbuf, zlen_app.
  change (zlen (zrep 7 x00)) with 7. zlen_pos.
  replace (_ <? kHeaderSize) with false by (unfold kHeaderSize; lia). simpl. rewrite Hbuf. simpl.
  unfold kHeaderSize. rewrite !zlen_cons. replace (_ <? 4 + 1 + 2 + 0) with false by lia. done.
Qed.

Lemma drop_buffer c rep r k bytes :
  at_ c rep r k bytes -> at_ c rep (set_buffer r []) (k - Z.min k (zlen bytes)) (zdrop k bytes).
Proof.
  intros [Hk Hb Hf He Heo Hne Hrep Hi Hl Hn]. zlen_pos. split; simpl; auto; try lia.
  - destruct (Z.le_gt_cases k (zlen bytes)).
    + rewrite Z.min_l by lia. rewrite ztake_neg by lia. done.
    + rewrite zdrop_ge by lia. by rewrite ztake_nil.
  - destruct (Z.le_gt_cases k (zlen bytes)).
    + rewrite Z.min_l, Z.sub_diag by lia. by rewrite zdrop_0.
    + rewrite (zdrop_ge k) in * by lia. by rewrite zdrop_nil.
  - rewrite He, zlen_zdrop by lia. lia.
  - intros E. rewrite Heo, zlen_zdrop by (done || lia). rewrite He in E. lia.
Qed.

(** *** [ReadPhysicalRecord] from [before] *)

Lemma before_off c rep r off bytes : before c rep r off bytes -> 0 <= off <= kBlockSize.
Proof. by intros []. Qed.

Lemma before_at c rep r off bytes :
  off <> 0 -> before c rep r off bytes <-> at_ c rep r (kBlockSize - off) bytes.
Proof.
  intros Ho. unfold before. replace (off =? 0) with false by lia. split.
  - intros (_ & pad & _ & Hp & Hat). by rewrite Hp in Hat.
  - intros Hat. split; [destruct Hat; lia|]. exists []. by split_and!.
Qed.

Lemma before_fill c rep r bytes res d :
  before c rep r 0 bytes ->
  exists r', ReadPhysicalRecord r res d = ReadPhysicalRecord_loop 2 r' res d /\
    at_ c rep r' kBlockSize bytes /\ rlog_number_ r' = rlog_number_ r.
Proof.
  intros (_ & pad & H7 & _ & Hat). rewrite Z.eqb_refl in Hat.
  destruct (loop_fill c rep 2 r _ _ res d Hat) as (r' & Hr & Hat' & Hn); [done|zlia|].
  exists r'. split; [exact Hr|]. by rewrite zdrop_app_zlen in Hat'.
Qed.

Lemma next_phys c rep r off t pay rest res d :
  before c rep r off (phys c t pay ++ rest) ->
  is_recyclable_num (RecordType_num t) = recyclable c -> t <> kZeroType ->
  header_size c + zlen pay <= kBlockSize - off ->
  exists r', ReadPhysicalRecord r res d = Ret (RecordType_num t, pay, d, r') /\
    before c rep r' (off + header_size c + zlen pay) rest.
Proof.
  intros Hb Ht Hz Hfit. pose proof (before_off _ _ _ _ _ Hb) as Ho.
  pose proof (header_size_bounds c) as Hh. zlen_pos.
  destruct (Z.eq_dec off 0) as [->|Hne].
  - destruct (before_fill _ _ _ _ res d Hb) as (r1 & -> & Hat & _).
    destruct (loop_phys c rep 1 r1 _ t pay rest res d Hat Ht Hz) as (r' & -> & Hat'); [lia|].
    exists r'. split; [done|]. apply before_at; [lia|].
    by replace (kBlockSize - _) with (kBlockSize - header_size c - zlen pay) by lia.
  - apply before_at in Hb; [|done].
    destruct (loop_phys c rep 2 r _ t pay rest res d Hb Ht Hz) as (r' & Hr & Hat'); [lia|].
    exists r'. split; [exact Hr|]. apply before_at; [lia|].
    by replace (kBlockSize - (off + header_size c + zlen pay))
      with (kBlockSize - off - header_size c - zlen pay) by lia.
Qed.

Lemma next_trunc c rep r off t pay m res d :
  before c rep r off (ztake m (phys c t pay)) ->
  is_recyclable_num (RecordType_num t) = recyclable c ->
  header_size c + zlen pay <= kBlockSize - off -> 0 <= m < zlen (phys c t pay) ->
  exists code res' d' r', ReadPhysicalRecord r res d = Ret (code, res', d', r') /\
    (code = kEof \/ code = kBadHeader) /\ reporter_ r' = rep /\ (m = 0 -> code = kEof).
Proof.
  intros Hb Ht Hfit Hm. destruct (Z.eq_dec off 0) as [->|Hne].
  - destruct (before_fill _ _ _ _ res d Hb) as (r1 & -> & Hat & _).
    apply (loop_trunc c rep 1 r1 kBlockSize t pay m); auto; lia.
  - apply before_at in Hb; [|done]. by apply (loop_trunc c rep 2 r (kBlockSize - off) t pay m).
Qed.

(** What is left of the block at the end of the file. *)
Definition rest_of_block (off : Z) : Z :=
  if (off =? 0) || (off =? kBlockSize) then kBlockSize else kBlockSize - off.

Lemma next_nil c rep r off res d :
  before c rep r off [] ->
  exists d' r', ReadPhysicalRecord r res d = Ret (kEof, res, d', r') /\
    at_ c rep r' (rest_of_block off) [].
Proof.
  intros Hb. pose proof (before_off _ _ _ _ _ Hb) as Ho. unfold rest_of_block.
  assert (forall n r1 k, at_ c rep r1 k [] -> 0 < k ->
    exists d' r', ReadPhysicalRecord_loop (S n) r1 res d = Ret (kEof, res, d', r') /\
      at_ c rep r' k []) as Hend.
  { intros n r1 k Hat Hk.
    destruct (loop_eof c rep n r1 k [] res d Hat) as (code & d' & -> & _ & Hc); [done|done|].
    rewrite Hc by done. do 2 eexists. split; [reflexivity|]. apply drop_buffer in Hat.
    rewrite zdrop_nil, zlen_nil in Hat. replace (k - Z.min k 0) with k in Hat by lia. done. }
  destruct (Z.eqb_spec off 0) as [->|Hne].
  - destruct (before_fill _ _ _ _ res d Hb) as (r1 & -> & Hat & _). by apply (Hend 1%nat).
  - apply before_at in Hb; [|done]. destruct (Z.eqb_spec off kBlockSize) as [->|Hne2]; simpl.
    + destruct (loop_fill c rep 2 r _ [] res d Hb) as (r' & Hr & Hat' & _); [lia|done|].
      unfold ReadPhysicalRecord. rewrite Hr. by apply (Hend 1%nat).
    + apply (Hend 2%nat); [done|lia].
Qed.

Lemma next_zeros c rep r off m rest res d :
  before c rep r off (zrep m x00 ++ rest) -> off <> 0 -> 7 <= m <= kBlockSize - off ->
  exists r', ReadPhysicalRecord r res d = Ret (kBadRecord, res, d, r') /\
    (m = kBlockSize - off -> before c rep r' 0 rest) /\
    (m < kBlockSize - off -> rest = [] -> exists off', off' <> 0 /\ before c rep r' off' []).
Proof.
  intros Hb Hne Hm. apply before_at in Hb; [|done].
  exists (set_buffer r []). split; [by eapply (loop_zeros c rep 2)|].
  pose proof (at_k _ _ _ _ _ Hb) as Hk.
  apply drop_buffer in Hb. rewrite zlen_app, zlen_zrep in Hb by lia. zlen_pos. split.
  - intros ->. rewrite Z.min_l, Z.sub_diag in Hb by lia.
    rewrite zdrop_app_ge, zlen_zrep, Z.sub_diag, zdrop_0 in Hb by (rewrite ?zlen_zrep; lia).
    split; [done|]. exists []. by split_and!.
  - intros Hlt ->. exists (off + m). split; [lia|]. apply before_at; [lia|].
    rewrite zlen_nil, Z.min_r in Hb by (change (zlen (@nil byte)) with 0; lia).
    rewrite zdrop_ge in Hb by (rewrite app_nil_r, zlen_zrep; lia).
    by replace (kBlockSize - (off + m)) with (kBlockSize - off - (m + 0)) by lia.
Qed.

(** *** Fragments *)

Definition after_fragment r (begin end_ : bool) (pay scratch record : list byte) (phy pro : Z)
  : step_result (F := F) :=
  match begin, end_ with
  | true, true => Done true pay [] (set_last r phy)
  | true, false => Again r pay true phy
  | false, true => Done true (scratch ++ pay) (scratch ++ pay) (set_last r pro)
  | false, false => Again r (scratch ++ pay) true pro
  end.

Lemma dispatch_fragment r recycle begin end_ pay d phy record scratch pro mode :
  dispatch r (RecordType_num (frag_type recycle begin end_)) pay d phy record scratch
    (negb begin) pro mode = after_fragment r begin end_ pay scratch record phy pro.
Proof. by destruct recycle, begin, end_. Qed.

Lemma dispatch_eof r code pay d phy record scratch in_frag pro mode :
  code = kEof \/ code = kBadHeader ->
  exists scratch' r', dispatch r code pay d phy record scratch in_frag pro mode =
    Done false record scratch' r' /\
    (mode <> kAbsoluteConsistency \/ (code = kEof /\ in_frag = false) -> r' = r).
Proof.
  intros [-> | ->]; unfold dispatch, on_eof; simpl; destruct in_frag; do 2 eexists; (split; [reflexivity|]);
    try done; (intros [Hm|[? ?]]; [by rewrite ?(bool_decide_false _ Hm)|done]).
Qed.

Lemma dispatch_bad r pay d phy record scratch pro mode :
  dispatch r kBadRecord pay d phy record scratch false pro mode = Again r scratch false pro.
Proof. done. Qed.

Lemma before_set_last c rep r off bytes x :
  0 <= x -> before c rep r off bytes -> before c rep (set_last r x) off bytes.
Proof.
  intros Hx (Ho & pad & H7 & Hp & Hat). split; [done|]. exists pad. split_and!; auto.
  by destruct Hat; split.
Qed.

Lemma ReadRecord_step n r r' fragment record scratch in_frag pro mode type frag d :
  ReadPhysicalRecord r fragment 0 = Ret (type, frag, d, r') ->
  ReadRecord_loop (S n) r fragment record scratch in_frag pro mode =
    match dispatch r' type frag d (u64 (end_of_buffer_offset_ r - size (buffer_ r)))
            record scratch in_frag pro mode with
    | Done found record scratch r => Ret (found, record, scratch, r)
    | Again r scratch in_frag pro => ReadRecord_loop n r frag record scratch in_frag pro mode
    end.
Proof. intros Hr. cbn [ReadRecord_loop]. cbv zeta. by rewrite Hr. Qed.

(** Reading the fragments of a record gives the record. *)
Lemma read_Frags c rep begin off pay out off' :
  Frags c begin off pay out off' ->
  forall r rest fuel fragment record scratch pro mode,
  before c rep r off (out ++ rest) -> (begin = false -> off = 0 \/ off = kBlockSize) ->
  0 <= pro -> zlen out < Z.of_nat fuel ->
  exists scratch' r',
    ReadRecord_loop fuel r fragment record scratch (negb begin) pro mode =
      Ret (true, (if begin then pay else scratch ++ pay), scratch', r') /\
    before c rep r' off' rest.
Proof.
  induction 1 as [begin off pay out off' Hp Hf IH|begin off pay Hfit
    |begin off avail pay out off' Ha Hav Hf IH];
    intros r rest fuel fragment record scratch pro mode Hb Hbo Hpro Hfuel;
    pose proof (before_off _ _ _ _ _ Hb) as Ho; pose proof (header_size_bounds c) as Hh.
  - assert (off <> 0) as Hne by (unfold kBlockSize in *; lia). rewrite <- app_assoc in Hb.
    rewrite zlen_app, zlen_zrep in Hfuel by lia.
    destruct (Z.lt_ge_cases (kBlockSize - off) 7) as [H7|H7].
    + apply before_at in Hb; [|done]. apply IH; [|auto|done|lia].
      split; [done|]. exists (zrep (kBlockSize - off) x00). rewrite zlen_zrep by lia. by split_and!.
    + destruct begin; [|destruct (Hbo eq_refl); lia].
      destruct (next_zeros _ _ _ _ _ _ fragment 0 Hb Hne ltac:(lia)) as (r1 & Hr & Hb1 & _).
      destruct fuel as [|fuel]; [zlen_pos; lia|].
      rewrite (ReadRecord_step _ _ _ _ _ _ _ _ _ _ _ _ Hr), dispatch_bad.
      apply (IH r1); [by apply Hb1|done|done|zlen_pos; lia].
  - destruct fuel as [|fuel]; [zlen_pos; lia|].
    destruct (next_phys c rep r off _ pay rest fragment 0 Hb) as (r1 & Hr & Hb1);
      [apply frag_type_recyclable|by destruct (recyclable c), begin|lia|].
    rewrite (ReadRecord_step _ _ _ _ _ _ _ _ _ _ _ _ Hr), dispatch_fragment.
    destruct begin; simpl; do 2 eexists; (split; [reflexivity|]); apply before_set_last; auto.
    apply u64_range.
  - rewrite <- app_assoc in Hb. rewrite zlen_app in Hfuel.
    pose proof (phys_nonempty c (frag_type (recyclable c) begin false) (ztake avail pay)).
    assert (zlen (ztake avail pay) = avail) as Hl by (rewrite zlen_ztake; lia).
    destruct fuel as [|fuel]; [zlen_pos; lia|].
    destruct (next_phys c rep r off _ (ztake avail pay) (out ++ rest) fragment 0 Hb) as (r1 & Hr & Hb1);
      [apply frag_type_recyclable|by destruct (recyclable c), begin|lia|].
    rewrite Hl in Hb1. replace (off + header_size c + avail) with kBlockSize in Hb1 by lia.
    rewrite (ReadRecord_step _ _ _ _ _ _ _ _ _ _ _ _ Hr), dispatch_fragment.
    destruct begin; simpl.
    + destruct (IH r1 rest fuel (ztake avail pay) record (ztake avail pay)
        (u64 (end_of_buffer_offset_ r - size (buffer_ r))) mode Hb1) as (sc & r' & Hl' & Hb');
        [auto|apply u64_range|lia|].
      simpl in Hl'. rewrite Hl', ztake_zdrop. by do 2 eexists.
    + destruct (IH r1 rest fuel (ztake avail pay) record (scratch ++ ztake avail pay)
        pro mode Hb1) as (sc & r' & Hl' & Hb'); [auto|done|lia|].
      simpl in Hl'. rewrite Hl', <- app_assoc, ztake_zdrop. by do 2 eexists.
Qed.

(** The end of the file between records. *)
Lemma read_nil c rep r off fuel fragment record scratch pro mode :
  before c rep r off [] -> (0 < fuel)%nat ->
  exists scratch' r',
    ReadRecord_loop fuel r fragment record scratch false pro mode =
      Ret (false, record, scratch', r') /\
    at_ c rep r' (rest_of_block off) [].
Proof.
  intros Hb Hf. destruct fuel as [|fuel]; [lia|].
  destruct (next_nil c rep r off fragment 0 Hb) as (d' & r' & Hr & Hat).
  rewrite (ReadRecord_step _ _ _ _ _ _ _ _ _ _ _ _ Hr).
  edestruct (dispatch_eof r' kEof) as (sc & r2 & -> & E); [by left|]. rewrite E by by right. by do 2 eexists.
Qed.

(** Stopping at the end of the file in the middle of a record. *)
Lemma read_stop rep n r r' fragment record scratch in_frag pro mode code frag d :
  ReadPhysicalRecord r fragment 0 = Ret (code, frag, d, r') ->
  code = kEof \/ code = kBadHeader -> reporter_ r' = rep ->
  exists scratch' r'',
    ReadRecord_loop (S n) r fragment record scratch in_frag pro mode =
      Ret (false, record, scratch', r'') /\ (mode <> kAbsoluteConsistency -> reporter_ r'' = rep).
Proof.
  intros Hr Hc Hrep. rewrite (ReadRecord_step _ _ _ _ _ _ _ _ _ _ _ _ Hr).
  edestruct (dispatch_eof r' code) as (sc & r2 & -> & E); [done|]. do 2 eexists. split; [done|].
  intros Hm. by rewrite E by by left.
Qed.

Lemma short_trailer c rep r off m n fragment record scratch in_frag pro mode :
  before c rep r off (zrep m x00) -> off <> 0 -> 0 <= m < 7 -> m < kBlockSize - off ->
  exists scratch' r',
    ReadRecord_loop (S n) r fragment record scratch in_frag pro mode =
      Ret (false, record, scratch', r') /\ (mode <> kAbsoluteConsistency -> reporter_ r' = rep).
Proof.
  intros Hb Hne Hm Hmb. apply before_at in Hb; [|done].
  destruct (loop_eof c rep 2 r _ _ fragment 0 Hb) as (code & d' & Hr & Hc & _);
    [rewrite zlen_zrep; lia..|].
  eapply read_stop; [exact Hr|done|]. apply (at_reporter _ _ _ _ _ Hb).
Qed.

(** A record that the file does not contain completely is not returned, and nothing is
    reported, except in [kAbsoluteConsistency] mode. *)
Lemma read_Frags_trunc c rep begin off pay out off' :
  Frags c begin off pay out off' ->
  forall r m fuel fragment record scratch pro mode,
  before c rep r off (ztake m out) -> (begin = false -> off = 0 \/ off = kBlockSize) ->
  0 <= m < zlen out -> zlen out < Z.of_nat fuel ->
  exists scratch' r',
    ReadRecord_loop fuel r fragment record scratch (negb begin) pro mode =
      Ret (false, record, scratch', r') /\ (mode <> kAbsoluteConsistency -> reporter_ r' = rep).
Proof.
  induction 1 as [begin off pay out off' Hp Hf IH|begin off pay Hfit
    |begin off avail pay out off' Ha Hav Hf IH];
    intros r m fuel fragment record scratch pro mode Hb Hbo Hm Hfuel;
    pose proof (before_off _ _ _ _ _ Hb) as Ho; pose proof (header_size_bounds c) as Hh;
    (destruct fuel as [|fuel]; [zlen_pos; lia|]).
  - assert (off <> 0) as Hne by (unfold kBlockSize in *; lia).
    set (p := kBlockSize - off) in *. assert (0 <= p) by (unfold p; lia).
    rewrite zlen_app, zlen_zrep in Hfuel, Hm by lia.
    destruct (Z.lt_ge_cases m p) as [Hmp|Hmp].
    + rewrite ztake_app_le, ztake_zrep, Z.min_l in Hb by (rewrite ?zlen_zrep; lia).
      destruct (Z.lt_ge_cases m 7) as [H7|H7]; [eapply short_trailer; [exact Hb|done|lia|done]|].
      destruct begin; [|destruct (Hbo eq_refl); unfold p in *; lia].
      rewrite <- (app_nil_r (zrep m x00)) in Hb.
      destruct (next_zeros _ _ _ _ _ _ fragment 0 Hb Hne ltac:(unfold p in *; lia)) as (r1 & Hr & _ & Hb1).
      destruct (Hb1 Hmp eq_refl) as (off1 & _ & Hb2).
      rewrite (ReadRecord_step _ _ _ _ _ _ _ _ _ _ _ _ Hr), dispatch_bad.
      destruct (read_nil c rep r1 off1 fuel fragment record scratch pro mode Hb2)
        as (sc & r' & Hl & Hat); [zlen_pos; lia|].
      simpl. rewrite Hl. do 2 eexists. split; [done|intros _; apply (at_reporter _ _ _ _ _ Hat)].
    + rewrite ztake_app_ge, zlen_zrep in Hb by (rewrite ?zlen_zrep; lia).
      destruct (Z.lt_ge_cases p 7) as [H7|H7].
      * apply before_at in Hb; [|done]. eapply (IH r (m - p)); [|auto|lia|lia].
        split; [done|]. exists (zrep p x00). rewrite zlen_zrep by lia. by split_and!.
      * destruct begin; [|destruct (Hbo eq_refl); unfold p in *; lia].
        destruct (next_zeros _ _ _ _ _ _ fragment 0 Hb Hne ltac:(unfold p in *; lia)) as (r1 & Hr & Hb1 & _).
        rewrite (ReadRecord_step _ _ _ _ _ _ _ _ _ _ _ _ Hr), dispatch_bad.
        eapply (IH r1 (m - p)); [by apply Hb1|auto|lia|lia].
  - destruct (next_trunc c rep r off _ pay m fragment 0 Hb) as (code & res' & d' & r1 & Hr & Hc & Hrep & _);
      [apply frag_type_recyclable|lia|lia|].
    by eapply read_stop.
  - set (t := frag_type (recyclable c) begin false) in *.
    assert (zlen (ztake avail pay) = avail) as Hl by (rewrite zlen_ztake; lia).
    rewrite zlen_app in Hfuel, Hm. pose proof (phys_nonempty c t (ztake avail pay)).
    destruct (Z.lt_ge_cases m (zlen (phys c t (ztake avail pay)))) as [Hmp|Hmp].
    + rewrite ztake_app_le in Hb by lia.
      destruct (next_trunc c rep r off t (ztake avail pay) m fragment 0 Hb) as (code & res' & d' & r1 & Hr & Hc & Hrep & _);
        [apply frag_type_recyclable|lia|lia|].
      by eapply read_stop.
    + rewrite ztake_app_ge in Hb by lia.
      destruct (next_phys c rep r off t (ztake avail pay) _ fragment 0 Hb) as (r1 & Hr & Hb1);
        [apply frag_type_recyclable|by unfold t; destruct (recyclable c), begin|lia|].
      rewrite Hl in Hb1. replace (off + header_size c + avail) with kBlockSize in Hb1 by lia.
      rewrite (ReadRecord_step _ _ _ _ _ _ _ _ _ _ _ _ Hr). unfold t. rewrite dispatch_fragment.
      destruct begin; eapply (IH r1 _ fuel _ record); eauto; lia.
Qed.

(** *** Zeros behind the records *)

(** A run of zeros that is as long as a header is taken for an empty record, and the rest of
    the block is skipped. *)
Lemma skip_zeros c rep r off n res d :
  before c rep r off (zrep n x00) -> 7 <= n -> off = 0 \/ 7 <= kBlockSize - off ->
  exists r' off' n', ReadPhysicalRecord r res d = Ret (kBadRecord, res, d, r') /\
    before c rep r' off' (zrep n' x00) /\ 0 <= n' < n.
Proof.
  intros Hb Hn Hroom. pose proof (before_off _ _ _ _ _ Hb) as Ho.
  assert (forall m k rest, m <= k -> n = m + rest -> 0 <= rest -> 7 <= m -> forall r1 j,
    at_ c rep r1 k (zrep n x00) -> (m = k \/ rest = 0 /\ m < k) -> exists r' off' n',
    ReadPhysicalRecord_loop (S j) r1 res d = Ret (kBadRecord, res, d, r') /\ before c rep r' off' (zrep n' x00) /\ 0 <= n' < n) as Hskip.
  { intros m k rest Hm Hsum Hrest H7 r1 j Hat Hcase. pose proof (at_k _ _ _ _ _ Hat) as Hk.
    rewrite Hsum, zrep_add in Hat by lia. exists (set_buffer r1 []).
    pose proof (loop_zeros c rep j r1 k m _ res d Hat ltac:(lia)) as ->. apply drop_buffer in Hat.
    rewrite zlen_app, !zlen_zrep in Hat by lia. destruct Hcase as [->|[-> Hlt]].
    - exists 0, rest. split; [done|]. split; [|lia]. rewrite Z.min_l, Z.sub_diag in Hat by lia.
      rewrite zdrop_app_ge, zlen_zrep, Z.sub_diag, zdrop_0 in Hat by (rewrite ?zlen_zrep; lia).
      split; [done|]. exists []. by split_and!.
    - exists (kBlockSize - (k - m)), 0. split; [done|]. split; [|lia]. apply before_at; [lia|].
      rewrite Z.add_0_r, Z.min_r in Hat by lia. rewrite zdrop_ge in Hat by (rewrite zlen_app, !zlen_zrep; lia).
      by replace (kBlockSize - (kBlockSize - (k - m))) with (k - m) by lia. }
  destruct (Z.eq_dec off 0) as [->|Hne].
  - destruct (before_fill _ _ _ _ res d Hb) as (r1 & -> & Hat & _).
    destruct (Z.le_gt_cases kBlockSize n).
    + apply (Hskip kBlockSize kBlockSize (n - kBlockSize)); auto; unfold kBlockSize in *; lia.
    + apply (Hskip n kBlockSize 0); auto; lia.
  - destruct Hroom as [|Hroom]; [done|]. apply before_at in Hb; [|done].
    destruct (Z.le_gt_cases (kBlockSize - off) n).
    + apply (Hskip (kBlockSize - off) (kBlockSize - off) (n - (kBlockSize - off)) ltac:(lia) ltac:(lia) ltac:(lia) Hroom r 2%nat Hb). by left.
    + apply (Hskip n (kBlockSize - off) 0 ltac:(lia) ltac:(lia) ltac:(lia) Hn r 2%nat Hb). right. lia.
Qed.

(** Fewer zeros than a header has are like the end of the file, but look like a header that
    has been cut off. *)
Lemma few_zeros c rep r off n res d :
  before c rep r off (zrep n x00) -> 0 <= n < 7 -> off = 0 \/ n < kBlockSize - off ->
  exists code d' r', ReadPhysicalRecord r res d = Ret (code, res, d', r') /\
    (code = kEof \/ code = kBadHeader) /\ reporter_ r' = rep.
Proof.
  intros Hb Hn Hroom. pose proof (before_off _ _ _ _ _ Hb) as Ho.
  assert (forall k r1 j, at_ c rep r1 k (zrep n x00) -> n < k -> exists code d' r',
    ReadPhysicalRecord_loop (S j) r1 res d = Ret (code, res, d', r') /\ (code = kEof \/ code = kBadHeader) /\ reporter_ r' = rep) as Hend.
  { intros k r1 j Hat Hk. destruct (loop_eof c rep j r1 k _ res d Hat) as (code & d' & -> & Hc & _); [rewrite zlen_zrep; lia..|].
    do 3 eexists. split; [reflexivity|]. split; [done|]. apply (at_reporter _ _ _ _ _ Hat). }
  destruct (Z.eq_dec off 0) as [->|Hne].
  - destruct (before_fill _ _ _ _ res d Hb) as (r1 & -> & Hat & _). apply (Hend kBlockSize r1 1%nat Hat). unfold kBlockSize. lia.
  - destruct Hroom as [|Hroom]; [done|]. apply before_at in Hb; [|done]. by apply (Hend (kBlockSize - off) r 2%nat Hb).
Qed.

(** Zeros that fill up a block which has no room for a header are its trailer. *)
Lemma zeros_trailer c rep r off n :
  before c rep r off (zrep n x00) -> off <> 0 -> kBlockSize - off < 7 -> kBlockSize - off <= n ->
  before c rep r 0 (zrep (n - (kBlockSize - off)) x00).
Proof.
  intros Hb Hne H7 Hn. pose proof (before_off _ _ _ _ _ Hb). apply before_at in Hb; [|done]. split; [done|].
  exists (zrep (kBlockSize - off) x00). rewrite zlen_zrep by lia. split; [lia|]. split; [done|].
  rewrite Z.eqb_refl, <- zrep_add by lia. by replace (kBlockSize - off + (n - (kBlockSize - off))) with n by lia.
Qed.

Lemma read_zeros c rep fuel : forall r off n fragment record scratch pro mode,
  before c rep r off (zrep n x00) -> 0 <= n < Z.of_nat fuel ->
  exists scratch' r', ReadRecord_loop fuel r fragment record scratch false pro mode = Ret (false, record, scratch', r') /\
    (n = 0 \/ mode <> kAbsoluteConsistency -> reporter_ r' = rep).
Proof.
  induction fuel as [|fuel IH]; intros r off n fragment record scratch pro mode Hb Hn; [lia|].
  destruct (Z.eq_dec n 0) as [->|Hn0].
  { destruct (read_nil c rep r off (S fuel) fragment record scratch pro mode Hb) as (sc & r' & E & Hat); [lia|].
    exists sc, r'. split; [exact E|intros _; apply (at_reporter _ _ _ _ _ Hat)]. }
  assert (forall off n, before c rep r off (zrep n x00) -> 0 <= n < Z.of_nat (S fuel) -> off = 0 \/ 7 <= kBlockSize - off \/ n < kBlockSize - off ->
    exists scratch' r', ReadRecord_loop (S fuel) r fragment record scratch false pro mode = Ret (false, record, scratch', r') /\
      (mode <> kAbsoluteConsistency -> reporter_ r' = rep)) as Hgo.
  { clear off n Hb Hn Hn0. intros off n Hb Hn Hroom. destruct (Z.lt_ge_cases n 7) as [H7|H7].
    - destruct (few_zeros _ _ _ _ _ fragment 0 Hb) as (code & d' & r1 & Hr & Hc & Hrep); [lia|lia|].
      by eapply read_stop.
    - destruct (skip_zeros _ _ _ _ _ fragment 0 Hb H7) as (r1 & off1 & n1 & Hr & Hb1 & Hn1); [lia|].
      rewrite (ReadRecord_step _ _ _ _ _ _ _ _ _ _ _ _ Hr), dispatch_bad. destruct (IH r1 off1 n1 fragment record scratch pro mode Hb1) as (sc & r2 & E & Hrep); [lia|]. eauto 6. }
  enough (exists scratch' r', ReadRecord_loop (S fuel) r fragment record scratch false pro mode = Ret (false, record, scratch', r') /\
    (mode <> kAbsoluteConsistency -> reporter_ r' = rep)) as (sc & r' & E & Hrep) by (exists sc, r'; split; [done|]; intros [|?]; [done|auto]).
  destruct (decide (off <> 0 /\ kBlockSize - off < 7 /\ kBlockSize - off <= n)) as [(Hne & H7 & Hle)|Hno].
  - apply (Hgo 0 (n - (kBlockSize - off))); [by apply zeros_trailer|pose proof (before_off _ _ _ _ _ Hb); lia|auto].
  - apply (Hgo off n); [done|lia|]. destruct (Z.eq_dec off 0); [auto|]. right. lia.
Qed.

(** *** Lists of records *)

Lemma ReadRecord_no_skip fuel r record scratch mode c rep off bytes :
  before c rep r off bytes ->
  ReadRecord fuel r record scratch mode = ReadRecord_loop fuel r [] [] [] false 0 mode.
Proof.
  intros (_ & pad & _ & _ & Hat). unfold ReadRecord.
  rewrite (at_initial _ _ _ _ _ Hat). pose proof (at_last _ _ _ _ _ Hat).
  by replace (_ <? 0) with false by lia.
Qed.

Lemma read_Log c rep off recs out off' r rest calls fuel mode :
  Log c off recs out off' -> before c rep r off (out ++ rest) -> zlen out < Z.of_nat fuel ->
  exists r', ReadAll (length recs + calls) fuel r mode =
      ('(recs', r'') ← ReadAll calls fuel r' mode; mret (recs ++ recs', r'')) /\
    before c rep r' off' rest.
Proof.
  intros HL. revert r. induction HL as [off|off pay recs out1 off1 out2 off2 Hf HL IH]; intros r Hb Hfuel.
  - exists r. split; [|done]. simpl. by destruct (ReadAll calls fuel r mode) as [[]| | |].
  - rewrite <- app_assoc in Hb. rewrite zlen_app in Hfuel.
    destruct (read_Frags c rep _ _ _ _ _ Hf r (out2 ++ rest) fuel [] [] [] 0 mode Hb)
      as (sc & r1 & Hr & Hb1); [done|done|zlen_pos; lia|]. simpl in Hr.
    destruct (IH r1 Hb1) as (r' & Hr' & Hb'); [zlen_pos; lia|].
    exists r'. split; [|done]. simpl. rewrite (ReadRecord_no_skip _ _ _ _ _ _ _ _ _ Hb), Hr. bret.
    rewrite Hr'. by destruct (ReadAll calls fuel r' mode) as [[]| | |].
Qed.

Lemma ReadAll_nil c rep r off calls fuel mode :
  before c rep r off [] -> (0 < fuel)%nat ->
  exists r', ReadAll (S calls) fuel r mode = Ret ([], r') /\ at_ c rep r' (rest_of_block off) [].
Proof.
  intros Hb Hf. destruct (read_nil c rep r off fuel [] [] [] 0 mode Hb Hf) as (sc & r' & Hr & Hat).
  exists r'. split; [|done]. simpl. by rewrite (ReadRecord_no_skip _ _ _ _ _ _ _ _ _ Hb), Hr.
Qed.

(** Records with zeros behind them, as in a file with preallocated space. *)
Lemma ReadAll_Log_zeros c rep off recs out off' zeros r calls fuel mode :
  Log c off recs out off' -> before c rep r off (out ++ zrep zeros x00) ->
  0 <= zeros -> zlen out + zeros < Z.of_nat fuel -> (length recs < calls)%nat ->
  exists r', ReadAll calls fuel r mode = Ret (recs, r') /\ (zeros = 0 \/ mode <> kAbsoluteConsistency -> reporter_ r' = rep).
Proof.
  intros HL Hb Hz Hf Hc. pose proof (zlen_nonneg out).
  destruct (read_Log c rep off recs out off' r _ (S (calls - length recs - 1)) fuel mode HL Hb ltac:(lia)) as (r1 & Hr & Hb1).
  destruct (read_zeros c rep fuel r1 off' zeros [] [] [] 0 mode Hb1) as (sc & r2 & Hr2 & Hrep); [lia|].
  replace (length recs + S (calls - length recs - 1))%nat with calls in Hr by lia.
  exists r2. split; [|done]. rewrite Hr. cbn [ReadAll]. rewrite (ReadRecord_no_skip _ _ _ _ _ _ _ _ _ Hb1), Hr2. simpl. by rewrite app_nil_r.
Qed.

Lemma ReadAll_Log c rep off recs out off' r calls fuel mode :
  Log c off recs out off' -> before c rep r off out ->
  zlen out < Z.of_nat fuel -> (length recs < calls)%nat ->
  exists r', ReadAll calls fuel r mode = Ret (recs, r') /\ at_ c rep r' (rest_of_block off') [].
Proof.
  intros HL Hb Hf Hc. rewrite <- (app_nil_r out) in Hb.
  destruct (read_Log c rep off recs out off' r [] (S (calls - length recs - 1)) fuel mode HL Hb Hf)
    as (r1 & Hr & Hb1).
  destruct (ReadAll_nil c rep r1 off' (calls - length recs - 1) fuel mode Hb1) as (r2 & Hr2 & Hat);
    [zlen_pos; lia|].
  replace (length recs + S (calls - length recs - 1))%nat with calls in Hr by lia.
  exists r2. split; [|done]. rewrite Hr, Hr2. bret. by rewrite app_nil_r.
Qed.

(** A fresh reader on a file, or on the rest of one. *)
Lemma Reader_new_before c rep f checksum n :
  (recyclable c = true -> n = lognum c /\ 0 <= lognum c < 2 ^ 32) ->
  before c rep (Reader_new f rep checksum 0 n) 0 (remaining f).
Proof.
  intros Hn. split; [done|]. exists []. split; [done|]. split; [done|].
  change (0 =? 0) with true. cbv iota. change (zlen (@nil byte)) with 0.
  split; simpl; auto; zlen_pos; try lia; done.
Qed.

(** [UnmarkEOF] on a file that has grown behind a reader that saw its end. *)
Lemma UnmarkEOF_before c rep r off f :
  at_ c rep r (rest_of_block off) [] -> 0 <= off <= kBlockSize ->
  before c rep (UnmarkEOF (set_file r f)) off (remaining f).
Proof.
  intros [Hk Hb Hf He Heo Hne Hrep Hi Hl Hn] Ho.
  assert (0 < rest_of_block off) as Hpos by (unfold rest_of_block; unfold kBlockSize in *; destruct (Z.eqb_spec off 0), (Z.eqb_spec off 32768); simpl; lia).
  change (zlen (@nil byte)) with 0 in *.
  assert (eof_ r = true) as Heof by (rewrite He; lia). specialize (Heo Heof).
  rewrite ztake_nil in Hb. unfold UnmarkEOF. cbn [read_error_ set_file]. rewrite Hne.
  cbn [eof_offset_ set_eof set_file]. rewrite Heo.
  destruct (Z.eqb_spec (kBlockSize - rest_of_block off + 0) 0) as [Hz|Hz].
  - assert (off = 0 \/ off = kBlockSize) as Hoff.
    { revert Hz. unfold rest_of_block, kBlockSize. destruct (Z.eqb_spec off 0), (Z.eqb_spec off 32768); simpl; lia. }
    split; [done|]. exists []. split; [done|]. split; [done|].
    replace (if off =? 0 then zlen [] else kBlockSize - off) with 0
      by (destruct Hoff as [-> | ->]; done).
    split; simpl; auto; zlen_pos; first [done|lia].
  - assert (off <> 0 /\ off <> kBlockSize /\ rest_of_block off = kBlockSize - off) as (Hne0 & Hne1 & Hro).
    { revert Hz. unfold rest_of_block, kBlockSize. destruct (Z.eqb_spec off 0), (Z.eqb_spec off 32768); simpl; lia. }
    apply before_at; [done|]. rewrite Hro in *. set (k := kBlockSize - off) in *.
    cbn [buffer_ set_eof set_file file_]. unfold size. rewrite Hb. change (zlen (@nil byte)) with 0.
    replace (kBlockSize - k + 0) with off by (unfold k; lia). rewrite Z.sub_0_r. fold k.
    unfold kBlockSize in *. rewrite !(u64_small off), !(u64_small k) by lia.
    pose proof (read_reliable f k ltac:(lia)) as (Hok & Hd & Hrem).
    destruct (seq_read f k) as [[st data] f']; cbn [fst snd] in *. rewrite Hok. cbn [negb].
    assert (zlen data = Z.min k (zlen (remaining f))) as Hdl by (rewrite Hd, zlen_ztake; lia).
    zlen_pos. cbn [buffer_ set_end set_file set_eof eof_offset_]. rewrite Heo, Hb. simpl app.
    replace (32768 - k + 0 + zlen data - off) with (zlen data) by lia.
    rewrite (u64_small (zlen data)) by lia. rewrite (ztake_ge (zlen data)) by lia.
    destruct (Z.ltb_spec (zlen data) k); split; simpl; auto; unfold kBlockSize; try lia; try congruence.
    intros _. rewrite u64_small by lia. lia.
Qed.

End States.

(** ** Properties *)

Section Properties.
Context `{Host} `{Crc32c} {D : Type} `{ReliableDest D} {F : Type} `{ReliableFile F}.

(** Writing records to an empty destination makes their log. *)
Lemma write_log d n recycle recs :
  dest_ok d -> contents d = [] ->
  (forall out off', Log (mkCfg recycle (u32 n)) 0 recs out off' -> dest_fits (zlen out)) ->
  exists w0 ss w off', Writer_new d n recycle = Ret w0 /\ AddRecords w0 recs = Ret (ss, w) /\
    Forall (fun s => ok s = true) ss /\ length ss = length recs /\ dest_ok (dest_ w) /\
    (recs <> [] -> delivered (dest_ w) = contents (dest_ w)) /\ (recs = [] -> dest_ w = d) /\
    Log (mkCfg recycle (u32 n)) 0 recs (contents (dest_ w)) off'.
Proof.
  intros Hd He Hfit. destruct (Writer_new_inv d n recycle) as (w0 & Hw & Hinv & Hdst & Hbo & Hln & Hrl).
  assert (writer_cfg w0 = mkCfg recycle (u32 n)) as Hc0 by (unfold writer_cfg; by rewrite Hrl, Hln).
  destruct (AddRecords_Log w0 recs Hinv) as (ss & w & out & Hr & Hss & Hlen & Hdw & Hv & _ & _ & Hc & HL); [by rewrite Hdst| |].
  { intros out off' HL. rewrite Hc0, Hbo in HL. rewrite Hdst, He. by eapply Hfit. }
  rewrite Hdst, He in Hc. simpl in Hc. rewrite Hbo, Hc0, <- Hc in HL.
  exists w0, ss, w, (block_offset_ w). split_and!; auto. intros ->. injection Hr as <- <-. done.
Qed.

(** Reading a log from its beginning, with zeros behind it. *)
Lemma reread_log n recycle recs out off' (f : F) zeros reporter checksum mode calls fuel :
  Log (mkCfg recycle (u32 n)) 0 recs out off' -> 0 <= n -> (recycle = true -> n < 2 ^ 32) ->
  remaining f = out ++ zrep zeros x00 -> 0 <= zeros ->
  (length recs < calls)%nat -> zlen out + zeros < Z.of_nat fuel ->
  exists r', ReadAll calls fuel (Reader_new f reporter checksum 0 n) mode = Ret (recs, r') /\
    (zeros = 0 \/ mode <> kAbsoluteConsistency -> reporter_ r' = reporter).
Proof.
  intros HL Hn Hrec Hf Hz Hcalls Hfuel.
  eapply (ReadAll_Log_zeros (mkCfg recycle (u32 n)) reporter 0 recs out off' zeros); try done.
  rewrite <- Hf. apply Reader_new_before. simpl. intros Hy. specialize (Hrec Hy). rewrite u32_small by lia. lia.
Qed.

(** The prefix of the records that a prefix of the log contains completely. *)
Lemma read_prefix c rep recs out off off' m (r : Reader F) calls fuel mode :
  Log c off recs out off' -> before c rep r off (ztake m out) -> 0 <= m ->
  zlen out < Z.of_nat fuel -> (length recs < calls)%nat ->
  exists recs1 recs2 out1 off1 r', recs = recs1 ++ recs2 /\
    ReadAll calls fuel r mode = Ret (recs1, r') /\ (mode <> kAbsoluteConsistency -> reporter_ r' = rep) /\
    Log c off recs1 out1 off1 /\ zlen out1 <= m /\
    (forall p tl out2 off2, recs2 = p :: tl -> Frags c true off1 p out2 off2 ->
       m < zlen out1 + zlen out2).
Proof.
  intros HL. revert r m calls.
  induction HL as [off|off pay recs out1 off1 out2 off2 Hf HL IH];
    intros r m calls Hb Hm Hfuel Hcalls.
  - rewrite ztake_nil in Hb. destruct calls as [|calls]; [simpl in *; lia|].
    destruct (ReadAll_nil c rep r off calls fuel mode Hb) as (r' & Hr & Hat); [zlen_pos; lia|].
    exists [], [], [], off, r'. split_and!; [done|done|intros _; apply (at_reporter _ _ _ _ _ Hat)|constructor|done|done].
  - rewrite zlen_app in Hfuel. destruct calls as [|calls]; [simpl in *; lia|]. simpl in Hcalls.
    destruct (Z.lt_ge_cases m (zlen out1)) as [Hlt|Hge].
    + rewrite ztake_app_le in Hb by lia.
      destruct (read_Frags_trunc c rep _ _ _ _ _ Hf r m fuel [] [] [] 0 mode Hb) as (sc & r' & Hr & Hrep);
        [done|done|zlen_pos; lia|]. simpl in Hr.
      exists [], (pay :: recs), [], off, r'. split_and!; [done| |done|constructor|done|].
      * simpl. by rewrite (ReadRecord_no_skip _ _ _ _ _ _ _ _ _ Hb), Hr.
      * intros p tl o2 of2 [= <- <-] Hf2. by destruct (Frags_det _ _ _ _ _ _ _ _ Hf Hf2) as [<- <-].
    + rewrite ztake_app_ge in Hb by lia.
      destruct (read_Frags c rep _ _ _ _ _ Hf r _ fuel [] [] [] 0 mode Hb) as (sc & r1 & Hr & Hb1);
        [done|done|zlen_pos; lia|]. simpl in Hr.
      destruct (IH r1 (m - zlen out1) calls Hb1)
        as (recs1 & recs2 & o1 & of1 & r' & -> & Hr' & Hrep & HL1 & Hle & Hmax);
        [lia|zlen_pos; lia|lia|].
      exists (pay :: recs1), recs2, (out1 ++ o1), of1, r'. split_and!; [done| |done|by econstructor|rewrite zlen_app; lia|].
      * simpl. rewrite (ReadRecord_no_skip _ _ _ _ _ _ _ _ _ Hb), Hr. bret. by rewrite Hr'.
      * intros p tl o2 of2 Heq Hf2. specialize (Hmax p tl o2 of2 Heq Hf2). rewrite zlen_app. lia.
Qed.

(** C1: the log round trip. Records of any number and any size, written by [AddRecord]
    to an empty reliable destination that has room for their log, are all accepted and have
    left the buffers of the destination, and a reader on a file with the written bytes, and
    zeros behind them where space was preallocated, returns exactly these records in order
    and then the end of the file, without reporting corruption: in the legacy format and in
    the recyclable one (for log numbers of 32 bits), with checksums on or off, and in every
    recovery mode (in [kAbsoluteConsistency] zeros behind the log may be reported). *)
Theorem log_roundtrip d n recycle recs :
  dest_ok d -> contents d = [] -> 0 <= n -> (recycle = true -> n < 2 ^ 32) ->
  (forall out off', Log (mkCfg recycle (u32 n)) 0 recs out off' -> dest_fits (zlen out)) ->
  exists w0 ss w, Writer_new d n recycle = Ret w0 /\ AddRecords w0 recs = Ret (ss, w) /\
    Forall (fun s => ok s = true) ss /\ length ss = length recs /\
    (recs <> [] -> delivered (dest_ w) = contents (dest_ w)) /\
    forall (f : F) zeros reporter checksum mode calls fuel,
      remaining f = contents (dest_ w) ++ zrep zeros x00 -> 0 <= zeros ->
      (length recs < calls)%nat -> zlen (contents (dest_ w)) + zeros < Z.of_nat fuel ->
      exists r', ReadAll calls fuel (Reader_new f reporter checksum 0 n) mode = Ret (recs, r') /\
        (zeros = 0 \/ mode <> kAbsoluteConsistency -> reporter_ r' = reporter).
Proof.
  intros Hd He Hn Hrec Hfit. destruct (write_log d n recycle recs Hd He Hfit) as (w0 & ss & w & off' & Hw & Hr & Hss & Hlen & _ & Hv & _ & HL).
  exists w0, ss, w. split_and!; [done..|]. intros f zeros reporter checksum mode calls fuel Hf Hz Hcalls Hfuel.
  by eapply (reread_log n recycle).
Qed.

(** C2: crash safety. When the file holds only the first [m] bytes of a log, the reader
    returns in every mode exactly the records that lie completely in these bytes (a prefix of the
    records, as long as possible), and except in [kAbsoluteConsistency] mode, where a torn end is
    an error, nothing is reported as corruption, wherever the cut is: in a trailer, a header, a payload,
    between two fragments. *)
Theorem log_crash_prefix c recs out off' m (f : F) reporter checksum n mode calls fuel :
  Log c 0 recs out off' ->
  (recyclable c = true -> n = lognum c /\ 0 <= lognum c < 2 ^ 32) ->
  remaining f = ztake m out -> 0 <= m ->
  (length recs < calls)%nat -> zlen out < Z.of_nat fuel ->
  exists recs1 recs2 out1 off1 r', recs = recs1 ++ recs2 /\
    ReadAll calls fuel (Reader_new f reporter checksum 0 n) mode = Ret (recs1, r') /\
    (mode <> kAbsoluteConsistency -> reporter_ r' = reporter) /\
    Log c 0 recs1 out1 off1 /\ zlen out1 <= m /\
    (forall p tl out2 off2, recs2 = p :: tl -> Frags c true off1 p out2 off2 ->
       m < zlen out1 + zlen out2).
Proof.
  intros HL Hn Hf Hm Hcalls Hfuel. eapply read_prefix; eauto.
  rewrite <- Hf. by apply Reader_new_before.
Qed.

(** C3: following a growing log. A reader that has read a log to its end, at any offset of
    a block, and then calls [UnmarkEOF] after the writer has appended more records to the
    file, returns exactly the new records and reports nothing. *)
Theorem log_follow c recs1 out1 off1 recs2 out2 off2 (f : F) reporter checksum n mode calls fuel :
  Log c 0 recs1 out1 off1 -> Log c off1 recs2 out2 off2 ->
  (recyclable c = true -> n = lognum c /\ 0 <= lognum c < 2 ^ 32) ->
  remaining f = out1 ->
  (length recs1 < calls)%nat -> (length recs2 < calls)%nat ->
  zlen out1 < Z.of_nat fuel -> zlen out2 < Z.of_nat fuel ->
  exists r1, ReadAll calls fuel (Reader_new f reporter checksum 0 n) mode = Ret (recs1, r1) /\
    remaining (file_ r1) = [] /\
    forall f2 : F, remaining f2 = out2 ->
      exists r2, ReadAll calls fuel (UnmarkEOF (set_file r1 f2)) mode = Ret (recs2, r2) /\
        reporter_ r2 = reporter.
Proof.
  intros HL1 HL2 Hn Hf Hc1 Hc2 Hf1 Hf2.
  pose proof (Reader_new_before c reporter f checksum n Hn) as Hb. rewrite Hf in Hb.
  destruct (ReadAll_Log c reporter 0 recs1 out1 off1 _ calls fuel mode HL1 Hb) as (r1 & Hr1 & Hat);
    [done|done|].
  assert (0 <= off1 <= kBlockSize) as Ho by (by apply (Log_off _ _ _ _ _ HL1)).
  exists r1. split; [exact Hr1|]. split.
  { rewrite (at_file _ _ _ _ _ Hat). apply zdrop_nil. }
  intros f2 Hf2'. pose proof (UnmarkEOF_before c reporter r1 off1 f2 Hat Ho) as Hb2.
  rewrite Hf2' in Hb2.
  destruct (ReadAll_Log c reporter off1 recs2 out2 off2 _ calls fuel mode HL2 Hb2) as (r2 & Hr2 & Hat2);
    [done|done|].
  exists r2. split; [exact Hr2|]. apply (at_reporter _ _ _ _ _ Hat2).
Qed.

(** C6: corruption of a payload is detected. If a burst of at most four bytes of the payload
    of a physical record has changed on disk, a checking reader returns
    [kBadRecordChecksum], hands out no data and drops the whole buffer. *)
Theorem checksum_mismatch_detected c n (r : Reader F) t pre w1 w2 post tail res d :
  length w1 = length w2 -> (length w1 <= 4)%nat -> w1 <> w2 ->
  zlen (pre ++ w2 ++ post) < 2 ^ 16 ->
  is_recyclable_num (RecordType_num t) = recyclable c -> t <> kZeroType ->
  (recyclable c = true -> rlog_number_ r = lognum c /\ 0 <= lognum c < 2 ^ 32) ->
  checksum_ r = true ->
  buffer_ r = framed c t (Mask (crc32c 0 (covered c t (pre ++ w1 ++ post)))) (pre ++ w2 ++ post) ++ tail ->
  exists r', ReadPhysicalRecord_loop (S n) r res d =
      Ret (kBadRecordChecksum, res, zlen (buffer_ r), r') /\ buffer_ r' = [] /\ file_ r' = file_ r.
Proof.
  intros Hl Hl4 Hne Hlen Ht Hz Hn Hck Hbuf.
  rewrite (loop_framed c n r t _ _ tail res d Hbuf) by auto. cbv zeta.
  assert (sum_ok (checksum_ r) c t (Mask (crc32c 0 (covered c t (pre ++ w1 ++ post)))) (pre ++ w2 ++ post)
          = false) as ->.
  { rewrite Hck. unfold sum_ok. rewrite u32_small by apply Mask_range.
    rewrite Unmask_Mask by (by apply crc32c_range). apply Z.eqb_neq. intros He.
    unfold covered in He. rewrite !(app_assoc (num_bytes c)), !app_comm_cons in He.
    by apply crc32c_burst in He; [subst| | |]; try lia. }
  eexists. split; [reflexivity|]. destruct (recyclable c); unfold marked; [case_match|]; done.
Qed.

End Properties.

(** ** Witnesses *)

Definition test_crc : Crc32c :=
  @Crc32c_at le_host plain_cpu plain_cpu_ok 0 (conj (Z.le_refl 0) eq_refl).

Definition legacy : LogCfg := mkCfg false 0.
Definition one_record : list byte := phys legacy kFullType (str "hello").
Definition two_record : list byte := phys legacy kFullType (str "!").

Lemma one_record_Frags : Frags legacy true 0 (str "hello") one_record 12.
Proof. apply (frags_last legacy true 0 (str "hello")). vm_compute. discriminate. Qed.
Lemma two_record_Frags : Frags legacy true 12 (str "!") two_record 20.
Proof. apply (frags_last legacy true 12 (str "!")). vm_compute. discriminate. Qed.

Lemma one_record_Log : Log legacy 0 [str "hello"] one_record 12.
Proof. rewrite <- (app_nil_r one_record). econstructor; [apply one_record_Frags|constructor]. Qed.
Lemma two_record_Log : Log legacy 12 [str "!"] two_record 20.
Proof. rewrite <- (app_nil_r two_record). econstructor; [apply two_record_Frags|constructor]. Qed.

Lemma log_roundtrip_witness :
  exists w0 ss w, @Writer_new test_crc mem_dest [] 5 true = Ret w0 /\
    @AddRecords le_host test_crc mem_dest mem_dest_ops w0 [str "hello"; []] = Ret (ss, w) /\
    Forall (fun s => ok s = true) ss /\
    exists r', @ReadAll le_host test_crc mem_file mem_file_ops 3 (S (Z.to_nat (zlen (dest_ w : mem_dest) + 40000)))
      (Reader_new ((dest_ w : mem_dest) ++ zrep 40000 x00 : mem_file) None true 0 5) kPointInTimeRecovery = Ret ([str "hello"; []], r').
Proof.
  destruct (@log_roundtrip le_host test_crc mem_dest mem_dest_ops mem_dest_reliable
    mem_file mem_file_ops mem_file_reliable [] 5 true [str "hello"; []] I eq_refl)
    as (w0 & ss & w & H1 & H2 & H3 & _ & _ & H4); [lia|lia|done|].
  exists w0, ss, w. split; [exact H1|]. split; [exact H2|]. split; [exact H3|].
  pose proof (zlen_nonneg (dest_ w : mem_dest)).
  destruct (H4 ((dest_ w : mem_dest) ++ zrep 40000 x00 : mem_file) 40000 None true kPointInTimeRecovery 3%nat
    (S (Z.to_nat (zlen (dest_ w : mem_dest) + 40000)))) as (r' & Hr & _); [reflexivity|lia|simpl; lia| |by exists r'].
  change (zlen (contents (dest_ w))) with (zlen (dest_ w : mem_dest)). lia.
Defined.

Lemma log_crash_prefix_witness :
  exists recs1 recs2 r', [str "hello"] = recs1 ++ recs2 /\
    @ReadAll le_host test_crc mem_file mem_file_ops 2 20
      (Reader_new (ztake 9 one_record : mem_file) (Some []) true 0 0)
      kTolerateCorruptedTailRecords = Ret (recs1, r').
Proof.
  destruct (@log_crash_prefix le_host test_crc mem_file mem_file_ops mem_file_reliable
    legacy [str "hello"] one_record 12 9 (ztake 9 one_record : mem_file) (Some []) true 0
    kTolerateCorruptedTailRecords 2 20 one_record_Log)
    as (recs1 & recs2 & _ & _ & r' & H1 & H2 & _);
    [discriminate|reflexivity|lia|simpl; lia|vm_compute; reflexivity|].
  exists recs1, recs2, r'. exact (conj H1 H2).
Defined.

Lemma log_follow_witness :
  exists r1, @ReadAll le_host test_crc mem_file mem_file_ops 2 20
      (Reader_new (one_record : mem_file) None true 0 0) kAbsoluteConsistency =
        Ret ([str "hello"], r1) /\
    exists r2, @ReadAll le_host test_crc mem_file mem_file_ops 2 20
      (UnmarkEOF (set_file r1 (two_record : mem_file))) kAbsoluteConsistency = Ret ([str "!"], r2).
Proof.
  destruct (@log_follow le_host test_crc mem_file mem_file_ops mem_file_reliable
    legacy [str "hello"] one_record 12 [str "!"] two_record 20 (one_record : mem_file) None true 0
    kAbsoluteConsistency 2 20 one_record_Log two_record_Log)
    as (r1 & H1 & _ & H2);
    [discriminate|reflexivity|simpl; lia|simpl; lia|vm_compute; reflexivity|vm_compute; reflexivity|].
  exists r1. split; [exact H1|]. destruct (H2 (two_record : mem_file) eq_refl) as (r2 & H3 & _).
  exists r2. exact H3.
Defined.

Lemma checksum_mismatch_detected_witness :
  exists r', @ReadPhysicalRecord_loop le_host test_crc mem_file mem_file_ops 1
      (set_buffer (Reader_new ([] : mem_file) None true 0 0)
        (framed legacy kFullType (Mask (crc32c 0 (covered legacy kFullType (str "hello")))) (str "jello")))
      [] 0 = Ret (kBadRecordChecksum, [], 12, r').
Proof.
  destruct (@checksum_mismatch_detected le_host test_crc mem_file mem_file_ops legacy 0
    (set_buffer (Reader_new ([] : mem_file) None true 0 0)
        (framed legacy kFullType (Mask (crc32c 0 (covered legacy kFullType (str "hello")))) (str "jello")))
    kFullType [] (str "h") (str "j") (str "ello") [] [] 0) as (r' & H1 & _);
    [reflexivity|simpl; lia|discriminate|vm_compute; reflexivity|reflexivity|discriminate|discriminate
    |reflexivity|reflexivity|].
  exists r'. exact H1.
Defined.
