(* ===== verification/LogFollow.v ===== *)
(** * LogFollow: a reader on a file that grows

    A [SequentialFile] on bytes that another thread appends to, and what a [Reader] on it keeps:
    after it has seen the end of the file it does not look at the file again before [UnmarkEOF]
    ([ReadRecord_eof]), and [EndOfBufferOffset] is its position in the file ([ReadRecord_offset]). *)

From Stdlib Require Import Strings.Byte Strings.String.
From stdpp Require Import list.
From S2P Require Import Prelude.
From S2P Require Import Slice.
From S2P Require Import Coding.
From S2P Require Import Status.
From S2P Require Import Crc32c.
From S2P Require Import LogFormat.
From S2P Require Import LogReader.
From S2P Require Import LogRoundtrip.

(** ** A file that others write to *)

(** The bytes that the file has at the time, and the position of the reader. *)
Record shared_file : Type := mkShared { sh_bytes : list byte; sh_pos : nat }.
#[export] Instance shared_file_ops : SeqFile shared_file := {|
  seq_read f n := let data := ztake n (drop (sh_pos f) (sh_bytes f)) in (OK, data, mkShared (sh_bytes f) (sh_pos f + length data));
  seq_skip f n := (OK, mkShared (sh_bytes f) (sh_pos f + Z.to_nat n)); |}.
#[export] Instance shared_file_reliable : ReliableFile shared_file.
Proof.
  refine {| remaining f := drop (sh_pos f) (sh_bytes f) |}; intros [b p] n Hn; simpl.
  - split; [done|]. split; [done|]. rewrite <- drop_drop. unfold ztake, zdrop. rewrite length_take.
    destruct (decide (Z.to_nat n <= length (drop p b))%nat); [by replace (_ `min` _)%nat with (Z.to_nat n) by lia|].
    rewrite !drop_ge by lia. done.
  - split; [done|]. by rewrite <- drop_drop.
Defined.

(** The file has other bytes now. *)
Definition refresh (r : Reader shared_file) (bytes : list byte) : Reader shared_file := set_file r (mkShared bytes (sh_pos (file_ r))).

(** ** After the end of the file *)

Section eof.
Context `{Host} `{Crc32c} {F : Type} `{SeqFile F}.
Implicit Types r : Reader F.

Definition on_file (f : F) (o : outcome (Z * list byte * Z * Reader F)) : outcome (Z * list byte * Z * Reader F) :=
  '(code, res, d, r) ← o; Ret (code, res, d, set_file r f).
Definition on_file_step (f : F) (o : step_result) : step_result :=
  match o with Again r sc fr pro => Again (set_file r f) sc fr pro | Done found record sc r => Done found record sc (set_file r f) end.
Definition step_reader (o : step_result) : Reader F := match o with Again r _ _ _ | Done _ _ _ r => r end.

Lemma ReadMore_eof r d e f : eof_ r = true ->
  exists d' e' r', ReadMore r d e = (false, d', e', r') /\ ReadMore (set_file r f) d e = (false, d', e', set_file r' f) /\ eof_ r' = true.
Proof. intros He. unfold ReadMore. cbn [eof_ set_file buffer_]. rewrite He. simpl. destruct (negb _); by do 3 eexists. Qed.

(** What [k] says of a result that comes from the reader, of the one that comes from the reader with the other file. *)
Definition framed_by (f : F) (o o' : outcome (Z * list byte * Z * Reader F)) : Prop :=
  o' = on_file f o /\ forall code res d r, o = Ret (code, res, d, r) -> eof_ r = true.
Lemma framed_ret f code res d r : eof_ r = true -> framed_by f (Ret (code, res, d, r)) (Ret (code, res, d, set_file r f)).
Proof. intros He. split; [done|]. by intros ???? [= <- <- <- <-]. Qed.

Lemma ReadPhysicalRecord_eof n r res d f : eof_ r = true ->
  framed_by f (ReadPhysicalRecord_loop (S n) r res d) (ReadPhysicalRecord_loop (S n) (set_file r f) res d).
Proof.
  intros He. cbn [ReadPhysicalRecord_loop]. cbn [buffer_ set_file end_of_buffer_offset_ rlog_number_].
  destruct (size (buffer_ r) <? kHeaderSize).
  { destruct (ReadMore_eof r d 0 f He) as (d' & e' & r' & -> & -> & He'). simpl. by apply framed_ret. }
  cbv zeta. set (type := u32 (b2sz (znth x00 (buffer_ r) 6))). set (len := Z.lor _ _). set (rec := _ && (type <=? _)).
  set (g := u64 (end_of_buffer_offset_ r - size (buffer_ r)) =? 0).
  set (r1 := if rec && g then set_recycled r true else r).
  assert ((if rec && g then set_recycled (set_file r f) true else set_file r f) = set_file r1 f) as -> by (unfold r1; by destruct (rec && g)).
  assert (eof_ r1 = true) as He1 by (unfold r1; by destruct (rec && g)).
  cbn [buffer_ set_file end_of_buffer_offset_ rlog_number_ eof_ set_buffer checksum_].
  destruct (rec && (size (buffer_ r1) <? kRecyclableHeaderSize)).
  { destruct (ReadMore_eof r1 d 0 f He1) as (d' & e' & r' & -> & -> & He'). simpl. by apply framed_ret. }
  destruct (rec && negb _); [by apply framed_ret|]. set (hs := if rec then _ else _).
  destruct (size (buffer_ r1) <? hs + len).
  { rewrite He1. simpl. destruct (negb _); exact (framed_ret f _ _ _ (set_buffer r1 []) He1). }
  destruct (_ && (len =? 0)); [exact (framed_ret f _ _ _ (set_buffer r1 []) He1)|].
  destruct (if checksum_ r1 then _ else _) as [b| | |]; [|by split..]. rewrite !bind_ret.
  destruct b; cbn [negb]. 2: { exact (framed_ret f _ _ _ (set_buffer r1 []) He1). }
  destruct (remove_prefix (buffer_ r1) (hs + len)) as [buf| | |]; [|by split..]. rewrite !bind_ret.
  cbn [buffer_ set_file end_of_buffer_offset_ initial_offset_ set_buffer].
  destruct (_ <? initial_offset_ r1); exact (framed_ret f _ _ _ (set_buffer r1 buf) He1).
Qed.

Lemma ReportDrop_file f r bytes reason : ReportDrop (set_file r f) bytes reason = set_file (ReportDrop r bytes reason) f.
Proof. unfold ReportDrop. cbn [reporter_ initial_offset_ set_file end_of_buffer_offset_ buffer_]. by repeat case_match. Qed.
Lemma ReportDrop_eof r bytes reason : eof_ (ReportDrop r bytes reason) = eof_ r.
Proof. unfold ReportDrop. by repeat case_match. Qed.

Lemma dispatch_file f r type frag d phy record scratch in_frag pro mode :
  dispatch (set_file r f) type frag d phy record scratch in_frag pro mode = on_file_step f (dispatch r type frag d phy record scratch in_frag pro mode) /\
  eof_ (step_reader (dispatch r type frag d phy record scratch in_frag pro mode)) = eof_ r.
Proof.
  unfold dispatch, drop_partial, on_eof, ReportCorruption. cbn [recycled_ set_file].
  repeat case_match; simpl; rewrite ?ReportDrop_file, ?ReportDrop_eof; done.
Qed.

Lemma ReadRecord_loop_eof f mode fuel : forall r fragment record scratch in_frag pro, eof_ r = true ->
  ReadRecord_loop fuel (set_file r f) fragment record scratch in_frag pro mode =
    ('(found, rec, sc, r') ← ReadRecord_loop fuel r fragment record scratch in_frag pro mode; Ret (found, rec, sc, set_file r' f)) /\
  forall found rec sc r', ReadRecord_loop fuel r fragment record scratch in_frag pro mode = Ret (found, rec, sc, r') -> eof_ r' = true.
Proof.
  induction fuel as [|fuel IH]; intros r fragment record scratch in_frag pro He; [done|]. cbn [ReadRecord_loop]. cbv zeta.
  unfold ReadPhysicalRecord. destruct (ReadPhysicalRecord_eof 2 r fragment 0 f He) as [-> Hr].
  destruct (ReadPhysicalRecord_loop 3 r fragment 0) as [[[[code res] d] r']| | |]; try done. specialize (Hr _ _ _ _ eq_refl).
  unfold on_file. rewrite !bind_ret. cbn [end_of_buffer_offset_ buffer_ set_file].
  destruct (dispatch_file f r' code res d (u64 (end_of_buffer_offset_ r - size (buffer_ r))) record scratch in_frag pro mode) as [-> Hd].
  destruct (dispatch r' _ _ _ _ _ _ _ _ _) as [r2 sc2 fr2 pro2|found rec sc r2]; simpl in Hd.
  - apply IH. congruence.
  - split; [done|]. intros ???? [= <- <- <- <-]. congruence.
Qed.

(** A reader that has seen the end of the file does not look at it. *)
Lemma ReadRecord_eof fuel r record scratch mode f : eof_ r = true -> initial_offset_ r <= last_record_offset_ r ->
  ReadRecord fuel (set_file r f) record scratch mode =
    ('(found, rec, sc, r') ← ReadRecord fuel r record scratch mode; Ret (found, rec, sc, set_file r' f)) /\
  forall found rec sc r', ReadRecord fuel r record scratch mode = Ret (found, rec, sc, r') -> eof_ r' = true.
Proof.
  intros He Hi. unfold ReadRecord. cbn [last_record_offset_ initial_offset_ set_file]. replace (_ <? _) with false by lia. by apply ReadRecord_loop_eof.
Qed.
End eof.

(** ** The position *)

Section offset.
Context `{Host} `{Crc32c}.
Implicit Types r : Reader shared_file.

(** [EndOfBufferOffset] is the position in the file, whose bytes do not change under the reader. *)
Definition in_place (bytes : list byte) r : Prop :=
  sh_bytes (file_ r) = bytes /\ (sh_pos (file_ r) <= length bytes)%nat /\ end_of_buffer_offset_ r = u64 (Z.of_nat (sh_pos (file_ r))).
Lemma read_in_place (bytes : list byte) p n : (p <= length bytes)%nat -> (p + length (ztake n (drop p bytes)) <= length bytes)%nat.
Proof. intros Hp. unfold ztake. rewrite length_take, length_drop. lia. Qed.
Lemma in_place_same bytes r r' : file_ r' = file_ r -> end_of_buffer_offset_ r' = end_of_buffer_offset_ r -> in_place bytes r -> in_place bytes r'.
Proof. unfold in_place. by intros -> ->. Qed.

Lemma ReportDrop_in_place bytes r n reason : in_place bytes r -> in_place bytes (ReportDrop r n reason).
Proof. apply in_place_same; unfold ReportDrop; by repeat case_match. Qed.

Lemma advance_offset p (data : list byte) : u64 (u64 (Z.of_nat p) + zlen data) = u64 (Z.of_nat (p + length data)).
Proof. rewrite u64_add_l. unfold zlen. by rewrite Nat2Z.inj_add. Qed.

Lemma ReadMore_in_place bytes r d e : in_place bytes r -> in_place bytes (ReadMore r d e).2.
Proof.
  intros (Hb & Hl & Ho). unfold ReadMore. destruct (negb (eof_ r) && negb (read_error_ r)); [|destruct (negb _); by split].
  cbn [file_ set_buffer]. simpl seq_read. cbv zeta. simpl. unfold size. rewrite Ho, advance_offset.
  rewrite Hb. pose proof (read_in_place bytes (sh_pos (file_ r)) kBlockSize Hl). by destruct (_ <? kBlockSize).
Qed.

Lemma ReadPhysicalRecord_in_place bytes n : forall r res d code res' d' r', in_place bytes r ->
  ReadPhysicalRecord_loop n r res d = Ret (code, res', d', r') -> in_place bytes r'.
Proof.
  induction n as [|n IH]; intros r res d code res' d' r' Hp; [done|]. cbn [ReadPhysicalRecord_loop]. cbv zeta.
  set (r1 := if _ && (u64 _ =? 0) then set_recycled r true else r).
  assert (in_place bytes r1) as Hp1 by (unfold r1; destruct (_ && _); exact Hp). clearbody r1.
  assert (forall r0, in_place bytes r0 -> (let '(more, d0, err, r2) := ReadMore r0 d 0 in
    if negb more then mret (err, res, d0, r2) else ReadPhysicalRecord_loop n r2 res d0) = Ret (code, res', d', r') -> in_place bytes r') as Hmore.
  { intros r0 Hp0. pose proof (ReadMore_in_place bytes r0 d 0 Hp0) as Hm. destruct (ReadMore r0 d 0) as [[[[] d0] err] r2]; simpl in *; [by apply IH|by intros [= <- <- <- <-]]. }
  destruct (_ <? kHeaderSize); [by apply Hmore|]. destruct (_ && (_ <? kRecyclableHeaderSize)); [by apply Hmore|].
  destruct (_ && negb _); [by intros [= <- <- <- <-]|]. destruct (_ <? _ + _).
  { destruct (negb (eof_ _)); [|destruct (negb _)]; intros [= <- <- <- <-]; by apply (in_place_same _ r1). }
  destruct (_ && (_ =? 0)); [intros [= <- <- <- <-]; by apply (in_place_same _ r1)|].
  destruct (if checksum_ r1 then _ else _) as [b| | |]; try done. rewrite !bind_ret.
  destruct (negb b); [intros [= <- <- <- <-]; by apply (in_place_same _ r1)|].
  destruct (remove_prefix _ _) as [buf| | |]; try done. rewrite !bind_ret.
  destruct (_ <? initial_offset_ _); intros [= <- <- <- <-]; by apply (in_place_same _ r1).
Qed.

Lemma dispatch_in_place bytes r type frag d phy record scratch in_frag pro mode : in_place bytes r ->
  in_place bytes (step_reader (dispatch r type frag d phy record scratch in_frag pro mode)).
Proof.
  intros Hp. unfold dispatch, drop_partial, on_eof, ReportCorruption.
  repeat case_match; simpl; try done; try (by repeat apply ReportDrop_in_place); try (by apply (in_place_same _ r)).
  all: by eapply (in_place_same _ (ReportDrop r _ _)), ReportDrop_in_place.
Qed.

Lemma ReadRecord_in_place bytes fuel r record scratch mode found rec sc r' : in_place bytes r -> initial_offset_ r <= last_record_offset_ r ->
  ReadRecord fuel r record scratch mode = Ret (found, rec, sc, r') -> in_place bytes r'.
Proof.
  intros Hp Hi. unfold ReadRecord. replace (_ <? _) with false by lia. clear Hi record scratch.
  assert (forall fragment record scratch in_frag pro, ReadRecord_loop fuel r fragment record scratch in_frag pro mode = Ret (found, rec, sc, r') -> in_place bytes r') as Hl; [|apply Hl].
  revert r Hp. induction fuel as [|fuel IH]; intros r Hp fragment record scratch in_frag pro; [done|]. cbn [ReadRecord_loop]. cbv zeta.
  destruct (ReadPhysicalRecord r fragment 0) as [[[[code res] d] r1]| | |] eqn:E; try done. rewrite bind_ret.
  apply (ReadPhysicalRecord_in_place bytes _ _ _ _ _ _ _ _ Hp) in E.
  pose proof (dispatch_in_place bytes r1 code res d (u64 (end_of_buffer_offset_ r - size (buffer_ r))) record scratch in_frag pro mode E) as Hd.
  destruct (dispatch r1 _ _ _ _ _ _ _ _ _) as [r2 sc2 fr2 pro2|found2 rec2 sc2 r2]; simpl in Hd; [by apply IH|by intros [= <- <- <- <-]].
Qed.

Lemma UnmarkEOF_in_place bytes r : in_place bytes r -> in_place bytes (UnmarkEOF r).
Proof.
  intros (Hb & Hl & Ho). unfold UnmarkEOF. destruct (read_error_ r); [done|]. cbn [eof_offset_ set_eof]. destruct (eof_offset_ r =? 0); [done|].
  cbn [file_ set_eof]. simpl seq_read. cbv zeta. simpl. unfold size. rewrite Ho, advance_offset, Hb.
  pose proof (read_in_place bytes (sh_pos (file_ r)) (u64 (kBlockSize - eof_offset_ r)) Hl). by destruct (_ <? _).
Qed.

(** What is appended to the file is behind what is in front of the reader. *)
Lemma before_grow c rep r b off bytes new : eof_ r = false -> (sh_pos (file_ r) <= length b)%nat ->
  before c rep (refresh r b) off bytes -> before c rep (refresh r (b ++ new)) off (bytes ++ new).
Proof.
  intros He Hp (Ho & pad & H7 & Hpad & Hat). split; [done|]. exists pad. do 2 (split; [done|]). rewrite app_assoc.
  set (k := if off =? 0 then _ else _) in *. set (all := pad ++ bytes) in *. destruct Hat as [Hk Hb Hf Heo Heoff Hne Hr Hi Hl Hn]; simpl in *.
  rewrite He in Heo. assert (k <= zlen all) as Hka by lia.
  constructor; simpl; try done.
  - by rewrite ztake_app_le by lia.
  - rewrite drop_app_le by done. rewrite Hf. unfold zdrop. rewrite drop_app_le; [done|]. unfold zlen in Hka. lia.
  - rewrite He, zlen_app. pose proof (zlen_nonneg new). lia.
  - congruence.
Qed.

(** At the end of the file the reader has read all of it. *)
Lemma before_eof c rep r b off bytes : eof_ r = true -> in_place b r -> before c rep r off bytes ->
  sh_pos (file_ r) = length b /\ remaining (file_ r) = [].
Proof.
  intros He (Hb & Hp & _) (Ho & pad & H7 & Hpad & [Hk _ Hf Heo _ _ _ _ _ _]). rewrite He in Heo. simpl in *.
  set (k := if off =? 0 then _ else _) in *.
  assert (drop (sh_pos (file_ r)) (sh_bytes (file_ r)) = []) as Hd by (rewrite Hf; unfold zdrop; apply drop_ge; unfold zlen in Heo; lia).
  split; [|done]. apply (f_equal length) in Hd. rewrite length_drop in Hd. simpl in Hd. subst b. lia.
Qed.
End offset.
