(* ===== verification/LogSafety.v ===== *)
(** * LogSafety: the reader on arbitrary bytes

    Termination and absence of failed assertions for every file, and the two
    situations in which the reader does not do what is meant: an old record in
    [kSkipAnyCorruptedRecords] mode, and log numbers beyond 32 bits. *)

From Stdlib Require Import Strings.Byte Strings.String.
From S2P Require Import Prelude.
From S2P Require Import Slice.
From S2P Require Import Coding.
From S2P Require Import Status.
From S2P Require Import Crc32c.
From S2P Require Import LogFormat.
From S2P Require Import LogWriter.
From S2P Require Import LogReader.
From S2P Require Import LogRoundtrip.

#[local] Arguments framed : simpl never.
#[local] Arguments wrap : simpl never.

(** A finite file: reads, successful or not, consume what they deliver, and a skip does
    not make it longer. *)
Class FiniteFile (F : Type) `{SeqFile F} := {
  bytes_left : F -> Z;
  bytes_left_nonneg : forall f, 0 <= bytes_left f;
  read_finite : forall f n,
    zlen (seq_read f n).1.2 + bytes_left (seq_read f n).2 <= bytes_left f;
  skip_finite : forall f n, bytes_left (seq_skip f n).2 <= bytes_left f;
}.

Section Safety.
Context `{Host} `{Crc32c} {F : Type} `{FiniteFile F}.
Implicit Types r : Reader F.

(** What the reader has still in front of it. *)
Definition ahead r : Z := zlen (buffer_ r) + bytes_left (file_ r).

Lemma ahead_nonneg r : 0 <= ahead r.
Proof. unfold ahead. pose proof (bytes_left_nonneg (file_ r)). zlen_pos. lia. Qed.

Lemma ReportDrop_frame r bytes reason :
  buffer_ (ReportDrop r bytes reason) = buffer_ r /\ file_ (ReportDrop r bytes reason) = file_ r.
Proof. unfold ReportDrop. by repeat case_match. Qed.

Lemma ReportDrop_ahead r bytes reason : ahead (ReportDrop r bytes reason) = ahead r.
Proof. unfold ahead. by destruct (ReportDrop_frame r bytes reason) as [-> ->]. Qed.

(** The outcome of [ReadMore]: a full buffer or the end of the file, else an error code. *)
Lemma ReadMore_spec r d e :
  let '(more, d', e', r') := ReadMore r d e in
  ahead r' <= ahead r /\
  (more = true -> eof_ r = false /\ (eof_ r' = true \/ kBlockSize <= zlen (buffer_ r'))) /\
  (more = false -> e' = kEof \/ e' = kBadHeader).
Proof.
  unfold ReadMore. destruct (negb (eof_ r) && negb (read_error_ r)) eqn:E.
  - apply andb_prop in E as [E1 _].
    pose proof (read_finite (file_ r) kBlockSize) as Hr. cbn [file_ set_buffer].
    destruct (seq_read _ _) as [[st data] f]; cbn [fst snd] in Hr.
    unfold ahead, size. zlen_pos. destruct (negb (ok st)).
    + cbn [buffer_ file_ set_read_error]. split; [|split; [done|intros _; by left]].
      destruct (ReportDrop_frame (set_buffer (set_end (set_buffer (set_file (set_buffer r []) f) data)
        (u64 (end_of_buffer_offset_ r + zlen data))) []) kBlockSize st) as [Hb Hf].
      cbn [buffer_ end_of_buffer_offset_ set_end set_buffer set_file] in *.
      rewrite Hb, Hf. simpl. change (zlen (@nil byte)) with 0. lia.
    + cbn [buffer_ set_end set_buffer set_file].
      destruct (Z.ltb_spec (zlen data) kBlockSize); simpl; (split; [lia|]); (split; [|done]);
        intros _; (split; [by destruct (eof_ r)|auto]).
  - clear E. unfold ahead, size. pose proof (zlen_nonneg (buffer_ r)).
    destruct (negb _); simpl; change (zlen (@nil byte)) with 0; (split; [lia|]); (split; [done|intros _; auto]).
Qed.

Definition stops (code : Z) : Prop := code = kEof \/ code = kBadHeader \/ code = kOldRecord.

(** One turn of [ReadPhysicalRecord]: it returns, making progress unless its result ends
    the reading, or it has read more and goes round again. *)
(** What one turn of the loop does from [r], when [o] is what is left to run: it returns, and has consumed input
    or stops for good; or it has read another block and goes round again. *)
Definition turned (n : nat) (r : Reader F) (res : list byte) (o : outcome (Z * list byte * Z * Reader F)) : Prop :=
  (exists code res' d' r', o = Ret (code, res', d', r') /\
     ahead r' <= ahead r /\ (stops code \/ ahead r' < ahead r)) \/
  (exists d' r', o = ReadPhysicalRecord_loop n r' res d' /\
     ahead r' <= ahead r /\ eof_ r = false /\ zlen (buffer_ r) < 11 /\ (eof_ r' = true \/ kBlockSize <= zlen (buffer_ r'))).

Lemma more_turn n r r0 res d : zlen (buffer_ r) < 11 -> ahead r0 = ahead r -> eof_ r0 = eof_ r ->
  let '(more, d', err, r') := ReadMore r0 d 0 in
  turned n r res (if negb more then mret (err, res, d', r') else ReadPhysicalRecord_loop n r' res d').
Proof.
  intros H11 Ha He. pose proof (ReadMore_spec r0 d 0) as Hs.
  destruct (ReadMore r0 d 0) as [[[more d'] err] r']. destruct Hs as (Hle & Ht & Hf).
  rewrite Ha in Hle. destruct more; simpl.
  - right. exists d', r'. destruct (Ht eq_refl) as [He' Hb]. by rewrite He in He'.
  - left. exists err, res, d', r'. split_and!; [done|done|left; unfold stops; destruct (Hf eq_refl); auto].
Qed.

Lemma loop_turn n r res d : turned n r res (ReadPhysicalRecord_loop (S n) r res d).
Proof.
  cbn [ReadPhysicalRecord_loop].
  unfold size. destruct (Z.ltb_spec (zlen (buffer_ r)) kHeaderSize) as [Hs|Hs].
  { pose proof (more_turn n r r res d ltac:(unfold kHeaderSize in Hs; lia) eq_refl eq_refl) as Hmore. by destruct (ReadMore r d 0) as [[[??]?]?]. }
  cbv zeta. unfold kHeaderSize in Hs.
  fold (is_recyclable_num (u32 (b2sz (znth x00 (buffer_ r) 6)))).
  set (rec := is_recyclable_num _). set (len := Z.lor _ _).
  match goal with |- context [if rec && ?g then set_recycled r true else r] =>
    set (r1 := if rec && g then set_recycled r true else r) end.
  assert (buffer_ r1 = buffer_ r /\ file_ r1 = file_ r /\ eof_ r1 = eof_ r) as (Hb1 & Hf1 & He1)
    by (subst r1; by case_match).
  assert (ahead r1 = ahead r) as Ha1 by (unfold ahead; by rewrite Hb1, Hf1).
  assert (ahead (set_buffer r1 []) < ahead r) as Hdrop.
  { unfold ahead. simpl. rewrite Hf1. change (zlen (@nil byte)) with 0. lia. }
  rewrite Hb1. destruct (rec && (zlen (buffer_ r) <? kRecyclableHeaderSize)) eqn:Hshort.
  { apply andb_prop in Hshort as [_ Hshort]. unfold kRecyclableHeaderSize in Hshort.
    pose proof (more_turn n r r1 res d ltac:(lia) Ha1 He1) as Hmore. by destruct (ReadMore r1 d 0) as [[[??]?]?]. }
  left. destruct (rec && negb _).
  { do 4 eexists. split; [reflexivity|]. split; [lia|]. left. unfold stops. auto. }
  set (hs := if rec then _ else _).
  destruct (Z.ltb_spec (zlen (buffer_ r)) (hs + len)) as [Hlen|Hlen].
  { repeat case_match; do 4 eexists; (split; [reflexivity|]); split; [lia|auto|lia|auto|lia|auto]. }
  destruct (_ && (len =? 0)). { do 4 eexists. split; [reflexivity|]. split; [lia|auto]. }
  assert (exists b, (if checksum_ r1 then
    actual_crc ← Value (ztake (len + hs - 6) (zdrop 6 (buffer_ r)));
    mret (actual_crc =? Unmask (DecodeFixed32 (buffer_ r))) else mret true) = Ret b) as [b ->].
  { destruct (checksum_ r1); [|by eexists]. unfold Value. rewrite Extend_crc32c by lia. by eexists. }
  bret. destruct b; cbn [negb]. 2: { do 4 eexists. split; [reflexivity|]. split; [lia|auto]. }
  unfold remove_prefix, size. rewrite assert_true by lia. rewrite bind_ret.
  assert (ahead (set_buffer r1 (zdrop (hs + len) (buffer_ r))) < ahead r) as Hrm.
  { assert (0 <= len). { apply Z.lor_nonneg. pose proof (b2z_range (znth x00 (buffer_ r) 4)).
      pose proof (b2z_range (znth x00 (buffer_ r) 5)). rewrite Z.shiftl_nonneg. lia. }
    assert (7 <= hs) by (unfold hs; by destruct rec).
    unfold ahead. simpl. rewrite Hf1, zlen_zdrop by lia. lia. }
  case_match; do 4 eexists; (split; [reflexivity|]); split; [lia|auto|lia|auto].
Qed.

Lemma ReadPhysicalRecord_total r res d :
  exists code res' d' r', ReadPhysicalRecord r res d = Ret (code, res', d', r') /\
    ahead r' <= ahead r /\ (stops code \/ ahead r' < ahead r).
Proof.
  unfold ReadPhysicalRecord.
  destruct (loop_turn 2 r res d) as [Hd|(d1 & r1 & -> & Ha1 & _ & _ & Hb1)]; [done|].
  destruct (loop_turn 1 r1 res d1) as [Hd|(d2 & r2 & _ & _ & Hn1 & Hs1 & _)].
  - destruct Hd as (code & res' & d' & r' & -> & Ha & Hc). do 4 eexists. split; [reflexivity|].
    split; [lia|]. destruct Hc; [auto|right; lia].
  - exfalso. unfold kBlockSize in Hb1. destruct Hb1; [congruence|lia].
Qed.

(** [dispatch] either returns or goes on; it goes on only after a record or an error that
    does not stop the reading. *)
Lemma on_eof_Done r record scratch in_frag mode :
  exists sc r', on_eof r record scratch in_frag mode = Done (F := F) false record sc r'.
Proof. unfold on_eof. destruct in_frag; do 2 eexists; reflexivity. Qed.

Lemma dispatch_Again r code frag d phy record scratch in_frag pro mode r' sc' fr' pro' :
  mode <> kSkipAnyCorruptedRecords ->
  dispatch r code frag d phy record scratch in_frag pro mode = Again r' sc' fr' pro' ->
  ~ stops code /\ ahead r' = ahead r.
Proof.
  intros Hm Hd. split.
  - intros Hs. assert (exists sc r'', dispatch r code frag d phy record scratch in_frag pro mode
      = Done false record sc r'') as (? & ? & He); [|congruence].
    destruct Hs as [ -> | [ -> | -> ] ]; unfold dispatch; simpl;
      rewrite ?(bool_decide_false (mode = kSkipAnyCorruptedRecords)) by done; apply on_eof_Done.
  - unfold dispatch, drop_partial, ReportCorruption in Hd.
    repeat (case_match; simplify_eq/=; rewrite ?ReportDrop_ahead; try done);
      repeat match goal with H : on_eof ?r ?a ?b ?c ?m = _ |- _ =>
        destruct (on_eof_Done r a b c m) as (? & ? & ?); congruence end.
Qed.

Lemma ReadRecord_loop_total fuel r fragment record scratch in_frag pro mode :
  mode <> kSkipAnyCorruptedRecords -> ahead r < Z.of_nat fuel ->
  exists res, ReadRecord_loop fuel r fragment record scratch in_frag pro mode = Ret res.
Proof.
  intros Hm. revert r fragment scratch in_frag pro.
  induction fuel as [|fuel IH]; intros r fragment scratch in_frag pro Hf.
  { pose proof (ahead_nonneg r). lia. }
  destruct (ReadPhysicalRecord_total r fragment 0) as (code & res' & d' & r' & Hr & Ha & Hc).
  rewrite (ReadRecord_step _ _ _ _ _ _ _ _ _ _ _ _ Hr).
  destruct (dispatch _ _ _ _ _ _ _ _ _ _) as [r2 sc2 fr2 pro2|found rec sc r2] eqn:Hd.
  - apply dispatch_Again in Hd as [Hns Ha2]; [|done]. apply IH. destruct Hc; [done|lia].
  - by eexists.
Qed.

Lemma SkipToInitialBlock_ahead r :
  ahead (SkipToInitialBlock r).2 <= ahead r.
Proof.
  unfold SkipToInitialBlock. set (bsl := if kBlockSize - 6 <? _ then _ else _).
  destruct (0 <? bsl); [|unfold ahead; simpl; lia]. cbn [file_ set_end].
  pose proof (skip_finite (file_ r) bsl). destruct (seq_skip (file_ r) bsl) as [st f].
  destruct (negb (ok st)); cbn [snd] in *; rewrite ?ReportDrop_ahead; unfold ahead; simpl; lia.
Qed.

(** ** Properties *)

(** C7: whatever the bytes of the file are, and whether reads fail or come up short, every
    call of [ReadRecord] ends (in all modes except [kSkipAnyCorruptedRecords]) and no
    assertion of the slices it takes apart fails: fuel beyond the bytes that are ahead of
    the reader is enough. *)
Theorem ReadRecord_terminates r record scratch mode fuel :
  mode <> kSkipAnyCorruptedRecords -> ahead r < Z.of_nat fuel ->
  exists res, ReadRecord fuel r record scratch mode = Ret res.
Proof.
  intros Hm Hf. unfold ReadRecord. pose proof (SkipToInitialBlock_ahead r) as Hs.
  destruct (last_record_offset_ r <? initial_offset_ r); [|by apply ReadRecord_loop_total].
  destruct (SkipToInitialBlock r) as [found r']; cbn [snd] in Hs.
  destruct (negb found); [by eexists|]. apply ReadRecord_loop_total; [done|lia].
Qed.

(** The header of a record of another log is in the buffer. *)
Definition old_record_ahead r : Prop :=
  kRecyclableHeaderSize <= zlen (buffer_ r) /\
  is_recyclable_num (u32 (b2sz (znth x00 (buffer_ r) 6))) = true /\
  DecodeFixed32 (zdrop 7 (buffer_ r)) <> rlog_number_ r.

Lemma old_record_phys n r res d :
  old_record_ahead r ->
  exists r', ReadPhysicalRecord_loop (S n) r res d = Ret (kOldRecord, res, d, r') /\
    buffer_ r' = buffer_ r /\ rlog_number_ r' = rlog_number_ r /\ reporter_ r' = reporter_ r.
Proof.
  intros (Hlen & Ht & Hne). unfold kRecyclableHeaderSize in Hlen.
  cbn [ReadPhysicalRecord_loop]. unfold size.
  replace (_ <? kHeaderSize) with false by (unfold kHeaderSize; lia).
  cbv zeta. fold (is_recyclable_num (u32 (b2sz (znth x00 (buffer_ r) 6)))). rewrite Ht. cbn [andb].
  match goal with |- context [if ?g then set_recycled r true else r] =>
    set (r1 := if g then set_recycled r true else r) end.
  assert (buffer_ r1 = buffer_ r /\ rlog_number_ r1 = rlog_number_ r /\ reporter_ r1 = reporter_ r)
    as (Hb1 & Hn1 & Hr1) by (subst r1; by case_match).
  rewrite Hb1, Hn1. replace (_ <? kRecyclableHeaderSize) with false by (unfold kRecyclableHeaderSize; lia).
  replace (DecodeFixed32 _ =? _) with false by lia. cbn [negb]. by exists r1.
Qed.

(** C9: in [kSkipAnyCorruptedRecords] mode a record left over from an earlier use of a
    recycled file makes [ReadRecord] loop forever: [kOldRecord] is returned without
    consuming anything and handled like a bad record that has been consumed. *)
Theorem old_record_skip_diverges r fragment record scratch in_frag pro fuel :
  old_record_ahead r ->
  ReadRecord_loop fuel r fragment record scratch in_frag pro kSkipAnyCorruptedRecords = NoFuel.
Proof.
  revert r fragment scratch in_frag pro.
  induction fuel as [|fuel IH]; intros r fragment scratch in_frag pro Ho; [done|].
  destruct (old_record_phys 2 r fragment 0 Ho) as (r' & Hr & Hb & Hn & _).
  rewrite (ReadRecord_step _ _ _ _ _ _ _ _ _ _ _ _ Hr).
  assert (old_record_ahead r') as Ho' by (unfold old_record_ahead in *; by rewrite Hb, Hn).
  unfold dispatch, drop_partial. simpl.
  destruct in_frag; [|by apply IH]. apply IH.
  unfold ReportCorruption, old_record_ahead in *. destruct (ReportDrop_frame r' (size scratch)
    (Corruption (str "error in middle of record") [])) as [-> _].
  assert (forall b s, rlog_number_ (ReportDrop r' b s) = rlog_number_ r') as ->
    by (intros; unfold ReportDrop; by repeat case_match). done.
Qed.

End Safety.

(** A log starts with a physical record. *)
Lemma first_phys c rec recs out off' :
  Log c 0 (rec :: recs) out off' ->
  exists b e pay tail, out = phys c (frag_type (recyclable c) b e) pay ++ tail /\
    header_size c + zlen pay <= kBlockSize.
Proof.
  intros HL. inversion HL as [|? ? ? o1 f1 o2 f2 HF HL2]; subst.
  pose proof (header_size_bounds c).
  inversion HF as [? ? ? o ? Hp|? ? ? Hl|? ? av ? o ? Ha Hav]; subst.
  - unfold kBlockSize in Hp. lia.
  - do 4 eexists. split; [reflexivity|lia].
  - do 4 eexists. rewrite <- app_assoc. split; [reflexivity|]. rewrite zlen_ztake by lia. lia.
Qed.

Section Numbers.
Context `{Host} `{Crc32c} {D : Type} `{ReliableDest D} {F : Type} `{ReliableFile F}.

(** log numbers of more than 32 bits. A writer of the recyclable format stores the low
    32 bits of its log number, and the reader compares them with all 64 bits of its own:
    given the same number above [2^32] it takes every log for a recycled one and returns
    none of the records that the writer accepted, without a report. *)
Theorem recyclable_number_truncated d n rec recs :
  dest_ok d -> contents d = [] -> 2 ^ 32 <= n < 2 ^ 64 ->
  (forall out off', Log (mkCfg true (u32 n)) 0 (rec :: recs) out off' -> dest_fits (zlen out)) ->
  exists w0 ss w, Writer_new d n true = Ret w0 /\ AddRecords w0 (rec :: recs) = Ret (ss, w) /\
    Forall (fun s => ok s = true) ss /\
    forall (f : F) reporter checksum mode calls fuel,
      remaining f = contents (dest_ w) -> mode <> kSkipAnyCorruptedRecords -> (0 < fuel)%nat ->
      exists r', ReadAll (S calls) fuel (Reader_new f reporter checksum 0 n) mode = Ret ([], r') /\
        reporter_ r' = reporter.
Proof.
  intros Hd He Hn Hfit. set (c := mkCfg true (u32 n)).
  destruct (write_log d n true (rec :: recs) Hd He Hfit) as (w0 & ss & w & off' & Hw & Hr & Hss & _ & _ & _ & _ & HL).
  exists w0, ss, w. split_and!; [done..|].
  intros f reporter checksum mode calls fuel Hf Hmode Hfuel. set (out := contents (dest_ w)) in *.
  destruct (first_phys c rec recs out off' HL) as (b & e & pay & tail & Hout & Hfit1). change (recyclable c) with true in Hout.
  pose proof (Reader_new_before legacy reporter f checksum n) as Hb.
  rewrite Hf in Hb. specialize (Hb ltac:(done)).
  destruct (before_fill legacy reporter _ out [] 0 Hb) as (r1 & Hr1 & Hat1 & Hn1).
  assert (old_record_ahead r1) as Hold.
  { unfold old_record_ahead. rewrite (at_buffer _ _ _ _ _ Hat1), Hout.
    assert (header_size c = 11) as Hhs by done.
    pose proof (zlen_phys c (frag_type true b e) pay) as Hlp.
    rewrite ztake_app_ge by lia. set (tl := ztake _ tail). zlen_pos. split_and!.
    - rewrite zlen_app. unfold kRecyclableHeaderSize. zlen_pos. lia.
    - unfold phys. destruct (framed_fields c (frag_type true b e)
        (Mask (crc32c 0 (covered c (frag_type true b e) pay))) pay tl
        ltac:(unfold kBlockSize in *; lia)) as [_ ->]. by rewrite frag_type_recyclable.
    - unfold phys. rewrite framed_number; [|done|apply u32_range].
      rewrite Hn1. simpl. pose proof (u32_range n). lia. }
  destruct (old_record_phys 1 r1 [] 0 Hold) as (r2 & Hr2 & _ & _ & Hrep).
  destruct fuel as [|fuel]; [lia|]. exists r2.
  assert (ReadPhysicalRecord (Reader_new f reporter checksum 0 n) [] 0 = Ret (kOldRecord, [], 0, r2)) as Hphys
    by (by rewrite Hr1, Hr2).
  split; [|by rewrite Hrep, (at_reporter _ _ _ _ _ Hat1)].
  simpl. rewrite (ReadRecord_no_skip _ _ _ _ _ _ _ _ _ Hb).
  rewrite (ReadRecord_step _ _ _ _ _ _ _ _ _ _ _ _ Hphys).
  unfold dispatch. simpl. by rewrite bool_decide_false.
Qed.

End Numbers.

(** ** Witnesses *)

#[export] Instance mem_file_finite : FiniteFile mem_file.
Proof.
  refine {| bytes_left f := zlen (f : list byte) |}.
  - intros f. apply zlen_nonneg.
  - intros f n. cbn [fst snd seq_read mem_file_ops].
    rewrite <- zlen_app, ztake_zdrop. lia.
  - intros f n. cbn [snd seq_skip mem_file_ops].
    pose proof (f_equal zlen (ztake_zdrop n (f : list byte))) as E. rewrite zlen_app in E. zlen_pos. lia.
Defined.

Lemma ReadRecord_terminates_witness :
  exists res, @ReadRecord le_host test_crc mem_file mem_file_ops 10
    (Reader_new (str "garbage!" : mem_file) (Some []) true 0 0) [] [] kPointInTimeRecovery = Ret res.
Proof.
  apply (@ReadRecord_terminates le_host test_crc mem_file mem_file_ops mem_file_finite);
    [discriminate|vm_compute; reflexivity].
Defined.

(** A reader for log 7 with a record of log 3 in its buffer. *)
Definition stale_reader : Reader mem_file :=
  set_buffer (Reader_new ([] : mem_file) None true 0 7)
    (phys (mkCfg true 3) kRecyclableFullType (str "old")).

Lemma old_record_skip_diverges_witness :
  @ReadRecord_loop le_host test_crc mem_file mem_file_ops 100 stale_reader [] [] [] false 0
    kSkipAnyCorruptedRecords = NoFuel.
Proof.
  apply (@old_record_skip_diverges le_host test_crc mem_file mem_file_ops).
  split; [vm_compute; discriminate|]. split; [vm_compute; reflexivity|vm_compute; discriminate].
Defined.

Lemma recyclable_number_truncated_witness :
  exists w0 ss w, @Writer_new test_crc mem_dest [] 4294967296 true = Ret w0 /\
    @AddRecords le_host test_crc mem_dest mem_dest_ops w0 [str "lost"] = Ret (ss, w) /\
    Forall (fun s => ok s = true) ss /\
    exists r', @ReadAll le_host test_crc mem_file mem_file_ops 1 1
      (Reader_new (contents (dest_ w) : mem_file) None true 0 4294967296)
      kAbsoluteConsistency = Ret ([], r') /\ reporter_ r' = None.
Proof.
  destruct (@recyclable_number_truncated le_host test_crc mem_dest mem_dest_ops mem_dest_reliable
    mem_file mem_file_ops mem_file_reliable [] 4294967296 (str "lost") [] I eq_refl)
    as (w0 & ss & w & H1 & H2 & H3 & H4); [lia|done|].
  exists w0, ss, w. split; [exact H1|]. split; [exact H2|]. split; [exact H3|].
  apply (H4 (contents (dest_ w) : mem_file) None true kAbsoluteConsistency 0%nat 1%nat);
    [reflexivity|discriminate|lia].
Defined.
