(* ===== verification/Hash.v ===== *)
(** * Hash ([rutil/hash.cc], [include/rocksutil/hash.h])

    The 32-bit murmur-like hash, and that a change confined to one of the words that it
    reads always changes the result. *)

From Stdlib Require Import Strings.Byte Strings.String.
From S2P Require Import Prelude.
From S2P Require Import Slice.
From S2P Require Import Coding.
From S2P Require Import Status.

(** ** The code *)

Definition hash_m : Z := 0xc6a4a793.
Definition hash_r : Z := 24.

(** [h += w; h *= m; h ^= (h >> k)] in [uint32_t]. *)
Definition hash_step (h w k : Z) : Z :=
  let h := u32 (h + w) in
  let h := u32 (h * hash_m) in
  Z.lxor h (Z.shiftr h k).

(** A [signed char], converted to [int], shifted, and converted to [uint32_t]. *)
Definition signed_shl (b : byte) (k : Z) : Z := u32 (Z.shiftl (b2sz b) k).

(** The [switch] over the up to three bytes that are left. *)
Definition hash_tail (data : list byte) (h : Z) : Z :=
  match data with
  | [b0] => hash_step h (signed_shl b0 0) hash_r
  | [b0; b1] => hash_step (u32 (h + signed_shl b1 8)) (signed_shl b0 0) hash_r
  | [b0; b1; b2] =>
      hash_step (u32 (u32 (h + signed_shl b2 16) + signed_shl b1 8)) (signed_shl b0 0) hash_r
  | _ => h
  end.

Fixpoint hash_loop `{Host} (data : list byte) (h : Z) : Z :=
  match data with
  | b0 :: b1 :: b2 :: b3 :: rest => hash_loop rest (hash_step h (DecodeFixed32 [b0; b1; b2; b3]) 16)
  | _ => hash_tail data h
  end.

Definition Hash `{Host} (data : list byte) (seed : Z) : Z :=
  hash_loop data (u32 (Z.lxor seed (u64 (zlen data * hash_m)))).

Definition BloomHash `{Host} (key : Slice) : Z := Hash key 0xbc9f1d34.
Definition GetSliceHash `{Host} (s : Slice) : Z := Hash s 397.

(** ** One step *)

Abbreviation word h := (0 <= h < 4294967296).

Lemma u32_word h : word (u32 h).
Proof. apply u32_range. Qed.

Lemma xorshift_word h k : word h -> 0 <= k <= 32 -> word (Z.lxor h (Z.shiftr h k)).
Proof.
  intros Hh Hk. apply (lxor_range 32); [lia|done|]. pose proof (shiftr_range 32 k h Hk Hh).
  assert (2 ^ (32 - k) <= 2 ^ 32) by (apply Z.pow_le_mono_r; lia). lia.
Qed.

Lemma hash_step_word h w k : 0 <= k <= 32 -> word (hash_step h w k).
Proof. intros Hk. apply xorshift_word; [apply u32_word|done]. Qed.

(** [x ^ (x >> k)] loses nothing. *)
Lemma xorshift_inj a b k :
  word a -> word b -> 16 <= k <= 32 -> Z.lxor a (Z.shiftr a k) = Z.lxor b (Z.shiftr b k) -> a = b.
Proof.
  intros Ha Hb Hk E.
  assert (forall x, word x -> Z.lxor (Z.lxor x (Z.shiftr x k)) (Z.shiftr (Z.lxor x (Z.shiftr x k)) k) = x) as Hinv.
  { intros x Hx. bitwise.
    assert (Z.testbit x (i + k + k) = false) as -> by (apply (testbit_high _ 32); lia).
    destruct (Z.testbit x i), (Z.testbit x (i + k)); done. }
  rewrite <- (Hinv a Ha), <- (Hinv b Hb). by rewrite E.
Qed.

(** Multiplication by the odd [m] is invertible modulo [2^32]. *)
Definition hash_m_inv : Z := 0xd8198e9b.
Lemma hash_m_unit : u32 (hash_m * hash_m_inv) = 1.
Proof. vm_compute. reflexivity. Qed.

Lemma mult_inj a b : word a -> word b -> u32 (a * hash_m) = u32 (b * hash_m) -> a = b.
Proof.
  intros Ha Hb E.
  assert (forall x, word x -> u32 (u32 (x * hash_m) * hash_m_inv) = x) as Hinv.
  { intros x Hx. unfold wrap. rewrite Zmult_mod_idemp_l, <- Z.mul_assoc, Zmult_mod.
    change ((hash_m * hash_m_inv) mod 2 ^ 32) with 1. rewrite Z.mul_1_r, Zmod_mod. by apply Z.mod_small. }
  rewrite <- (Hinv a Ha), <- (Hinv b Hb). by rewrite E.
Qed.

Lemma add_inj a b c : word a -> word b -> u32 (a + c) = u32 (b + c) -> a = b.
Proof.
  intros Ha Hb E. assert (u32 (u32 (a + c) - c) = u32 (u32 (b + c) - c)) as E2 by (by rewrite E).
  unfold wrap in E2. rewrite !Zminus_mod_idemp_l in E2.
  replace (a + c - c) with a in E2 by lia. replace (b + c - c) with b in E2 by lia.
  by rewrite !Z.mod_small in E2.
Qed.

Lemma hash_step_inj h h' w w' k :
  16 <= k <= 32 -> hash_step h w k = hash_step h' w' k -> u32 (h + w) = u32 (h' + w').
Proof.
  intros Hk E. apply xorshift_inj in E; [|apply u32_word..|done].
  apply mult_inj in E; [done|apply u32_word..].
Qed.

(** ** The whole hash *)

(** Induction over the words of a string. *)
Lemma words_ind (P : list byte -> Prop) :
  (forall l, (length l < 4)%nat -> P l) ->
  (forall b0 b1 b2 b3 l, P l -> P (b0 :: b1 :: b2 :: b3 :: l)) -> forall l, P l.
Proof.
  intros H0 H1 l. assert (forall n l, (length l <= n)%nat -> P l) as H; [|by apply (H (length l))].
  intros n. induction n as [n IH] using lt_wf_ind. intros k Hk.
  destruct k as [|b0 [|b1 [|b2 [|b3 k]]]]; try (apply H0; simpl; lia).
  apply H1. apply (IH (length k)); simpl in Hk; lia.
Qed.

Lemma hash_tail_word data h : word h -> word (hash_tail data h).
Proof.
  intros Hh. destruct data as [|b0 [|b1 [|b2 [|b3 l]]]]; simpl; try done; apply hash_step_word; unfold hash_r; lia.
Qed.

Lemma hash_loop_short `{Host} data h : (length data < 4)%nat -> hash_loop data h = hash_tail data h.
Proof. destruct data as [|b0 [|b1 [|b2 [|b3 l]]]]; simpl; try done. lia. Qed.

Lemma hash_loop_word `{Host} data h : word h -> word (hash_loop data h).
Proof.
  revert h; induction data as [l Hl|b0 b1 b2 b3 l IH] using words_ind; intros h Hh.
  - rewrite hash_loop_short by done. by apply hash_tail_word.
  - simpl. apply IH, hash_step_word. lia.
Qed.

(** The result is a 32-bit word. *)
Lemma Hash_word `{Host} data seed : word (Hash data seed).
Proof. apply hash_loop_word, u32_word. Qed.

Lemma hash_tail_inj data h h' : word h -> word h' -> hash_tail data h = hash_tail data h' -> h = h'.
Proof.
  intros Hh Hh' E. assert (16 <= hash_r <= 32) as Hr by (unfold hash_r; lia).
  destruct data as [|b0 [|b1 [|b2 [|b3 l]]]]; simpl in E; try done;
    apply hash_step_inj in E; try done; apply add_inj in E; try done; try apply u32_word.
  - by apply add_inj in E.
  - apply add_inj in E; [|apply u32_word..]. by apply add_inj in E.
Qed.

Lemma hash_loop_inj `{Host} data h h' : word h -> word h' -> hash_loop data h = hash_loop data h' -> h = h'.
Proof.
  revert h h'; induction data as [l Hl|b0 b1 b2 b3 l IH] using words_ind; intros h h' Hh Hh' E.
  - rewrite !hash_loop_short in E by done. by apply hash_tail_inj in E.
  - simpl in E. apply IH in E; [|apply hash_step_word; lia..].
    apply hash_step_inj in E; [|lia]. by apply add_inj in E.
Qed.

(** The tail's bytes are the digits of a number in base 256, with digits from -128 to 127. *)
Lemma b2sz_range b : -128 <= b2sz b < 128.
Proof. unfold b2sz, swrap. pose proof (b2z_range b). change (2 ^ (8 - 1)) with 128. change (2 ^ 8) with 256. dlia. Qed.

Lemma b2sz_inj a b : b2sz a = b2sz b -> a = b.
Proof.
  unfold b2sz, swrap. change (2 ^ (8 - 1)) with 128. change (2 ^ 8) with 256. intros E. apply b2z_inj.
  pose proof (b2z_range a). pose proof (b2z_range b). dlia.
Qed.

Lemma u32_eq_small a b : u32 a = u32 b -> -4294967296 < a - b < 4294967296 -> a = b.
Proof. unfold wrap. change (2 ^ 32) with 4294967296. intros E Hd. dlia. Qed.

Lemma u32_add_l a b : u32 (u32 a + b) = u32 (a + b).
Proof. unfold wrap. by rewrite Zplus_mod_idemp_l. Qed.
Lemma u32_add_r a b : u32 (a + u32 b) = u32 (a + b).
Proof. unfold wrap. by rewrite Zplus_mod_idemp_r. Qed.

Lemma u32_cancel h x y : u32 (h + x) = u32 (h + y) -> -4294967296 < x - y < 4294967296 -> x = y.
Proof. intros E Hd. apply u32_eq_small in E; lia. Qed.

Lemma tail_sum2 h x y : u32 (u32 (h + u32 x) + u32 y) = u32 (h + (x + y)).
Proof. unfold wrap. change (2 ^ 32) with 4294967296. dlia. Qed.
Lemma tail_sum3 h x y z : u32 (u32 (u32 (h + u32 x) + u32 y) + u32 z) = u32 (h + (x + y + z)).
Proof. rewrite tail_sum2, u32_add_l, <- Z.add_assoc, (Z.add_comm (u32 x)), Z.add_assoc, u32_add_r. f_equal. lia. Qed.

Lemma hash_tail_data_inj a a' h :
  (length a < 4)%nat -> length a = length a' -> hash_tail a h = hash_tail a' h -> a = a'.
Proof.
  intros Hl Hl' E. assert (16 <= hash_r <= 32) as Hr by (unfold hash_r; lia).
  destruct a as [|b0 [|b1 [|b2 [|b3 l]]]], a' as [|c0 [|c1 [|c2 [|c3 l']]]]; simpl in *; try lia; try done;
    apply hash_step_inj in E; try done; unfold signed_shl in E; rewrite !Z.shiftl_mul_pow2 in E by lia;
    pose proof (b2sz_range b0); pose proof (b2sz_range c0).
  - rewrite !u32_add_r in E. apply u32_cancel in E; [|lia]. by rewrite (b2sz_inj b0 c0) by lia.
  - pose proof (b2sz_range b1). pose proof (b2sz_range c1).
    rewrite !tail_sum2 in E. apply u32_cancel in E; [|lia].
    by rewrite (b2sz_inj b0 c0), (b2sz_inj b1 c1) by lia.
  - pose proof (b2sz_range b1). pose proof (b2sz_range c1). pose proof (b2sz_range b2). pose proof (b2sz_range c2).
    rewrite !tail_sum3 in E. apply u32_cancel in E; [|lia].
    by rewrite (b2sz_inj b0 c0), (b2sz_inj b1 c1), (b2sz_inj b2 c2) by lia.
Qed.

Lemma le_dec_inj a b : length a = length b -> le_dec a = le_dec b -> a = b.
Proof. intros Hl E. rewrite <- (le_enc_dec a), <- (le_enc_dec b), Hl, E. done. Qed.

(** Two inputs that differ in one aligned word, or only in the bytes behind the last
    whole word, hash differently. *)
Theorem Hash_detects_word `{Host} pre a a' post seed :
  zlen pre mod 4 = 0 -> length a = length a' -> a <> a' ->
  (length a = 4%nat \/ ((length a < 4)%nat /\ post = [])) ->
  Hash (pre ++ a ++ post) seed <> Hash (pre ++ a' ++ post) seed.
Proof.
  intros Hpre Hl Hne Hcase E. unfold Hash in E.
  assert (zlen (pre ++ a' ++ post) = zlen (pre ++ a ++ post)) as Hz by (unfold zlen; rewrite !length_app, Hl; done).
  rewrite Hz in E. pose proof (u32_word (Z.lxor seed (u64 (zlen (pre ++ a ++ post) * hash_m)))) as Hw.
  revert E Hw. clear Hz. generalize (u32 (Z.lxor seed (u64 (zlen (pre ++ a ++ post) * hash_m)))).
  revert Hpre. induction pre as [l Hs|b0 b1 b2 b3 l IH] using words_ind; intros Hpre z E Hw.
  - destruct l as [|? l]; [|unfold zlen in Hpre; simpl in *; dlia]. simpl in E. apply Hne.
    destruct Hcase as [H4|[H3 ->]].
    + destruct a as [|a0 [|a1 [|a2 [|a3 [|]]]]], a' as [|c0 [|c1 [|c2 [|c3 [|]]]]]; try done. simpl in E.
      apply hash_loop_inj in E; [|apply hash_step_word; lia..]. apply hash_step_inj in E; [|lia].
      apply le_dec_inj; [done|]. rewrite !(Z.add_comm z) in E.
      pose proof (DecodeFixed32_le [a0; a1; a2; a3] ltac:(done)) as D1. pose proof (DecodeFixed32_le [c0; c1; c2; c3] ltac:(done)) as D2.
      pose proof (DecodeFixed32_range [a0; a1; a2; a3] ltac:(done)). pose proof (DecodeFixed32_range [c0; c1; c2; c3] ltac:(done)).
      apply add_inj in E; [|done..]. rewrite D1, D2 in E. exact E.
    + rewrite !app_nil_r, !hash_loop_short in E by lia. by apply hash_tail_data_inj in E.
  - simpl in E. apply (IH ltac:(unfold zlen in *; simpl in *; dlia)) in E; [done|]. apply hash_step_word. lia.
Qed.

Lemma Hash_detects_word_witness :
  Hash (H := le_host) (str "abcd" ++ str "efgh" ++ str "i") 0 <> Hash (H := le_host) (str "abcd" ++ str "efGh" ++ str "i") 0.
Proof. apply (Hash_detects_word (H := le_host)); [done|done|done|by left]. Defined.
