(* ===== verification/Autovector.v ===== *)
(** * Autovector ([rutil/autovector.h])

    A vector whose first [kSize] items live in an array of the object and the others in a
    [std::vector]. [autovector_refines] shows that it behaves as one sequence. *)

From stdpp Require Import list.
From S2P Require Import Prelude.

Section autovector.
Context {T : Type} (kSize : Z) (dflt : T).

(** ** The code

    [values_] has [kSize] items from the start; [dflt] is the value-initialised item that
    [std::vector::resize] appends, and [has_capacity_] says that [vect_.capacity()] is not
    zero: it stays so once an item has been in [vect_]. *)
Record autovector : Type := mkVector {
  num_stack_items_ : Z;
  values_ : list T;
  vect_ : list T;
  has_capacity_ : bool;
}.

(** [autovector() = default], with the items that [values_] starts with. *)
Definition autovector_new (values0 : list T) : autovector := mkVector 0 values0 [] false.

Definition only_in_stack (v : autovector) : bool := negb (has_capacity_ v).
Definition size (v : autovector) : Z := u64 (num_stack_items_ v + zlen (vect_ v)).
Definition empty (v : autovector) : bool := size v =? 0.

(** [std::vector::resize(n)] *)
Definition vector_resize (l : list T) (n : Z) : list T := ztake n l ++ zrep (n - zlen l) dflt.

Definition resize (v : autovector) (n : Z) : autovector :=
  if kSize <? n then
    mkVector kSize (values_ v) (vector_resize (vect_ v) (n - kSize)) true
  else mkVector n (values_ v) [] (has_capacity_ v).

(** Reading or writing an array outside its bounds is undefined. *)
Definition item (l : list T) (i : Z) : outcome T :=
  match l !! Z.to_nat i with Some x => Ret x | None => Undef end.
Definition set_item (l : list T) (i : Z) (x : T) : outcome (list T) :=
  if i <? zlen l then Ret (<[Z.to_nat i := x]> l) else Undef.

Definition get_index (v : autovector) (n : Z) : outcome T :=
  _ ← assert_that (n <? size v);
  if n <? kSize then item (values_ v) n else item (vect_ v) (n - kSize).
(** An assignment through the reference that [operator[]] returns. *)
Definition set_index (v : autovector) (n : Z) (x : T) : outcome autovector :=
  _ ← assert_that (n <? size v);
  if n <? kSize then
    l ← set_item (values_ v) n x; Ret (mkVector (num_stack_items_ v) l (vect_ v) (has_capacity_ v))
  else
    l ← set_item (vect_ v) (n - kSize) x; Ret (mkVector (num_stack_items_ v) (values_ v) l (has_capacity_ v)).
Definition at_index (v : autovector) (n : Z) : outcome T :=
  _ ← assert_that (n <? size v); get_index v n.

Definition push_back (v : autovector) (x : T) : outcome autovector :=
  if num_stack_items_ v <? kSize then
    l ← set_item (values_ v) (num_stack_items_ v) x;
    Ret (mkVector (u64 (num_stack_items_ v + 1)) l (vect_ v) (has_capacity_ v))
  else Ret (mkVector (num_stack_items_ v) (values_ v) (vect_ v ++ [x]) true).

(** [autovector(std::initializer_list<T>)] *)
Fixpoint push_all (v : autovector) (l : list T) : outcome autovector :=
  match l with [] => Ret v | x :: l' => v ← push_back v x; push_all v l' end.
Definition autovector_init (values0 : list T) (init_list : list T) : outcome autovector :=
  push_all (autovector_new values0) init_list.

Definition pop_back (v : autovector) : outcome autovector :=
  _ ← assert_that (negb (empty v));
  if negb (zlen (vect_ v) =? 0) then
    Ret (mkVector (num_stack_items_ v) (values_ v) (ztake (zlen (vect_ v) - 1) (vect_ v)) (has_capacity_ v))
  else Ret (mkVector (u64 (num_stack_items_ v - 1)) (values_ v) (vect_ v) (has_capacity_ v)).

Definition clear (v : autovector) : autovector := mkVector 0 (values_ v) [] (has_capacity_ v).

(** [other] is another object ([vect_.assign] of a part of the same vector is undefined).
    [vect_.assign] allocates when it has to hold an item; [std::copy] overwrites a prefix
    of the array. *)
Definition assign (v other : autovector) : outcome autovector :=
  if num_stack_items_ other <=? zlen (values_ v) then
    Ret (mkVector (num_stack_items_ other)
      (ztake (num_stack_items_ other) (values_ other) ++ zdrop (num_stack_items_ other) (values_ v))
      (vect_ other) (has_capacity_ v || negb (zlen (vect_ other) =? 0)))
  else Undef.

(** The copy constructor, and [emplace_back] of an item that has been constructed. *)
Definition autovector_copy (values0 : list T) (other : autovector) : outcome autovector := assign (autovector_new values0) other.
Definition emplace_back (v : autovector) (x : T) : outcome autovector := push_back v x.

(** ** Iterators *)

(** An iterator has the address of its vector and an index. *)
Record iterator : Type := mkIterator { it_vect : Z; it_index : Z }.

Definition it_begin (a : Z) : iterator := mkIterator a 0.
Definition it_end (a : Z) (v : autovector) : iterator := mkIterator a (size v).
Definition it_next (i : iterator) : iterator := mkIterator (it_vect i) (u64 (it_index i + 1)).
Definition it_prev (i : iterator) : iterator := mkIterator (it_vect i) (u64 (it_index i - 1)).
Definition it_plus (i : iterator) (n : Z) : iterator := mkIterator (it_vect i) (u64 (it_index i + n)).
Definition it_minus (i : iterator) (n : Z) : iterator := mkIterator (it_vect i) (u64 (it_index i - n)).
Definition it_diff (i j : iterator) : outcome Z :=
  _ ← assert_that (it_vect i =? it_vect j); Ret (swrap 64 (it_index i - it_index j)).
Definition it_eq (i j : iterator) : outcome bool :=
  _ ← assert_that (it_vect i =? it_vect j); Ret (it_index i =? it_index j).
Definition it_ne (i j : iterator) : outcome bool := b ← it_eq i j; Ret (negb b).
Definition it_lt (i j : iterator) : outcome bool :=
  _ ← assert_that (it_vect i =? it_vect j); Ret (it_index i <? it_index j).
Definition it_le (i j : iterator) : outcome bool :=
  _ ← assert_that (it_vect i =? it_vect j); Ret (it_index i <=? it_index j).
Definition it_gt (i j : iterator) : outcome bool := it_lt j i.
Definition it_ge (i j : iterator) : outcome bool := it_le j i.

(** [*it], for an iterator of [v]. *)
Definition it_deref (v : autovector) (i : iterator) : outcome T :=
  _ ← assert_that (it_index i <=? size v); get_index v (it_index i).

Definition front (v : autovector) : outcome T :=
  _ ← assert_that (negb (empty v)); it_deref v (it_begin 0).
Definition back (v : autovector) : outcome T :=
  _ ← assert_that (negb (empty v)); it_deref v (it_minus (it_end 0 v) 1).

(** A reverse iterator stands one behind the item it refers to. *)
Definition rbegin (a : Z) (v : autovector) : iterator := it_end a v.
Definition rend (a : Z) : iterator := it_begin a.
Definition rit_deref (v : autovector) (i : iterator) : outcome T := it_deref v (it_prev i).

(** [for (auto x : v)] and the same with [rbegin] and [rend]: the items in the order of
    the turns. *)
Fixpoint traverse_loop (fuel : nat) (deref : autovector -> iterator -> outcome T) (step : iterator -> iterator)
    (v : autovector) (i e : iterator) : outcome (list T) :=
  match fuel with
  | O => NoFuel
  | S fuel' =>
      more ← it_ne i e;
      if more : bool then x ← deref v i; l ← traverse_loop fuel' deref step v (step i) e; Ret (x :: l)
      else Ret []
  end.
Definition traverse (v : autovector) : outcome (list T) :=
  traverse_loop (S (Z.to_nat (size v))) it_deref it_next v (it_begin 0) (it_end 0 v).
Definition rtraverse (v : autovector) : outcome (list T) :=
  traverse_loop (S (Z.to_nat (size v))) rit_deref it_prev v (rbegin 0 v) (rend 0).

(** ** The sequence that a vector holds *)

Definition contents (v : autovector) : list T := ztake (num_stack_items_ v) (values_ v) ++ vect_ v.

(** Items are in [vect_] only when the array is full. *)
Record wf (v : autovector) : Prop := {
  wf_array : zlen (values_ v) = kSize;
  wf_num : 0 <= num_stack_items_ v <= kSize;
  wf_full : vect_ v <> [] -> num_stack_items_ v = kSize;
  wf_size : num_stack_items_ v + zlen (vect_ v) < 2 ^ 63;
  wf_capacity : has_capacity_ v = false -> vect_ v = [];
}.

Lemma zlen_contents v : wf v -> zlen (contents v) = num_stack_items_ v + zlen (vect_ v).
Proof. intros [Ha Hn _ _ _]. unfold contents. rewrite zlen_app, zlen_ztake by lia. lia. Qed.

Lemma size_eq v : wf v -> size v = zlen (contents v).
Proof.
  intros Hw. rewrite zlen_contents by done. destruct Hw as [_ Hn _ Hs _]. pose proof (zlen_nonneg (vect_ v)).
  unfold size. apply u64_small. change (2 ^ 63) with 9223372036854775808 in Hs. lia.
Qed.

Lemma empty_eq v : wf v -> empty v = true <-> contents v = [].
Proof.
  intros Hw. unfold empty. rewrite size_eq by done. split.
  - intros E. apply zlen_zero. lia.
  - by intros ->.
Qed.

Lemma item_eq (l : list T) i x : l !! Z.to_nat i = Some x -> item l i = Ret x.
Proof. unfold item. by intros ->. Qed.

Lemma get_index_eq v n x : wf v -> 0 <= n -> contents v !! Z.to_nat n = Some x -> get_index v n = Ret x.
Proof.
  intros Hw Hn Hx. pose proof (zlen_contents v Hw) as Hlen. unfold get_index. rewrite size_eq by done.
  assert (n < zlen (contents v)) as Hlt by (apply lookup_lt_Some in Hx; unfold zlen; lia).
  rewrite assert_true by lia. destruct Hw as [Ha Hnum Hfull _ _]. unfold contents in Hx.
  assert (length (ztake (num_stack_items_ v) (values_ v)) = Z.to_nat (num_stack_items_ v)) as Hl.
  { unfold ztake. rewrite length_take. unfold zlen in Ha. lia. }
  destruct (Z.ltb_spec n kSize) as [Hk|Hk].
  - apply item_eq. rewrite lookup_app in Hx. destruct (ztake _ _ !! _) as [y|] eqn:Ey.
    + unfold ztake in Ey. apply lookup_take_Some in Ey as [Ey _]. by simplify_eq.
    + assert (vect_ v <> []) as Hv by (intros Hv; by rewrite Hv in Hx). rewrite (Hfull Hv) in *.
      apply lookup_ge_None in Ey. rewrite Hl in Ey. lia.
  - rewrite lookup_app_r in Hx by (rewrite Hl; lia). apply item_eq. rewrite Hl in Hx.
    assert (vect_ v <> []) as Hv by (intros Hv; by rewrite Hv in Hx). rewrite (Hfull Hv) in Hx.
    rewrite <- Hx. f_equal. lia.
Qed.

Lemma traverse_loop_eq v fuel n :
  wf v -> 0 <= n <= zlen (contents v) -> (Z.to_nat (zlen (contents v) - n) < fuel)%nat ->
  traverse_loop fuel it_deref it_next v (mkIterator 0 n) (it_end 0 v) = Ret (zdrop n (contents v)).
Proof.
  intros Hw. revert n. induction fuel as [|fuel IH]; intros n Hn Hf; [lia|]. cbn [traverse_loop].
  unfold it_ne, it_eq. cbn. rewrite size_eq by done. destruct (Z.eqb_spec n (zlen (contents v))) as [->|Hne]; cbn.
  - by rewrite zdrop_ge.
  - pose proof (wf_size v Hw) as Hs. change (2 ^ 63) with 9223372036854775808 in Hs.
    pose proof (zlen_contents v Hw). destruct (lookup_lt_is_Some_2 (contents v) (Z.to_nat n)) as [x Hx]; [unfold zlen in *; lia|].
    unfold it_deref. cbn. rewrite size_eq by done. rewrite assert_true by lia.
    rewrite (get_index_eq v n x) by (done || lia). bret. unfold it_next. cbn. rewrite u64_small by lia.
    rewrite IH by lia. bret. f_equal. unfold zdrop. rewrite (drop_S _ _ _ Hx). do 2 f_equal. lia.
Qed.

(** The loop over a vector visits its sequence. *)
Lemma traverse_eq v : wf v -> traverse v = Ret (contents v).
Proof.
  intros Hw. unfold traverse. rewrite size_eq by done. pose proof (zlen_nonneg (contents v)).
  by rewrite (traverse_loop_eq v _ 0) by (done || lia).
Qed.

Lemma rtraverse_loop_eq v fuel n :
  wf v -> 0 <= n <= zlen (contents v) -> (Z.to_nat n < fuel)%nat ->
  traverse_loop fuel rit_deref it_prev v (mkIterator 0 n) (rend 0) = Ret (reverse (ztake n (contents v))).
Proof.
  intros Hw. revert n. induction fuel as [|fuel IH]; intros n Hn Hf; [lia|]. cbn [traverse_loop].
  unfold it_ne, it_eq. cbn. destruct (Z.eqb_spec n 0) as [->|Hne]; [done|]. cbn.
  pose proof (wf_size v Hw) as Hs. change (2 ^ 63) with 9223372036854775808 in Hs.
  pose proof (zlen_contents v Hw). destruct (lookup_lt_is_Some_2 (contents v) (Z.to_nat (n - 1))) as [x Hx]; [unfold zlen in *; lia|].
  unfold rit_deref, it_deref, it_prev. cbn. rewrite u64_small by lia. rewrite size_eq by done. rewrite assert_true by lia.
  rewrite (get_index_eq v (n - 1) x) by (done || lia). bret. rewrite IH by lia. bret.
  unfold ztake. replace (Z.to_nat n) with (S (Z.to_nat (n - 1))) by lia. by rewrite (take_S_r _ _ _ Hx), reverse_snoc.
Qed.

Lemma rtraverse_eq v : wf v -> rtraverse v = Ret (reverse (contents v)).
Proof.
  intros Hw. unfold rtraverse, rbegin, it_end. rewrite size_eq by done. pose proof (zlen_nonneg (contents v)).
  by rewrite (rtraverse_loop_eq v), ztake_ge by (done || lia).
Qed.

(** ** Refinement of a sequence *)

Inductive op : Type :=
| Push (x : T) | Pop | Clear | Resize (n : Z) | Store (n : Z) (x : T) | Assign (other : autovector)
| Size | Get (n : Z) | At (n : Z) | Front | Back | Items | ItemsBackwards.

Inductive answer : Type := Done | Item (x : T) | Number (n : Z) | List (l : list T).

Definition step (o : op) (v : autovector) : outcome (answer * autovector) :=
  match o with
  | Push x => v' ← push_back v x; Ret (Done, v')
  | Pop => v' ← pop_back v; Ret (Done, v')
  | Clear => Ret (Done, clear v)
  | Resize n => Ret (Done, resize v n)
  | Store n x => v' ← set_index v n x; Ret (Done, v')
  | Assign other => v' ← assign v other; Ret (Done, v')
  | Size => Ret (Number (size v), v)
  | Get n => x ← get_index v n; Ret (Item x, v)
  | At n => x ← at_index v n; Ret (Item x, v)
  | Front => x ← front v; Ret (Item x, v)
  | Back => x ← back v; Ret (Item x, v)
  | Items => l ← traverse v; Ret (List l, v)
  | ItemsBackwards => l ← rtraverse v; Ret (List l, v)
  end.

(** The same operations on a sequence; [None] is a failed assertion. The items that
    [resize] adds are not specified: [fill] are those that appear. *)
Definition spec (o : op) (fill : list T) (l : list T) : option (answer * list T) :=
  match o with
  | Push x => Some (Done, l ++ [x])
  | Pop => match l with [] => None | _ => Some (Done, removelast l) end
  | Clear => Some (Done, [])
  | Resize n => Some (Done, ztake n l ++ fill)
  | Store n x => if n <? zlen l then Some (Done, <[Z.to_nat n := x]> l) else None
  | Assign other => Some (Done, contents other)
  | Size => Some (Number (zlen l), l)
  | Get n | At n => x ← l !! Z.to_nat n; Some (Item x, l)
  | Front => x ← list.head l; Some (Item x, l)
  | Back => x ← list.last l; Some (Item x, l)
  | Items => Some (List l, l)
  | ItemsBackwards => Some (List (reverse l), l)
  end.

(** Arguments are [size_t] values and no vector becomes larger than memory. *)
Definition valid (o : op) (v : autovector) : Prop :=
  match o with
  | Push _ => zlen (contents v) + 1 < 2 ^ 63
  | Resize n => 0 <= n < 2 ^ 63
  | Store n _ | Get n | At n => 0 <= n
  | Assign other => wf other
  | _ => True
  end.

Lemma push_back_spec v x : wf v -> zlen (contents v) + 1 < 2 ^ 63 ->
  exists v', push_back v x = Ret v' /\ wf v' /\ contents v' = contents v ++ [x].
Proof.
  intros Hw Hs. rewrite zlen_contents in Hs by done. destruct Hw as [Ha Hn Hf Hsz Hc]. unfold push_back, contents.
  destruct (Z.ltb_spec (num_stack_items_ v) kSize) as [Hk|Hk].
  - assert (vect_ v = []) as Hv by (destruct (vect_ v); [done|]; specialize (Hf ltac:(done)); lia). rewrite Hv in *.
    unfold set_item. replace (num_stack_items_ v <? zlen (values_ v)) with true by lia. bret. eexists. split; [reflexivity|].
    change (2 ^ 63) with 9223372036854775808 in *. pose proof (zlen_nil (A := T)). rewrite u64_small by lia. split.
    + constructor; simpl; try done; try lia. by rewrite <- Ha; unfold zlen; rewrite length_insert.
    + simpl. rewrite !app_nil_r. unfold ztake. replace (Z.to_nat (num_stack_items_ v + 1)) with (S (Z.to_nat (num_stack_items_ v))) by lia.
      rewrite (take_S_r _ _ x) by (apply list_lookup_insert_eq; unfold zlen in Ha; lia). by rewrite take_insert_ge.
  - eexists. split; [reflexivity|]. split.
    + constructor; simpl; try done; try lia. rewrite zlen_app, zlen_cons, zlen_nil. lia.
    + simpl. by rewrite app_assoc.
Qed.

Lemma pop_back_spec v : wf v -> contents v <> [] ->
  exists v', pop_back v = Ret v' /\ wf v' /\ contents v' = removelast (contents v).
Proof.
  intros Hw Hne. unfold pop_back. rewrite assert_true by (pose proof (empty_eq v Hw); destruct (empty v); [by destruct Hne; apply H|done]).
  destruct Hw as [Ha Hn Hf Hsz Hc]. unfold contents in *. destruct (Z.eqb_spec (zlen (vect_ v)) 0) as [Hv|Hv]; simpl.
  - apply zlen_zero in Hv. rewrite Hv in *. rewrite !app_nil_r in *. assert (num_stack_items_ v <> 0) by (intros E; by rewrite E in Hne).
    change (2 ^ 63) with 9223372036854775808 in *. pose proof (zlen_nil (A := T)). rewrite u64_small by lia. eexists. split; [reflexivity|]. split.
    + constructor; simpl; try done; lia.
    + simpl. rewrite app_nil_r. unfold ztake. unfold zlen in Ha. rewrite removelast_firstn_len, length_take.
      rewrite take_take. f_equal. lia.
  - eexists. split; [reflexivity|]. assert (vect_ v <> []) as Hvn by (by intros E; rewrite E in Hv). split.
    + constructor; simpl; try done; try (intros; by apply Hf); pose proof (zlen_nonneg (vect_ v)).
      * rewrite zlen_ztake by lia. lia.
      * intros E. by rewrite (Hc E) in Hv.
    + simpl. rewrite removelast_app by done. f_equal. rewrite removelast_firstn_len. unfold ztake, zlen. f_equal. lia.
Qed.

Lemma zlen_vector_resize (l : list T) n : 0 <= n -> zlen (vector_resize l n) = n.
Proof.
  intros Hn. unfold vector_resize. rewrite zlen_app, zlen_ztake by done. pose proof (zlen_nonneg l).
  destruct (Z.le_gt_cases n (zlen l)); [|rewrite zlen_zrep by lia; lia].
  unfold zrep. replace (Z.to_nat (n - zlen l)) with 0%nat by lia. simpl. rewrite zlen_nil. lia.
Qed.

Lemma resize_wf v n : wf v -> 0 <= n < 2 ^ 63 -> wf (resize v n).
Proof.
  intros [Ha Hnum Hf Hsz Hc] Hn. unfold resize.
  destruct (Z.ltb_spec kSize n); constructor; simpl; rewrite ?zlen_nil, ?zlen_vector_resize by lia; try done; lia.
Qed.

Lemma resize_spec v n : wf v -> 0 <= n < 2 ^ 63 ->
  zlen (contents (resize v n)) = n /\ exists fill, contents (resize v n) = ztake n (contents v) ++ fill.
Proof.
  intros Hw Hn. pose proof (resize_wf v n Hw Hn) as Hw'. rewrite zlen_contents by done. revert Hw'.
  destruct Hw as [Ha Hnum Hf Hsz Hc]. unfold resize, contents. destruct (Z.ltb_spec kSize n) as [Hk|Hk]; simpl; intros Hw'.
  - rewrite zlen_vector_resize by lia. split; [lia|]. unfold vector_resize. destruct (vect_ v) as [|y l] eqn:Ev.
    + exists (zdrop (num_stack_items_ v) (values_ v) ++ zrep (n - kSize - 0) dflt).
      rewrite ztake_nil, zlen_nil, app_nil_l, app_nil_r, (ztake_ge n) by (rewrite zlen_ztake by lia; lia).
      by rewrite app_assoc, ztake_zdrop, (ztake_ge kSize) by lia.
    + rewrite (Hf ltac:(done)). eexists. rewrite ztake_app, app_assoc by lia. do 2 f_equal.
      * rewrite ztake_ztake. f_equal. lia.
      * rewrite zlen_ztake by lia. f_equal. lia.
  - rewrite zlen_nil, app_nil_r. split; [lia|]. destruct (Z.le_gt_cases n (num_stack_items_ v)) as [Hle|Hgt].
    + exists []. rewrite app_nil_r, ztake_app by lia. rewrite ztake_ztake, zlen_ztake by lia.
      replace (Z.min n (num_stack_items_ v)) with n by lia. rewrite (ztake_neg (n - _)) by lia. by rewrite app_nil_r.
    + assert (vect_ v = []) as -> by (destruct (vect_ v); [done|]; specialize (Hf ltac:(done)); lia).
      exists (ztake (n - num_stack_items_ v) (zdrop (num_stack_items_ v) (values_ v))).
      rewrite app_nil_r, (ztake_ge n (ztake _ _)) by (rewrite zlen_ztake by lia; lia).
      rewrite <- ztake_zdrop_split by lia. f_equal. lia.
Qed.

Lemma set_index_spec v n x : wf v -> 0 <= n < zlen (contents v) ->
  exists v', set_index v n x = Ret v' /\ wf v' /\ contents v' = <[Z.to_nat n := x]> (contents v).
Proof.
  intros Hw Hn. unfold set_index. rewrite size_eq, assert_true by (done || lia). rewrite zlen_contents in Hn by done.
  destruct Hw as [Ha Hnum Hf Hsz Hc]. unfold contents, set_item.
  assert (forall l : list T, zlen (<[Z.to_nat n := x]> l) = zlen l) as Hli by (intros; unfold zlen; by rewrite length_insert).
  destruct (Z.ltb_spec n kSize) as [Hk|Hk].
  - replace (n <? zlen (values_ v)) with true by lia. bret. eexists. split; [reflexivity|]. split.
    + constructor; simpl; try done. by rewrite Hli.
    + simpl. assert (n < num_stack_items_ v) by (pose proof (zlen_nil (A := T)); destruct (vect_ v) eqn:Ev; [lia|by rewrite (Hf ltac:(done))]).
      unfold ztake. rewrite insert_app_l by (rewrite length_take; unfold zlen in Ha; lia). f_equal. by rewrite take_insert_lt by lia.
  - assert (vect_ v <> []) as Hv by (pose proof (zlen_nil (A := T)); intros E; rewrite E in Hn; lia). rewrite (Hf Hv) in *.
    replace (n - kSize <? zlen (vect_ v)) with true by lia. bret. eexists. split; [reflexivity|]. split.
    + constructor; simpl; try done; try lia; unfold zlen in *; rewrite ?length_insert; try lia.
      intros E. by destruct Hv; apply Hc.
    + simpl. rewrite insert_app_r_alt by (unfold ztake; rewrite length_take; unfold zlen in Ha; lia). do 2 f_equal.
      unfold ztake. rewrite length_take. unfold zlen in Ha. lia.
Qed.

Lemma assign_spec v other : wf v -> wf other ->
  exists v', assign v other = Ret v' /\ wf v' /\ contents v' = contents other.
Proof.
  intros [Ha _ _ _ Hc] [Ha' Hn' Hf' Hsz' Hc']. unfold assign, contents. replace (_ <=? _) with true by lia.
  eexists. split; [reflexivity|]. split.
  - constructor; simpl; try done.
    + rewrite zlen_app, zlen_ztake, zlen_zdrop by lia. lia.
    + intros E. apply orb_false_iff in E as [_ E]. apply zlen_zero. lia.
  - simpl. rewrite ztake_app by lia. rewrite ztake_ztake, zlen_ztake by lia.
    replace (Z.min _ _) with (num_stack_items_ other) by lia. rewrite (ztake_neg (_ - _)) by lia. by rewrite app_nil_r.
Qed.

Lemma get_index_fails v n : wf v -> zlen (contents v) <= n -> get_index v n = AssertFail.
Proof. intros Hw Hn. unfold get_index. rewrite size_eq by done. by replace (n <? zlen (contents v)) with false by lia. Qed.
Lemma nonempty v : wf v -> contents v <> [] -> negb (empty v) = true.
Proof. intros Hw Hne. destruct (empty v) eqn:E; [|done]. by apply empty_eq in E. Qed.

Lemma get_index_cases v n : wf v -> 0 <= n ->
  get_index v n = match contents v !! Z.to_nat n with Some x => Ret x | None => AssertFail end.
Proof.
  intros Hw Hn. destruct (_ !! _) as [x|] eqn:Hx; [by apply get_index_eq|].
  apply get_index_fails; [done|]. apply lookup_ge_None in Hx. unfold zlen. lia.
Qed.

Lemma at_index_eq v n : wf v -> at_index v n = get_index v n.
Proof. intros Hw. unfold at_index, get_index. by destruct (n <? size v). Qed.

Lemma front_eq v : wf v -> front v = match list.head (contents v) with Some x => Ret x | None => AssertFail end.
Proof.
  intros Hw. pose proof (zlen_nonneg (contents v)). unfold front. destruct (contents v) as [|x l] eqn:E.
  - by rewrite (proj2 (empty_eq v Hw) E).
  - rewrite assert_true by (apply nonempty; [done|by rewrite E]). unfold it_deref, it_begin. cbn.
    rewrite size_eq by done. rewrite assert_true by (rewrite E; lia). by rewrite get_index_cases, E by (done || lia).
Qed.

Lemma back_eq v : wf v -> back v = match list.last (contents v) with Some x => Ret x | None => AssertFail end.
Proof.
  intros Hw. pose proof (zlen_nonneg (contents v)). pose proof (zlen_contents v Hw). pose proof (wf_size v Hw) as Hs.
  change (2 ^ 63) with 9223372036854775808 in Hs. unfold back. destruct (contents v) as [|x l] eqn:E using rev_ind.
  - by rewrite (proj2 (empty_eq v Hw) E).
  - clear IHl. rewrite assert_true by (apply nonempty; [done|rewrite E; by destruct l]). unfold it_deref, it_minus, it_end. cbn.
    rewrite size_eq by done. rewrite E, zlen_app, zlen_cons, zlen_nil in *. pose proof (zlen_nonneg l).
    rewrite u64_small, assert_true by lia. rewrite get_index_cases, E, last_snoc by (done || lia).
    by replace (Z.to_nat (zlen l + (1 + 0) - 1)) with (length l) by (unfold zlen; lia); rewrite list_lookup_middle.
Qed.

(** C25: an autovector is a sequence. Every operation returns what the same operation on
    [contents] returns and leaves [contents] as it leaves the sequence, or fails an
    assertion when the index is out of range or the sequence empty; after [resize] the
    items that were there are kept. *)
Theorem autovector_refines o v :
  wf v -> valid o v ->
  exists fill, match spec o fill (contents v) with
  | Some (r, l') => exists v', step o v = Ret (r, v') /\ wf v' /\ contents v' = l' /\
      (forall n, o = Resize n -> zlen l' = n)
  | None => step o v = AssertFail
  end.
Proof.
  intros Hw Hv. destruct o; simpl in Hv |- *.
  - exists []. destruct (push_back_spec v x Hw Hv) as (v' & -> & Hw' & E). by exists v'.
  - exists []. destruct (contents v) as [|y l] eqn:E.
    + unfold pop_back. by rewrite (proj2 (empty_eq v Hw) E).
    + destruct (pop_back_spec v Hw) as (v' & -> & Hw' & E'); [by rewrite E|]. rewrite E in E'. by exists v'.
  - exists []. eexists. split; [reflexivity|]. split; [|done]. destruct Hw as [Ha Hn _ _ Hc]. constructor; simpl; try done; try lia.
  - destruct (resize_spec v n Hw Hv) as [Hl [fill E]]. exists fill, (resize v n). split; [done|]. split; [by apply resize_wf|].
    split; [done|]. intros m [= <-]. by rewrite <- E.
  - exists []. destruct (Z.ltb_spec n (zlen (contents v))) as [Hn|Hn].
    + destruct (set_index_spec v n x Hw ltac:(lia)) as (v' & -> & Hw' & E). by exists v'.
    + unfold set_index. rewrite size_eq by done. by replace (n <? zlen (contents v)) with false by lia.
  - exists []. destruct (assign_spec v other Hw Hv) as (v' & -> & Hw' & E). by exists v'.
  - exists [], v. by rewrite size_eq.
  - exists []. rewrite get_index_cases by done. destruct (_ !! _) as [y|]; simpl; [by exists v|done].
  - exists []. rewrite at_index_eq, get_index_cases by done. destruct (_ !! _) as [y|]; simpl; [by exists v|done].
  - exists []. rewrite front_eq by done. destruct (list.head _) as [y|]; simpl; [by exists v|done].
  - exists []. rewrite back_eq by done. destruct (list.last _) as [y|]; simpl; [by exists v|done].
  - exists [], v. by rewrite traverse_eq.
  - exists [], v. by rewrite rtraverse_eq.
Qed.
End autovector.

(** A full array of two items and a third one in the vector. *)
Lemma autovector_refines_witness : let v := mkVector 2 [1; 2] [3] true in
  exists v', step 2 0 (Push 4) v = Ret (Done, v') /\ contents v' = [1; 2; 3; 4].
Proof.
  intros v. destruct (autovector_refines 2 0 (Push 4) v) as (fill & v' & E & _ & Hc & _).
  - by constructor; vm_compute.
  - vm_compute. done.
  - by exists v'.
Defined.
