(* ===== verification/AlignedBuffer.v ===== *)
(** * AlignedBuffer ([rutil/aligned_buffer.h])

    A buffer for unbuffered I/O: a memory block with an aligned start inside it. Addresses
    are numbers; a block is its address and its bytes. *)

From Stdlib Require Import Strings.Byte Strings.String.
From stdpp Require Import list.
From S2P Require Import Prelude.

(** ** The code *)

Definition TruncateToPageBoundary (page_size s : Z) : outcome Z :=
  let s := u64 (s - Z.land s (u64 (page_size - 1))) in
  _ ← assert_that (s mod page_size =? 0);
  Ret s.

Definition Roundup (x y : Z) : Z := u64 (u64 (u64 (x + y) - 1) `div` y * y).

Record AlignedBuffer : Type := mkBuffer {
  alignment_ : Z;
  buf_addr : Z;
  buf_ : list byte;
  capacity_ : Z;
  cursize_ : Z;
  bufstart_ : Z;
}.

Definition AlignedBuffer_new : AlignedBuffer := mkBuffer 0 0 [] 0 0 0.

Definition Capacity := capacity_.
Definition CurrentSize := cursize_.
Definition BufferStart := bufstart_.
Definition Clear (b : AlignedBuffer) : AlignedBuffer :=
  mkBuffer (alignment_ b) (buf_addr b) (buf_ b) (capacity_ b) 0 (bufstart_ b).
Definition Size (b : AlignedBuffer) (cursize : Z) : AlignedBuffer :=
  mkBuffer (alignment_ b) (buf_addr b) (buf_ b) (capacity_ b) cursize (bufstart_ b).
Definition Destination (b : AlignedBuffer) : Z := bufstart_ b + cursize_ b.

(** [a > 0] and [a & (a - 1)] is zero. *)
Definition power_of_two (a : Z) : bool := (0 <? a) && (Z.land a (a - 1) =? 0).

Definition Alignment (b : AlignedBuffer) (alignment : Z) : outcome AlignedBuffer :=
  _ ← assert_that (power_of_two alignment);
  Ret (mkBuffer alignment (buf_addr b) (buf_ b) (capacity_ b) (cursize_ b) (bufstart_ b)).

(** [new char[n]] returns the block [new_chars n]: its address, and its bytes, which are
    not initialised. *)
Definition AllocateNewBuffer (new_chars : Z -> Z * list byte) (b : AlignedBuffer) (requestedCapacity : Z)
  : outcome AlignedBuffer :=
  _ ← assert_that (power_of_two (alignment_ b));
  let size := Roundup requestedCapacity (alignment_ b) in
  let '(p, bytes) := new_chars (u64 (size + alignment_ b)) in
  let start := Z.land (u64 (p + (alignment_ b - 1))) (u64 (Z.lnot (alignment_ b - 1))) in
  Ret (mkBuffer (alignment_ b) p bytes size 0 start).

(** [memcpy] to and from the block, at the address [at] ; outside it they are undefined. *)
Definition write_at (b : AlignedBuffer) (a : Z) (l : list byte) : outcome AlignedBuffer :=
  let i := a - buf_addr b in
  if (0 <=? i) && (i + zlen l <=? zlen (buf_ b)) then
    Ret (mkBuffer (alignment_ b) (buf_addr b)
      (ztake i (buf_ b) ++ l ++ zdrop (i + zlen l) (buf_ b)) (capacity_ b) (cursize_ b) (bufstart_ b))
  else Undef.
Definition read_at (b : AlignedBuffer) (a n : Z) : outcome (list byte) :=
  let i := a - buf_addr b in
  if (0 <=? i) && (i + n <=? zlen (buf_ b)) then Ret (ztake n (zdrop i (buf_ b))) else Undef.

(** [Append(src, append_size)] where [src] has that many bytes. *)
Definition Append (b : AlignedBuffer) (src : list byte) : outcome (Z * AlignedBuffer) :=
  let buffer_remaining := u64 (capacity_ b - cursize_ b) in
  let to_copy := Z.min (zlen src) buffer_remaining in
  if 0 <? to_copy then
    b ← write_at b (bufstart_ b + cursize_ b) (ztake to_copy src);
    Ret (to_copy, Size b (u64 (cursize_ b + to_copy)))
  else Ret (to_copy, b).

(** [Read]; the bytes stored in [dest]. *)
Definition Read (b : AlignedBuffer) (offset read_size : Z) : outcome (list byte) :=
  _ ← assert_that (offset <? cursize_ b);
  let to_read := Z.min (u64 (cursize_ b - offset)) read_size in
  if 0 <? to_read then read_at b (bufstart_ b + offset) to_read else Ret [].

Definition PadToAlignmentWith (b : AlignedBuffer) (padding : Z) : outcome AlignedBuffer :=
  let total_size := Roundup (cursize_ b) (alignment_ b) in
  let pad_size := u64 (total_size - cursize_ b) in
  if 0 <? pad_size then
    _ ← assert_that (u64 (pad_size + cursize_ b) <=? capacity_ b);
    b ← write_at b (bufstart_ b + cursize_ b) (zrep pad_size (z2b padding));
    Ret (Size b (u64 (cursize_ b + pad_size)))
  else Ret b.

Definition RefitTail (b : AlignedBuffer) (tail_offset tail_size : Z) : outcome AlignedBuffer :=
  b ← (if 0 <? tail_size then
         l ← read_at b (bufstart_ b + tail_offset) tail_size; write_at b (bufstart_ b) l
       else Ret b);
  Ret (Size b tail_size).

(** [operator=(AlignedBuffer&&)]: the source keeps its numbers but loses the block. *)
Definition buffer_move_assign (o : AlignedBuffer) : AlignedBuffer * AlignedBuffer :=
  (o, mkBuffer (alignment_ o) 0 [] (capacity_ o) (cursize_ o) (bufstart_ o)).

Lemma ztake_app_eq {A} n (l k : list A) : zlen l = n -> ztake n (l ++ k) = l.
Proof. intros <-. apply ztake_app_zlen. Qed.

(** ** Alignment *)

Lemma power_of_two_spec a : power_of_two a = true -> exists k, 0 <= k /\ a = 2 ^ k.
Proof.
  unfold power_of_two. intros [Ha Hl]%andb_true_iff. assert (0 < a) as Hp by lia. exists (Z.log2 a). split; [apply Z.log2_nonneg|].
  pose proof (Z.log2_spec a Hp) as [Hlo Hhi]. destruct (Z.eq_dec a (2 ^ Z.log2 a)) as [|Hne]; [done|exfalso].
  enough (Z.testbit (Z.land a (a - 1)) (Z.log2 a) = true) as Ht.
  { replace (Z.land a (a - 1)) with 0 in Ht by lia. by rewrite Z.testbit_0_l in Ht. }
  rewrite Z.land_spec, Z.bit_log2 by lia. simpl.
  replace (Z.log2 a) with (Z.log2 (a - 1)) by (apply Z.log2_unique; [apply Z.log2_nonneg|]; lia).
  apply Z.bit_log2. pose proof (Z.log2_nonneg a). pose proof (Z.pow_pos_nonneg 2 (Z.log2 a)). lia.
Qed.

Lemma land_low a k : 0 <= k -> Z.land a (2 ^ k - 1) = a mod 2 ^ k.
Proof. intros Hk. rewrite <- Z.land_ones by done. by rewrite Z.ones_equiv. Qed.

Lemma u64_mod_pow2 a k : 0 <= k < 32 -> u64 a mod 2 ^ k = a mod 2 ^ k.
Proof.
  intros Hk. unfold wrap. apply Z.mod_mod_divide. exists (2 ^ (64 - k)). rewrite <- Z.pow_add_r by lia. f_equal. lia.
Qed.

Lemma TruncateToPageBoundary_eq k s : 0 <= k < 64 -> 0 <= s < 2 ^ 64 ->
  TruncateToPageBoundary (2 ^ k) s = Ret (s - s mod 2 ^ k).
Proof.
  intros Hk Hs. change (2 ^ 64) with 18446744073709551616 in Hs. unfold TruncateToPageBoundary.
  assert (1 <= 2 ^ k) by (pose proof (Z.pow_pos_nonneg 2 k); lia).
  assert (2 ^ k <= 2 ^ 63) by (apply Z.pow_le_mono_r; lia). change (2 ^ 63) with 9223372036854775808 in *.
  rewrite (u64_small (2 ^ k - 1)), land_low by lia. pose proof (Z.mod_pos_bound s (2 ^ k) ltac:(lia)).
  pose proof (Z.mod_le s (2 ^ k)). rewrite u64_small by lia. rewrite assert_true; [done|]. apply Z.eqb_eq.
  rewrite Zminus_mod_idemp_r. by rewrite Z.sub_diag.
Qed.

Lemma Roundup_eq x y : 0 < y -> 0 <= x -> x + y <= 2 ^ 64 - 1 ->
  Roundup x y = (x + y - 1) / y * y /\ x <= Roundup x y < x + y /\ Roundup x y mod y = 0.
Proof.
  intros Hy Hx Hb. change (2 ^ 64) with 18446744073709551616 in Hb. unfold Roundup.
  rewrite (u64_small (x + y)), (u64_small (x + y - 1)) by lia.
  pose proof (Z.div_mod (x + y - 1) y ltac:(lia)). pose proof (Z.mod_pos_bound (x + y - 1) y Hy).
  rewrite u64_small by nia. split; [done|]. split; [nia|]. by apply Z.mod_mul, Z.neq_sym, Z.lt_neq.
Qed.

(** The start is the first aligned address of the block. *)
Lemma align_up p k : 0 <= k < 64 -> 0 <= p -> p + 2 ^ k <= 2 ^ 64 ->
  let start := Z.land (u64 (p + (2 ^ k - 1))) (u64 (Z.lnot (2 ^ k - 1))) in
  p <= start < p + 2 ^ k /\ start mod 2 ^ k = 0.
Proof.
  intros Hk Hp Hb start. assert (0 < 2 ^ k) by lia. change (2 ^ 64) with 18446744073709551616 in Hb.
  assert (start = (p + (2 ^ k - 1)) - (p + (2 ^ k - 1)) mod 2 ^ k) as E.
  { unfold start. rewrite (u64_small (p + _)) by lia. set (q := p + (2 ^ k - 1)).
    rewrite <- land_low by lia. rewrite (Z.sub_nocarry_ldiff q).
    2: { apply Z.bits_inj'. intros i Hi. rewrite Z.ldiff_spec, Z.land_spec, Z.bits_0. destruct (Z.testbit q i), (Z.testbit (2 ^ k - 1) i); done. }
    apply Z.bits_inj'. intros i Hi. rewrite Z.land_spec, Z.ldiff_spec, Z.land_spec. unfold wrap.
    destruct (Z.lt_ge_cases i 64).
    - rewrite Z.mod_pow2_bits_low, Z.lnot_spec by lia. by destruct (Z.testbit q i), (Z.testbit (2 ^ k - 1) i).
    - replace (Z.testbit q i) with false; [done|]. symmetry. apply (testbit_high _ 64); [|lia]. change (2 ^ 64) with 18446744073709551616. lia. }
  rewrite E. pose proof (Z.mod_pos_bound (p + (2 ^ k - 1)) (2 ^ k) ltac:(lia)). split; [lia|].
  rewrite Zminus_mod_idemp_r. by rewrite Z.sub_diag.
Qed.

(** ** The contents *)

(** The [capacity_] bytes from the start, and those of them that are in use. *)
Definition area (b : AlignedBuffer) : list byte := ztake (capacity_ b) (zdrop (bufstart_ b - buf_addr b) (buf_ b)).
Definition filled (b : AlignedBuffer) : list byte := ztake (cursize_ b) (area b).

(** The area is a whole number of aligned units inside the block. *)
Record buffer_ok (b : AlignedBuffer) : Prop := {
  bo_align : exists k, 0 <= k < 32 /\ alignment_ b = 2 ^ k;
  bo_units : capacity_ b mod alignment_ b = 0;
  bo_size : 0 <= cursize_ b <= capacity_ b;
  bo_block : buf_addr b <= bufstart_ b /\ bufstart_ b + capacity_ b <= buf_addr b + zlen (buf_ b);
  bo_start : bufstart_ b mod alignment_ b = 0;
  bo_bound : capacity_ b < 2 ^ 62;
}.

(** What operations other than an allocation keep. *)
Definition same_block (b b' : AlignedBuffer) : Prop :=
  alignment_ b' = alignment_ b /\ capacity_ b' = capacity_ b /\ bufstart_ b' = bufstart_ b.

Lemma ok_alignment b : buffer_ok b -> 1 <= alignment_ b <= 2147483648 /\ 0 <= capacity_ b < 4611686018427387904.
Proof.
  intros [(k & Hk & ->) _ Hs _ _ Hb]. change (2 ^ 62) with 4611686018427387904 in Hb. pose proof (Z.pow_le_mono_r 2 k 31).
  change (2 ^ 31) with 2147483648 in *. lia.
Qed.

Lemma zlen_area b : buffer_ok b -> zlen (area b) = capacity_ b.
Proof. intros [_ _ Hs Hb _ _]. unfold area. rewrite zlen_ztake, zlen_zdrop by lia. lia. Qed.

Lemma zlen_filled b : buffer_ok b -> zlen (filled b) = cursize_ b.
Proof. intros Hb. unfold filled. pose proof (bo_size _ Hb). rewrite zlen_ztake, zlen_area by (done || lia). lia. Qed.

Lemma Size_ok b n : buffer_ok b -> 0 <= n <= capacity_ b -> buffer_ok (Size b n).
Proof. by intros [? ? ? ? ? ?]. Qed.
Lemma Size_filled b n : filled (Size b n) = ztake n (area b).
Proof. done. Qed.

Lemma write_at_spec b i l : buffer_ok b -> 0 <= i -> i + zlen l <= capacity_ b ->
  exists b', write_at b (bufstart_ b + i) l = Ret b' /\ buffer_ok b' /\ same_block b b' /\ cursize_ b' = cursize_ b /\
    area b' = ztake i (area b) ++ l ++ zdrop (i + zlen l) (area b).
Proof.
  intros Hok Hi Hl. pose proof (zlen_nonneg l). destruct Hok as [Ha Hu Hs Hb Hst Hbd]. unfold write_at.
  set (o := bufstart_ b - buf_addr b). replace (bufstart_ b + i - buf_addr b) with (o + i) by (unfold o; lia).
  assert (0 <= o /\ o + capacity_ b <= zlen (buf_ b)) as [Ho Hoc] by (unfold o; lia).
  replace ((0 <=? o + i) && (o + i + zlen l <=? zlen (buf_ b))) with true by lia. eexists. split; [reflexivity|].
  set (m := ztake (o + i) (buf_ b) ++ l ++ zdrop (o + i + zlen l) (buf_ b)).
  assert (zlen m = zlen (buf_ b)) as Hm by (unfold m; rewrite !zlen_app, zlen_ztake, zlen_zdrop by lia; lia).
  split; [constructor; simpl; rewrite ?Hm; done|]. split; [done|]. split; [done|].
  unfold area. simpl. fold o. unfold m. rewrite (ztake_zdrop_split o i), <- !app_assoc by lia.
  rewrite zdrop_app_ge, zlen_ztake by (rewrite ?zlen_ztake; lia). replace (o - Z.min o (zlen (buf_ b))) with 0 by lia. rewrite zdrop_0.
  rewrite (ztake_app_ge (capacity_ b)) by (rewrite zlen_ztake, zlen_zdrop by lia; lia). f_equal; [rewrite ztake_ztake; f_equal; lia|].
  rewrite zlen_ztake, zlen_zdrop by lia. rewrite ztake_app_ge by lia. f_equal. rewrite zdrop_ztake, zdrop_zdrop by lia.
  f_equal; [lia|f_equal; lia].
Qed.

Lemma read_at_spec b i n : buffer_ok b -> 0 <= i -> 0 <= n -> i + n <= capacity_ b ->
  read_at b (bufstart_ b + i) n = Ret (ztake n (zdrop i (area b))).
Proof.
  intros [_ _ Hs Hb _ _] Hi Hn Hl. unfold read_at. replace (bufstart_ b + i - buf_addr b) with (bufstart_ b - buf_addr b + i) by lia.
  match goal with |- context [if ?c then _ else _] => replace c with true by lia end. unfold area.
  rewrite zdrop_ztake, zdrop_zdrop, ztake_ztake by lia. do 2 f_equal. lia.
Qed.

Lemma Append_spec b src : buffer_ok b ->
  exists n b', Append b src = Ret (n, b') /\ n = Z.min (zlen src) (capacity_ b - cursize_ b) /\
    buffer_ok b' /\ same_block b b' /\ cursize_ b' = cursize_ b + n /\ filled b' = filled b ++ ztake n src.
Proof.
  intros Hok. pose proof (bo_size _ Hok) as Hs. pose proof (ok_alignment _ Hok) as [_ Hc]. pose proof (zlen_nonneg src).
  unfold Append. rewrite u64_small by lia. set (n := Z.min (zlen src) (capacity_ b - cursize_ b)).
  destruct (Z.ltb_spec 0 n) as [Hn|Hn].
  - destruct (write_at_spec b (cursize_ b) (ztake n src) Hok) as (b' & -> & Hok' & Hsb & Hcs & Ha); [lia|rewrite zlen_ztake; lia|].
    bret. pose proof Hsb as (Ea & Ec & Es). rewrite Hcs, u64_small by lia. eexists n, _. split; [reflexivity|]. split; [done|].
    split; [apply Size_ok; [done|lia]|]. split; [done|]. split; [done|]. rewrite Size_filled, Ha. unfold filled. rewrite app_assoc.
    apply (ztake_app_eq _ (ztake (cursize_ b) (area b) ++ ztake n src)). rewrite zlen_app, !zlen_ztake, zlen_area by (done || lia). lia.
  - exists n, b. split; [done|]. split; [done|]. split; [done|]. split; [done|]. rewrite (ztake_neg n), app_nil_r by lia. split; [lia|done].
Qed.

Lemma Read_spec b offset n : buffer_ok b -> 0 <= offset < cursize_ b -> 0 <= n ->
  Read b offset n = Ret (ztake n (zdrop offset (filled b))).
Proof.
  intros Hok Ho Hn. pose proof (bo_size _ Hok) as Hs. pose proof (ok_alignment _ Hok) as [_ Hc]. unfold Read.
  rewrite assert_true by lia. rewrite u64_small by lia. assert (zlen (filled b) = cursize_ b) as Hl by (by apply zlen_filled).
  destruct (Z.ltb_spec 0 (Z.min (cursize_ b - offset) n)) as [Hp|Hp]; [|by rewrite (ztake_neg n) by lia].
  rewrite read_at_spec by (done || lia). unfold filled. rewrite zdrop_ztake, ztake_ztake by lia. do 2 f_equal. lia.
Qed.

(** Padding fills the last unit. *)
Lemma PadToAlignmentWith_spec b padding : buffer_ok b ->
  exists n b', PadToAlignmentWith b padding = Ret b' /\ 0 <= n < alignment_ b /\ (cursize_ b + n) mod alignment_ b = 0 /\
    buffer_ok b' /\ same_block b b' /\ cursize_ b' = cursize_ b + n /\ filled b' = filled b ++ zrep n (z2b padding).
Proof.
  intros Hok. pose proof (bo_size _ Hok) as Hs. pose proof (ok_alignment _ Hok) as [Ha Hc].
  destruct (Roundup_eq (cursize_ b) (alignment_ b)) as (_ & Hr & Hrm); [lia|lia|change (2 ^ 64) with 18446744073709551616; lia|].
  unfold PadToAlignmentWith. set (t := Roundup (cursize_ b) (alignment_ b)) in *. rewrite u64_small by lia.
  assert (t <= capacity_ b) as Ht.
  { pose proof (bo_units _ Hok) as Hu. apply Z.mod_divide in Hu as [q Hq]; [|lia]. apply Z.mod_divide in Hrm as [r Hr']; [|lia].
    assert (r <= q) by (apply Z.lt_succ_r, (Z.mul_lt_mono_pos_r (alignment_ b)); lia). rewrite Hq, Hr'. apply Z.mul_le_mono_nonneg_r; lia. }
  exists (t - cursize_ b). replace (cursize_ b + (t - cursize_ b)) with t by lia. destruct (Z.ltb_spec 0 (t - cursize_ b)) as [Hp|Hp].
  - rewrite (u64_small (_ + _)), assert_true by lia.
    destruct (write_at_spec b (cursize_ b) (zrep (t - cursize_ b) (z2b padding)) Hok) as (b' & -> & Hok' & Hsb & Hcs & Har); [lia|rewrite zlen_zrep; lia|].
    bret. pose proof Hsb as (Ea & Ec & Es). rewrite Hcs, u64_small by lia. eexists. split; [reflexivity|]. split; [lia|]. split; [done|].
    split; [apply Size_ok; [done|lia]|]. split; [done|]. simpl. split; [lia|]. replace (cursize_ b + (t - cursize_ b)) with t by lia. rewrite Size_filled, Har. unfold filled. rewrite app_assoc.
    apply (ztake_app_eq _ (ztake (cursize_ b) (area b) ++ zrep (t - cursize_ b) (z2b padding))).
    rewrite zlen_app, zlen_ztake, zlen_area, zlen_zrep by (done || lia). lia.
  - exists b. split; [done|]. split; [lia|]. split; [done|]. split; [done|]. split; [done|]. split; [lia|].
    replace (t - cursize_ b) with 0 by lia. by rewrite zrep_0, app_nil_r.
Qed.

Lemma RefitTail_spec b o n : buffer_ok b -> 0 <= o -> 0 <= n -> o + n <= capacity_ b ->
  exists b', RefitTail b o n = Ret b' /\ buffer_ok b' /\ same_block b b' /\ cursize_ b' = n /\ filled b' = ztake n (zdrop o (area b)).
Proof.
  intros Hok Ho Hn Hl. unfold RefitTail. destruct (Z.ltb_spec 0 n) as [Hp|Hp].
  - rewrite read_at_spec by (done || lia). bret. assert (zlen (ztake n (zdrop o (area b))) = n) as Hz.
    { rewrite zlen_ztake, zlen_zdrop, zlen_area by (done || lia). lia. }
    destruct (write_at_spec b 0 (ztake n (zdrop o (area b))) Hok) as (b' & E & Hok' & Hsb & Hcs & Har); [lia|lia|].
    rewrite Z.add_0_r in E. rewrite E. bret. pose proof Hsb as (Ea & Ec & Es). eexists. split; [reflexivity|]. split; [apply Size_ok; [done|lia]|].
    split; [done|]. split; [done|]. rewrite Size_filled, Har, ztake_0, app_nil_l. by apply ztake_app_eq.
  - replace n with 0 by lia. eexists. split; [reflexivity|]. split; [apply Size_ok; [done|lia]|]. done.
Qed.

(** [new char[n]] has an address below [2^64 - n] and [n] bytes. *)
Class Allocator (new_chars : Z -> Z * list byte) : Prop := {
  alloc_size : forall n, 0 <= n < 2 ^ 64 -> zlen (new_chars n).2 = n;
  alloc_addr : forall n, 0 <= n < 2 ^ 64 -> 0 <= (new_chars n).1 /\ (new_chars n).1 + n <= 2 ^ 64;
}.

Lemma AllocateNewBuffer_spec new_chars `{Allocator new_chars} b k n :
  alignment_ b = 2 ^ k -> 0 <= k < 32 -> 0 <= n < 2 ^ 61 ->
  exists b', AllocateNewBuffer new_chars b n = Ret b' /\ buffer_ok b' /\ alignment_ b' = alignment_ b /\
    n <= capacity_ b' < n + alignment_ b /\ filled b' = [] /\ cursize_ b' = 0.
Proof.
  intros Ea Hk Hn. change (2 ^ 61) with 2305843009213693952 in Hn.
  assert (1 <= 2 ^ k <= 2147483648) as Hp by (pose proof (Z.pow_le_mono_r 2 k 31); change (2 ^ 31) with 2147483648 in *; lia).
  unfold AllocateNewBuffer. rewrite Ea. assert (power_of_two (2 ^ k) = true) as ->.
  { unfold power_of_two. rewrite land_low, Z.mod_same by lia. lia. }
  rewrite assert_true by done. destruct (Roundup_eq n (2 ^ k)) as (_ & Hr & Hrm); [lia|lia|change (2 ^ 64) with 18446744073709551616; lia|].
  set (size := Roundup n (2 ^ k)) in *. rewrite (u64_small (size + 2 ^ k)) by lia.
  assert (0 <= size + 2 ^ k < 2 ^ 64) as Hsz by (change (2 ^ 64) with 18446744073709551616; lia).
  pose proof (alloc_size _ Hsz) as Hl. pose proof (alloc_addr _ Hsz) as [Hp0 Hp1]. destruct (new_chars (size + 2 ^ k)) as [p bytes]. simpl in Hl, Hp0, Hp1.
  destruct (align_up p k ltac:(lia) Hp0 ltac:(lia)) as [Hst Hal]. set (start := Z.land _ _) in *. eexists. split; [reflexivity|].
  split; [|simpl; repeat split; try done; lia]. constructor; simpl; try done.
  - by exists k.
  - lia.
  - lia.
  - change (2 ^ 62) with 4611686018427387904. lia.
Qed.

(** C26: the buffer keeps its area aligned and inside its block, whatever is done with it.
    [Append] takes as many bytes as there is room for, [Read] gives them back,
    [PadToAlignmentWith] fills the last unit, [RefitTail] moves bytes to the front, and a
    new buffer is empty, aligned and as large as asked for. *)
Theorem buffer_contract new_chars `{Allocator new_chars} b : buffer_ok b ->
  (forall src, exists n b', Append b src = Ret (n, b') /\ n = Z.min (zlen src) (capacity_ b - cursize_ b) /\
    buffer_ok b' /\ filled b' = filled b ++ ztake n src /\
    forall i m, 0 <= i < cursize_ b' -> 0 <= m -> Read b' i m = Ret (ztake m (zdrop i (filled b')))) /\
  (forall padding, exists n b', PadToAlignmentWith b padding = Ret b' /\ 0 <= n < alignment_ b /\ buffer_ok b' /\
    cursize_ b' mod alignment_ b = 0 /\ filled b' = filled b ++ zrep n (z2b padding)) /\
  (forall o n, 0 <= o -> 0 <= n -> o + n <= cursize_ b -> exists b', RefitTail b o n = Ret b' /\ buffer_ok b' /\
    filled b' = ztake n (zdrop o (filled b))) /\
  (forall n, 0 <= n < 2 ^ 61 -> exists b', AllocateNewBuffer new_chars b n = Ret b' /\ buffer_ok b' /\
    n <= capacity_ b' < n + alignment_ b /\ filled b' = []).
Proof.
  intros Hok. pose proof (bo_size _ Hok) as Hs. split; [|split; [|split]].
  - intros src. destruct (Append_spec b src Hok) as (n & b' & E & Hn & Hok' & _ & _ & Hf). exists n, b'.
    do 4 (split; [done|]). intros i m Hi Hm. by apply Read_spec.
  - intros padding. destruct (PadToAlignmentWith_spec b padding Hok) as (n & b' & E & Hn & Hm & Hok' & _ & Hc & Hf).
    exists n, b'. by rewrite Hc.
  - intros o n Ho Hn Hl. destruct (RefitTail_spec b o n Hok Ho Hn ltac:(lia)) as (b' & E & Hok' & _ & _ & Hf).
    exists b'. split; [done|]. split; [done|]. rewrite Hf. unfold filled. rewrite zdrop_ztake, ztake_ztake by done. f_equal. lia.
  - intros n Hn. destruct (bo_align _ Hok) as (k & Hk & Ea).
    destruct (AllocateNewBuffer_spec new_chars b k n Ea Hk Hn) as (b' & E & Hok' & _ & Hc & Hf & _). by exists b'.
Qed.

(** Blocks of zeros at the address 1000. *)
Definition zero_chars (n : Z) : Z * list byte := (if n <=? 2 ^ 63 then 1000 else 0, zrep n x00).
#[export] Instance zero_chars_allocator : Allocator zero_chars.
Proof.
  constructor; intros n Hn; unfold zero_chars; simpl; [apply zlen_zrep; lia|].
  change (2 ^ 64) with 18446744073709551616 in *. change (2 ^ 63) with 9223372036854775808. destruct (Z.leb_spec n 9223372036854775808); lia.
Qed.

Lemma buffer_contract_witness : let b := mkBuffer 4 1000 (zrep 12 x00) 8 0 1000 in
  exists n b', Append b (str "abc") = Ret (n, b') /\ filled b' = str "abc".
Proof.
  intros b. destruct (buffer_contract zero_chars b) as (HA & _).
  - constructor; try done. by exists 2.
  - destruct (HA (str "abc")) as (n & b' & E & -> & _ & Hf & _). exists 3, b'. split; [done|]. by rewrite Hf.
Defined.
