(* ===== verification/FileApi.v ===== *)
(** * FileApi ([WritableFile] and [RandomAccessFile] of [include/rocksutil/env.h])

    The interfaces of files as type classes, the default implementations of the base
    classes, and what callers rely on, as classes of laws. *)

From Stdlib Require Import Strings.Byte Strings.String.
From stdpp Require Import list.
From S2P Require Import Prelude.
From S2P Require Import Slice.
From S2P Require Import Coding.
From S2P Require Import Status.

(** ** The interfaces *)

(** The virtual methods of [WritableFile]. A method returns its [Status] and the file
    afterwards; [PositionedAppend] also gets the address of the data, which has to be
    aligned. *)
Class WritableFile (F : Type) := {
  UseOSBuffer : F -> bool;
  UseDirectIO : F -> bool;
  GetRequiredBufferAlignment : F -> Z;
  IsSyncThreadSafe : F -> bool;
  file_Append : F -> Slice -> Status * F;
  PositionedAppend : F -> Z -> Slice -> Z -> Status * F;
  Truncate : F -> Z -> Status * F;
  file_Close : F -> Status * F;
  file_Flush : F -> Status * F;
  file_Sync : F -> Status * F;
  file_Fsync : F -> Status * F;
  file_RangeSync : F -> Z -> Z -> Status * F;
  file_InvalidateCache : F -> Z -> Z -> Status * F;
  file_PrepareWrite : F -> Z -> Z -> F;
}.

(** The methods of [RandomAccessFile] that the wrappers of this library call. [Read]
    returns its status, the result and what it leaves in [scratch], whose first bytes are
    given; the result is the pair of the data and whether it lies in [scratch]. *)
Record ReadResult : Type := mkRead { rd_data : Slice; rd_in_scratch : bool; rd_scratch : list byte }.
Class RandomAccessFile (F : Type) := {
  ShouldForwardRawRequest : F -> bool;
  EnableReadAhead : F -> F;
  file_Read : F -> Z -> Z -> list byte -> Status * ReadResult;
}.

(** The other methods of [RandomAccessFile]; [GetUniqueId] gives what it writes to [id]. *)
Inductive AccessPattern : Type := NORMAL | RANDOM | SEQUENTIAL | WILLNEED | DONTNEED.
Class RandomAccessHints (F : Type) := {
  ra_GetUniqueId : F -> Z -> list byte;
  ra_Hint : F -> AccessPattern -> F;
  ra_InvalidateCache : F -> Z -> Z -> Status * F;
}.

(** The other methods of [WritableFile], [Allocate] with them, which callers cannot reach. *)
Inductive IOPriority : Type := IO_LOW | IO_HIGH | IO_TOTAL.
Class WritableSettings (F : Type) := {
  wf_SetIOPriority : F -> IOPriority -> F;
  wf_GetIOPriority : F -> IOPriority;
  wf_GetFileSize : F -> Z;
  wf_SetPreallocationBlockSize : F -> Z -> F;
  wf_GetPreallocationStatus : F -> Z * Z;
  wf_GetUniqueId : F -> Z -> list byte;
  wf_Allocate : F -> Z -> Z -> Status * F;
}.

(** ** The defaults of the base class *)

Section base.
Context `{Host}.

(** The members of the base class. *)
Record WritableFileBase : Type := mkBase {
  last_preallocated_block_ : Z;
  preallocation_block_size_ : Z;
  io_priority_ : IOPriority;
}.
Definition WritableFileBase_new : WritableFileBase := mkBase 0 0 IO_TOTAL.
Definition SetIOPriority (b : WritableFileBase) (pri : IOPriority) : WritableFileBase :=
  mkBase (last_preallocated_block_ b) (preallocation_block_size_ b) pri.
Definition GetIOPriority (b : WritableFileBase) : IOPriority := io_priority_ b.
Definition SetPreallocationBlockSize (b : WritableFileBase) (size : Z) : WritableFileBase :=
  mkBase (last_preallocated_block_ b) size (io_priority_ b).
Definition GetPreallocationStatus (b : WritableFileBase) : Z * Z :=
  (preallocation_block_size_ b, last_preallocated_block_ b).

(** [PrepareWrite]: the call of [Allocate], if any, by its arguments. *)
Definition PrepareWrite (b : WritableFileBase) (offset len : Z) : option (Z * Z) * WritableFileBase :=
  if preallocation_block_size_ b =? 0 then (None, b)
  else
    let block_size := preallocation_block_size_ b in
    let new_last := u64 (u64 (u64 (offset + len) + block_size) - 1) `div` block_size in
    if last_preallocated_block_ b <? new_last then
      let num_spanned_blocks := u64 (new_last - last_preallocated_block_ b) in
      (Some (u64 (block_size * last_preallocated_block_ b), u64 (block_size * num_spanned_blocks)),
       mkBase new_last (preallocation_block_size_ b) (io_priority_ b))
    else (None, b).

Definition default_UseOSBuffer : bool := true.
Definition default_UseDirectIO : bool := false.
Definition c_DefaultPageSize : Z := 4 * 1024.
Definition default_IsSyncThreadSafe : bool := false.
Definition default_PositionedAppend : Status := Status_of kNotSupported kNone.
Definition default_InvalidateCache : Status := error kNotSupported kNone (str "InvalidateCache not supported.") [].
Definition default_GetFileSize : Z := 0.
Definition default_GetUniqueId : list byte := [].
Definition default_Truncate : Status := OK.
Definition default_RangeSync : Status := OK.
Definition default_Allocate : Status := OK.
Definition default_ShouldForwardRawRequest : bool := false.
Definition default_EnableReadAhead {F : Type} (f : F) : F := f.
Definition default_Hint {F : Type} (f : F) (pattern : AccessPattern) : F := f.

(** What [PrepareWrite] preallocates is contiguous and covers the write, and nothing is
    asked for twice. *)
Lemma PrepareWrite_covers b offset len :
  0 < preallocation_block_size_ b -> 0 <= last_preallocated_block_ b -> 0 <= offset -> 0 <= len ->
  offset + len + preallocation_block_size_ b < 2 ^ 64 ->
  let '(call, b') := PrepareWrite b offset len in
  offset + len <= last_preallocated_block_ b' * preallocation_block_size_ b' /\
  match call with
  | None => b' = b
  | Some (off, n) => off = u64 (last_preallocated_block_ b * preallocation_block_size_ b) /\
      (last_preallocated_block_ b < last_preallocated_block_ b') /\
      u64 (off + n) = u64 (last_preallocated_block_ b' * preallocation_block_size_ b')
  end.
Proof.
  intros Hp Hl Ho Hn Hb. change (2 ^ 64) with 18446744073709551616 in Hb. unfold PrepareWrite.
  destruct (Z.eqb_spec (preallocation_block_size_ b) 0); [lia|]. set (bs := preallocation_block_size_ b) in *.
  rewrite (u64_small (offset + len)), (u64_small (_ + bs)), (u64_small (_ - 1)) by lia.
  set (q := (offset + len + bs - 1) / bs). pose proof (Z.div_mod (offset + len + bs - 1) bs ltac:(lia)) as Hd.
  pose proof (Z.mod_pos_bound (offset + len + bs - 1) bs Hp). fold q in Hd.
  destruct (Z.ltb_spec (last_preallocated_block_ b) q); simpl.
  - split; [lia|]. split; [f_equal; lia|]. split; [done|]. unfold wrap.
    rewrite Z.add_mod_idemp_l, Zmult_mod_idemp_r, Zplus_mod_idemp_r by done. f_equal. lia.
  - split; [|done]. fold bs. nia.
Qed.
End base.

(** ** Files that work *)

(** A file on which all operations succeed, appending while its size is one that [file_fits];
    [bytes_of] are its contents. A positional write needs an aligned address, offset and length
    and must not leave a hole. *)
Definition overwrite (l : list byte) (i : Z) (data : list byte) : list byte :=
  ztake i l ++ data ++ zdrop (i + zlen data) l.

Lemma overwrite_nil l i : 0 <= i -> overwrite l i [] = l.
Proof. intros Hi. unfold overwrite. rewrite zlen_nil, Z.add_0_r. simpl. apply ztake_zdrop. Qed.

Lemma zlen_overwrite l i d : 0 <= i <= zlen l -> zlen (overwrite l i d) = Z.max (zlen l) (i + zlen d).
Proof. intros Hi. pose proof (zlen_nonneg d). unfold overwrite. rewrite !zlen_app, zlen_ztake, zlen_zdrop by lia. lia. Qed.

(** Two writes, the second behind the first, are one. *)
Lemma overwrite_app l i a b : 0 <= i <= zlen l -> overwrite (overwrite l i a) (i + zlen a) b = overwrite l i (a ++ b).
Proof.
  intros Hi. pose proof (zlen_nonneg a). pose proof (zlen_nonneg b). unfold overwrite at 1 3. rewrite <- app_assoc, zlen_app.
  assert (zlen (ztake i l ++ a) = i + zlen a) as Hp by (rewrite zlen_app, zlen_ztake by lia; lia).
  unfold overwrite. rewrite (app_assoc (ztake i l)). rewrite <- Hp at 1. rewrite ztake_app_zlen, <- app_assoc. do 2 f_equal.
  f_equal. rewrite zdrop_app_ge, Hp by lia. rewrite zdrop_zdrop by lia. f_equal. lia.
Qed.

(** What has been written is read back. *)
Lemma overwrite_range l i d : 0 <= i <= zlen l -> ztake (zlen d) (zdrop i (overwrite l i d)) = d.
Proof.
  intros Hi. unfold overwrite. replace i with (zlen (ztake i l)) at 1 by (rewrite zlen_ztake by lia; lia).
  by rewrite zdrop_app_zlen, ztake_app_zlen.
Qed.

Class WorkingFile (F : Type) `{WritableFile F} := {
  bytes_of : F -> list byte;
  works : F -> Prop;
  same_mode : F -> F -> Prop;
  file_fits : Z -> Prop;
  file_fits_nil : file_fits 0;
  file_fits_le : forall m n, file_fits n -> m <= n -> file_fits m;
  works_Append : forall f d, works f -> UseOSBuffer f = true -> file_fits (zlen (bytes_of f ++ d)) ->
    ok (file_Append f d).1 = true /\ works (file_Append f d).2 /\ same_mode f (file_Append f d).2 /\
    bytes_of (file_Append f d).2 = bytes_of f ++ d;
  works_PositionedAppend : forall f p d i, works f -> UseOSBuffer f = false ->
    p mod GetRequiredBufferAlignment f = 0 -> i mod GetRequiredBufferAlignment f = 0 ->
    zlen d mod GetRequiredBufferAlignment f = 0 -> 0 <= i <= zlen (bytes_of f) ->
    ok (PositionedAppend f p d i).1 = true /\ works (PositionedAppend f p d i).2 /\ same_mode f (PositionedAppend f p d i).2 /\
    bytes_of (PositionedAppend f p d i).2 = overwrite (bytes_of f) i d;
  works_Truncate : forall f n, works f -> 0 <= n <= zlen (bytes_of f) -> (UseOSBuffer f = true -> n = zlen (bytes_of f)) ->
    ok (Truncate f n).1 = true /\ works (Truncate f n).2 /\ same_mode f (Truncate f n).2 /\ bytes_of (Truncate f n).2 = ztake n (bytes_of f);
  works_Close : forall f, works f -> ok (file_Close f).1 = true /\ bytes_of (file_Close f).2 = bytes_of f;
  works_quiet : forall f r, works f ->
    r = file_Flush f \/ r = file_Sync f \/ r = file_Fsync f \/
      (exists a b, 0 <= a /\ 0 <= b /\ a + b < 2 ^ 63 /\ r = file_RangeSync f a b) ->
    ok r.1 = true /\ works r.2 /\ same_mode f r.2 /\ bytes_of r.2 = bytes_of f;
  works_PrepareWrite : forall f a b, works f ->
    works (file_PrepareWrite f a b) /\ same_mode f (file_PrepareWrite f a b) /\ bytes_of (file_PrepareWrite f a b) = bytes_of f;
  same_mode_spec : forall f f', same_mode f f' ->
    UseOSBuffer f' = UseOSBuffer f /\ UseDirectIO f' = UseDirectIO f /\
    GetRequiredBufferAlignment f' = GetRequiredBufferAlignment f;
}.
