(* ===== verification/FileWriter.v ===== *)
(** * FileWriter ([include/rocksutil/file_reader_writer.h], [rutil/file_reader_writer.cc])

    [WritableFileWriter]: a buffer in front of a [WritableFile], with the two ways to write
    it out, through the OS buffer and in whole aligned units. *)

From Stdlib Require Import Strings.Byte Strings.String.
From stdpp Require Import list.
From S2P Require Import Prelude.
From S2P Require Import Slice.
From S2P Require Import Coding.
From S2P Require Import Status.
From S2P Require Import AlignedBuffer.
From S2P Require Import FileApi.

Section file_writer.
Context `{Host} {F : Type} `{WritableFile F} (new_chars : Z -> Z * list byte).

(** ** The code *)

(** [writable_file_] is null after [Close]. *)
Record WritableFileWriter : Type := mkFileWriter {
  writable_file_ : option F;
  buf_ : AlignedBuffer;
  max_buffer_size_ : Z;
  filesize_ : Z;
  next_write_offset_ : Z;
  pending_sync_ : bool;
  direct_io_ : bool;
  use_os_buffer_ : bool;
  last_sync_size_ : Z;
  bytes_per_sync_ : Z;
}.

Definition W (A : Type) : Type := WritableFileWriter -> outcome (A * WritableFileWriter).
#[export] Instance W_ret : MRet W := fun A a w => Ret (a, w).
#[export] Instance W_bind : MBind W := fun A B f m w =>
  match m w with
  | Ret (a, w') => f a w'
  | AssertFail => AssertFail
  | Undef => Undef
  | NoFuel => NoFuel
  end.

Definition wget : W WritableFileWriter := fun w => Ret (w, w).
Definition wassert (b : bool) : W unit := fun w => if b then Ret (tt, w) else AssertFail.

Definition set_file (w : WritableFileWriter) f :=
  mkFileWriter f (buf_ w) (max_buffer_size_ w) (filesize_ w) (next_write_offset_ w) (pending_sync_ w)
    (direct_io_ w) (use_os_buffer_ w) (last_sync_size_ w) (bytes_per_sync_ w).
Definition set_buf (w : WritableFileWriter) b :=
  mkFileWriter (writable_file_ w) b (max_buffer_size_ w) (filesize_ w) (next_write_offset_ w) (pending_sync_ w)
    (direct_io_ w) (use_os_buffer_ w) (last_sync_size_ w) (bytes_per_sync_ w).
Definition set_sizes (w : WritableFileWriter) fs nw :=
  mkFileWriter (writable_file_ w) (buf_ w) (max_buffer_size_ w) fs nw (pending_sync_ w)
    (direct_io_ w) (use_os_buffer_ w) (last_sync_size_ w) (bytes_per_sync_ w).
Definition set_sync (w : WritableFileWriter) pend ls :=
  mkFileWriter (writable_file_ w) (buf_ w) (max_buffer_size_ w) (filesize_ w) (next_write_offset_ w) pend
    (direct_io_ w) (use_os_buffer_ w) ls (bytes_per_sync_ w).

(** A call of a method of the file, which must not be null. *)
Definition on_file (op : F -> Status * F) : W Status := fun w =>
  match writable_file_ w with
  | Some f => let '(s, f') := op f in Ret (s, set_file w (Some f'))
  | None => Undef
  end.
(** An operation on the buffer. *)
Definition on_buf {A} (op : AlignedBuffer -> outcome (A * AlignedBuffer)) : W A := fun w =>
  match op (buf_ w) with
  | Ret (a, b) => Ret (a, set_buf w b)
  | AssertFail => AssertFail
  | Undef => Undef
  | NoFuel => NoFuel
  end.
Definition wmodify (f : WritableFileWriter -> WritableFileWriter) : W unit := fun w => Ret (tt, f w).
Definition buf_unit (op : AlignedBuffer -> outcome AlignedBuffer) : W unit :=
  on_buf (fun b => b' ← op b; Ret (tt, b')).

(** The constructor. *)
Definition WritableFileWriter_new (f : F) (max_buffer_size bytes_per_sync : Z) : outcome WritableFileWriter :=
  b ← Alignment AlignedBuffer_new (GetRequiredBufferAlignment f);
  b ← AllocateNewBuffer new_chars b 65536;
  Ret (mkFileWriter (Some f) b max_buffer_size 0 0 false (UseDirectIO f) (UseOSBuffer f) 0 bytes_per_sync).

(** The loop of [WriteBuffered]: all that is left is allowed at once, so that there is at
    most one turn. *)
Fixpoint WriteBuffered_loop (fuel : nat) (src : Slice) : W Status :=
  if 0 <? zlen src then
    match fuel with
    | O => fun _ => NoFuel
    | S fuel' =>
        let allowed := zlen src in
        s ← on_file (fun f => file_Append f (ztake allowed src));
        if negb (ok s) then mret s else WriteBuffered_loop fuel' (zdrop allowed src)
    end
  else mret OK.
(** After a loop without an error [s] is ok. *)
Definition WriteBuffered (data : Slice) : W Status :=
  w ← wget;
  _ ← wassert (use_os_buffer_ w);
  s ← WriteBuffered_loop 1 data;
  if negb (ok s) then mret s
  else _ ← wmodify (fun w => set_buf w (Size (buf_ w) 0)); mret s.

Definition WriteUnbuffered : W Status :=
  w ← wget;
  _ ← wassert (negb (use_os_buffer_ w));
  let alignment := alignment_ (buf_ w) in
  _ ← wassert (next_write_offset_ w mod alignment =? 0);
  file_advance ← (fun w => match TruncateToPageBoundary alignment (CurrentSize (buf_ w)) with
                           | Ret n => Ret (n, w) | AssertFail => AssertFail | Undef => Undef | NoFuel => NoFuel end);
  let leftover_tail := u64 (CurrentSize (buf_ w) - file_advance) in
  _ ← buf_unit (fun b => PadToAlignmentWith b 0);
  w ← wget;
  let left := CurrentSize (buf_ w) in
  (* all of it in one write, at [write_offset = next_write_offset_] *)
  s ← (if 0 <? left then
         data ← on_buf (fun b => l ← read_at b (BufferStart b) left; Ret (l, b));
         s ← on_file (fun f => PositionedAppend f (BufferStart (buf_ w)) data (next_write_offset_ w));
         if negb (ok s) then
           _ ← wmodify (fun w => set_buf w (Size (buf_ w) (u64 (file_advance + leftover_tail)))); mret s
         else
           _ ← wassert (next_write_offset_ w mod alignment =? 0); mret s
       else mret OK);
  if ok s then
    _ ← buf_unit (fun b => RefitTail b file_advance leftover_tail);
    _ ← wmodify (fun w => set_sizes w (filesize_ w) (u64 (next_write_offset_ w + file_advance)));
    mret s
  else mret s.

Definition RangeSync (offset nbytes : Z) : W Status := on_file (fun f => file_RangeSync f offset nbytes).

Definition SyncInternal (use_fsync : bool) : W Status :=
  if use_fsync then on_file file_Fsync else on_file file_Sync.

Definition kBytesNotSyncRange : Z := 1024 * 1024.
Definition kBytesAlignWhenSync : Z := 4 * 1024.

(** The part of [Flush] that syncs what is not recent. *)
Definition Flush_sync (s : Status) : W Status :=
  w ← wget;
  if negb (direct_io_ w) && negb (bytes_per_sync_ w =? 0) && (kBytesNotSyncRange <? filesize_ w) then
    let offset_sync_to := u64 (filesize_ w - kBytesNotSyncRange) in
    let offset_sync_to := u64 (offset_sync_to - offset_sync_to mod kBytesAlignWhenSync) in
    _ ← wassert (last_sync_size_ w <=? offset_sync_to);
    if (0 <? offset_sync_to) && (bytes_per_sync_ w <=? u64 (offset_sync_to - last_sync_size_ w)) then
      s ← RangeSync (last_sync_size_ w) (u64 (offset_sync_to - last_sync_size_ w));
      _ ← wmodify (fun w => set_sync w (pending_sync_ w) offset_sync_to);
      mret s
    else mret s
  else mret s.

(** The part that writes what is buffered. *)
Definition write_out : W Status :=
  w ← wget;
  if 0 <? CurrentSize (buf_ w) then
    if use_os_buffer_ w then
      data ← on_buf (fun b => l ← read_at b (BufferStart b) (CurrentSize b); Ret (l, b));
      WriteBuffered data
    else WriteUnbuffered
  else mret OK.

Definition Flush : W Status :=
  s ← write_out;
  if negb (ok s) then mret s
  else
    s ← on_file file_Flush;
    if negb (ok s) then mret s else Flush_sync s.

(** [buf_.AllocateNewBuffer(min(2 * capacity, max_buffer_size_))] when there is room. *)
Definition grow : W unit :=
  w ← wget;
  if Capacity (buf_ w) <? max_buffer_size_ w then
    let desiredCapacity := u64 (Capacity (buf_ w) * 2) in
    let desiredCapacity := Z.min desiredCapacity (max_buffer_size_ w) in
    buf_unit (fun b => AllocateNewBuffer new_chars b desiredCapacity)
  else mret tt.

(** The loop of [Append] over what is left of the data. *)
Fixpoint Append_loop (fuel : nat) (src : Slice) : W Status :=
  if 0 <? zlen src then
    match fuel with
    | O => fun _ => NoFuel
    | S fuel' =>
        appended ← on_buf (fun b => AlignedBuffer.Append b src);
        let src := zdrop appended src in
        if 0 <? zlen src then
          s ← Flush;
          if negb (ok s) then mret s
          else _ ← grow; Append_loop fuel' src
        else mret OK
    end
  else mret OK.

(** The first part of [Append], in the buffered mode: flush and grow when [left] does not
    fit. [Some s] is an early return. *)
Definition make_room (left : Z) : W (option Status) :=
  w ← wget;
  if use_os_buffer_ w && (u64 (Capacity (buf_ w) - CurrentSize (buf_ w)) <? left) then
    s ← (if 0 <? CurrentSize (buf_ w) then Flush else mret OK);
    if negb (ok s) then mret (Some s)
    else
      _ ← grow;
      w ← wget;
      _ ← wassert (CurrentSize (buf_ w) =? 0);
      mret None
  else mret None.

(** The second part: the data go to the buffer, or past it. *)
Definition put (data : Slice) : W Status :=
  w ← wget;
  if negb (use_os_buffer_ w) || (zlen data <=? Capacity (buf_ w)) then
    Append_loop (S (Z.to_nat (zlen data))) data
  else
    _ ← wassert (CurrentSize (buf_ w) =? 0);
    WriteBuffered data.

Definition Append (data : Slice) : W Status :=
  let left := zlen data in
  _ ← wmodify (fun w => set_sync w true (last_sync_size_ w));
  w ← wget;
  _ ← on_file (fun f => (OK, file_PrepareWrite f (filesize_ w) left));
  early ← make_room left;
  match early with
  | Some s => mret s
  | None =>
      s ← put data;
      _ ← (if ok s then wmodify (fun w => set_sizes w (u64 (filesize_ w + left)) (next_write_offset_ w)) else mret tt);
      mret s
  end.

(** The calls that [Close] makes before it lets go of the file. *)
Definition Close_file : W Status :=
  s ← Flush;
  w ← wget;
  interim ← on_file (fun f => Truncate f (filesize_ w));
  let s := if negb (ok interim) && ok s then interim else s in
  interim ← on_file file_Close;
  mret (if negb (ok interim) && ok s then interim else s).

Definition Close : W Status :=
  w ← wget;
  match writable_file_ w with
  | None => mret OK
  | Some _ =>
      s ← Close_file;
      _ ← wmodify (fun w => set_file w None);
      mret s
  end.

Definition Sync (use_fsync : bool) : W Status :=
  s ← Flush;
  if negb (ok s) then mret s
  else
    w ← wget;
    s ← (if negb (direct_io_ w) && pending_sync_ w then SyncInternal use_fsync else mret OK);
    if negb (ok s) then mret s
    else _ ← wmodify (fun w => set_sync w false (last_sync_size_ w)); mret OK.

Definition SyncWithoutFlush (use_fsync : bool) : W Status :=
  w ← wget;
  match writable_file_ w with
  | None => fun _ => Undef
  | Some f =>
      if negb (IsSyncThreadSafe f) then
        mret (NotSupported (str "Can't WritableFileWriter::SyncWithoutFlush() because WritableFile::IsSyncThreadSafe() is false") [])
      else SyncInternal use_fsync
  end.

Definition GetFileSize : W Z := w ← wget; mret (filesize_ w).
Definition InvalidateCache (offset length : Z) : W Status := on_file (fun f => file_InvalidateCache f offset length).

End file_writer.
