(* ===== verification/FileWriterSpec.v ===== *)
(** * FileWriterSpec: what [WritableFileWriter] guarantees

    For any file: no assertion fails and no buffer is overrun ([file_writer_never_aborts]).
    For a file that works: the data arrive, in order and at aligned offsets
    ([file_writer_contents]). Both come from the same lemmas: each says that an operation
    returns, that it keeps the invariant [writer_ok], and that if the file works it keeps
    [holds]. *)

From Stdlib Require Import Strings.Byte Strings.String.
From stdpp Require Import list.
From S2P Require Import Prelude.
From S2P Require Import Slice.
From S2P Require Import Coding.
From S2P Require Import Status.
From S2P Require Import AlignedBuffer.
From S2P Require Import FileApi.
From S2P Require Import FileWriter.

Section file_writer.
Context `{Host} {F : Type} `{WritableFile F} (new_chars : Z -> Z * list byte).
#[local] Set Default Proof Using "All".
Local Abbreviation WritableFileWriter := (@WritableFileWriter F).
Implicit Types (w : WritableFileWriter) (f : F).

(** ** Stepping through the code *)

Lemma W_bind_ret {A B} (m : W (F := F) A) (k : A -> W B) w a w' : m w = Ret (a, w') -> (m ≫= k) w = k a w'.
Proof. intros E. change ((m ≫= k) w) with (W_bind A B k m w). unfold W_bind. by rewrite E. Qed.

Lemma on_file_eq (op : F -> Status * F) w f s f' : writable_file_ w = Some f -> op f = (s, f') ->
  on_file op w = Ret (s, set_file w (Some f')).
Proof. intros Hf E. unfold on_file. by rewrite Hf, E. Qed.
Lemma on_buf_eq {A} (op : AlignedBuffer -> outcome (A * AlignedBuffer)) w a b :
  op (buf_ w) = Ret (a, b) -> on_buf op w = Ret (a, set_buf w b).
Proof. intros E. unfold on_buf. by rewrite E. Qed.
Lemma buf_unit_eq op w b : op (buf_ w) = Ret b -> buf_unit op w = Ret (tt, set_buf w b).
Proof. intros E. apply on_buf_eq. by rewrite E. Qed.
Lemma wassert_eq b w : b = true -> wassert b w = Ret (tt, w).
Proof. by intros ->. Qed.
Lemma set_buf_same w : set_buf w (buf_ w) = w.
Proof. by destruct w. Qed.

#[local] Ltac wstep E := rewrite (W_bind_ret _ _ _ _ _ E); cbv beta iota.
#[local] Ltac wnext :=
  lazymatch goal with
  | |- (@wget F ≫= _) ?w = _ => wstep (eq_refl : @wget F w = Ret (w, w))
  | |- (wmodify ?f ≫= _) ?w = _ => wstep (eq_refl : wmodify f w = Ret (tt, f w))
  | |- (mret ?a ≫= _) ?w = _ => wstep (eq_refl : mret (M := @W F) a w = Ret (a, w))
  | |- (wassert ?b ≫= _) ?w = _ => erewrite (W_bind_ret (wassert b)) by (apply wassert_eq; first [done | lia])
  end; cbv beta iota.

(** ** The invariant, whatever the file does *)

Definition synced_up_to (size : Z) : Z :=
  Z.max 0 (size - kBytesNotSyncRange - (size - kBytesNotSyncRange) mod kBytesAlignWhenSync).

Record writer_ok (w : WritableFileWriter) : Prop := {
  wo_buf : buffer_ok (buf_ w);
  wo_cap : 1 <= capacity_ (buf_ w);
  wo_max : max_buffer_size_ w < 2 ^ 61;
  wo_next : next_write_offset_ w mod alignment_ (buf_ w) = 0 /\ 0 <= next_write_offset_ w;
  wo_size : 0 <= filesize_ w < 2 ^ 64;
  wo_sync : bytes_per_sync_ w = 0 \/ 0 <= last_sync_size_ w <= synced_up_to (filesize_ w) /\ filesize_ w < 2 ^ 63;
}.

(** The members that only [Append] and [Sync] change. *)
Record kept (w w' : WritableFileWriter) : Prop := {
  k_max : max_buffer_size_ w' = max_buffer_size_ w;
  k_size : filesize_ w' = filesize_ w;
  k_direct : direct_io_ w' = direct_io_ w;
  k_os : use_os_buffer_ w' = use_os_buffer_ w;
  k_bytes : bytes_per_sync_ w' = bytes_per_sync_ w;
  k_pending : pending_sync_ w' = pending_sync_ w;
  k_align : alignment_ (buf_ w') = alignment_ (buf_ w);
}.
Lemma wkept_refl w : kept w w.
Proof. by constructor. Qed.
Lemma wkept_trans w1 w2 w3 : kept w1 w2 -> kept w2 w3 -> kept w1 w3.
Proof. intros [? ? ? ? ? ? ?] [? ? ? ? ? ? ?]. constructor; congruence. Qed.

Lemma synced_up_to_mono a b : a <= b -> synced_up_to a <= synced_up_to b.
Proof. unfold synced_up_to, kBytesNotSyncRange, kBytesAlignWhenSync. intros. dlia. Qed.

Lemma WriteBuffered_eq d w f : writable_file_ w = Some f -> use_os_buffer_ w = true -> 0 < zlen d ->
  WriteBuffered d w = let '(s, f') := file_Append f d in
    Ret (if ok s then (OK, set_buf (set_file w (Some f')) (Size (buf_ w) 0)) else (s, set_file w (Some f'))).
Proof.
  intros Hf Hos Hd. unfold WriteBuffered. destruct (file_Append f d) as [s f'] eqn:E. wnext. rewrite Hos. wnext.
  assert (WriteBuffered_loop 1 d w = Ret (if ok s then OK else s, set_file w (Some f'))) as El.
  { cbn [WriteBuffered_loop]. replace (0 <? zlen d) with true by lia.
    erewrite W_bind_ret; [|apply (on_file_eq _ w f s f' Hf); by rewrite ztake_ge by lia]. cbv beta.
    destruct (ok s); [|done]. simpl. rewrite zdrop_ge by lia. done. }
  wstep El. destruct (ok s) eqn:Es; [|by rewrite Es]. change (ok OK) with true. cbn [negb]. wnext. done.
Qed.

(** The whole units of what is buffered. *)
Definition whole (b : AlignedBuffer) : Z := cursize_ b - cursize_ b mod alignment_ b.

Lemma whole_range b : buffer_ok b -> 0 <= whole b <= cursize_ b /\ whole b mod alignment_ b = 0.
Proof.
  intros Hok. pose proof (ok_alignment _ Hok) as [Ha _]. pose proof (bo_size _ Hok). unfold whole.
  pose proof (Z.mod_pos_bound (cursize_ b) (alignment_ b) ltac:(lia)). pose proof (Z.mod_le (cursize_ b) (alignment_ b)).
  split; [lia|]. rewrite Zminus_mod_idemp_r. by rewrite Z.sub_diag.
Qed.

Lemma refit_filled b b1 n : buffer_ok b -> buffer_ok b1 -> cursize_ b1 = cursize_ b + n -> 0 <= n ->
  filled b1 = filled b ++ zrep n x00 ->
  ztake (cursize_ b - whole b) (zdrop (whole b) (area b1)) = zdrop (whole b) (filled b).
Proof.
  intros Hok Hok1 Hc Hn Hf. destruct (whole_range b Hok) as [Hw _].
  assert (ztake (cursize_ b) (area b1) = filled b) as Ha.
  { transitivity (ztake (cursize_ b) (filled b1)).
    - unfold filled. rewrite ztake_ztake. f_equal. lia.
    - rewrite Hf. apply ztake_app_eq. by apply zlen_filled. }
  rewrite <- Ha, zdrop_ztake by lia. done.
Qed.

Lemma read_filled b : buffer_ok b -> read_at b (BufferStart b) (CurrentSize b) = Ret (filled b).
Proof.
  intros Hok. pose proof (bo_size _ Hok). unfold BufferStart, CurrentSize. replace (bufstart_ b) with (bufstart_ b + 0) by lia.
  rewrite read_at_spec by (done || lia). by rewrite zdrop_0.
Qed.

Lemma whole_page b : buffer_ok b -> TruncateToPageBoundary (alignment_ b) (CurrentSize b) = Ret (whole b).
Proof.
  intros Hok. destruct (bo_align _ Hok) as (k & Hk & Ek). pose proof (bo_size _ Hok). pose proof (ok_alignment _ Hok).
  unfold whole, CurrentSize. rewrite Ek. apply TruncateToPageBoundary_eq; [lia|]. change (2 ^ 64) with 18446744073709551616. lia.
Qed.

(** The writer after a positioned write: another state of the file, and a buffer on the same block. *)
Lemma after_write w f' b' nw : writer_ok w -> buffer_ok b' -> same_block (buf_ w) b' -> nw mod alignment_ (buf_ w) = 0 -> 0 <= nw ->
  let w' := set_sizes (set_buf (set_file w (Some f')) b') (filesize_ w) nw in
  writer_ok w' /\ kept w w' /\ writable_file_ w' = Some f' /\ last_sync_size_ w' = last_sync_size_ w /\ capacity_ (buf_ w') = capacity_ (buf_ w).
Proof.
  intros [Hbuf Hcap Hmax [Hnm Hn0] Hsz Hsy] Hb' (Ea' & Ec' & Es') Hnw Hnw0.
  split; [constructor; simpl; rewrite ?Ea', ?Ec'; done|]. split; [constructor; simpl; done|]. simpl. done.
Qed.

Lemma WriteUnbuffered_spec w f : writer_ok w -> writable_file_ w = Some f -> use_os_buffer_ w = false ->
  0 < cursize_ (buf_ w) ->
  exists n, 0 <= n < alignment_ (buf_ w) /\ (cursize_ (buf_ w) + n) mod alignment_ (buf_ w) = 0 /\
    bufstart_ (buf_ w) mod alignment_ (buf_ w) = 0 /\
    let '(s, f') := PositionedAppend f (bufstart_ (buf_ w)) (filled (buf_ w) ++ zrep n x00) (next_write_offset_ w) in
    exists w', WriteUnbuffered w = Ret (s, w') /\ writer_ok w' /\ kept w w' /\ writable_file_ w' = Some f' /\
      last_sync_size_ w' = last_sync_size_ w /\ capacity_ (buf_ w') = capacity_ (buf_ w) /\
      if ok s then next_write_offset_ w' = u64 (next_write_offset_ w + whole (buf_ w)) /\
                   filled (buf_ w') = zdrop (whole (buf_ w)) (filled (buf_ w))
      else next_write_offset_ w' = next_write_offset_ w /\ filled (buf_ w') = filled (buf_ w).
Proof.
  intros [Hbuf Hcap Hmax [Hnm Hn0] Hsz Hsy] Hf Hos Hcur.
  pose proof (ok_alignment _ Hbuf) as [Ha Hc]. pose proof (bo_size _ Hbuf) as Hs. destruct (whole_range _ Hbuf) as [Hw Hwm].
  destruct (PadToAlignmentWith_spec (buf_ w) 0 Hbuf) as (n & b1 & EP & Hn & Hnm1 & Hok1 & (Ea & Ec & Es) & Hc1 & Hf1).
  change (z2b 0) with x00 in Hf1. exists n. split; [done|]. split; [done|]. split; [apply (bo_start _ Hbuf)|].
  destruct (PositionedAppend f _ _ _) as [s f'] eqn:EA.
  pose proof (whole_page _ Hbuf) as ET. pose proof (read_filled b1 Hok1) as ER.
  pose proof (fun b' nw => after_write w f' b' nw ltac:(constructor; done)) as Hmk. cbv zeta in Hmk.
  destruct (RefitTail_spec b1 (whole (buf_ w)) (cursize_ (buf_ w) - whole (buf_ w)) Hok1) as (b2 & EF & Hok2 & (Ea2 & Ec2 & Es2) & Hc2 & Hf2); [lia|lia|lia|].
  rewrite (refit_filled (buf_ w) b1 n) in Hf2 by (done || lia).
  assert (on_buf (fun b => l ← read_at b (BufferStart b) (CurrentSize b1); Ret (l, b)) (set_buf w b1) = Ret (filled b1, set_buf w b1)) as EB.
  { rewrite (on_buf_eq _ (set_buf w b1) (filled b1) b1); [done|]. change (buf_ (set_buf w b1)) with b1. by rewrite ER. }
  assert (on_file (fun f => PositionedAppend f (BufferStart b1) (filled b1) (next_write_offset_ (set_buf w b1))) (set_buf w b1) =
    Ret (s, set_file (set_buf w b1) (Some f'))) as EW.
  { apply (on_file_eq _ _ f); [done|]. rewrite Hf1. unfold BufferStart. rewrite Es. exact EA. }
  destruct (ok s) eqn:Eok; eexists; split.
  1, 3: unfold WriteUnbuffered; wnext; rewrite Hos; wnext; wnext;
    erewrite (W_bind_ret (fun w0 => match _ with _ => _ end)) by (rewrite ET; reflexivity); cbv beta;
    wstep (buf_unit_eq (fun b => PadToAlignmentWith b 0) w b1 EP); wnext;
    rewrite (u64_small (CurrentSize (buf_ w) - _)) by (unfold CurrentSize; lia);
    change (buf_ (set_buf w b1)) with b1; replace (0 <? CurrentSize b1) with true by (unfold CurrentSize; lia);
    (erewrite W_bind_ret; [|wstep EB; wstep EW; rewrite Eok; cbn [negb]; first [erewrite (W_bind_ret (wassert _)) by (apply wassert_eq, Z.eqb_eq; exact Hnm) | wnext]; reflexivity]); cbv beta; rewrite Eok.
  - wstep (buf_unit_eq (fun b => RefitTail b (whole (buf_ w)) (cursize_ (buf_ w) - whole (buf_ w))) (set_file (set_buf w b1) (Some f')) b2 EF).
    wnext. reflexivity.
  - reflexivity.
  - destruct (Hmk b2 (u64 (next_write_offset_ w + whole (buf_ w))) Hok2) as (H1 & H2 & H3 & H4 & H5).
    + unfold same_block. split_and!; congruence.
    + destruct (bo_align _ Hbuf) as (k & Hk & Ek). rewrite Ek in *. rewrite u64_mod_pow2, Z.add_mod, Hnm, Hwm by (lia || done). apply Z.mod_0_l. lia.
    + pose proof (u64_range (next_write_offset_ w + whole (buf_ w))). lia.
    + do 5 (split; [eassumption|]). done.
  - destruct (Hmk (Size b1 (cursize_ (buf_ w))) (next_write_offset_ w)) as (H1 & H2 & H3 & H4 & H5); [apply Size_ok; [done|lia]|done|done|done|].
    unfold CurrentSize. rewrite u64_small by lia. replace (whole (buf_ w) + (cursize_ (buf_ w) - whole (buf_ w))) with (cursize_ (buf_ w)) by lia.
    do 5 (split; [eassumption|]). simpl. split; [done|]. rewrite Size_filled. transitivity (ztake (cursize_ (buf_ w)) (filled b1)).
    + unfold filled. rewrite ztake_ztake. f_equal. lia.
    + rewrite Hf1. apply ztake_app_eq. by apply zlen_filled.
Qed.

(** ** What has been written, when the file works *)

Section working.
Context `{!WorkingFile F} `{!Allocator new_chars}.

(** The bytes in the file that will stay, followed by the buffered ones, are [data]. In
    the unbuffered mode these are the bytes before the next write. *)
Definition holds_in (w : WritableFileWriter) (f : F) (data : list byte) : Prop :=
  works f /\ UseOSBuffer f = use_os_buffer_ w /\ GetRequiredBufferAlignment f = alignment_ (buf_ w) /\
  if use_os_buffer_ w then bytes_of f ++ filled (buf_ w) = data
  else next_write_offset_ w <= zlen (bytes_of f) /\ ztake (next_write_offset_ w) (bytes_of f) ++ filled (buf_ w) = data.
(** The sizes that the file can have: in the unbuffered mode offsets have 63 bits. *)
Definition size_fits (os : bool) (n : Z) : Prop := if os then file_fits n else n < 2 ^ 63.
Lemma size_fits_le os m n : size_fits os n -> m <= n -> size_fits os m.
Proof. destruct os; simpl; [apply file_fits_le|lia]. Qed.
Definition holds (w : WritableFileWriter) (data : list byte) : Prop :=
  size_fits (use_os_buffer_ w) (zlen data) /\ exists f, writable_file_ w = Some f /\ holds_in w f data.
(** All of [data] is in the file. *)
Definition in_file (w : WritableFileWriter) (data : list byte) : Prop :=
  exists f, writable_file_ w = Some f /\ zlen data <= zlen (bytes_of f) /\ ztake (zlen data) (bytes_of f) = data.

Lemma holds_inv w data f : holds w data -> writable_file_ w = Some f -> size_fits (use_os_buffer_ w) (zlen data) /\ holds_in w f data.
Proof. intros [Hl (f0 & E & Hh)] Hf. rewrite Hf in E. injection E as <-. done. Qed.

(** A step that changes the file but neither its bytes nor its mode. *)
Lemma holds_same_bytes w w' f f' data :
  writable_file_ w = Some f -> writable_file_ w' = Some f' -> works f' -> same_mode f f' -> bytes_of f' = bytes_of f ->
  kept w w' -> buf_ w' = buf_ w -> next_write_offset_ w' = next_write_offset_ w ->
  (holds w data -> holds w' data) /\ (in_file w data -> in_file w' data).
Proof.
  intros Hf Hf' Hw Hm Hb Hk Hbuf Hn. destruct (same_mode_spec _ _ Hm) as (M1 & _ & M3). split.
  - intros Hh. destruct (holds_inv w data f Hh Hf) as (Hl & _ & E1 & E2 & Hd).
    split; [by rewrite (k_os _ _ Hk)|]. exists f'. split; [done|]. split; [done|]. rewrite M1, M3, (k_os _ _ Hk), Hbuf, Hn, Hb. done.
  - intros (f0 & E & Hz & Ht). rewrite Hf in E. injection E as <-. exists f'. by rewrite Hb.
Qed.

Lemma whole_full b : buffer_ok b -> cursize_ b = capacity_ b -> whole b = cursize_ b.
Proof. intros Hok E. unfold whole. rewrite E, (bo_units _ Hok). lia. Qed.

Lemma filled_nil b : buffer_ok b -> cursize_ b = 0 -> filled b = [].
Proof. intros Hok E. unfold filled. by rewrite E. Qed.

Lemma read_all w : buffer_ok (buf_ w) ->
  on_buf (fun b => l ← read_at b (BufferStart b) (CurrentSize b); Ret (l, b)) w = Ret (filled (buf_ w), w).
Proof.
  intros Hok. rewrite (on_buf_eq _ w (filled (buf_ w)) (buf_ w)); [by rewrite set_buf_same|]. by rewrite read_filled.
Qed.

Lemma overwrite_take l i d n : 0 <= i <= zlen l -> 0 <= n <= zlen d ->
  ztake (i + n) (overwrite l i d) = ztake i l ++ ztake n d /\ i + zlen d <= zlen (overwrite l i d).
Proof.
  intros Hi Hn. unfold overwrite. split.
  - rewrite ztake_app_ge by (rewrite zlen_ztake by lia; lia). f_equal. rewrite zlen_ztake by lia.
    rewrite ztake_app_le by lia. f_equal. lia.
  - rewrite !zlen_app, zlen_ztake by lia. pose proof (zlen_nonneg (zdrop (i + zlen d) l)). lia.
Qed.

Lemma set_file_ok w x : writer_ok w -> writer_ok (set_file w x) /\ kept w (set_file w x).
Proof. intros [? ? ? ? ? ?]. split; by constructor. Qed.
Lemma set_buf_ok w b : writer_ok w -> buffer_ok b -> same_block (buf_ w) b -> writer_ok (set_buf w b) /\ kept w (set_buf w b).
Proof. intros [? ? ? ? ? ?] Hb (Ea & Ec & Es). split; constructor; simpl; rewrite ?Ea, ?Ec; done. Qed.

(** What an operation guarantees: [drained] says that nothing is left in the buffer. *)
Record flushed (w : WritableFileWriter) (s : Status) (w' : WritableFileWriter) : Prop := {
  fl_ok : writer_ok w';
  fl_kept : kept w w';
  fl_open : exists f, writable_file_ w' = Some f;
  fl_cap : capacity_ (buf_ w') = capacity_ (buf_ w);
  fl_drained : ok s = true -> use_os_buffer_ w = true \/ cursize_ (buf_ w) = capacity_ (buf_ w) -> cursize_ (buf_ w') = 0;
  fl_holds : forall data, holds w data -> ok s = true /\ holds w' data /\ in_file w' data;
}.

Lemma write_out_buffered w f : writer_ok w -> writable_file_ w = Some f -> use_os_buffer_ w = true -> 0 < cursize_ (buf_ w) ->
  exists s w', write_out w = Ret (s, w') /\ flushed w s w'.
Proof.
  intros Hw Hf Hos Hp. pose proof (wo_buf _ Hw) as Hbuf. pose proof (zlen_filled _ Hbuf) as Hzf. pose proof (wo_cap _ Hw).
  pose proof (WriteBuffered_eq (filled (buf_ w)) w f Hf Hos ltac:(lia)) as E. destruct (file_Append f (filled (buf_ w))) as [s f'] eqn:EA.
  assert (buffer_ok (Size (buf_ w) 0)) as Hb0 by (apply Size_ok; [done|pose proof (bo_size _ Hbuf); lia]).
  exists (if ok s then OK else s), (if ok s then set_buf (set_file w (Some f')) (Size (buf_ w) 0) else set_file w (Some f')). split.
  - unfold write_out. wnext. unfold CurrentSize at 1. replace (0 <? cursize_ (buf_ w)) with true by lia. rewrite Hos.
    wstep (read_all w Hbuf). rewrite E. by destruct (ok s).
  - assert (forall data, holds w data -> ok s = true /\ works f' /\ same_mode f f' /\ bytes_of f' = data) as Hd.
    { intros data Hh. destruct (holds_inv w data f Hh Hf) as (Hl & Hwk & Hm & _ & Hd). rewrite Hos in Hl, Hm, Hd.
      rewrite <- Hd in Hl. pose proof (works_Append f (filled (buf_ w)) Hwk Hm Hl) as (A1 & A2 & A3 & A4). rewrite EA in *. simpl in *. by rewrite A4. }
    destruct (set_file_ok w (Some f') Hw) as [Hw1 Hk1]. destruct (ok s) eqn:Eok.
    2: { constructor; try done; [by exists f'|by rewrite Eok|]. intros data Hh. by destruct (Hd data Hh). }
    destruct (set_buf_ok (set_file w (Some f')) (Size (buf_ w) 0) Hw1 Hb0) as [Hw2 Hk2]; [done|].
    constructor; try done; [by exists f'|].
    intros data Hh. destruct (Hd data Hh) as (_ & Hwk & Hm & Hby). pose proof (holds_inv w data f Hh Hf) as (Hl & _ & E1 & E2 & _).
    destruct (same_mode_spec _ _ Hm) as (M1 & _ & M3). split; [done|]. split.
    + split; [done|]. exists f'. split; [done|]. split; [done|]. simpl. rewrite M1, M3, Hos in *. split; [done|]. split; [done|].
      rewrite Hby. rewrite filled_nil; [apply app_nil_r|done|done].
    + exists f'. split; [done|]. rewrite Hby. split; [done|]. by apply ztake_ge.
Qed.

Lemma write_out_unbuffered w f : writer_ok w -> writable_file_ w = Some f -> use_os_buffer_ w = false -> 0 < cursize_ (buf_ w) ->
  exists s w', write_out w = Ret (s, w') /\ flushed w s w'.
Proof.
  intros Hw Hf Hos Hp. pose proof (wo_buf _ Hw) as Hbuf. destruct (whole_range _ Hbuf) as [Hwr _].
  destruct (WriteUnbuffered_spec w f Hw Hf Hos Hp) as (n & Hn & Hnm & Hst & HW).
  destruct (PositionedAppend f _ _ _) as [s f'] eqn:EA. destruct HW as (w' & E & Hw' & Hk & Hf' & Hls & Hc & Hnext).
  exists s, w'. split.
  { unfold write_out. wnext. unfold CurrentSize at 1. replace (0 <? cursize_ (buf_ w)) with true by lia. by rewrite Hos. }
  pose proof (zlen_filled _ Hbuf) as Hzf. pose proof (zlen_filled _ (wo_buf _ Hw')) as Hzf'.
  assert (forall data, holds w data -> ok s = true /\ works f' /\ same_mode f f' /\
    bytes_of f' = overwrite (bytes_of f) (next_write_offset_ w) (filled (buf_ w) ++ zrep n x00)) as Hd.
  { intros data Hh. destruct (holds_inv w data f Hh Hf) as (_ & Hwk & Hm & Hal & Hd). rewrite Hos in Hm, Hd. destruct Hd as [Hnl Hd].
    pose proof (works_PositionedAppend f (bufstart_ (buf_ w)) (filled (buf_ w) ++ zrep n x00) (next_write_offset_ w) Hwk Hm) as HA.
    rewrite Hal, EA in HA. rewrite zlen_app, zlen_zrep, Hzf in HA by lia. destruct (wo_next _ Hw) as [Hnx Hn0].
    destruct (HA Hst Hnx Hnm ltac:(lia)) as (A1 & A2 & A3 & A4). done. }
  constructor; try done; [by exists f'| |].
  - intros Eok [Hc1|Hc1]; [by rewrite Hos in Hc1|]. rewrite Eok in Hnext. destruct Hnext as [_ Hfl].
    rewrite (whole_full _ Hbuf Hc1), zdrop_ge in Hfl by lia. rewrite Hfl, zlen_nil in Hzf'. done.
  - intros data Hh. destruct (Hd data Hh) as (Eok & Hwk & Hm & Hby). destruct (holds_inv w data f Hh Hf) as (Hl & _ & E1 & E2 & Hdd).
    rewrite Hos in Hl, Hdd. simpl in Hl. destruct Hdd as [Hnl Hdd]. destruct (wo_next _ Hw) as [_ Hn0]. rewrite Eok in Hnext. destruct Hnext as [Hnx Hfl].
    assert (zlen data = next_write_offset_ w + cursize_ (buf_ w)) as Hzd by (rewrite <- Hdd, zlen_app, zlen_ztake, Hzf; lia).
    change (2 ^ 63) with 9223372036854775808 in Hl. rewrite u64_small in Hnx by lia.
    assert (zlen (filled (buf_ w) ++ zrep n x00) = cursize_ (buf_ w) + n) as Hzo by (rewrite zlen_app, zlen_zrep; lia).
    destruct (overwrite_take (bytes_of f) (next_write_offset_ w) (filled (buf_ w) ++ zrep n x00) (whole (buf_ w))) as [O1 O2]; [lia|lia|].
    destruct (overwrite_take (bytes_of f) (next_write_offset_ w) (filled (buf_ w) ++ zrep n x00) (cursize_ (buf_ w))) as [O3 _]; [lia|lia|].
    rewrite <- Hby in O1, O2, O3. destruct (same_mode_spec _ _ Hm) as (M1 & _ & M3). split; [done|]. split.
    + split; [by rewrite (k_os _ _ Hk), Hos|]. exists f'. split; [done|]. split; [done|].
      rewrite M1, M3, (k_os _ _ Hk), (k_align _ _ Hk), Hos, Hnx. rewrite Hos in E1. split; [done|]. split; [done|]. split; [lia|].
      rewrite O1, Hfl, <- app_assoc, ztake_app_le by lia. by rewrite ztake_zdrop.
    + exists f'. split; [done|]. split; [lia|]. rewrite Hzd, O3, ztake_app_le, (ztake_ge (cursize_ (buf_ w))) by lia. done.
Qed.

Lemma write_out_spec w f : writer_ok w -> writable_file_ w = Some f ->
  exists s w', write_out w = Ret (s, w') /\ flushed w s w'.
Proof.
  intros Hw Hf. pose proof (wo_buf _ Hw) as Hbuf. pose proof (bo_size _ Hbuf).
  destruct (decide (0 < cursize_ (buf_ w))) as [Hp|Hp].
  { destruct (use_os_buffer_ w) eqn:Hos; eauto using write_out_buffered, write_out_unbuffered. }
  exists OK, w. split.
  - unfold write_out. wnext. unfold CurrentSize. by replace (0 <? cursize_ (buf_ w)) with false by lia.
  - constructor; try done; [by exists f|intros; lia|].
    intros data Hh. split; [done|]. split; [done|]. destruct (holds_inv w data f Hh Hf) as (_ & _ & _ & _ & Hd).
    rewrite filled_nil, !app_nil_r in Hd by (done || lia). exists f. split; [done|]. destruct (use_os_buffer_ w).
    + rewrite Hd. split; [done|]. by apply ztake_ge.
    + destruct Hd as [Hn Hd]. destruct (wo_next _ Hw) as [_ Hn0]. rewrite <- Hd at 1 2. rewrite zlen_ztake by lia.
      split; [lia|]. by replace (Z.min (next_write_offset_ w) (zlen (bytes_of f))) with (next_write_offset_ w) by lia.
Qed.

(** A call that changes nothing of the file's bytes keeps everything. *)
Lemma quiet_call w f op s f' : writer_ok w -> writable_file_ w = Some f -> op f = (s, f') ->
  (works f -> ok s = true /\ works f' /\ same_mode f f' /\ bytes_of f' = bytes_of f) ->
  on_file op w = Ret (s, set_file w (Some f')) /\ writer_ok (set_file w (Some f')) /\ kept w (set_file w (Some f')) /\
  forall data, holds w data -> ok s = true /\ holds (set_file w (Some f')) data /\ (in_file w data -> in_file (set_file w (Some f')) data).
Proof.
  intros Hw Hf E Hq. destruct (set_file_ok w (Some f') Hw) as [Hw' Hk']. split; [by apply on_file_eq with f|]. do 2 (split; [done|]).
  intros data Hh. destruct (holds_inv w data f Hh Hf) as (_ & Hwk & _). destruct (Hq Hwk) as (Hs & Hwk' & Hm & Hb).
  destruct (holds_same_bytes w (set_file w (Some f')) f f' data Hf eq_refl Hwk' Hm Hb Hk' eq_refl eq_refl) as [H1 H2].
  split; [done|]. split; [by apply H1|done].
Qed.

Lemma Flush_sync_spec w f s : writer_ok w -> writable_file_ w = Some f ->
  exists s' w' f', Flush_sync s w = Ret (s', w') /\ writer_ok w' /\ kept w w' /\ writable_file_ w' = Some f' /\ buf_ w' = buf_ w /\
    forall data, holds w data -> ok s = true -> ok s' = true /\ holds w' data /\ (in_file w data -> in_file w' data).
Proof.
  intros Hw Hf. assert (exists s' w' f', (mret s : W Status) w = Ret (s', w') /\ writer_ok w' /\ kept w w' /\ writable_file_ w' = Some f' /\ buf_ w' = buf_ w /\
    forall data, holds w data -> ok s = true -> ok s' = true /\ holds w' data /\ (in_file w data -> in_file w' data)) as Hno.
  { exists s, w, f. split; [done|]. split; [done|]. split; [apply wkept_refl|]. done. }
  unfold Flush_sync. wstep (eq_refl : @wget F w = Ret (w, w)).
  destruct (negb (direct_io_ w) && negb (bytes_per_sync_ w =? 0) && (kBytesNotSyncRange <? filesize_ w)) eqn:Ec; [|exact Hno].
  apply andb_true_iff in Ec as [Eb Ec]. apply Z.ltb_lt in Ec. apply andb_true_iff in Eb as [_ Eb].
  apply negb_true_iff, Z.eqb_neq in Eb.
  pose proof (wo_size _ Hw) as Hsz. destruct (wo_sync _ Hw) as [|[Hsy Hs63]]; [done|]. change (2 ^ 63) with 9223372036854775808 in Hs63. change (2 ^ 64) with 18446744073709551616 in Hsz.
  unfold synced_up_to in Hsy. set (d := filesize_ w - kBytesNotSyncRange) in *. assert (kBytesNotSyncRange = 1048576) by done. assert (0 <= d < 18446744073709551616) by (unfold d; lia).
  rewrite (u64_small d) by lia. set (t := d - d mod kBytesAlignWhenSync) in *.
  assert (0 <= t <= d) by (unfold t, kBytesAlignWhenSync; dlia). rewrite (u64_small t) by lia.
  rewrite (W_bind_ret _ _ _ _ _ (wassert_eq (last_sync_size_ w <=? t) w ltac:(lia))).
  destruct ((0 <? t) && _); [|exact Hno].
  destruct (file_RangeSync f (last_sync_size_ w) (u64 (t - last_sync_size_ w))) as [s1 f1] eqn:ER.
  destruct (quiet_call w f (fun f => file_RangeSync f (last_sync_size_ w) (u64 (t - last_sync_size_ w))) s1 f1 Hw Hf ER) as (E & Hw1 & Hk1 & Hd).
  { intros Hwk. apply (works_quiet f (s1, f1) Hwk). do 3 right. exists (last_sync_size_ w), (u64 (t - last_sync_size_ w)). rewrite u64_small by lia. change (2 ^ 63) with 9223372036854775808. split_and!; [lia|lia|lia|]. by rewrite u64_small in ER by lia. }
  exists s1, (set_sync (set_file w (Some f1)) (pending_sync_ w) t), f1. split; [unfold RangeSync; wstep E; by wnext|].
  split; [|split; [|split; [done|split; [done|]]]].
  - destruct Hw1 as [? ? ? ? ? ?]. constructor; try done. right. simpl. unfold synced_up_to. fold d. fold t. change (2 ^ 63) with 9223372036854775808. lia.
  - by destruct Hk1.
  - intros data Hh Hs. destruct (Hd data Hh) as (Hs1 & [Hl (g & Eg & Hg)] & Hin). split; [done|]. split.
    + split; [done|]. exists g. done.
    + intros Hf0. destruct (Hin Hf0) as (g' & Eg' & ?). by exists g'.
Qed.

Lemma Flush_spec w f : writer_ok w -> writable_file_ w = Some f ->
  exists s w', Flush w = Ret (s, w') /\ flushed w s w'.
Proof.
  intros Hw Hf. destruct (write_out_spec w f Hw Hf) as (s1 & w1 & E1 & [Hw1 Hk1 [f1 Hf1] Hc1 Hd1 Hh1]).
  assert (forall r, (if negb (ok s1) then mret s1 else s ← on_file file_Flush; if negb (ok s) then mret s else Flush_sync s : W Status) w1 = r -> Flush w = r) as Hrun.
  { intros r E. unfold Flush. by wstep E1. }
  destruct (ok s1) eqn:Es1.
  2: { exists s1, w1. split; [apply Hrun; done|]. constructor; try done; [by exists f1|by rewrite Es1|]. intros data Hh. by destruct (Hh1 data Hh). }
  destruct (file_Flush f1) as [s2 f2] eqn:EF.
  destruct (quiet_call w1 f1 file_Flush s2 f2 Hw1 Hf1 EF) as (E2 & Hw2 & Hk2 & Hd2).
  { intros Hwk. apply (works_quiet f1 (s2, f2) Hwk). by left. }
  destruct (ok s2) eqn:Es2.
  2: { exists s2, (set_file w1 (Some f2)). split; [apply Hrun; simpl; wstep E2; by rewrite Es2|].
       constructor; try done; [by eapply wkept_trans|by exists f2|by rewrite Es2|]. intros data Hh. destruct (Hh1 data Hh) as (_ & Hh' & _). by destruct (Hd2 data Hh'). }
  destruct (Flush_sync_spec (set_file w1 (Some f2)) f2 s2 Hw2 eq_refl) as (s3 & w3 & f3 & E3 & Hw3 & Hk3 & Hf3 & Hb3 & Hd3).
  exists s3, w3. split; [apply Hrun; simpl; wstep E2; by rewrite Es2|]. constructor; try done.
  - eapply wkept_trans; [exact Hk1|]. by eapply wkept_trans.
  - by exists f3.
  - by rewrite Hb3.
  - intros _ Hc. rewrite Hb3. by apply Hd1.
  - intros data Hh. destruct (Hh1 data Hh) as (_ & Hh' & Hin). destruct (Hd2 data Hh') as (_ & Hh2 & Hin2).
    destruct (Hd3 data Hh2 Es2) as (Hs & Hh3 & Hin3). split; [done|]. split; [done|]. by apply Hin3, Hin2.
Qed.

(** An empty buffer may be replaced by a larger one. *)
Lemma grow_spec w : writer_ok w -> cursize_ (buf_ w) = 0 ->
  exists w', grow new_chars w = Ret (tt, w') /\ writer_ok w' /\ kept w w' /\ writable_file_ w' = writable_file_ w /\
    cursize_ (buf_ w') = 0 /\ forall data, holds w data -> holds w' data.
Proof.
  intros Hw Hc. destruct Hw as [Hb Hcap Hmx Hnx Hsz Hsy]. pose proof (ok_alignment _ Hb) as [_ Hcb].
  assert (forall b, buffer_ok b -> cursize_ b = 0 -> 1 <= capacity_ b -> alignment_ b = alignment_ (buf_ w) ->
    writer_ok (set_buf w b) /\ kept w (set_buf w b) /\ writable_file_ (set_buf w b) = writable_file_ w /\
    cursize_ (buf_ (set_buf w b)) = 0 /\ forall data, holds w data -> holds (set_buf w b) data) as Hmk.
  { intros b Hb' Hc' Hcap' Ha'. split; [constructor; simpl; rewrite ?Ha'; done|]. split; [by constructor|]. split; [done|]. split; [done|].
    intros data [Hl (f & Hf & Hwk & M1 & M2 & Hd)]. split; [done|]. exists f. split; [done|]. split; [done|]. split; [done|].
    simpl. rewrite Ha'. split; [done|]. by rewrite (filled_nil b), <- (filled_nil (buf_ w)). }
  destruct (Z.ltb_spec (capacity_ (buf_ w)) (max_buffer_size_ w)) as [Hlt|Hge].
  - destruct (bo_align _ Hb) as (k & Hk & Ek). change (2 ^ 61) with 2305843009213693952 in Hmx.
    destruct (AllocateNewBuffer_spec new_chars (buf_ w) k (Z.min (capacity_ (buf_ w) * 2) (max_buffer_size_ w)) Ek Hk) as (b & E & Hb' & Ha & Hcr & _ & Hc').
    { change (2 ^ 61) with 2305843009213693952. lia. }
    exists (set_buf w b). split; [|apply Hmk; [done|done|lia|done]].
    unfold grow, Capacity. wnext. replace (_ <? _) with true by lia. rewrite u64_small by lia.
    by apply (buf_unit_eq (fun b => AllocateNewBuffer new_chars b _)).
  - exists w. split; [|by pose proof (Hmk (buf_ w) Hb Hc Hcap eq_refl) as Hm; rewrite set_buf_same in Hm].
    unfold grow, Capacity. wnext. by replace (_ <? _) with false by lia.
Qed.

Lemma Append_loop_spec fuel src w : writer_ok w -> (exists f, writable_file_ w = Some f) ->
  zlen src + (if decide (cursize_ (buf_ w) = capacity_ (buf_ w)) then 1 else 0) <= Z.of_nat fuel ->
  exists s w', Append_loop new_chars fuel src w = Ret (s, w') /\ writer_ok w' /\ kept w w' /\ (exists f, writable_file_ w' = Some f) /\
    forall data, holds w data -> size_fits (use_os_buffer_ w) (zlen (data ++ src)) -> ok s = true /\ holds w' (data ++ src).
Proof.
  revert src w. induction fuel as [|fuel IH]; intros src w Hw Hf Hfu; pose proof (zlen_nonneg src) as Hz; cbn [Append_loop].
  all: destruct (Z.ltb_spec 0 (zlen src)) as [Hp|Hp].
  1: destruct (decide _); lia.
  1, 3: exists OK, w; split; [done|]; split; [done|]; split; [apply wkept_refl|]; split; [done|]; intros data Hh _; by rewrite (zlen_zero src), app_nil_r by lia.
  pose proof (wo_buf _ Hw) as Hb. pose proof (bo_size _ Hb) as Hs. pose proof (wo_cap _ Hw) as Hcap.
  destruct (Append_spec (buf_ w) src Hb) as (n & b1 & EA & Hn & Hb1 & Hsb & Hc1 & Hf1).
  destruct (set_buf_ok w b1 Hw Hb1 Hsb) as [Hw1 Hk1]. wstep (on_buf_eq (fun b => AlignedBuffer.Append b src) w n b1 EA).
  assert (forall data, holds w data -> size_fits (use_os_buffer_ w) (zlen (data ++ src)) -> holds (set_buf w b1) (data ++ ztake n src)) as Hh1.
  { intros data [Hl (f & Ef & Hwk & M1 & M2 & Hd)] Hl2. rewrite zlen_app in Hl2.
    split; [eapply size_fits_le; [exact Hl2|rewrite zlen_app, zlen_ztake by lia; lia]|].
    destruct Hsb as (Ea & Ec & Es). exists f. split; [done|]. split; [done|]. simpl. rewrite Ea. split; [done|]. split; [done|].
    destruct (use_os_buffer_ w); [by rewrite Hf1, app_assoc, Hd|]. destruct Hd as [Hnx Hd]. by rewrite Hf1, app_assoc, Hd. }
  destruct (Z.ltb_spec 0 (zlen (zdrop n src))) as [Hp2|Hp2].
  2: { exists OK, (set_buf w b1). split; [done|]. split; [done|]. split; [done|]. split; [done|]. intros data Hh Hl. split; [done|].
       pose proof (Hh1 data Hh Hl) as Hr. rewrite zlen_zdrop in Hp2 by lia. by rewrite ztake_ge in Hr by lia. }
  rewrite zlen_zdrop in Hp2 by lia. destruct Hf as [f Hf].
  destruct (Flush_spec (set_buf w b1) f Hw1 Hf) as (s & w2 & E2 & [Hw2 Hk2 Hf2 Hc2 Hdr2 Hh2]). wstep E2.
  destruct (ok s) eqn:Es.
  2: { exists s, w2. split; [done|]. split; [done|]. split; [by eapply wkept_trans|]. split; [done|].
       intros data Hh Hl. by destruct (Hh2 _ (Hh1 data Hh Hl)). }
  cbn [negb]. assert (cursize_ (buf_ w2) = 0) as Hc0.
  { apply Hdr2; [done|]. right. simpl. destruct Hsb as (_ & -> & _). lia. }
  destruct (grow_spec w2 Hw2 Hc0) as (w3 & E3 & Hw3 & Hk3 & Hf3 & Hc3 & Hh3). wstep E3.
  destruct (IH (zdrop n src) w3 Hw3) as (s4 & w4 & E4 & Hw4 & Hk4 & Hf4 & Hh4).
  - by rewrite Hf3.
  - rewrite zlen_zdrop by lia. pose proof (wo_cap _ Hw3). rewrite decide_False by lia. destruct (decide _) in Hfu; lia.
  - exists s4, w4. split; [exact E4|]. split; [done|]. split.
    + eapply wkept_trans; [exact Hk1|]. eapply wkept_trans; [exact Hk2|]. by eapply wkept_trans.
    + split; [done|]. intros data Hh Hl. destruct (Hh2 _ (Hh1 data Hh Hl)) as (_ & Hh' & _).
      specialize (Hh4 _ (Hh3 _ Hh')). rewrite <- app_assoc, ztake_zdrop in Hh4. apply Hh4.
      by rewrite (k_os _ _ Hk3), (k_os _ _ Hk2), (k_os _ _ Hk1).
Qed.

Lemma make_room_spec left w f : writer_ok w -> writable_file_ w = Some f ->
  exists r w', make_room new_chars left w = Ret (r, w') /\ writer_ok w' /\ kept w w' /\ (exists f, writable_file_ w' = Some f) /\
    (r = None -> use_os_buffer_ w = true -> capacity_ (buf_ w') < left -> cursize_ (buf_ w') = 0) /\
    (forall s, r = Some s -> ok s = false) /\
    forall data, holds w data -> r = None /\ holds w' data.
Proof.
  intros Hw Hf. pose proof (wo_buf _ Hw) as Hb. pose proof (bo_size _ Hb) as Hs. pose proof (ok_alignment _ Hb) as [_ Hcb].
  destruct (use_os_buffer_ w && (u64 (Capacity (buf_ w) - CurrentSize (buf_ w)) <? left)) eqn:Ec.
  2: { exists None, w. split; [unfold make_room; wnext; by rewrite Ec|]. split; [done|]. split; [apply wkept_refl|]. split; [by exists f|].
       split; [|done]. intros _ Hos Hl. rewrite Hos in Ec. unfold Capacity, CurrentSize in Ec. rewrite u64_small in Ec by lia. lia. }
  pose proof Ec as [Hos _]%andb_true_iff.
  assert (exists s w1, (if 0 <? CurrentSize (buf_ w) then Flush else mret OK : W Status) w = Ret (s, w1) /\ flushed w s w1) as (s & w1 & E1 & [Hw1 Hk1 Hf1 Hc1 Hd1 Hh1]).
  { destruct (Z.ltb_spec 0 (CurrentSize (buf_ w))) as [Hp|Hp]; [by apply (Flush_spec w f)|].
    destruct (write_out_spec w f Hw Hf) as (s & w1 & E1 & HF). exists s, w1. split; [|done]. rewrite <- E1. unfold write_out.
    symmetry. wnext. by replace (0 <? CurrentSize (buf_ w)) with false by lia. }
  destruct (ok s) eqn:Es.
  2: { exists (Some s), w1. split; [unfold make_room; wnext; rewrite Ec; wstep E1; by rewrite Es|]. split; [done|]. split; [done|]. split; [done|].
       split; [done|]. split; [by intros ? [= <-]|]. intros data Hh. by destruct (Hh1 data Hh). }
  assert (cursize_ (buf_ w1) = 0) as Hc0 by (apply Hd1; [done|by left]).
  destruct (grow_spec w1 Hw1 Hc0) as (w2 & E2 & Hw2 & Hk2 & Hf2 & Hc2 & Hh2).
  exists None, w2. split; [unfold make_room; wnext; rewrite Ec; wstep E1; rewrite Es; cbn [negb]; wstep E2; wnext; unfold CurrentSize; by wnext|].
  split; [done|]. split; [by eapply wkept_trans|]. split; [by rewrite Hf2|]. split; [done|]. split; [done|].
  intros data Hh. split; [done|]. by apply Hh2, Hh1.
Qed.

Lemma put_spec d w f : writer_ok w -> writable_file_ w = Some f ->
  (use_os_buffer_ w = true -> capacity_ (buf_ w) < zlen d -> cursize_ (buf_ w) = 0) ->
  exists s w', put new_chars d w = Ret (s, w') /\ writer_ok w' /\ kept w w' /\ (exists f, writable_file_ w' = Some f) /\
    forall data, holds w data -> size_fits (use_os_buffer_ w) (zlen (data ++ d)) -> ok s = true /\ holds w' (data ++ d).
Proof.
  intros Hw Hf Hroom. pose proof (wo_buf _ Hw) as Hb. pose proof (wo_cap _ Hw). pose proof (zlen_nonneg d). unfold Capacity in *.
  destruct (negb (use_os_buffer_ w) || (zlen d <=? capacity_ (buf_ w))) eqn:Ec.
  - destruct (Append_loop_spec (S (Z.to_nat (zlen d))) d w Hw) as (s & w' & E & HR); [by exists f|destruct (decide _); lia|].
    exists s, w'. split; [|done]. unfold put, Capacity. wnext. by rewrite Ec.
  - apply orb_false_iff in Ec as [Hos Hl]. apply negb_false_iff in Hos. specialize (Hroom Hos ltac:(lia)).
    pose proof (WriteBuffered_eq d w f Hf Hos ltac:(lia)) as E. destruct (file_Append f d) as [s f'] eqn:EA.
    assert (buffer_ok (Size (buf_ w) 0)) as Hb0 by (apply Size_ok; [done|lia]).
    destruct (set_file_ok w (Some f') Hw) as [Hw1 Hk1]. destruct (set_buf_ok (set_file w (Some f')) (Size (buf_ w) 0) Hw1 Hb0) as [Hw2 Hk2]; [done|].
    assert (put new_chars d w = Ret (if ok s then (OK, set_buf (set_file w (Some f')) (Size (buf_ w) 0)) else (s, set_file w (Some f')))) as Ep.
    { unfold put, Capacity, CurrentSize. wnext. rewrite Hos, Hl. cbn [negb orb]. wnext. exact E. }
    assert (forall data, holds w data -> size_fits (use_os_buffer_ w) (zlen (data ++ d)) -> ok s = true /\ works f' /\ same_mode f f' /\
      bytes_of f' = data ++ d /\ UseOSBuffer f = true /\ GetRequiredBufferAlignment f = alignment_ (buf_ w)) as HA.
    { intros data Hh Hsz. destruct (holds_inv w data f Hh Hf) as (_ & Hwk & M1 & M3 & Hd). rewrite Hos in M1, Hd, Hsz. simpl in Hsz.
      rewrite (filled_nil (buf_ w)), app_nil_r in Hd by done. rewrite <- Hd in Hsz |- *.
      pose proof (works_Append f d Hwk M1 Hsz) as (A1 & A2 & A3 & A4). rewrite EA in A1, A2, A3, A4. done. }
    destruct (ok s) eqn:Es.
    + exists OK, (set_buf (set_file w (Some f')) (Size (buf_ w) 0)). split; [done|]. split; [done|]. split; [by eapply wkept_trans|]. split; [by exists f'|].
      intros data Hh Hl2. destruct (HA data Hh Hl2) as (_ & A2 & A3 & A4 & M1 & M3). split; [done|]. split; [done|]. exists f'. split; [done|].
      destruct (same_mode_spec _ _ A3) as (N1 & _ & N3). split; [done|]. simpl. rewrite N1, N3, Hos. split; [done|]. split; [done|].
      by rewrite (filled_nil (Size _ _)), app_nil_r by done.
    + exists s, (set_file w (Some f')). split; [done|]. split; [done|]. split; [done|]. split; [by exists f'|].
      intros data Hh Hl2. by destruct (HA data Hh Hl2).
Qed.

Lemma FileWriter_Append_spec d w f : writer_ok w -> writable_file_ w = Some f -> bytes_per_sync_ w = 0 \/ filesize_ w + zlen d < 2 ^ 63 ->
  exists s w', FileWriter.Append new_chars d w = Ret (s, w') /\ writer_ok w' /\ (exists f, writable_file_ w' = Some f) /\
    filesize_ w' = (if ok s then u64 (filesize_ w + zlen d) else filesize_ w) /\ use_os_buffer_ w' = use_os_buffer_ w /\
    bytes_per_sync_ w' = bytes_per_sync_ w /\ direct_io_ w' = direct_io_ w /\
    forall data, holds w data -> size_fits (use_os_buffer_ w) (zlen (data ++ d)) -> ok s = true /\ holds w' (data ++ d).
Proof.
  intros Hw Hf Hsz. pose proof (zlen_nonneg d) as Hz. set (w0 := set_sync w true (last_sync_size_ w)).
  assert (writer_ok w0) as Hw0 by (by destruct Hw). assert (forall data, holds w data -> holds w0 data) as Hh0.
  { intros data [Hl (g & Hg & Hh)]. split; [done|]. exists g. done. }
  destruct (quiet_call w0 f (fun f => (OK, file_PrepareWrite f (filesize_ w) (zlen d))) OK _ Hw0 Hf eq_refl) as (E1 & Hw1 & Hk1 & Hh1).
  { intros Hwk. destruct (works_PrepareWrite f (filesize_ w) (zlen d) Hwk) as (? & ? & ?). done. }
  set (w1 := set_file w0 (Some (file_PrepareWrite f (filesize_ w) (zlen d)))) in *.
  destruct (make_room_spec (zlen d) w1 _ Hw1 eq_refl) as (r & w2 & E2 & Hw2 & Hk2 & [f2 Hf2] & Hr2 & Hr2' & Hh2).
  assert (kept w0 w2) as Hk02 by (by eapply wkept_trans). pose proof (k_size _ _ Hk02) as Hs2. change (filesize_ w0) with (filesize_ w) in Hs2.
  assert (forall res, match r with Some s => (mret s : W Status) | None =>
      s ← put new_chars d; _ ← (if ok s then wmodify (fun w => set_sizes w (u64 (filesize_ w + zlen d)) (next_write_offset_ w)) else mret tt); mret s
    end w2 = res -> FileWriter.Append new_chars d w = res) as Hrun.
  { intros res <-. unfold FileWriter.Append. wnext. wnext. change (filesize_ (set_sync w true (last_sync_size_ w))) with (filesize_ w). wstep E1. by wstep E2. }
  destruct r as [s|].
  { exists s, w2. pose proof (Hr2' s eq_refl) as Es. rewrite Es. split; [by apply Hrun|]. split; [done|]. split; [by exists f2|].
    split; [lia|]. do 3 (split; [by destruct Hk02|]). intros data Hh _.
    destruct (Hh1 data (Hh0 data Hh)) as (_ & Hh' & _). by destruct (Hh2 data Hh'). }
  destruct (put_spec d w2 f2 Hw2 Hf2) as (s & w3 & E3 & Hw3 & Hk3 & [f3 Hf3] & Hh3); [intros Ho; apply Hr2; [done|by rewrite <- (k_os _ _ Hk2)]|].
  assert (kept w0 w3) as Hk03 by (by eapply wkept_trans). pose proof (k_size _ _ Hk03) as Hs3. change (filesize_ w0) with (filesize_ w) in Hs3.
  pose proof (wo_size _ Hw) as Hsz0. change (2 ^ 64) with 18446744073709551616 in *.
  assert (forall data, holds w data -> size_fits (use_os_buffer_ w) (zlen (data ++ d)) -> ok s = true /\ holds w3 (data ++ d)) as Hh.
  { intros data Hh Hl. destruct (Hh1 data (Hh0 data Hh)) as (_ & Hh' & _). destruct (Hh2 data Hh') as (_ & Hh''). apply Hh3; [done|].
    by rewrite (k_os _ _ Hk02). }
  destruct (ok s) eqn:Es.
  - exists s, (set_sizes w3 (u64 (filesize_ w3 + zlen d)) (next_write_offset_ w3)). rewrite Hs3.
    split; [apply Hrun; wstep E3; rewrite Es; wnext; by rewrite Hs3|]. split.
    { destruct Hw3 as [? ? ? ? ? Hsy]. rewrite Hs3, (k_bytes _ _ Hk03) in Hsy. pose proof (u64_range (filesize_ w + zlen d)) as Hur.
      constructor; try done; simpl; rewrite ?(k_bytes _ _ Hk03). destruct Hsz as [|Hsz]; [by left|]. destruct Hsy as [|Hsy]; [by left|right].
      pose proof (synced_up_to_mono (filesize_ w) (filesize_ w + zlen d) ltac:(lia)). rewrite u64_small by lia. lia. }
    split; [by exists f3|]. rewrite Es. split; [done|]. do 3 (split; [by destruct Hk03|]). intros data Hd Hl.
    destruct (Hh data Hd Hl) as (_ & Hl2 & g & Hg & Hh4). split; [done|]. split; [done|]. by exists g.
  - exists s, w3. split; [apply Hrun; wstep E3; rewrite Es; by wnext|]. rewrite Es. split; [done|]. split; [by exists f3|].
    split; [lia|]. do 3 (split; [by destruct Hk03|]). intros data Hd Hl. by destruct (Hh data Hd Hl).
Qed.

Lemma SyncInternal_spec b w f : writer_ok w -> writable_file_ w = Some f ->
  exists s w', SyncInternal b w = Ret (s, w') /\ writer_ok w' /\ kept w w' /\ (exists f, writable_file_ w' = Some f) /\
    forall data, holds w data -> ok s = true /\ holds w' data /\ (in_file w data -> in_file w' data).
Proof.
  intros Hw Hf. set (op := if b then file_Fsync else file_Sync). destruct (op f) as [s f'] eqn:E.
  destruct (quiet_call w f op s f' Hw Hf E) as (E1 & Hw1 & Hk1 & Hh1).
  { intros Hwk. apply (works_quiet f (s, f') Hwk). right. unfold op in E. destruct b; [right; by left|by left]. }
  exists s, (set_file w (Some f')). split; [unfold SyncInternal; by destruct b|]. split; [done|]. split; [done|]. split; [by exists f'|done].
Qed.

Lemma Sync_spec b w f : writer_ok w -> writable_file_ w = Some f ->
  exists s w', Sync b w = Ret (s, w') /\ writer_ok w' /\ (exists f, writable_file_ w' = Some f) /\ filesize_ w' = filesize_ w /\
    forall data, holds w data -> ok s = true /\ holds w' data /\ in_file w' data.
Proof.
  intros Hw Hf. destruct (Flush_spec w f Hw Hf) as (s1 & w1 & E1 & [Hw1 Hk1 [f1 Hf1] _ _ Hh1]).
  destruct (ok s1) eqn:Es1.
  2: { exists s1, w1. split; [unfold Sync; wstep E1; by rewrite Es1|]. split; [done|]. split; [by exists f1|]. split; [apply Hk1|].
       intros data Hh. by destruct (Hh1 data Hh). }
  assert (exists s2 w2, (if negb (direct_io_ w1) && pending_sync_ w1 then SyncInternal b else mret OK : W Status) w1 = Ret (s2, w2) /\
    writer_ok w2 /\ kept w1 w2 /\ (exists f, writable_file_ w2 = Some f) /\
    forall data, holds w1 data -> ok s2 = true /\ holds w2 data /\ (in_file w1 data -> in_file w2 data)) as (s2 & w2 & E2 & Hw2 & Hk2 & [f2 Hf2] & Hh2).
  { destruct (negb (direct_io_ w1) && pending_sync_ w1); [by apply SyncInternal_spec with f1|].
    exists OK, w1. split; [done|]. split; [done|]. split; [apply wkept_refl|]. split; [by exists f1|done]. }
  assert (forall data, holds w data -> ok s2 = true /\ holds w2 data /\ in_file w2 data) as Hh.
  { intros data Hd. destruct (Hh1 data Hd) as (_ & Hd1 & Hi1). destruct (Hh2 data Hd1) as (? & ? & Hi2). auto. }
  pose proof (wkept_trans _ _ _ Hk1 Hk2) as Hk. destruct (ok s2) eqn:Es2.
  - exists OK, (set_sync w2 false (last_sync_size_ w2)). split; [unfold Sync; wstep E1; rewrite Es1; cbn [negb]; wnext; wstep E2; rewrite Es2; cbn [negb]; by wnext|].
    split; [by destruct Hw2|]. split; [by exists f2|]. split; [apply Hk|]. intros data Hd. destruct (Hh data Hd) as (_ & [Hl (g & Hg & Hg2)] & Hi).
    split; [done|]. split; [split; [done|by exists g]|done].
  - exists s2, w2. split; [unfold Sync; wstep E1; rewrite Es1; cbn [negb]; wnext; wstep E2; by rewrite Es2|]. split; [done|]. split; [by exists f2|].
    split; [apply Hk|]. intros data Hd. by destruct (Hh data Hd).
Qed.

Lemma Close_file_spec w f : writer_ok w -> writable_file_ w = Some f ->
  exists s w' f', Close_file w = Ret (s, w') /\ writer_ok w' /\ writable_file_ w' = Some f' /\
    forall data, holds w data -> filesize_ w = zlen data -> ok s = true /\ bytes_of f' = data /\ exists g, works g /\ f' = (file_Close g).2.
Proof.
  intros Hw Hf. destruct (Flush_spec w f Hw Hf) as (s1 & w1 & E1 & [Hw1 Hk1 [f1 Hf1] _ _ Hh1]).
  destruct (Truncate f1 (filesize_ w1)) as [s2 f2] eqn:ET. destruct (file_Close f2) as [s3 f3] eqn:EC.
  destruct (set_file_ok w1 (Some f2) Hw1) as [Hw2 _]. destruct (set_file_ok (set_file w1 (Some f2)) (Some f3) Hw2) as [Hw3 _].
  eexists _, (set_file (set_file w1 (Some f2)) (Some f3)), f3. split; [|split; [exact Hw3|split; [done|]]].
  - unfold Close_file. wstep E1. wnext. rewrite (W_bind_ret _ _ _ _ _ (on_file_eq (fun f => Truncate f (filesize_ w1)) w1 f1 s2 f2 Hf1 ET)). cbv beta zeta.
    rewrite (W_bind_ret _ _ _ _ _ (on_file_eq file_Close (set_file w1 (Some f2)) f2 s3 f3 eq_refl EC)). cbv beta. reflexivity.
  - intros data Hh Hsz. destruct (Hh1 data Hh) as (Es1 & Hh' & (g & Hg & Hl & Hd)). rewrite Hf1 in Hg. injection Hg as <-.
    destruct (holds_inv w1 data f1 Hh' Hf1) as (_ & Hwk & Hos & _ & Hbuf). rewrite (k_size _ _ Hk1), Hsz in ET.
    pose proof (zlen_nonneg data). assert (UseOSBuffer f1 = true -> zlen data = zlen (bytes_of f1)) as Hall.
    { intros Ho. rewrite <- Hos, Ho in Hbuf. rewrite <- Hbuf in *. rewrite zlen_app in *. pose proof (zlen_nonneg (filled (buf_ w1))). lia. }
    destruct (works_Truncate f1 (zlen data) Hwk ltac:(lia) Hall) as (T1 & T2 & _ & T3). rewrite ET in T1, T2, T3. simpl in T1, T2, T3.
    destruct (works_Close f2 T2) as (C1 & C2). rewrite EC in C1, C2. simpl in C1, C2.
    rewrite T1, C1. simpl. split; [done|]. split; [by rewrite C2, T3|]. exists f2. by rewrite EC.
Qed.

Lemma WritableFileWriter_new_spec f k max bytes_per_sync :
  GetRequiredBufferAlignment f = 2 ^ k -> 0 <= k < 32 -> max < 2 ^ 61 ->
  exists w, WritableFileWriter_new new_chars f max bytes_per_sync = Ret w /\ writer_ok w /\ writable_file_ w = Some f /\
    filesize_ w = 0 /\ use_os_buffer_ w = UseOSBuffer f /\ bytes_per_sync_ w = bytes_per_sync /\
    (works f -> bytes_of f = [] -> holds w []).
Proof.
  intros Ha Hk Hm. unfold WritableFileWriter_new. assert (0 < 2 ^ k) by lia.
  assert (Alignment AlignedBuffer_new (GetRequiredBufferAlignment f) = Ret (mkBuffer (2 ^ k) 0 [] 0 0 0)) as ->.
  { unfold Alignment. rewrite Ha, assert_true; [done|]. unfold power_of_two. rewrite land_low, Z.mod_same by lia. lia. }
  bret. destruct (AllocateNewBuffer_spec new_chars (mkBuffer (2 ^ k) 0 [] 0 0 0) k 65536 eq_refl Hk) as (b & -> & Hb & Hal & Hc & Hf & Hcs).
  { change (2 ^ 61) with 2305843009213693952. lia. }
  bret. eexists. split; [reflexivity|]. simpl in Hal. split.
  - constructor; simpl; try done; [lia|right; unfold synced_up_to; simpl; lia].
  - do 4 (split; [done|]). intros Hwk Hby. split; [simpl; destruct (UseOSBuffer f); [apply file_fits_nil|done]|]. exists f. split; [done|]. split; [done|]. split; [done|]. simpl.
    rewrite Hf, Hby, Hal. split; [done|]. by destruct (UseOSBuffer f).
Qed.
End working.
End file_writer.
