(* ===== verification/FileWriterTheorems.v ===== *)
(** * FileWriterTheorems: the properties of [WritableFileWriter], and a log on top of it

    [WritableFileWriter] in the OS-buffered mode is a destination of the log writer
    ([FileWriter_reliable]), so that the theorems about logs hold for the bytes in a file. *)

From Stdlib Require Import Strings.Byte Strings.String.
From stdpp Require Import list.
From S2P Require Import Prelude.
From S2P Require Import Slice.
From S2P Require Import Coding.
From S2P Require Import Status.
From S2P Require Import AlignedBuffer.
From S2P Require Import FileApi.
From S2P Require Import FileWriter.
From S2P Require Import FileWriterSpec.
From S2P Require Import LogWriter.

(** ** Calls *)

Inductive writer_call : Type :=
| WAppend (data : Slice) | WFlush | WSync (use_fsync : bool) | WSyncWithoutFlush (use_fsync : bool) | WClose.

Section calls.
Context `{Host} {F : Type} `{WritableFile F} (new_chars : Z -> Z * list byte).

Definition writer_run (c : writer_call) : W (F := F) Status :=
  match c with
  | WAppend d => FileWriter.Append new_chars d
  | WFlush => Flush
  | WSync b => Sync b
  | WSyncWithoutFlush b => SyncWithoutFlush b
  | WClose => Close
  end.
End calls.

(** A file about which nothing is known satisfies the laws of a working file vacuously. *)
Definition unknown_file (F : Type) `{WritableFile F} : WorkingFile F.
Proof.
  refine {| bytes_of := fun _ => []; works := fun _ => False; file_fits := fun _ => True; same_mode := fun f f' =>
    UseOSBuffer f' = UseOSBuffer f /\ UseDirectIO f' = UseDirectIO f /\
    GetRequiredBufferAlignment f' = GetRequiredBufferAlignment f |}; by intros.
Defined.

(** C27: whatever the file does and whichever calls fail, a writer that is open stays
    consistent: each call returns, no assertion fails, no byte outside of the buffer is
    touched, every positional write starts at a multiple of the alignment; only [Close]
    lets go of the file. *)
Theorem file_writer_never_aborts `{Host} {F} `{WritableFile F} new_chars `{Allocator new_chars} (w : WritableFileWriter (F := F)) f c :
  writer_ok w -> writable_file_ w = Some f ->
  (forall d, c = WAppend d -> bytes_per_sync_ w = 0 \/ filesize_ w + zlen d < 2 ^ 63) ->
  exists s w', writer_run new_chars c w = Ret (s, w') /\ writer_ok w' /\ (writable_file_ w' = None <-> c = WClose).
Proof.
  intros Hw Hf Hc. pose (unknown_file F) as HWF.
  assert (forall s w', (exists f', writable_file_ w' = Some f') -> c <> WClose -> writer_run new_chars c w = Ret (s, w') -> writer_ok w' ->
    exists s w', writer_run new_chars c w = Ret (s, w') /\ writer_ok w' /\ (writable_file_ w' = None <-> c = WClose)) as Hret.
  { intros s w' [f' Hf'] Hne E Hw'. exists s, w'. rewrite Hf'. split; [done|]. split; [done|]. by split. }
  destruct c as [d| |b|b|]; cbn [writer_run] in *.
  - destruct (FileWriter_Append_spec new_chars d w f Hw Hf (Hc d eq_refl)) as (s & w' & E & Hw' & Hf' & _). by eapply Hret.
  - destruct (Flush_spec new_chars w f Hw Hf) as (s & w' & E & [Hw' _ Hf' _ _ _]). by eapply Hret.
  - destruct (Sync_spec new_chars b w f Hw Hf) as (s & w' & E & Hw' & Hf' & _). by eapply Hret.
  - destruct (IsSyncThreadSafe f) eqn:Es.
    + destruct (SyncInternal_spec new_chars b w f Hw Hf) as (s & w' & E & Hw' & _ & Hf' & _). eapply Hret; [exact Hf'|done| |exact Hw'].
      unfold SyncWithoutFlush. rewrite (W_bind_ret new_chars _ _ _ _ _ (eq_refl : wget w = Ret (w, w))), Hf, Es. exact E.
    + eapply Hret; [by exists f|done| |exact Hw]. unfold SyncWithoutFlush.
      rewrite (W_bind_ret new_chars _ _ _ _ _ (eq_refl : wget w = Ret (w, w))), Hf, Es. reflexivity.
  - destruct (Close_file_spec new_chars w f Hw Hf) as (s & w' & f' & E & Hw' & Hf' & _). exists s, (set_file w' None). split; [|split; [by destruct Hw'|done]].
    unfold Close. rewrite (W_bind_ret new_chars _ _ _ _ _ (eq_refl : wget w = Ret (w, w))), Hf. by rewrite (W_bind_ret new_chars _ _ _ _ _ E).
Qed.

(** C28: with a file that works, and while the size is one that it can have, no call fails; what has been appended is what the file
    holds after [Flush] and [Sync], up to the padding of the last unit in the unbuffered
    mode, and exactly what it holds when it is closed. *)
Theorem file_writer_contents `{Host} {F} `{WorkingFile F} new_chars `{Allocator new_chars} (w : WritableFileWriter (F := F)) data :
  writer_ok w -> holds w data -> filesize_ w = zlen data ->
  (forall d, zlen (data ++ d) < 2 ^ 63 -> file_fits (zlen (data ++ d)) -> exists s w', FileWriter.Append new_chars d w = Ret (s, w') /\ ok s = true /\
     writer_ok w' /\ holds w' (data ++ d) /\ filesize_ w' = zlen (data ++ d)) /\
  (exists s w', Flush w = Ret (s, w') /\ ok s = true /\ writer_ok w' /\ holds w' data /\ in_file w' data /\ filesize_ w' = zlen data) /\
  (forall b, exists s w', Sync b w = Ret (s, w') /\ ok s = true /\ writer_ok w' /\ holds w' data /\ in_file w' data /\ filesize_ w' = zlen data) /\
  (exists s w' f', Close_file w = Ret (s, w') /\ ok s = true /\ writable_file_ w' = Some f' /\ bytes_of f' = data /\
     Close w = Ret (s, set_file w' None)).
Proof.
  intros Hw Hh Hsz. pose proof Hh as (Hl & f & Hf & _). split; [|split; [|split]].
  - intros d Hd Hfit. change (2 ^ 63) with 9223372036854775808 in Hd.
    destruct (FileWriter_Append_spec new_chars d w f Hw Hf) as (s & w' & E & Hw' & _ & Hs & _ & _ & _ & Hh').
    { right. change (2 ^ 63) with 9223372036854775808. rewrite zlen_app in Hd. lia. }
    destruct (Hh' data Hh) as [Es Hh2]; [by destruct (use_os_buffer_ w)|]. rewrite Es in Hs. exists s, w'. do 4 (split; [done|]).
    rewrite Hs, Hsz, zlen_app. rewrite zlen_app in Hd. pose proof (zlen_nonneg d). pose proof (zlen_nonneg data). apply u64_small. lia.
  - destruct (Flush_spec new_chars w f Hw Hf) as (s & w' & E & [Hw' Hk _ _ _ Hh']). destruct (Hh' data Hh) as (Es & Hh2 & Hi).
    exists s, w'. do 5 (split; [done|]). by rewrite (k_size _ _ Hk).
  - intros b. destruct (Sync_spec new_chars b w f Hw Hf) as (s & w' & E & Hw' & _ & Hs & Hh'). destruct (Hh' data Hh) as (Es & Hh2 & Hi).
    exists s, w'. do 5 (split; [done|]). by rewrite Hs.
  - destruct (Close_file_spec new_chars w f Hw Hf) as (s & w' & f' & E & Hw' & Hf' & Hd). destruct (Hd data Hh Hsz) as (Es & Hb & _).
    exists s, w', f'. do 4 (split; [done|]). unfold Close.
    rewrite (W_bind_ret new_chars _ _ _ _ _ (eq_refl : wget w = Ret (w, w))), Hf. by rewrite (W_bind_ret new_chars _ _ _ _ _ E).
Qed.

(** ** A log in a file *)

Section log.
Context `{Host} {F : Type} `{WorkingFile F} (new_chars : Z -> Z * list byte) `{!Allocator new_chars}.

(** What the log writer sees of a file writer. *)
#[export] Instance FileWriter_dest : LogDest (WritableFileWriter (F := F)) := {
  dest_append w s := match FileWriter.Append new_chars s w with Ret r => r | _ => (IOError [] [], w) end;
  dest_flush w := match Flush w with Ret r => r | _ => (IOError [] [], w) end;
}.

(** The appended bytes, and those of them that are in the file. *)
Definition written (w : WritableFileWriter (F := F)) : list byte :=
  match writable_file_ w with Some f => bytes_of f ++ filled (buf_ w) | None => [] end.

Definition file_contents (w : WritableFileWriter (F := F)) : list byte :=
  match writable_file_ w with Some f => bytes_of f | None => [] end.

Lemma holds_written w data : use_os_buffer_ w = true -> holds w data -> written w = data.
Proof. intros Hos [_ (f & Hf & _ & _ & _ & Hd)]. rewrite Hos in Hd. unfold written. by rewrite Hf. Qed.

(** An open writer in the buffered mode, without syncing in between. *)
Definition log_file (w : WritableFileWriter (F := F)) : Prop :=
  writer_ok w /\ use_os_buffer_ w = true /\ bytes_per_sync_ w = 0 /\ filesize_ w = u64 (zlen (written w)) /\ holds w (written w).

#[export] Instance FileWriter_reliable : ReliableDest (WritableFileWriter (F := F)).
Proof using Allocator0 F H H0 H1 new_chars.
  refine {| contents := written; delivered := file_contents; dest_ok := log_file; dest_fits := file_fits; dest_fits_le := file_fits_le |}.
  - intros w s (Hw & Hos & Hb & Hsz & Hh) Hfit. rewrite <- zlen_app in Hfit. pose proof Hh as (_ & f & Hf & _).
    destruct (FileWriter_Append_spec new_chars s w f Hw Hf (or_introl Hb)) as (st & w' & E & Hw' & _ & Hs & Ho & Hbp & _ & Hh').
    destruct (Hh' _ Hh) as [Es Hh2]; [by rewrite Hos|]. rewrite Es in Hs. simpl. rewrite E. simpl. rewrite Hos in Ho.
    pose proof (holds_written w' _ Ho Hh2) as Ec. unfold log_file. rewrite Ec. split; [done|]. split; [|done].
    split; [done|]. split; [done|]. split; [by rewrite Hbp|]. split; [|done]. by rewrite Hs, Hsz, u64_add_l, zlen_app.
  - intros w (Hw & Hos & Hb & Hsz & Hh). pose proof Hh as (_ & f & Hf & _).
    destruct (Flush_spec new_chars w f Hw Hf) as (st & w' & E & [Hw' Hk [f' Hf'] _ Hdr Hh']). destruct (Hh' _ Hh) as (Es & Hh2 & _).
    simpl. rewrite E. simpl. pose proof (k_os _ _ Hk) as Ho. rewrite Hos in Ho. pose proof (holds_written w' _ Ho Hh2) as Ec.
    unfold log_file. rewrite Ec. split; [done|]. split; [split; [done|split; [done|split; [by rewrite (k_bytes _ _ Hk)|]]]|].
    { split; [|done]. by rewrite (k_size _ _ Hk). }
    split; [done|]. rewrite <- Ec. unfold file_contents, written. rewrite Hf', (filled_nil new_chars), app_nil_r; [done|apply (wo_buf _ Hw')|].
    apply Hdr; [done|by left].
Defined.
End log.

(** ** A file in memory *)

(** The file, with the mode it was opened in; units of four bytes. *)
Record MemFile : Type := mkMem { mem_bytes : list byte; mem_os : bool }.
Definition mem_op (g : MemFile -> list byte) (f : MemFile) : Status * MemFile := (OK, mkMem (g f) (mem_os f)).
#[export] Instance MemFile_ops : WritableFile MemFile := {
  UseOSBuffer := mem_os;
  UseDirectIO f := negb (mem_os f);
  GetRequiredBufferAlignment _ := 4;
  IsSyncThreadSafe _ := true;
  file_Append f d := mem_op (fun f => mem_bytes f ++ d) f;
  PositionedAppend f p d i := mem_op (fun f => overwrite (mem_bytes f) i d) f;
  Truncate f n := mem_op (fun f => ztake n (mem_bytes f)) f;
  file_Close := mem_op mem_bytes;
  file_Flush := mem_op mem_bytes;
  file_Sync := mem_op mem_bytes;
  file_Fsync := mem_op mem_bytes;
  file_RangeSync f a b := mem_op mem_bytes f;
  file_InvalidateCache f a b := mem_op mem_bytes f;
  file_PrepareWrite f a b := f;
}.
#[export] Instance MemFile_working : WorkingFile MemFile.
Proof.
  refine {| bytes_of := mem_bytes; works := fun _ => True; file_fits := fun _ => True; same_mode := fun f f' => mem_os f' = mem_os f |}; try done.
  - intros f r _ [->|[->|[->|(a & b & _ & _ & _ & ->)]]]; done.
  - intros f f' E. simpl. by rewrite E.
Defined.

#[local] Existing Instance le_host.

(** A writer that has just been opened on an empty file. *)
Definition mem_writer (os : bool) : WritableFileWriter (F := MemFile) :=
  match WritableFileWriter_new zero_chars (mkMem [] os) 0 0 with
  | Ret w => w
  | _ => mkFileWriter None AlignedBuffer_new 0 0 0 false false false 0 0
  end.
Lemma mem_writer_ok os : writer_ok (mem_writer os) /\ writable_file_ (mem_writer os) = Some (mkMem [] os) /\
  filesize_ (mem_writer os) = 0 /\ holds (mem_writer os) [].
Proof.
  destruct (WritableFileWriter_new_spec zero_chars (mkMem [] os) 2 0 0) as (w & E & Hw & Hf & Hs & _ & _ & Hh); [reflexivity|lia|lia|].
  unfold mem_writer. rewrite E. split; [done|]. split; [done|]. split; [done|]. by apply Hh.
Qed.

Lemma file_writer_never_aborts_witness :
  exists s w', @writer_run le_host MemFile MemFile_ops zero_chars (WAppend (str "abcde")) (mem_writer false) = Ret (s, w').
Proof.
  destruct (mem_writer_ok false) as (Hw & Hf & Hs & _).
  destruct (@file_writer_never_aborts le_host MemFile MemFile_ops zero_chars zero_chars_allocator (mem_writer false) _
    (WAppend (str "abcde")) Hw Hf) as (s & w' & E & _); [|exists s, w'; exact E].
  intros d [= <-]. right. rewrite Hs. vm_compute. done.
Defined.

Lemma file_writer_contents_witness :
  exists s w', FileWriter.Append zero_chars (str "abcde") (mem_writer false) = Ret (s, w') /\ ok s = true /\ holds w' (str "abcde").
Proof.
  destruct (mem_writer_ok false) as (Hw & Hf & Hs & Hh).
  destruct (@file_writer_contents le_host MemFile MemFile_ops MemFile_working zero_chars zero_chars_allocator (mem_writer false) [] Hw Hh Hs)
    as (HA & _). destruct (HA (str "abcde")) as (s & w' & E & Es & _ & Hh' & _); [vm_compute; done|done|].
  exists s, w'. exact (conj E (conj Es Hh')).
Defined.
