(* ===== verification/LogFile.v ===== *)
(** * LogFile: logs in files

    The log writer over [WritableFileWriter] over a file that works, and the log reader on
    the bytes that this file has after the last record, when it is closed, and with zeros behind them. *)

From Stdlib Require Import Strings.Byte Strings.String.
From stdpp Require Import list.
From S2P Require Import Prelude.
From S2P Require Import Slice.
From S2P Require Import Coding.
From S2P Require Import Status.
From S2P Require Import Crc32c.
From S2P Require Import LogFormat.
From S2P Require Import LogWriter.
From S2P Require Import LogReader.
From S2P Require Import LogRoundtrip.
From S2P Require Import AlignedBuffer.
From S2P Require Import FileApi.
From S2P Require Import FileWriter.
From S2P Require Import FileWriterSpec.
From S2P Require Import FileWriterTheorems.

(** What a reader gets from the log of some records with zeros behind it, as in a file that has
    space for more: all of the records, in order, and no report (except of the zeros, in
    [kAbsoluteConsistency] mode). *)
Definition rereads `{Host} `{Crc32c} (bytes : list byte) (n : Z) (recs : list (list byte)) : Prop :=
  forall (R : Type) (SF : SeqFile R) (RF : ReliableFile R) (r : R) zeros reporter checksum mode calls fuel,
    remaining r = bytes ++ zrep zeros x00 -> 0 <= zeros ->
    (length recs < calls)%nat -> zlen (remaining r) < Z.of_nat fuel ->
    exists r', ReadAll calls fuel (Reader_new r reporter checksum 0 n) mode = Ret (recs, r') /\
      (zeros = 0 \/ mode <> kAbsoluteConsistency -> reporter_ r' = reporter).

(** Records of any number and size that the file has room for, put into a log in a new file
    through the buffered file writer, are in the file, when the last [AddRecord] has returned as
    well as after [Close]. *)
Lemma log_in_file `{Host} `{Crc32c} {F} `{WorkingFile F} new_chars `{!Allocator new_chars}
    (file : F) k max n recycle recs :
  works file -> bytes_of file = [] -> UseOSBuffer file = true ->
  GetRequiredBufferAlignment file = 2 ^ k -> 0 <= k < 32 -> max < 2 ^ 61 ->
  0 <= n -> (recycle = true -> n < 2 ^ 32) ->
  (forall out off', Log (mkCfg recycle (u32 n)) 0 recs out off' -> file_fits (zlen out)) ->
  exists fw w0 ss w f, WritableFileWriter_new new_chars file max 0 = Ret fw /\
    Writer_new fw n recycle = Ret w0 /\
    @AddRecords _ _ _ (FileWriter_dest new_chars) w0 recs = Ret (ss, w) /\
    Forall (fun s => ok s = true) ss /\ length ss = length recs /\
    writable_file_ (dest_ w) = Some f /\ works f /\ rereads (bytes_of f) n recs /\
    (zlen (bytes_of f) < 2 ^ 64 -> exists s fw' file', Close_file (dest_ w) = Ret (s, fw') /\ ok s = true /\
      writable_file_ fw' = Some file' /\ bytes_of file' = bytes_of f /\ exists g, works g /\ file' = (file_Close g).2).
Proof.
  intros Hwk Hby Hos Hal Hk Hmax Hn Hrec Hfit.
  destruct (WritableFileWriter_new_spec new_chars file k max 0 Hal Hk Hmax) as (fw & Efw & Hfw & Hf & Hs0 & Ho & Hb & Hh).
  specialize (Hh Hwk Hby). rewrite Hos in Ho. pose proof (holds_written fw [] Ho Hh) as Hw0. pose (RI := FileWriter_reliable new_chars).
  assert (@dest_ok _ _ RI fw) as Hd.
  { split; [done|]. split; [done|]. split; [done|]. rewrite Hw0. split; [by rewrite Hs0|done]. }
  destruct (write_log (H2 := RI) fw n recycle recs Hd Hw0 Hfit) as (w0 & ss & w & off' & Hw & Hr & Hss & Hlen & Hdw & Hv & Hnil & HL).
  destruct Hdw as (Hwd & Hod & _ & Hszd & Hhd). pose proof Hhd as (_ & fd & Hfd & Hwkd & _). change (contents (dest_ w)) with (written (dest_ w)) in *.
  assert (written (dest_ w) = bytes_of fd) as Hc.
  { destruct (decide (recs = [])) as [->|Hne].
    - rewrite (Hnil eq_refl) in Hfd |- *. rewrite Hw0. rewrite Hf in Hfd. by injection Hfd as <-.
    - rewrite <- (Hv Hne). change (file_contents (dest_ w) = bytes_of fd). unfold file_contents. by rewrite Hfd. }
  rewrite Hc in *. exists fw, w0, ss, w, fd. do 7 (split; [done|]). split.
  - intros R SF RF r zeros reporter checksum mode calls fuel Hrem Hz Hcalls Hfuel. rewrite Hrem, zlen_app, zlen_zrep in Hfuel by done.
    by eapply (reread_log n recycle).
  - intros Hsz. pose proof (zlen_nonneg (bytes_of fd)). rewrite u64_small in Hszd by (change (2 ^ 64) with 18446744073709551616 in Hsz; lia).
    destruct (Close_file_spec new_chars (dest_ w) fd Hwd Hfd) as (s & fw' & file' & Ec & _ & Hf' & Hd').
    destruct (Hd' _ Hhd Hszd) as (Es & Hb' & Hg). by exists s, fw', file'.
Qed.

Lemma log_in_file_witness : exists fw w0 ss w,
  WritableFileWriter_new zero_chars (mkMem [] true) 0 0 = Ret fw /\ @Writer_new test_crc _ fw 5 true = Ret w0 /\
  @AddRecords le_host test_crc _ (@FileWriter_dest le_host _ _ zero_chars) w0 [str "hello"; []] = Ret (ss, w) /\
  Forall (fun s => ok s = true) ss.
Proof.
  destruct (@log_in_file le_host test_crc MemFile MemFile_ops MemFile_working zero_chars zero_chars_allocator
    (mkMem [] true) 2 0 5 true [str "hello"; []] I eq_refl eq_refl)
    as (fw & w0 & ss & w & f & H1 & H2 & H3 & H4 & _); [reflexivity|lia|lia|lia|lia|done|].
  exists fw, w0, ss, w. exact (conj H1 (conj H2 (conj H3 H4))).
Defined.
