(* ===== verification/WalExample.v ===== *)
(** * WalExample ([examples/wal_example.cc])

    A thread that appends records to a log and a thread that follows it, with a mutex, a condition
    variable and the offsets that they compare; [main] asks both of them to end. The threads are
    functions of the state of the process that make one step, and the program is any interleaving of
    them ([wal_step]). The log is written with [Writer] over [WritableFileWriter] over a
    file that works and read with [Reader] over a file that grows (LogFollow.v). *)

From Stdlib Require Import Strings.Byte Strings.String.
From stdpp Require Import list pretty relations.
From S2P Require Import Prelude.
From S2P Require Import Slice.
From S2P Require Import Coding.
From S2P Require Import Status.
From S2P Require Import Crc32c.
From S2P Require Import LogFormat.
From S2P Require Import LogWriter.
From S2P Require Import LogReader.
From S2P Require Import LogRoundtrip.
From S2P Require Import LogFollow.
From S2P Require Import AlignedBuffer.
From S2P Require Import FileApi.
From S2P Require Import FileWriter.
From S2P Require Import FileWriterSpec.
From S2P Require Import FileWriterTheorems.

(** ** The program *)

(** The reporter keeps the first error that it is told of. *)
Definition LogReporter_status (reports : list (Z * Status)) : Status := foldl (fun s r => if ok s then r.2 else s) OK reports.

(** The record of number [i]. *)
Definition wal_record (i : Z) : Slice := str ("WAL_" ++ pretty (Z.to_N i)).

Inductive wal_thread : Type := WriterFunc | ReaderFunc.
#[export] Instance wal_thread_eq_dec : EqDecision wal_thread.
Proof. solve_decision. Defined.

(** [main]: in [getchar]; after [should_exit = true]; after [SignalAll], in the joins. *)
Inductive main_pc : Type := MGetchar | MExit | MJoin.

Section wal.
Context `{Host} `{Crc32c} {F : Type} `{WorkingFile F} (new_chars : Z -> Z * list byte).
Local Abbreviation LogFile := (WritableFileWriter (F := F)).
Local Abbreviation add_record := (@AddRecord _ _ _ (FileWriter_dest new_chars)).

(** [WriterFunc]: before [NewWritableFile]; at the test of the loop; at the lock; inside [AddRecord],
    with the result it will have; returned. [i] is the number of the next record. *)
Inductive writer_pc : Type :=
| WOpen | WTest (w : Writer LogFile) (i : Z) | WLock (w : Writer LogFile) (i : Z)
| WAdd (w : Writer LogFile) (i : Z) (s : Status) (w' : Writer LogFile) | WDone.

(** [ReaderFunc]: before [NewSequentialFile]; at the test of the loop; before [ReadRecord]; at the
    lock; at the test of the inner loop and before [Wait], with the mutex; in [Wait], asleep and woken up;
    before [UnmarkEOF]; returned, or returned with an error message. *)
Inductive reader_pc : Type :=
| ROpen | RTest (r : Reader shared_file) | RRead (r : Reader shared_file) | RLock (r : Reader shared_file)
| ROffset (r : Reader shared_file) | RWait (r : Reader shared_file) | RAsleep (r : Reader shared_file) | RWoken (r : Reader shared_file)
| RUnmark (r : Reader shared_file) | RDone | RError (s : Status).

(** [wal_file] is the file as a reader sees it; [torn] is for the proofs: whether the file was read when
    [AddRecord] had written some but not all of its bytes. *)
Record Wal : Type := mkWal {
  wal_file : option (list byte);
  wal_writer : writer_pc;
  wal_reader : reader_pc;
  wal_main : main_pc;
  mutex : option wal_thread;
  should_exit : bool;
  writer_offset : Z;
  reader_offset : Z;
  printed : list Slice;
  torn : bool;
}.

Definition Wal_start : Wal := mkWal None WOpen ROpen MGetchar None false 0 0 [] false.

Definition set_writer (s : Wal) (p : writer_pc) (m : option wal_thread) : Wal :=
  mkWal (wal_file s) p (wal_reader s) (wal_main s) m (should_exit s) (writer_offset s) (reader_offset s) (printed s) (torn s).
Definition set_reader (s : Wal) (p : reader_pc) (m : option wal_thread) : Wal :=
  mkWal (wal_file s) (wal_writer s) p (wal_main s) m (should_exit s) (writer_offset s) (reader_offset s) (printed s) (torn s).
Definition set_wal_file (s : Wal) (b : list byte) : Wal :=
  mkWal (Some b) (wal_writer s) (wal_reader s) (wal_main s) (mutex s) (should_exit s) (writer_offset s) (reader_offset s) (printed s) (torn s).
Definition set_offsets (s : Wal) (w r : Z) : Wal :=
  mkWal (wal_file s) (wal_writer s) (wal_reader s) (wal_main s) (mutex s) (should_exit s) w r (printed s) (torn s).
Definition set_main (s : Wal) (p : main_pc) (e : bool) : Wal :=
  mkWal (wal_file s) (wal_writer s) (wal_reader s) p (mutex s) e (writer_offset s) (reader_offset s) (printed s) (torn s).
Definition set_seen (s : Wal) (out : list Slice) (t : bool) : Wal :=
  mkWal (wal_file s) (wal_writer s) (wal_reader s) (wal_main s) (mutex s) (should_exit s) (writer_offset s) (reader_offset s) (printed s ++ out) (torn s || t).

(** [SignalAll] wakes the reader when it is asleep. *)
Definition signal (s : Wal) : Wal := match wal_reader s with RAsleep r => set_reader s (RWoken r) (mutex s) | _ => s end.

Definition in_wal_file (w : Writer LogFile) : list byte := file_contents (dest_ w).

(** A step of the writer, [None] when it has to wait or has returned. [file] is what [NewWritableFile] gives, unless it fails. The options are the defaults: buffers of at most a
    megabyte and no syncing in between. What [AddRecord] writes becomes visible in portions, up to the first [m] bytes. *)
Definition writer_step (file : option F) (m : Z) (s : Wal) : option Wal :=
  match wal_writer s with
  | WOpen =>
      match file with
      | None => Some (set_writer s WDone (mutex s))
      | Some f =>
          match (fw ← WritableFileWriter_new new_chars f (1024 * 1024) 0; Writer_new fw 0 false) with
          | Ret w => Some (set_wal_file (set_writer s (WTest w 0) (mutex s)) [])
          | _ => None
          end
      end
  | WTest w i => Some (set_writer s (if should_exit s then WDone else WLock w i) (mutex s))
  | WLock w i =>
      match mutex s, add_record w (wal_record i) with
      | None, Ret (st, w') => Some (set_writer s (WAdd w i st w') (Some WriterFunc))
      | _, _ => None
      end
  | WAdd w i st w' =>
      let b := default [] (wal_file s) in
      if decide (b = in_wal_file w') then
        let s := if ok st then signal (set_offsets s (filesize_ (dest_ w')) (reader_offset s)) else s in
        Some (set_writer s (WTest w' (if ok st then u64 (i + 1) else i)) None)
      else if (zlen b <? m) && (m <=? zlen (in_wal_file w')) then Some (set_wal_file s (ztake m (in_wal_file w'))) else None
  | WDone => None
  end.

(** The file has a part of what [AddRecord] writes. *)
Definition mid_record (s : Wal) : bool :=
  match wal_writer s with
  | WAdd w _ _ w' => negb (bool_decide (default [] (wal_file s) = in_wal_file w)) && negb (bool_decide (default [] (wal_file s) = in_wal_file w'))
  | _ => false
  end.

(** A step of the reader; [spurious]: a wait may end without a signal. *)
Definition reader_step (spurious : bool) (s : Wal) : option Wal :=
  let b := default [] (wal_file s) in
  match wal_reader s with
  | ROpen =>
      match wal_file s with
      | None => Some (set_reader s RDone (mutex s))
      | Some b => Some (set_reader s (RTest (Reader_new (mkShared b 0) (Some []) true 0 0)) (mutex s))
      end
  | RTest r => Some (set_reader s (if should_exit s then RDone else RRead r) (mutex s))
  | RRead r =>
      match ReadRecord (S (length b)) (refresh r b) [] [] kTolerateCorruptedTailRecords with
      | Ret (true, record, _, r') => Some (set_seen (set_reader s (RTest r') (mutex s)) [record] (mid_record s && negb (eof_ r)))
      | Ret (false, _, _, r') =>
          let st := LogReporter_status (default [] (reporter_ r')) in
          Some (set_seen (set_reader s (if ok st then RLock r' else RError st) (mutex s)) [] (mid_record s && negb (eof_ r)))
      | _ => None
      end
  | RLock r =>
      match mutex s with
      | None => Some (set_offsets (set_reader s (ROffset r) (Some ReaderFunc)) (writer_offset s) (EndOfBufferOffset r))
      | Some _ => None
      end
  | ROffset r =>
      Some (if writer_offset s =? reader_offset s then set_reader s (RWait r) (mutex s) else set_reader s (RUnmark r) None)
  | RWait r => Some (set_reader s (RAsleep r) None)
  | RAsleep r => if spurious then Some (set_reader s (RWoken r) (mutex s)) else None
  | RWoken r =>
      match mutex s with
      | None => Some (if should_exit s then set_reader s RDone None else set_reader s (ROffset r) (Some ReaderFunc))
      | Some _ => None
      end
  | RUnmark r => Some (set_seen (set_reader s (RTest (UnmarkEOF (refresh r b))) (mutex s)) [] (mid_record s))
  | RDone | RError _ => None
  end.

(** A step of [main]. *)
Definition main_step (s : Wal) : option Wal :=
  match wal_main s with
  | MGetchar => Some (set_main s MExit true)
  | MExit => Some (set_main (signal s) MJoin (should_exit s))
  | MJoin => None
  end.

Inductive wal_step (file : option F) : Wal -> Wal -> Prop :=
| step_writer m s s' : writer_step file m s = Some s' -> wal_step file s s'
| step_reader spurious s s' : reader_step spurious s = Some s' -> wal_step file s s'
| step_main s s' : main_step s = Some s' -> wal_step file s s'.
End wal.

(** ** The log of the first records *)

Definition wal_records (n : nat) : list Slice := (fun i => wal_record (Z.of_nat i)) <$> seq 0 n.
Definition wal_cfg : LogCfg := mkCfg false 0.
Definition logged `{Host} `{Crc32c} (n : nat) (out : list byte) (off : Z) : Prop := Log wal_cfg 0 (wal_records n) out off.

Lemma wal_records_S n : wal_records (S n) = wal_records n ++ [wal_record (Z.of_nat n)].
Proof. unfold wal_records. by rewrite seq_S, fmap_app. Qed.
Lemma wal_records_le k m : (k <= m)%nat -> wal_records m = wal_records k ++ drop k (wal_records m).
Proof.
  intros Hk. rewrite <- (take_drop k (wal_records m)) at 1. f_equal. unfold wal_records. rewrite <- fmap_take, take_seq. by rewrite Nat.min_l.
Qed.
Lemma drop_wal_records k m : (k < m)%nat -> drop k (wal_records m) = wal_record (Z.of_nat k) :: drop (S k) (wal_records m).
Proof.
  intros Hk. apply drop_S. unfold wal_records. rewrite list_lookup_fmap, lookup_seq_lt by done. done.
Qed.
Lemma length_wal_records n : length (wal_records n) = n.
Proof. unfold wal_records. by rewrite length_fmap, length_seq. Qed.

Section logged.
Context `{Host} `{Crc32c}.

Lemma logged_off n out off : logged n out off -> 0 <= off <= kBlockSize.
Proof. intros HL. by apply (Log_off _ _ _ _ _ HL). Qed.

Lemma logged_S n out off o off' : logged n out off -> Frags wal_cfg true off (wal_record (Z.of_nat n)) o off' -> logged (S n) (out ++ o) off'.
Proof.
  intros HL Hf. unfold logged. rewrite wal_records_S. eapply Log_app; [done|]. rewrite <- (app_nil_r o). econstructor; [done|constructor].
Qed.

Lemma logged_next n out off : logged n out off -> exists o off', logged (S n) (out ++ o) off'.
Proof. intros HL. destruct (Frags_total wal_cfg true off (wal_record (Z.of_nat n))) as (o & off' & Hf). exists o, off'. by eapply logged_S. Qed.

Lemma Frags_nonempty c begin off pay out off' : Frags c begin off pay out off' -> out <> [].
Proof.
  induction 1 as [begin off pay out off' Hp Hf IH|begin off pay Hfit|begin off avail pay out off' Ha Hav Hf IH].
  - by intros [_ ?]%app_nil.
  - pose proof (phys_nonempty c (frag_type (recyclable c) begin true) pay) as Hn. by intros E; rewrite E in Hn.
  - pose proof (phys_nonempty c (frag_type (recyclable c) begin false) (ztake avail pay)) as Hn. intros [E _]%app_nil. by rewrite E in Hn.
Qed.

(** Logs of numbers of records are ordered like the numbers. *)
Lemma logged_le k m out off rest off' : logged k out off -> logged m (out ++ rest) off' ->
  (k <= m)%nat /\ Log wal_cfg off (drop k (wal_records m)) rest off'.
Proof.
  intros Hk Hm. destruct (le_lt_dec k m) as [Hle|Hlt].
  - split; [done|]. unfold logged in Hm. rewrite (wal_records_le k m Hle) in Hm. apply Log_app_inv in Hm as (o1 & f1 & o2 & E & H1 & H2).
    destruct (Log_det _ _ _ _ _ Hk _ _ H1) as [<- <-]. by apply app_inv_head in E as <-.
  - exfalso. unfold logged in Hk. rewrite (wal_records_le m k) in Hk by lia. apply Log_app_inv in Hk as (o1 & f1 & o2 & E & H1 & H2).
    destruct (Log_det _ _ _ _ _ Hm _ _ H1) as [<- <-]. rewrite drop_wal_records in H2 by done.
    inversion H2 as [|? ? ? p1 g1 p2 g2 Hf HL]; subst. apply Frags_nonempty in Hf. rewrite <- app_assoc in E. apply (f_equal length) in E.
    rewrite !length_app in E. destruct p1; [done|]. simpl in E. lia.
Qed.

Lemma logged_unique k m out off off' : logged k out off -> logged m out off' -> k = m.
Proof.
  intros Hk Hm. rewrite <- (app_nil_r out) in Hk, Hm. pose proof Hk as Hk'. rewrite app_nil_r in Hk'. pose proof Hm as Hm'. rewrite app_nil_r in Hm'.
  destruct (logged_le _ _ _ _ _ _ Hk' Hm) as [H1 _], (logged_le _ _ _ _ _ _ Hm' Hk) as [H2 _]. lia.
Qed.

Lemma logged_size n out off : logged n out off -> zlen out <= log_bound (wal_records n).
Proof. intros HL. by apply (Log_size _ _ _ _ _ HL). Qed.

Lemma log_bound_app a b : log_bound (a ++ b) = log_bound a + log_bound b.
Proof. unfold log_bound. induction a as [|x a IH]; simpl; lia. Qed.
Lemma log_bound_nonneg a : 22 * Z.of_nat (length a) <= log_bound a.
Proof. unfold log_bound. induction a as [|x a IH]; simpl length; cbn [foldr]; [lia|]. pose proof (zlen_nonneg x). lia. Qed.
Lemma log_bound_le k m : (k <= m)%nat -> log_bound (wal_records k) <= log_bound (wal_records m).
Proof. intros Hk. rewrite (wal_records_le k m Hk), log_bound_app. pose proof (log_bound_nonneg (drop k (wal_records m))). lia. Qed.
End logged.

(** ** The reader *)

Section reading.
Context `{Host} `{Crc32c}.
Implicit Types r : Reader shared_file.

(** One call of [ReadRecord] in front of complete records. *)
Lemma read_one r off recs rest off' fuel : before wal_cfg (Some []) r off rest -> Log wal_cfg off recs rest off' -> zlen rest < Z.of_nat fuel ->
  match recs with
  | [] => exists rec sc r', ReadRecord fuel r [] [] kTolerateCorruptedTailRecords = Ret (false, rec, sc, r') /\ at_ wal_cfg (Some []) r' (rest_of_block off) []
  | t :: recs' => exists sc r' o off1 rest', ReadRecord fuel r [] [] kTolerateCorruptedTailRecords = Ret (true, t, sc, r') /\
      rest = o ++ rest' /\ Frags wal_cfg true off t o off1 /\ before wal_cfg (Some []) r' off1 rest'
  end.
Proof.
  intros Hb HL Hf. rewrite (ReadRecord_no_skip _ _ _ _ _ _ _ _ _ Hb). inversion HL as [|? ? ? o off1 rest' off2 Hfr HL']; subst.
  - destruct (read_nil wal_cfg (Some []) r _ fuel [] [] [] 0 kTolerateCorruptedTailRecords Hb) as (sc & r' & E & Hat); [zlen_pos; lia|]. by exists [], sc, r'.
  - rewrite zlen_app in Hf. destruct (read_Frags _ _ _ _ _ _ _ Hfr r rest' fuel [] [] [] 0 kTolerateCorruptedTailRecords Hb) as (sc & r' & E & Hb'); [done|done|zlen_pos; lia|].
    exists sc, r', o, off1, rest'. done.
Qed.

Lemma before_initial c rep r off bytes : before c rep r off bytes -> initial_offset_ r <= last_record_offset_ r.
Proof. intros (_ & pad & _ & _ & Hat). rewrite (at_initial _ _ _ _ _ Hat). apply (at_last _ _ _ _ _ Hat). Qed.

(** At the end of the file. *)
Lemma at_end c rep r b k : in_place b r -> at_ c rep r k [] -> sh_pos (file_ r) = length b /\ end_of_buffer_offset_ r = u64 (zlen b).
Proof.
  intros (Hb & Hp & Ho) Hat. pose proof (at_file _ _ _ _ _ Hat) as Hf. simpl in Hf. rewrite zdrop_nil in Hf. apply (f_equal length) in Hf.
  rewrite length_drop in Hf. simpl in Hf. subst b. rewrite Ho. unfold zlen. split; [lia|]. do 2 f_equal. lia.
Qed.

(** The position of the reader in the file [b]. *)
Definition positioned (b : list byte) r : Prop := (sh_pos (file_ r) <= length b)%nat /\ end_of_buffer_offset_ r = u64 (Z.of_nat (sh_pos (file_ r))).
Lemma positioned_refresh b r : positioned b r <-> in_place b (refresh r b).
Proof. unfold positioned, in_place. simpl. tauto. Qed.

(** The reader has handed out the first [k] records of the file [b] and is going on: either the rest of [b] is ahead
    of it, or it has seen the end of the file when it held the first records of it. *)
Inductive reading (b : list byte) (k : nat) r : Prop :=
| reading_on out off rest : logged k out off -> b = out ++ rest -> positioned b r -> eof_ r = false -> before wal_cfg (Some []) (refresh r b) off rest -> reading b k r
| reading_eof out off rest1 rest2 m off' f : logged k out off -> b = out ++ rest1 ++ rest2 -> positioned b r -> eof_ r = true ->
    sh_pos (file_ r) = length (out ++ rest1) -> logged m (out ++ rest1) off' -> before wal_cfg (Some []) (LogReader.set_file r f) off rest1 -> reading b k r.

(** It has handed out the first [k] records and has read nothing behind them. *)
Definition ended (b : list byte) (k : nat) r : Prop :=
  exists out off rest f, logged k out off /\ b = out ++ rest /\ sh_pos (file_ r) = length out /\ end_of_buffer_offset_ r = u64 (zlen out) /\
    at_ wal_cfg (Some []) (LogReader.set_file r f) (rest_of_block off) [].

(** If it has seen the end of a file, that was the end of [b]. *)
Definition fresh (b : list byte) r : Prop := eof_ r = true -> sh_pos (file_ r) = length b.

Lemma positioned_grow b new r : positioned b r -> positioned (b ++ new) r.
Proof. intros [Hp Ho]. split; [|done]. rewrite length_app. lia. Qed.

Lemma reading_grow b new k r : reading b k r -> reading (b ++ new) k r.
Proof.
  intros [out off rest Hk -> Hp He Hb|out off rest1 rest2 m off' f Hk -> Hp He Hpos Hm Hb].
  - eapply (reading_on _ _ _ out off (rest ++ new)); [done|by rewrite app_assoc|by apply positioned_grow|done|]. apply before_grow; [done|apply Hp|done].
  - eapply (reading_eof _ _ _ out off rest1 (rest2 ++ new)); [done|by rewrite <- !app_assoc|by apply positioned_grow|done..].
Qed.

Lemma ended_grow b new k r : ended b k r -> ended (b ++ new) k r.
Proof. intros (out & off & rest & f & Hk & -> & Hr). exists out, off, (rest ++ new), f. by rewrite app_assoc. Qed.

Lemma refresh_same b r : in_place b r -> refresh r b = r.
Proof. intros [<- _]. by destruct r as [[??]]. Qed.

(** A reader that has just looked at [b], which is a log. *)
Lemma reading_now b k out off rest m off' r : logged k out off -> b = out ++ rest -> logged m b off' -> in_place b r -> before wal_cfg (Some []) r off rest -> reading b k r /\ fresh b r.
Proof.
  intros Hk -> Hm Hp Hb. split; [|intros He; apply (before_eof _ _ _ _ _ _ He Hp Hb)]. pose proof (refresh_same _ _ Hp) as Hr.
  assert (positioned (out ++ rest) r) as Hpos by (apply positioned_refresh; by rewrite Hr).
  destruct (eof_ r) eqn:He.
  - destruct (before_eof _ _ _ _ _ _ He Hp Hb) as [Hpe _].
    eapply (reading_eof _ _ _ out off rest [] m off' (file_ r)); [done|by rewrite app_nil_r|done..|by destruct r].
  - by eapply (reading_on _ _ _ out off rest); [..|rewrite Hr].
Qed.

(** [ReadRecord]: a record, which is the next one, or nothing, when there is none. *)
Lemma reading_step b k r : reading b k r -> (eof_ r = false -> exists m off', logged m b off') ->
  exists found rec sc r', ReadRecord (S (length b)) (refresh r b) [] [] kTolerateCorruptedTailRecords = Ret (found, rec, sc, r') /\
    if found : bool then rec = wal_record (Z.of_nat k) /\ (reading b (S k) r' /\ (fresh b r -> fresh b r')) /\ (exists out off rest, logged (S k) out off /\ b = out ++ rest)
    else ended b k r' /\ reporter_ r' = Some [] /\ (fresh b r -> sh_pos (file_ r') = length b).
Proof.
  intros [out off rest Hk -> Hp He Hb|out off rest1 rest2 m off' f Hk -> Hp He Hpos Hm Hb] Hb'.
  - destruct (Hb' He) as (m & off' & Hm). destruct (logged_le _ _ _ _ _ _ Hk Hm) as [Hle HL].
    assert (initial_offset_ (refresh r (out ++ rest)) <= last_record_offset_ (refresh r (out ++ rest))) as Hi by (by eapply before_initial).
    pose proof (read_one _ _ _ _ _ (S (length (out ++ rest))) Hb HL ltac:(unfold zlen; rewrite length_app; lia)) as Hr.
    destruct (decide (k < m)%nat) as [Hlt|Hge].
    + rewrite drop_wal_records in Hr by done. destruct Hr as (sc & r' & o & off1 & rest' & E & -> & Hf & Hb1).
      apply positioned_refresh in Hp. pose proof (ReadRecord_in_place _ _ _ _ _ _ _ _ _ _ Hp Hi E) as Hp1. pose proof (logged_S _ _ _ _ _ Hk Hf) as Hk1.
      exists true, (wal_record (Z.of_nat k)), sc, r'. split; [done|]. split; [done|]. rewrite app_assoc in Hp1, Hm |- *. destruct (reading_now _ _ _ _ _ _ _ _ Hk1 eq_refl Hm Hp1 Hb1). split; [done|by eauto].
    + rewrite drop_ge in Hr by (rewrite length_wal_records; lia). destruct Hr as (rec & sc & r' & E & Hat).
      apply positioned_refresh in Hp. pose proof (ReadRecord_in_place _ _ _ _ _ _ _ _ _ _ Hp Hi E) as Hp1.
      exists false, rec, sc, r'. split; [done|]. rewrite drop_ge in HL by (rewrite length_wal_records; lia). inversion HL; subst. rewrite app_nil_r in *.
      destruct (at_end _ _ _ _ _ Hp1 Hat) as [Hps Ho].
      split; [|split; [by apply (at_reporter _ _ _ _ _ Hat)|done]]. exists out, off', [], (file_ r'). rewrite app_nil_r.
      split; [done|]. split; [done|]. split; [done|]. split; [done|]. by destruct r'.
  - destruct (logged_le _ _ _ _ _ _ Hk Hm) as [Hle HL]. clear Hb'. set (b := out ++ rest1 ++ rest2) in *.
    assert (initial_offset_ (LogReader.set_file r f) <= last_record_offset_ (LogReader.set_file r f)) as Hi by (by eapply before_initial).
    destruct (ReadRecord_eof (S (length b)) (LogReader.set_file r f) [] [] kTolerateCorruptedTailRecords (mkShared b (sh_pos (file_ r))) He Hi) as [Er He'].
    change (LogReader.set_file (LogReader.set_file r f) (mkShared b (sh_pos (file_ r)))) with (refresh r b) in Er.
    pose proof (read_one _ _ _ _ _ (S (length b)) Hb HL ltac:(unfold zlen, b; rewrite !length_app; lia)) as Hr.
    apply positioned_refresh in Hp. destruct (decide (k < m)%nat) as [Hlt|Hge].
    + rewrite drop_wal_records in Hr by done. destruct Hr as (sc & r' & o & off1 & rest' & E & -> & Hf & Hb1).
      rewrite E, bind_ret in Er. specialize (He' _ _ _ _ E). pose proof (logged_S _ _ _ _ _ Hk Hf) as Hk1.
      pose proof (ReadRecord_in_place _ _ _ _ _ _ _ _ _ _ Hp Hi Er) as [_ Hp1].
      do 4 eexists. split; [exact Er|]. split; [done|]. split; [split; [|intros Hfr _; exact (Hfr He)]|exists (out ++ o), off1, (rest' ++ rest2); split; [done|unfold b; by rewrite <- !app_assoc]].
      eapply (reading_eof _ _ _ (out ++ o) off1 rest' rest2 m off' (file_ r')); simpl; [done|unfold b; by rewrite <- !app_assoc|exact Hp1|done|by rewrite <- app_assoc|by rewrite <- app_assoc|by destruct r'].
    + rewrite drop_ge in Hr, HL by (rewrite length_wal_records; lia). destruct Hr as (rec & sc & r' & E & Hat).
      rewrite E, bind_ret in Er. pose proof (ReadRecord_in_place _ _ _ _ _ _ _ _ _ _ Hp Hi Er) as (_ & _ & Ho). inversion HL; subst. rewrite app_nil_r in *.
      do 4 eexists. split; [exact Er|]. simpl in *. split; [|split; [by apply (at_reporter _ _ _ _ _ Hat)|intros Hfr; exact (Hfr He)]].
      exists out, off', rest2, (file_ r'). split; [done|]. split; [done|]. simpl. split; [done|]. rewrite Ho, Hpos. split; [done|]. by destruct r'.
Qed.
(** [UnmarkEOF] on the file as it is now. *)
Lemma ended_unmark b k r m off' : ended b k r -> logged m b off' -> reading b k (UnmarkEOF (refresh r b)) /\ fresh b (UnmarkEOF (refresh r b)).
Proof.
  intros (out & off & rest & f & Hk & -> & Hpos & Ho & Hat) Hm.
  pose proof (UnmarkEOF_before wal_cfg (Some []) _ off (mkShared (out ++ rest) (sh_pos (file_ r))) Hat (logged_off _ _ _ Hk)) as Hb.
  change (LogReader.set_file (LogReader.set_file r f) (mkShared (out ++ rest) (sh_pos (file_ r)))) with (refresh r (out ++ rest)) in Hb.
  simpl in Hb. rewrite Hpos, drop_app_length in Hb. eapply reading_now; [done|done|done| |exact Hb].
  apply UnmarkEOF_in_place. split; [done|]. simpl. rewrite Hpos, length_app. split; [lia|]. exact Ho.
Qed.

(** [ReaderFunc] opens the file. *)
Lemma reading_start b : reading b 0 (Reader_new (mkShared b 0) (Some []) true 0 0).
Proof.
  eapply (reading_on _ _ _ [] 0 b); [constructor|done|split; [simpl; lia|done]|done|].
  exact (Reader_new_before wal_cfg (Some []) (mkShared b 0) true 0 ltac:(done)).
Qed.
End reading.

(** ** The writer *)

Section writing.
Context `{Host} `{Crc32c} {F : Type} `{WorkingFile F} (new_chars : Z -> Z * list byte) `{!Allocator new_chars}.
Local Abbreviation LogFile := (WritableFileWriter (F := F)).
Local Abbreviation add_record := (@AddRecord _ _ _ (FileWriter_dest new_chars)).

(** The writer has put [n] records into the file. *)
Definition writes (n : nat) (w : Writer LogFile) : Prop :=
  exists off, logged n (in_wal_file w) off /\ writer_inv w /\ writer_cfg w = wal_cfg /\ log_file (dest_ w) /\ written (dest_ w) = in_wal_file w /\ block_offset_ w = off.

(** The file has room for [n] records, of less than [2 ^ 64] bytes. *)
Definition wal_fits (n : nat) : Prop := file_fits (F := F) (log_bound (wal_records n)) /\ log_bound (wal_records n) < 2 ^ 64.
Lemma wal_fits_le k m : (k <= m)%nat -> wal_fits m -> wal_fits k.
Proof. intros Hk%log_bound_le [Hf Hl]. split; [by eapply file_fits_le|lia]. Qed.

Lemma AddRecord_writes n w : writes n w -> wal_fits (S n) -> exists st w' o, add_record w (wal_record (Z.of_nat n)) = Ret (st, w') /\ ok st = true /\
  writes (S n) w' /\ in_wal_file w' = in_wal_file w ++ o.
Proof using Allocator0.
  intros (off & HL & Hi & Hc & Hl & Hw & Hoff) [Hfit _]. pose (RI := FileWriter_reliable new_chars).
  destruct (AddRecord_Frags (H2 := RI) w (wal_record (Z.of_nat n)) Hi Hl) as (st & w' & o & E & Hs & Hd & Hdl & Hi' & Hc' & Ho & Hf).
  { intros out off' Hf. eapply file_fits_le; [exact Hfit|]. change (contents (dest_ w)) with (written (dest_ w)). rewrite Hw, <- zlen_app.
    rewrite Hc, Hoff in Hf. eapply logged_size, logged_S; [exact HL|exact Hf]. }
  change (delivered (dest_ w')) with (in_wal_file w') in Hdl. change (contents (dest_ w')) with (written (dest_ w')) in *. change (contents (dest_ w)) with (written (dest_ w)) in Ho.
  rewrite Hc, Hoff in Hf. rewrite Hw in Ho. exists st, w', o. split; [done|]. split; [done|]. split; [|congruence].
  exists (block_offset_ w'). rewrite Hdl. split; [rewrite Ho; by eapply logged_S|]. split; [done|]. split; [congruence|]. done.
Qed.

Lemma open_writes (f : F) j : works f -> bytes_of f = [] -> UseOSBuffer f = true -> GetRequiredBufferAlignment f = 2 ^ j -> 0 <= j < 32 ->
  exists w, (fw ← WritableFileWriter_new new_chars f (1024 * 1024) 0; Writer_new fw 0 false) = Ret w /\ writes 0 w /\ in_wal_file w = [].
Proof using Allocator0.
  intros Hwk Hby Hos Hal Hj.
  destruct (WritableFileWriter_new_spec new_chars f j (1024 * 1024) 0 Hal Hj ltac:(lia)) as (fw & Efw & Hfw & Hf & Hs0 & Ho & Hb & Hh).
  specialize (Hh Hwk Hby). rewrite Hos in Ho. pose proof (holds_written fw [] Ho Hh) as Hw0.
  assert (file_contents fw = []) as Hfc by (unfold file_contents; by rewrite Hf).
  destruct (Writer_new_inv fw 0 false) as (w & Ew & Hi & Hd & Hoff & Hln & Hrc).
  assert (writer_cfg w = wal_cfg) as Hc by (unfold writer_cfg; by rewrite Hln, Hrc).
  exists w. rewrite Efw, bind_ret, Ew. split; [done|]. unfold writes, in_wal_file. rewrite Hd, Hfc. split; [|done]. exists 0.
  split; [constructor|]. split; [done|]. split; [done|]. split; [|done]. split; [done|]. split; [done|]. split; [done|]. rewrite Hw0. split; [by rewrite Hs0|done].
Qed.

(** What [GetFileSize] returns. *)
Lemma writes_size n w : writes n w -> wal_fits n -> filesize_ (dest_ w) = zlen (in_wal_file w).
Proof.
  intros (off & HL & _ & _ & (_ & _ & _ & Hs & _) & Hw & _) [_ Hf]. rewrite Hs, Hw. apply u64_small. pose proof (zlen_nonneg (in_wal_file w)).
  pose proof (logged_size _ _ _ HL). lia.
Qed.
End writing.

(** ** The invariant *)

Section invariant.
Context `{Host} `{Crc32c} {F : Type} `{WorkingFile F} (new_chars : Z -> Z * list byte) `{!Allocator new_chars}.
Local Abbreviation Wal := (Wal (F := F)).
Implicit Types s : Wal.

(** Only the reader finds that it has seen a part of a record, and it does not forget it. *)
Lemma writer_step_torn file m s s' : writer_step new_chars file m s = Some s' -> torn s' = torn s.
Proof.
  unfold writer_step, signal. repeat case_match; try done; intros [= <-]; done.
Qed.
Lemma reader_step_torn spurious s s' : reader_step spurious s = Some s' -> torn s' = false -> torn s = false.
Proof.
  unfold reader_step. repeat case_match; try done; intros [= <-]; simpl; try done; by intros [? _]%orb_false_elim.
Qed.
Lemma main_step_torn s s' : main_step s = Some s' -> torn s' = torn s.
Proof. unfold main_step, signal. repeat case_match; try done; intros [= <-]; done. Qed.

Definition file_now s : list byte := default [] (wal_file s).
Definition adding s : bool := match wal_writer s with WAdd _ _ _ _ => true | _ => false end.
Definition reader_holds s : bool := match wal_reader s with ROffset _ | RWait _ => true | _ => false end.

(** [n] calls of [AddRecord] have returned. *)
Definition writer_at (n : nat) s : Prop :=
  match wal_writer s with
  | WOpen => n = 0%nat /\ wal_file s = None
  | WTest w i | WLock w i => i = Z.of_nat n /\ writes n w /\ wal_file s = Some (in_wal_file w)
  | WAdd w i st w' => i = Z.of_nat n /\ ok st = true /\ writes n w /\ writes (S n) w' /\
      exists o1 o2, in_wal_file w' = in_wal_file w ++ o1 ++ o2 /\ wal_file s = Some (in_wal_file w ++ o1)
  | WDone => exists off, logged n (file_now s) off
  end.
(** The reader has printed [k] records. *)
Definition reader_at (n k : nat) s : Prop :=
  match wal_reader s with
  | ROpen => k = 0%nat
  | RTest r | RRead r => reading (file_now s) k r
  | RLock r | RUnmark r => ended (file_now s) k r
  | ROffset r | RWoken r => ended (file_now s) k r /\ reader_offset s = end_of_buffer_offset_ r
  | RWait r | RAsleep r => ended (file_now s) k r /\ reader_offset s = end_of_buffer_offset_ r /\ k = n
  | RDone => True
  | RError _ => False
  end.
Definition owner_ok s : Prop :=
  mutex s = (if adding s then Some WriterFunc else if reader_holds s then Some ReaderFunc else None) /\ adding s && reader_holds s = false.

Record wal_inv (n k : nat) s : Prop := {
  wi_writer : writer_at n s;
  wi_offset : exists base off rest, logged n base off /\ writer_offset s = zlen base /\ file_now s = base ++ rest;
  wi_owner : owner_ok s;
  wi_reader : reader_at n k s;
  wi_printed : printed s = wal_records k;
  wi_file : exists out off rest, logged k out off /\ file_now s = out ++ rest;
}.

Lemma wal_inv_start : wal_inv 0 0 Wal_start.
Proof. split; simpl; try done; [exists [], 0, []; repeat split; constructor|exists [], 0, []; split; [constructor|done]]. Qed.

(** What is on the disk, all in all. *)
Lemma writer_at_file n s : writer_at n s -> exists out off rest, logged (if adding s then S n else n) out off /\ out = file_now s ++ rest.
Proof.
  unfold writer_at, adding, file_now. destruct (wal_writer s) as [|w i|w i|w i st w'|].
  - intros [-> ->]. exists [], 0, []. split; [constructor|done].
  - intros (_ & (off & HL & _) & ->). exists (in_wal_file w), off, []. by rewrite app_nil_r.
  - intros (_ & (off & HL & _) & ->). exists (in_wal_file w), off, []. by rewrite app_nil_r.
  - intros (_ & _ & _ & (off & HL & _) & o1 & o2 & E & ->). exists (in_wal_file w'), off, o2. split; [done|]. simpl. by rewrite E, app_assoc.
  - intros [off HL]. eexists _, off, []. by rewrite app_nil_r.
Qed.

Lemma printed_le n k s : wal_inv n k s -> (k <= if adding s then S n else n)%nat.
Proof.
  intros Hi. destruct (writer_at_file n s (wi_writer _ _ _ Hi)) as (out & off & rest & HL & ->), (wi_file _ _ _ Hi) as (o & f & rest2 & Hk & E).
  rewrite E, <- app_assoc in HL. by destruct (logged_le _ _ _ _ _ _ Hk HL).
Qed.

(** When the file does not have a part of a record only, it is a log. *)
Lemma not_mid n s : writer_at n s -> mid_record s = false -> exists m off, logged m (file_now s) off.
Proof.
  intros Hw Hm. destruct (adding s) eqn:Ha.
  - unfold writer_at, mid_record, adding, file_now in *. destruct (wal_writer s) as [| | |w i st w'|]; try done.
    destruct Hw as (_ & _ & (off & HL & _) & (off' & HL' & _) & _).
    destruct (bool_decide_reflect (default [] (wal_file s) = in_wal_file w)) as [->|]; [by eauto|].
    destruct (bool_decide_reflect (default [] (wal_file s) = in_wal_file w')) as [->|]; [by eauto|done].
  - exists n. unfold writer_at, adding, file_now in *. destruct (wal_writer s) as [|w i|w i|w i st w'|]; try done.
    + destruct Hw as [-> ->]. exists 0. constructor.
    + destruct Hw as (_ & (off & HL & _) & ->). by exists off.
    + destruct Hw as (_ & (off & HL & _) & ->). by exists off.
Qed.

(** The file grows, or the writer goes on. *)
Lemma reader_at_grow n k s s' new : wal_reader s' = wal_reader s -> reader_offset s' = reader_offset s -> file_now s' = file_now s ++ new ->
  reader_at n k s -> reader_at n k s'.
Proof.
  unfold reader_at. intros -> -> ->. destruct (wal_reader s); try done; try (by apply reading_grow); try (by apply ended_grow); intros [He Hr]; (split; [by apply ended_grow|done]).
Qed.
Lemma signal_at n k s : reader_at n k s -> adding s = true -> owner_ok s -> reader_at (S n) k (signal s).
Proof.
  intros Hr Ha [_ Ho]. rewrite Ha in Ho. unfold reader_at, signal, reader_holds in *.
  destruct (wal_reader s) eqn:E; rewrite ?E; try done. simpl. tauto.
Qed.

Lemma inv_move n k s s' new : wal_inv n k s -> writer_at n s' -> owner_ok s' -> wal_reader s' = wal_reader s -> reader_offset s' = reader_offset s ->
  writer_offset s' = writer_offset s -> printed s' = printed s -> file_now s' = file_now s ++ new -> wal_inv n k s'.
Proof.
  intros [Hw (base & off & rest & Hb & Ho & Hf) _ Hr Hp (out & off' & rest' & Hk & Hf')] Hw' Hown Er Ero Ewo Ep Ef. split; [done| |done| |by rewrite Ep|].
  - exists base, off, (rest ++ new). rewrite Ewo, Ef, Hf, app_assoc. done.
  - by eapply reader_at_grow.
  - exists out, off', (rest' ++ new). by rewrite Ef, Hf', app_assoc.
Qed.

Lemma signal_frame s : wal_writer (signal s) = wal_writer s /\ wal_file (signal s) = wal_file s /\ mutex (signal s) = mutex s /\ writer_offset (signal s) = writer_offset s /\
  printed (signal s) = printed s /\ torn (signal s) = torn s /\ reader_holds (signal s) = reader_holds s.
Proof. unfold signal, reader_holds. by destruct (wal_reader s) eqn:E; rewrite ?E. Qed.

(** What [NewWritableFile] gives, if it does not fail: an empty file that works through the buffers of the system. *)
Definition wal_opened (file : option F) : Prop :=
  forall f, file = Some f -> works f /\ bytes_of f = [] /\ UseOSBuffer f = true /\ exists j, GetRequiredBufferAlignment f = 2 ^ j /\ 0 <= j < 32.

(** The end of [AddRecord]: the record is in the file, the reader is woken up. *)
Lemma added_inv n k s w i st w' : wal_inv n k s -> wal_writer s = WAdd w i st w' -> wal_fits (F := F) (S n) -> file_now s = in_wal_file w' ->
  wal_inv (S n) k (set_writer (signal (set_offsets s (filesize_ (dest_ w')) (reader_offset s))) (WTest w' (u64 (i + 1))) None).
Proof.
  intros [Hw Ho Hown Hr Hp Hf] E Hfit Hnow. unfold writer_at in Hw. rewrite E in Hw. destruct Hw as (-> & _ & _ & Hw' & o1 & o2 & _ & Hfile).
  set (s1 := set_offsets s _ _). assert (adding s1 = true) as Ha by (unfold adding; simpl; by rewrite E).
  pose proof (signal_at n k s1 Hr Ha Hown) as Hr1. destruct (signal_frame s1) as (Ew & Ef & Em & Eo & Ep & Et & Eh).
  assert (reader_holds s1 = false) as Hh by (destruct Hown as [_ Hh]; change (adding s1 && reader_holds s1 = false) in Hh; by rewrite Ha in Hh).
  pose proof (writes_size _ _ Hw' Hfit) as Hs. pose proof Hw' as (off & HL & _). pose proof (log_bound_nonneg (wal_records (S n))) as Hn.
  rewrite length_wal_records in Hn. destruct Hfit as [_ Hlt]. change (2 ^ 64) with 18446744073709551616 in Hlt.
  assert (file_now (signal s1) = in_wal_file w') as Hnow1 by (unfold file_now; by rewrite Ef).
  split.
  - unfold writer_at. simpl. rewrite u64_small by lia. split; [lia|]. split; [done|]. rewrite Ef. simpl. unfold file_now in Hnow. rewrite Hfile in Hnow |- *. simpl in Hnow. by rewrite Hnow.
  - exists (in_wal_file w'), off, []. rewrite app_nil_r. split; [done|]. simpl. rewrite Eo. split; [exact Hs|exact Hnow1].
  - split; simpl; [by rewrite <- Eh in Hh; unfold reader_holds in *; simpl; rewrite Hh|done].
  - exact Hr1.
  - simpl. by rewrite Ep.
  - destruct Hf as (out & off' & rest & Hk & Hf). exists out, off', rest. split; [done|]. rewrite <- Hf. change (file_now (signal s1) = file_now s). by rewrite Hnow1.
Qed.

Lemma writer_step_inv file m n k s s' : wal_inv n k s -> wal_opened file -> wal_fits (F := F) (S n) -> writer_step new_chars file m s = Some s' ->
  exists n', (n' <= S n)%nat /\ wal_inv n' k s' /\ torn s' = torn s.
Proof using Allocator0.
  intros Hi Hfile Hfit. pose proof Hi as [Hw Ho Hown Hr Hp Hf]. unfold writer_at in Hw. unfold writer_step.
  destruct (wal_writer s) as [|w i|w i|w i st w'|] eqn:E; [| | | |done].
  - destruct Hw as [-> Hnone]. assert (adding s = false) as Ha by (unfold adding; by rewrite E). destruct file as [f|].
    + destruct (Hfile f eq_refl) as (Hwk & Hby & Hos & j & Hal & Hj). destruct (open_writes new_chars f j Hwk Hby Hos Hal Hj) as (w & -> & Hwr & Hin).
      intros [= <-]. exists 0%nat. split; [lia|]. split; [|done]. apply (inv_move _ _ s _ []); [done|by unfold writer_at; simpl; rewrite Hin| |done..|by unfold file_now; simpl; rewrite Hnone].
      destruct Hown as [Hm Hx]. rewrite Ha in Hm. by split.
    + intros [= <-]. exists 0%nat. split; [lia|]. split; [|done]. apply (inv_move _ _ s _ []); [done| | |done..|by rewrite app_nil_r].
      * exists 0. unfold file_now. simpl. rewrite Hnone. constructor.
      * destruct Hown as [Hm Hx]. rewrite Ha in Hm. by split.
  - destruct Hw as (-> & Hw & Hs). assert (adding s = false) as Ha by (unfold adding; by rewrite E). intros [= <-]. exists n. split; [lia|]. split; [|done].
    apply (inv_move _ _ s _ []); [done| | |done..|by rewrite app_nil_r].
    + unfold writer_at. simpl. destruct (should_exit s); [|done]. unfold file_now. simpl. rewrite Hs. destruct Hw as (off & HL & _). by exists off.
    + destruct Hown as [Hm Hx]. rewrite Ha in Hm. split; unfold adding; simpl; by destruct (should_exit s).
  - destruct Hw as (-> & Hw & Hs). destruct (mutex s) eqn:Em; [done|]. assert (adding s = false) as Ha by (unfold adding; by rewrite E).
    destruct (AddRecord_writes new_chars n w Hw Hfit) as (st & w' & o & -> & Hst & Hw' & Eo). intros [= <-]. exists n. split; [lia|]. split; [|done].
    apply (inv_move _ _ s _ []); [done| | |done..|by rewrite app_nil_r].
    + unfold writer_at. simpl. split; [done|]. split; [done|]. split; [done|]. split; [done|]. exists [], o. by rewrite app_nil_r.
    + destruct Hown as [Hm Hx]. rewrite Ha, Em in Hm. split; [done|]. unfold reader_holds in *. simpl. by destruct (wal_reader s).
  - destruct Hw as (-> & Hst & Hw & Hw' & o1 & o2 & Eo & Hs). cbv zeta. rewrite Hst. destruct (decide _) as [Heq|Hne].
    + intros [= <-]. exists (S n). split; [lia|]. split; [by eapply added_inv|]. simpl. by destruct (signal_frame (set_offsets s (filesize_ (dest_ w')) (reader_offset s))) as (_ & _ & _ & _ & _ & -> & _).
    + destruct (_ && _) eqn:Em; [|done]. apply andb_prop in Em as [H1' H2']. apply Z.ltb_lt in H1'. apply Z.leb_le in H2'. rewrite Hs in H1'. simpl in H1'.
      intros [= <-]. exists n. split; [lia|]. split; [|done]. rewrite Eo, app_assoc in H2' |- *. rewrite zlen_app in H2'. pose proof (zlen_nonneg (in_wal_file w ++ o1)).
      rewrite ztake_app_ge by lia. set (o3 := ztake (m - zlen (in_wal_file w ++ o1)) o2).
      apply (inv_move _ _ s _ o3); [done| |exact Hown|done..|unfold file_now; simpl; by rewrite Hs].
      unfold writer_at. simpl. rewrite E. do 4 (split; [done|]). exists (o1 ++ o3), (zdrop (m - zlen (in_wal_file w ++ o1)) o2).
      split; [|by rewrite app_assoc]. unfold o3. rewrite <- app_assoc. by rewrite ztake_zdrop.
Qed.

(** Steps of the reader and of [main] leave the writer and the file alone. *)
Lemma inv_reader n k k' s s' : wal_inv n k s -> wal_writer s' = wal_writer s -> wal_file s' = wal_file s -> writer_offset s' = writer_offset s ->
  owner_ok s' -> reader_at n k' s' -> printed s' = wal_records k' -> (exists out off rest, logged k' out off /\ file_now s = out ++ rest) -> wal_inv n k' s'.
Proof.
  intros [Hw Ho Hown Hr Hp Hf] Ew Ef Eo Hown' Hr' Hp' Hf'. assert (file_now s' = file_now s) as En by (unfold file_now; by rewrite Ef).
  split; [|by rewrite Eo, En|done..|by rewrite En]. unfold writer_at in *. by rewrite Ew, Ef, En.
Qed.

Lemma owner_reader s s' : owner_ok s -> wal_writer s' = wal_writer s -> mutex s' = mutex s -> reader_holds s' = reader_holds s -> owner_ok s'.
Proof. unfold owner_ok, adding. by intros Ho -> -> ->. Qed.

(** The reader has the mutex: nothing is being written, and what is in the file is what was announced. *)
Lemma holds_end n k s r : wal_inv n k s -> adding s = false -> ended (file_now s) k r -> wal_fits (F := F) n -> writer_offset s = end_of_buffer_offset_ r -> k = n.
Proof.
  intros Hi Ha (out & off & rest & f & Hk & E & _ & Ho & _) [_ Hfit] Heq. destruct (wi_offset _ _ _ Hi) as (base & off1 & rest1 & Hb & Hwo & E1).
  destruct (writer_at_file n s (wi_writer _ _ _ Hi)) as (all & off2 & rest2 & Hall & Ea). rewrite Ha in Hall.
  pose proof (logged_size _ _ _ Hb) as Hs1. pose proof (logged_size _ _ _ Hall) as Hs2. rewrite Ea, E, !zlen_app in Hs2. zlen_pos. change (2 ^ 64) with 18446744073709551616 in Hfit.
  rewrite Hwo, Ho, u64_small in Heq by lia. rewrite E in E1. unfold zlen in Heq.
  apply app_inj_1 in E1 as [-> _]; [|lia]. by eapply logged_unique.
Qed.

Lemma reader_step_inv spurious n k s s' : wal_inv n k s -> wal_fits (F := F) n -> reader_step spurious s = Some s' -> torn s' = false ->
  torn s = false /\ exists k', wal_inv n k' s'.
Proof.
  intros Hi Hfit Hs Ht. pose proof Hi as [Hw Ho Hown Hr Hp Hf]. unfold reader_at in Hr. unfold reader_step in Hs. destruct (wal_reader s) as [|r|r|r|r|r|r|r|r| |st] eqn:E; try done.
  - assert (reader_holds s = false) as Hh by (unfold reader_holds; by rewrite E). subst k. destruct (wal_file s) as [b|] eqn:Eb; injection Hs as <-; (split; [done|]); exists 0%nat;
      (apply (inv_reader n 0 0 s); [done..|by apply (owner_reader s)| |done|done]); [|done].
    unfold reader_at, file_now. simpl. rewrite Eb. apply reading_start.
  - assert (reader_holds s = false) as Hh by (unfold reader_holds; by rewrite E). injection Hs as <-. split; [done|]. exists k.
    apply (inv_reader n k k s); [done..| | |done|done]; [apply (owner_reader s); [done..|]|]; unfold reader_holds, reader_at; simpl; by destruct (should_exit s).
  - assert (reader_holds s = false) as Hh by (unfold reader_holds; by rewrite E). fold (file_now s) in Hs.
    assert (torn s' = torn s || (mid_record s && negb (eof_ r))) as Et.
    { destruct (ReadRecord _ _ _ _ _) as [[[[[] ?] ?] ?]| | |]; try done; by injection Hs as <-. }
    rewrite Ht in Et. symmetry in Et. apply orb_false_elim in Et as [Et Em]. split; [done|].
    destruct (reading_step (file_now s) k r Hr) as (found & rec & sc & r' & Er & Hres).
    { intros He. rewrite He, andb_true_r in Em. by eapply not_mid. }
    rewrite Er in Hs. destruct found.
    + destruct Hres as (-> & [Hr' _] & Hf'). injection Hs as <-. exists (S k). apply (inv_reader n k (S k) s); [done..|by apply (owner_reader s)|exact Hr'| |exact Hf'].
      simpl. by rewrite wal_records_S, Hp.
    + destruct Hres as (Hr' & Hrep & _). rewrite Hrep in Hs. simpl in Hs. injection Hs as <-. exists k.
      apply (inv_reader n k k s); [done..|by apply (owner_reader s)|exact Hr'|by simpl; rewrite app_nil_r|exact Hf].
  - destruct (mutex s) eqn:Em; [done|]. injection Hs as <-. split; [done|]. exists k. apply (inv_reader n k k s); [done..| | |done|done].
    + destruct Hown as [Hm _]. rewrite Em in Hm. assert (adding s = false) as Ha by (by destruct (adding s)). split; unfold adding in *; simpl; by rewrite Ha.
    + by split.
  - destruct Hown as [Hm Hx]. assert (reader_holds s = true) as Hh by (unfold reader_holds; by rewrite E). rewrite Hh, andb_true_r in Hx. destruct Hr as [Hr Hro].
    injection Hs as <-. split; [by destruct (_ =? _)|]. exists k. destruct (Z.eqb_spec (writer_offset s) (reader_offset s)) as [Heq|Hne].
    + apply (inv_reader n k k s); [done..| | |done|done]; [apply (owner_reader s); [by split; [|rewrite Hx]|done..]|].
      split; [done|]. split; [done|]. eapply (holds_end n k s r); [done|done|done|done|congruence].
    + apply (inv_reader n k k s); [done..| |done|done|done]. split; unfold adding in *; simpl; by rewrite Hx.
  - destruct Hown as [Hm Hx]. assert (reader_holds s = true) as Hh by (unfold reader_holds; by rewrite E). rewrite Hh, andb_true_r in Hx.
    injection Hs as <-. split; [done|]. exists k. apply (inv_reader n k k s); [done..| |exact Hr|done|done]. split; unfold adding in *; simpl; by rewrite Hx.
  - destruct spurious; [|done]. assert (reader_holds s = false) as Hh by (unfold reader_holds; by rewrite E). injection Hs as <-. split; [done|]. exists k.
    apply (inv_reader n k k s); [done..|by apply (owner_reader s)| |done|done]. unfold reader_at. simpl. tauto.
  - destruct (mutex s) eqn:Em; [done|]. injection Hs as <-. destruct Hown as [Hm Hx]. rewrite Em in Hm. assert (adding s = false) as Ha by (by destruct (adding s)).
    split; [by destruct (should_exit s)|]. exists k. destruct (should_exit s); (apply (inv_reader n k k s); [done..| | |done|done]); try done; split; unfold adding in *; simpl; by rewrite Ha.
  - assert (reader_holds s = false) as Hh by (unfold reader_holds; by rewrite E). fold (file_now s) in Hs. injection Hs as <-. simpl in Ht. apply orb_false_elim in Ht as [Et Em].
    split; [done|]. exists k. destruct (not_mid n s Hw Em) as (m & off & HL).
    apply (inv_reader n k k s); [done..|by apply (owner_reader s)|by eapply (proj1 (ended_unmark _ _ _ _ _ Hr HL))|by simpl; rewrite app_nil_r|done].
Qed.

Lemma main_step_inv n k s s' : wal_inv n k s -> main_step s = Some s' -> torn s' = torn s /\ wal_inv n k s'.
Proof.
  intros Hi Hs. pose proof Hi as [Hw Ho Hown Hr Hp Hf]. unfold main_step in Hs. destruct (wal_main s); [| |done]; injection Hs as <-; (split; [try done|]).
  - apply (inv_reader n k k s); try done.
  - simpl. by destruct (signal_frame s) as (_ & _ & _ & _ & _ & -> & _).
  - destruct (signal_frame s) as (Ew & Ef & Em & Eo & Ep & Et & Eh). apply (inv_reader n k k s); [done|exact Ew|exact Ef|exact Eo| | |by rewrite <- Hp|done].
    + apply (owner_reader s); [done|exact Ew|exact Em|exact Eh].
    + unfold reader_at in *. unfold signal. simpl. destruct (wal_reader s) eqn:E; simpl; rewrite ?E; try done. simpl. tauto.
Qed.

(** ** Catching up *)

(** Nothing is being written, nobody has asked for the end and the reader is in its loop; [j] is [0] when it
    has looked at all of the file. *)
Definition idle (j n k : nat) s : Prop :=
  wal_inv n k s /\ adding s = false /\ should_exit s = false /\ torn s = false /\
  match wal_reader s with
  | RTest r | RRead r => j = 0%nat -> fresh (file_now s) r
  | RLock _ | ROffset _ | RWoken _ => j = 0%nat -> k = n
  | RUnmark _ => j <> 0%nat
  | RWait _ | RAsleep _ => True
  | ROpen | RDone | RError _ => False
  end.
Definition rank s : nat :=
  match wal_reader s with RTest _ => 5 | RRead _ => 4 | RLock _ | RWoken _ => 3 | ROffset _ => 2 | RUnmark _ | RWait _ => 1 | _ => 0 end.
(** The reader has less and less to do. *)
Definition to_do (j n k : nat) s : nat := j * (6 * n + 6) + 6 * (n - k) + rank s.

Lemma idle_file n k s : wal_inv n k s -> adding s = false -> mid_record s = false /\ (exists off, logged n (file_now s) off) /\ writer_offset s = zlen (file_now s).
Proof.
  intros Hi Ha. destruct (writer_at_file n s (wi_writer _ _ _ Hi)) as (all & off2 & rest2 & Hall & Ea), (wi_offset _ _ _ Hi) as (base & off1 & rest1 & Hb & Hwo & E1).
  rewrite Ha in Hall. rewrite E1 in Ea. rewrite <- app_assoc in Ea. subst all. destruct (Log_det _ _ _ _ _ Hb _ _ Hall) as [E _].
  rewrite <- (app_nil_r base) in E at 1. apply app_inv_head in E. symmetry in E. apply app_nil in E as [-> ->]. rewrite !app_nil_r in *.
  split; [unfold mid_record, adding in *; by destruct (wal_writer s)|]. rewrite E1. split; [by exists off1|done].
Qed.

Lemma ended_all b k n r off : ended b k r -> logged n b off -> sh_pos (file_ r) = length b -> k = n.
Proof.
  intros (out & off' & rest & f & Hk & -> & Hp & _) HL Hl. rewrite Hp, length_app in Hl. assert (rest = []) as -> by (destruct rest; [done|simpl in Hl; lia]).
  rewrite app_nil_r in HL. by eapply logged_unique.
Qed.

Lemma idle_step j n k s : idle j n k s -> wal_fits (F := F) n ->
  (exists r, wal_reader s = RAsleep r /\ k = n) \/
  exists j' k' s', reader_step false s = Some s' /\ idle j' n k' s' /\ (to_do j' n k' s' < to_do j n k s)%nat.
Proof.
  intros (Hi & Ha & He & Ht & Hj) Hfit. destruct (idle_file n k s Hi Ha) as (Hmid & [off HL] & Hwo).
  pose proof (wi_reader _ _ _ Hi) as Hr. pose proof (printed_le _ _ _ Hi) as Hle. rewrite Ha in Hle. pose proof (wi_owner _ _ _ Hi) as [Hm _]. rewrite Ha in Hm.
  assert (forall s' k', reader_step false s = Some s' -> torn s' = false -> length (printed s') = k' -> wal_inv n k' s') as Hstep.
  { intros s' k' Hs Ht' Hk. destruct (reader_step_inv false n k s s' Hi Hfit Hs Ht') as (_ & k2 & Hi').
    by rewrite (wi_printed _ _ _ Hi'), length_wal_records in Hk; subst. }
  assert (length (printed s) = k) as Hpk by (by rewrite (wi_printed _ _ _ Hi), length_wal_records).
  assert (forall j' s', reader_step false s = Some s' -> printed s' = printed s -> torn s' = false -> adding s' = adding s -> should_exit s' = should_exit s -> file_now s' = file_now s ->
    match wal_reader s' with RTest r | RRead r => j' = 0%nat -> fresh (file_now s) r | RLock _ | ROffset _ | RWoken _ => j' = 0%nat -> k = n
      | RUnmark _ => j' <> 0%nat | RWait _ | RAsleep _ => True | ROpen | RDone | RError _ => False end ->
    (j' * (6 * n + 6) + rank s' < j * (6 * n + 6) + rank s)%nat ->
    exists j' k' s', reader_step false s = Some s' /\ idle j' n k' s' /\ (to_do j' n k' s' < to_do j n k s)%nat) as Hgo.
  { intros j' s' Hs Ep Et Ea Ee Ef Hj' Hlt. exists j', k, s'. split; [done|]. split; [|unfold to_do; set (x := (j' * _)%nat) in *; set (y := (j * _)%nat) in *; lia]. split; [by apply Hstep; rewrite ?Ep|].
    rewrite Ea, Ee, Ef. done. }
  unfold reader_at in Hr. unfold reader_step in *. unfold reader_holds in Hm. unfold rank in Hgo at 2.
  destruct (wal_reader s) as [|r|r|r|r|r|r|r|r| |st] eqn:E; try done; [right|right|right|right|right|left|right|right].
  - rewrite He in Hgo |- *. apply (Hgo j (set_reader s (RRead r) (mutex s))); try done; unfold rank; simpl; lia.
  - fold (file_now s) in *. destruct (reading_step (file_now s) k r Hr) as (found & rec & sc & r' & Er & Hres); [by eauto|]. rewrite Er in *. destruct found.
    + destruct Hres as (-> & [_ Hfr] & _). set (s' := set_seen _ _ _) in *.
      assert (wal_inv n (S k) s') as Hi' by (apply Hstep; [done|unfold s'; simpl; by rewrite Ht, Hmid|unfold s'; simpl; rewrite length_app, Hpk; simpl; lia]).
      pose proof (printed_le _ _ _ Hi') as Hle'. change (adding s') with (adding s) in Hle'. rewrite Ha in Hle'.
      exists j, (S k), s'. split; [done|]. split; [|unfold to_do, rank, s'; simpl; rewrite E; set (x := (j * _)%nat); lia].
      split; [done|]. split; [done|]. split; [done|]. split; [unfold s'; simpl; by rewrite Ht, Hmid|]. unfold s'. simpl. auto.
    + destruct Hres as (He' & Hrep & Hfr). rewrite Hrep in *. simpl in Hgo. apply (Hgo j _ eq_refl); try done; [by simpl; rewrite app_nil_r|by simpl; rewrite Ht, Hmid| |unfold rank; simpl; lia].
      intros Hj0. by eapply ended_all; [| |apply Hfr, Hj].
  - rewrite Hm in Hgo |- *. apply (Hgo j _ eq_refl); try done; unfold rank; simpl; lia.
  - apply (Hgo j _ eq_refl); destruct (Z.eqb_spec (writer_offset s) (reader_offset s)) as [Heq|Hne]; try done; [|unfold rank; simpl; lia..].
    simpl. intros ->. apply Hne. specialize (Hj eq_refl). subst k. destruct Hr as [(out & off' & rest & f & Hk & Ef & _ & Ho & _) ->]. destruct Hfit as [_ Hlt].
    rewrite Ef in HL. destruct (Log_det _ _ _ _ _ Hk _ _ HL) as [Eo _]. rewrite <- Eo in Ef. rewrite Ho, Hwo, Ef, u64_small; [done|].
    pose proof (logged_size _ _ _ Hk). pose proof (zlen_nonneg out). lia.
  - apply (Hgo j _ eq_refl); try done. unfold rank. simpl. lia.
  - exists r. tauto.
  - rewrite Hm, He in Hgo |- *. apply (Hgo j _ eq_refl); try done; unfold rank; simpl; lia.
  - apply (Hgo 0%nat _ eq_refl); try done; simpl; [by rewrite app_nil_r|by rewrite Ht, Hmid| |unfold rank; simpl; destruct j; [done|simpl; lia]].
    intros _. by eapply (proj2 (ended_unmark _ _ _ _ _ Hr HL)).
Qed.

Lemma idle_catches_up j n k s : idle j n k s -> wal_fits (F := F) n ->
  exists s', rtc (fun s s' => reader_step false s = Some s') s s' /\ printed s' = wal_records n /\ exists r, wal_reader s' = RAsleep r.
Proof.
  remember (to_do j n k s) as d eqn:Ed. revert j k s Ed. induction (lt_wf d) as [d _ IH]. intros j k s -> Hi Hfit.
  destruct (idle_step j n k s Hi Hfit) as [(r & E & ->)|(j' & k' & s' & Hs & Hi' & Hlt)].
  - exists s. split; [apply rtc_refl|]. split; [apply (wi_printed _ _ _ (proj1 Hi))|by exists r].
  - destruct (IH _ Hlt j' k' s' eq_refl Hi' Hfit) as (s2 & Hr & Hres). exists s2. split; [by eapply rtc_l|done].
Qed.

(** Every number of steps adds at most as many records. *)
Lemma steps_inv file N s : wal_opened file -> wal_fits (F := F) (S N) -> nsteps (wal_step new_chars file) N Wal_start s -> torn s = false ->
  exists n k, (n <= N)%nat /\ wal_inv n k s.
Proof using Allocator0.
  intros Hfile. revert s. induction N as [|N IH]; intros s Hfit Hs Ht.
  - inversion Hs; subst. exists 0%nat, 0%nat. split; [done|apply wal_inv_start].
  - apply nsteps_inv_r in Hs as (s1 & Hs & Hstep). assert (wal_fits (F := F) (S N)) as Hfit1 by (by eapply wal_fits_le; [|exact Hfit]; lia).
    assert (torn s1 = false -> exists n k, (n <= S N)%nat /\ wal_inv n k s) as Hgo.
    { intros Ht1. destruct (IH s1 Hfit1 Hs Ht1) as (n & k & Hn & Hi). assert (wal_fits (F := F) (S n)) as Hfn by (by eapply wal_fits_le; [|exact Hfit]; lia).
      destruct Hstep as [m s1 s' Hst|sp s1 s' Hst|s1 s' Hst].
      - destruct (writer_step_inv file m n k s1 s' Hi Hfile Hfn Hst) as (n' & Hn' & Hi' & _). exists n', k. split; [lia|done].
      - destruct (reader_step_inv sp n k s1 s' Hi (wal_fits_le n (S n) ltac:(lia) Hfn) Hst Ht) as (_ & k' & Hi'). exists n, k'. split; [lia|done].
      - destruct (main_step_inv n k s1 s' Hi Hst) as [_ Hi']. exists n, k. split; [lia|done]. }
    apply Hgo. destruct Hstep as [m s1 s' Hst|sp s1 s' Hst|s1 s' Hst].
    + by rewrite <- (writer_step_torn _ _ _ _ Hst).
    + by apply (reader_step_torn _ _ _ Hst).
    + by rewrite <- (main_step_torn _ _ Hst).
Qed.
End invariant.

(** ** Properties *)

Section properties.
Context `{Host} `{Crc32c} {F : Type} `{WorkingFile F} (new_chars : Z -> Z * list byte) `{!Allocator new_chars}.


End properties.

(** ** Runs *)

(** Which thread makes the next step. *)
Inductive wal_choice : Type := ByWriter (m : Z) | ByReader (spurious : bool) | ByMain.

Section runs.
Context `{Host} `{Crc32c} {F : Type} `{WorkingFile F} (new_chars : Z -> Z * list byte).

Definition choose (file : option F) (c : wal_choice) (s : Wal (F := F)) : option (Wal (F := F)) :=
  match c with ByWriter m => writer_step new_chars file m s | ByReader spurious => reader_step spurious s | ByMain => main_step s end.
Fixpoint wal_run (file : option F) (cs : list wal_choice) (s : Wal (F := F)) : option (Wal (F := F)) :=
  match cs with [] => Some s | c :: cs => match choose file c s with Some s' => wal_run file cs s' | None => None end end.

Lemma wal_run_steps file cs : forall s s', wal_run file cs s = Some s' -> nsteps (wal_step new_chars file) (length cs) s s'.
Proof.
  induction cs as [|c cs IH]; intros s s' E; simpl in E; [injection E as <-; apply nsteps_O|].
  destruct (choose file c s) as [s1|] eqn:E1; [|done]. apply (nsteps_l _ _ _ s1); [|by apply IH]. destruct c; by econstructor.
Qed.
End runs.

(** The writer puts a record into the file in two portions, the reader prints it. *)
Definition one_followed : list wal_choice :=
  [ByWriter 0; ByReader false; ByWriter 0; ByWriter 0; ByWriter 5; ByWriter 12; ByWriter 0; ByReader false; ByReader false].
Local Abbreviation mem_run cs := (@wal_run le_host test_crc MemFile MemFile_ops MemFile_working zero_chars (Some (mkMem [] true)) cs Wal_start).
Lemma mem_opened : wal_opened (Some (mkMem [] true)).
Proof. intros f [= <-]. split; [done|]. split; [done|]. split; [done|]. by exists 2. Qed.


Definition one_written : list wal_choice := [ByWriter 0; ByReader false; ByWriter 0; ByWriter 0; ByWriter 12; ByWriter 0].

(** ** What the code does beside its promise *)

(** [main] sets [should_exit] and signals without the mutex. Between the test of the offsets and [Wait]
    the signal is lost: the writer returns, the reader sleeps, [main] waits for it to return, and only a wake-up without a
    reason goes on. *)
Definition exit_unheard : list wal_choice :=
  [ByWriter 0; ByReader false; ByReader false; ByReader false; ByReader false; ByReader false; ByMain; ByMain; ByReader false; ByWriter 0].
Lemma wal_exit_lost : exists s, mem_run exit_unheard = Some s /\ should_exit s = true /\ wal_main s = MJoin /\ wal_writer s = WDone /\ (exists r, wal_reader s = RAsleep r) /\
  main_step s = None /\ (forall file m, @writer_step le_host test_crc MemFile MemFile_ops MemFile_working zero_chars file m s = None) /\
  @reader_step le_host test_crc MemFile MemFile_ops MemFile_working false s = None.
Proof.
  assert (option_map (fun s => (should_exit s, match wal_main s with MJoin => true | _ => false end, match wal_writer s with WDone => true | _ => false end,
    match wal_reader s with RAsleep _ => true | _ => false end)) (mem_run exit_unheard) = Some (true, true, true, true)) as E by (vm_compute; reflexivity).
  destruct (mem_run exit_unheard) as [s|] eqn:Er; [|discriminate E]. injection E as E1 E2 E3 E4. exists s. split; [reflexivity|]. clear Er.
  unfold main_step, writer_step, reader_step. destruct (wal_main s), (wal_writer s), (wal_reader s) as [| | | | | |r| | | |]; try done. by split_and!; try (by eexists).
Qed.

(** A record that crosses the end of a block is written in two pieces. A reader that looks at the file
    in between forgets the first piece at the end of the file; it reports the second one as corruption and goes on with the record behind it. *)
Definition torn_log : list byte :=
  phys legacy kFullType (zrep (kBlockSize - 7 - 10) x61) ++ phys legacy kFirstType (str "hel") ++ phys legacy kLastType (str "lo") ++ phys legacy kFullType (str "!").
Definition read_shared (r : Reader shared_file) (b : list byte) : bool * list byte * Reader shared_file :=
  match @ReadRecord le_host test_crc _ _ 50 (refresh r b) [] [] kTolerateCorruptedTailRecords with Ret (found, record, _, r') => (found, record, r') | _ => (false, [], r) end.
(** Two reads of the file [b1], the second of which finds its end, and one of [b2] after [UnmarkEOF]. *)
Definition follow_once (b1 b2 : list byte) : list (bool * list byte) * Z * option (list (Z * Status)) :=
  let '(found1, record1, r1) := read_shared (Reader_new (mkShared b1 0) (Some []) true 0 0) b1 in
  let '(found2, record2, r2) := read_shared r1 b1 in
  let '(found3, record3, r3) := read_shared (UnmarkEOF (refresh r2 b2)) b2 in
  ([(found1, ztake 5 record1); (found2, record2); (found3, record3)], EndOfBufferOffset r2, reporter_ r3).
Lemma torn_record_lost : follow_once (ztake kBlockSize torn_log) torn_log =
  ([(true, str "aaaaa"); (false, []); (true, str "!")], kBlockSize, Some [(2, @Corruption le_host (str "missing start of fragmented record(2)") [])]).
Proof. vm_compute. done. Qed.

(** A memory mapped file has zeros behind the log. A reader that follows it takes them for the rest of the
    block, and what is written over them later, before the position that it has then, it does not get. *)
Lemma zeros_followed_lost : let log := phys legacy kFullType (str "hello") in
  follow_once (log ++ zrep 40 x00) (log ++ phys legacy kFullType (str "!") ++ zrep 32 x00) = ([(true, str "hello"); (false, []); (false, [])], 52, Some []).
Proof. vm_compute. done. Qed.
