(* ===== verification/FileReader.v ===== *)
(** * FileReader ([rutil/file_reader_writer.cc], the readers)

    [SequentialFileReader], the file of the log reader, [RandomAccessFileReader] and
    [ReadaheadRandomAccessFile], which reads ahead of what its caller asks for and serves later
    calls from its buffer. *)

From Stdlib Require Import Strings.Byte Strings.String.
From stdpp Require Import list.
From S2P Require Import Prelude.
From S2P Require Import Slice.
From S2P Require Import Coding.
From S2P Require Import Status.
From S2P Require Import LogReader.
From S2P Require Import LogSafety.
From S2P Require Import FileApi.

Section reader.
Context {F : Type} `{RandomAccessFile F}.

(** ** The code *)

(** [RandomAccessFileReader::Read] passes the call on. *)
Definition RandomAccessFileReader_Read (f : F) (offset n : Z) (scratch : list byte) : Status * ReadResult :=
  file_Read f offset n scratch.

(** [buffer_] is empty when calls are forwarded. *)
Record Readahead : Type := mkReadahead {
  ra_file : F;
  readahead_size_ : Z;
  forward_calls_ : bool;
  buffer_ : list byte;
  buffer_offset_ : Z;
  buffer_len_ : Z;
}.

(** The constructor; [raw] are the bytes of [new char[readahead_size_]]. *)
Definition Readahead_new (raw : list byte) (f : F) (readahead_size : Z) : Readahead :=
  let forward := ShouldForwardRawRequest f in
  if negb forward then mkReadahead f readahead_size forward raw 0 0
  else if 0 <? readahead_size then mkReadahead (EnableReadAhead f) readahead_size forward [] 0 0
  else mkReadahead f readahead_size forward [] 0 0.

Definition set_buffer (r : Readahead) (b : list byte) (offset len : Z) : Readahead :=
  mkReadahead (ra_file r) (readahead_size_ r) (forward_calls_ r) b offset len.

(** The part of a read that the buffer has, when [offset] is inside the buffer; [memcpy] from outside
    of it is undefined. *)
Definition from_buffer (r : Readahead) (offset n : Z) : outcome (option (list byte)) :=
  if (buffer_offset_ r <=? offset) && (offset <? u64 (buffer_len_ r + buffer_offset_ r)) then
    let offset_in_buffer := u64 (offset - buffer_offset_ r) in
    let copied := Z.min (u64 (buffer_len_ r - offset_in_buffer)) n in
    if offset_in_buffer + copied <=? zlen (buffer_ r)
    then Ret (Some (ztake copied (zdrop offset_in_buffer (buffer_ r)))) else Undef
  else Ret None.

(** [Read]: the status, the result if it has been set, and the state afterwards. *)
Definition Read (r : Readahead) (offset n : Z) (scratch : list byte) : outcome (Status * option Slice * Readahead) :=
  if (readahead_size_ r <=? n) || forward_calls_ r then
    let '(s, res) := file_Read (ra_file r) offset n scratch in Ret (s, Some (rd_data res), r)
  else
    part ← from_buffer r offset n;
    let cached := default [] part in
    let copied := zlen cached in
    if bool_decide (is_Some part) && (copied =? n) then Ret (OK, Some cached, r)
    else
      let '(s, res) := file_Read (ra_file r) (u64 (offset + copied)) (readahead_size_ r) (buffer_ r) in
      if negb (ok s) then Ret (s, None, set_buffer r (rd_scratch res) (buffer_offset_ r) (buffer_len_ r))
      else
        let left_to_copy := Z.min (zlen (rd_data res)) (u64 (n - copied)) in
        let result := cached ++ ztake left_to_copy (rd_data res) in
        if rd_in_scratch res then
          Ret (OK, Some result, set_buffer r (rd_scratch res) (u64 (offset + copied)) (zlen (rd_data res)))
        else Ret (OK, Some result, set_buffer r (rd_scratch res) (buffer_offset_ r) 0).

(** The other methods are those of the file; the buffer stays as it is. *)
Context `{!RandomAccessHints F}.
Definition with_file (r : Readahead) (f : F) : Readahead :=
  mkReadahead f (readahead_size_ r) (forward_calls_ r) (buffer_ r) (buffer_offset_ r) (buffer_len_ r).
Definition Readahead_GetUniqueId (r : Readahead) (max_size : Z) : list byte := ra_GetUniqueId (ra_file r) max_size.
Definition Readahead_Hint (r : Readahead) (pattern : AccessPattern) : Readahead := with_file r (ra_Hint (ra_file r) pattern).
Definition Readahead_InvalidateCache (r : Readahead) (offset length : Z) : Status * Readahead :=
  let '(s, f) := ra_InvalidateCache (ra_file r) offset length in (s, with_file r f).

(** ** Reading a file *)

(** [Read] fails or gives the bytes at the offset, fewer only at the end, and leaves them in the
    buffer it was given if it says so. *)
Class HonestRandomFile := {
  ra_bytes : F -> list byte;
  ra_honest : forall f offset n scratch, 0 <= offset -> 0 <= n -> zlen scratch = n ->
    let '(s, res) := file_Read f offset n scratch in
    zlen (rd_scratch res) = n /\
    (ok s = true -> rd_data res = ztake n (zdrop offset (ra_bytes f)) /\
      (rd_in_scratch res = true -> ztake (zlen (rd_data res)) (rd_scratch res) = rd_data res));
}.

Context `{!HonestRandomFile}.

(** A file that does not fail. *)
Definition reads_work (f : F) : Prop :=
  forall offset n scratch, 0 <= offset -> 0 <= n -> zlen scratch = n -> ok (file_Read f offset n scratch).1 = true.

(** The buffer holds what the file holds at [buffer_offset_]. *)
Record readahead_ok (r : Readahead) : Prop := {
  ro_buffer : forward_calls_ r = false -> zlen (buffer_ r) = readahead_size_ r;
  ro_len : 0 <= buffer_len_ r <= readahead_size_ r /\ 0 <= buffer_offset_ r;
  ro_bound : 0 <= readahead_size_ r < 2 ^ 62 /\ zlen (ra_bytes (ra_file r)) < 2 ^ 62;
  ro_cached : 0 < buffer_len_ r -> buffer_offset_ r + buffer_len_ r <= zlen (ra_bytes (ra_file r));
  ro_data : forward_calls_ r = false ->
    ztake (buffer_len_ r) (buffer_ r) = ztake (buffer_len_ r) (zdrop (buffer_offset_ r) (ra_bytes (ra_file r)));
}.

Lemma Readahead_new_ok raw f n : ShouldForwardRawRequest f = false -> zlen raw = n -> n < 2 ^ 62 ->
  zlen (ra_bytes f) < 2 ^ 62 -> readahead_ok (Readahead_new raw f n).
Proof.
  intros Hf Hl Hn Hb. pose proof (zlen_nonneg raw). unfold Readahead_new. rewrite Hf. constructor; simpl; try done; lia.
Qed.

(** The part that is served from the buffer. *)
Lemma cached_part (r : Readahead) offset n : readahead_ok r -> forward_calls_ r = false -> 0 <= offset < 2 ^ 62 -> 0 <= n ->
  exists part c, from_buffer r offset n = Ret part /\ 0 <= c <= n /\ c <= readahead_size_ r /\
    default [] part = ztake c (zdrop offset (ra_bytes (ra_file r))) /\
    zlen (ztake c (zdrop offset (ra_bytes (ra_file r)))) = c.
Proof.
  intros [Hb [Hl Ho] [Hbd Hfb] Hc Hd] Hfw Hoff Hn. specialize (Hb Hfw). specialize (Hd Hfw). change (2 ^ 62) with 4611686018427387904 in *.
  unfold from_buffer. destruct ((buffer_offset_ r <=? offset) && (offset <? u64 (buffer_len_ r + buffer_offset_ r))) eqn:E.
  2: { exists None, 0. split; [done|]. split; [lia|]. split; [lia|]. by rewrite ztake_0. }
  assert (0 < buffer_len_ r) as Hp.
  { destruct (decide (0 < buffer_len_ r)) as [|Hn0]; [done|exfalso]. replace (buffer_len_ r) with 0 in E by lia.
    rewrite u64_small in E by lia. lia. }
  specialize (Hc Hp). rewrite u64_small in E by lia. rewrite (u64_small (offset - _)) by lia. cbv zeta. rewrite u64_small by lia.
  set (i := offset - buffer_offset_ r). set (c := Z.min (buffer_len_ r - i) n).
  replace (i + c <=? zlen (buffer_ r)) with true by lia.
  exists (Some (ztake c (zdrop i (buffer_ r)))), c. split; [done|]. split; [lia|]. split; [lia|]. simpl.
  assert (ztake c (zdrop i (buffer_ r)) = ztake c (zdrop offset (ra_bytes (ra_file r)))) as ->.
  { transitivity (ztake c (zdrop i (ztake (buffer_len_ r) (buffer_ r)))).
    - rewrite zdrop_ztake, ztake_ztake by lia. f_equal. lia.
    - rewrite Hd, zdrop_ztake, ztake_ztake, zdrop_zdrop by lia. f_equal; [lia|f_equal; lia]. }
  split; [done|]. rewrite zlen_ztake, zlen_zdrop by lia. lia.
Qed.

(** A read that needs the file and gets what it wants. *)
Lemma refill (r : Readahead) offset c n s res : readahead_ok r -> forward_calls_ r = false ->
  0 <= offset < 2 ^ 62 -> 0 <= c <= n -> n < readahead_size_ r ->
  zlen (ztake c (zdrop offset (ra_bytes (ra_file r)))) = c ->
  file_Read (ra_file r) (offset + c) (readahead_size_ r) (buffer_ r) = (s, res) -> ok s = true ->
  let bytes := ra_bytes (ra_file r) in
  zlen (rd_data res) <= readahead_size_ r /\
  ztake c (zdrop offset bytes) ++ ztake (Z.min (zlen (rd_data res)) (n - c)) (rd_data res) = ztake n (zdrop offset bytes) /\
  readahead_ok (if rd_in_scratch res then set_buffer r (rd_scratch res) (offset + c) (zlen (rd_data res))
                else set_buffer r (rd_scratch res) (buffer_offset_ r) 0).
Proof.
  intros [Hb [Hl Ho] [Hbd Hfb] Hca Hd] Hfw Hoff Hc Hn Hz ER Es bytes. specialize (Hb Hfw). change (2 ^ 62) with 4611686018427387904 in *.
  pose proof (ra_honest (ra_file r) (offset + c) (readahead_size_ r) (buffer_ r) ltac:(lia) ltac:(lia) Hb) as HR. rewrite ER in HR.
  destruct HR as (Ezs & HR). destruct (HR Es) as (Ed & Ein). fold bytes in Ed, Hz |- *. pose proof (zlen_nonneg bytes). pose proof (zlen_nonneg (rd_data res)).
  assert (zlen (rd_data res) = Z.min (readahead_size_ r) (Z.max 0 (zlen bytes - (offset + c)))) as Hzd by (rewrite Ed, zlen_ztake, zlen_zdrop by lia; done).
  split; [lia|]. split.
  - assert (ztake (Z.min (zlen (rd_data res)) (n - c)) (rd_data res) = ztake (n - c) (rd_data res)) as ->.
    { destruct (Z.le_gt_cases (zlen (rd_data res)) (n - c)); [rewrite Z.min_l, !ztake_ge by lia; done|by rewrite Z.min_r by lia]. }
    rewrite Ed, ztake_ztake. replace (Z.min (n - c) (readahead_size_ r)) with (n - c) by lia.
    replace n with (c + (n - c)) at 2 by lia. rewrite (ztake_zdrop_split c (n - c)) by lia. by rewrite zdrop_zdrop by lia.
  - destruct (rd_in_scratch res) eqn:Ers; constructor; simpl; fold bytes; try done; try lia.
    intros _. rewrite (Ein eq_refl). rewrite Ed at 1. rewrite <- (ztake_ge (zlen (rd_data res)) (ztake _ _)) by (rewrite zlen_ztake, zlen_zdrop by lia; lia).
    rewrite ztake_ztake. f_equal. lia.
Qed.

(** Hints and [InvalidateCache] do not change what is read, the buffer included, if they do
    not change the file. *)
Lemma with_file_ok (r : Readahead) f : readahead_ok r -> ra_bytes f = ra_bytes (ra_file r) -> readahead_ok (with_file r f).
Proof. intros [Hb Hl Hbd Hc Hd] E. constructor; simpl; rewrite ?E; done. Qed.

(** A read, from the buffer or from the file. *)
Lemma readahead_Read (r : Readahead) offset n scratch :
  readahead_ok r -> 0 <= offset < 2 ^ 62 -> 0 <= n -> zlen scratch = n ->
  exists s res r', Read r offset n scratch = Ret (s, res, r') /\ ra_file r' = ra_file r /\
    (ok s = true -> res = Some (ztake n (zdrop offset (ra_bytes (ra_file r)))) /\ readahead_ok r') /\
    (reads_work (ra_file r) -> ok s = true) /\
    (forward_calls_ r = true \/ readahead_size_ r <= n -> r' = r).
Proof.
  intros Hok Hoff Hn Hs. unfold Read. destruct ((readahead_size_ r <=? n) || forward_calls_ r) eqn:Ef.
  { pose proof (ra_honest (ra_file r) offset n scratch ltac:(lia) Hn Hs) as HR. destruct (file_Read _ _ _ _) as [s res] eqn:ER.
    destruct HR as (_ & HR). exists s, (Some (rd_data res)), r. split; [done|]. split; [done|]. split; [|split; [|done]].
    - intros Es. destruct (HR Es) as [-> _]. done.
    - intros Hw. specialize (Hw offset n scratch ltac:(lia) Hn Hs). by rewrite ER in Hw. }
  apply orb_false_iff in Ef as [Hlt Hfw]. destruct (cached_part r offset n Hok Hfw Hoff Hn) as (part & c & -> & Hc & Hcr & Hpart & Hz). bret. rewrite Hpart, Hz.
  pose proof (ro_bound _ Hok) as [Hbd _]. pose proof Hoff. change (2 ^ 62) with 4611686018427387904 in Hbd, H0.
  assert (~ (forward_calls_ r = true \/ readahead_size_ r <= n)) as Hno by (intros [?|?]; [congruence|lia]).
  destruct (bool_decide (is_Some part) && (c =? n)) eqn:Ec.
  { replace c with n by lia. eexists _, _, r. split; [reflexivity|]. do 3 (split; [done|]). done. }
  rewrite (u64_small (offset + c)) by lia. destruct (file_Read _ _ _ _) as [s res] eqn:ER.
  destruct (ok s) eqn:Es; cbn [negb].
  - destruct (refill r offset c n s res Hok Hfw Hoff Hc ltac:(lia) Hz ER Es) as (Hl & E & Hok').
    rewrite u64_small, E by lia. destruct (rd_in_scratch res); eexists OK, _, _; (split; [reflexivity|]); (split; [done|]); (split; [done|]); (split; [done|]); intros Hx; by destruct (Hno Hx).
  - eexists s, None, _. split; [reflexivity|]. split; [done|]. split; [by rewrite Es|]. split; [|intros Hx; by destruct (Hno Hx)].
    intros Hw. specialize (Hw (offset + c) (readahead_size_ r) (buffer_ r) ltac:(lia) ltac:(lia) (ro_buffer _ Hok Hfw)). by rewrite ER in Hw.
Qed.

(** C29: reading ahead is invisible as long as the file does not fail. On a new object, and as long as
    every read has been OK, a [Read] returns; when it is OK it gives the bytes at the offset, fewer only
    at the end of the file, whatever was read before, and the buffer stays true to the file. A read fails
    only when the file does; one that does not go through the buffer leaves it as it is then. (After
    a failed read into the buffer the code does not keep its promise, [readahead_serves_rubbish].) *)
Theorem readahead_transparent :
  (forall raw f size, ShouldForwardRawRequest f = false -> zlen raw = size -> size < 2 ^ 62 -> zlen (ra_bytes f) < 2 ^ 62 ->
    readahead_ok (Readahead_new raw f size)) /\
  (forall r offset n scratch, readahead_ok r -> 0 <= offset < 2 ^ 62 -> 0 <= n -> zlen scratch = n ->
    exists s res r', Read r offset n scratch = Ret (s, res, r') /\ ra_file r' = ra_file r /\
      (ok s = true -> res = Some (ztake n (zdrop offset (ra_bytes (ra_file r)))) /\ readahead_ok r') /\
      (reads_work (ra_file r) -> ok s = true) /\
      (forward_calls_ r = true \/ readahead_size_ r <= n -> r' = r)).
Proof. split; [exact Readahead_new_ok|exact readahead_Read]. Qed.
End reader.

(** ** [SequentialFileReader] *)

(** It owns the file and passes [Read] and [Skip] on. *)
Record SequentialFileReader (F : Type) : Type := mkSequentialReader { sr_file : F }.
Arguments mkSequentialReader {F} _.
Arguments sr_file {F} _.

Definition SequentialFileReader_Read {F} `{SeqFile F} (r : SequentialFileReader F) (n : Z) : Status * list byte * SequentialFileReader F :=
  let '(s, result, f) := seq_read (sr_file r) n in (s, result, mkSequentialReader f).
Definition SequentialFileReader_Skip {F} `{SeqFile F} (r : SequentialFileReader F) (n : Z) : Status * SequentialFileReader F :=
  let '(s, f) := seq_skip (sr_file r) n in (s, mkSequentialReader f).

(** What the log reader asks of its file holds for the reader of a file for which it holds:
    its theorems are about the reader over the file. *)
#[export] Instance sequential_reader_file {F} `{SeqFile F} : SeqFile (SequentialFileReader F) := {
  seq_read := SequentialFileReader_Read;
  seq_skip := SequentialFileReader_Skip;
}.
#[export] Instance sequential_reader_reliable {F} `{ReliableFile F} : ReliableFile (SequentialFileReader F).
Proof.
  refine {| remaining r := remaining (sr_file r) |}; intros [f] n Hn; simpl.
  - destruct (read_reliable f n Hn) as (Ho & Hd & Hr). unfold SequentialFileReader_Read. simpl. by destruct (seq_read f n) as [[s d] f'].
  - destruct (skip_reliable f n Hn) as (Ho & Hr). unfold SequentialFileReader_Skip. simpl. by destruct (seq_skip f n) as [s f'].
Defined.

#[export] Instance sequential_reader_finite {F} `{FiniteFile F} : FiniteFile (SequentialFileReader F).
Proof.
  refine {| bytes_left r := bytes_left (sr_file r); bytes_left_nonneg r := bytes_left_nonneg (sr_file r) |}; intros [f] n; simpl.
  - pose proof (read_finite f n). unfold SequentialFileReader_Read. simpl. by destruct (seq_read f n) as [[s d] f'].
  - pose proof (skip_finite f n). unfold SequentialFileReader_Skip. simpl. by destruct (seq_skip f n) as [s f'].
Defined.

(** ** When the file fails *)

(** A file of eight bytes whose reads at the offset 4 fail after they have written to the
    buffer. *)
Definition bad_file : Type := unit.
#[local] Instance bad_file_ops : RandomAccessFile bad_file := {
  ShouldForwardRawRequest _ := false;
  EnableReadAhead f := f;
  file_Read _ offset n scratch :=
    let data := ztake n (zdrop offset (str "abcdefgh")) in
    if offset =? 4 then (Status_of kIOError kNone, mkRead [] true (str "xx" ++ zdrop 2 scratch))
    else (OK, mkRead data true (data ++ zdrop (zlen data) scratch));
}.

(** The result of a read, and the state after it. *)
Definition result_of (r : Readahead (F := bad_file)) (offset n : Z) : option (Status * option Slice) :=
  match Read r offset n (zrep n x00) with Ret (s, x, _) => Some (s, x) | _ => None end.
Definition state_after (r : Readahead (F := bad_file)) (offset n : Z) : Readahead :=
  match Read r offset n (zrep n x00) with Ret (_, _, r') => r' | _ => r end.

(** A failed read leaves its bytes in the buffer, which the next read takes for the
    bytes of the file: after reads at 0 and, failing, at 2, the read at 0 returns the
    rubbish, with the status OK. *)
Lemma readahead_serves_rubbish :
  let r0 := Readahead_new (zrep 4 x00) (tt : bad_file) 4 in
  let r1 := state_after r0 0 2 in
  let r2 := state_after r1 2 3 in
  result_of r0 0 2 = Some (OK, Some (str "ab")) /\
  result_of r1 2 3 = Some (Status_of kIOError kNone, None) /\
  result_of r2 0 2 = Some (OK, Some (str "xx")).
Proof. vm_compute. done. Qed.

(** ** A file in memory *)

Definition mem_random : Type := list byte.
#[local] Instance mem_random_ops : RandomAccessFile mem_random := {
  ShouldForwardRawRequest _ := false;
  EnableReadAhead f := f;
  file_Read f offset n scratch :=
    let data := ztake n (zdrop offset f) in (OK, mkRead data true (data ++ zdrop (zlen data) scratch));
}.
#[local] Instance mem_random_honest : HonestRandomFile (F := mem_random).
Proof.
  refine {| ra_bytes := fun f : mem_random => f |}. intros f offset n scratch Ho Hn Hs. simpl. split; [|intros _; split; [done|]].
  - rewrite zlen_app, zlen_zdrop by (pose proof (zlen_nonneg (ztake n (zdrop offset f))); lia). rewrite zlen_ztake by lia.
    pose proof (zlen_nonneg (zdrop offset f)). lia.
  - intros _. rewrite ztake_app_zlen. done.
Defined.
Lemma mem_random_works (f : mem_random) : reads_work f.
Proof. done. Qed.

Lemma readahead_transparent_witness :
  exists s r', Read (Readahead_new (zrep 4 x00) (str "abcdefgh" : mem_random) 4) 3 2 (zrep 2 x00) = Ret (s, Some (str "de"), r').
Proof.
  destruct (@readahead_transparent mem_random mem_random_ops mem_random_honest) as [Hnew HR].
  destruct (HR (Readahead_new (zrep 4 x00) (str "abcdefgh" : mem_random) 4) 3 2 (zrep 2 x00)) as (s & res & r' & E & _ & Hok & Hw & _);
    [apply Hnew; vm_compute; done|vm_compute; done|done|done|].
  destruct (Hok (Hw (mem_random_works _))) as [-> _]. by exists s, r'.
Defined.
