(* ===== verification/FileReaderWriterExample.v ===== *)
(** * FileReaderWriterExample ([examples/file_reader_writer_example.cc])

    The example of the readers and the writer of files: ten thousand integers, written through
    [WritableFileWriter], some of which are read back at random, in sequence and with read-ahead. The
    files that the environment opens are those of the interfaces. *)

From Stdlib Require Import Strings.Byte Strings.String.
From stdpp Require Import list.
From S2P Require Import Prelude.
From S2P Require Import Slice.
From S2P Require Import Coding.
From S2P Require Import Status.
From S2P Require Import LogReader.
From S2P Require Import AlignedBuffer.
From S2P Require Import FileApi.
From S2P Require Import FileWriter.
From S2P Require Import FileWriterSpec.
From S2P Require Import FileReader.
From S2P Require Import FileWriterTheorems.

(** ** The program *)

(** What it prints: errors, the size of the file, integers. *)
Inductive line : Type := LError (what : Slice) (s : Status) | LFileSize (n : Z) | LNum (num : Z).

(** [if (!s.ok()) std::cout << what << s.ToString()] *)
Definition complain (what : Slice) (s : Status) : list line := if ok s then [] else [LError what s].

Local Abbreviation Writer_of F := (WritableFileWriter (F := F)).

Section program.
Context `{Host} {FW FR FS : Type} `{WritableFile FW} `{RandomAccessFile FR} `{SeqFile FS}.

(** What [new] gives for the buffer of the writer. What the environment gives for [./tmp_file]: a file to write, and, for what the process has
    left of that file, files to read. What [backing_store] has at the two kinds of reads, and [new char[1024]]. *)
Context (new_chars : Z -> Z * list byte) (new_writable : Status * option FW)
  (new_random : FW -> Status * option FR) (new_sequential : FW -> Status * option FS)
  (backing_store : list byte) (raw : list byte).

(** [memcpy(&num, result.data(), sizeof(int32_t))]: a shorter result leaves bytes in [num] that
    nobody has written. *)
Definition memcpy_num (result : Slice) : outcome Z :=
  if zlen result <? 4 then Undef else Ret (swrap 32 (host_load (ztake 4 result))).

(** A pointer that is used. *)
Definition dereference {A} (p : option A) : outcome A := match p with Some a => Ret a | None => Undef end.

(** The loop of 1-2, from [i] on, with [n] turns to go. *)
Fixpoint append_numbers (n : nat) (i : Z) (w : Writer_of FW) : outcome (list line * Writer_of FW) :=
  match n with
  | O => Ret ([], w)
  | S n' =>
      '(s, w) ← FileWriter.Append (F := FW) new_chars (host_bytes 4 i) w;
      '(l, w) ← append_numbers n' (i + 1) w;
      Ret (complain (str "Append Error: ") s ++ l, w)
  end.

(** 1-3 to 1-5. [Close] destroys the file after the calls of [Close_file]; the file is given as these
    calls leave it. *)
Definition finish_writing (w : Writer_of FW) : outcome (list line * Writer_of FW) :=
  '(s1, w) ← (Flush w : outcome (Status * Writer_of FW));
  '(s2, w) ← (Sync false w : outcome (Status * Writer_of FW));
  '(s3, w) ← (Close_file w : outcome (Status * Writer_of FW));
  Ret (complain (str "Flush Error: ") s1 ++ complain (str "Sync Error: ") s2 ++ complain (str "Close Error: ") s3, w).

(** 1. A null [writable_file] is dereferenced by the constructor. *)
Definition write_numbers : outcome (list line * FW) :=
  let '(s, f) := new_writable in
  f ← dereference f;
  w ← WritableFileWriter_new (F := FW) new_chars f (1024 * 1024) 0;
  '(l1, w) ← append_numbers (Z.to_nat 10000) 0 w;
  let file_size := filesize_ w in
  '(l2, w) ← finish_writing w;
  f ← dereference (writable_file_ (F := FW) w);
  Ret (complain (str "NewWritableFile Error: ") s ++ l1 ++ [LFileSize file_size] ++ l2, f).

(** 2. What is printed, and [result]. *)
Definition read_random (f : FW) : outcome (list line * Slice) :=
  let '(s0, r) := new_random f in
  r ← dereference r;
  let '(s, res) := RandomAccessFileReader_Read r (68 * 4) 4 (ztake 4 backing_store) in
  num ← memcpy_num (rd_data res);
  Ret (complain (str "NewRandomAccessFile Error: ") s0 ++ complain (str "[Random]Read Error: ") s ++ [LNum num], rd_data res).

(** The loop of 3-3. *)
Fixpoint number_loop (n : nat) (r : SequentialFileReader FS) (result : Slice) : outcome (list line * Slice) :=
  match n with
  | O => Ret ([], result)
  | S n' =>
      let '(s, result, r) := SequentialFileReader_Read r 4 in
      if negb (ok s) then Ret ([LError (str "[Sequential]Read Error: ") s], result)
      else num ← memcpy_num result; '(l, result) ← number_loop n' r result; Ret (LNum num :: l, result)
  end.

(** 3. *)
Definition read_sequential (f : FW) (result : Slice) : outcome (list line * Slice) :=
  let '(s0, r) := new_sequential f in
  r ← dereference r;
  let '(s, r) := SequentialFileReader_Skip (mkSequentialReader r) (68 * 4) in
  '(l, result) ← number_loop 100 r result;
  Ret (complain (str "NewSequentialFile Error: ") s0 ++ complain (str "Skip Error: ") s ++ l, result).

(** 4. A read that fails leaves [result]. *)
Definition read_ahead (f : FW) (result : Slice) : outcome (list line) :=
  let '(s0, r) := new_random f in
  r ← dereference r;
  '(s1, res, ra) ← FileReader.Read (Readahead_new raw r 1024) (668 * 4) 4 (ztake 4 backing_store);
  let result := default result res in
  num1 ← memcpy_num result;
  '(s2, res, _) ← FileReader.Read ra (688 * 4) 4 (ztake 4 backing_store);
  num2 ← memcpy_num (default result res);
  Ret (complain (str "NewRandomAccessFile Error: ") s0 ++ complain (str "[RandAhead]Read Error: ") s1 ++ [LNum num1] ++
       complain (str "[RandAhead]Read Error: ") s2 ++ [LNum num2]).

Definition file_reader_writer_main : outcome (list line) :=
  '(l1, f) ← write_numbers;
  '(l2, result) ← read_random f;
  '(l3, result) ← read_sequential f result;
  l4 ← read_ahead f result;
  Ret (l1 ++ l2 ++ l3 ++ l4).
End program.

(** ** Its run *)

Section run.
Context `{Host}.

(** The integers from [i] on, as they are in memory. *)
Definition numbers (i n : Z) : list byte := concat (map (host_bytes 4) (seqZ i n)).

Lemma numbers_cons i n : 0 < n -> numbers i n = host_bytes 4 i ++ numbers (i + 1) (n - 1).
Proof. intros Hn. unfold numbers. by rewrite seqZ_cons, <- Z.add_1_r, <- Z.sub_1_r. Qed.
Lemma numbers_app i m n : 0 <= m -> 0 <= n -> numbers i (m + n) = numbers i m ++ numbers (i + m) n.
Proof. intros Hm Hn. unfold numbers. rewrite seqZ_app by done. by rewrite map_app, concat_app. Qed.

Lemma zlen_numbers i n : 0 <= n -> zlen (numbers i n) = 4 * n.
Proof.
  intros Hn. revert i. pattern n. apply natlike_ind; [done| |done]. clear n Hn. intros n Hn IH i.
  rewrite numbers_cons, zlen_app, zlen_host_bytes by lia. replace (Z.succ n - 1) with n by lia. rewrite IH. lia.
Qed.

(** The bytes behind the first [j] integers. *)
Lemma zdrop_numbers j n : 0 <= j <= n -> zdrop (4 * j) (numbers 0 n) = numbers j (n - j).
Proof.
  intros Hj. replace n with (j + (n - j)) at 1 by lia. rewrite numbers_app by lia. rewrite <- (zlen_numbers 0 j) by lia. apply zdrop_app_zlen.
Qed.
Lemma ztake_numbers i n : 0 < n -> ztake 4 (numbers i n) = host_bytes 4 i.
Proof. intros Hn. rewrite numbers_cons by done. rewrite <- (zlen_host_bytes 4 i : _ = 4). apply ztake_app_zlen. Qed.

Lemma memcpy_number i : 0 <= i < 10000 -> memcpy_num (host_bytes 4 i) = Ret i.
Proof.
  intros Hi. unfold memcpy_num. rewrite zlen_host_bytes. simpl Z.ltb. cbv iota.
  rewrite ztake_ge, host_load_bytes by (rewrite zlen_host_bytes; done). f_equal. unfold swrap.
  change (2 ^ (8 * Z.of_nat 4)) with 4294967296. change (2 ^ (32 - 1)) with 2147483648. change (2 ^ 32) with 4294967296.
  rewrite (Z.mod_small i) by lia. rewrite Z.mod_small by lia. lia.
Qed.

Section writer.
#[local] Set Default Proof Using "All".
Context {FW} `{WorkingFile FW} (new_chars : Z -> Z * list byte) `{!Allocator new_chars}.

(** Nothing is complained of, and the integers are added. *)
Lemma append_numbers_run n i (w : Writer_of FW) : writer_ok w -> holds w (numbers 0 i) -> filesize_ w = 4 * i -> 0 <= i ->
  4 * (i + Z.of_nat n) < 2 ^ 62 -> file_fits (4 * (i + Z.of_nat n)) ->
  exists w', append_numbers new_chars n i w = Ret ([], w') /\ writer_ok w' /\ holds w' (numbers 0 (i + Z.of_nat n)) /\
    filesize_ w' = 4 * (i + Z.of_nat n).
Proof.
  revert i w. induction n as [|n IH]; intros i w Hw Hh Hs Hi Hb Hf.
  { exists w. rewrite Nat2Z.inj_0, Z.add_0_r. done. }
  change (2 ^ 62) with 4611686018427387904 in *.
  assert (Hc := zlen_numbers 0 i Hi). assert (zlen (numbers 0 i ++ host_bytes 4 i) = 4 * (i + 1)) as Hz by (rewrite zlen_app, Hc, zlen_host_bytes; lia).
  pose proof Hh as (_ & f & Hwf & _).
  destruct (FileWriter_Append_spec new_chars (host_bytes 4 i) w f Hw Hwf) as (s & w1 & E & Hw1 & _ & Hs1 & _ & _ & _ & Hh1).
  { right. rewrite Hs, zlen_host_bytes. lia. }
  destruct (Hh1 _ Hh) as [Es Hh2].
  { rewrite Hz. unfold size_fits. destruct (use_os_buffer_ w); [eapply file_fits_le; [exact Hf|lia]|lia]. }
  rewrite Es, Hs, zlen_host_bytes, u64_small in Hs1 by lia.
  destruct (IH (i + 1) w1) as (w' & E' & Hw' & Hh' & Hs'); [done| |lia|lia|lia|by replace (i + 1 + Z.of_nat n) with (i + Z.of_nat (S n)) by lia|].
  { rewrite numbers_app by lia. rewrite Z.add_0_l. rewrite (numbers_cons i 1) by lia. by rewrite app_nil_r. }
  exists w'. simpl append_numbers. rewrite E. bret. rewrite E'. bret. unfold complain. rewrite Es.
  replace (i + Z.of_nat (S n)) with (i + 1 + Z.of_nat n) by lia. done.
Qed.

(** The first part leaves the ten thousand integers in the file. *)
Lemma write_numbers_run (s : Status) (f : FW) k : ok s = true -> works f -> bytes_of f = [] -> file_fits 40000 ->
  GetRequiredBufferAlignment f = 2 ^ k -> 0 <= k < 32 ->
  exists f', write_numbers new_chars (s, Some f) = Ret ([LFileSize 40000], f') /\ bytes_of f' = numbers 0 10000.
Proof.
  intros Hs Hf Hb Hfit Ha Hk. unfold write_numbers. simpl dereference. bret.
  destruct (WritableFileWriter_new_spec new_chars f k (1024 * 1024) 0 Ha Hk) as (w & -> & Hw & _ & Hz & _ & _ & Hh); [reflexivity|]. bret.
  specialize (Hh Hf Hb).
  destruct (append_numbers_run (Z.to_nat 10000) 0 w Hw Hh Hz) as (w1 & -> & Hw1 & Hh1 & Hz1); [lia|reflexivity|exact Hfit|]. bret.
  change (0 + Z.of_nat (Z.to_nat 10000)) with 10000 in *. pose proof Hh1 as (_ & f1 & Hf1 & _).
  destruct (Flush_spec new_chars w1 f1 Hw1 Hf1) as (s1 & w2 & E2 & [Hw2 Hk2 _ _ _ Hh2]). destruct (Hh2 _ Hh1) as (Es1 & Hh2' & _).
  pose proof Hh2' as (_ & f2 & Hf2 & _). destruct (Sync_spec new_chars false w2 f2 Hw2 Hf2) as (s2 & w3 & E3 & Hw3 & _ & Hz3 & Hh3).
  destruct (Hh3 _ Hh2') as (Es2 & Hh3' & _). pose proof Hh3' as (_ & f3 & Hf3 & _).
  destruct (Close_file_spec new_chars w3 f3 Hw3 Hf3) as (s3 & w4 & f4 & E4 & _ & Hf4 & Hd).
  destruct (Hd _ Hh3') as (Es3 & Hb4 & _). { by rewrite Hz3, (k_size _ _ Hk2), Hz1, zlen_numbers. }
  exists f4. split; [|exact Hb4]. unfold finish_writing. rewrite E2. bret. rewrite E3. bret. rewrite E4. bret. bret. rewrite Hf4. simpl dereference. bret.
  unfold complain. by rewrite Hs, Es1, Es2, Es3, Hz1.
Qed.
End writer.

Lemma number_loop_run {FS} `{ReliableFile FS} k i n (r : FS) result : remaining r = numbers i n -> 0 <= i -> Z.of_nat k <= n -> i + n <= 10000 ->
  exists result', number_loop k (mkSequentialReader r) result = Ret (LNum <$> seqZ i (Z.of_nat k), result').
Proof.
  revert i n r result. induction k as [|k IH]; intros i n r result Hr Hi Hk Hn; [by exists result|].
  destruct (read_reliable r 4 ltac:(lia)) as (Ho & Hd & Hr'). simpl number_loop. unfold SequentialFileReader_Read. simpl sr_file.
  destruct (seq_read r 4) as [[s d] r']. simpl in Ho, Hd, Hr'. rewrite Hr, ztake_numbers in Hd by lia. rewrite Ho, Hd. cbn [negb].
  rewrite memcpy_number by lia. bret.
  destruct (IH (i + 1) (n - 1) r' (host_bytes 4 i)) as (result' & E); [|lia|lia|lia|].
  { rewrite Hr', Hr, numbers_cons by lia. rewrite <- (zlen_host_bytes 4 i : _ = 4). apply zdrop_app_zlen. }
  rewrite E. bret. exists result'. rewrite (seqZ_cons i) by lia.
  replace (Z.pred (Z.of_nat (S k))) with (Z.of_nat k) by lia. by rewrite <- Z.add_1_r.
Qed.
Lemma number_in_file j : 0 <= j < 10000 -> ztake 4 (zdrop (j * 4) (numbers 0 10000)) = host_bytes 4 j.
Proof. intros Hj. rewrite Z.mul_comm, zdrop_numbers by lia. apply ztake_numbers. lia. Qed.

(** A read of an integer through the buffer. *)
Lemma Read_number {FR} `{HonestRandomFile FR} (r : Readahead (F := FR)) j scratch : readahead_ok r -> reads_work (ra_file r) -> ra_bytes (ra_file r) = numbers 0 10000 ->
  0 <= j < 10000 -> zlen scratch = 4 ->
  exists s r', FileReader.Read r (j * 4) 4 scratch = Ret (s, Some (host_bytes 4 j), r') /\ ok s = true /\ readahead_ok r' /\ ra_file r' = ra_file r.
Proof.
  intros Hr Hw Hb Hj Hz. destruct (readahead_Read r (j * 4) 4 scratch Hr) as (s & res & r' & E & Ef & Hok & Hs & _);
    [change (2 ^ 62) with 4611686018427387904; lia|lia|done|].
  specialize (Hs Hw). destruct (Hok Hs) as [-> Hr']. exists s, r'. by rewrite E, Hb, number_in_file.
Qed.

(** Over an environment that opens the files, the program ends, complains of nothing, and prints the size of
    the file and the integers that it expects, whatever the buffers have at first and however much the
    files transfer at once. *)
Lemma file_reader_writer_example {FW FR FS} `{WorkingFile FW} `{HonestRandomFile FR} `{ReliableFile FS} new_chars `{!Allocator new_chars}
    backing_store raw (s0 sr ss : Status) (f : FW) (random : FW -> FR) (sequential : FW -> FS) k :
  ok s0 = true -> works f -> bytes_of f = [] -> file_fits 40000 -> GetRequiredBufferAlignment f = 2 ^ k -> 0 <= k < 32 ->
  ok sr = true -> (forall g, ra_bytes (random g) = bytes_of g /\ ShouldForwardRawRequest (random g) = false /\ reads_work (random g)) ->
  ok ss = true -> (forall g, remaining (sequential g) = bytes_of g) ->
  zlen backing_store = 1024 -> zlen raw = 1024 ->
  file_reader_writer_main new_chars (s0, Some f) (fun g => (sr, Some (random g))) (fun g => (ss, Some (sequential g))) backing_store raw =
    Ret (LFileSize 40000 :: LNum 68 :: (LNum <$> seqZ 68 100) ++ [LNum 668; LNum 688]).
Proof.
  intros Hs0 Hf Hb Hfit Ha Hk Hsr Hr Hss Hseq Hbs Hraw. unfold file_reader_writer_main.
  destruct (write_numbers_run new_chars s0 f k Hs0 Hf Hb Hfit Ha Hk) as (g & -> & Hg). bret. destruct (Hr g) as (Hrg & Hfw & Hwork). rewrite Hg in Hrg.
  specialize (Hseq g). rewrite Hg in Hseq. assert (zlen (ztake 4 backing_store) = 4) as Hz4 by (rewrite zlen_ztake; lia).
  assert (read_random (fun g => (sr, Some (random g))) backing_store g = Ret ([LNum 68], host_bytes 4 68)) as ->.
  { unfold read_random, RandomAccessFileReader_Read. simpl dereference. bret. pose proof (ra_honest (random g) (68 * 4) 4 _ ltac:(lia) ltac:(lia) Hz4) as HR.
    specialize (Hwork (68 * 4) 4 _ ltac:(lia) ltac:(lia) Hz4).
    destruct (file_Read _ _ _ _) as [s res]. simpl in Hwork. destruct HR as (_ & HR). destruct (HR Hwork) as [Ed _]. rename Hwork into Es. rewrite Hrg, number_in_file in Ed by lia.
    rewrite Ed, memcpy_number by lia. bret. unfold complain. by rewrite Hsr, Es. }
  bret.
  assert (exists r, read_sequential (fun g => (ss, Some (sequential g))) g (host_bytes 4 68) = Ret (LNum <$> seqZ 68 100, r)) as (r & ->).
  { unfold read_sequential, SequentialFileReader_Skip. simpl dereference. bret. simpl sr_file. destruct (skip_reliable (sequential g) (68 * 4)) as [Es Hr2]; [rewrite Hseq, zlen_numbers by lia; lia|].
    destruct (seq_skip _ _) as [s r]. simpl in Es, Hr2. rewrite Hseq in Hr2. change (68 * 4) with (4 * 68) in Hr2. rewrite zdrop_numbers in Hr2 by lia.
    destruct (number_loop_run 100 68 _ r (host_bytes 4 68) Hr2) as (result & ->); [lia|lia|lia|]. bret. exists result. unfold complain. by rewrite Hss, Es. }
  bret.
  assert (read_ahead (fun g => (sr, Some (random g))) backing_store raw g r = Ret [LNum 668; LNum 688]) as ->; [|by bret].
  assert (readahead_ok (Readahead_new raw (random g) 1024)) as Hro by (apply Readahead_new_ok; [done..|by rewrite Hrg, zlen_numbers]).
  assert (ra_file (Readahead_new raw (random g) 1024) = random g) as Erf by (unfold Readahead_new; by rewrite Hfw).
  unfold read_ahead. simpl dereference. bret.
  destruct (Read_number _ 668 (ztake 4 backing_store) Hro) as (s1 & ra & -> & Es1 & Hra & Era); [rewrite Erf; apply (Hr g)|by rewrite Erf|lia|done|].
  bret. simpl default. rewrite memcpy_number by lia. bret.
  destruct (Read_number ra 688 (ztake 4 backing_store) Hra) as (s2 & ra2 & -> & Es2 & _ & _); [rewrite Era, Erf; apply (Hr g)|by rewrite Era, Erf|lia|done|].
  bret. simpl default. rewrite memcpy_number by lia. bret. unfold complain. by rewrite Hsr, Es1, Es2.
Qed.
End run.

(** With files in memory. *)
Example file_reader_writer_in_memory : exists out,
  @file_reader_writer_main le_host MemFile mem_random mem_file MemFile_ops mem_random_ops mem_file_ops zero_chars
    (OK, Some (mkMem [] true)) (fun g => (OK, Some (mem_bytes g))) (fun g => (OK, Some (mem_bytes g))) (zrep 1024 x00) (zrep 1024 x00) = Ret out /\
  length out = 104%nat.
Proof.
  eexists. split; [eapply (@file_reader_writer_example le_host MemFile mem_random mem_file MemFile_ops MemFile_working mem_random_ops mem_random_honest
    mem_file_ops mem_file_reliable zero_chars zero_chars_allocator (zrep 1024 x00) (zrep 1024 x00) OK OK OK (mkMem [] true) mem_bytes mem_bytes 2); done|done].
Qed.
