(* ===== verification/Random.v ===== *)
(** * Random ([rutil/random.h])

    The linear congruential generator: [Next] multiplies modulo [2^31 - 1] without a
    division, and visits every number below the modulus before it repeats one. *)

From Stdlib Require Import Znumtheory.
From stdpp Require Import list.
From S2P Require Import Prelude.

(** ** The code: the state is [seed_] *)

Definition M : Z := 2147483647.
Definition A : Z := 16807.
Definition kMaxNext : Z := M.

Definition GoodSeed (s : Z) : Z := if negb (Z.land s M =? 0) then Z.land s M else 1.
Definition Random_new (s : Z) : Z := GoodSeed s.
Definition Reset (s : Z) : Z := GoodSeed s.

Definition Next (seed : Z) : Z :=
  let product := u64 (seed * A) in
  let seed := u32 (Z.shiftr product 31 + Z.land product M) in
  if M <? seed then u32 (seed - M) else seed.

(** These return the value and the new state. *)
Definition Uniform (n seed : Z) : Z * Z := let s := Next seed in (s mod u32 n, s).
Definition OneIn (n seed : Z) : bool * Z := let s := Next seed in (s mod u32 n =? 0, s).
(** [1 << x] for a shift within the width of [int]. *)
Definition Skewed (max_log seed : Z) : Z * Z :=
  let '(base, s) := Uniform (max_log + 1) seed in Uniform (Z.shiftl 1 base) s.

(** ** Reduction modulo [M] *)

Lemma land_M z : Z.land z M = z mod 2 ^ 31.
Proof. apply (Z.land_ones z 31). lia. Qed.

Lemma GoodSeed_range s : 1 <= GoodSeed s <= M.
Proof. unfold GoodSeed. rewrite land_M. unfold M. change (2 ^ 31) with 2147483648. destruct (Z.eqb_spec (s mod 2147483648) 0); simpl; dlia. Qed.

(** [Next] is multiplication by [A] modulo [M]. *)
Lemma Next_mod seed : 1 <= seed < M -> Next seed = (seed * A) mod M /\ 1 <= Next seed < M.
Proof.
  intros Hs. unfold Next, A, M in *. rewrite u64_small by lia. rewrite land_M, Z.shiftr_div_pow2 by lia.
  change (2 ^ 31) with 2147483648. set (p := seed * 16807). assert (p mod 2147483647 <> 0) as Hp.
  { intros Hd. apply Z.mod_divide in Hd; [|lia]. subst p. rewrite Z.mul_comm in Hd.
    apply Z.gauss in Hd; [destruct Hd as [k Hk]; lia|reflexivity]. }
  rewrite u32_small by dlia. destruct (Z.ltb_spec 2147483647 (p / 2147483648 + p mod 2147483648)).
  - rewrite u32_small by dlia. dlia.
  - dlia.
Qed.

(** The seed [2^31 - 1], which [GoodSeed] lets through, is a fixed point: the generator
    then returns nothing else. *)
Theorem bad_seed_stuck n : Random_new 2147483647 = M /\ Nat.iter n Next (Random_new 2147483647) = M.
Proof.
  assert (Random_new 2147483647 = M) as E by reflexivity. split; [done|]. rewrite E.
  induction n as [|n IH]; [done|]. simpl. rewrite IH. reflexivity.
Qed.

Lemma Uniform_range n seed : 0 < n < 2 ^ 31 -> 0 <= fst (Uniform n seed) < n.
Proof. intros Hn. unfold Uniform. simpl. rewrite (u32_small n) by lia. apply Z.mod_pos_bound. lia. Qed.

(** [Skewed] returns fewer than [max_log + 1] random bits. *)
Lemma Skewed_range max_log seed : 0 <= max_log < 31 -> 0 <= fst (Skewed max_log seed) < 2 ^ max_log.
Proof.
  intros Hm. unfold Skewed. pose proof (Uniform_range (max_log + 1) seed ltac:(lia)) as Hb.
  destruct (Uniform (max_log + 1) seed) as [base s]. simpl in Hb. rewrite Z.shiftl_mul_pow2, Z.mul_1_l by lia.
  assert (2 ^ base <= 2 ^ max_log) by (apply Z.pow_le_mono_r; lia).
  assert (2 ^ max_log < 2 ^ 31) by (apply Z.pow_lt_mono_r; lia).
  pose proof (Uniform_range (2 ^ base) s ltac:(lia)). lia.
Qed.

(** ** The period

    An argument of Lucas: [a] has order [N] modulo [m] if [a^N = 1] but no [a^(N/q)] is,
    for the primes [q] of [N]. When [N = m - 1], the powers of [a] are all the residues. *)

Lemma prime_factor t : 1 < t -> exists q, prime q /\ (q | t).
Proof.
  intros Ht. revert Ht. assert (0 <= t \/ t < 0) as [Ht0|] by lia; [|lia]. revert Ht0.
  apply (Z_lt_induction (fun t => 1 < t -> exists q, prime q /\ (q | t))). clear t. intros t IH Ht.
  destruct (prime_dec t) as [Hp|Hn]; [by exists t|].
  destruct (not_prime_divide t Ht Hn) as (n & Hn1 & Hd). destruct (IH n ltac:(lia) ltac:(lia)) as (q & Hq & Hqn).
  exists q. split; [done|]. by transitivity n.
Qed.

Section order.
Context (m a N : Z) (Hm : 1 < m) (HN : 1 < N) (Hpow : a ^ N mod m = 1).
Context (Hprimes : forall q, prime q -> (q | N) -> a ^ (N / q) mod m <> 1).
#[local] Set Default Proof Using "All".

Lemma pow_one_mul e k : 0 <= e -> 0 <= k -> a ^ e mod m = 1 -> a ^ (e * k) mod m = 1.
Proof.
  intros He Hk E. rewrite Z.pow_mul_r by done. pattern k. apply natlike_ind; [|clear k Hk; intros k Hk IH|done].
  - rewrite Z.pow_0_r. by apply Z.mod_1_l.
  - rewrite Z.pow_succ_r, Zmult_mod, E, IH by done. by apply Z.mod_1_l.
Qed.

Lemma pow_one_sub e r : 0 <= e -> 0 <= r -> a ^ e mod m = 1 -> a ^ (e + r) mod m = a ^ r mod m.
Proof. intros He Hr E. by rewrite Z.pow_add_r, Zmult_mod, E, Z.mul_1_l, Zmod_mod by done. Qed.

Lemma order_exact k : 0 < k < N -> a ^ k mod m <> 1.
Proof.
  intros Hk. revert Hk. assert (0 <= k \/ k < 0) as [Hk0|] by lia; [|lia]. revert Hk0.
  apply (Z_lt_induction (fun k => 0 < k < N -> a ^ k mod m <> 1)). clear k. intros k IH Hk E.
  pose proof (Z.div_mod N k ltac:(lia)) as Hdm. pose proof (Z.mod_pos_bound N k ltac:(lia)) as Hr.
  assert (0 <= N / k) by (apply Z.div_pos; lia).
  assert (a ^ (N mod k) mod m = 1) as Er.
  { rewrite <- (pow_one_sub (k * (N / k))); [by rewrite <- Hdm|lia|lia|by apply pow_one_mul; lia]. }
  destruct (Z.eq_dec (N mod k) 0) as [H0|Hn0]; [|by apply (IH (N mod k)); lia].
  assert (1 < N / k) as Ht by nia. destruct (prime_factor (N / k) Ht) as (q & Hq & t & Htq).
  pose proof (prime_ge_2 q Hq). apply (Hprimes q Hq); [exists (k * t); lia|].
  replace (N / q) with (k * t); [apply pow_one_mul; [lia|nia|done]|].
  apply (Z.div_unique_exact N q); lia.
Qed.

Lemma pow_range n : 0 <= n <= N -> 1 <= a ^ n mod m < m.
Proof.
  intros Hn. pose proof (Z.mod_pos_bound (a ^ n) m ltac:(lia)). enough (a ^ n mod m <> 0) by lia.
  intros E. replace N with (n + (N - n)) in Hpow by lia. rewrite Z.pow_add_r, Zmult_mod, E, Z.mul_0_l, Z.mod_0_l in Hpow by lia. lia.
Qed.

Lemma pow_inj i j : 0 <= i < j -> j < N -> a ^ i mod m <> a ^ j mod m.
Proof.
  intros Hij Hj E. apply (order_exact (j - i)); [lia|].
  rewrite <- (pow_one_sub N) by lia. replace (N + (j - i)) with ((N - i) + j) by lia.
  rewrite Z.pow_add_r, Zmult_mod, <- E, <- Zmult_mod, <- Z.pow_add_r by lia. by replace (N - i + i) with N by lia.
Qed.

(** Every residue is a power. *)
Lemma powers_cover x : N = m - 1 -> 1 <= x < m -> exists n, 0 <= n < N /\ a ^ n mod m = x.
Proof.
  intros HNm Hx.
  set (f := fun n => a ^ n mod m).
  assert (NoDup (f <$> seqZ 0 N)) as Hnd.
  { apply NoDup_fmap_2_strong; [|apply NoDup_seqZ]. intros i j Hi Hj E. apply elem_of_seqZ in Hi, Hj.
    destruct (Z.lt_total i j) as [Hlt|[->|Hlt]]; [|done|]; exfalso.
    - apply (pow_inj i j); [lia|lia|done].
    - apply (pow_inj j i); [lia|lia|done]. }
  assert (incl (f <$> seqZ 0 N) (seqZ 1 N)) as Hincl.
  { intros y Hy. apply list_elem_of_In, list_elem_of_fmap in Hy as (n & -> & Hn). apply elem_of_seqZ in Hn.
    apply list_elem_of_In, elem_of_seqZ. pose proof (pow_range n ltac:(lia)). unfold f. lia. }
  assert (In x (f <$> seqZ 0 N)) as Hin.
  { eapply (List.NoDup_length_incl); [by apply NoDup_ListNoDup| |exact Hincl|].
    - by rewrite length_fmap, !length_seqZ.
    - apply list_elem_of_In, elem_of_seqZ. lia. }
  apply list_elem_of_In, list_elem_of_fmap in Hin as (n & -> & Hn). apply elem_of_seqZ in Hn. exists n. split; [lia|done].
Qed.
End order.

(** Powers of [A] modulo [M], by squaring. *)
Fixpoint powm (p : positive) : Z :=
  match p with
  | xH => A mod M
  | xO p' => let x := powm p' in (x * x) mod M
  | xI p' => let x := powm p' in ((x * x) mod M * A) mod M
  end.

Lemma powm_spec p : A ^ Z.pos p mod M = powm p.
Proof.
  induction p as [p IH|p IH|]; cbn [powm]; [| |reflexivity]; rewrite <- IH.
  - rewrite Pos2Z.inj_xI, Z.pow_add_r, Z.pow_1_r, <- Z.add_diag, Z.pow_add_r by lia.
    by rewrite <- Zmult_mod, Zmult_mod_idemp_l.
  - by rewrite Pos2Z.inj_xO, <- Z.add_diag, Z.pow_add_r, Zmult_mod by lia.
Qed.

(** A number without divisors between one and itself has no prime factor but itself. *)
Lemma only_factor p q :
  forallb (fun n => negb (p mod n =? 0)) (seqZ 2 (p - 2)) = true -> 1 < p -> prime q -> (q | p) -> q = p.
Proof.
  intros Hall Hp Hq Hd. pose proof (prime_ge_2 q Hq). pose proof (Z.divide_pos_le q p ltac:(lia) Hd).
  destruct (Z.eq_dec q p) as [|Hne]; [done|exfalso]. rewrite forallb_forall in Hall.
  specialize (Hall q). rewrite <- list_elem_of_In, elem_of_seqZ in Hall. specialize (Hall ltac:(lia)).
  apply Z.mod_divide in Hd; [|lia]. by rewrite Hd in Hall.
Qed.

Lemma period_primes q : prime q -> (q | M - 1) -> A ^ ((M - 1) / q) mod M <> 1.
Proof.
  intros Hq Hd. replace (M - 1) with (2 * (3 * (3 * (7 * (11 * (31 * (151 * 331))))))) in Hd by reflexivity.
  assert (q ∈ [2; 3; 7; 11; 31; 151; 331]) as Hin.
  { repeat (apply prime_mult in Hd; [|done]; destruct Hd as [Hd|Hd];
      [apply only_factor in Hd; [subst q|vm_compute; reflexivity|lia|done]; rewrite !elem_of_cons; tauto|]).
    apply only_factor in Hd; [subst q|vm_compute; reflexivity|lia|done]. rewrite !elem_of_cons. tauto. }
  rewrite !elem_of_cons, elem_of_nil in Hin.
  destruct Hin as [->|[->|[->|[->|[->|[->|[->|[]]]]]]]].
  all: match goal with |- A ^ ?e mod M <> 1 => let e' := eval vm_compute in e in
         change e with e'; rewrite powm_spec; vm_compute; discriminate end.
Qed.

Lemma iter_Next n seed : 1 <= seed < M ->
  Nat.iter n Next seed = (seed * A ^ Z.of_nat n) mod M /\ 1 <= Nat.iter n Next seed < M.
Proof.
  intros Hs. induction n as [|n [IH Hr]]; simpl Nat.iter.
  - rewrite Z.mul_1_r, Z.mod_small by lia. lia.
  - destruct (Next_mod _ Hr) as [-> Hr']. split; [|pose proof (Next_mod _ Hr); lia].
    rewrite IH, Zmult_mod_idemp_l, Nat2Z.inj_succ, Z.pow_succ_r by lia. f_equal. ring.
Qed.

(** C19: From every good seed, [Next] reaches every number from [1] to [M - 1] within [M - 1]
    calls. *)
Theorem full_period seed x :
  1 <= seed < M -> 1 <= x < M -> exists n, Z.of_nat n < M - 1 /\ Nat.iter n Next seed = x.
Proof.
  intros Hs Hx. assert (A ^ (M - 1) mod M = 1) as Hpow by (change (M - 1) with 2147483646; rewrite powm_spec; vm_compute; reflexivity).
  assert (forall y, 1 <= y < M -> exists n, 0 <= n < M - 1 /\ A ^ n mod M = y) as Hcov.
  { intros y Hy. apply (powers_cover M A (M - 1)); [done|done|exact Hpow|apply period_primes|done|done]. }
  destruct (Hcov seed Hs) as (i & Hi & Ei), (Hcov x Hx) as (j & Hj & Ej).
  set (n := if i <=? j then j - i else j - i + (M - 1)).
  assert (0 <= n < M - 1) as Hn by (unfold n; destruct (Z.leb_spec i j); lia).
  exists (Z.to_nat n). rewrite Z2Nat.id by lia. split; [lia|].
  destruct (iter_Next (Z.to_nat n) seed Hs) as [-> _]. rewrite Z2Nat.id, <- Ei, Zmult_mod_idemp_l, <- Z.pow_add_r by lia.
  unfold n. destruct (Z.leb_spec i j).
  - replace (i + (j - i)) with j by lia. done.
  - replace (i + (j - i + (M - 1))) with (M - 1 + j) by lia. rewrite (pow_one_sub M A (M - 1) ltac:(done) ltac:(done) Hpow period_primes (M - 1) j); [exact Ej|lia|lia|exact Hpow].
Qed.

Lemma full_period_witness : exists n, Z.of_nat n < M - 1 /\ Nat.iter n Next (Random_new 301) = 42.
Proof. apply full_period; vm_compute; done. Defined.
