(* ===== verification/LruCache.v ===== *)
(** * LruCache ([rutil/lru_cache.h], [rutil/lru_cache.cc])

    The state and the code of [LRUHandleTable] and [LRUCacheShard]. The handles are
    objects on a heap that is modelled field by field: each member of [LRUHandle]
    that the code updates is a finite map from addresses to values, so that reading a
    member of a deleted handle, or one that was never initialised, is undefined. The
    operations are state transformers in the monad [M]; the mutex is not modelled, the
    operations run one after the other as it makes them do. *)

From Stdlib Require Import Strings.Byte Strings.String Floats.SpecFloat.
From stdpp Require Import gmap.
From S2P Require Import Prelude.
From S2P Require Import Slice.
From S2P Require Import Coding.
From S2P Require Import Status.

(** ** Doubles

    [double] is IEEE binary64: precision 53, exponents below 1024. *)
Definition double : Type := spec_float.
Definition double_of_size_t (z : Z) : double := binary_normalize 53 1024 z 0 false.
Definition double_mul (a b : double) : double := SFmul 53 1024 a b.
(** [a > b] *)
Definition double_gt (a b : double) : bool := SFltb b a.

(** ** The state *)

Definition loc : Type := Z.
Definition ptr : Type := option loc.

Inductive Priority : Set := HIGH | LOW.

(** The members of [LRUHandle] that do not change; [deleter] is a function pointer,
    known by its address, and [key_data] with [key_length] are the bytes of the key. *)
Record HandleData : Set := mkHandle {
  value : Z;
  deleter : option Z;
  charge : Z;
  key_data : list byte;
  hash : Z;
}.

(** A call of a deleter with the key and the value. *)
Record Deletion : Set := mkDeletion { del_fn : Z; del_key : list byte; del_value : Z }.

Record Shard : Type := mkShard {
  (* the heap *)
  hdata : gmap loc HandleData;
  hrefs : gmap loc Z;
  hflags : gmap loc Z;
  hnext : gmap loc ptr;
  hprev : gmap loc ptr;
  hnext_hash : gmap loc ptr;
  deletions : list Deletion;
  (* LRUHandleTable table_ *)
  length_ : Z;
  elems_ : Z;
  list_ : list ptr;
  (* LRUCacheShard *)
  capacity_ : Z;
  usage_ : Z;
  lru_usage_ : Z;
  high_pri_pool_usage_ : Z;
  strict_capacity_limit_ : bool;
  high_pri_pool_ratio_ : double;
  high_pri_pool_capacity_ : double;
  lru_low_pri_ : loc;
}.

(** The address of the dummy head [lru_] of the list. *)
Definition lru_ : loc := 0.

Definition upd_heap (s : Shard) d r f n p nh del : Shard :=
  mkShard d r f n p nh del (length_ s) (elems_ s) (list_ s) (capacity_ s) (usage_ s)
    (lru_usage_ s) (high_pri_pool_usage_ s) (strict_capacity_limit_ s) (high_pri_pool_ratio_ s)
    (high_pri_pool_capacity_ s) (lru_low_pri_ s).
Definition upd_table (s : Shard) len el ls : Shard :=
  mkShard (hdata s) (hrefs s) (hflags s) (hnext s) (hprev s) (hnext_hash s) (deletions s)
    len el ls (capacity_ s) (usage_ s) (lru_usage_ s) (high_pri_pool_usage_ s)
    (strict_capacity_limit_ s) (high_pri_pool_ratio_ s) (high_pri_pool_capacity_ s) (lru_low_pri_ s).
Definition upd_ctl (s : Shard) cap us lus hus st ra hc lo : Shard :=
  mkShard (hdata s) (hrefs s) (hflags s) (hnext s) (hprev s) (hnext_hash s) (deletions s)
    (length_ s) (elems_ s) (list_ s) cap us lus hus st ra hc lo.

Definition set_refs s x := upd_heap s (hdata s) x (hflags s) (hnext s) (hprev s) (hnext_hash s) (deletions s).
Definition set_flags s x := upd_heap s (hdata s) (hrefs s) x (hnext s) (hprev s) (hnext_hash s) (deletions s).
Definition set_next s x := upd_heap s (hdata s) (hrefs s) (hflags s) x (hprev s) (hnext_hash s) (deletions s).
Definition set_prev s x := upd_heap s (hdata s) (hrefs s) (hflags s) (hnext s) x (hnext_hash s) (deletions s).
Definition set_next_hash s x := upd_heap s (hdata s) (hrefs s) (hflags s) (hnext s) (hprev s) x (deletions s).
Definition set_elems s x := upd_table s (length_ s) x (list_ s).
Definition set_list s x := upd_table s (length_ s) (elems_ s) x.
Definition set_usage s x := upd_ctl s (capacity_ s) x (lru_usage_ s) (high_pri_pool_usage_ s)
  (strict_capacity_limit_ s) (high_pri_pool_ratio_ s) (high_pri_pool_capacity_ s) (lru_low_pri_ s).
Definition set_lru_usage s x := upd_ctl s (capacity_ s) (usage_ s) x (high_pri_pool_usage_ s)
  (strict_capacity_limit_ s) (high_pri_pool_ratio_ s) (high_pri_pool_capacity_ s) (lru_low_pri_ s).
Definition set_pool_usage s x := upd_ctl s (capacity_ s) (usage_ s) (lru_usage_ s) x
  (strict_capacity_limit_ s) (high_pri_pool_ratio_ s) (high_pri_pool_capacity_ s) (lru_low_pri_ s).
Definition set_low_pri s x := upd_ctl s (capacity_ s) (usage_ s) (lru_usage_ s) (high_pri_pool_usage_ s)
  (strict_capacity_limit_ s) (high_pri_pool_ratio_ s) (high_pri_pool_capacity_ s) x.

(** ** The monad *)

Definition M (A : Type) : Type := Shard -> outcome (A * Shard).
#[export] Instance M_ret : MRet M := fun A a s => Ret (a, s).
#[export] Instance M_bind : MBind M := fun A B f m s =>
  match m s with
  | Ret (a, s') => f a s'
  | AssertFail => AssertFail
  | Undef => Undef
  | NoFuel => NoFuel
  end.

Definition get : M Shard := fun s => Ret (s, s).
Definition modify (f : Shard -> Shard) : M unit := fun s => Ret (tt, f s).
Definition massert (b : bool) : M unit := fun s => if b then Ret (tt, s) else AssertFail.
Definition undefined {A} : M A := fun _ => Undef.
Definition nofuel {A} : M A := fun _ => NoFuel.

(** Reading and writing a member through a pointer. *)
Definition load {A} (field : Shard -> gmap loc A) (p : loc) : M A := fun s =>
  match field s !! p with Some v => Ret (v, s) | None => Undef end.
Definition store {A} (field : Shard -> gmap loc A) (set : Shard -> gmap loc A -> Shard)
    (p : loc) (v : A) : M unit := fun s =>
  match field s !! p with Some _ => Ret (tt, set s (<[p := v]> (field s))) | None => Undef end.

(** Dereferencing a pointer that may be null. *)
Definition deref (p : ptr) : M loc :=
  match p with Some l => mret l | None => undefined end.

(** ** [LRUHandle] *)

Definition has_flag (flags m : Z) : bool := negb (Z.land flags m =? 0).
Definition put_flag (flags m : Z) (b : bool) : Z :=
  if b then Z.lor flags m else Z.land flags (Z.lnot m).

Arguments has_flag : simpl never.
Arguments put_flag : simpl never.

Definition InCache (e : loc) : M bool := f ← load hflags e; mret (has_flag f 1).
Definition IsHighPri (e : loc) : M bool := f ← load hflags e; mret (has_flag f 2).
Definition InHighPriPool (e : loc) : M bool := f ← load hflags e; mret (has_flag f 4).
Definition SetInCache (e : loc) (b : bool) : M unit :=
  f ← load hflags e; store hflags set_flags e (put_flag f 1 b).
Definition SetPriority (e : loc) (p : Priority) : M unit :=
  f ← load hflags e; store hflags set_flags e (put_flag f 2 (match p with HIGH => true | LOW => false end)).
Definition SetInHighPriPool (e : loc) (b : bool) : M unit :=
  f ← load hflags e; store hflags set_flags e (put_flag f 4 b).

(** [key()]. A temporary handle, recognised by [next == this], has no key of its own;
    the cache never makes one. *)
Definition key (e : loc) : M Slice :=
  d ← load hdata e;
  n ← load hnext e;
  if bool_decide (n = Some e) then undefined else mret (key_data d).

(** [Free()]: after the deleter has run, the memory is gone. *)
Definition Free (e : loc) : M unit :=
  r ← load hrefs e;
  c ← InCache e;
  _ ← massert (((r =? 1) && c) || ((r =? 0) && negb c));
  d ← load hdata e;
  k ← key e;
  modify (fun s =>
    upd_heap s (delete e (hdata s)) (delete e (hrefs s)) (delete e (hflags s))
      (delete e (hnext s)) (delete e (hprev s)) (delete e (hnext_hash s))
      (match deleter d with
       | Some f => deletions s ++ [mkDeletion f k (value d)]
       | None => deletions s
       end)).

(** The loop [for (auto entry : last_reference_list) entry->Free()]. *)
Fixpoint FreeAll (l : list loc) : M unit :=
  match l with
  | [] => mret tt
  | e :: l' => _ ← Free e; FreeAll l'
  end.

(** ** [LRUHandleTable] *)

(** What a [LRUHandle**] can point to: a bucket of [list_] or a [next_hash] member. *)
Inductive slot : Type := Bucket (i : Z) | NextHash (p : loc).

Definition load_slot (sl : slot) : M ptr :=
  match sl with
  | Bucket i => s ← get; match list_ s !! Z.to_nat i with Some p => mret p | None => undefined end
  | NextHash p => load hnext_hash p
  end.
Definition store_slot (sl : slot) (v : ptr) : M unit :=
  match sl with
  | Bucket i => s ← get;
      if i <? zlen (list_ s) then modify (fun s => set_list s (<[Z.to_nat i := v]> (list_ s)))
      else undefined
  | NextHash p => fun s => Ret (tt, set_next_hash s (<[p := v]> (hnext_hash s)))
  end.

(** The loop of [FindPointer]; a bucket's chain has at most [elems_] entries. *)
Fixpoint FindPointer_loop (fuel : nat) (sl : slot) (k : Slice) (h : Z) : M slot :=
  match fuel with
  | O => nofuel
  | S fuel' =>
      p ← load_slot sl;
      match p with
      | None => mret sl
      | Some e =>
          d ← load hdata e;
          differs ← (if negb (hash d =? h) then mret true
                     else k' ← key e; mret (slice_ne k k'));
          if differs : bool then FindPointer_loop fuel' (NextHash e) k h else mret sl
      end
  end.

Definition FindPointer (k : Slice) (h : Z) : M slot :=
  s ← get;
  FindPointer_loop (S (S (Z.to_nat (elems_ s)))) (Bucket (Z.land h (length_ s - 1))) k h.

Definition table_Lookup (k : Slice) (h : Z) : M ptr :=
  sl ← FindPointer k h; load_slot sl.

(** [while (new_length < elems_ * 1.5)]: the product is exact in a [double], so that the
    comparison is the one of the integers. Doubling is in [uint32_t]. *)
Fixpoint new_length_loop (fuel : nat) (new_length elems : Z) : M Z :=
  match fuel with
  | O => nofuel
  | S fuel' =>
      if 2 * new_length <? 3 * elems then new_length_loop fuel' (u32 (new_length * 2)) elems
      else mret new_length
  end.

(** Moving the chain [h] to [new_list]; the count of moved entries. *)
Fixpoint rehash_chain (fuel : nat) (h : ptr) (new_length : Z) (new_list : list ptr) (count : Z)
  : M (list ptr * Z) :=
  match h with
  | None => mret (new_list, count)
  | Some e =>
      match fuel with
      | O => nofuel
      | S fuel' =>
          next ← load hnext_hash e;
          d ← load hdata e;
          let i := Z.land (hash d) (new_length - 1) in
          match new_list !! Z.to_nat i with
          | None => undefined
          | Some p =>
              _ ← store hnext_hash set_next_hash e p;
              rehash_chain fuel' next new_length (<[Z.to_nat i := Some e]> new_list) (u32 (count + 1))
          end
      end
  end.

(** [for (uint32_t i = 0; i < length_; i++)] over the buckets that are left. *)
Fixpoint rehash (fuel : nat) (buckets : list ptr) (new_length : Z) (new_list : list ptr) (count : Z)
  : M (list ptr * Z) :=
  match buckets with
  | [] => mret (new_list, count)
  | h :: buckets' =>
      '(new_list, count) ← rehash_chain fuel h new_length new_list count;
      rehash fuel buckets' new_length new_list count
  end.

Definition Resize : M unit :=
  s ← get;
  new_length ← new_length_loop 32 16 (elems_ s);
  '(new_list, count) ←
    rehash (S (Z.to_nat (elems_ s))) (list_ s) new_length (zrep new_length None) 0;
  _ ← massert (elems_ s =? count);
  modify (fun s => upd_table s new_length (elems_ s) new_list).

Definition table_Insert (h : loc) : M ptr :=
  d ← load hdata h;
  k ← key h;
  sl ← FindPointer k (hash d);
  old ← load_slot sl;
  nh ← match old with None => mret None | Some o => load hnext_hash o end;
  _ ← store_slot (NextHash h) nh;
  _ ← store_slot sl (Some h);
  match old with
  | None =>
      _ ← modify (fun s => set_elems s (u32 (elems_ s + 1)));
      s ← get;
      _ ← (if length_ s <? elems_ s then Resize else mret tt);
      mret old
  | Some _ => mret old
  end.

Definition table_Remove (k : Slice) (h : Z) : M ptr :=
  sl ← FindPointer k h;
  result ← load_slot sl;
  match result with
  | Some e =>
      nh ← load hnext_hash e;
      _ ← store_slot sl nh;
      _ ← modify (fun s => set_elems s (u32 (elems_ s - 1)));
      mret result
  | None => mret result
  end.

(** ** [LRUCacheShard] *)

Definition Unref (e : loc) : M bool :=
  r ← load hrefs e;
  _ ← massert (0 <? r);
  _ ← store hrefs set_refs e (r - 1);
  mret (r - 1 =? 0).

Definition LRU_Remove (e : loc) : M unit :=
  n ← load hnext e;
  p ← load hprev e;
  _ ← massert (bool_decide (n <> None));
  _ ← massert (bool_decide (p <> None));
  n ← deref n;
  p ← deref p;
  s ← get;
  _ ← (if bool_decide (lru_low_pri_ s = e) then modify (fun s => set_low_pri s p) else mret tt);
  _ ← store hprev set_prev n (Some p);
  _ ← store hnext set_next p (Some n);
  _ ← store hnext set_next e None;
  _ ← store hprev set_prev e None;
  d ← load hdata e;
  _ ← modify (fun s => set_lru_usage s (u64 (lru_usage_ s - charge d)));
  pool ← InHighPriPool e;
  if pool : bool then
    s ← get;
    _ ← massert (charge d <=? high_pri_pool_usage_ s);
    modify (fun s => set_pool_usage s (u64 (high_pri_pool_usage_ s - charge d)))
  else mret tt.

(** Each turn moves [lru_low_pri_] over one entry of the list. *)
Fixpoint MaintainPoolSize_loop (fuel : nat) : M unit :=
  s ← get;
  if double_gt (double_of_size_t (high_pri_pool_usage_ s)) (high_pri_pool_capacity_ s) then
    match fuel with
    | O => nofuel
    | S fuel' =>
        n ← load hnext (lru_low_pri_ s);
        n ← deref n;
        _ ← modify (fun s => set_low_pri s n);
        _ ← massert (negb (n =? lru_));
        _ ← SetInHighPriPool n false;
        d ← load hdata n;
        _ ← modify (fun s => set_pool_usage s (u64 (high_pri_pool_usage_ s - charge d)));
        MaintainPoolSize_loop fuel'
    end
  else mret tt.

(** The list has fewer entries than there are handles. *)
Definition list_fuel (s : Shard) : nat := S (base.size (hdata s)).

Definition MaintainPoolSize : M unit :=
  s ← get; MaintainPoolSize_loop (list_fuel s).

Definition LRU_Insert (e : loc) : M unit :=
  n ← load hnext e;
  p ← load hprev e;
  _ ← massert (bool_decide (n = None));
  _ ← massert (bool_decide (p = None));
  d ← load hdata e;
  hi ← IsHighPri e;
  s ← get;
  _ ← (if double_gt (high_pri_pool_ratio_ s) (double_of_size_t 0) && hi then
         newest ← load hprev lru_;
         newest ← deref newest;
         _ ← store hnext set_next e (Some lru_);
         _ ← store hprev set_prev e (Some newest);
         _ ← store hnext set_next newest (Some e);
         _ ← store hprev set_prev lru_ (Some e);
         _ ← SetInHighPriPool e true;
         _ ← modify (fun s => set_pool_usage s (u64 (high_pri_pool_usage_ s + charge d)));
         MaintainPoolSize
       else
         let low := lru_low_pri_ s in
         after ← load hnext low;
         after ← deref after;
         _ ← store hnext set_next e (Some after);
         _ ← store hprev set_prev e (Some low);
         _ ← store hnext set_next low (Some e);
         _ ← store hprev set_prev after (Some e);
         _ ← SetInHighPriPool e false;
         modify (fun s => set_low_pri s e));
  modify (fun s => set_lru_usage s (u64 (lru_usage_ s + charge d))).

(** The body that [EvictFromLRU] and [EraseUnRefEntries] share, for the oldest entry. *)
Definition evict_one (old : loc) : M unit :=
  c ← InCache old;
  _ ← massert c;
  r ← load hrefs old;
  _ ← massert (r =? 1);
  _ ← LRU_Remove old;
  k ← key old;
  d ← load hdata old;
  _ ← table_Remove k (hash d);
  _ ← SetInCache old false;
  _ ← Unref old;
  modify (fun s => set_usage s (u64 (usage_ s - charge d))).

(** [while (cond && lru_.next != &lru_)]; the evicted entries, oldest first. *)
Fixpoint evict_loop (fuel : nat) (cond : Shard -> bool) : M (list loc) :=
  s ← get;
  oldest ← load hnext lru_;
  oldest ← deref oldest;
  if cond s && negb (oldest =? lru_) then
    match fuel with
    | O => nofuel
    | S fuel' =>
        _ ← evict_one oldest;
        l ← evict_loop fuel' cond;
        mret (oldest :: l)
    end
  else mret [].

Definition EvictFromLRU (charge : Z) : M (list loc) :=
  s ← get;
  evict_loop (list_fuel s) (fun s => capacity_ s <? u64 (usage_ s + charge)).

Definition EraseUnRefEntries : M unit :=
  s ← get;
  last_reference_list ← evict_loop (list_fuel s) (fun _ => true);
  FreeAll last_reference_list.

Definition SetCapacity (capacity : Z) : M unit :=
  _ ← modify (fun s => upd_ctl s capacity (usage_ s) (lru_usage_ s) (high_pri_pool_usage_ s)
        (strict_capacity_limit_ s) (high_pri_pool_ratio_ s)
        (double_mul (double_of_size_t capacity) (high_pri_pool_ratio_ s)) (lru_low_pri_ s));
  last_reference_list ← EvictFromLRU 0;
  FreeAll last_reference_list.

Definition SetStrictCapacityLimit (strict : bool) : M unit :=
  modify (fun s => upd_ctl s (capacity_ s) (usage_ s) (lru_usage_ s) (high_pri_pool_usage_ s)
    strict (high_pri_pool_ratio_ s) (high_pri_pool_capacity_ s) (lru_low_pri_ s)).

Definition SetHighPriorityPoolRatio (ratio : double) : M unit :=
  _ ← modify (fun s => upd_ctl s (capacity_ s) (usage_ s) (lru_usage_ s) (high_pri_pool_usage_ s)
        (strict_capacity_limit_ s) ratio
        (double_mul (double_of_size_t (capacity_ s)) ratio) (lru_low_pri_ s));
  MaintainPoolSize.

Definition Lookup (k : Slice) (h : Z) : M ptr :=
  p ← table_Lookup k h;
  match p with
  | Some e =>
      c ← InCache e;
      _ ← massert c;
      r ← load hrefs e;
      _ ← (if r =? 1 then LRU_Remove e else mret tt);
      r ← load hrefs e;
      _ ← store hrefs set_refs e (u32 (r + 1));
      mret (Some e)
  | None => mret None
  end.

(** The critical section of [Release]: was it the last reference? *)
Definition Release_locked (e : loc) : M bool :=
  last_reference ← Unref e;
  d ← load hdata e;
  _ ← (if last_reference : bool then modify (fun s => set_usage s (u64 (usage_ s - charge d)))
       else mret tt);
  r ← load hrefs e;
  c ← InCache e;
  if (r =? 1) && c then
    s ← get;
    if capacity_ s <? usage_ s then
      oldest ← load hnext lru_;
      _ ← massert (bool_decide (oldest = Some lru_));
      k ← key e;
      _ ← table_Remove k (hash d);
      _ ← SetInCache e false;
      _ ← Unref e;
      _ ← modify (fun s => set_usage s (u64 (usage_ s - charge d)));
      mret true
    else _ ← LRU_Insert e; mret last_reference
  else mret last_reference.

Definition Release (handle : ptr) : M unit :=
  match handle with
  | None => mret tt
  | Some e =>
      last_reference ← Release_locked e;
      if last_reference : bool then Free e else mret tt
  end.

(** The handle that [Insert] allocates at [e]: [new char[]] does not initialise it, so that
    [flags] starts with an arbitrary byte and [next_hash] is unset. *)
Definition new_handle (e : loc) (d : HandleData) (refs flags0 : Z) (priority : Priority) : M unit :=
  _ ← modify (fun s => upd_heap s (<[e := d]> (hdata s)) (<[e := refs]> (hrefs s))
        (<[e := flags0]> (hflags s)) (<[e := None]> (hnext s)) (<[e := None]> (hprev s))
        (delete e (hnext_hash s)) (deletions s));
  _ ← SetInCache e true;
  SetPriority e priority.

(** [delete[] e] without calling the deleter. *)
Definition delete_handle (e : loc) : M unit :=
  modify (fun s => upd_heap s (delete e (hdata s)) (delete e (hrefs s)) (delete e (hflags s))
    (delete e (hnext s)) (delete e (hprev s)) (delete e (hnext_hash s)) (deletions s)).

(** [Insert]; [want] says that [handle] is not null, and the second result is what is
    stored there. *)
Definition Insert `{Host} (e : loc) (flags0 : Z) (k : Slice) (h value charge : Z) (deleter : option Z)
    (want : bool) (priority : Priority) : M (Status * option ptr) :=
  _ ← new_handle e (mkHandle value deleter charge k h) (if want then 2 else 1) flags0 priority;
  last_reference_list ← EvictFromLRU charge;
  s ← get;
  '(st, handle, last_reference_list) ←
    (if (capacity_ s <? u64 (u64 (usage_ s - lru_usage_ s) + charge)) &&
        (strict_capacity_limit_ s || negb want)
     then
       if negb want then mret (OK, None, last_reference_list ++ [e])
       else
         _ ← delete_handle e;
         mret (error kIncomplete kNone (str "Insert failed due to LRU cache being full.") [],
               Some None, last_reference_list)
     else
       old ← table_Insert e;
       _ ← modify (fun s => set_usage s (u64 (usage_ s + charge)));
       last_reference_list ←
         match old with
         | None => mret last_reference_list
         | Some o =>
             _ ← SetInCache o false;
             last ← Unref o;
             if last : bool then
               d ← load hdata o;
               _ ← modify (fun s => set_usage s (u64 (usage_ s - LruCache.charge d)));
               _ ← LRU_Remove o;
               mret (last_reference_list ++ [o])
             else mret last_reference_list
         end;
       handle ← (if negb want then _ ← LRU_Insert e; mret None else mret (Some (Some e)));
       mret (OK, handle, last_reference_list));
  _ ← FreeAll last_reference_list;
  mret (st, handle).

Definition Erase (k : Slice) (h : Z) : M unit :=
  p ← table_Remove k h;
  match p with
  | Some e =>
      last_reference ← Unref e;
      d ← load hdata e;
      _ ← (if last_reference : bool then modify (fun s => set_usage s (u64 (usage_ s - charge d)))
           else mret tt);
      c ← InCache e;
      _ ← (if last_reference && c then LRU_Remove e else mret tt);
      _ ← SetInCache e false;
      if last_reference : bool then Free e else mret tt
  | None => mret tt
  end.

Definition GetUsage : M Z := s ← get; mret (usage_ s).
Definition GetPinnedUsage : M Z :=
  s ← get;
  _ ← massert (lru_usage_ s <=? usage_ s);
  mret (u64 (usage_ s - lru_usage_ s)).

(** [ApplyToAllCacheEntries]: the arguments of the calls of the callback. *)
Fixpoint apply_chain (fuel : nat) (h : ptr) : M (list (Z * Z)) :=
  match h with
  | None => mret []
  | Some e =>
      match fuel with
      | O => nofuel
      | S fuel' =>
          n ← load hnext_hash e;
          c ← InCache e;
          _ ← massert c;
          d ← load hdata e;
          l ← apply_chain fuel' n;
          mret ((value d, charge d) :: l)
      end
  end.
Fixpoint apply_buckets (fuel : nat) (buckets : list ptr) : M (list (Z * Z)) :=
  match buckets with
  | [] => mret []
  | h :: buckets' =>
      l ← apply_chain fuel h;
      l' ← apply_buckets fuel buckets';
      mret (l ++ l')
  end.
Definition ApplyToAllCacheEntries : M (list (Z * Z)) :=
  s ← get; apply_buckets (S (Z.to_nat (elems_ s))) (list_ s).

(** The members of a shard when its constructor starts to build the table; those that it
    leaves uninitialised have arbitrary values. *)
Definition LRUCacheShard_new (cap0 : Z) (strict0 : bool) (ratio0 pool0 : double) : Shard :=
  mkShard ∅ ∅ ∅ {[ lru_ := Some lru_ ]} {[ lru_ := Some lru_ ]} ∅ [] 0 0 []
    cap0 0 0 0 strict0 ratio0 pool0 lru_.
Definition LRUHandleTable_new : M unit := Resize.

(** The destructor of the table frees the entries that nobody holds. *)
Fixpoint destroy_chain (fuel : nat) (h : ptr) : M unit :=
  match h with
  | None => mret tt
  | Some e =>
      match fuel with
      | O => nofuel
      | S fuel' =>
          n ← load hnext_hash e;
          c ← InCache e;
          _ ← massert c;
          r ← load hrefs e;
          _ ← (if r =? 1 then Free e else mret tt);
          destroy_chain fuel' n
      end
  end.
Fixpoint destroy_buckets (fuel : nat) (buckets : list ptr) : M unit :=
  match buckets with
  | [] => mret tt
  | h :: buckets' => _ ← destroy_chain fuel h; destroy_buckets fuel buckets'
  end.
Definition LRUHandleTable_delete : M unit :=
  s ← get; destroy_buckets (S (Z.to_nat (elems_ s))) (list_ s).

(** How the constructor of [LRUCache] sets up a shard. *)
Definition LRUCacheShard_setup (capacity : Z) (strict : bool) (ratio : double) : M unit :=
  _ ← LRUHandleTable_new;
  _ ← SetCapacity capacity;
  _ ← SetStrictCapacityLimit strict;
  SetHighPriorityPoolRatio ratio.
