(* ===== verification/LruTable.v ===== *)
(** * LruTable: the hash table of the cache

    [Tab s bs] relates the chains of [LRUHandleTable] to lists of handles, one per
    bucket. [table_Lookup], [table_Insert], [table_Remove] and [Resize] are proved to
    find, add, replace and remove the entry of a key among them. *)

From stdpp Require Import gmap.
From S2P Require Import Prelude.
From S2P Require Import Slice.
From S2P Require Import LruCache.

(** ** The monad *)

Lemma M_bind_ret {A B} (m : M A) (k : A -> M B) s a s' :
  m s = Ret (a, s') -> (m ≫= k) s = k a s'.
Proof. unfold mbind, M_bind. by intros ->. Qed.

(** Step over the first operation of a state transformer, by an equation for it. *)
Ltac mstep H := erewrite M_bind_ret by (exact H); cbv beta iota.

Lemma load_eq {A} (field : Shard -> gmap loc A) p v s :
  field s !! p = Some v -> load field p s = Ret (v, s).
Proof. unfold load. by intros ->. Qed.
Lemma store_eq {A} (field : Shard -> gmap loc A) set p v s :
  is_Some (field s !! p) -> store field set p v s = Ret (tt, set s (<[p := v]> (field s))).
Proof. unfold store. by intros [? ->]. Qed.
Lemma get_eq s : get s = Ret (s, s).
Proof. done. Qed.
Lemma massert_eq b s : b = true -> massert b s = Ret (tt, s).
Proof. by intros ->. Qed.

(** Membership in concatenations. *)
Ltac inlist :=
  repeat first [rewrite elem_of_app in * | rewrite elem_of_cons in * | rewrite elem_of_nil in *]; tauto.

(** ** Chains of [next_hash] pointers *)

Fixpoint chain (nh : gmap loc ptr) (p : ptr) (l : list loc) : Prop :=
  match l with
  | [] => p = None
  | x :: l' => p = Some x /\ exists n, nh !! x = Some n /\ chain nh n l'
  end.

(** The pointer to the entry behind the prefix [l1] of a chain: where it is stored, and
    the effect of storing [v] there. *)
Definition slot_after (sl : slot) (l1 : list loc) : slot :=
  match list.last l1 with None => sl | Some y => NextHash y end.
Definition splice_nh (nh : gmap loc ptr) (l1 : list loc) (v : ptr) : gmap loc ptr :=
  match list.last l1 with None => nh | Some y => <[y := v]> nh end.
Definition splice_ptr (p : ptr) (l1 : list loc) (v : ptr) : ptr :=
  match l1 with [] => v | _ => p end.

Lemma chain_head nh p l : chain nh p l -> p = list.head l.
Proof. destruct l; simpl; [done|]. by intros [-> _]. Qed.

Lemma chain_frame nh y v p l : y ∉ l -> chain nh p l -> chain (<[y := v]> nh) p l.
Proof.
  revert p; induction l as [|x l IH]; intros p Hy Hc; [done|].
  destruct Hc as (-> & n & Hn & Hc). split; [done|]. exists n.
  rewrite lookup_insert_ne by set_solver. split; [done|]. apply IH; [set_solver|done].
Qed.

Lemma chain_delete nh y p l : y ∉ l -> chain nh p l -> chain (delete y nh) p l.
Proof.
  revert p; induction l as [|x l IH]; intros p Hy Hc; [done|].
  destruct Hc as (-> & n & Hn & Hc). split; [done|]. exists n.
  rewrite lookup_delete_ne by set_solver. split; [done|]. apply IH; [set_solver|done].
Qed.

Lemma chain_app nh p l1 l2 :
  chain nh p (l1 ++ l2) ->
  exists q, chain nh q l2 /\
    match list.last l1 with None => p = q | Some y => nh !! y = Some q end.
Proof.
  revert p; induction l1 as [|x l1 IH]; intros p Hc; [by exists p|].
  destruct Hc as (-> & n & Hn & Hc). apply IH in Hc as (q & Hq & Hl).
  exists q. split; [done|]. rewrite last_cons. destruct (list.last l1); [done|by subst].
Qed.

(** Storing [v] behind [l1] makes the chain continue with [v]'s. *)
Lemma chain_splice nh p l1 l2 v l3 :
  chain nh p (l1 ++ l2) -> NoDup l1 -> (forall y, list.last l1 = Some y -> y ∉ l3) -> chain nh v l3 ->
  chain (splice_nh nh l1 v) (splice_ptr p l1 v) (l1 ++ l3).
Proof.
  revert p; induction l1 as [|x l1 IH]; intros p Hc Hnd Hy Hv; [done|].
  destruct Hc as (-> & n & Hn & Hc). apply list.NoDup_cons in Hnd as [Hx Hnd].
  destruct l1 as [|z l1].
  - unfold splice_nh. simpl. split; [done|]. exists v. rewrite lookup_insert_eq. split; [done|].
    apply chain_frame; [by apply Hy|done].
  - assert (forall y, list.last (z :: l1) = Some y -> y ∉ l3) as Hy'
      by (intros y Hl; apply Hy; by rewrite last_cons_cons).
    specialize (IH n Hc Hnd Hy' Hv). unfold splice_nh in *. rewrite last_cons_cons.
    destruct (list.last (z :: l1)) as [y|] eqn:Hls; [|by apply last_None in Hls].
    split; [done|]. exists n.
    assert (y <> x) by (intros ->; apply Hx; by apply last_Some_elem_of).
    rewrite lookup_insert_ne by done. done.
Qed.

(** ** The table relation *)

Definition matches (s : Shard) (k : list byte) (h : Z) (x : loc) : Prop :=
  exists d, hdata s !! x = Some d /\ hash d = h /\ key_data d = k.
#[export] Instance matches_dec s k h x : Decision (matches s k h x).
Proof.
  refine (match hdata s !! x as o return (hdata s !! x = o -> _) with
          | Some d => fun E => cast_if_and (decide (hash d = h)) (decide (key_data d = k))
          | None => fun E => right _
          end eq_refl); unfold matches; naive_solver.
Defined.

(** Entries that the table may hold: allocated, with a 32-bit hash, not a temporary
    handle. *)
Definition table_entry (s : Shard) (x : loc) : Prop :=
  exists d, hdata s !! x = Some d /\ 0 <= hash d < 2 ^ 32 /\
    exists n, hnext s !! x = Some n /\ n <> Some x.

Record Tab (s : Shard) (bs : list (list loc)) : Prop := {
  tab_pow : exists k, 4 <= k < 32 /\ length_ s = 2 ^ k;
  tab_length : zlen bs = length_ s;
  tab_chains : Forall2 (chain (hnext_hash s)) (list_ s) bs;
  tab_nodup : NoDup (concat bs);
  tab_elems : elems_ s = zlen (concat bs);
  tab_bound : zlen (concat bs) < 2 ^ 30;
  tab_entries : forall x, x ∈ concat bs -> table_entry s x;
  tab_bucket : forall i b x d, bs !! i = Some b -> x ∈ b -> hdata s !! x = Some d ->
    Z.land (hash d) (length_ s - 1) = Z.of_nat i;
  tab_unique : forall x y k h, x ∈ concat bs -> y ∈ concat bs ->
    matches s k h x -> matches s k h y -> x = y;
}.

Lemma elem_concat {A} (bs : list (list A)) i b x : bs !! i = Some b -> x ∈ b -> x ∈ concat bs.
Proof.
  intros Hb Hx. apply list_elem_of_In, in_concat. exists b. split; [|by apply list_elem_of_In].
  apply list_elem_of_In. by apply list_elem_of_lookup_2 in Hb.
Qed.

Lemma concat_elem {A} (bs : list (list A)) x : x ∈ concat bs -> exists i b, bs !! i = Some b /\ x ∈ b.
Proof.
  intros Hx. apply list_elem_of_In, in_concat in Hx as (b & Hb & Hx).
  apply list_elem_of_In, list_elem_of_lookup in Hb as [i Hi]. exists i, b.
  split; [done|by apply list_elem_of_In].
Qed.

Lemma concat_split {A} (bs : list (list A)) i b :
  bs !! i = Some b -> exists pre post, concat bs = pre ++ b ++ post /\
    forall b', concat (<[i := b']> bs) = pre ++ b' ++ post.
Proof.
  intros Hb. exists (concat (take i bs)), (concat (drop (S i) bs)). split.
  - rewrite <- (take_drop_middle bs i b Hb) at 1. by rewrite concat_app.
  - intros b'. rewrite insert_take_drop by (by eapply lookup_lt_Some). by rewrite concat_app.
Qed.

(** ** [FindPointer] *)

Lemma key_eq s x d n :
  hdata s !! x = Some d -> hnext s !! x = Some n -> n <> Some x -> key x s = Ret (key_data d, s).
Proof.
  intros Hd Hn Hne. unfold key. mstep (load_eq hdata x d s Hd). mstep (load_eq hnext x n s Hn).
  by rewrite bool_decide_false.
Qed.

Lemma slice_ne_spec a b : slice_ne a b = bool_decide (a <> b).
Proof.
  unfold slice_ne. pose proof (slice_eq_spec a b) as Hs.
  destruct (slice_eq a b), (bool_decide_reflect (a <> b)); try done; naive_solver.
Qed.

(** Where the search for a key in a chain ends: behind the entries that do not match. *)
Lemma FindPointer_loop_spec fuel sl k h s p l :
  load_slot sl s = Ret (p, s) -> chain (hnext_hash s) p l ->
  (forall x, x ∈ l -> table_entry s x) -> (length l < fuel)%nat ->
  exists l1 l2, l = l1 ++ l2 /\ (forall y, y ∈ l1 -> ~ matches s k h y) /\
    (forall x l2', l2 = x :: l2' -> matches s k h x) /\
    FindPointer_loop fuel sl k h s = Ret (slot_after sl l1, s).
Proof.
  revert sl p l; induction fuel as [|fuel IH]; intros sl p l Hsl Hc He Hf; [lia|].
  cbn [FindPointer_loop]. mstep Hsl. destruct l as [|x l].
  { simpl in Hc. subst. exists [], []. split_and!; set_solver. }
  destruct Hc as (-> & n & Hn & Hc).
  destruct (He x ltac:(set_solver)) as (d & Hd & Hh & nx & Hnx & Hne).
  mstep (load_eq hdata x d s Hd).
  assert ((if negb (hash d =? h) then mret true
           else k' ← key x; mret (slice_ne k k')) s =
          Ret (bool_decide (~ matches s k h x), s)) as Hdiff.
  { destruct (Z.eqb_spec (hash d) h) as [Hhd|Hhd]; simpl.
    - mstep (key_eq s x d nx Hd Hnx Hne). unfold mret, M_ret. rewrite slice_ne_spec.
      do 2 f_equal. apply bool_decide_ext. unfold matches. naive_solver.
    - unfold mret, M_ret. do 2 f_equal. symmetry. apply bool_decide_true. unfold matches. naive_solver. }
  mstep Hdiff. destruct (bool_decide_reflect (~ matches s k h x)) as [Hm|Hm].
  - destruct (IH (NextHash x) n l) as (l1 & l2 & -> & Hno & Hyes & Hr).
    + unfold load_slot. by apply load_eq.
    + done.
    + set_solver.
    + simpl in Hf. lia.
    + exists (x :: l1), l2. split_and!; [done|set_solver|done|].
      rewrite Hr. unfold slot_after. rewrite last_cons. by destruct (list.last l1).
  - exists [], (x :: l). split_and!; [done|set_solver| |done].
    intros ? ? [= <- <-]. destruct (decide (matches s k h x)) as [|Hn']; [done|]. by destruct Hm.
Qed.

(** The only members that the table operations change. *)
Definition with_table (s : Shard) nh len el ls : Shard :=
  upd_table (set_next_hash s nh) len el ls.

Lemma Tab_lookup_list s bs i b :
  Tab s bs -> bs !! i = Some b -> exists p, list_ s !! i = Some p /\ chain (hnext_hash s) p b.
Proof.
  intros HT Hb. destruct (Forall2_lookup_r _ _ _ _ _ (tab_chains s bs HT) Hb) as (p & Hp & Hc).
  by exists p.
Qed.

Lemma land_mask h k : 0 <= k -> Z.land h (2 ^ k - 1) = h mod 2 ^ k.
Proof. intros. rewrite Z.sub_1_r, <- Z.ones_equiv. by apply Z.land_ones. Qed.

Lemma Tab_bucket_of s bs h :
  Tab s bs -> 0 <= h -> exists i b, bs !! i = Some b /\ Z.of_nat i = Z.land h (length_ s - 1).
Proof.
  intros HT Hh. destruct (tab_pow _ _ HT) as (k & Hk & Hl). pose proof (tab_length _ _ HT) as Hz.
  rewrite Hl, land_mask by lia. pose proof (Z.mod_pos_bound h (2 ^ k) ltac:(lia)) as Hm.
  destruct (lookup_lt_is_Some_2 bs (Z.to_nat (h mod 2 ^ k))) as [b Hb]; [unfold zlen in Hz; lia|].
  exists (Z.to_nat (h mod 2 ^ k)), b. split; [done|lia].
Qed.

Lemma load_slot_after s i p l1 l2 :
  list_ s !! i = Some p -> chain (hnext_hash s) p (l1 ++ l2) ->
  exists q, load_slot (slot_after (Bucket (Z.of_nat i)) l1) s = Ret (q, s) /\
    chain (hnext_hash s) q l2 /\ q = list.head l2.
Proof.
  intros Hp Hc. apply chain_app in Hc as (q & Hq & Hl). exists q.
  split; [|split; [done|by eapply chain_head]].
  unfold slot_after. destruct (list.last l1) as [y|].
  - unfold load_slot. by apply load_eq.
  - unfold load_slot. mstep (get_eq s). by rewrite Nat2Z.id, Hp, Hl.
Qed.

Lemma store_slot_after s i p l1 v :
  list_ s !! i = Some p ->
  store_slot (slot_after (Bucket (Z.of_nat i)) l1) v s =
    Ret (tt, with_table s (splice_nh (hnext_hash s) l1 v) (length_ s) (elems_ s)
               (<[i := splice_ptr p l1 v]> (list_ s))).
Proof.
  intros Hp. unfold slot_after, splice_nh, splice_ptr.
  destruct (list.last l1) as [y|] eqn:Hl.
  - assert (match l1 with [] => v | _ :: _ => p end = p) as -> by (by destruct l1).
    rewrite list_insert_id by done. done.
  - apply last_None in Hl as ->. unfold store_slot. mstep (get_eq s). rewrite Nat2Z.id.
    apply lookup_lt_Some in Hp. replace (_ <? _) with true by (unfold zlen; lia). done.
Qed.

Lemma FindPointer_spec s bs k h :
  Tab s bs -> 0 <= h ->
  exists i p l1 l2, bs !! i = Some (l1 ++ l2) /\ Z.of_nat i = Z.land h (length_ s - 1) /\
    list_ s !! i = Some p /\ chain (hnext_hash s) p (l1 ++ l2) /\
    FindPointer k h s = Ret (slot_after (Bucket (Z.of_nat i)) l1, s) /\
    (forall x l2', l2 = x :: l2' -> matches s k h x) /\
    (l2 = [] -> forall x, x ∈ concat bs -> ~ matches s k h x).
Proof.
  intros HT Hh. destruct (Tab_bucket_of s bs h HT Hh) as (i & b & Hb & Hi).
  destruct (Tab_lookup_list s bs i b HT Hb) as (p & Hp & Hc).
  unfold FindPointer. mstep (get_eq s). rewrite <- Hi.
  destruct (FindPointer_loop_spec (S (S (Z.to_nat (elems_ s)))) (Bucket (Z.of_nat i)) k h s p b)
    as (l1 & l2 & -> & Hno & Hyes & Hr).
  - unfold load_slot. mstep (get_eq s). by rewrite Nat2Z.id, Hp.
  - done.
  - intros x Hx. apply (tab_entries _ _ HT). by eapply elem_concat.
  - rewrite (tab_elems _ _ HT). destruct (concat_split bs i b Hb) as (pre & post & -> & _).
    unfold zlen. rewrite !length_app. lia.
  - exists i, p, l1, l2. split_and!; try done. intros -> x Hx Hm.
    apply concat_elem in Hx as (j & b' & Hj & Hx). pose proof Hm as (d & Hd & Hhd & _).
    pose proof (tab_bucket _ _ HT j b' x d Hj Hx Hd) as Hji. rewrite Hhd, <- Hi in Hji.
    apply Nat2Z.inj in Hji as <-. rewrite app_nil_r in Hb. simplify_eq. by apply (Hno x).
Qed.

Lemma table_Lookup_spec s bs k h :
  Tab s bs -> 0 <= h ->
  exists p, table_Lookup k h s = Ret (p, s) /\
    match p with
    | Some x => x ∈ concat bs /\ matches s k h x
    | None => forall x, x ∈ concat bs -> ~ matches s k h x
    end.
Proof.
  intros HT Hh. destruct (FindPointer_spec s bs k h HT Hh)
    as (i & p & l1 & l2 & Hb & Hi & Hp & Hc & Hf & Hyes & Hno).
  destruct (load_slot_after s i p l1 l2 Hp Hc) as (q & Hq & Hcq & ->).
  exists (list.head l2). unfold table_Lookup. mstep Hf. split; [done|].
  destruct l2 as [|x l2]; simpl; [by apply Hno|]. split; [|by eapply Hyes].
  eapply elem_concat; [done|set_solver].
Qed.

(** *** Replacing the rest of a bucket *)

Lemma Forall2_chain_insert nh nh' (ls : list ptr) bs i p b :
  Forall2 (chain nh) ls bs -> (i < length bs)%nat ->
  (forall j q c, j <> i -> ls !! j = Some q -> bs !! j = Some c -> chain nh q c -> chain nh' q c) ->
  chain nh' p b -> Forall2 (chain nh') (<[i := p]> ls) (<[i := b]> bs).
Proof.
  intros HF Hi Hfr Hc. apply Forall2_same_length_lookup.
  pose proof (Forall2_length HF) as Hlen. split; [by rewrite !length_insert|].
  intros j q c Hq Hb. destruct (decide (j = i)) as [->|Hne].
  - rewrite list_lookup_insert_eq in Hq by lia. rewrite list_lookup_insert_eq in Hb by lia.
    by simplify_eq.
  - rewrite list_lookup_insert_ne in Hq by done. rewrite list_lookup_insert_ne in Hb by done. eapply Hfr; eauto.
    by eapply (Forall2_lookup_lr _ ls bs).
Qed.

Lemma NoDup_concat_disjoint {A} (bs : list (list A)) i j b c x :
  NoDup (concat bs) -> bs !! i = Some b -> bs !! j = Some c -> i <> j -> x ∈ b -> x ∉ c.
Proof.
  revert i j; induction bs as [|a bs IH]; intros i j Hnd Hi Hj Hne Hx; [done|].
  simpl in Hnd. apply list.NoDup_app in Hnd as (Ha & Hd & Hnd).
  destruct i as [|i], j as [|j]; simplify_eq/=.
  - intros Hc. eapply Hd; [done|by eapply elem_concat].
  - intros Hc. eapply Hd; [done|]. by eapply elem_concat.
  - eapply (IH i j); eauto.
Qed.

Lemma Tab_update s bs i p l1 l2 nh0 v l3 el :
  Tab s bs -> bs !! i = Some (l1 ++ l2) -> list_ s !! i = Some p ->
  Forall2 (chain nh0) (list_ s) bs -> chain nh0 v l3 ->
  NoDup (concat (<[i := l1 ++ l3]> bs)) ->
  el = zlen (concat (<[i := l1 ++ l3]> bs)) -> el < 2 ^ 30 ->
  (forall x, x ∈ l3 -> table_entry s x /\
     forall d, hdata s !! x = Some d -> Z.land (hash d) (length_ s - 1) = Z.of_nat i) ->
  (forall x y k h, x ∈ concat (<[i := l1 ++ l3]> bs) -> y ∈ concat (<[i := l1 ++ l3]> bs) ->
    matches s k h x -> matches s k h y -> x = y) ->
  Tab (with_table s (splice_nh nh0 l1 v) (length_ s) el (<[i := splice_ptr p l1 v]> (list_ s)))
    (<[i := l1 ++ l3]> bs).
Proof.
  intros HT Hb Hp Hch Hv Hnd Hel Hbd Hl3 Huq.
  assert (i < length bs)%nat as Hi by (by eapply lookup_lt_Some).
  destruct (concat_split bs i _ Hb) as (pre & post & Hcat & Hcat').
  assert (NoDup (l1 ++ l3)) as Hnd13.
  { rewrite Hcat' in Hnd. apply list.NoDup_app in Hnd as (_ & _ & Hnd).
    by apply list.NoDup_app in Hnd as (Hnd & _). }
  apply list.NoDup_app in Hnd13 as (Hnd1 & Hdis & _).
  assert (chain nh0 p (l1 ++ l2)) as Hc by (by eapply (Forall2_lookup_lr _ (list_ s) bs)).
  split; simpl.
  - apply (tab_pow _ _ HT).
  - unfold zlen. rewrite length_insert. apply (tab_length _ _ HT).
  - apply Forall2_chain_insert with nh0; [done|lia| |].
    + intros j q c Hne Hq Hj Hcj. unfold splice_nh. destruct (list.last l1) as [y|] eqn:Hl; [|done].
      apply chain_frame; [|done]. apply last_Some_elem_of in Hl.
      eapply (NoDup_concat_disjoint bs i j); [apply (tab_nodup _ _ HT)|done|done|done|inlist].
    + apply (chain_splice nh0 p l1 l2); [done|done| |done].
      intros y Hy. apply Hdis. by apply last_Some_elem_of.
  - done.
  - done.
  - lia.
  - intros x Hx. rewrite Hcat' in Hx. 
    destruct (decide (x ∈ l3)) as [Hx3|Hx3]; [by apply Hl3|]. apply (tab_entries _ _ HT).
    rewrite Hcat. inlist.
  - intros j b x d Hj Hx Hd. destruct (decide (j = i)) as [->|Hne].
    + rewrite list_lookup_insert_eq in Hj by done. simplify_eq.
      destruct (decide (x ∈ l3)) as [Hx3|Hx3]; [by apply (proj2 (Hl3 x Hx3))|].
      eapply (tab_bucket _ _ HT); [done| |done]; inlist.
    + rewrite list_lookup_insert_ne in Hj by done. by eapply (tab_bucket _ _ HT).
  - done.
Qed.

Lemma concat_insert_perm (bs : list (list loc)) i l1 l2 l3 :
  bs !! i = Some (l1 ++ l2) ->
  exists rest, concat bs ≡ₚ l2 ++ rest /\ concat (<[i := l1 ++ l3]> bs) ≡ₚ l3 ++ rest.
Proof.
  intros Hb. destruct (concat_split bs i _ Hb) as (pre & post & -> & Hc).
  exists (pre ++ l1 ++ post). rewrite Hc. split; solve_Permutation.
Qed.

Lemma zlen_Permutation {A} (l k : list A) : l ≡ₚ k -> zlen l = zlen k.
Proof. intros Hp. unfold zlen. by rewrite Hp. Qed.

Lemma table_Remove_spec s bs k h :
  Tab s bs -> 0 <= h ->
  exists p, match p with
    | None => table_Remove k h s = Ret (None, s) /\ forall x, x ∈ concat bs -> ~ matches s k h x
    | Some x => matches s k h x /\ exists nh el ls bs',
        table_Remove k h s = Ret (Some x, with_table s nh (length_ s) el ls) /\
        Tab (with_table s nh (length_ s) el ls) bs' /\ concat bs ≡ₚ x :: concat bs'
    end.
Proof.
  intros HT Hh. destruct (FindPointer_spec s bs k h HT Hh)
    as (i & p & l1 & l2 & Hb & Hi & Hp & Hc & Hf & Hyes & Hno).
  destruct (load_slot_after s i p l1 l2 Hp Hc) as (q & Hq & Hcq & ->).
  exists (list.head l2). unfold table_Remove. mstep Hf. mstep Hq.
  destruct l2 as [|x l2]; simpl; [split; [done|by apply Hno]|].
  split; [by eapply Hyes|]. simpl in Hcq. destruct Hcq as (_ & n & Hn & Hcn).
  mstep (load_eq hnext_hash x n s Hn). mstep (store_slot_after s i p l1 n Hp).
  destruct (concat_insert_perm bs i l1 (x :: l2) l2 Hb) as (rest & Hp1 & Hp2).
  pose proof (tab_nodup _ _ HT) as Hnd. rewrite Hp1 in Hnd.
  pose proof (tab_bound _ _ HT) as Hbd. pose proof (tab_elems _ _ HT) as Hel.
  pose proof (zlen_Permutation _ _ Hp1) as Hz1. pose proof (zlen_Permutation _ _ Hp2) as Hz2.
  simpl in Hz1, Hnd. rewrite zlen_cons in Hz1. zlen_pos.
  exists (splice_nh (hnext_hash s) l1 n), (u32 (elems_ s - 1)), (<[i := splice_ptr p l1 n]> (list_ s)),
    (<[i := l1 ++ l2]> bs).
  assert (u32 (elems_ s - 1) = zlen (concat (<[i:=l1 ++ l2]> bs))) as Hu by (rewrite u32_small; lia).
  split; [done|]. split; [|by rewrite Hp1, Hp2].
  apply (Tab_update s bs i p l1 (x :: l2)); try done.
  - apply (tab_chains _ _ HT).
  - rewrite Hp2. by apply list.NoDup_cons in Hnd as [_ ?].
  - lia.
  - intros y Hy. split.
    + apply (tab_entries _ _ HT). rewrite Hp1. inlist.
    + intros d Hd. eapply (tab_bucket _ _ HT); [exact Hb| |done]. inlist.
  - intros y z k' h' Hy Hz. rewrite Hp2 in Hy, Hz.
    apply (tab_unique _ _ HT); rewrite Hp1; inlist.
Qed.

(** *** [Resize] *)

Lemma new_length_spec fuel k elems s :
  4 <= k <= 31 -> 0 <= elems < 2 ^ 30 + 1 -> (32 - k < Z.of_nat fuel) ->
  exists k', 4 <= k' <= 31 /\ new_length_loop fuel (2 ^ k) elems s = Ret (2 ^ k', s) /\
    3 * elems <= 2 * 2 ^ k'.
Proof.
  revert k; induction fuel as [|fuel IH]; intros k Hk He Hf; [lia|]. cbn [new_length_loop].
  destruct (Z.ltb_spec (2 * 2 ^ k) (3 * elems)); [|by exists k].
  assert (k < 31).
  { destruct (Z.eq_dec k 31) as [->|]; [|lia]. change (2 ^ 31) with 2147483648 in *. lia. }
  assert (u32 (2 ^ k * 2) = 2 ^ (k + 1)) as ->.
  { rewrite Z.pow_add_r by lia. apply u32_small. split; [lia|].
    assert (2 ^ k <= 2 ^ 30) by (apply Z.pow_le_mono_r; lia). lia. }
  apply IH; lia.
Qed.

(** An array of [2 ^ k] chains with every handle in the bucket of its hash. *)
Record Buckets (s : Shard) (k : Z) (ls : list ptr) (bs : list (list loc)) : Prop := {
  bk_chains : Forall2 (chain (hnext_hash s)) ls bs;
  bk_length : zlen ls = 2 ^ k;
  bk_nodup : NoDup (concat bs);
  bk_place : forall i b x d, bs !! i = Some b -> x ∈ b -> hdata s !! x = Some d ->
    Z.land (hash d) (2 ^ k - 1) = Z.of_nat i;
}.

(** A handle is put in front of the chain of its bucket. *)
Lemma Buckets_push s k ls bs x d : Buckets s k ls bs -> 0 <= k -> x ∉ concat bs -> hdata s !! x = Some d ->
  let i := Z.to_nat (Z.land (hash d) (2 ^ k - 1)) in
  exists q bs', ls !! i = Some q /\ Buckets (set_next_hash s (<[x := q]> (hnext_hash s))) k (<[i := Some x]> ls) bs' /\
    concat bs' ≡ₚ x :: concat bs.
Proof.
  intros [HF Hz Hnd Hbk] Hk Hx Hd i. assert (i = Z.to_nat (hash d mod 2 ^ k)) as Ei by (unfold i; by rewrite land_mask). clearbody i.
  assert (0 <= hash d mod 2 ^ k < 2 ^ k) as Hi by (apply Z.mod_pos_bound; lia).
  destruct (lookup_lt_is_Some_2 ls i) as [q Hq]; [unfold zlen in *; lia|].
  destruct (Forall2_lookup_l _ _ _ _ _ HF Hq) as (b & Hb & Hcb).
  assert (forall c j, bs !! j = Some c -> x ∉ c) as Hxn by (intros c j Hj Hxc; apply Hx; by eapply elem_concat).
  destruct (concat_split bs i b Hb) as (pre & post & Hcat & Hcat').
  assert (concat (<[i := x :: b]> bs) ≡ₚ x :: concat bs) as Hperm by (rewrite Hcat, Hcat'; solve_Permutation).
  exists q, (<[i := x :: b]> bs). split; [done|]. split; [|done]. constructor; simpl.
  - apply Forall2_chain_insert with (hnext_hash s); [done|by eapply lookup_lt_Some| |].
    + intros j q' c Hj _ Hcj Hch. apply chain_frame; [by eapply Hxn|done].
    + split; [done|]. exists q. rewrite lookup_insert_eq. split; [done|]. apply chain_frame; [by eapply Hxn|done].
  - unfold zlen in *. rewrite length_insert. done.
  - rewrite Hperm. by apply list.NoDup_cons.
  - intros j c y d' Hj Hy Hd'. destruct (decide (j = i)) as [->|Hji].
    + rewrite list_lookup_insert_eq in Hj by (by eapply lookup_lt_Some). simplify_eq.
      apply elem_of_cons in Hy as [->|Hy]; [|by eapply Hbk]. simplify_eq. rewrite land_mask by done. lia.
    + rewrite list_lookup_insert_ne in Hj by done. by eapply Hbk.
Qed.

Lemma rehash_chain_spec fuel l k s p new_list nbs count :
  chain (hnext_hash s) p l -> (length l <= fuel)%nat -> NoDup l ->
  (forall x, x ∈ l -> table_entry s x) -> 0 <= k -> Buckets s k new_list nbs -> (forall x, x ∈ l -> x ∉ concat nbs) ->
  0 <= count -> count + zlen l < 2 ^ 32 ->
  exists nh' new_list' nbs', rehash_chain fuel p (2 ^ k) new_list count s =
      Ret (new_list', count + zlen l, set_next_hash s nh') /\
    Buckets (set_next_hash s nh') k new_list' nbs' /\ concat nbs' ≡ₚ l ++ concat nbs /\
    (forall y, y ∉ l -> nh' !! y = hnext_hash s !! y).
Proof.
  revert s p new_list nbs count fuel. induction l as [|x l IH];
    intros s p new_list nbs count fuel Hc Hf Hnd He Hk HB Hdis Hcnt Hbd.
  { simpl in Hc. subst p. exists (hnext_hash s), new_list, nbs. rewrite zlen_nil, Z.add_0_r.
    replace (set_next_hash s (hnext_hash s)) with s by (by destruct s). split_and!; try done. by destruct fuel. }
  destruct Hc as (-> & n & Hn & Hc). destruct fuel as [|fuel]; [simpl in Hf; lia|].
  apply list.NoDup_cons in Hnd as [Hxl Hnd].
  destruct (He x ltac:(inlist)) as (d & Hd & Hh & nx & Hnx & Hne).
  destruct (Buckets_push s k new_list nbs x d HB Hk (Hdis x ltac:(inlist)) Hd) as (q & nbs1 & Hq & HB1 & Hperm).
  cbn [rehash_chain]. mstep (load_eq hnext_hash x n s Hn). mstep (load_eq hdata x d s Hd).
  set (i := Z.to_nat _) in *. rewrite Hq. mstep (store_eq hnext_hash set_next_hash x q s (ltac:(by eexists))).
  rewrite zlen_cons in Hbd. zlen_pos. rewrite (u32_small (count + 1)) by lia.
  destruct (IH (set_next_hash s (<[x := q]> (hnext_hash s))) n (<[i := Some x]> new_list) nbs1 (count + 1) fuel)
    as (nh' & nl' & nbs' & Hr & HB' & Hp' & Hfr); try done.
  - simpl. by apply chain_frame.
  - simpl in Hf. lia.
  - intros y Hy. apply He. inlist.
  - intros y Hy Hy2. rewrite Hperm in Hy2. apply elem_of_cons in Hy2 as [->|Hy2]; [done|]. apply (Hdis y); [inlist|done].
  - lia.
  - lia.
  - exists nh', nl', nbs'. split; [rewrite Hr, zlen_cons; do 3 f_equal; lia|]. split; [done|]. split.
    + rewrite Hp', Hperm. solve_Permutation.
    + intros y Hy. rewrite Hfr by inlist. simpl. apply lookup_insert_ne. intros ->. apply Hy. inlist.
Qed.

Lemma chain_agree nh nh' p l :
  (forall y, y ∈ l -> nh' !! y = nh !! y) -> chain nh p l -> chain nh' p l.
Proof.
  revert p; induction l as [|x l IH]; intros p Hag Hc; [done|].
  destruct Hc as (-> & n & Hn & Hc). split; [done|]. exists n. split.
  - rewrite Hag by inlist. done.
  - apply IH; [|done]. intros y Hy. apply Hag. inlist.
Qed.

Lemma in_concat_elem {A} (bs : list (list A)) b x : b ∈ bs -> x ∈ b -> x ∈ concat bs.
Proof. intros Hb Hx. apply list_elem_of_lookup in Hb as [i Hi]. by eapply elem_concat. Qed.

Lemma Forall2_impl_lookup_chain nh nh' ls bs :
  Forall2 (chain nh) ls bs -> (forall b, b ∈ bs -> forall y, y ∈ b -> nh' !! y = nh !! y) ->
  Forall2 (chain nh') ls bs.
Proof.
  induction 1 as [|p b ls bs Hc HF IH]; intros Hag; constructor.
  - eapply chain_agree; [|done]. apply Hag. inlist.
  - apply IH. intros c Hc'. apply Hag. inlist.
Qed.

Lemma rehash_spec fuel ls bs k s new_list nbs count :
  Forall2 (chain (hnext_hash s)) ls bs -> NoDup (concat bs) ->
  (forall b, b ∈ bs -> (length b <= fuel)%nat) ->
  (forall x, x ∈ concat bs -> table_entry s x) -> 0 <= k -> Buckets s k new_list nbs -> (forall x, x ∈ concat bs -> x ∉ concat nbs) ->
  0 <= count -> count + zlen (concat bs) < 2 ^ 32 ->
  exists nh' new_list' nbs', rehash fuel ls (2 ^ k) new_list count s =
      Ret (new_list', count + zlen (concat bs), set_next_hash s nh') /\
    Buckets (set_next_hash s nh') k new_list' nbs' /\ concat nbs' ≡ₚ concat bs ++ concat nbs.
Proof.
  intros HF. revert s new_list nbs count HF.
  revert bs; induction ls as [|p ls IH]; intros bs s new_list nbs count HF Hnd Hlen He Hk HB Hdis Hc Hbd;
    apply Forall2_nil_inv_l in HF || apply Forall2_cons_inv_l in HF as (b & bs' & Hcb & HF & ->).
  { subst. exists (hnext_hash s), new_list, nbs. simpl concat. rewrite zlen_nil, Z.add_0_r.
    replace (set_next_hash s (hnext_hash s)) with s by (by destruct s). by split_and!. }
  simpl in Hnd, He, Hdis, Hbd. rewrite zlen_app in Hbd. zlen_pos.
  apply list.NoDup_app in Hnd as (Hndb & Hdb & Hnd).
  destruct (rehash_chain_spec fuel b k s p new_list nbs count) as (nh1 & nl1 & nbs1 & Hr1 & HB1 & Hp1 & Hfr1);
    try done; [apply Hlen; inlist|intros x Hx; apply He; inlist|intros x Hx; apply Hdis; inlist|lia|].
  cbn [rehash]. mstep Hr1.
  destruct (IH bs' (set_next_hash s nh1) nl1 nbs1 (count + zlen b)) as (nh2 & nl2 & nbs2 & Hr2 & HB2 & Hp2); try done.
  - simpl. eapply Forall2_impl_lookup_chain; [exact HF|]. intros c Hcin y Hy. apply Hfr1.
    intros Hyb. apply (Hdb y Hyb). by eapply in_concat_elem.
  - intros c Hcin. apply Hlen. inlist.
  - intros x Hx. apply He. inlist.
  - intros x Hx Hx2. rewrite Hp1 in Hx2. apply elem_of_app in Hx2 as [Hx2|Hx2]; [by apply (Hdb x)|apply (Hdis x); [inlist|done]].
  - lia.
  - lia.
  - exists nh2, nl2, nbs2. split; [rewrite Hr2; simpl concat; rewrite zlen_app; do 3 f_equal; lia|].
    split; [done|]. rewrite Hp2, Hp1. simpl. solve_Permutation.
Qed.

Lemma concat_replicate_nil {A} n : concat (replicate n ([] : list A)) = [].
Proof. by induction n. Qed.

(** An array of null pointers. *)
Lemma Buckets_empty s k : 0 <= k -> Buckets s k (zrep (2 ^ k) None) (replicate (Z.to_nat (2 ^ k)) []).
Proof.
  intros Hk. constructor.
  - unfold zrep. by apply Forall2_replicate.
  - apply zlen_zrep. lia.
  - rewrite concat_replicate_nil. constructor.
  - intros i b x d Hi Hx. apply lookup_replicate in Hi as [-> _]. by apply not_elem_of_nil in Hx.
Qed.

(** Buckets with the entries of the table are a table. *)
Lemma Tab_rebuild s bs nh k ls bs' : Tab s bs -> 4 <= k < 32 -> Buckets (set_next_hash s nh) k ls bs' -> concat bs' ≡ₚ concat bs ->
  Tab (with_table s nh (2 ^ k) (elems_ s) ls) bs'.
Proof.
  intros HT Hk [HF Hz Hnd Hbk] Hp. split; simpl; try done.
  - by exists k.
  - rewrite <- Hz. unfold zlen. by rewrite (Forall2_length HF).
  - rewrite (zlen_Permutation _ _ Hp). apply (tab_elems _ _ HT).
  - rewrite (zlen_Permutation _ _ Hp). apply (tab_bound _ _ HT).
  - intros x Hx. rewrite Hp in Hx. by apply (tab_entries _ _ HT).
  - intros x y k' h Hx Hy. rewrite Hp in Hx, Hy. by apply (tab_unique _ _ HT).
Qed.

Lemma Resize_spec s bs :
  Tab s bs ->
  exists nh len ls bs', Resize s = Ret (tt, with_table s nh len (elems_ s) ls) /\
    Tab (with_table s nh len (elems_ s) ls) bs' /\ concat bs' ≡ₚ concat bs /\
    elems_ s <= len.
Proof.
  intros HT. pose proof (tab_bound _ _ HT) as Hbd. pose proof (tab_elems _ _ HT) as Hel. zlen_pos.
  destruct (new_length_spec 32 4 (elems_ s) s) as (k & Hk & Hnl & Hge); [lia|lia|lia|].
  destruct (rehash_spec (S (Z.to_nat (elems_ s))) (list_ s) bs k s (zrep (2 ^ k) None)
    (replicate (Z.to_nat (2 ^ k)) []) 0) as (nh & ls & bs' & Hr & HB & Hp).
  - apply (tab_chains _ _ HT).
  - apply (tab_nodup _ _ HT).
  - intros b Hb. apply list_elem_of_lookup in Hb as [i Hi].
    destruct (concat_split bs i b Hi) as (pre & post & Hc & _). rewrite Hel, Hc. unfold zlen.
    rewrite !length_app. lia.
  - apply (tab_entries _ _ HT).
  - lia.
  - apply Buckets_empty. lia.
  - intros x _. rewrite concat_replicate_nil. apply not_elem_of_nil.
  - lia.
  - lia.
  - rewrite concat_replicate_nil, app_nil_r in Hp.
    exists nh, (2 ^ k), ls, bs'. unfold Resize. mstep (get_eq s). change 16 with (2 ^ 4). mstep Hnl.
    mstep Hr. mstep (massert_eq (elems_ s =? 0 + zlen (concat bs)) (set_next_hash s nh) ltac:(lia)).
    split; [done|]. split; [apply Tab_rebuild with bs; done || lia|]. split; [done|lia].
Qed.

(** Inserting a new entry adds it to the table and takes out the entry it replaces. *)
Lemma not_in_bucket {A} (bs : list (list A)) b e : e ∉ concat bs -> b ∈ bs -> e ∉ b.
Proof. intros Hne Hbin Hx. apply Hne. by eapply in_concat_elem. Qed.
Lemma tail_elem {A} (l : list A) x : x ∈ tail l -> x ∈ l.
Proof. destruct l; simpl; [done|intros; inlist]. Qed.

Section insert.
Context (s : Shard) (bs : list (list loc)) (e : loc) (d : HandleData) (i : nat) (p : ptr) (l1 l2 rest : list loc).
(** [e] is a new entry, and [FindPointer] has divided the bucket of its key. *)
Context (HT : Tab s bs) (Hd : hdata s !! e = Some d) (He : table_entry s e) (Hne : e ∉ concat bs).
Context (Hb : bs !! i = Some (l1 ++ l2)) (Hi : Z.of_nat i = Z.land (hash d) (length_ s - 1)) (Hp : list_ s !! i = Some p).
Context (Hyes : forall x l, l2 = x :: l -> matches s (key_data d) (hash d) x).
Context (Hno : l2 = [] -> forall x, x ∈ concat bs -> ~ matches s (key_data d) (hash d) x).
Let bs1 := <[i := l1 ++ e :: tail l2]> bs.
Context (Hp1 : concat bs ≡ₚ l2 ++ rest) (Hp2 : concat bs1 ≡ₚ (e :: tail l2) ++ rest).

(** The entries that stay have other keys. *)
Lemma insert_others y : y ∈ tail l2 ++ rest -> y <> e /\ y ∈ concat bs /\ ~ matches s (key_data d) (hash d) y.
Proof using All.
  intros Hy. assert (y ∈ concat bs) as Hyc.
  { rewrite Hp1. apply elem_of_app in Hy as [Hy|Hy]; [apply tail_elem in Hy|]; inlist. }
  split; [by intros ->|]. split; [done|]. intros Hm. pose proof (tab_nodup _ _ HT) as Hnd. rewrite Hp1 in Hnd.
  destruct l2 as [|o l] eqn:El; simpl in *; [by apply (Hno eq_refl y)|].
  apply list.NoDup_cons in Hnd as [Ho _]. apply Ho. replace o with y; [done|].
  apply (tab_unique _ _ HT) with (key_data d) (hash d); [done| |done|by eapply Hyes]. rewrite Hp1. inlist.
Qed.

Lemma insert_elems : zlen (concat bs1) = match l2 with [] => elems_ s + 1 | _ => elems_ s end.
Proof using All.
  rewrite (zlen_Permutation _ _ Hp2), (tab_elems _ _ HT), (zlen_Permutation _ _ Hp1).
  destruct l2; simpl; rewrite ?zlen_cons, ?zlen_app, ?zlen_cons, ?zlen_nil; lia.
Qed.

(** The keys of the entries stay different. *)
Lemma insert_unique x y k h : x ∈ concat bs1 -> y ∈ concat bs1 -> matches s k h x -> matches s k h y -> x = y.
Proof using All.
  assert (forall z, z ∈ tail l2 ++ rest -> matches s k h e -> ~ matches s k h z) as Hz.
  { intros z Hz (d' & Hd' & <- & <-). simplify_eq. by apply insert_others. }
  intros Hx Hy Hmx Hmy. rewrite Hp2 in Hx, Hy. simpl in Hx, Hy.
  apply elem_of_cons in Hx as [->|Hx]; apply elem_of_cons in Hy as [->|Hy]; [done|by destruct (Hz y)|by destruct (Hz x)|].
  destruct (insert_others x Hx) as (_ & ? & _), (insert_others y Hy) as (_ & ? & _). by apply (tab_unique _ _ HT) with k h.
Qed.

Lemma insert_tab n : chain (hnext_hash s) n (tail l2) -> zlen (concat bs) + 1 < 2 ^ 30 ->
  Tab (with_table s (splice_nh (<[e := n]> (hnext_hash s)) l1 (Some e)) (length_ s) (zlen (concat bs1)) (<[i := splice_ptr p l1 (Some e)]> (list_ s))) bs1.
Proof using All.
  intros Hcn Hbd. pose proof (tab_nodup _ _ HT) as Hnd. rewrite Hp1 in Hnd.
  assert (e ∉ l1 ++ l2) as Hel by (apply (not_in_bucket bs); [done|by eapply list_elem_of_lookup_2]).
  apply (Tab_update s bs i p l1 l2); try done.
  - apply (Forall2_impl_lookup_chain (hnext_hash s)); [apply (tab_chains _ _ HT)|].
    intros b Hbin y Hy. apply lookup_insert_ne. intros ->. by apply (not_in_bucket bs b y).
  - split; [done|]. exists n. rewrite lookup_insert_eq. split; [done|]. apply chain_frame; [|done]. intros Hx. apply tail_elem in Hx. apply Hel. inlist.
  - fold bs1. rewrite Hp2. simpl. apply list.NoDup_cons. split; [intros Hx; by destruct (insert_others e Hx)|].
    destruct l2; simpl in *; [done|]. by apply list.NoDup_cons in Hnd as [_ ?].
  - fold bs1. rewrite insert_elems, (tab_elems _ _ HT). destruct l2; lia.
  - intros x Hx. apply elem_of_cons in Hx as [->|Hx]; [split; [done|]; intros d'' Hd''; by simplify_eq|].
    apply tail_elem in Hx. split; [apply (tab_entries _ _ HT); rewrite Hp1; inlist|].
    intros d'' Hd''. eapply (tab_bucket _ _ HT); [exact Hb| |done]. inlist.
  - exact insert_unique.
Qed.
End insert.

(** The number of entries goes up, and the table is made larger when it has become too small. *)
Lemma table_grow_spec s el1 bs1 : Tab (with_table s (hnext_hash s) (length_ s) el1 (list_ s)) bs1 -> u32 (elems_ s + 1) = el1 ->
  exists nh len ls bs', (_ ← modify (fun s => set_elems s (u32 (elems_ s + 1)));
      s ← get; _ ← (if length_ s <? elems_ s then Resize else mret tt); mret None) s = Ret (@None loc, with_table s nh len el1 ls) /\
    Tab (with_table s nh len el1 ls) bs' /\ concat bs' ≡ₚ concat bs1.
Proof.
  intros HT Hu. set (s3 := with_table s (hnext_hash s) (length_ s) el1 (list_ s)) in *.
  assert (modify (fun s => set_elems s (u32 (elems_ s + 1))) s = Ret (tt, s3)) as Hm by (unfold modify; rewrite Hu; by destruct s).
  mstep Hm. mstep (get_eq s3). destruct (length_ s3 <? elems_ s3).
  - destruct (Resize_spec s3 bs1 HT) as (nh & len & ls & bs' & Hr & HT' & Hp' & _). mstep Hr. by exists nh, len, ls, bs'.
  - do 3 eexists. exists bs1. split; [reflexivity|]. by split.
Qed.

Lemma table_Insert_spec s bs e d :
  Tab s bs -> hdata s !! e = Some d -> table_entry s e -> e ∉ concat bs ->
  zlen (concat bs) + 1 < 2 ^ 30 ->
  exists old nh len el ls bs', table_Insert e s = Ret (old, with_table s nh len el ls) /\
    Tab (with_table s nh len el ls) bs' /\
    match old with
    | None => concat bs' ≡ₚ e :: concat bs /\
        forall x, x ∈ concat bs -> ~ matches s (key_data d) (hash d) x
    | Some o => matches s (key_data d) (hash d) o /\
        exists rest, concat bs ≡ₚ o :: rest /\ concat bs' ≡ₚ e :: rest
    end.
Proof.
  intros HT Hd He Hne Hbd. pose proof He as (d' & Hd' & Hh & nx & Hnx & Hnx'). simplify_eq.
  destruct (FindPointer_spec s bs (key_data d) (hash d) HT ltac:(lia))
    as (i & p & l1 & l2 & Hb & Hi & Hp & Hc & Hf & Hyes & Hno).
  destruct (load_slot_after s i p l1 l2 Hp Hc) as (q & Hq & Hcq & ->).
  unfold table_Insert. mstep (load_eq hdata e d s Hd). mstep (key_eq s e d nx Hd Hnx Hnx').
  mstep Hf. mstep Hq.
  assert (exists n, (match list.head l2 with None => mret None | Some o => load hnext_hash o end) s
            = Ret (n, s) /\ chain (hnext_hash s) n (tail l2)) as (n & Hn & Hcn).
  { destruct l2 as [|o l2]; [by exists None|]. simpl in *. destruct Hcq as (_ & n & Hn & Hcn). exists n. split; [by apply load_eq|done]. }
  mstep Hn. set (nh0 := <[e := n]> (hnext_hash s)). set (s1 := set_next_hash s nh0).
  assert (store_slot (NextHash e) n s = Ret (tt, s1)) as Hs1 by done. mstep Hs1.
  mstep (store_slot_after s1 i p l1 (Some e) Hp).
  destruct (concat_insert_perm bs i l1 l2 (e :: tail l2) Hb) as (rest & Hp1 & Hp2).
  pose proof (insert_elems s bs e d i p l1 l2 rest HT Hd He Hne Hb Hi Hp Hyes Hno Hp1 Hp2) as Hel1.
  pose proof (insert_tab s bs e d i p l1 l2 rest HT Hd He Hne Hb Hi Hp Hyes Hno Hp1 Hp2 n Hcn Hbd) as HT1. fold nh0 in HT1.
  set (bs1 := <[i := l1 ++ e :: tail l2]> bs) in *. destruct l2 as [|o l2]; simpl tail in *.
  - change (list.head (@nil loc)) with (@None loc). cbv iota. set (s2 := with_table s1 _ _ _ _).
    destruct (table_grow_spec s2 (zlen (concat bs1)) bs1 HT1) as (nh & len & ls & bs' & Eg & HT' & Hp').
    { unfold s2. simpl. rewrite u32_small; [by rewrite Hel1|]. rewrite (tab_elems _ _ HT). zlen_pos. lia. }
    exists None, nh, len, (zlen (concat bs1)), ls, bs'. split; [exact Eg|]. split; [exact HT'|].
    split; [by rewrite Hp', Hp2, Hp1|]. intros x Hx. by apply Hno.
  - change (list.head (o :: l2)) with (Some o). cbv iota.
    exists (Some o), (splice_nh nh0 l1 (Some e)), (length_ s), (zlen (concat bs1)), (<[i := splice_ptr p l1 (Some e)]> (list_ s)), bs1.
    split; [by rewrite Hel1|]. split; [exact HT1|]. split; [by eapply Hyes|]. exists (l2 ++ rest). split; [done|]. by rewrite Hp2.
Qed.
