(* ===== verification/LruList.v ===== *)
(** * LruList: the LRU list of a shard

    The doubly linked ring through [lru_] as a list of handles, oldest first, divided
    into the low-priority part and the high-priority pool: [Lst s low high]. *)

From Stdlib Require Import Floats.SpecFloat.
From stdpp Require Import gmap.
From S2P Require Import Prelude.
From S2P Require Import Slice.
From S2P Require Import LruCache.
From S2P Require Import LruTable.

(** ** Flags *)

Lemma has_flag_testbit f i : 0 <= i -> has_flag f (2 ^ i) = Z.testbit f i.
Proof.
  intros Hi. unfold has_flag.
  assert (Z.land f (2 ^ i) = if Z.testbit f i then 2 ^ i else 0) as ->.
  { apply Z.bits_inj'. intros j Hj. rewrite Z.land_spec, Z.pow2_bits_eqb by done.
    destruct (Z.eqb_spec i j) as [<-|Hne].
    - destruct (Z.testbit f i); rewrite ?Z.pow2_bits_true, ?Z.bits_0; done.
    - rewrite andb_false_r. destruct (Z.testbit f i); [|by rewrite Z.bits_0].
      by rewrite Z.pow2_bits_false. }
  pose proof (Z.pow_pos_nonneg 2 i ltac:(lia) Hi). destruct (Z.testbit f i); lia.
Qed.

Lemma has_put_flag f i j b :
  0 <= i -> 0 <= j -> has_flag (put_flag f (2 ^ i) b) (2 ^ j) = if i =? j then b else has_flag f (2 ^ j).
Proof.
  intros Hi Hj. rewrite !has_flag_testbit by done. unfold put_flag. destruct b.
  - rewrite Z.lor_spec, Z.pow2_bits_eqb by done. destruct (i =? j); [by rewrite orb_true_r|by rewrite orb_false_r].
  - rewrite Z.land_spec, Z.lnot_spec, Z.pow2_bits_eqb by done.
    destruct (i =? j); [by rewrite andb_false_r|by rewrite andb_true_r].
Qed.

Lemma put_flag_1 f b : has_flag (put_flag f 1 b) 1 = b /\ has_flag (put_flag f 1 b) 2 = has_flag f 2 /\
  has_flag (put_flag f 1 b) 4 = has_flag f 4.
Proof. split_and!; [apply (has_put_flag f 0 0)|apply (has_put_flag f 0 1)|apply (has_put_flag f 0 2)]; done. Qed.
Lemma put_flag_2 f b : has_flag (put_flag f 2 b) 1 = has_flag f 1 /\ has_flag (put_flag f 2 b) 2 = b /\
  has_flag (put_flag f 2 b) 4 = has_flag f 4.
Proof. split_and!; [apply (has_put_flag f 1 0)|apply (has_put_flag f 1 1)|apply (has_put_flag f 1 2)]; done. Qed.
Lemma put_flag_4 f b : has_flag (put_flag f 4 b) 1 = has_flag f 1 /\ has_flag (put_flag f 4 b) 2 = has_flag f 2 /\
  has_flag (put_flag f 4 b) 4 = b.
Proof. split_and!; [apply (has_put_flag f 2 0)|apply (has_put_flag f 2 1)|apply (has_put_flag f 2 2)]; done. Qed.

(** ** Doubles *)

Definition double_nonneg (f : double) : Prop :=
  match f with
  | S754_infinity true | S754_finite true _ _ => False
  | _ => True
  end.

Lemma zero_not_gt f : double_nonneg f -> double_gt (double_of_size_t 0) f = false.
Proof. by destruct f as [[]|[]| |[] ? ?]. Qed.

Lemma binary_round_aux_nonneg m e loc : double_nonneg (binary_round_aux 53 1024 false m e loc).
Proof.
  unfold binary_round_aux. destruct (shr_fexp _ _ _ _ _) as [mrs e1].
  destruct (shr_fexp _ _ _ _ _) as [mrs' e2]. destruct (shr_m mrs'); simpl; try done.
  by destruct (e2 <=? _).
Qed.

Lemma double_of_size_t_nonneg z : 0 <= z -> double_nonneg (double_of_size_t z).
Proof.
  intros Hz. unfold double_of_size_t, binary_normalize. destruct z as [|p|p]; [done| |lia].
  unfold binary_round. destruct (shl_align _ _ _). apply binary_round_aux_nonneg.
Qed.

Lemma double_mul_nonneg a b : double_nonneg a -> double_nonneg b -> double_nonneg (double_mul a b).
Proof.
  unfold double_mul. destruct a as [[]|[]| |[] ? ?], b as [[]|[]| |[] ? ?]; simpl; try done.
  intros _ _. apply binary_round_aux_nonneg.
Qed.

(** ** Rings *)

(** Following the map [m] from [a] leads through [l] to [z]. *)
Fixpoint seg (m : gmap loc ptr) (a : loc) (l : list loc) (z : loc) : Prop :=
  match l with
  | [] => m !! a = Some (Some z)
  | x :: l' => m !! a = Some (Some x) /\ seg m x l' z
  end.

Definition lastd (a : loc) (l : list loc) : loc := default a (list.last l).
Definition hdd (z : loc) (l : list loc) : loc := default z (list.head l).

Lemma lastd_cons a x l : lastd a (x :: l) = lastd x l.
Proof. unfold lastd. rewrite last_cons. by destruct (list.last l). Qed.
Lemma lastd_elem a l : lastd a l ∈ a :: l.
Proof. unfold lastd. destruct (list.last l) eqn:E; simpl; [apply last_Some_elem_of in E|]; inlist. Qed.
Lemma hdd_elem z l : hdd z l ∈ z :: l.
Proof. unfold hdd. destruct l; simpl; inlist. Qed.
Lemma lastd_reverse a l : lastd a (reverse l) = hdd a l.
Proof. unfold lastd, hdd. by rewrite last_reverse. Qed.
Lemma hdd_reverse a l : hdd a (reverse l) = lastd a l.
Proof. unfold lastd, hdd. by rewrite head_reverse. Qed.

Lemma seg_head m a l z : seg m a l z -> m !! a = Some (Some (hdd z l)).
Proof. destruct l; simpl; [done|]. by intros [? _]. Qed.
Lemma seg_last m a l z : seg m a l z -> m !! lastd a l = Some (Some z).
Proof.
  revert a; induction l as [|x l IH]; intros a Hs; [done|]. destruct Hs as [_ Hs].
  rewrite lastd_cons. by apply IH.
Qed.
Lemma seg_frame m a l z y v : y ∉ a :: l -> seg m a l z -> seg (<[y := v]> m) a l z.
Proof.
  revert a; induction l as [|x l IH]; intros a Hy Hs; simpl in *.
  - rewrite lookup_insert_ne; [done|]. intros ->. apply Hy. inlist.
  - destruct Hs as [Hx Hs]. split.
    + rewrite lookup_insert_ne; [done|]. intros ->. apply Hy. inlist.
    + apply IH; [|done]. intros Hi. apply Hy. inlist.
Qed.
Lemma seg_app m a l1 x l2 z : seg m a (l1 ++ x :: l2) z <-> seg m a l1 x /\ seg m x l2 z.
Proof.
  revert a; induction l1 as [|y l1 IH]; intros a; simpl; [done|]. rewrite IH. tauto.
Qed.
Lemma seg_relink m a l z z' :
  NoDup (a :: l) -> seg m a l z -> seg (<[lastd a l := Some z']> m) a l z'.
Proof.
  revert a; induction l as [|x l IH]; intros a Hnd Hs.
  - simpl. by rewrite lookup_insert_eq.
  - destruct Hs as [Hx Hs]. apply list.NoDup_cons in Hnd as [Ha Hnd]. rewrite lastd_cons.
    split; [|by apply IH]. rewrite lookup_insert_ne; [done|]. intros He.
    apply Ha. rewrite <- He. apply lastd_elem.
Qed.

Lemma seg_remove m a l1 e l2 :
  NoDup (a :: l1 ++ e :: l2) -> seg m a (l1 ++ e :: l2) a ->
  m !! e = Some (Some (hdd a l2)) /\ m !! lastd a l1 = Some (Some e) /\
  seg (<[lastd a l1 := Some (hdd a l2)]> m) a (l1 ++ l2) a.
Proof.
  intros Hnd Hs. apply seg_app in Hs as [Hs1 Hs2]. split; [by apply seg_head|].
  split; [by apply seg_last|].
  assert (NoDup (a :: l1)) as Hnd1.
  { apply list.NoDup_cons in Hnd as [Ha Hnd]. apply list.NoDup_app in Hnd as (Hnd & _ & _).
    apply list.NoDup_cons. split; [|done]. intros Hi. apply Ha. inlist. }
  destruct l2 as [|x l2]; unfold hdd; simpl.
  - rewrite app_nil_r. by apply seg_relink with e.
  - apply seg_app. split; [by apply seg_relink with e|].
    destruct Hs2 as [_ Hs2]. apply seg_frame; [|done]. intros Hi.
    pose proof (lastd_elem a l1) as Hl.
    apply list.NoDup_cons in Hnd as [Ha Hnd]. apply list.NoDup_app in Hnd as (_ & Hd & _).
    apply elem_of_cons in Hl as [Hl|Hl].
    + rewrite Hl in Hi. apply Ha. inlist.
    + apply (Hd _ Hl). inlist.
Qed.

Lemma seg_insert m a l1 e l2 :
  NoDup (a :: l1 ++ e :: l2) -> seg m a (l1 ++ l2) a ->
  m !! lastd a l1 = Some (Some (hdd a l2)) /\
  seg (<[lastd a l1 := Some e]> (<[e := Some (hdd a l2)]> m)) a (l1 ++ e :: l2) a.
Proof.
  intros Hnd Hs.
  assert (seg m a l1 (hdd a l2) /\ (l2 <> [] -> seg m (hdd a l2) (tail l2) a)) as [Hs1 Hs2].
  { destruct l2 as [|x l2]; simpl; [by rewrite app_nil_r in Hs|]. apply seg_app in Hs as [? ?]. done. }
  assert ((e ∉ a :: l1) /\ (e ∉ l2) /\ NoDup (a :: l1) /\ (lastd a l1 ∉ e :: l2)) as (He1 & He2 & Hnd1 & Hla).
  { apply list.NoDup_cons in Hnd as [Ha Hnd]. apply list.NoDup_app in Hnd as (Hn1 & Hd & Hn2).
    apply list.NoDup_cons in Hn2 as [He2 _]. split_and!.
    - intros Hi. apply elem_of_cons in Hi as [->|Hi]; [apply Ha; inlist|]. apply (Hd e Hi). inlist.
    - done.
    - apply list.NoDup_cons. split; [|done]. intros Hi. apply Ha. inlist.
    - intros Hi. pose proof (lastd_elem a l1) as Hl. apply elem_of_cons in Hl as [Hl|Hl].
      + rewrite Hl in Hi. apply Ha. inlist.
      + by apply (Hd _ Hl). }
  split; [by apply seg_last|]. apply seg_app. split.
  - apply seg_relink with (hdd a l2); [done|]. by apply seg_frame.
  - apply seg_frame; [done|]. destruct l2 as [|x l2]; simpl; [by rewrite lookup_insert_eq|].
    rewrite lookup_insert_eq. split; [done|]. apply seg_frame; [done|]. by apply Hs2.
Qed.

(** ** The list relation *)

Definition charge_at (s : Shard) (x : loc) : Z :=
  match hdata s !! x with Some d => charge d | None => 0 end.
Definition csum (s : Shard) (l : list loc) : Z := foldr (fun x t => charge_at s x + t) 0 l.

(** The only members that the list operations change. *)
Definition with_list (s : Shard) fl n p lu pu lo : Shard :=
  set_low_pri (set_pool_usage (set_lru_usage (set_prev (set_next (set_flags s fl) n) p) lu) pu) lo.

(** [pend] is the part of the charges that [lru_usage_] does not count yet. *)
Record LstP (pend : Z) (s : Shard) (low high : list loc) : Prop := {
  l_next : seg (hnext s) lru_ (low ++ high) lru_;
  l_prev : seg (hprev s) lru_ (reverse (low ++ high)) lru_;
  l_nodup : NoDup (lru_ :: low ++ high);
  l_low_pri : lru_low_pri_ s = lastd lru_ low;
  l_off : forall x, x ∉ lru_ :: low ++ high -> is_Some (hdata s !! x) ->
    hnext s !! x = Some None /\ hprev s !! x = Some None;
  l_data : forall x, x ∈ low ++ high -> is_Some (hdata s !! x);
  l_charge : forall x d, hdata s !! x = Some d -> 0 <= charge d;
  l_flags : forall x, is_Some (hdata s !! x) -> is_Some (hflags s !! x);
  l_pool_bit : forall x f, x ∈ low ++ high -> hflags s !! x = Some f ->
    (x ∈ high <-> has_flag f 4 = true);
  l_usage : lru_usage_ s = csum s (low ++ high) - pend;
  l_usage_bound : csum s (low ++ high) < 2 ^ 64;
  l_pool : high_pri_pool_usage_ s = csum s high;
  l_cap : double_nonneg (high_pri_pool_capacity_ s);
}.
Abbreviation Lst := (LstP 0).

Lemma csum_app s l k : csum s (l ++ k) = csum s l + csum s k.
Proof. induction l as [|x l IH]; simpl; [done|]. rewrite IH. lia. Qed.
Lemma csum_perm s l k : l ≡ₚ k -> csum s l = csum s k.
Proof. induction 1; simpl; lia. Qed.
Lemma csum_nonneg s l : (forall x d, hdata s !! x = Some d -> 0 <= charge d) -> 0 <= csum s l.
Proof.
  intros Hc. induction l as [|x l IH]; simpl; [done|]. unfold charge_at.
  destruct (hdata s !! x) eqn:E; [apply Hc in E|]; lia.
Qed.
Lemma csum_ext s s' l : (forall x, x ∈ l -> charge_at s' x = charge_at s x) -> csum s' l = csum s l.
Proof.
  induction l as [|x l IH]; intros Hag; simpl; [done|]. rewrite Hag, IH; [done| |inlist].
  intros y Hy. apply Hag. inlist.
Qed.

Lemma csum_data s s' l : hdata s' = hdata s -> csum s' l = csum s l.
Proof. intros Hd. apply csum_ext. intros x _. unfold charge_at. by rewrite Hd. Qed.

Lemma csum_sub s l k : (forall x d, hdata s !! x = Some d -> 0 <= charge d) -> NoDup l ->
  (forall x, x ∈ l -> x ∈ k) -> csum s l <= csum s k.
Proof.
  intros Hc Hnd Hsub. apply NoDup_submseteq in Hsub; [|done]. apply submseteq_Permutation in Hsub as [m Hm].
  rewrite (csum_perm _ _ _ Hm), csum_app. pose proof (csum_nonneg s m Hc). lia.
Qed.

(** Where an entry of the list is, and what its removal leaves. *)
Lemma list_split (low high : list loc) e :
  e ∈ low ++ high -> exists l1 l2 low' high', low ++ high = l1 ++ e :: l2 /\ low' ++ high' = l1 ++ l2 /\
    ((exists m1 m2, low = m1 ++ e :: m2 /\ low' = m1 ++ m2 /\ high' = high /\ l1 = m1 /\ l2 = m2 ++ high) \/
     (exists m1 m2, high = m1 ++ e :: m2 /\ high' = m1 ++ m2 /\ low' = low /\ l1 = low ++ m1 /\ l2 = m2)).
Proof.
  intros He. apply elem_of_app in He as [He|He]; apply list_elem_of_split in He as (m1 & m2 & ->).
  - exists m1, (m2 ++ high), (m1 ++ m2), high. rewrite <- !app_assoc. split_and!; [done..|].
    left. by exists m1, m2.
  - exists (low ++ m1), m2, low, (m1 ++ m2). rewrite <- !app_assoc. split_and!; [done..|].
    right. by exists m1, m2.
Qed.

Lemma lastd_app_mid a m1 e m2 :
  NoDup (a :: m1 ++ e :: m2) ->
  (if bool_decide (lastd a (m1 ++ e :: m2) = e) then lastd a m1 else lastd a (m1 ++ e :: m2)) =
  lastd a (m1 ++ m2).
Proof.
  intros Hnd. unfold lastd. rewrite !last_app, last_cons.
  destruct (list.last m2) as [y|] eqn:E; simpl.
  - rewrite bool_decide_false; [done|]. intros ->. apply last_Some_elem_of in E.
    apply list.NoDup_cons in Hnd as [_ Hnd]. apply list.NoDup_app in Hnd as (_ & _ & Hnd).
    by apply list.NoDup_cons in Hnd as [? _].
  - by rewrite bool_decide_true.
Qed.

(** What the list operations leave alone: everything but the links, the pool bit and the
    accounts of the list. *)
Record list_frame (s s' : Shard) : Prop := {
  lf_data : hdata s' = hdata s;
  lf_refs : hrefs s' = hrefs s;
  lf_nh : hnext_hash s' = hnext_hash s;
  lf_del : deletions s' = deletions s;
  lf_length : length_ s' = length_ s;
  lf_elems : elems_ s' = elems_ s;
  lf_list : list_ s' = list_ s;
  lf_cap : capacity_ s' = capacity_ s;
  lf_usage : usage_ s' = usage_ s;
  lf_strict : strict_capacity_limit_ s' = strict_capacity_limit_ s;
  lf_ratio : high_pri_pool_ratio_ s' = high_pri_pool_ratio_ s;
  lf_hcap : high_pri_pool_capacity_ s' = high_pri_pool_capacity_ s;
  lf_dom : forall x, is_Some (hflags s' !! x) <-> is_Some (hflags s !! x);
  lf_flags : forall x f f', hflags s !! x = Some f -> hflags s' !! x = Some f' ->
    has_flag f' 1 = has_flag f 1 /\ has_flag f' 2 = has_flag f 2;
}.

Lemma list_frame_same s n p lu pu lo : list_frame s (with_list s (hflags s) n p lu pu lo).
Proof. constructor; try done. simpl. intros x f f' -> [= ->]. done. Qed.
Lemma list_frame_trans s1 s2 s3 : list_frame s1 s2 -> list_frame s2 s3 -> list_frame s1 s3.
Proof.
  intros H1 H2. destruct H1, H2. constructor; try congruence.
  - intros x. rewrite lf_dom1. apply lf_dom0.
  - intros x f f' Hf Hf'. destruct (proj2 (lf_dom0 x) ltac:(by eexists)) as [g Hg].
    destruct (lf_flags0 x f g Hf Hg), (lf_flags1 x g f' Hg Hf'). split; congruence.
Qed.

Lemma charge_at_eq s x d : hdata s !! x = Some d -> charge_at s x = charge d.
Proof. unfold charge_at. by intros ->. Qed.
Lemma csum_split s l1 x l2 d : hdata s !! x = Some d -> csum s (l1 ++ x :: l2) = charge d + csum s (l1 ++ l2).
Proof. intros Hd. rewrite !csum_app. simpl. rewrite (charge_at_eq _ _ _ Hd). lia. Qed.

(** The links of the neighbours, from the list. *)
Lemma ring_at s low high l1 e l2 :
  Lst s low high -> low ++ high = l1 ++ e :: l2 ->
  hnext s !! e = Some (Some (hdd lru_ l2)) /\ hprev s !! e = Some (Some (lastd lru_ l1)) /\
  hnext s !! lastd lru_ l1 = Some (Some e) /\ hprev s !! hdd lru_ l2 = Some (Some e) /\
  seg (<[lastd lru_ l1 := Some (hdd lru_ l2)]> (hnext s)) lru_ (l1 ++ l2) lru_ /\
  seg (<[hdd lru_ l2 := Some (lastd lru_ l1)]> (hprev s)) lru_ (reverse (l1 ++ l2)) lru_.
Proof.
  intros HL Hsp. pose proof (l_next _ _ _ _ HL) as Hn. pose proof (l_prev _ _ _ _ HL) as Hp.
  pose proof (l_nodup _ _ _ _ HL) as Hnd.
  rewrite Hsp in Hn, Hp, Hnd. rewrite reverse_app, reverse_cons, <- app_assoc in Hp. simpl in Hp.
  assert (NoDup (lru_ :: reverse l2 ++ e :: reverse l1)) as Hndr.
  { eapply NoDup_Permutation_proper; [|exact Hnd]. constructor.
    rewrite !reverse_Permutation. solve_Permutation. }
  destruct (seg_remove _ _ _ _ _ Hnd Hn) as (Hne & Hnp & Hn').
  destruct (seg_remove _ _ _ _ _ Hndr Hp) as (Hpe & Hpn & Hp').
  rewrite lastd_reverse, hdd_reverse in *. rewrite reverse_app. done.
Qed.

Lemma elem_mid {A} (l1 : list A) x l2 y : y ∈ l1 ++ x :: l2 -> y <> x -> y ∈ l1 ++ l2.
Proof. intros Hy Hne. inlist. Qed.

(** Unlinking the entry between [l1] and [l2]: the list without it. *)
Lemma Lst_unlink s low high low' high' l1 e l2 d f :
  Lst s low high -> low ++ high = l1 ++ e :: l2 -> low' ++ high' = l1 ++ l2 ->
  (forall x, x <> e -> (x ∈ high' <-> x ∈ high)) ->
  hdata s !! e = Some d -> hflags s !! e = Some f ->
  csum s high = csum s high' + (if has_flag f 4 then charge d else 0) ->
  Lst (with_list s (hflags s)
         (<[e := None]> (<[lastd lru_ l1 := Some (hdd lru_ l2)]> (hnext s)))
         (<[e := None]> (<[hdd lru_ l2 := Some (lastd lru_ l1)]> (hprev s)))
         (lru_usage_ s - charge d) (csum s high') (lastd lru_ low')) low' high'.
Proof.
  intros HL Hsp Hsp' Hhigh Hd Hf Hpool.
  destruct (ring_at _ _ _ _ _ _ HL Hsp) as (_ & _ & _ & _ & Hn & Hp).
  pose proof (l_nodup _ _ _ _ HL) as Hnd. rewrite Hsp in Hnd.
  assert (NoDup (e :: lru_ :: l1 ++ l2)) as Hnd'.
  { eapply NoDup_Permutation_proper; [|exact Hnd]. solve_Permutation. }
  apply list.NoDup_cons in Hnd' as [He Hnd'].
  constructor; simpl; rewrite ?Hsp'.
  - by apply seg_frame.
  - apply seg_frame; [|done]. intros Hi. apply He. apply elem_of_cons in Hi as [->|Hi]; [inlist|].
    rewrite elem_of_reverse in Hi. inlist.
  - done.
  - done.
  - intros x Hx Hdx. destruct (decide (x = e)) as [->|Hne]; [by rewrite !lookup_insert_eq|].
    rewrite !(lookup_insert_ne _ e) by done.
    pose proof (lastd_elem lru_ l1). pose proof (hdd_elem lru_ l2).
    rewrite !lookup_insert_ne by (intros Heq; rewrite <- Heq in Hx; apply Hx; inlist).
    apply (l_off _ _ _ _ HL); [|done]. rewrite Hsp. intros Hi. apply Hx. inlist.
  - intros x Hx. apply (l_data _ _ _ _ HL). rewrite Hsp. inlist.
  - apply (l_charge _ _ _ _ HL).
  - apply (l_flags _ _ _ _ HL).
  - intros x g Hx Hg. rewrite Hhigh by (intros ->; apply He; inlist).
    apply (l_pool_bit _ _ _ _ HL); [rewrite Hsp; inlist|done].
  - rewrite (csum_data s (with_list _ _ _ _ _ _ _)) by done. rewrite (l_usage _ _ _ _ HL), Hsp, (csum_split _ _ _ _ _ Hd). lia.
  - rewrite (csum_data s (with_list _ _ _ _ _ _ _)) by done.
    pose proof (l_usage_bound _ _ _ _ HL) as Hb. rewrite Hsp, (csum_split _ _ _ _ _ Hd) in Hb.
    pose proof (l_charge _ _ _ _ HL _ _ Hd). lia.
  - by rewrite (csum_data s (with_list _ _ _ _ _ _ _)).
  - apply (l_cap _ _ _ _ HL).
Qed.

Lemma M_bind_as {A B} (m m' : M A) (k : A -> M B) s s' : m s = m' s' -> (m ≫= k) s = (m' ≫= k) s'.
Proof. unfold mbind, M_bind. by intros ->. Qed.
Lemma deref_eq l s : deref (Some l) s = Ret (l, s).
Proof. done. Qed.

Lemma modify_eq f s : modify f s = Ret (tt, f s).
Proof. done. Qed.
Lemma InHighPriPool_eq e f s : hflags s !! e = Some f -> InHighPriPool e s = Ret (has_flag f 4, s).
Proof. intros Hf. unfold InHighPriPool. by mstep (load_eq hflags e f s Hf). Qed.
Lemma InCache_eq e f s : hflags s !! e = Some f -> InCache e s = Ret (has_flag f 1, s).
Proof. intros Hf. unfold InCache. by mstep (load_eq hflags e f s Hf). Qed.
Lemma IsHighPri_eq e f s : hflags s !! e = Some f -> IsHighPri e s = Ret (has_flag f 2, s).
Proof. intros Hf. unfold IsHighPri. by mstep (load_eq hflags e f s Hf). Qed.
Lemma SetInHighPriPool_eq e b f s : hflags s !! e = Some f ->
  SetInHighPriPool e b s = Ret (tt, set_flags s (<[e := put_flag f 4 b]> (hflags s))).
Proof. intros Hf. unfold SetInHighPriPool. mstep (load_eq hflags e f s Hf). apply store_eq. by eexists. Qed.
Lemma SetInCache_eq e b f s : hflags s !! e = Some f ->
  SetInCache e b s = Ret (tt, set_flags s (<[e := put_flag f 1 b]> (hflags s))).
Proof. intros Hf. unfold SetInCache. mstep (load_eq hflags e f s Hf). apply store_eq. by eexists. Qed.
Lemma SetPriority_eq e p f s : hflags s !! e = Some f -> SetPriority e p s =
  Ret (tt, set_flags s (<[e := put_flag f 2 (match p with HIGH => true | LOW => false end)]> (hflags s))).
Proof. intros Hf. unfold SetPriority. mstep (load_eq hflags e f s Hf). apply store_eq. by eexists. Qed.

(** Step over one operation, with the facts about the state in the context. *)
Ltac mnext :=
  lazymatch goal with
  | |- (load ?fl ?p ≫= _) ?s' = _ => erewrite (M_bind_ret (load fl p)) by (apply load_eq; eassumption)
  | |- (store ?fl ?st ?p ?v ≫= _) ?s' = _ =>
      erewrite (M_bind_ret (store fl st p v)) by (apply store_eq; first [eassumption | eexists; eassumption])
  | |- (get ≫= _) ?s' = _ => mstep (get_eq s')
  | |- (modify ?f ≫= _) ?s' = _ => mstep (modify_eq f s')
  | |- (deref (Some ?l) ≫= _) ?s' = _ => mstep (deref_eq l s')
  | |- (InHighPriPool ?e ≫= _) ?s' = _ => erewrite (M_bind_ret (InHighPriPool e)) by (eapply InHighPriPool_eq; eassumption)
  | |- (InCache ?e ≫= _) ?s' = _ => erewrite (M_bind_ret (InCache e)) by (eapply InCache_eq; eassumption)
  | |- (IsHighPri ?e ≫= _) ?s' = _ => erewrite (M_bind_ret (IsHighPri e)) by (eapply IsHighPri_eq; eassumption)
  | |- (SetInHighPriPool ?e ?b ≫= _) ?s' = _ =>
      erewrite (M_bind_ret (SetInHighPriPool e b)) by (eapply SetInHighPriPool_eq; eassumption)
  | |- (SetInCache ?e ?b ≫= _) ?s' = _ =>
      erewrite (M_bind_ret (SetInCache e b)) by (eapply SetInCache_eq; eassumption)
  | |- (massert ?b ≫= _) ?s' = _ => erewrite (M_bind_ret (massert b)) by (apply massert_eq; first [reflexivity | done])
  end; cbv beta iota.

(** [LRU_Remove], step by step. *)
Lemma LRU_Remove_steps s e nx pv d f :
  hnext s !! e = Some (Some nx) -> hprev s !! e = Some (Some pv) ->
  is_Some (hprev s !! nx) -> is_Some (hnext s !! pv) ->
  hdata s !! e = Some d -> hflags s !! e = Some f ->
  0 <= lru_usage_ s - charge d < 2 ^ 64 ->
  (has_flag f 4 = true -> 0 <= charge d <= high_pri_pool_usage_ s /\ high_pri_pool_usage_ s < 2 ^ 64) ->
  LRU_Remove e s = Ret (tt, with_list s (hflags s)
    (<[e := None]> (<[pv := Some nx]> (hnext s))) (<[e := None]> (<[nx := Some pv]> (hprev s)))
    (lru_usage_ s - charge d) (high_pri_pool_usage_ s - if has_flag f 4 then charge d else 0)
    (if bool_decide (lru_low_pri_ s = e) then pv else lru_low_pri_ s)).
Proof.
  intros Hn Hp Hnx Hpv Hd Hf Hu Hpool. unfold LRU_Remove.
  mstep (load_eq hnext e _ s Hn). mstep (load_eq hprev e _ s Hp).
  assert (is_Some (<[pv := Some nx]> (hnext s) !! e)) as He1.
  { destruct (decide (pv = e)) as [->|]; [rewrite lookup_insert_eq|rewrite lookup_insert_ne by done]; by eexists. }
  assert (is_Some (<[nx := Some pv]> (hprev s) !! e)) as He2.
  { destruct (decide (nx = e)) as [->|]; [rewrite lookup_insert_eq|rewrite lookup_insert_ne by done]; by eexists. }
  set (lo := if bool_decide (lru_low_pri_ s = e) then pv else lru_low_pri_ s).
  mstep (massert_eq (bool_decide (Some nx <> None)) s eq_refl).
  mstep (massert_eq (bool_decide (Some pv <> None)) s eq_refl).
  mstep (deref_eq nx s). mstep (deref_eq pv s). mstep (get_eq s).
  assert ((if bool_decide (lru_low_pri_ s = e) then modify (fun s => set_low_pri s pv) else mret tt) s =
    Ret (tt, set_low_pri s lo)) as E.
  { unfold lo. case_bool_decide; [done|]. by destruct s. }
  mstep E.
  do 7 mnext. unfold with_list, set_flags, upd_heap. simpl.
  rewrite u64_small by lia. destruct (has_flag f 4).
  - destruct (Hpool eq_refl) as [Hc Hb]. unfold mbind, M_bind, get, massert. simpl.
    rewrite (proj2 (Z.leb_le _ _)) by lia. unfold modify. simpl. rewrite u64_small by lia. done.
  - unfold mret, M_ret. rewrite Z.sub_0_r. done.
Qed.

(** Where the removed entry was decides what happens to the pool and its boundary. *)
Lemma removal_place s low high e l1 l2 low' high' d f :
  Lst s low high -> hdata s !! e = Some d -> hflags s !! e = Some f ->
  (e ∈ high <-> has_flag f 4 = true) ->
  (exists m1 m2, low = m1 ++ e :: m2 /\ low' = m1 ++ m2 /\ high' = high /\ l1 = m1 /\ l2 = m2 ++ high) \/
  (exists m1 m2, high = m1 ++ e :: m2 /\ high' = m1 ++ m2 /\ low' = low /\ l1 = low ++ m1 /\ l2 = m2) ->
  csum s high = csum s high' + (if has_flag f 4 then charge d else 0) /\
  (if bool_decide (lru_low_pri_ s = e) then lastd lru_ l1 else lru_low_pri_ s) = lastd lru_ low' /\
  (forall x, x <> e -> (x ∈ high' <-> x ∈ high)).
Proof.
  intros HL Hd Hf Hbit Hwhere. pose proof (l_nodup _ _ _ _ HL) as Hnd. rewrite (l_low_pri _ _ _ _ HL).
  destruct Hwhere as [(m1 & m2 & -> & -> & -> & -> & ->)|(m1 & m2 & -> & -> & -> & -> & ->)].
  - apply list.NoDup_cons in Hnd as [Hl Hnd]. apply list.NoDup_app in Hnd as (Hnd & Hdis & _).
    assert (has_flag f 4 = false) as ->.
    { destruct (has_flag f 4) eqn:E; [|done]. exfalso. apply (Hdis e); [inlist|by apply Hbit]. }
    split_and!; [lia| |done]. apply lastd_app_mid. apply list.NoDup_cons. split; [|done].
    intros Hi. apply Hl. inlist.
  - rewrite (proj1 Hbit) by inlist. split_and!.
    + rewrite Z.add_comm. by apply csum_split.
    + rewrite bool_decide_false; [done|]. intros He. pose proof (lastd_elem lru_ low) as Hl.
      rewrite He in Hl. apply list.NoDup_cons in Hnd as [H1 Hnd].
      apply list.NoDup_app in Hnd as (_ & Hdis & _).
      apply elem_of_cons in Hl as [Hl|Hl]; [subst e; apply H1; rewrite !elem_of_app, elem_of_cons; auto|]. apply (Hdis _ Hl). inlist.
    + intros x Hne. split; intros Hx; inlist.
Qed.

(** Taking an entry out of the list. *)
Lemma LRU_Remove_spec s low high e :
  Lst s low high -> e ∈ low ++ high ->
  exists s' low' high' l1 l2,
    LRU_Remove e s = Ret (tt, s') /\ Lst s' low' high' /\ list_frame s s' /\ hflags s' = hflags s /\
    low ++ high = l1 ++ e :: l2 /\ low' ++ high' = l1 ++ l2.
Proof.
  intros HL He. destruct (list_split low high e He) as (l1 & l2 & low' & high' & Hsp & Hsp' & Hwhere).
  destruct (l_data _ _ _ _ HL e He) as [d Hd]. destruct (l_flags _ _ _ _ HL e ltac:(by eexists)) as [f Hf].
  pose proof (l_pool_bit _ _ _ _ HL e f He Hf) as Hbit. pose proof (l_nodup _ _ _ _ HL) as Hnd.
  destruct (ring_at _ _ _ _ _ _ HL Hsp) as (Hne & Hpe & Hnp & Hpn & _ & _).
  pose proof (csum_nonneg s l1 (l_charge _ _ _ _ HL)). pose proof (csum_nonneg s l2 (l_charge _ _ _ _ HL)).
  pose proof (csum_nonneg s low (l_charge _ _ _ _ HL)). pose proof (csum_nonneg s high' (l_charge _ _ _ _ HL)).
  pose proof (l_usage _ _ _ _ HL) as Hu. pose proof (l_usage_bound _ _ _ _ HL). pose proof (l_pool _ _ _ _ HL) as Hpool.
  pose proof (l_charge _ _ _ _ HL _ _ Hd).
  assert (csum s high = csum s high' + (if has_flag f 4 then charge d else 0) /\
          (if bool_decide (lru_low_pri_ s = e) then lastd lru_ l1 else lru_low_pri_ s) = lastd lru_ low' /\
          (forall x, x <> e -> (x ∈ high' <-> x ∈ high))) as (Hh & Hlow & Hx).
  { eapply removal_place; eauto. }
  eexists _, low', high', l1, l2. split; [|split; [|split; [|split; [|done]]]].
  - eapply LRU_Remove_steps; eauto.
    + rewrite Hsp, (csum_split _ _ _ _ _ Hd), csum_app in *. lia.
    + intros Hb. rewrite Hb in Hh. rewrite csum_app in *. lia.
  - rewrite Hpool, Hh, Hlow. replace (csum s high' + _ - _) with (csum s high') by lia.
    by eapply Lst_unlink.
  - apply list_frame_same.
  - done.
Qed.

(** ** Keeping the pool within its capacity *)

Lemma SetFlag_frame s e f m b :
  (m = 1 \/ m = 2 \/ m = 4) -> hflags s !! e = Some f ->
  forall x g g', hflags s !! x = Some g -> <[e := put_flag f m b]> (hflags s) !! x = Some g' ->
  forall m', m' = 1 \/ m' = 2 \/ m' = 4 -> m' <> m \/ x <> e -> has_flag g' m' = has_flag g m'.
Proof.
  intros Hm Hf x g g' Hg Hg' m' Hm' Hne. destruct (decide (x = e)) as [->|Hx].
  - rewrite lookup_insert_eq in Hg'. assert (g = f) as -> by congruence. assert (g' = put_flag f m b) as -> by congruence.
    pose proof (put_flag_1 f b). pose proof (put_flag_2 f b). pose proof (put_flag_4 f b).
    destruct Hm as [-> | [-> | ->]], Hm' as [-> | [-> | ->]]; intuition congruence.
  - rewrite lookup_insert_ne in Hg' by done. congruence.
Qed.

Lemma is_Some_insert {A} (m : gmap loc A) e v x :
  is_Some (m !! e) -> is_Some (<[e := v]> m !! x) <-> is_Some (m !! x).
Proof.
  intros He. destruct (decide (x = e)) as [->|Hne].
  - rewrite lookup_insert_eq. split; [done|by eexists].
  - by rewrite lookup_insert_ne.
Qed.

Lemma set_bit4_frame s e f b n p lu pu lo :
  hflags s !! e = Some f -> list_frame s (with_list s (<[e := put_flag f 4 b]> (hflags s)) n p lu pu lo).
Proof.
  intros Hf. constructor; try done; simpl.
  - intros y. apply is_Some_insert. by eexists.
  - intros y g g' Hg Hg'. split; eapply (SetFlag_frame s e f 4 b); eauto.
Qed.

(** The oldest entry [x] of the pool moves to the low-priority part. *)
Lemma Lst_demote pend s low x high d f :
  LstP pend s low (x :: high) -> hdata s !! x = Some d -> hflags s !! x = Some f ->
  let s' := with_list s (<[x := put_flag f 4 false]> (hflags s)) (hnext s) (hprev s) (lru_usage_ s)
              (high_pri_pool_usage_ s - charge d) x in
  LstP pend s' (low ++ [x]) high /\ list_frame s s'.
Proof.
  intros HL Hd Hf s'. pose proof (l_nodup _ _ _ _ HL) as Hnd.
  assert ((low ++ [x]) ++ high = low ++ x :: high) as Happ by (by rewrite <- app_assoc).
  assert (forall y, csum s' y = csum s y) as Hcs by (intros; by apply csum_data).
  split.
  - constructor; rewrite ?Happ, ?Hcs; try apply HL.
    + unfold lastd. rewrite last_app. done.
    + intros y Hy. simpl. apply is_Some_insert; [by eexists|]. by apply (l_flags _ _ _ _ HL).
    + intros y g Hy Hg. simpl in Hg. destruct (decide (y = x)) as [->|Hne].
      * rewrite lookup_insert_eq in Hg. assert (g = put_flag f 4 false) as -> by congruence.
        rewrite (proj2 (proj2 (put_flag_4 f false))).
        split; [|done]. intros Hi. exfalso. apply list.NoDup_cons in Hnd as [_ Hnd].
        apply list.NoDup_app in Hnd as (_ & _ & Hnd). by apply list.NoDup_cons in Hnd as [? _].
      * rewrite lookup_insert_ne in Hg by done. rewrite <- (l_pool_bit _ _ _ _ HL y g Hy Hg). inlist.
    + simpl. rewrite (l_pool _ _ _ _ HL). simpl. rewrite (charge_at_eq _ _ _ Hd). lia.
  - by apply set_bit4_frame.
Qed.

Lemma MaintainPoolSize_step fuel pend s low x high d f :
  LstP pend s low (x :: high) -> hdata s !! x = Some d -> hflags s !! x = Some f ->
  double_gt (double_of_size_t (high_pri_pool_usage_ s)) (high_pri_pool_capacity_ s) = true ->
  MaintainPoolSize_loop (S fuel) s = MaintainPoolSize_loop fuel
    (with_list s (<[x := put_flag f 4 false]> (hflags s)) (hnext s) (hprev s) (lru_usage_ s)
       (high_pri_pool_usage_ s - charge d) x).
Proof.
  intros HL Hd Hf Hgt. pose proof (l_nodup _ _ _ _ HL) as Hnd.
  assert (hnext s !! lastd lru_ low = Some (Some x)) as Hn.
  { pose proof (l_next _ _ _ _ HL) as Hs. apply seg_app in Hs as [Hs _]. by apply seg_last in Hs. }
  assert (x <> lru_) as Hx by (intros ->; apply list.NoDup_cons in Hnd as [Hnd _]; apply Hnd; inlist).
  pose proof (csum_nonneg s high (l_charge _ _ _ _ HL)). pose proof (csum_nonneg s low (l_charge _ _ _ _ HL)).
  pose proof (l_usage_bound _ _ _ _ HL) as Hb. pose proof (l_charge _ _ _ _ HL _ _ Hd).
  pose proof (l_pool _ _ _ _ HL) as Hpool. rewrite csum_app in Hb. simpl in Hb, Hpool.
  rewrite (charge_at_eq _ _ _ Hd) in *.
  simpl. mnext. rewrite Hgt. rewrite (l_low_pri _ _ _ _ HL). mnext. mnext. mnext.
  erewrite (M_bind_ret (massert _)) by (apply massert_eq; lia). cbv beta iota.
  do 3 mnext. f_equal. unfold set_pool_usage, upd_ctl. simpl. rewrite u64_small by lia. done.
Qed.

Lemma MaintainPoolSize_loop_spec fuel pend s low high :
  LstP pend s low high -> (length high <= fuel)%nat ->
  exists s' high1 high2, high = high1 ++ high2 /\
    MaintainPoolSize_loop fuel s = Ret (tt, s') /\ LstP pend s' (low ++ high1) high2 /\ list_frame s s' /\
    lru_usage_ s' = lru_usage_ s /\
    double_gt (double_of_size_t (high_pri_pool_usage_ s')) (high_pri_pool_capacity_ s') = false.
Proof.
  revert s low high; induction fuel as [|fuel IH]; intros s low high HL Hfu.
  all: destruct (double_gt (double_of_size_t (high_pri_pool_usage_ s)) (high_pri_pool_capacity_ s)) eqn:Hgt.
  all: try solve [exists s, [], high; rewrite app_nil_r; split_and!; try done;
                  [simpl; mnext; by rewrite Hgt|by destruct s; apply list_frame_same]].
  all: destruct high as [|x high];
    [rewrite (l_pool _ _ _ _ HL), zero_not_gt in Hgt; [done|apply (l_cap _ _ _ _ HL)]|simpl in Hfu].
  1: lia.
  destruct (l_data _ _ _ _ HL x ltac:(inlist)) as [d Hd]. destruct (l_flags _ _ _ _ HL x ltac:(by eexists)) as [f Hf].
  destruct (Lst_demote _ _ _ _ _ _ _ HL Hd Hf) as [HL1 Hfr].
  destruct (IH _ _ _ HL1 ltac:(lia)) as (s' & h1 & h2 & -> & E & HL' & Hfr' & Hu & Hng).
  exists s', (x :: h1), h2. rewrite (MaintainPoolSize_step _ _ _ _ _ _ _ _ HL Hd Hf Hgt), E, <- app_assoc in *.
  split_and!; try done. by eapply list_frame_trans.
Qed.

Lemma list_fuel_enough pend s low high : LstP pend s low high -> (length (low ++ high) < list_fuel s)%nat.
Proof.
  intros HL. unfold list_fuel. pose proof (l_nodup _ _ _ _ HL) as Hnd.
  apply list.NoDup_cons in Hnd as [_ Hnd]. rewrite <- (size_dom (hdata s)), <- (size_list_to_set (C := gset loc) _ Hnd).
  apply Nat.lt_succ_r, subseteq_size. intros x Hx. apply elem_of_list_to_set in Hx.
  apply elem_of_dom. by apply (l_data _ _ _ _ HL).
Qed.

Lemma MaintainPoolSize_spec pend s low high :
  LstP pend s low high ->
  exists s' high1 high2, high = high1 ++ high2 /\
    MaintainPoolSize s = Ret (tt, s') /\ LstP pend s' (low ++ high1) high2 /\ list_frame s s' /\
    lru_usage_ s' = lru_usage_ s /\
    double_gt (double_of_size_t (high_pri_pool_usage_ s')) (high_pri_pool_capacity_ s') = false.
Proof.
  intros HL. change (MaintainPoolSize s) with (MaintainPoolSize_loop (list_fuel s) s).
  apply MaintainPoolSize_loop_spec; [done|].
  pose proof (list_fuel_enough _ _ _ _ HL) as Hf. rewrite length_app in Hf. lia.
Qed.

(** ** Adding an entry *)

(** Linking [e] between [l1] and [l2]; its charge is still to be counted. *)
Lemma Lst_link s low high low' high' l1 e l2 d f b :
  Lst s low high -> e ∉ lru_ :: low ++ high -> low ++ high = l1 ++ l2 -> low' ++ high' = l1 ++ e :: l2 ->
  (forall x, x <> e -> (x ∈ high' <-> x ∈ high)) -> (e ∈ high' <-> b = true) ->
  hdata s !! e = Some d -> hflags s !! e = Some f -> csum s (low ++ high) + charge d < 2 ^ 64 ->
  LstP (charge d) (with_list s (<[e := put_flag f 4 b]> (hflags s))
         (<[lastd lru_ l1 := Some e]> (<[e := Some (hdd lru_ l2)]> (hnext s)))
         (<[hdd lru_ l2 := Some e]> (<[e := Some (lastd lru_ l1)]> (hprev s)))
         (lru_usage_ s) (csum s high') (lastd lru_ low')) low' high'.
Proof.
  intros HL He Hsp Hsp' Hhigh Heb Hd Hf Hb. pose proof (l_next _ _ _ _ HL) as Hn. pose proof (l_prev _ _ _ _ HL) as Hp.
  pose proof (l_nodup _ _ _ _ HL) as Hnd. rewrite Hsp in *.
  assert (NoDup (lru_ :: l1 ++ e :: l2)) as Hnd1.
  { eapply (NoDup_Permutation_proper _ (e :: lru_ :: l1 ++ l2)); [solve_Permutation|]. by apply list.NoDup_cons. }
  assert (NoDup (lru_ :: reverse l2 ++ e :: reverse l1)) as Hnd2.
  { eapply NoDup_Permutation_proper; [|exact Hnd1]. constructor. rewrite !reverse_Permutation. solve_Permutation. }
  rewrite reverse_app in Hp.
  destruct (seg_insert _ _ _ _ _ Hnd1 Hn) as [_ Hn1]. destruct (seg_insert _ _ _ _ _ Hnd2 Hp) as [_ Hp1].
  rewrite lastd_reverse, hdd_reverse in Hp1.
  assert (forall l, csum (with_list s (<[e := put_flag f 4 b]> (hflags s))
         (<[lastd lru_ l1 := Some e]> (<[e := Some (hdd lru_ l2)]> (hnext s)))
         (<[hdd lru_ l2 := Some e]> (<[e := Some (lastd lru_ l1)]> (hprev s)))
         (lru_usage_ s) (csum s high') (lastd lru_ low')) l = csum s l) as Hcs by (intros; by apply csum_data).
  constructor; rewrite ?Hcs, ?Hsp', ?(csum_split _ _ _ _ _ Hd); simpl; try done.
  - by rewrite reverse_app, reverse_cons, <- app_assoc.
  - intros x Hx Hdx. rewrite !lookup_insert_ne; [|intros <-; apply Hx..].
    + apply (l_off _ _ _ _ HL); [|done]. rewrite Hsp. intros Hi. apply Hx. inlist.
    + inlist.
    + pose proof (hdd_elem lru_ l2). inlist.
    + inlist.
    + pose proof (lastd_elem lru_ l1). inlist.
  - intros x Hx. destruct (decide (x = e)) as [->|Hne]; [by eexists|].
    apply (l_data _ _ _ _ HL). rewrite Hsp. by eapply elem_mid.
  - apply (l_charge _ _ _ _ HL).
  - intros x Hx. apply is_Some_insert; [by eexists|]. by apply (l_flags _ _ _ _ HL).
  - intros x g Hx Hg. destruct (decide (x = e)) as [->|Hne].
    + rewrite lookup_insert_eq in Hg. assert (g = put_flag f 4 b) as -> by congruence.
      by rewrite (proj2 (proj2 (put_flag_4 f b))).
    + rewrite lookup_insert_ne in Hg by done. rewrite Hhigh by done.
      apply (l_pool_bit _ _ _ _ HL); [|done]. rewrite Hsp. by eapply elem_mid.
  - rewrite (l_usage _ _ _ _ HL), Hsp. lia.
  - lia.
  - apply (l_cap _ _ _ _ HL).
Qed.

(** Counting the pending charge. *)
Lemma Lst_account c s low high :
  0 <= lru_usage_ s -> 0 <= c -> LstP c s low high ->
  Lst (set_lru_usage s (u64 (lru_usage_ s + c))) low high /\
  list_frame s (set_lru_usage s (u64 (lru_usage_ s + c))).
Proof.
  intros H1 H2 HL. pose proof (l_usage _ _ _ _ HL) as Hu. pose proof (l_usage_bound _ _ _ _ HL).
  split; [|constructor; try done; simpl; intros x f f' -> [= ->]; done].
  assert (forall l, csum (set_lru_usage s (u64 (lru_usage_ s + c))) l = csum s l) as Hcs by (intros; by apply csum_data).
  constructor; rewrite ?Hcs; try apply HL. simpl. rewrite u64_small by lia. lia.
Qed.

(** The links and flags that [LRU_Insert] writes; what is left is the accounting. *)
Lemma LRU_Insert_high s e d f pv :
  hnext s !! e = Some None -> hprev s !! e = Some None -> hdata s !! e = Some d -> hflags s !! e = Some f ->
  e <> lru_ -> pv <> e -> hprev s !! lru_ = Some (Some pv) -> is_Some (hnext s !! pv) ->
  double_gt (high_pri_pool_ratio_ s) (double_of_size_t 0) && has_flag f 2 = true ->
  0 <= high_pri_pool_usage_ s + charge d < 2 ^ 64 ->
  LRU_Insert e s = (_ ← MaintainPoolSize; modify (fun s => set_lru_usage s (u64 (lru_usage_ s + charge d))))
    (with_list s (<[e := put_flag f 4 true]> (hflags s))
       (<[pv := Some e]> (<[e := Some lru_]> (hnext s))) (<[lru_ := Some e]> (<[e := Some pv]> (hprev s)))
       (lru_usage_ s) (high_pri_pool_usage_ s + charge d) (lru_low_pri_ s)).
Proof.
  intros Hn Hp Hd Hf Hel Hpe Hl Hnp Hb Hu. unfold LRU_Insert. do 7 mnext. rewrite Hb.
  assert (is_Some (<[e := Some lru_]> (hnext s) !! pv)) as H1 by (by rewrite lookup_insert_ne).
  assert (is_Some (<[e := Some pv]> (hprev s) !! lru_)) as H2 by (rewrite lookup_insert_ne by done; by eexists).
  apply M_bind_as. do 8 mnext. f_equal. unfold set_pool_usage, upd_ctl. simpl. by rewrite u64_small by lia.
Qed.

Lemma LRU_Insert_low s e d f nx :
  hnext s !! e = Some None -> hprev s !! e = Some None -> hdata s !! e = Some d -> hflags s !! e = Some f ->
  lru_low_pri_ s <> e -> nx <> e -> hnext s !! lru_low_pri_ s = Some (Some nx) -> is_Some (hprev s !! nx) ->
  double_gt (high_pri_pool_ratio_ s) (double_of_size_t 0) && has_flag f 2 = false ->
  LRU_Insert e s = modify (fun s => set_lru_usage s (u64 (lru_usage_ s + charge d)))
    (with_list s (<[e := put_flag f 4 false]> (hflags s))
       (<[lru_low_pri_ s := Some e]> (<[e := Some nx]> (hnext s)))
       (<[nx := Some e]> (<[e := Some (lru_low_pri_ s)]> (hprev s)))
       (lru_usage_ s) (high_pri_pool_usage_ s) e).
Proof.
  intros Hn Hp Hd Hf Hle Hne Hl Hnp Hb. unfold LRU_Insert. do 7 mnext. rewrite Hb.
  assert (is_Some (<[e := Some nx]> (hnext s) !! lru_low_pri_ s)) as H1 by (rewrite lookup_insert_ne by done; by eexists).
  assert (is_Some (<[e := Some (lru_low_pri_ s)]> (hprev s) !! nx)) as H2 by (by rewrite lookup_insert_ne).
  erewrite (M_bind_ret (A := unit)); [reflexivity|]. do 7 mnext. done.
Qed.

(** The links at the boundary between the two parts of the list. *)
Lemma ring_boundary pend s low high :
  LstP pend s low high ->
  hnext s !! lastd lru_ low = Some (Some (hdd lru_ high)) /\
  hprev s !! hdd lru_ high = Some (Some (lastd lru_ low)).
Proof.
  intros HL. pose proof (l_next _ _ _ _ HL) as Hn. pose proof (l_prev _ _ _ _ HL) as Hp.
  rewrite reverse_app in Hp. split.
  - destruct high as [|x high]; [rewrite app_nil_r in Hn; by apply seg_last in Hn|].
    apply seg_app in Hn as [Hn _]. by apply seg_last in Hn.
  - rewrite <- (hdd_reverse lru_ low), <- (lastd_reverse lru_ high).
    destruct (reverse low) as [|x l] eqn:E; [rewrite app_nil_r in Hp; by apply seg_last in Hp|].
    apply seg_app in Hp as [Hp _]. by apply seg_last in Hp.
Qed.

(** Adding an entry: a high-priority one becomes the newest of the list, any other one the
    newest of the low-priority part. *)
Lemma LRU_Insert_spec s low high e d f :
  Lst s low high -> e ∉ lru_ :: low ++ high -> hdata s !! e = Some d -> hflags s !! e = Some f ->
  csum s (low ++ high) + charge d < 2 ^ 64 ->
  exists s' low' high',
    LRU_Insert e s = Ret (tt, s') /\ Lst s' low' high' /\ list_frame s s' /\
    if double_gt (high_pri_pool_ratio_ s) (double_of_size_t 0) && has_flag f 2
    then low' ++ high' = low ++ high ++ [e]
    else low' = low ++ [e] /\ high' = high.
Proof.
  intros HL He Hd Hf Hb. destruct (l_off _ _ _ _ HL e He ltac:(by eexists)) as [Hn Hp].
  pose proof (l_nodup _ _ _ _ HL) as Hnd.
  pose proof (csum_nonneg s low (l_charge _ _ _ _ HL)). pose proof (csum_nonneg s high (l_charge _ _ _ _ HL)).
  pose proof (l_charge _ _ _ _ HL _ _ Hd). pose proof (l_usage _ _ _ _ HL) as Hus. rewrite csum_app in Hb, Hus.
  pose proof (seg_last _ _ _ _ (l_next _ _ _ _ HL)) as Hnl. pose proof (seg_head _ _ _ _ (l_prev _ _ _ _ HL)) as Hpl.
  rewrite hdd_reverse in Hpl.
  destruct (double_gt (high_pri_pool_ratio_ s) (double_of_size_t 0) && has_flag f 2) eqn:Hhi.
  - set (pv := lastd lru_ (low ++ high)) in *.
    assert (pv <> e) as Hpe by (intros <-; apply He; apply lastd_elem).
    assert (e <> lru_) as Hel by (intros ->; apply He; inlist).
    pose proof (Lst_link s low high low (high ++ [e]) (low ++ high) e [] d f true HL He) as Hlk.
    simpl in Hlk. fold pv in Hlk. rewrite (csum_app s high [e]), <- (l_low_pri _ _ _ _ HL), <- (l_pool _ _ _ _ HL) in Hlk.
    simpl in Hlk. rewrite (charge_at_eq _ _ _ Hd), Z.add_0_r in Hlk.
    specialize (Hlk ltac:(by rewrite app_nil_r) ltac:(by rewrite <- app_assoc)).
    assert ((e ∉ low) /\ (e ∉ high)) as [] by (split; intros Hi; apply He; inlist).
    specialize (Hlk ltac:(intros x Hx; split; intros; inlist) ltac:(split; [done|intros _; inlist]) Hd Hf ltac:(rewrite csum_app; lia)).
    pose proof (l_pool _ _ _ _ HL). pose proof Hpl as Hpl'.
    destruct (MaintainPoolSize_spec _ _ _ _ Hlk) as (s1 & h1 & h2 & Heq & E & HL1 & Hfr1 & Hu1 & _).
    assert (0 <= lru_usage_ s1) as Hu2 by (simpl in Hu1; lia).
    destruct (Lst_account _ _ _ _ Hu2 (l_charge _ _ _ _ HL _ _ Hd) HL1) as [HL2 Hfr2].
    eexists _, (low ++ h1), h2. split; [|split; [exact HL2|split]].
    + rewrite (LRU_Insert_high s e d f pv); try done; [|lia].
      erewrite M_bind_ret by exact E. done.
    + eapply list_frame_trans; [|exact Hfr2]. eapply list_frame_trans; [|exact Hfr1]. by apply set_bit4_frame.
    + by rewrite <- app_assoc, <- Heq.
  - set (pv := lastd lru_ low). set (nx := hdd lru_ high).
    assert (pv <> e) as Hpe by (intros <-; apply He; pose proof (lastd_elem lru_ low); unfold pv; inlist).
    assert (nx <> e) as Hne by (intros <-; apply He; pose proof (hdd_elem lru_ high); unfold nx; inlist).
    pose proof (Lst_link s low high (low ++ [e]) high low e high d f false HL He eq_refl) as Hlk.
    assert (e ∉ high) as Heh by (intros Hi; apply He; inlist).
    specialize (Hlk ltac:(by rewrite <- app_assoc) ltac:(done) ltac:(done) Hd Hf ltac:(rewrite csum_app; lia)).
    assert (lastd lru_ (low ++ [e]) = e) as Hle by (unfold lastd; by rewrite last_app).
    fold pv nx in Hlk. rewrite Hle, <- (l_pool _ _ _ _ HL) in Hlk.
    assert (0 <= lru_usage_ s) as Hus0 by lia.
    destruct ((fun a b => Lst_account _ _ _ _ a b Hlk) Hus0 (l_charge _ _ _ _ HL _ _ Hd)) as [HL2 Hfr2].
    destruct (ring_boundary _ _ _ _ HL) as [Hb1 Hb2].
    eexists _, (low ++ [e]), high. split; [|split; [exact HL2|split; [|done]]].
    + pose proof (l_low_pri _ _ _ _ HL) as Hlo. fold pv in Hlo. rewrite <- Hlo in *.
      rewrite (LRU_Insert_low s e d f nx); try done; by rewrite Hlo.
    + eapply list_frame_trans; [|exact Hfr2]. by apply set_bit4_frame.
Qed.
