(* ===== verification/LruInv.v ===== *)
(** * LruInv: the invariant of a cache shard

    [Inv s live low high T ext]: [live] are the allocated handles that the shard counts in
    [usage_], [T] the entries of the hash table, [low ++ high] the LRU list, oldest first,
    and [ext x] the number of references to [x] that clients hold. *)

From Stdlib Require Import Floats.SpecFloat.
From stdpp Require Import gmap.
From S2P Require Import Prelude.
From S2P Require Import Slice.
From S2P Require Import LruCache.
From S2P Require Import LruTable.
From S2P Require Import LruList.

(** ** The table as a set *)

Definition TabOf (s : Shard) (T : list loc) : Prop := exists bs, Tab s bs /\ concat bs ≡ₚ T.

#[export] Instance TabOf_proper s : Proper ((≡ₚ) ==> iff) (TabOf s).
Proof.
  intros T T' HT. split; intros (bs & H1 & H2); exists bs; (split; [done|]); [by rewrite <- HT|by rewrite HT].
Qed.

(** What the table operations leave alone. *)
Record table_frame (s s' : Shard) : Prop := {
  tf_eq : s' = with_table s (hnext_hash s') (length_ s') (elems_ s') (list_ s');
}.

Lemma with_table_frame s nh len el ls : table_frame s (with_table s nh len el ls).
Proof. constructor. by destruct s. Qed.
Lemma table_frame_refl s : table_frame s s.
Proof. constructor. by destruct s. Qed.

Lemma Lst_table_frame p s s' low high : table_frame s s' -> LstP p s low high -> LstP p s' low high.
Proof. intros [->] HL. by destruct HL; constructor. Qed.

Lemma TabOf_nodup s T : TabOf s T -> NoDup T.
Proof. intros (bs & HT & Hp). rewrite <- Hp. apply (tab_nodup _ _ HT). Qed.
Lemma TabOf_entry s T x : TabOf s T -> x ∈ T -> table_entry s x.
Proof. intros (bs & HT & Hp) Hx. apply (tab_entries _ _ HT). by rewrite Hp. Qed.
Lemma TabOf_unique s T x y k h : TabOf s T -> x ∈ T -> y ∈ T -> matches s k h x -> matches s k h y -> x = y.
Proof. intros (bs & HT & Hp) Hx Hy. apply (tab_unique _ _ HT); by rewrite Hp. Qed.

Lemma TabOf_Lookup s T k h :
  TabOf s T -> 0 <= h ->
  exists p, table_Lookup k h s = Ret (p, s) /\
    match p with
    | Some x => x ∈ T /\ matches s k h x
    | None => forall x, x ∈ T -> ~ matches s k h x
    end.
Proof.
  intros (bs & HT & Hp) Hh. destruct (table_Lookup_spec s bs k h HT Hh) as (p & E & Hm).
  exists p. split; [done|]. destruct p as [x|].
  - by rewrite <- Hp.
  - intros x. rewrite <- Hp. apply Hm.
Qed.

Lemma TabOf_Remove s T k h :
  TabOf s T -> 0 <= h ->
  exists p s', table_Remove k h s = Ret (p, s') /\ table_frame s s' /\
    match p with
    | None => s' = s /\ forall x, x ∈ T -> ~ matches s k h x
    | Some x => matches s k h x /\ exists T', T ≡ₚ x :: T' /\ TabOf s' T'
    end.
Proof.
  intros (bs & HT & Hp) Hh. destruct (table_Remove_spec s bs k h HT Hh) as ([x|] & Hm).
  - destruct Hm as (Hm & nh & el & ls & bs' & E & HT' & Hp'). exists (Some x). eexists. split; [exact E|].
    split; [apply with_table_frame|]. split; [done|]. exists (concat bs'). split; [by rewrite <- Hp|]. by exists bs'.
  - destruct Hm as [E Hm]. exists None, s. split_and!; [done|apply table_frame_refl|done|].
    intros x. rewrite <- Hp. apply Hm.
Qed.

(** Removing an entry by its own key and hash. *)
Lemma TabOf_Remove_self s T x d :
  TabOf s T -> x ∈ T -> hdata s !! x = Some d ->
  exists s' T', table_Remove (key_data d) (hash d) s = Ret (Some x, s') /\ table_frame s s' /\
    T ≡ₚ x :: T' /\ TabOf s' T'.
Proof.
  intros HT Hx Hd. pose proof (TabOf_entry _ _ _ HT Hx) as (d' & Hd' & Hh & _). simplify_eq.
  assert (matches s (key_data d) (hash d) x) as Hm by (by exists d).
  destruct (TabOf_Remove s T (key_data d) (hash d) HT ltac:(lia)) as ([y|] & s' & E & Hfr & Hy).
  - destruct Hy as (Hmy & T' & Hp & HT').
    assert (y = x) as -> by (eapply TabOf_unique; [exact HT|rewrite Hp; inlist|done|done|done]).
    by exists s', T'.
  - destruct Hy as [_ Hno]. by destruct (Hno x Hx).
Qed.

(** The list operations preserve the table. *)
Lemma no_self_loop p s low high x :
  LstP p s low high -> x <> lru_ -> is_Some (hdata s !! x) -> exists n, hnext s !! x = Some n /\ n <> Some x.
Proof.
  intros HL Hx Hd. destruct (decide (x ∈ low ++ high)) as [Hi|Hi].
  - apply list_elem_of_split in Hi as (l1 & l2 & Hsp). pose proof (l_next _ _ _ _ HL) as Hn.
    pose proof (l_nodup _ _ _ _ HL) as Hnd. rewrite Hsp in Hn, Hnd. apply seg_app in Hn as [_ Hn].
    apply seg_head in Hn. eexists. split; [exact Hn|]. intros [= He]. pose proof (hdd_elem lru_ l2) as Hl.
    rewrite He in Hl. apply elem_of_cons in Hl as [->|Hl]; [done|].
    apply list.NoDup_cons in Hnd as [_ Hnd]. apply list.NoDup_app in Hnd as (_ & _ & Hnd).
    by apply list.NoDup_cons in Hnd as [? _].
  - exists None. split; [|done]. apply (l_off _ _ _ _ HL); [|done]. intros He. inlist.
Qed.

Lemma TabOf_list_frame p s s' low high T :
  list_frame s s' -> LstP p s' low high -> lru_ ∉ T -> TabOf s T -> TabOf s' T.
Proof.
  intros Hfr HL Hl (bs & HT & Hp). exists bs. split; [|done]. destruct Hfr, HT. constructor.
  - by rewrite lf_length.
  - by rewrite lf_length.
  - by rewrite lf_nh, lf_list.
  - done.
  - by rewrite lf_elems.
  - done.
  - intros x Hx. destruct (tab_entries x Hx) as (d & Hd & Hh & _). exists d. rewrite lf_data.
    split; [done|]. split; [done|]. eapply no_self_loop; [exact HL| |rewrite lf_data; by eexists].
    intros ->. apply Hl. by rewrite <- Hp.
  - intros i b x d. rewrite lf_data, lf_length. apply tab_bucket.
  - intros x y k h. unfold matches. rewrite lf_data. apply tab_unique.
Qed.

(** ** The invariant *)

Definition tin (T : list loc) (x : loc) : Z := if decide (x ∈ T) then 1 else 0.

Record Inv (s : Shard) (live low high T : list loc) (ext : loc -> Z) : Prop := {
  i_list : Lst s low high;
  i_tab : TabOf s T;
  i_null : hdata s !! lru_ = None;
  i_nodup : NoDup live;
  i_alloc : forall x, x ∈ live -> is_Some (hdata s !! x);
  i_table : forall x, x ∈ T -> x ∈ live;
  i_held : forall x, x ∈ live -> x ∈ T \/ 0 < ext x;
  i_ext : forall x, 0 <= ext x < 2 ^ 32 - 1;
  i_ext_live : forall x, 0 < ext x -> x ∈ live;
  i_refs : forall x, x ∈ live -> hrefs s !! x = Some (ext x + tin T x);
  i_flag : forall x f, x ∈ live -> hflags s !! x = Some f -> (has_flag f 1 = true <-> x ∈ T);
  i_lru : forall x, x ∈ low ++ high <-> x ∈ T /\ ext x = 0;
  i_usage : usage_ s = csum s live;
  i_usage_bound : usage_ s < 2 ^ 64;
  i_capacity : 0 <= capacity_ s < 2 ^ 64;
  i_ratio : double_nonneg (high_pri_pool_ratio_ s);
}.

Lemma tin_in T x : x ∈ T -> tin T x = 1.
Proof. intros. unfold tin. by rewrite decide_True. Qed.
Lemma tin_out T x : x ∉ T -> tin T x = 0.
Proof. intros. unfold tin. by rewrite decide_False. Qed.
Lemma tin_perm T T' x : T ≡ₚ T' -> tin T x = tin T' x.
Proof.
  intros Hp. unfold tin. destruct (decide (x ∈ T)) as [H|H]; rewrite Hp in H.
  - by rewrite decide_True.
  - by rewrite decide_False.
Qed.
Lemma tin_cons_ne T x y : x <> y -> tin (y :: T) x = tin T x.
Proof.
  intros Hne. unfold tin. destruct (decide (x ∈ T)); [rewrite decide_True; [done|inlist]|rewrite decide_False; [done|inlist]].
Qed.

(** What an operation on the handles of [X] leaves alone. *)
Record kept (X : list loc) (s s' : Shard) : Prop := {
  k_data : hdata s' = hdata s;
  k_del : deletions s' = deletions s;
  k_cap : capacity_ s' = capacity_ s;
  k_strict : strict_capacity_limit_ s' = strict_capacity_limit_ s;
  k_ratio : high_pri_pool_ratio_ s' = high_pri_pool_ratio_ s;
  k_refs : forall x, x ∉ X -> hrefs s' !! x = hrefs s !! x;
  k_flags : forall x f, x ∉ X -> hflags s !! x = Some f ->
    exists f', hflags s' !! x = Some f' /\ has_flag f' 1 = has_flag f 1 /\ has_flag f' 2 = has_flag f 2;
}.

Lemma kept_refl X s : kept X s s.
Proof. constructor; try done. intros x f _ Hf. by exists f. Qed.
Lemma kept_trans X Y s1 s2 s3 : kept X s1 s2 -> kept Y s2 s3 -> kept (X ++ Y) s1 s3.
Proof.
  intros H1 H2. constructor; try (destruct H1, H2; congruence).
  - intros x Hx. rewrite (k_refs _ _ _ H2), (k_refs _ _ _ H1); [done|intros Hi; apply Hx; inlist..].
  - intros x f Hx Hf. destruct (k_flags _ _ _ H1 x f) as (f1 & Hf1 & ? & ?); [intros Hi; apply Hx; inlist|done|].
    destruct (k_flags _ _ _ H2 x f1) as (f2 & Hf2 & ? & ?); [intros Hi; apply Hx; inlist|done|].
    exists f2. split_and!; [done|congruence..].
Qed.
Lemma kept_sub X Y s s' : (forall x, x ∈ X -> x ∈ Y) -> kept X s s' -> kept Y s s'.
Proof.
  intros Hs H1. constructor; try apply H1.
  - intros x Hx. apply (k_refs _ _ _ H1). intros Hi. by apply Hx, Hs.
  - intros x f Hx. apply (k_flags _ _ _ H1). intros Hi. by apply Hx, Hs.
Qed.
Lemma kept_nil X s s' : kept [] s s' -> kept X s s'.
Proof. apply kept_sub. intros x Hx. by apply not_elem_of_nil in Hx. Qed.
Lemma kept_list_frame s s' : list_frame s s' -> kept [] s s'.
Proof.
  intros Hf. constructor; try apply Hf.
  - intros x _. by rewrite (lf_refs _ _ Hf).
  - intros x f _ Hx. destruct (proj2 (lf_dom _ _ Hf x) ltac:(by eexists)) as [f' Hf'].
    exists f'. split; [done|]. by apply (lf_flags _ _ Hf x).
Qed.
Lemma kept_table_frame s s' : table_frame s s' -> kept [] s s'.
Proof. intros [->]. constructor; try done. intros x f _ Hx. by exists f. Qed.

(** A shard whose handles, table and list are those of [s], with other reference counts,
    flags and usage. *)
Definition with_refs (s : Shard) r f u : Shard := set_usage (set_flags (set_refs s r) f) u.

Lemma LstP_with_refs p s low high r fl u :
  LstP p s low high ->
  (forall x f, hflags s !! x = Some f -> exists f', fl !! x = Some f' /\ has_flag f' 4 = has_flag f 4) ->
  LstP p (with_refs s r fl u) low high.
Proof.
  intros HL Hfl.
  assert (forall l, csum (with_refs s r fl u) l = csum s l) as Hcs by (intros; by apply csum_data).
  constructor; rewrite ?Hcs; try apply HL.
  - intros x Hx. destruct (l_flags _ _ _ _ HL x Hx) as [f Hf]. destruct (Hfl x f Hf) as (f' & Hf' & _).
    by exists f'.
  - intros x f' Hx Hf'. destruct (l_flags _ _ _ _ HL x (l_data _ _ _ _ HL x Hx)) as [f Hf].
    destruct (Hfl x f Hf) as (g & Hg & Hgf). simpl in Hf'. simplify_eq.
    rewrite Hgf. by apply (l_pool_bit _ _ _ _ HL).
Qed.

Lemma Tab_with_refs s bs r fl u : Tab s bs -> Tab (with_refs s r fl u) bs.
Proof. intros HT. by destruct HT; constructor. Qed.
Lemma TabOf_with_refs s T r fl u : TabOf s T -> TabOf (with_refs s r fl u) T.
Proof. intros (bs & HT & Hp). exists bs. split; [by apply Tab_with_refs|done]. Qed.

Lemma elem_perm (l k : list loc) x : l ≡ₚ k -> x ∈ l <-> x ∈ k.
Proof. by intros ->. Qed.

Lemma split_perm (l : list loc) x : x ∈ l -> exists l', l ≡ₚ x :: l'.
Proof. intros Hx. apply list_elem_of_split in Hx as (a & b & ->). exists (a ++ b). solve_Permutation. Qed.

Definition upd (ext : loc -> Z) (x : loc) (n : Z) (y : loc) : Z := if decide (y = x) then n else ext y.
Lemma upd_eq ext x n : upd ext x n x = n.
Proof. unfold upd. by rewrite decide_True. Qed.
Lemma upd_ne ext x n y : y <> x -> upd ext x n y = ext y.
Proof. intros. unfold upd. by rewrite decide_False. Qed.

Lemma Inv_ext_eq s live low high T ext ext' :
  (forall x, ext x = ext' x) -> Inv s live low high T ext -> Inv s live low high T ext'.
Proof.
  intros He HI. constructor; try apply HI; intros x; rewrite <- !He; apply HI.
Qed.

Section invariant.
Context {s : Shard} {live low high T : list loc} {ext : loc -> Z} (HI : Inv s live low high T ext).
#[local] Set Default Proof Using "All".

Lemma inv_lru_fresh x : x ∈ live -> x <> lru_.
Proof. intros Hx ->. destruct (i_alloc _ _ _ _ _ _ HI _ Hx) as [d Hd]. pose proof (i_null _ _ _ _ _ _ HI). congruence. Qed.

Lemma inv_handle x : x ∈ live -> exists d f, hdata s !! x = Some d /\ hflags s !! x = Some f /\ 0 <= charge d /\
  hrefs s !! x = Some (ext x + tin T x) /\ (has_flag f 1 = true <-> x ∈ T) /\
  exists n, hnext s !! x = Some n /\ n <> Some x.
Proof.
  intros Hx. destruct (i_alloc _ _ _ _ _ _ HI _ Hx) as [d Hd]. pose proof (i_list _ _ _ _ _ _ HI) as HL.
  destruct (l_flags _ _ _ _ HL x ltac:(by eexists)) as [f Hf]. exists d, f. split; [done|]. split; [done|].
  split; [by eapply (l_charge _ _ _ _ HL)|]. split; [by apply (i_refs _ _ _ _ _ _ HI)|]. split.
  - by apply (i_flag _ _ _ _ _ _ HI x f).
  - eapply no_self_loop; [exact HL|by apply inv_lru_fresh|by eexists].
Qed.

Lemma inv_charge_le x d live' : live ≡ₚ x :: live' -> hdata s !! x = Some d ->
  0 <= charge d /\ usage_ s = charge d + csum s live' /\ 0 <= csum s live'.
Proof.
  intros Hp Hd. rewrite (i_usage _ _ _ _ _ _ HI), (csum_perm _ _ _ Hp). simpl. rewrite (charge_at_eq _ _ _ Hd).
  pose proof (i_list _ _ _ _ _ _ HI) as HL. split; [by eapply (l_charge _ _ _ _ HL)|].
  split; [done|]. apply csum_nonneg, (l_charge _ _ _ _ HL).
Qed.

Lemma inv_lru_notin : lru_ ∉ T.
Proof. intros Hl. by apply (inv_lru_fresh lru_); [apply (i_table _ _ _ _ _ _ HI)|]. Qed.

(** An operation that changes the handles of [X] only. *)
Lemma Inv_update X s' live' low' high' T' ext' :
  kept X s s' -> Lst s' low' high' -> TabOf s' T' -> NoDup live' ->
  (forall y, y ∉ X -> (y ∈ live' <-> y ∈ live) /\ ext' y = ext y /\ (y ∈ T' <-> y ∈ T)) ->
  (forall x, x ∈ X -> 0 <= ext' x < 2 ^ 32 - 1 /\
     if decide (x ∈ live') then is_Some (hdata s !! x) /\ (x ∈ T' \/ 0 < ext' x) /\
       hrefs s' !! x = Some (ext' x + tin T' x) /\
       exists f, hflags s' !! x = Some f /\ (has_flag f 1 = true <-> x ∈ T')
     else (x ∉ T') /\ ext' x = 0) ->
  (forall y, y ∈ low' ++ high' <-> y ∈ T' /\ ext' y = 0) ->
  usage_ s' = csum s live' -> usage_ s' < 2 ^ 64 ->
  Inv s' live' low' high' T' ext'.
Proof.
  intros Hk HL' HT' Hnd Hout HX Hlru Hu Hub. constructor; try done.
  - rewrite (k_data _ _ _ Hk). apply (i_null _ _ _ _ _ _ HI).
  - intros y Hy. rewrite (k_data _ _ _ Hk). destruct (decide (y ∈ X)) as [Hi|Hi].
    + destruct (HX y Hi) as [_ Hx]. rewrite decide_True in Hx by done. apply Hx.
    + apply (i_alloc _ _ _ _ _ _ HI). by apply (Hout y Hi).
  - intros y Hy. destruct (decide (y ∈ X)) as [Hi|Hi].
    + destruct (HX y Hi) as [_ Hx]. destruct (decide (y ∈ live')); [done|]. by destruct Hx.
    + destruct (Hout y Hi) as (Hl & _ & Ht). apply Hl, (i_table _ _ _ _ _ _ HI), Ht, Hy.
  - intros y Hy. destruct (decide (y ∈ X)) as [Hi|Hi].
    + destruct (HX y Hi) as [_ Hx]. rewrite decide_True in Hx by done. apply Hx.
    + destruct (Hout y Hi) as (Hl & -> & ->). apply (i_held _ _ _ _ _ _ HI), Hl, Hy.
  - intros y. destruct (decide (y ∈ X)) as [Hi|Hi]; [apply HX, Hi|].
    destruct (Hout y Hi) as (_ & -> & _). apply (i_ext _ _ _ _ _ _ HI).
  - intros y Hy. destruct (decide (y ∈ X)) as [Hi|Hi].
    + destruct (HX y Hi) as [_ Hx]. destruct (decide (y ∈ live')); [done|]. lia.
    + destruct (Hout y Hi) as (Hl & He & _). apply Hl, (i_ext_live _ _ _ _ _ _ HI). lia.
  - intros y Hy. destruct (decide (y ∈ X)) as [Hi|Hi].
    + destruct (HX y Hi) as [_ Hx]. rewrite decide_True in Hx by done. apply Hx.
    + destruct (Hout y Hi) as (Hl & -> & Ht). rewrite (k_refs _ _ _ Hk) by done.
      rewrite (i_refs _ _ _ _ _ _ HI) by (by apply Hl). unfold tin.
      destruct (decide (y ∈ T)) as [Hyt|Hyt]; rewrite <- Ht in Hyt; [by rewrite decide_True|by rewrite decide_False].
  - intros y g Hy Hg. destruct (decide (y ∈ X)) as [Hi|Hi].
    + destruct (HX y Hi) as [_ Hx]. rewrite decide_True in Hx by done.
      destruct Hx as (_ & _ & _ & f & Hf & Hb). by simplify_eq.
    + destruct (Hout y Hi) as (Hl & _ & ->). destruct (inv_handle y (proj1 Hl Hy)) as (d0 & f0 & _ & Hf0 & _ & _ & Hb & _).
      destruct (k_flags _ _ _ Hk y f0 Hi Hf0) as (g' & Hg' & Hb1 & _). simplify_eq. by rewrite Hb1.
  - rewrite Hu. symmetry. apply csum_data, Hk.
  - rewrite (k_cap _ _ _ Hk). apply (i_capacity _ _ _ _ _ _ HI).
  - rewrite (k_ratio _ _ _ Hk). apply (i_ratio _ _ _ _ _ _ HI).
Qed.

(** The shard forgets [x]: it has left the list and the table, its charge is given back. *)
Lemma Inv_forget x d s' low' high' T' live' :
  live ≡ₚ x :: live' -> hdata s !! x = Some d ->
  kept [x] s s' -> Lst s' low' high' -> TabOf s' T' ->
  (forall y, y ∈ low' ++ high' <-> y ∈ low ++ high /\ y <> x) -> (forall y, y ∈ T' <-> y ∈ T /\ y <> x) ->
  usage_ s' = usage_ s - charge d ->
  Inv s' live' low' high' T' (upd ext x 0).
Proof.
  intros Hlive Hd Hk HL' HT' Hlow HTx Hu.
  destruct (inv_charge_le x d live' Hlive Hd) as (Hc & Hus & Hcs).
  pose proof (i_nodup _ _ _ _ _ _ HI) as Hnd. rewrite Hlive in Hnd. apply list.NoDup_cons in Hnd as [Hxl Hnd].
  apply (Inv_update [x]); try done.
  - intros y Hy. assert (y <> x) as Hne by (intros ->; apply Hy; inlist). rewrite upd_ne, HTx, Hlive by done.
    split_and!; [|done|]; split; intros; inlist.
  - intros y Hy. apply list_elem_of_singleton in Hy as ->. rewrite upd_eq, decide_False by done.
    split; [lia|]. rewrite HTx. naive_solver.
  - intros y. rewrite Hlow, HTx, (i_lru _ _ _ _ _ _ HI). destruct (decide (y = x)) as [->|Hne].
    + naive_solver.
    + rewrite upd_ne by done. naive_solver.
  - lia.
  - pose proof (i_usage_bound _ _ _ _ _ _ HI). lia.
Qed.

(** The number of references that clients hold to [x] becomes [n]. *)
Lemma Inv_ref x n s' low' high' :
  x ∈ live -> (x ∈ T \/ 0 < n) -> 0 <= n < 2 ^ 32 - 1 -> kept [x] s s' -> Lst s' low' high' -> TabOf s' T ->
  hrefs s' !! x = Some (n + tin T x) -> (forall f, hflags s !! x = Some f ->
    exists f', hflags s' !! x = Some f' /\ has_flag f' 1 = has_flag f 1) ->
  (forall y, y ∈ low' ++ high' <-> y ∈ T /\ upd ext x n y = 0) -> usage_ s' = usage_ s ->
  Inv s' live low' high' T (upd ext x n).
Proof.
  intros Hxl Hheld Hn Hk HL' HT' Hr Hf Hlow Hu. destruct (inv_handle x Hxl) as (d & f & Hd & Hfx & _ & _ & Hb & _).
  apply (Inv_update [x]); try done.
  - apply (i_nodup _ _ _ _ _ _ HI).
  - intros y Hy. rewrite upd_ne by (intros ->; apply Hy; inlist). done.
  - intros y Hy. apply list_elem_of_singleton in Hy as ->. rewrite upd_eq, decide_True by done.
    split; [lia|]. split; [by eexists|]. split; [done|]. split; [done|].
    destruct (Hf f Hfx) as (f' & Hf' & Hb'). exists f'. by rewrite Hb'.
  - by rewrite Hu, (i_usage _ _ _ _ _ _ HI).
  - rewrite Hu. apply (i_usage_bound _ _ _ _ _ _ HI).
Qed.

(** [x] leaves the table while clients hold references to it. *)
Lemma Inv_uncache x s' T' :
  0 < ext x -> kept [x] s s' -> Lst s' low high -> TabOf s' T' -> (forall y, y ∈ T' <-> y ∈ T /\ y <> x) ->
  hrefs s' !! x = Some (ext x) -> (exists f, hflags s' !! x = Some f /\ has_flag f 1 = false) ->
  usage_ s' = usage_ s -> Inv s' live low high T' ext.
Proof.
  intros Hx Hk HL' HT' HTx Hr (f & Hf & Hb) Hu. pose proof (i_ext_live _ _ _ _ _ _ HI x Hx) as Hxl.
  assert (x ∉ T') as HxT' by (rewrite HTx; naive_solver).
  apply (Inv_update [x]); try done.
  - apply (i_nodup _ _ _ _ _ _ HI).
  - intros y Hy. assert (y <> x) as Hne by (intros ->; apply Hy; inlist). rewrite HTx. naive_solver.
  - intros y Hy. apply list_elem_of_singleton in Hy as ->. split; [apply (i_ext _ _ _ _ _ _ HI)|].
    rewrite decide_True by done. split; [by apply (i_alloc _ _ _ _ _ _ HI)|]. split; [by right|].
    split; [by rewrite tin_out, Z.add_0_r|]. exists f. split; [done|]. rewrite Hb. naive_solver.
  - intros y. rewrite HTx, (i_lru _ _ _ _ _ _ HI). split; [|naive_solver]. intros [Hy He].
    split_and!; [done| |done]. intros ->. lia.
  - by rewrite Hu, (i_usage _ _ _ _ _ _ HI).
  - rewrite Hu. apply (i_usage_bound _ _ _ _ _ _ HI).
Qed.

(** The entries that are left when [x] is taken out. *)
Lemma perm_rest x T' y : T ≡ₚ x :: T' -> y ∈ T' <-> y ∈ T /\ y <> x.
Proof.
  intros Hp. pose proof (TabOf_nodup _ _ (i_tab _ _ _ _ _ _ HI)) as Hnd. rewrite Hp in *.
  apply list.NoDup_cons in Hnd as [Hx _]. split.
  - intros Hy. split; [inlist|]. by intros ->.
  - intros [Hy Hne]. inlist.
Qed.
End invariant.

(** [Free] will accept this handle. *)
Definition freeable (s : Shard) (x : loc) : Prop :=
  exists r f, hrefs s !! x = Some r /\ hflags s !! x = Some f /\
    ((r = 1 /\ has_flag f 1 = true) \/ (r = 0 /\ has_flag f 1 = false)).

Lemma kept_freeable X s s' x : kept X s s' -> x ∉ X -> freeable s x -> freeable s' x.
Proof.
  intros Hk Hx (r & f & Hr & Hf & Hc). destruct (k_flags _ _ _ Hk x f Hx Hf) as (f' & Hf' & Hb & _).
  exists r, f'. rewrite (k_refs _ _ _ Hk x Hx), Hb. done.
Qed.

Lemma Unref_eq e r s : hrefs s !! e = Some r -> 0 < r ->
  Unref e s = Ret (r - 1 =? 0, set_refs s (<[e := r - 1]> (hrefs s))).
Proof.
  intros Hr Hp. unfold Unref. mnext. erewrite M_bind_ret by (apply massert_eq; lia). cbv beta iota.
  mnext. done.
Qed.

(** The statements that take an entry out of the table and drop the table's reference. *)
Lemma detach_steps {A} (k : M A) x d f s1 s2 :
  hflags s1 !! x = Some f -> hrefs s1 !! x = Some 1 -> 0 <= usage_ s1 - charge d < 2 ^ 64 ->
  table_Remove (key_data d) (hash d) s1 = Ret (Some x, s2) -> table_frame s1 s2 ->
  (_ ← table_Remove (key_data d) (hash d); _ ← SetInCache x false; _ ← Unref x;
   _ ← modify (fun s => set_usage s (u64 (usage_ s - charge d))); k) s1 =
  k (with_refs s2 (<[x := 0]> (hrefs s2)) (<[x := put_flag f 1 false]> (hflags s2)) (usage_ s1 - charge d)).
Proof.
  intros Hf Hr Hu Ht [Htf]. mstep Ht.
  assert (hflags s2 !! x = Some f) as Hf2 by (by rewrite Htf).
  assert (hrefs s2 !! x = Some 1) as Hr2 by (by rewrite Htf).
  assert (usage_ s2 = usage_ s1) as Hus by (by rewrite Htf).
  mnext. mstep (Unref_eq x 1 (set_flags s2 (<[x := put_flag f 1 false]> (hflags s2))) Hr2 ltac:(lia)).
  mnext. f_equal. unfold with_refs, set_usage, set_flags, set_refs, upd_ctl, upd_heap. simpl.
  rewrite Hus, u64_small by lia. done.
Qed.

(** The state that they leave. *)
Lemma detached x d f s s1 s2 low' high' T' :
  kept [x] s s1 -> Lst s1 low' high' -> table_frame s1 s2 -> TabOf s2 T' -> hflags s2 !! x = Some f ->
  let s3 := with_refs s2 (<[x := 0]> (hrefs s2)) (<[x := put_flag f 1 false]> (hflags s2)) (usage_ s1 - charge d) in
  kept [x] s s3 /\ Lst s3 low' high' /\ TabOf s3 T' /\ hrefs s3 !! x = Some 0 /\
  hflags s3 !! x = Some (put_flag f 1 false).
Proof.
  intros Hk1 HL1 Htf HT2 Hf s3.
  pose proof (kept_trans _ _ _ _ _ Hk1 (kept_table_frame _ _ Htf)) as Hk2. rewrite app_nil_r in Hk2.
  split; [|split; [|split; [|simpl; by rewrite !lookup_insert_eq]]].
  - constructor; try apply Hk2.
    + intros y Hy. simpl. rewrite lookup_insert_ne by (intros ->; apply Hy; inlist). exact (k_refs _ _ _ Hk2 y Hy).
    + intros y g Hy Hg. simpl. rewrite lookup_insert_ne by (intros ->; apply Hy; inlist).
      exact (k_flags _ _ _ Hk2 y g Hy Hg).
  - apply LstP_with_refs; [by eapply Lst_table_frame|]. intros y g Hg. destruct (decide (y = x)) as [->|Hne].
    + rewrite lookup_insert_eq. eexists. split; [done|]. simplify_eq. apply put_flag_1.
    + rewrite lookup_insert_ne by done. by exists g.
  - by apply TabOf_with_refs.
Qed.

Lemma M_bind_mret {A} (m : M A) s : (m ≫= mret) s = m s.
Proof. unfold mbind, M_bind, mret, M_ret. by destruct (m s) as [[]| | |]. Qed.

Lemma evict_one_spec {s live low high T ext} x rest :
  Inv s live low high T ext -> low ++ high = x :: rest ->
  exists s' live' low' high' T' d,
    evict_one x s = Ret (tt, s') /\ Inv s' live' low' high' T' ext /\ kept [x] s s' /\ freeable s' x /\
    live ≡ₚ x :: live' /\ T ≡ₚ x :: T' /\ low' ++ high' = rest /\
    hdata s !! x = Some d /\ usage_ s' = usage_ s - charge d.
Proof.
  intros HI Hlh. pose proof (proj1 (i_lru _ _ _ _ _ _ HI x) ltac:(rewrite Hlh; inlist)) as [HxT Hext].
  pose proof (i_table _ _ _ _ _ _ HI x HxT) as Hxl.
  destruct (inv_handle HI x Hxl) as (d & f & Hd & Hf & Hc & Hr & Hb & _).
  destruct (split_perm live x Hxl) as [live' Hlive].
  destruct (inv_charge_le HI x d live' Hlive Hd) as (_ & Hu & Hcs). pose proof (i_usage_bound _ _ _ _ _ _ HI).
  rewrite Hext, (tin_in _ _ HxT) in Hr. apply Hb in HxT as Hbt.
  destruct (LRU_Remove_spec s low high x (i_list _ _ _ _ _ _ HI) ltac:(rewrite Hlh; inlist))
    as (s1 & low' & high' & l1 & l2 & E1 & HL1 & Hfr1 & Hfl1 & Hsp & Hsp').
  pose proof (kept_list_frame _ _ Hfr1) as Hk1.
  pose proof (TabOf_list_frame _ _ _ _ _ _ Hfr1 HL1 (inv_lru_notin HI) (i_tab _ _ _ _ _ _ HI)) as HT1.
  assert (hdata s1 !! x = Some d) as Hd1 by (by rewrite (k_data _ _ _ Hk1)).
  assert (hflags s1 !! x = Some f) as Hf1 by (by rewrite Hfl1).
  assert (hrefs s1 !! x = Some 1) as Hr1 by (by rewrite (lf_refs _ _ Hfr1)).
  assert (usage_ s1 = usage_ s) as Hu1 by apply Hfr1.
  destruct (no_self_loop _ _ _ _ x HL1 (inv_lru_fresh HI x Hxl) ltac:(by eexists)) as (n & Hn & Hne).
  destruct (TabOf_Remove_self s1 T x d HT1 HxT Hd1) as (s2 & T' & E2 & Htf & HTp & HT2).
  pose proof (l_nodup _ _ _ _ (i_list _ _ _ _ _ _ HI)) as Hnd. apply list.NoDup_cons in Hnd as [_ Hnd].
  assert (l1 = [] /\ l2 = rest) as [-> ->].
  { rewrite Hlh in Hsp, Hnd. destruct l1 as [|y l1]; simplify_eq/=; [done|].
    apply list.NoDup_cons in Hnd as [Hy _]. destruct Hy. inlist. }
  assert (hflags s2 !! x = Some f) as Hf2 by (destruct Htf as [->]; done).
  destruct (detached x d f s s1 s2 low' high' T' (kept_nil _ _ _ Hk1) HL1 Htf HT2 Hf2) as (Hk' & HL' & HT' & Hr' & Hf').
  eexists _, live', low', high', T', d. split; [|split; [|split; [exact Hk'|]]].
  - unfold evict_one. erewrite (M_bind_ret (InCache x)) by (by apply InCache_eq). cbv beta iota.
    mstep (massert_eq _ s Hbt). mnext. mstep (massert_eq (1 =? 1) s eq_refl). mstep E1.
    mstep (key_eq s1 x d n Hd1 Hn Hne). mnext.
    pose proof (detach_steps (mret tt) x d f s1 s2 Hf1 Hr1 ltac:(lia) E2 Htf) as Hdet.
    exact Hdet.
  - apply (Inv_ext_eq _ _ _ _ _ (upd ext x 0)).
    { intros y. unfold upd. by destruct (decide (y = x)) as [->|]. }
    eapply (Inv_forget HI x d); try done.
    + intros y. rewrite Hlh, Hsp'. simpl. rewrite Hlh in Hnd. apply list.NoDup_cons in Hnd as [Hx _]. split.
      * intros Hy. split; [inlist|]. by intros ->.
      * intros [Hy Hyx]. inlist.
    + intros y. exact (perm_rest HI x T' y HTp).
    + simpl. lia.
  - split; [|split_and!; try done; simpl; lia]. exists 0, (put_flag f 1 false). split_and!; [done..|]. right. split; [done|].
    apply put_flag_1.
Qed.

(** The shortest prefix of the list whose eviction makes [P], a condition on the capacity
    and the usage, false, or the whole list. *)
Definition evicts (P : Z -> Z -> bool) (s : Shard) (lru ev : list loc) : Prop :=
  (exists rest, lru = ev ++ rest /\ (rest = [] \/ P (capacity_ s) (usage_ s - csum s ev) = false)) /\
  (forall i, (i < length ev)%nat -> P (capacity_ s) (usage_ s - csum s (take i ev)) = true).

Lemma evict_loop_spec P cond fuel {s live low high T ext} :
  (forall s, cond s = P (capacity_ s) (usage_ s)) ->
  Inv s live low high T ext -> (length (low ++ high) <= fuel)%nat ->
  exists ev s' live' low' high' T',
    evict_loop fuel cond s = Ret (ev, s') /\ Inv s' live' low' high' T' ext /\ kept ev s s' /\
    (forall x, x ∈ ev -> freeable s' x) /\ live ≡ₚ ev ++ live' /\ T ≡ₚ ev ++ T' /\
    low ++ high = ev ++ low' ++ high' /\ evicts P s (low ++ high) ev /\ usage_ s' = usage_ s - csum s ev.
Proof.
  intros HP. revert s live low high T. induction fuel as [|fuel IH]; intros s live low high T HI Hf.
  all: pose proof (seg_head _ _ _ _ (l_next _ _ _ _ (i_list _ _ _ _ _ _ HI))) as Hn.
  all: destruct (low ++ high) as [|x rest] eqn:Hlh; simpl in Hf; [|try lia].
  1,2: exists [], s, live, low, high, T; split; [cbn [evict_loop]; do 3 mnext; simpl; by rewrite andb_false_r|].
  1,2: split_and!; try done; [apply kept_refl|intros x Hx; by apply not_elem_of_nil in Hx| |simpl; lia].
  1,2: split; [by exists []; auto|simpl; lia].
  assert (x <> lru_) as Hx.
  { apply (inv_lru_fresh HI), (i_table _ _ _ _ _ _ HI), (i_lru _ _ _ _ _ _ HI). rewrite Hlh. inlist. }
  destruct (P (capacity_ s) (usage_ s)) eqn:HPs.
  - destruct (evict_one_spec x rest HI Hlh) as (s1 & live1 & low1 & high1 & T1 & d & E1 & HI1 & Hk1 & Hfr1 & Hl1 & HT1 & <- & Hd & Hu1).
    destruct (IH s1 live1 low1 high1 T1 HI1 ltac:(lia))
      as (ev & s2 & live2 & low2 & high2 & T2 & E2 & HI2 & Hk2 & Hfr2 & Hl2 & HT2 & Hlh2 & [(rs & Hrs & Hst) Hpre] & Hu2).
    assert (forall l, csum s1 l = csum s l) as Hcs by (intros; apply csum_data, Hk1). rewrite !Hcs in *.
    assert (x ∉ ev) as Hxe.
    { pose proof (l_nodup _ _ _ _ (i_list _ _ _ _ _ _ HI)) as Hnd. rewrite Hlh in Hnd.
      apply list.NoDup_cons in Hnd as [_ Hnd]. apply list.NoDup_cons in Hnd as [Hnd _].
      intros Hi. apply Hnd. rewrite Hlh2. inlist. }
    exists (x :: ev), s2, live2, low2, high2, T2. split.
    { cbn [evict_loop]. do 3 mnext. change (hdd lru_ (x :: low1 ++ high1)) with x. rewrite HP, HPs.
      destruct (Z.eqb_spec x lru_); [done|]. cbn [andb negb]. mstep E1. mstep E2. done. }
    split; [done|]. split; [by apply (kept_trans [x] ev s s1 s2)|]. split.
    { intros y Hy. apply elem_of_cons in Hy as [->|Hy]; [|by apply Hfr2].
      by eapply kept_freeable; [exact Hk2| |]. }
    split; [by rewrite Hl1, Hl2|]. split; [by rewrite HT1, HT2|]. split; [simpl; by rewrite Hlh2|].
    assert (charge d = charge_at s x) as Hch by (symmetry; by apply charge_at_eq).
    rewrite (k_cap _ _ _ Hk1), Hu1, Hch in *. split; [|simpl; lia]. split.
    + exists rs. split; [simpl; by rewrite Hrs|]. destruct Hst as [|Hst]; [by left|right].
      simpl. by replace (usage_ s - (charge_at s x + csum s ev)) with (usage_ s - charge_at s x - csum s ev) by lia.
    + intros [|i] Hi; simpl in *; [by rewrite Z.sub_0_r|].
      replace (usage_ s - (charge_at s x + csum s (take i ev)))
        with (usage_ s - charge_at s x - csum s (take i ev)) by lia.
      rewrite <- Hcs. apply Hpre. lia.
  - exists [], s, live, low, high, T. split; [cbn [evict_loop]; do 3 mnext; by rewrite HP, HPs|].
    split_and!; try done; [apply kept_refl|intros y Hy; by apply not_elem_of_nil in Hy| |simpl; lia].
    split; [|simpl; lia]. exists (x :: rest). split; [done|right]. simpl. by rewrite Z.sub_0_r.
Qed.

(** ** Allocating and freeing handles *)

Lemma seg_agree m m' a l z : (forall x, x ∈ a :: l -> m' !! x = m !! x) -> seg m a l z -> seg m' a l z.
Proof.
  revert a; induction l as [|y l IH]; intros a Hag Hs; simpl in *.
  - rewrite Hag; [done|inlist].
  - destruct Hs as [Hy Hs]. split; [rewrite Hag; [done|inlist]|]. apply IH; [|done]. intros x Hx. apply Hag. inlist.
Qed.

(** A heap that has the handles of [live] as they are; any other handle is new, and
    linked nowhere. *)
Record heap_ok (s : Shard) (live : list loc) (d : gmap loc HandleData) (r f : gmap loc Z) (n p nh : gmap loc ptr) : Prop := {
  h_live : forall x, x ∈ live -> d !! x = hdata s !! x /\ r !! x = hrefs s !! x /\ f !! x = hflags s !! x /\
    n !! x = hnext s !! x /\ p !! x = hprev s !! x /\ nh !! x = hnext_hash s !! x;
  h_lru : d !! lru_ = None /\ n !! lru_ = hnext s !! lru_ /\ p !! lru_ = hprev s !! lru_;
  h_new : forall x d0, x ∉ live -> d !! x = Some d0 ->
    n !! x = Some None /\ p !! x = Some None /\ is_Some (f !! x) /\ 0 <= charge d0;
}.

Lemma Inv_heap {s live low high T ext} d r f n p nh del :
  Inv s live low high T ext -> heap_ok s live d r f n p nh ->
  Inv (upd_heap s d r f n p nh del) live low high T ext.
Proof.
  intros HI [Hlive Hlru Hnew]. pose proof (i_list _ _ _ _ _ _ HI) as HL.
  assert (forall x, x ∈ low ++ high -> x ∈ live) as Hlist.
  { intros x Hx. apply (i_table _ _ _ _ _ _ HI). by apply (i_lru _ _ _ _ _ _ HI) in Hx as [? _]. }
  assert (forall l, (forall x, x ∈ l -> x ∈ live) -> csum (upd_heap s d r f n p nh del) l = csum s l) as Hcs.
  { intros l Hl. apply csum_ext. intros x Hx. unfold charge_at. simpl. by rewrite (proj1 (Hlive x (Hl x Hx))). }
  constructor; try apply HI; simpl.
  - constructor; simpl; rewrite ?Hcs; try apply HL; try done; try (intros x Hx; apply Hlist; inlist).
    + eapply seg_agree; [|apply HL]. intros x Hx. apply elem_of_cons in Hx as [->|Hx]; [apply Hlru|].
      by apply Hlive, Hlist.
    + eapply seg_agree; [|apply HL]. intros x Hx. apply elem_of_cons in Hx as [->|Hx]; [apply Hlru|].
      rewrite elem_of_reverse in Hx. by apply Hlive, Hlist.
    + intros x Hx [d0 Hd0]. destruct (decide (x ∈ live)) as [Hxl|Hxl].
      * destruct (Hlive x Hxl) as (Hd & _ & _ & Hn & Hp & _).
        destruct (l_off _ _ _ _ HL x Hx) as [Hn' Hp']; [rewrite <- Hd; by eexists|].
        split; [exact (eq_trans Hn Hn')|exact (eq_trans Hp Hp')].
      * destruct (Hnew x d0 Hxl Hd0) as (Hn & Hp & _). done.
    + intros x Hx. rewrite (proj1 (Hlive x (Hlist x Hx))). by apply (l_data _ _ _ _ HL).
    + intros x d0 Hd0. destruct (decide (x ∈ live)) as [Hxl|Hxl]; [|by apply (Hnew x)].
      apply (l_charge _ _ _ _ HL x). by rewrite <- (proj1 (Hlive x Hxl)).
    + intros x [d0 Hd0]. destruct (decide (x ∈ live)) as [Hxl|Hxl]; [|by eapply Hnew].
      destruct (Hlive x Hxl) as (Hd & _ & -> & _). apply (l_flags _ _ _ _ HL). rewrite <- Hd. by eexists.
    + intros x g Hx. destruct (Hlive x (Hlist x Hx)) as (_ & _ & -> & _). by apply (l_pool_bit _ _ _ _ HL).
  - destruct (i_tab _ _ _ _ _ _ HI) as (bs & HT & Hp). exists bs. split; [|done].
    assert (forall x, x ∈ concat bs -> x ∈ live) as Hbl by (intros x; rewrite Hp; apply (i_table _ _ _ _ _ _ HI)).
    constructor; try apply HT; simpl.
    + eapply Forall2_impl_lookup_chain; [apply (tab_chains _ _ HT)|]. intros b Hb y Hy.
      apply Hlive, Hbl. by eapply in_concat_elem.
    + intros x Hx. destruct (tab_entries _ _ HT x Hx) as (d0 & Hd0 & Hh & n0 & Hn0 & Hne).
      destruct (Hlive x (Hbl x Hx)) as (Hd & _ & _ & Hn & _). exists d0.
      split; [exact (eq_trans Hd Hd0)|]. split; [done|]. exists n0. split; [exact (eq_trans Hn Hn0)|done].
    + intros i b x d0 Hi Hx. rewrite (proj1 (Hlive x (Hbl x ltac:(by eapply elem_concat)))).
      by apply (tab_bucket _ _ HT i b).
    + intros x y k h Hx Hy. unfold matches. simpl.
      rewrite (proj1 (Hlive x (Hbl x Hx))), (proj1 (Hlive y (Hbl y Hy))). by apply (tab_unique _ _ HT).
  - apply Hlru.
  - intros x Hx. rewrite (proj1 (Hlive x Hx)). by apply (i_alloc _ _ _ _ _ _ HI).
  - intros x Hx. rewrite (proj1 (proj2 (Hlive x Hx))). by apply (i_refs _ _ _ _ _ _ HI).
  - intros x g Hx. rewrite (proj1 (proj2 (proj2 (Hlive x Hx)))). by apply (i_flag _ _ _ _ _ _ HI).
  - rewrite Hcs by done. apply (i_usage _ _ _ _ _ _ HI).
Qed.

(** The calls of the deleter that freeing a handle makes. *)
Definition deletion_of (d : HandleData) : list Deletion :=
  match deleter d with Some f => [mkDeletion f (key_data d) (value d)] | None => [] end.
Definition deletions_of (s : Shard) (l : list loc) : list Deletion :=
  concat (map (fun x => match hdata s !! x with Some d => deletion_of d | None => [] end) l).

Definition freed (s : Shard) (x : loc) (del : list Deletion) : Shard :=
  upd_heap s (delete x (hdata s)) (delete x (hrefs s)) (delete x (hflags s)) (delete x (hnext s))
    (delete x (hprev s)) (delete x (hnext_hash s)) del.

Lemma heap_ok_delete {s live low high T ext} x :
  Inv s live low high T ext -> x ∉ live -> x <> lru_ ->
  heap_ok s live (delete x (hdata s)) (delete x (hrefs s)) (delete x (hflags s)) (delete x (hnext s))
    (delete x (hprev s)) (delete x (hnext_hash s)).
Proof.
  intros HI Hx Hxl. pose proof (i_list _ _ _ _ _ _ HI) as HL. constructor.
  - intros y Hy. rewrite !lookup_delete_ne by (by intros ->). done.
  - rewrite !lookup_delete_ne by done. split_and!; [apply (i_null _ _ _ _ _ _ HI)|done..].
  - intros y d0 Hy Hd. apply lookup_delete_Some in Hd as [Hne Hd]. rewrite !lookup_delete_ne by done.
    assert (hnext s !! y = Some None /\ hprev s !! y = Some None) as [Hn Hp].
    { apply (l_off _ _ _ _ HL); [|by eexists]. intros Hi. apply elem_of_cons in Hi as [->|Hi].
      - pose proof (i_null _ _ _ _ _ _ HI). congruence.
      - apply Hy, (i_table _ _ _ _ _ _ HI). by apply (i_lru _ _ _ _ _ _ HI) in Hi as [? _]. }
    split_and!; [exact Hn|exact Hp|apply (l_flags _ _ _ _ HL); by eexists|by eapply (l_charge _ _ _ _ HL)].
Qed.

Lemma Free_spec {s live low high T ext} x d :
  Inv s live low high T ext -> x ∉ live -> hdata s !! x = Some d -> freeable s x ->
  Free x s = Ret (tt, freed s x (deletions s ++ deletion_of d)) /\
  Inv (freed s x (deletions s ++ deletion_of d)) live low high T ext.
Proof.
  intros HI Hx Hd (r & f & Hr & Hf & Hrf).
  assert (x <> lru_) as Hxl by (intros ->; pose proof (i_null _ _ _ _ _ _ HI); congruence). split.
  - destruct (no_self_loop _ _ _ _ x (i_list _ _ _ _ _ _ HI) Hxl ltac:(by eexists)) as (n & Hn & Hne).
    unfold Free. mnext. mnext.
    erewrite M_bind_ret by (apply massert_eq; destruct Hrf as [[-> ->]|[-> ->]]; done). cbv beta iota.
    mnext. mstep (key_eq s x d n Hd Hn Hne). unfold modify, freed, deletion_of.
    destruct (deleter d); [done|by rewrite app_nil_r].
  - apply Inv_heap; [done|]. by eapply heap_ok_delete.
Qed.

(** [s'] is [s] without the handles of [l], whose deleters have been called in order. *)
Record gone (l : list loc) (s s' : Shard) : Prop := {
  g_data : forall x, hdata s' !! x = if decide (x ∈ l) then None else hdata s !! x;
  g_del : deletions s' = deletions s ++ deletions_of s l;
  g_refs : forall x, x ∉ l -> hrefs s' !! x = hrefs s !! x;
  g_flags : forall x, x ∉ l -> hflags s' !! x = hflags s !! x;
  g_ctl : capacity_ s' = capacity_ s /\ usage_ s' = usage_ s /\
    strict_capacity_limit_ s' = strict_capacity_limit_ s /\ high_pri_pool_ratio_ s' = high_pri_pool_ratio_ s;
}.

Lemma gone_refl s : gone [] s s.
Proof. constructor; try done. unfold deletions_of. simpl. by rewrite app_nil_r. Qed.

Lemma deletions_of_agree s s' l :
  (forall x, x ∈ l -> hdata s' !! x = hdata s !! x) -> deletions_of s' l = deletions_of s l.
Proof.
  unfold deletions_of. induction l as [|x l IH]; intros Hag; simpl; [done|]. rewrite Hag by inlist.
  f_equal. apply IH. intros y Hy. apply Hag. inlist.
Qed.

Lemma gone_freed x d s : hdata s !! x = Some d -> gone [x] s (freed s x (deletions s ++ deletion_of d)).
Proof.
  intros Hd. constructor; simpl; try done.
  - intros y. destruct (decide (y ∈ [x])) as [Hy|Hy].
    + apply list_elem_of_singleton in Hy as ->. apply lookup_delete_eq.
    + apply lookup_delete_ne. intros ->. apply Hy. inlist.
  - unfold deletions_of. simpl. by rewrite Hd, app_nil_r.
  - intros y Hy. apply lookup_delete_ne. intros ->. apply Hy. inlist.
  - intros y Hy. apply lookup_delete_ne. intros ->. apply Hy. inlist.
Qed.

Lemma gone_trans l k s1 s2 s3 :
  (forall x, x ∈ l -> x ∉ k) -> gone l s1 s2 -> gone k s2 s3 -> gone (l ++ k) s1 s3.
Proof.
  intros Hd H1 H2. constructor.
  - intros x. rewrite (g_data _ _ _ H2), (g_data _ _ _ H1).
    destruct (decide (x ∈ k)), (decide (x ∈ l)), (decide (x ∈ l ++ k)); done || exfalso; inlist.
  - rewrite (g_del _ _ _ H2), (g_del _ _ _ H1), <- app_assoc. f_equal.
    rewrite (deletions_of_agree s1 s2 k).
    + unfold deletions_of. by rewrite map_app, concat_app.
    + intros x Hx. rewrite (g_data _ _ _ H1). rewrite decide_False; [done|]. intros Hi. by apply (Hd x).
  - intros x Hx. rewrite (g_refs _ _ _ H2), (g_refs _ _ _ H1); [done|intros Hi; apply Hx; inlist..].
  - intros x Hx. rewrite (g_flags _ _ _ H2), (g_flags _ _ _ H1); [done|intros Hi; apply Hx; inlist..].
  - destruct (g_ctl _ _ _ H1) as (? & ? & ? & ?), (g_ctl _ _ _ H2) as (? & ? & ? & ?). split_and!; congruence.
Qed.

Lemma FreeAll_spec {s live low high T ext} l :
  Inv s live low high T ext -> NoDup l ->
  (forall x, x ∈ l -> (x ∉ live) /\ is_Some (hdata s !! x) /\ freeable s x) ->
  exists s', FreeAll l s = Ret (tt, s') /\ Inv s' live low high T ext /\ gone l s s'.
Proof.
  revert s; induction l as [|x l IH]; intros s HI Hnd Hl.
  { exists s. split_and!; [done|done|apply gone_refl]. }
  apply list.NoDup_cons in Hnd as [Hx Hnd]. destruct (Hl x ltac:(inlist)) as (Hxl & [d Hd] & Hfr).
  destruct (Free_spec x d HI Hxl Hd Hfr) as [E1 HI1]. pose proof (gone_freed x d s Hd) as Hg1.
  destruct (IH _ HI1 Hnd) as (s2 & E2 & HI2 & Hg2).
  { intros y Hy. destruct (Hl y ltac:(inlist)) as (Hyl & Hdy & r & f & Hr & Hf & Hc).
    assert (y ∉ [x]) as Hyx by (intros Hi; apply list_elem_of_singleton in Hi as ->; done).
    split; [done|]. split; [rewrite (g_data _ _ _ Hg1); by rewrite decide_False|].
    exists r, f. by rewrite (g_refs _ _ _ Hg1), (g_flags _ _ _ Hg1). }
  exists s2. split_and!; [by cbn [FreeAll]; mstep E1|done|].
  eapply (gone_trans [x] l); [|exact Hg1|exact Hg2]. intros y Hy. apply list_elem_of_singleton in Hy as ->. done.
Qed.

(** ** Between operations

    All allocated handles are live, and the usage exceeds the capacity only when the list
    is empty, that is when every entry is held by a client. *)
Record Quiet (s : Shard) (live low high T : list loc) (ext : loc -> Z) : Prop := {
  q_inv : Inv s live low high T ext;
  q_live : forall x, is_Some (hdata s !! x) -> x ∈ live;
  q_cap : usage_ s <= capacity_ s \/ low ++ high = [];
}.
