(* ===== verification/LruTraverse.v ===== *)
(** * LruTraverse: walking the whole table of a shard

    [ApplyToAllCacheEntries] and the destructor of the table follow every chain of
    [next_hash] pointers. On a shard that satisfies its invariant they visit each entry of
    the table once; the destructor frees those that nobody but the table refers to, also
    when a chain runs through entries that it has just freed. *)

From Stdlib Require Import Floats.SpecFloat.
From stdpp Require Import gmap.
From S2P Require Import Prelude.
From S2P Require Import Slice.
From S2P Require Import LruCache.
From S2P Require Import LruTable.
From S2P Require Import LruList.
From S2P Require Import LruInv.

(** ** The callback *)

(** The arguments of the call of the callback for an entry. *)
Definition entry_args (s : Shard) (x : loc) : Z * Z :=
  match hdata s !! x with Some d => (value d, charge d) | None => (0, 0) end.

(** What the traversal reads of an entry. *)
Definition cached (s : Shard) (x : loc) : Prop :=
  is_Some (hdata s !! x) /\ exists f, hflags s !! x = Some f /\ has_flag f 1 = true.

Lemma apply_chain_eq fuel p l s :
  chain (hnext_hash s) p l -> (forall x, x ∈ l -> cached s x) -> (length l <= fuel)%nat ->
  apply_chain fuel p s = Ret (map (entry_args s) l, s).
Proof.
  revert fuel p; induction l as [|x l IH]; intros fuel p Hc Hx Hf.
  { simpl in Hc. subst. by destruct fuel. }
  destruct Hc as (-> & n & Hn & Hc). destruct fuel as [|fuel]; simpl in Hf; [lia|].
  destruct (Hx x ltac:(inlist)) as ([d Hd] & f & Hfl & Hb). cbn [apply_chain].
  mstep (load_eq hnext_hash x n s Hn). mstep (InCache_eq x f s Hfl). mstep (massert_eq (has_flag f 1) s Hb).
  mstep (load_eq hdata x d s Hd). mstep (IH fuel n Hc ltac:(intros; apply Hx; inlist) ltac:(lia)).
  simpl. unfold entry_args at 2. by rewrite Hd.
Qed.

Lemma apply_buckets_eq fuel ps bs s :
  Forall2 (chain (hnext_hash s)) ps bs -> (forall x, x ∈ concat bs -> cached s x) ->
  (length (concat bs) <= fuel)%nat ->
  apply_buckets fuel ps s = Ret (map (entry_args s) (concat bs), s).
Proof.
  intros HF; induction HF as [|p b ps bs Hc HF IH]; intros Hx Hf; [done|]. simpl in Hx, Hf. rewrite length_app in Hf.
  cbn [apply_buckets]. mstep (apply_chain_eq fuel p b s Hc ltac:(intros; apply Hx; inlist) ltac:(lia)).
  mstep (IH ltac:(intros; apply Hx; inlist) ltac:(lia)). simpl. by rewrite map_app.
Qed.

(** ** The destructor *)

(** The entry is on the heap, in the table, has [r] references, and is no temporary handle. *)
Definition counted (s : Shard) (x : loc) : Prop :=
  cached s x /\ is_Some (hrefs s !! x) /\ exists n, hnext s !! x = Some n /\ n <> Some x.
Definition unshared (s : Shard) (x : loc) : bool := bool_decide (hrefs s !! x = Some 1).

Lemma Free_eq s x d :
  counted s x -> hdata s !! x = Some d -> hrefs s !! x = Some 1 ->
  Free x s = Ret (tt, freed s x (deletions s ++ deletion_of d)).
Proof.
  intros ((_ & f & Hf & Hb) & _ & n & Hn & Hne) Hd Hr. unfold Free. mstep (load_eq hrefs x 1 s Hr).
  mstep (InCache_eq x f s Hf). rewrite Hb. mstep (massert_eq true s eq_refl). mstep (load_eq hdata x d s Hd).
  mstep (key_eq s x d n Hd Hn Hne). unfold modify, freed, deletion_of. destruct (deleter d); [done|by rewrite app_nil_r].
Qed.

Lemma counted_freed s x del y : y <> x -> counted s y -> counted (freed s x del) y.
Proof.
  intros Hne ((Hd & Hf) & Hr & Hn). unfold counted, cached. simpl. rewrite !lookup_delete_ne by done.
  exact (conj (conj Hd Hf) (conj Hr Hn)).
Qed.

Lemma chain_freed s x del p l : x ∉ l -> chain (hnext_hash s) p l -> chain (hnext_hash (freed s x del)) p l.
Proof.
  revert p; induction l as [|y l IH]; intros p Hx Hc; [done|]. destruct Hc as (-> & n & Hn & Hc).
  split; [done|]. exists n. simpl. rewrite lookup_delete_ne by (intros ->; inlist). split; [done|].
  apply IH; [inlist|done].
Qed.

(** The handles that go when the entries of [l] are visited. *)
Definition frees (s : Shard) (l : list loc) : list loc := List.filter (unshared s) l.

Lemma frees_agree s s' l : (forall x, x ∈ l -> hrefs s' !! x = hrefs s !! x) -> frees s' l = frees s l.
Proof.
  unfold frees. induction l as [|x l IH]; intros Hag; [done|]. simpl.
  assert (unshared s' x = unshared s x) as -> by (unfold unshared; by rewrite Hag by inlist).
  rewrite IH; [done|]. intros y Hy. apply Hag. inlist.
Qed.

Lemma elem_frees s l x : x ∈ frees s l <-> x ∈ l /\ hrefs s !! x = Some 1.
Proof.
  unfold frees. rewrite !list_elem_of_In, filter_In. unfold unshared. by rewrite bool_decide_eq_true.
Qed.

Lemma NoDup_frees s l : NoDup l -> NoDup (frees s l).
Proof. rewrite !NoDup_ListNoDup. apply List.NoDup_filter. Qed.

(** The visit of a list of entries, one after the other. *)
Definition visited (l : list loc) (s s' : Shard) : Prop :=
  gone (frees s l) s s' /\
  (forall k, (forall x, x ∈ k -> x ∉ l) -> forall p, chain (hnext_hash s) p k -> chain (hnext_hash s') p k) /\
  (forall y, y ∉ l -> counted s y -> counted s' y).

Lemma visited_nil s : visited [] s s.
Proof. split; [apply gone_refl|]. by split. Qed.

Lemma visited_app l k s1 s2 s3 :
  (forall x, x ∈ l -> x ∉ k) -> visited l s1 s2 -> visited k s2 s3 -> visited (l ++ k) s1 s3.
Proof.
  intros Hd (Hg1 & Hc1 & Hk1) (Hg2 & Hc2 & Hk2). split; [|split].
  - assert (frees s2 k = frees s1 k) as Hf.
    { apply frees_agree. intros x Hx. apply (g_refs _ _ _ Hg1). rewrite elem_frees. intros [Hi _]. by apply (Hd x). }
    rewrite Hf in Hg2. unfold frees. rewrite List.filter_app. eapply gone_trans; [|exact Hg1|exact Hg2].
    intros x Hx Hx'. apply elem_frees in Hx as [Hx _]. apply elem_frees in Hx' as [Hx' _]. by apply (Hd x).
  - intros m Hm p Hp. apply Hc2; [intros x Hx Hi; apply (Hm x Hx); inlist|].
    apply Hc1; [intros x Hx Hi; apply (Hm x Hx); inlist|done].
  - intros y Hy Hc. apply Hk2; [inlist|]. apply Hk1; [inlist|done].
Qed.

(** One entry: what [h->refs == 1 ? h->Free()] does. *)
Lemma visit_one s x r : counted s x -> hrefs s !! x = Some r ->
  exists s', (if r =? 1 then Free x else mret tt) s = Ret (tt, s') /\ visited [x] s s'.
Proof.
  intros Hc Hr. unfold visited, frees. simpl. unfold unshared. rewrite Hr. destruct (Z.eqb_spec r 1) as [->|Hne].
  - rewrite bool_decide_true by done. destruct Hc as [[[d Hd] Hf] Hn]. eexists.
    split; [apply (Free_eq s x d); [by split; [split; [by exists d|]|]|done..]|]. split; [by apply gone_freed|]. split.
    + intros k Hk p. apply chain_freed. intros Hx. apply (Hk x Hx). inlist.
    + intros y Hy. apply counted_freed. intros ->. inlist.
  - rewrite bool_decide_false by congruence. exists s. split; [done|]. split; [apply gone_refl|]. by split.
Qed.

Lemma destroy_chain_spec fuel p l s :
  chain (hnext_hash s) p l -> NoDup l -> (forall x, x ∈ l -> counted s x) -> (length l <= fuel)%nat ->
  exists s', destroy_chain fuel p s = Ret (tt, s') /\ visited l s s'.
Proof.
  revert fuel p s; induction l as [|x l IH]; intros fuel p s Hc Hnd Hx Hf.
  { simpl in Hc. subst. exists s. split; [by destruct fuel|apply visited_nil]. }
  destruct Hc as (-> & n & Hn & Hc). destruct fuel as [|fuel]; simpl in Hf; [lia|].
  apply list.NoDup_cons in Hnd as [Hxl Hnd]. pose proof (Hx x ltac:(inlist)) as Hcx.
  destruct Hcx as ((_ & f & Hfl & Hb) & [r Hr] & _).
  destruct (visit_one s x r (Hx x ltac:(inlist)) Hr) as (s1 & E1 & Hv1).
  destruct (IH fuel n s1) as (s2 & E2 & Hv2); [|done| |lia|].
  { apply Hv1; [|done]. intros y Hy Hi. apply list_elem_of_singleton in Hi as ->. done. }
  { intros y Hy. apply Hv1; [intros Hi; apply list_elem_of_singleton in Hi as ->; done|apply Hx; inlist]. }
  exists s2. split.
  - cbn [destroy_chain]. mstep (load_eq hnext_hash x n s Hn). mstep (InCache_eq x f s Hfl).
    mstep (massert_eq (has_flag f 1) s Hb). mstep (load_eq hrefs x r s Hr). mstep E1. exact E2.
  - apply (visited_app [x] l s s1 s2); [|done..]. intros y Hy. by apply list_elem_of_singleton in Hy as ->.
Qed.

Lemma visited_chains l s s' ps bs :
  visited l s s' -> (forall x, x ∈ concat bs -> x ∉ l) -> Forall2 (chain (hnext_hash s)) ps bs ->
  Forall2 (chain (hnext_hash s')) ps bs.
Proof.
  intros (_ & Hch & _) Hd HF; induction HF as [|p b ps bs Hc HF IH]; constructor; simpl in Hd.
  - apply Hch; [|done]. intros x Hx. apply Hd. inlist.
  - apply IH. intros x Hx. apply Hd. inlist.
Qed.

Lemma destroy_buckets_spec fuel ps bs s :
  Forall2 (chain (hnext_hash s)) ps bs -> NoDup (concat bs) -> (forall x, x ∈ concat bs -> counted s x) ->
  (length (concat bs) <= fuel)%nat ->
  exists s', destroy_buckets fuel ps s = Ret (tt, s') /\ visited (concat bs) s s'.
Proof.
  revert s bs; induction ps as [|p ps IH]; intros s bs HF Hnd Hx Hf; inversion HF as [|? b ? bs' Hc HF']; subst.
  { exists s. split; [done|apply visited_nil]. }
  simpl in Hnd, Hx, Hf. rewrite length_app in Hf. apply list.NoDup_app in Hnd as (Hb & Hdis & Hnd).
  assert (forall x, x ∈ concat bs' -> x ∉ b) as Hdis' by (intros x Hx1 Hx2; by apply (Hdis x)).
  destruct (destroy_chain_spec fuel p b s Hc Hb ltac:(intros; apply Hx; inlist) ltac:(lia)) as (s1 & E1 & Hv1).
  destruct (IH s1 bs') as (s2 & E2 & Hv2); [by eapply visited_chains|done| |lia|].
  - intros x Hi. apply Hv1; [by apply Hdis'|apply Hx; inlist].
  - exists s2. split; [by cbn [destroy_buckets]; mstep E1|]. simpl. eapply visited_app; [|exact Hv1|exact Hv2].
    intros x Hi Hi'. by apply (Hdis' x).
Qed.

(** ** On a shard that satisfies its invariant *)

Section shard.
Context {s : Shard} {live low high T : list loc} {ext : loc -> Z} (HI : Inv s live low high T ext).
#[local] Set Default Proof Using "All".

Lemma table_counted x : x ∈ T -> counted s x.
Proof.
  intros Hx. destruct (inv_handle HI x (i_table _ _ _ _ _ _ HI x Hx)) as (d & f & Hd & Hf & _ & Hr & Hb & Hn).
  split; [split; [by eexists|exists f; split; [done|by apply Hb]]|]. split; [by eexists|done].
Qed.

Lemma ApplyToAll_spec :
  exists l, l ≡ₚ T /\ ApplyToAllCacheEntries s = Ret (map (entry_args s) l, s).
Proof.
  destruct (i_tab _ _ _ _ _ _ HI) as (bs & HT & Hp). exists (concat bs). split; [done|].
  unfold ApplyToAllCacheEntries. mstep (get_eq s). apply apply_buckets_eq; [apply (tab_chains _ _ HT)| |].
  - intros x Hx. apply table_counted. by rewrite <- Hp.
  - rewrite (tab_elems _ _ HT). unfold zlen. lia.
Qed.

(** The entries that nobody holds are those of the LRU list. *)
Lemma table_delete_spec :
  exists l s', l ≡ₚ low ++ high /\ LRUHandleTable_delete s = Ret (tt, s') /\ gone l s s'.
Proof.
  destruct (i_tab _ _ _ _ _ _ HI) as (bs & HT & Hp). pose proof (tab_nodup _ _ HT) as Hnd.
  destruct (destroy_buckets_spec (S (Z.to_nat (elems_ s))) (list_ s) bs s) as (s' & E & Hg & _).
  - apply (tab_chains _ _ HT).
  - done.
  - intros x Hx. apply table_counted. by rewrite <- Hp.
  - rewrite (tab_elems _ _ HT). unfold zlen. lia.
  - exists (frees s (concat bs)), s'. split; [|split; [|done]].
    2: { unfold LRUHandleTable_delete. by mstep (get_eq s). }
    pose proof (l_nodup _ _ _ _ (i_list _ _ _ _ _ _ HI)) as Hl. apply list.NoDup_cons in Hl as [_ Hl].
    apply NoDup_Permutation; [by apply NoDup_frees|done|]. intros x. rewrite elem_frees, Hp, (i_lru _ _ _ _ _ _ HI).
    split; intros [Hx Hr]; (split; [done|]);
      pose proof (i_refs _ _ _ _ _ _ HI x (i_table _ _ _ _ _ _ HI x Hx)) as Hr'; rewrite (tin_in _ _ Hx) in Hr'.
    + rewrite Hr in Hr'. injection Hr'. lia.
    + rewrite Hr', Hr. done.
Qed.
End shard.
