(* ===== verification/LruOps.v ===== *)
(** * LruOps: the operations of a cache shard

    What each public operation of [LRUCacheShard] does to a shard that is at rest, and
    that it leaves it at rest. *)

From Stdlib Require Import Strings.Byte Strings.String Floats.SpecFloat.
From stdpp Require Import gmap.
From S2P Require Import Prelude.
From S2P Require Import Slice.
From S2P Require Import Coding.
From S2P Require Import Status.
From S2P Require Import LruCache.
From S2P Require Import LruTable.
From S2P Require Import LruList.
From S2P Require Import LruInv.

(** ** Settings *)

Lemma Inv_ctl {s live low high T ext} cap st ra hc :
  Inv s live low high T ext -> 0 <= cap < 2 ^ 64 -> double_nonneg ra -> double_nonneg hc ->
  Inv (upd_ctl s cap (usage_ s) (lru_usage_ s) (high_pri_pool_usage_ s) st ra hc (lru_low_pri_ s))
    live low high T ext.
Proof.
  intros HI Hc Hr Hh. set (s' := upd_ctl _ _ _ _ _ _ _ _ _).
  assert (forall l, csum s' l = csum s l) as Hcs by (intros; by apply csum_data).
  constructor; rewrite ?Hcs; try apply HI; try done.
  - pose proof (i_list _ _ _ _ _ _ HI) as HL. constructor; rewrite ?Hcs; try apply HL. done.
  - destruct (i_tab _ _ _ _ _ _ HI) as (bs & HT & Hp). exists bs. split; [|done]. by destruct HT; constructor.
Qed.

(** ** Evicting and freeing *)

(** The shard has evicted and freed [ev], the shortest prefix of the list that makes [P]
    false; [extra] are other calls of deleters. *)
Record reclaimed (P : Z -> Z -> bool) (extra : list Deletion) (s : Shard) (live low high T : list loc) (ext : loc -> Z)
    (ev : list loc) (s' : Shard) (live' low' high' T' : list loc) : Prop := {
  rc_quiet : Quiet s' live' low' high' T' ext;
  rc_live : live ≡ₚ ev ++ live';
  rc_table : T ≡ₚ ev ++ T';
  rc_list : low ++ high = ev ++ low' ++ high';
  rc_evicts : evicts P s (low ++ high) ev;
  rc_usage : usage_ s' = usage_ s - csum s ev;
  rc_gone : forall x, hdata s' !! x = if decide (x ∈ ev) then None else hdata s !! x;
  rc_del : deletions s' = deletions s ++ deletions_of s ev ++ extra;
  rc_cap : capacity_ s' = capacity_ s;
}.

Lemma reclaim_spec P cond {s live low high T ext} :
  (forall s, cond s = P (capacity_ s) (usage_ s)) -> (forall c u, P c u = false -> 0 <= u < 2 ^ 64 -> u <= c) ->
  Inv s live low high T ext -> (forall x, is_Some (hdata s !! x) -> x ∈ live) ->
  exists ev s' live' low' high' T',
    (l ← evict_loop (list_fuel s) cond; FreeAll l) s = Ret (tt, s') /\
    reclaimed P [] s live low high T ext ev s' live' low' high' T'.
Proof.
  intros HP HPle HI Hall. pose proof (list_fuel_enough _ _ _ _ (i_list _ _ _ _ _ _ HI)) as Hf.
  destruct (evict_loop_spec P cond (list_fuel s) HP HI ltac:(lia))
    as (ev & s1 & live' & low' & high' & T' & E1 & HI1 & Hk1 & Hfr1 & Hl1 & HT1 & Hlh & Hev & Hu1).
  pose proof (i_nodup _ _ _ _ _ _ HI) as Hnd. rewrite Hl1 in Hnd. apply list.NoDup_app in Hnd as (Hnd & Hdis & _).
  destruct (FreeAll_spec ev HI1 Hnd) as (s2 & E2 & HI2 & Hg2).
  { intros x Hx. split; [by apply Hdis|]. split; [|by apply Hfr1]. rewrite (k_data _ _ _ Hk1).
    apply (i_alloc _ _ _ _ _ _ HI). rewrite Hl1. inlist. }
  destruct (g_ctl _ _ _ Hg2) as (Hgc & Hgu & _).
  exists ev, s2, live', low', high', T'. split; [by mstep E1|]. constructor; try done.
  - constructor; [done| |].
    + intros x. rewrite (g_data _ _ _ Hg2), (k_data _ _ _ Hk1). destruct (decide (x ∈ ev)) as [Hx|Hx]; [by intros []|].
      intros Hd. apply Hall in Hd. rewrite Hl1 in Hd. inlist.
    + rewrite Hgc, Hgu, Hu1, (k_cap _ _ _ Hk1). destruct Hev as [(rest & Hr & [->|HPf]) _].
      * right. rewrite Hlh in Hr. by apply app_inv_head in Hr.
      * left. apply HPle; [done|]. rewrite <- Hu1. split; [|apply (i_usage_bound _ _ _ _ _ _ HI1)].
        rewrite (i_usage _ _ _ _ _ _ HI1). apply csum_nonneg, (l_charge _ _ _ _ (i_list _ _ _ _ _ _ HI1)).
  - congruence.
  - intros x. by rewrite (g_data _ _ _ Hg2), (k_data _ _ _ Hk1).
  - rewrite (g_del _ _ _ Hg2), (k_del _ _ _ Hk1), app_nil_r. f_equal. apply deletions_of_agree. by rewrite (k_data _ _ _ Hk1).
  - by rewrite Hgc, (k_cap _ _ _ Hk1).
Qed.

Lemma filter_out (l : list loc) e : e ∉ l -> filter (fun x => x <> e) l = l.
Proof.
  induction l as [|x l IH]; intros He; [done|]. rewrite filter_cons_True by (intros ->; apply He; inlist).
  f_equal. apply IH. intros Hi. apply He. inlist.
Qed.

Lemma filter_mid (l1 l2 : list loc) e : NoDup (l1 ++ e :: l2) -> filter (fun x => x <> e) (l1 ++ e :: l2) = l1 ++ l2.
Proof.
  intros Hnd. apply list.NoDup_app in Hnd as (_ & Hdis & Hnd). apply list.NoDup_cons in Hnd as [Hn2 _].
  rewrite list.filter_app, filter_cons_False, !filter_out; [done|done| |naive_solver].
  intros Hi1. apply (Hdis e Hi1). inlist.
Qed.

(** The condition of [EvictFromLRU] for a new charge. *)
Definition over (charge c u : Z) : bool := c <? u64 (u + charge).
Lemma over_fits charge c u : over charge c u = false -> 0 <= charge -> 0 <= u -> u + charge < 2 ^ 64 -> u + charge <= c.
Proof. unfold over. intros Hc ? ? ?. rewrite u64_small in Hc by lia. lia. Qed.
Lemma fits c u : over 0 c u = false -> 0 <= u < 2 ^ 64 -> u <= c.
Proof. intros Hc Hu. apply over_fits in Hc; lia. Qed.

Section operations.
Context {s : Shard} {live low high T : list loc} {ext : loc -> Z} (HQ : Quiet s live low high T ext).
#[local] Set Default Proof Using "All".
Let HI : Inv s live low high T ext := q_inv _ _ _ _ _ _ HQ.

(** [EraseUnRefEntries] drops every entry that no client holds. *)
Lemma EraseUnRefEntries_spec :
  exists s' live' low' high' T', EraseUnRefEntries s = Ret (tt, s') /\
    reclaimed (fun _ _ => true) [] s live low high T ext (low ++ high) s' live' low' high' T'.
Proof.
  destruct (reclaim_spec (fun _ _ => true) (fun _ => true) (fun _ => eq_refl) ltac:(done) HI (q_live _ _ _ _ _ _ HQ))
    as (ev & s' & live' & low' & high' & T' & E & HR).
  exists s', live', low', high', T'. split; [exact E|].
  assert (ev = low ++ high) as <-; [|done].
  destruct (rc_evicts _ _ _ _ _ _ _ _ _ _ _ _ _ _ HR) as [(rest & Hr & [->|]) _]; [by rewrite app_nil_r in Hr|done].
Qed.

(** [SetCapacity] evicts until the usage fits the new capacity. *)
Lemma SetCapacity_spec capacity :
  0 <= capacity < 2 ^ 64 ->
  exists ev s' live' low' high' T', SetCapacity capacity s = Ret (tt, s') /\
    reclaimed (over 0) []
      (upd_ctl s capacity (usage_ s) (lru_usage_ s) (high_pri_pool_usage_ s) (strict_capacity_limit_ s)
        (high_pri_pool_ratio_ s) (double_mul (double_of_size_t capacity) (high_pri_pool_ratio_ s)) (lru_low_pri_ s))
      live low high T ext ev s' live' low' high' T'.
Proof.
  intros Hc. pose proof (Inv_ctl capacity (strict_capacity_limit_ s) (high_pri_pool_ratio_ s)
    (double_mul (double_of_size_t capacity) (high_pri_pool_ratio_ s)) HI Hc (i_ratio _ _ _ _ _ _ HI)
    (double_mul_nonneg _ _ (double_of_size_t_nonneg _ (proj1 Hc)) (i_ratio _ _ _ _ _ _ HI))) as HI'.
  destruct (reclaim_spec (over 0) (fun s => capacity_ s <? u64 (usage_ s + 0))
    (fun _ => eq_refl) fits HI' (q_live _ _ _ _ _ _ HQ)) as (ev & s' & live' & low' & high' & T' & E & HR).
  exists ev, s', live', low', high', T'. split; [exact E|exact HR].
Qed.

(** The other settings. *)
Lemma SetStrictCapacityLimit_spec strict :
  exists s', SetStrictCapacityLimit strict s = Ret (tt, s') /\ Quiet s' live low high T ext /\
    strict_capacity_limit_ s' = strict /\ hdata s' = hdata s /\ deletions s' = deletions s.
Proof.
  pose proof (Inv_ctl (capacity_ s) strict (high_pri_pool_ratio_ s) (high_pri_pool_capacity_ s) HI
    (i_capacity _ _ _ _ _ _ HI) (i_ratio _ _ _ _ _ _ HI) (l_cap _ _ _ _ (i_list _ _ _ _ _ _ HI))) as HI'.
  eexists. split; [reflexivity|]. split; [|done]. constructor; [done|apply (q_live _ _ _ _ _ _ HQ)|apply (q_cap _ _ _ _ _ _ HQ)].
Qed.

(** A new pool ratio only moves the boundary between the two parts of the list. *)
Lemma SetHighPriorityPoolRatio_spec ratio :
  double_nonneg ratio ->
  exists s' high1 high2, SetHighPriorityPoolRatio ratio s = Ret (tt, s') /\ high = high1 ++ high2 /\
    Quiet s' live (low ++ high1) high2 T ext /\ high_pri_pool_ratio_ s' = ratio /\
    double_gt (double_of_size_t (high_pri_pool_usage_ s')) (high_pri_pool_capacity_ s') = false /\
    hdata s' = hdata s /\ deletions s' = deletions s.
Proof.
  intros Hr. pose proof (i_capacity _ _ _ _ _ _ HI) as Hc.
  pose proof (Inv_ctl (capacity_ s) (strict_capacity_limit_ s) ratio
    (double_mul (double_of_size_t (capacity_ s)) ratio) HI Hc Hr
    (double_mul_nonneg _ _ (double_of_size_t_nonneg _ (proj1 Hc)) Hr)) as HI'.
  destruct (MaintainPoolSize_spec _ _ _ _ (i_list _ _ _ _ _ _ HI'))
    as (s' & h1 & h2 & -> & E & HL' & Hfr & _ & Hgt).
  exists s', h1, h2. split; [exact E|]. split; [done|].
  pose proof (kept_list_frame _ _ Hfr) as Hk.
  split; [|by rewrite (lf_ratio _ _ Hfr), (lf_data _ _ Hfr), (lf_del _ _ Hfr)]. constructor.
  - apply (Inv_update HI' []); try done.
    + eapply TabOf_list_frame; [exact Hfr|exact HL'|apply (inv_lru_notin HI)|apply (i_tab _ _ _ _ _ _ HI')].
    + apply (i_nodup _ _ _ _ _ _ HI).
    + intros x Hx. by apply not_elem_of_nil in Hx.
    + intros y. rewrite <- app_assoc. apply (i_lru _ _ _ _ _ _ HI).
    + rewrite (lf_usage _ _ Hfr). apply (i_usage _ _ _ _ _ _ HI').
    + rewrite (lf_usage _ _ Hfr). apply (i_usage_bound _ _ _ _ _ _ HI').
  - intros x. rewrite (lf_data _ _ Hfr). apply (q_live _ _ _ _ _ _ HQ).
  - rewrite (lf_usage _ _ Hfr), (lf_cap _ _ Hfr), <- app_assoc. apply (q_cap _ _ _ _ _ _ HQ).
Qed.

(** ** [Lookup] *)

(** An entry of the table without other references leaves the list. *)
Lemma unlink_if_unheld e :
  e ∈ T ->
  exists s1 low' high', (if ext e + 1 =? 1 then LRU_Remove e else mret tt) s = Ret (tt, s1) /\
    Lst s1 low' high' /\ list_frame s s1 /\ hflags s1 = hflags s /\
    low' ++ high' = filter (fun x => x <> e) (low ++ high).
Proof.
  intros HeT. pose proof (i_list _ _ _ _ _ _ HI) as HL. destruct (Z.eqb_spec (ext e + 1) 1) as [He|He].
  - assert (e ∈ low ++ high) as Hi by (apply (i_lru _ _ _ _ _ _ HI); split; [done|lia]).
    destruct (LRU_Remove_spec s low high e HL Hi) as (s1 & low' & high' & l1 & l2 & E1 & HL1 & Hfr & Hfl & Hsp & Hsp').
    exists s1, low', high'. do 4 (split; [done|]).
    pose proof (l_nodup _ _ _ _ HL) as Hnd. apply list.NoDup_cons in Hnd as [_ Hnd]. rewrite Hsp in *.
    by rewrite filter_mid.
  - exists s, low, high. do 2 (split; [done|]). split; [by destruct s; constructor; try done; intros x f f' -> [= ->]|].
    split; [done|]. rewrite filter_out; [done|]. intros Hi. apply (i_lru _ _ _ _ _ _ HI) in Hi as [_ Hi]. lia.
Qed.

Lemma Lookup_spec k h :
  0 <= h -> (forall x, ext x + 1 < 2 ^ 32 - 1) ->
  exists p s', Lookup k h s = Ret (p, s') /\
    match p with
    | None => s' = s /\ forall x, x ∈ T -> ~ matches s k h x
    | Some e => e ∈ T /\ matches s k h e /\ kept [e] s s' /\ usage_ s' = usage_ s /\
        exists low' high', Quiet s' live low' high' T (upd ext e (ext e + 1)) /\
          low' ++ high' = filter (fun x => x <> e) (low ++ high)
    end.
Proof.
  intros Hh Hext. destruct (TabOf_Lookup s T k h (i_tab _ _ _ _ _ _ HI) Hh) as ([e|] & E & Hm);
    [|exists None, s; split; [unfold Lookup; by mstep E|done]].
  destruct Hm as [HeT Hm]. pose proof (i_table _ _ _ _ _ _ HI e HeT) as Hel.
  destruct (inv_handle HI e Hel) as (d & f & Hd & Hf & Hc & Hr & Hb & _). rewrite (tin_in _ _ HeT) in Hr.
  pose proof (i_ext _ _ _ _ _ _ HI e) as Hx. specialize (Hext e). apply Hb in HeT as Hbt.
  destruct (unlink_if_unheld e HeT) as (s1 & low' & high' & E1 & HL1 & Hfr1 & Hfl1 & Hlh).
  pose proof (kept_list_frame _ _ Hfr1) as Hk1.
  assert (hrefs s1 !! e = Some (ext e + 1)) as Hr1 by (by rewrite (lf_refs _ _ Hfr1)).
  set (s2 := with_refs s1 (<[e := u32 (ext e + 1 + 1)]> (hrefs s1)) (hflags s1) (usage_ s1)).
  assert (kept [e] s s2) as Hk2.
  { apply (kept_trans [] [e] s s1); [done|]. constructor; try done; simpl.
    - intros x Hxe. apply lookup_insert_ne. intros ->. apply Hxe. inlist.
    - intros x g _ Hg. by exists g. }
  exists (Some e), s2. split.
  { unfold Lookup. mstep E. mnext. mstep (massert_eq _ s Hbt).
    erewrite M_bind_ret by (by apply load_eq). cbv beta iota. mstep E1. mnext. mnext. done. }
  split; [done|]. split; [done|]. split; [done|]. split; [by apply (lf_usage _ _ Hfr1)|]. exists low', high'. split; [|done].
  constructor.
  - apply (Inv_ref HI e); try done.
    + by left.
    + lia.
    + apply LstP_with_refs; [done|]. intros x g Hg. by exists g.
    + apply TabOf_with_refs. eapply TabOf_list_frame; [exact Hfr1|exact HL1|apply (inv_lru_notin HI)|apply (i_tab _ _ _ _ _ _ HI)].
    + simpl. by rewrite lookup_insert_eq, (tin_in _ _ HeT), u32_small by lia.
    + intros g Hg. exists g. split; [|done]. simpl. by rewrite Hfl1.
    + intros y. rewrite Hlh, list_elem_of_filter, (i_lru _ _ _ _ _ _ HI). unfold upd.
      destruct (decide (y = e)) as [->|Hne]; [split; [naive_solver|lia]|naive_solver].
    + apply (lf_usage _ _ Hfr1).
  - intros x. simpl. rewrite (lf_data _ _ Hfr1). apply (q_live _ _ _ _ _ _ HQ).
  - simpl. rewrite (lf_usage _ _ Hfr1), (lf_cap _ _ Hfr1), Hlh. destruct (q_cap _ _ _ _ _ _ HQ) as [Hle| ->]; [by left|by right].
Qed.

(** ** [Release] *)

Lemma inv_usage_nonneg : 0 <= usage_ s.
Proof. rewrite (i_usage _ _ _ _ _ _ HI). apply csum_nonneg, (l_charge _ _ _ _ (i_list _ _ _ _ _ _ HI)). Qed.

(** Only the reference count of [e] changes. *)
Lemma drop_ref e n :
  e ∈ live -> (e ∈ T \/ 0 < n) -> 0 <= n < 2 ^ 32 - 1 -> (n = 0 -> e ∈ low ++ high) -> (0 < n -> e ∉ low ++ high) ->
  Quiet (with_refs s (<[e := n + tin T e]> (hrefs s)) (hflags s) (usage_ s)) live low high T (upd ext e n).
Proof.
  intros Hel Hh Hn H0 H1. set (s' := with_refs s _ _ _).
  assert (kept [e] s s') as Hk.
  { constructor; try done; simpl.
    - intros x Hx. apply lookup_insert_ne. intros ->. apply Hx. inlist.
    - intros x g _ Hg. by exists g. }
  constructor; [|apply (q_live _ _ _ _ _ _ HQ)|apply (q_cap _ _ _ _ _ _ HQ)].
  apply (Inv_ref HI e); try done.
  - apply LstP_with_refs; [apply (i_list _ _ _ _ _ _ HI)|]. intros x g Hg. by exists g.
  - apply TabOf_with_refs, (i_tab _ _ _ _ _ _ HI).
  - simpl. by rewrite lookup_insert_eq.
  - intros g Hg. by exists g.
  - intros y. unfold upd. destruct (decide (y = e)) as [->|Hne]; [|apply (i_lru _ _ _ _ _ _ HI)].
    split.
    + intros Hi. destruct (decide (n = 0)) as [->|]; [|by destruct (H1 ltac:(lia))].
      split; [|done]. by apply (i_lru _ _ _ _ _ _ HI) in Hi as [? _].
    + intros [_ ->]. by apply H0.
Qed.

(** A reference that is not the last one from outside. *)
Lemma Release_shared e :
  1 < ext e -> exists s', Release (Some e) s = Ret (tt, s') /\ Quiet s' live low high T (upd ext e (ext e - 1)) /\
    hdata s' = hdata s /\ deletions s' = deletions s /\ usage_ s' = usage_ s.
Proof.
  intros He. pose proof (i_ext_live _ _ _ _ _ _ HI e ltac:(lia)) as Hel.
  destruct (inv_handle HI e Hel) as (d & f & Hd & Hf & Hc & Hr & Hb & _).
  pose proof (i_ext _ _ _ _ _ _ HI e) as Hx.
  assert (0 <= tin T e <= 1) as Ht by (unfold tin; destruct (decide (e ∈ T)); lia).
  assert (e ∉ low ++ high) as Hnl by (intros Hi; apply (i_lru _ _ _ _ _ _ HI) in Hi as [_ Hi]; lia).
  exists (with_refs s (<[e := ext e - 1 + tin T e]> (hrefs s)) (hflags s) (usage_ s)).
  split; [|split; [|done]].
  - unfold Release, Release_locked.
    erewrite (M_bind_ret (_ ← Unref e; _)); [|].
    2: { mstep (Unref_eq e _ s Hr ltac:(lia)).
         replace (ext e + tin T e - 1) with (ext e - 1 + tin T e) by lia.
         replace (ext e - 1 + tin T e =? 0) with false by lia.
         mnext. erewrite (M_bind_ret (mret tt)) by reflexivity. cbv beta iota.
         erewrite (M_bind_ret (load hrefs e)) by (apply load_eq; simpl; apply lookup_insert_eq). cbv beta iota.
         mnext. 
         assert ((ext e - 1 + tin T e =? 1) && has_flag f 1 = false) as ->; [|reflexivity].
         destruct (has_flag f 1) eqn:Hb1; [|by rewrite andb_false_r]. rewrite tin_in by (by apply Hb). lia. }
    reflexivity.
  - apply drop_ref; try done; lia || (right; lia) || (intros; lia).
Qed.

(** [e] was the last handle to forget, and its memory is freed. *)
Record dropped (e : loc) (s' : Shard) (live' low' high' T' : list loc) : Prop := {
  dr_quiet : Quiet s' live' low' high' T' (upd ext e 0);
  dr_live : live ≡ₚ e :: live';
  dr_table : forall y, y ∈ T' <-> y ∈ T /\ y <> e;
  dr_list : forall y, y ∈ low' ++ high' <-> y ∈ low ++ high /\ y <> e;
  dr_gone : forall x, hdata s' !! x = if decide (x = e) then None else hdata s !! x;
  dr_del : deletions s' = deletions s ++ deletions_of s [e];
  dr_usage : usage_ s' <= usage_ s;
}.

Lemma drop_spec e d s1 live' low' high' T' :
  live ≡ₚ e :: live' -> hdata s !! e = Some d -> kept [e] s s1 -> Lst s1 low' high' -> TabOf s1 T' ->
  (forall y, y ∈ low' ++ high' <-> y ∈ low ++ high /\ y <> e) -> (forall y, y ∈ T' <-> y ∈ T /\ y <> e) ->
  usage_ s1 = usage_ s - charge d -> freeable s1 e ->
  exists s', Free e s1 = Ret (tt, s') /\ dropped e s' live' low' high' T'.
Proof.
  intros Hlive Hd Hk HL' HT' Hlow HTx Hu Hfr.
  pose proof (Inv_forget HI e d s1 low' high' T' live' Hlive Hd Hk HL' HT' Hlow HTx Hu) as HI'.
  destruct (inv_charge_le HI e d live' Hlive Hd) as (Hc & _ & _).
  pose proof (i_nodup _ _ _ _ _ _ HI) as Hnd. rewrite Hlive in Hnd. apply list.NoDup_cons in Hnd as [Hel _].
  assert (hdata s1 !! e = Some d) as Hd1 by (by rewrite (k_data _ _ _ Hk)).
  destruct (Free_spec e d HI' Hel Hd1 Hfr) as [E HI2]. pose proof (gone_freed e d s1 Hd1) as Hg.
  eexists. split; [exact E|].
  assert (forall x, hdata (freed s1 e (deletions s1 ++ deletion_of d)) !! x =
    if decide (x = e) then None else hdata s !! x) as Hgone.
  { intros x. rewrite (g_data _ _ _ Hg), (k_data _ _ _ Hk).
    destruct (decide (x = e)) as [->|Hne]; [rewrite decide_True; [done|inlist]|].
    rewrite decide_False; [done|]. intros Hi. by apply list_elem_of_singleton in Hi. }
  constructor; try done.
  - constructor; [done| |].
    + intros x. rewrite Hgone. destruct (decide (x = e)) as [->|Hne]; [by intros []|]. intros Hx.
      apply (q_live _ _ _ _ _ _ HQ) in Hx. rewrite Hlive in Hx. inlist.
    + simpl. rewrite Hu, (k_cap _ _ _ Hk). destruct (q_cap _ _ _ _ _ _ HQ) as [Hle|Hnil]; [left; lia|right].
      destruct (low' ++ high') as [|x l]; [done|]. exfalso.
      destruct (proj1 (Hlow x) ltac:(inlist)) as [Hx _]. rewrite Hnil in Hx. by apply not_elem_of_nil in Hx.
  - rewrite (g_del _ _ _ Hg), (k_del _ _ _ Hk). f_equal. apply deletions_of_agree. by rewrite (k_data _ _ _ Hk).
  - simpl. lia.
Qed.

Lemma set_ref_kept e n : kept [e] s (with_refs s (<[e := n]> (hrefs s)) (hflags s) (usage_ s)).
Proof.
  constructor; try done; simpl.
  - intros x Hx. apply lookup_insert_ne. intros ->. apply Hx. inlist.
  - intros x g _ Hg. by exists g.
Qed.

(** The last reference to an entry that is no longer in the table. *)
Lemma Release_last e :
  ext e = 1 -> e ∉ T ->
  exists s' live' low' high' T', Release (Some e) s = Ret (tt, s') /\ dropped e s' live' low' high' T'.
Proof.
  intros He HeT. pose proof (i_ext_live _ _ _ _ _ _ HI e ltac:(lia)) as Hel.
  destruct (inv_handle HI e Hel) as (d & f & Hd & Hf & Hc & Hr & Hb & _).
  rewrite He, (tin_out _ _ HeT) in Hr. destruct (split_perm live e Hel) as [live' Hlive].
  destruct (inv_charge_le HI e d live' Hlive Hd) as (_ & Hu & Hcs). pose proof (i_usage_bound _ _ _ _ _ _ HI).
  assert (has_flag f 1 = false) as Hb1 by (destruct (has_flag f 1); [by destruct HeT; apply Hb|done]).
  assert (e ∉ low ++ high) as Hnl by (intros Hi; apply (i_lru _ _ _ _ _ _ HI) in Hi as [_ Hi]; lia).
  set (s1 := with_refs s (<[e := 0]> (hrefs s)) (hflags s) (usage_ s - charge d)).
  destruct (drop_spec e d s1 live' low high T Hlive Hd) as (s' & E & HD).
  - constructor; try apply (set_ref_kept e 0).
  - apply LstP_with_refs; [apply (i_list _ _ _ _ _ _ HI)|]. intros x g Hg. by exists g.
  - apply TabOf_with_refs, (i_tab _ _ _ _ _ _ HI).
  - intros y. split; [|naive_solver]. intros Hy. split; [done|]. by intros ->.
  - intros y. split; [|naive_solver]. intros Hy. split; [done|]. by intros ->.
  - done.
  - exists 0, f. split; [simpl; apply lookup_insert_eq|]. split; [done|]. by right.
  - exists s', live', low, high, T. split; [|exact HD].
    unfold Release. erewrite (M_bind_ret (Release_locked e) _ s true); [exact E|]. unfold Release_locked.
    mstep (Unref_eq e _ s Hr ltac:(lia)). change (1 + 0 - 1) with 0. change (0 =? 0) with true. mnext.
    erewrite (M_bind_ret (modify _)) by reflexivity. cbv beta iota.
    erewrite (M_bind_ret (load hrefs e)) by (apply load_eq; simpl; apply lookup_insert_eq). cbv beta iota.
    mnext. simpl. unfold s1, with_refs, mret, M_ret, set_usage, set_flags, set_refs, upd_ctl, upd_heap. simpl.
    by rewrite u64_small by lia.
Qed.

(** The last reference from outside to an entry of the table, when the cache is over its
    capacity: the entry is dropped. *)
Lemma Release_over e :
  ext e = 1 -> e ∈ T -> capacity_ s < usage_ s ->
  exists s' live' low' high' T', Release (Some e) s = Ret (tt, s') /\ dropped e s' live' low' high' T'.
Proof.
  intros He HeT Hover. pose proof (i_ext_live _ _ _ _ _ _ HI e ltac:(lia)) as Hel.
  destruct (inv_handle HI e Hel) as (d & f & Hd & Hf & Hc & Hr & Hb & n & Hn & Hne).
  rewrite He, (tin_in _ _ HeT) in Hr. destruct (split_perm live e Hel) as [live' Hlive].
  destruct (inv_charge_le HI e d live' Hlive Hd) as (_ & Hu & Hcs). pose proof (i_usage_bound _ _ _ _ _ _ HI).
  apply Hb in HeT as Hb1.
  assert (low ++ high = []) as Hnil by (destruct (q_cap _ _ _ _ _ _ HQ); [lia|done]).
  pose proof (seg_head _ _ _ _ (l_next _ _ _ _ (i_list _ _ _ _ _ _ HI))) as Hold. rewrite Hnil in Hold.
  set (s1 := with_refs s (<[e := 1]> (hrefs s)) (hflags s) (usage_ s)).
  assert (Lst s1 low high) as HL1.
  { apply LstP_with_refs; [apply (i_list _ _ _ _ _ _ HI)|]. intros x g Hg. by exists g. }
  pose proof (TabOf_with_refs _ _ (<[e := 1]> (hrefs s)) (hflags s) (usage_ s) (i_tab _ _ _ _ _ _ HI)) as HT1.
  destruct (TabOf_Remove_self s1 T e d HT1 HeT Hd) as (s2 & T' & E2 & Htf & HTp & HT2).
  assert (hflags s2 !! e = Some f) as Hf2 by (destruct Htf as [->]; done).
  destruct (detached e d f s s1 s2 low high T' (set_ref_kept e 1) HL1 Htf HT2 Hf2) as (Hk' & HL' & HT' & Hr' & Hf').
  destruct (drop_spec e d _ live' low high T' Hlive Hd Hk' HL' HT') as (s' & E & HD).
  - intros y. rewrite Hnil. split; [by intros Hy; apply not_elem_of_nil in Hy|naive_solver].
  - intros y. exact (perm_rest HI e T' y HTp).
  - done.
  - exists 0, (put_flag f 1 false). split_and!; [done..|]. right. split; [done|]. apply put_flag_1.
  - exists s', live', low, high, T'. split; [|exact HD].
    unfold Release. erewrite (M_bind_ret (Release_locked e) _ s true); [exact E|]. unfold Release_locked.
    mstep (Unref_eq e _ s Hr ltac:(lia)). change (1 + 1 - 1) with 1. change (1 =? 0) with false. mnext.
    erewrite (M_bind_ret (mret tt)) by reflexivity. cbv beta iota.
    erewrite (M_bind_ret (load hrefs e)) by (apply load_eq; simpl; apply lookup_insert_eq). cbv beta iota.
    mnext. rewrite Hb1. change ((1 =? 1) && true) with true. cbv iota. mnext.
    change (capacity_ _ <? usage_ _) with (capacity_ s <? usage_ s).
    rewrite (proj2 (Z.ltb_lt _ _) Hover). cbv iota. mnext.
    erewrite (M_bind_ret (massert _)) by (by apply massert_eq, bool_decide_true). cbv beta iota.
    erewrite (M_bind_ret (key e)) by (by eapply key_eq). cbv beta iota.
    assert (hrefs s1 !! e = Some 1) as Hr1 by (simpl; apply lookup_insert_eq).
    exact (detach_steps (mret true) e d f s1 s2 Hf Hr1 ltac:(simpl; lia) E2 Htf).
Qed.

(** Where an entry with the flags [f] goes when it becomes unused. *)
Definition placed (e : loc) (f : Z) (low' high' : list loc) : Prop :=
  if double_gt (high_pri_pool_ratio_ s) (double_of_size_t 0) && has_flag f 2
  then low' ++ high' = low ++ high ++ [e]
  else low' = low ++ [e] /\ high' = high.

Lemma placed_elem e f low' high' y :
  placed e f low' high' -> y ∈ low' ++ high' <-> y ∈ low ++ high \/ y = e.
Proof.
  unfold placed. destruct (double_gt _ _ && _).
  - intros ->. split; intros; inlist.
  - intros [-> ->]. split; intros; inlist.
Qed.

Lemma csum_room e d : e ∈ live -> e ∉ low ++ high -> hdata s !! e = Some d ->
  csum s (low ++ high) + charge d <= usage_ s.
Proof.
  intros Hel Hnl Hd. pose proof (i_list _ _ _ _ _ _ HI) as HL. pose proof (l_nodup _ _ _ _ HL) as Hnd.
  apply list.NoDup_cons in Hnd as [_ Hnd].
  assert (forall x, x ∈ e :: low ++ high -> x ∈ live) as Hsub.
  { intros x Hx. apply elem_of_cons in Hx as [->|Hx]; [done|]. apply (i_table _ _ _ _ _ _ HI).
    by apply (i_lru _ _ _ _ _ _ HI) in Hx as [? _]. }
  assert (NoDup (e :: low ++ high)) as Hnd' by (by apply list.NoDup_cons).
  pose proof (csum_sub s _ _ (l_charge _ _ _ _ HL) Hnd' Hsub) as Hle. simpl in Hle.
  rewrite (charge_at_eq _ _ _ Hd) in Hle. rewrite (i_usage _ _ _ _ _ _ HI). lia.
Qed.

(** The last reference from outside, with the usage within the capacity: the entry becomes
    part of the list. *)
Lemma Release_unused e f :
  ext e = 1 -> e ∈ T -> usage_ s <= capacity_ s -> hflags s !! e = Some f ->
  exists s' low' high', Release (Some e) s = Ret (tt, s') /\ Quiet s' live low' high' T (upd ext e 0) /\
    placed e f low' high' /\ hdata s' = hdata s /\ deletions s' = deletions s /\ usage_ s' = usage_ s.
Proof.
  intros He HeT Hle Hf. pose proof (i_ext_live _ _ _ _ _ _ HI e ltac:(lia)) as Hel.
  destruct (inv_handle HI e Hel) as (d & f' & Hd & Hf' & Hc & Hr & Hb & n & Hn & Hne).
  rewrite Hf in Hf'. injection Hf' as <-. rewrite He, (tin_in _ _ HeT) in Hr. apply Hb in HeT as Hb1.
  assert (e ∉ low ++ high) as Hnl by (intros Hi; apply (i_lru _ _ _ _ _ _ HI) in Hi as [_ Hi]; lia).
  pose proof (csum_room e d Hel Hnl Hd) as Hroom. pose proof (i_usage_bound _ _ _ _ _ _ HI).
  set (s1 := with_refs s (<[e := 1]> (hrefs s)) (hflags s) (usage_ s)).
  assert (Lst s1 low high) as HL1.
  { apply LstP_with_refs; [apply (i_list _ _ _ _ _ _ HI)|]. intros x g Hg. by exists g. }
  assert (csum s1 (low ++ high) + charge d < 2 ^ 64) as Hb2 by (rewrite (csum_data s s1) by done; lia).
  assert (e ∉ lru_ :: low ++ high) as Hnl'.
  { intros Hi. apply elem_of_cons in Hi as [->|Hi]; [by apply (inv_lru_fresh HI lru_)|done]. }
  destruct (LRU_Insert_spec s1 low high e d f HL1 Hnl' Hd Hf Hb2) as (s2 & low' & high' & E & HL2 & Hfr & Hpl).
  pose proof (TabOf_with_refs _ _ (<[e := 1]> (hrefs s)) (hflags s) (usage_ s) (i_tab _ _ _ _ _ _ HI)) as HT1.
  pose proof (kept_trans _ _ _ _ _ (set_ref_kept e 1) (kept_list_frame _ _ Hfr)) as Hk. rewrite app_nil_r in Hk.
  exists s2, low', high'. split; [|split; [|split; [exact Hpl|by rewrite (k_data _ _ _ Hk), (k_del _ _ _ Hk), (lf_usage _ _ Hfr)]]].
  - unfold Release. erewrite (M_bind_ret (Release_locked e) _ s false); [reflexivity|]. unfold Release_locked.
    mstep (Unref_eq e _ s Hr ltac:(lia)). change (1 + 1 - 1) with 1. change (1 =? 0) with false. mnext.
    erewrite (M_bind_ret (mret tt)) by reflexivity. cbv beta iota.
    erewrite (M_bind_ret (load hrefs e)) by (apply load_eq; simpl; apply lookup_insert_eq). cbv beta iota.
    mnext. rewrite Hb1. change ((1 =? 1) && true) with true. cbv iota. mnext.
    change (capacity_ _ <? usage_ _) with (capacity_ s <? usage_ s).
    rewrite (proj2 (Z.ltb_ge _ _) Hle). cbv iota. erewrite (M_bind_ret (LRU_Insert e)) by exact E. done.
  - constructor.
    + apply (Inv_ref HI e); try done.
      * by left.
      * eapply TabOf_list_frame; [exact Hfr|exact HL2|apply (inv_lru_notin HI)|exact HT1].
      * rewrite (lf_refs _ _ Hfr), (tin_in _ _ HeT). simpl. apply lookup_insert_eq.
      * intros g Hg. destruct (proj2 (lf_dom _ _ Hfr e) ltac:(by eexists)) as [g' Hg']. exists g'.
        split; [done|]. by apply (lf_flags _ _ Hfr e g g').
      * intros y. rewrite (placed_elem e f low' high' y Hpl), (i_lru _ _ _ _ _ _ HI). unfold upd.
        destruct (decide (y = e)) as [->|Hye]; [naive_solver|]. naive_solver.
      * by rewrite (lf_usage _ _ Hfr).
    + intros x. rewrite (k_data _ _ _ Hk). apply (q_live _ _ _ _ _ _ HQ).
    + left. by rewrite (lf_usage _ _ Hfr), (lf_cap _ _ Hfr).
Qed.
End operations.
