(* ===== verification/LruInsert.v ===== *)
(** * LruInsert: insertion and removal of keys

    [Insert] and [Erase] of a shard at rest: eviction, refusal, replacement of an entry
    with the same key, and what is freed. *)

From Stdlib Require Import Strings.Byte Strings.String Floats.SpecFloat.
From stdpp Require Import gmap.
From S2P Require Import Prelude.
From S2P Require Import Slice.
From S2P Require Import Coding.
From S2P Require Import Status.
From S2P Require Import LruCache.
From S2P Require Import LruTable.
From S2P Require Import LruList.
From S2P Require Import LruInv.
From S2P Require Import LruOps.

(** ** The new handle *)

Definition new_flags (flags0 : Z) (priority : Priority) : Z :=
  put_flag (put_flag flags0 1 true) 2 (match priority with HIGH => true | LOW => false end).

Definition with_new (s : Shard) (e : loc) (d : HandleData) (refs flags : Z) : Shard :=
  upd_heap s (<[e := d]> (hdata s)) (<[e := refs]> (hrefs s)) (<[e := flags]> (hflags s))
    (<[e := None]> (hnext s)) (<[e := None]> (hprev s)) (delete e (hnext_hash s)) (deletions s).

Lemma new_handle_eq s e d refs flags0 priority :
  new_handle e d refs flags0 priority s = Ret (tt, with_new s e d refs (new_flags flags0 priority)).
Proof.
  unfold new_handle. mnext.
  erewrite (M_bind_ret (SetInCache e true)) by (apply SetInCache_eq; simpl; apply lookup_insert_eq). cbv beta iota.
  erewrite SetPriority_eq by (simpl; apply lookup_insert_eq). unfold with_new, set_flags, upd_heap. simpl.
  by rewrite !insert_insert_eq.
Qed.

Lemma new_flags_bits flags0 priority :
  has_flag (new_flags flags0 priority) 1 = true /\
  has_flag (new_flags flags0 priority) 2 = match priority with HIGH => true | LOW => false end.
Proof.
  unfold new_flags. destruct (put_flag_2 (put_flag flags0 1 true) (match priority with HIGH => true | LOW => false end))
    as (-> & -> & _). split; [apply put_flag_1|done].
Qed.

Lemma Inv_with_new {s live low high T ext} e d refs flags :
  Inv s live low high T ext -> e ∉ live -> e <> lru_ -> 0 <= charge d ->
  (forall x, is_Some (hdata s !! x) -> x ∈ live) ->
  Inv (with_new s e d refs flags) live low high T ext.
Proof.
  intros HI He Hel Hc Hall. apply Inv_heap; [done|]. constructor.
  - intros x Hx. assert (x <> e) by (by intros ->). rewrite !lookup_insert_ne, lookup_delete_ne by done. done.
  - rewrite !lookup_insert_ne by done. split_and!; [apply (i_null _ _ _ _ _ _ HI)|done..].
  - intros x d0 Hx Hd. destruct (decide (x = e)) as [->|Hne].
    + rewrite lookup_insert_eq in Hd. assert (d0 = d) as -> by congruence. rewrite !lookup_insert_eq.
      split_and!; [done..|by eexists|done].
    + rewrite lookup_insert_ne in Hd by done. destruct Hx. apply Hall. by eexists.
Qed.

(** ** The table and the accounts *)

Lemma TabOf_Insert s T e d :
  TabOf s T -> hdata s !! e = Some d -> table_entry s e -> e ∉ T -> zlen T + 1 < 2 ^ 30 ->
  exists old s' T0, table_Insert e s = Ret (old, s') /\ table_frame s s' /\ TabOf s' (e :: T0) /\
    match old with
    | None => T0 = T /\ forall x, x ∈ T -> ~ matches s (key_data d) (hash d) x
    | Some o => T ≡ₚ o :: T0 /\ matches s (key_data d) (hash d) o
    end.
Proof.
  intros (bs & HT & Hp) Hd He HeT Hb.
  destruct (table_Insert_spec s bs e d HT Hd He ltac:(by rewrite Hp) ltac:(by rewrite (zlen_Permutation _ _ Hp)))
    as (old & nh & len & el & ls & bs' & E & HT' & Hold).
  destruct old as [o|].
  - destruct Hold as (Hm & rest & Hp1 & Hp2). exists (Some o), (with_table s nh len el ls), rest.
    split; [done|]. split; [apply with_table_frame|]. split; [by exists bs'|]. split; [by rewrite <- Hp|done].
  - destruct Hold as (Hp1 & Hm). exists None, (with_table s nh len el ls), T. split; [done|].
    split; [apply with_table_frame|]. split; [exists bs'; split; [done|by rewrite Hp1, Hp]|].
    split; [done|]. intros x Hx. apply Hm. by rewrite Hp.
Qed.

(** What happens to the entry [o] that has left the table. *)
Definition release_old (o : loc) (l : list loc) : M (list loc) :=
  _ ← SetInCache o false;
  last ← Unref o;
  if last : bool then
    d ← load hdata o;
    _ ← modify (fun s => set_usage s (u64 (usage_ s - LruCache.charge d)));
    _ ← LRU_Remove o;
    mret (l ++ [o])
  else mret l.

Lemma Lst_usage p s low high u : LstP p s low high -> LstP p (set_usage s u) low high.
Proof. intros HL. by destruct HL; constructor. Qed.
Lemma TabOf_usage s T u : TabOf s T -> TabOf (set_usage s u) T.
Proof. intros (bs & HT & Hp). exists bs. split; [|done]. by destruct HT; constructor. Qed.
Lemma kept_usage X s u : kept X s (set_usage s u).
Proof. constructor; try done. intros x f _ Hf. by exists f. Qed.

(** The entry that was replaced, held by clients: it stays allocated. *)
Lemma release_old_held s low high T o n f l :
  Lst s low high -> TabOf s T -> hrefs s !! o = Some (n + 1) -> hflags s !! o = Some f -> 0 < n ->
  exists s', release_old o l s = Ret (l, s') /\ kept [o] s s' /\ Lst s' low high /\ TabOf s' T /\
    hrefs s' !! o = Some n /\ hflags s' !! o = Some (put_flag f 1 false) /\ usage_ s' = usage_ s.
Proof.
  intros HL HT Hr Hf Hn.
  set (s' := with_refs s (<[o := n]> (hrefs s)) (<[o := put_flag f 1 false]> (hflags s)) (usage_ s)).
  exists s'. split; [|split; [|split; [|split; [by apply TabOf_with_refs|]]]].
  - unfold release_old. mnext.
    mstep (Unref_eq o (n + 1) (set_flags s (<[o := put_flag f 1 false]> (hflags s))) Hr ltac:(lia)).
    replace (n + 1 - 1) with n by lia. replace (n =? 0) with false by lia. done.
  - constructor; try done; simpl.
    + intros x Hx. apply lookup_insert_ne. intros ->. apply Hx. inlist.
    + intros x g Hx Hg. exists g. rewrite lookup_insert_ne; [done|]. intros ->. apply Hx. inlist.
  - apply LstP_with_refs; [done|]. intros x g Hg. destruct (decide (x = o)) as [->|Hne].
    + rewrite lookup_insert_eq. eexists. split; [done|]. simplify_eq. apply put_flag_1.
    + rewrite lookup_insert_ne by done. by exists g.
  - simpl. by rewrite !lookup_insert_eq.
Qed.

(** The entry that was replaced, held by nobody: it leaves the list, to be freed. *)
Lemma release_old_unheld s low high T o d f l :
  Lst s low high -> TabOf s T -> lru_ ∉ T -> o ∈ low ++ high -> hdata s !! o = Some d ->
  hrefs s !! o = Some 1 -> hflags s !! o = Some f -> 0 <= usage_ s - charge d < 2 ^ 64 ->
  exists s' low' high', release_old o l s = Ret (l ++ [o], s') /\ kept [o] s s' /\ Lst s' low' high' /\ TabOf s' T /\
    low' ++ high' = filter (fun x => x <> o) (low ++ high) /\ freeable s' o /\ usage_ s' = usage_ s - charge d.
Proof.
  intros HL HT Hl Ho Hd Hr Hf Hu.
  set (s1 := with_refs s (<[o := 0]> (hrefs s)) (<[o := put_flag f 1 false]> (hflags s)) (usage_ s - charge d)).
  assert (Lst s1 low high) as HL1.
  { apply LstP_with_refs; [done|]. intros x g Hg. destruct (decide (x = o)) as [->|Hne].
    + rewrite lookup_insert_eq. eexists. split; [done|]. simplify_eq. apply put_flag_1.
    + rewrite lookup_insert_ne by done. by exists g. }
  destruct (LRU_Remove_spec s1 low high o HL1 Ho) as (s2 & low' & high' & l1 & l2 & E & HL2 & Hfr & Hfl & Hsp & Hsp').
  exists s2, low', high'. split; [|split; [|split; [done|split; [|split; [|split; [|by rewrite (lf_usage _ _ Hfr)]]]]]].
  - unfold release_old. mnext.
    mstep (Unref_eq o 1 (set_flags s (<[o := put_flag f 1 false]> (hflags s))) Hr ltac:(lia)).
    change (1 - 1) with 0. change (0 =? 0) with true. cbv iota. mnext. mnext.
    erewrite (M_bind_ret (LRU_Remove o)); [reflexivity|]. rewrite <- E. unfold s1. f_equal.
    unfold with_refs, set_usage, set_flags, set_refs, upd_ctl, upd_heap. simpl. by rewrite u64_small by lia.
  - apply (kept_trans [o] [] s s1 s2); [|by apply kept_list_frame]. constructor; try done; simpl.
    + intros x Hx. apply lookup_insert_ne. intros ->. apply Hx. inlist.
    + intros x g Hx Hg. exists g. rewrite lookup_insert_ne; [done|]. intros ->. apply Hx. inlist.
  - eapply TabOf_list_frame; [exact Hfr|exact HL2|done|]. by apply TabOf_with_refs.
  - rewrite Hsp', Hsp. symmetry. apply filter_mid. rewrite <- Hsp.
    pose proof (l_nodup _ _ _ _ HL) as Hnd. by apply list.NoDup_cons in Hnd as [_ Hnd].
  - exists 0, (put_flag f 1 false). rewrite (lf_refs _ _ Hfr), Hfl. simpl. rewrite !lookup_insert_eq.
    split_and!; [done..|]. right. split; [done|]. apply put_flag_1.
Qed.

(** ** Making room *)

Record fresh_handle (s : Shard) (e : loc) (d : HandleData) : Prop := {
  fh_null : e <> lru_;
  fh_new : hdata s !! e = None;
  fh_charge : 0 <= charge d;
  fh_hash : 0 <= hash d < 2 ^ 32;
  fh_usage : usage_ s + charge d < 2 ^ 64;
}.

(** The new handle [e] is on the heap, and [ev] has been evicted but not yet freed. *)
Record room (s : Shard) (live low high T : list loc) (ext : loc -> Z) (e : loc) (d : HandleData) (refs : Z)
    (hi : bool) (ev : list loc) (s2 : Shard) (live2 low2 high2 T2 : list loc) : Prop := {
  rm_inv : Inv s2 live2 low2 high2 T2 ext;
  rm_data : hdata s2 = <[e := d]> (hdata s);
  rm_refs : hrefs s2 !! e = Some refs;
  rm_flags : exists f, hflags s2 !! e = Some f /\ has_flag f 1 = true /\ has_flag f 2 = hi;
  rm_live : live ≡ₚ ev ++ live2;
  rm_table : T ≡ₚ ev ++ T2;
  rm_list : low ++ high = ev ++ low2 ++ high2;
  rm_free : forall x, x ∈ ev -> freeable s2 x;
  rm_evicts : evicts (over (charge d)) s (low ++ high) ev;
  rm_usage : usage_ s2 = usage_ s - csum s ev;
  rm_ctl : capacity_ s2 = capacity_ s /\ strict_capacity_limit_ s2 = strict_capacity_limit_ s /\
    high_pri_pool_ratio_ s2 = high_pri_pool_ratio_ s /\ deletions s2 = deletions s;
}.

Arguments rm_inv {s live low high T ext e d refs hi ev s2 live2 low2 high2 T2}.
Arguments rm_data {s live low high T ext e d refs hi ev s2 live2 low2 high2 T2}.
Arguments rm_refs {s live low high T ext e d refs hi ev s2 live2 low2 high2 T2}.
Arguments rm_flags {s live low high T ext e d refs hi ev s2 live2 low2 high2 T2}.
Arguments rm_live {s live low high T ext e d refs hi ev s2 live2 low2 high2 T2}.
Arguments rm_table {s live low high T ext e d refs hi ev s2 live2 low2 high2 T2}.
Arguments rm_list {s live low high T ext e d refs hi ev s2 live2 low2 high2 T2}.
Arguments rm_free {s live low high T ext e d refs hi ev s2 live2 low2 high2 T2}.
Arguments rm_evicts {s live low high T ext e d refs hi ev s2 live2 low2 high2 T2}.
Arguments rm_usage {s live low high T ext e d refs hi ev s2 live2 low2 high2 T2}.
Arguments rm_ctl {s live low high T ext e d refs hi ev s2 live2 low2 high2 T2}.

Lemma fresh_not_live {s live low high T ext} e d :
  Quiet s live low high T ext -> fresh_handle s e d -> e ∉ live.
Proof.
  intros HQ Hf He. destruct (i_alloc _ _ _ _ _ _ (q_inv _ _ _ _ _ _ HQ) e He) as [d0 Hd0].
  rewrite (fh_new _ _ _ Hf) in Hd0. done.
Qed.

Lemma make_room {s live low high T ext} e d refs flags0 priority :
  Quiet s live low high T ext -> fresh_handle s e d ->
  exists ev s2 live2 low2 high2 T2,
    (_ ← new_handle e d refs flags0 priority; EvictFromLRU (charge d)) s = Ret (ev, s2) /\
    room s live low high T ext e d refs (match priority with HIGH => true | LOW => false end) ev s2 live2 low2 high2 T2.
Proof.
  intros HQ Hfh. pose proof (q_inv _ _ _ _ _ _ HQ) as HI. pose proof (fresh_not_live e d HQ Hfh) as Hel.
  set (s1 := with_new s e d refs (new_flags flags0 priority)).
  pose proof (Inv_with_new e d refs (new_flags flags0 priority) HI Hel (fh_null _ _ _ Hfh) (fh_charge _ _ _ Hfh)
    (q_live _ _ _ _ _ _ HQ)) as HI1. fold s1 in HI1.
  pose proof (list_fuel_enough _ _ _ _ (i_list _ _ _ _ _ _ HI1)) as Hfuel.
  destruct (evict_loop_spec (over (charge d)) (fun s => capacity_ s <? u64 (usage_ s + charge d)) (list_fuel s1)
    (fun _ => eq_refl) HI1 ltac:(lia))
    as (ev & s2 & live2 & low2 & high2 & T2 & E & HI2 & Hk & Hfr & Hlive & HT & Hlh & Hev & Hu).
  assert (forall l, (forall x, x ∈ l -> x ∈ live) -> csum s1 l = csum s l) as Hcs.
  { intros l Hl. apply csum_ext. intros x Hx. unfold charge_at. simpl. rewrite lookup_insert_ne; [done|].
    intros <-. by apply Hel, Hl. }
  assert (forall x, x ∈ ev -> x ∈ live) as Hevl by (intros x Hx; rewrite Hlive; inlist).
  assert (e ∉ ev) as Hee by (intros Hi; by apply Hel, Hevl).
  exists ev, s2, live2, low2, high2, T2. split.
  { mstep (new_handle_eq s e d refs flags0 priority). exact E. }
  constructor; try done.
  - by rewrite (k_data _ _ _ Hk).
  - rewrite (k_refs _ _ _ Hk e Hee). simpl. apply lookup_insert_eq.
  - destruct (k_flags _ _ _ Hk e (new_flags flags0 priority) Hee) as (f & Hf & Hb1 & Hb2).
    { simpl. apply lookup_insert_eq. }
    exists f. rewrite Hb1, Hb2. split; [done|]. apply new_flags_bits.
  - destruct Hev as [(rest & Hr & Hst) Hpre]. split.
    + exists rest. split; [done|]. by rewrite <- (Hcs ev Hevl).
    + intros i Hi. rewrite <- (Hcs (take i ev)); [by apply Hpre|]. intros x Hx. apply Hevl.
      rewrite <- (take_drop i ev). inlist.
  - by rewrite Hu, (Hcs ev Hevl).
  - split_and!; [apply (k_cap _ _ _ Hk)|apply (k_strict _ _ _ Hk)|apply (k_ratio _ _ _ Hk)|apply (k_del _ _ _ Hk)].
Qed.

(** The pinned usage, which eviction does not change. *)
Lemma room_pinned {s live low high T ext e d refs hi ev s2 live2 low2 high2 T2} :
  Quiet s live low high T ext -> fresh_handle s e d ->
  room s live low high T ext e d refs hi ev s2 live2 low2 high2 T2 ->
  0 <= usage_ s2 - lru_usage_ s2 /\ usage_ s2 - lru_usage_ s2 = usage_ s - lru_usage_ s /\ 0 <= lru_usage_ s2 /\
  0 <= csum s ev /\ forall l, (forall x, x ∈ l -> x ∈ live2) -> csum s2 l = csum s l.
Proof.
  intros HQ Hfh HR. pose proof (q_inv _ _ _ _ _ _ HQ) as HI. pose proof (rm_inv HR) as HI2.
  pose proof (fresh_not_live e d HQ Hfh) as Hel.
  assert (forall l, (forall x, x ∈ l -> x ∈ live2) -> csum s2 l = csum s l) as Hcs.
  { intros l Hl. apply csum_ext. intros x Hx. unfold charge_at. rewrite (rm_data HR).
    rewrite lookup_insert_ne; [done|]. intros <-. apply Hel. rewrite (rm_live HR).
    apply Hl in Hx. inlist. }
  pose proof (i_list _ _ _ _ _ _ HI) as HL. pose proof (i_list _ _ _ _ _ _ HI2) as HL2.
  pose proof (csum_nonneg s ev (l_charge _ _ _ _ HL)) as He. pose proof (l_usage _ _ _ _ HL) as Hu. pose proof (l_usage _ _ _ _ HL2) as Hu2.
  rewrite (rm_list HR), csum_app in Hu.
  assert (forall x, x ∈ low2 ++ high2 -> x ∈ live2) as Hsub.
  { intros x Hx. apply (i_table _ _ _ _ _ _ HI2). by apply (i_lru _ _ _ _ _ _ HI2) in Hx as [? _]. }
  rewrite (Hcs _ Hsub) in Hu2. pose proof (csum_nonneg s (low2 ++ high2) (l_charge _ _ _ _ HL)).
  rewrite (rm_usage HR). split_and!; [|lia|lia|done|done].
  rewrite (i_usage _ _ _ _ _ _ HI). 
  pose proof (l_nodup _ _ _ _ HL2) as Hnd. apply list.NoDup_cons in Hnd as [_ Hnd].
  apply NoDup_submseteq in Hsub; [|done]. apply submseteq_Permutation in Hsub as [k Hk].
  rewrite (csum_perm _ _ _ (rm_live HR)), csum_app, (csum_perm _ _ _ Hk), csum_app.
  pose proof (csum_nonneg s k (l_charge _ _ _ _ HL)). lia.
Qed.

(** ** Refusing the insertion *)

(** The entry would not fit even if everything unused were evicted. *)
Definition full (s : Shard) (charge : Z) : bool := capacity_ s <? usage_ s - lru_usage_ s + charge.

Lemma M_bind_ret2 {A B C} (m1 : M A) (m2 : M B) (k : B -> M C) s b s' :
  (_ ← m1; m2) s = Ret (b, s') -> (_ ← m1; x ← m2; k x) s = k b s'.
Proof. unfold mbind, M_bind. destruct (m1 s) as [[a s1]| | |]; [|done..]. by intros ->. Qed.

Lemma M_bind_ret3 {A B C D} (m1 : M A) (m2 : M B) (m3 : A -> M C) (k : C -> M D) s c s' :
  (a ← m1; _ ← m2; m3 a) s = Ret (c, s') -> (a ← m1; _ ← m2; x ← m3 a; k x) s = k c s'.
Proof.
  unfold mbind, M_bind. destruct (m1 s) as [[a s1]| | |]; [|done..].
  destruct (m2 s1) as [[b s2]| | |]; [|done..]. by intros ->.
Qed.

Definition full_status `{Host} : Status :=
  error kIncomplete kNone (str "Insert failed due to LRU cache being full.") [].

Lemma filter_none (old : ptr) (l : list loc) : old = None -> filter (fun x => Some x <> old) l = l.
Proof. intros Ho. induction l as [|x l IH]; [done|]. rewrite filter_cons_True by naive_solver. by f_equal. Qed.

Lemma filter_some (old : ptr) (l : list loc) (o : loc) :
  old = Some o -> filter (fun x => Some x <> old) l = filter (fun x => x <> o) l.
Proof.
  intros Ho. induction l as [|x l IH]; [done|]. destruct (decide (x = o)) as [->|Hne].
  - by rewrite !filter_cons_False by naive_solver.
  - rewrite !filter_cons_True by naive_solver. by f_equal.
Qed.

Section insert.
Context `{Host} {s : Shard} {live low high T : list loc} {ext : loc -> Z} (HQ : Quiet s live low high T ext).
Context (e : loc) (k : Slice) (h value charge : Z) (deleter : option Z) (flags0 : Z) (priority : Priority).
Let d : HandleData := mkHandle value deleter charge k h.
Context (Hfh : fresh_handle s e d).
#[local] Set Default Proof Using "All".
Let hi : bool := match priority with HIGH => true | LOW => false end.
Let HI : Inv s live low high T ext := q_inv _ _ _ _ _ _ HQ.

Lemma full_test {refs ev s2 live2 low2 high2 T2} :
  room s live low high T ext e d refs hi ev s2 live2 low2 high2 T2 ->
  (capacity_ s2 <? u64 (u64 (usage_ s2 - lru_usage_ s2) + charge)) = full s charge.
Proof.
  intros HR. destruct (room_pinned HQ Hfh HR) as (H1 & H2 & H3 & H4 & _). destruct (rm_ctl HR) as (-> & _).
  pose proof (rm_usage HR). pose proof (fh_charge _ _ _ Hfh) as Hc. pose proof (fh_usage _ _ _ Hfh) as Hu. simpl in Hc, Hu.
  rewrite (u64_small (usage_ s2 - _)), u64_small by lia. unfold full. by rewrite H2.
Qed.

Lemma room_quiet_cap {refs ev s2 live2 low2 high2 T2} :
  room s live low high T ext e d refs hi ev s2 live2 low2 high2 T2 ->
  low2 ++ high2 = [] \/ usage_ s2 + charge <= capacity_ s2.
Proof.
  intros HR. destruct (room_pinned HQ Hfh HR) as (_ & _ & _ & H4 & _). destruct (rm_ctl HR) as (-> & _).
  destruct (rm_evicts HR) as [(rest & Hr & [->|Ho]) _].
  - left. rewrite (rm_list HR) in Hr. by apply app_inv_head in Hr.
  - right. pose proof (fh_charge _ _ _ Hfh) as Hc. pose proof (fh_usage _ _ _ Hfh) as Hu. simpl in Hc, Hu, Ho.
    rewrite <- (rm_usage HR) in Ho. apply over_fits in Ho; [done|done| |].
    + rewrite (i_usage _ _ _ _ _ _ (rm_inv HR)). apply csum_nonneg, (l_charge _ _ _ _ (i_list _ _ _ _ _ _ (rm_inv HR))).
    + pose proof (rm_usage HR). lia.
Qed.

Lemma room_nodup {refs ev s2 live2 low2 high2 T2} :
  room s live low high T ext e d refs hi ev s2 live2 low2 high2 T2 ->
  NoDup ev /\ (forall x, x ∈ ev -> x ∉ live2) /\ (forall x, x ∈ ev -> is_Some (hdata s2 !! x)) /\ (e ∉ ev) /\
  (e ∉ live2) /\ deletions_of s2 ev = deletions_of s ev.
Proof.
  intros HR. pose proof (i_nodup _ _ _ _ _ _ HI) as Hnd. pose proof (rm_live HR) as Hl. rewrite Hl in Hnd.
  apply list.NoDup_app in Hnd as (Hnd & Hdis & _). pose proof (fresh_not_live e d HQ Hfh) as Hel.
  assert (e ∉ ev) as He by (intros Hi; apply Hel; rewrite Hl; inlist).
  assert (forall x, x ∈ ev -> hdata s2 !! x = hdata s !! x) as Hag.
  { intros x Hx. rewrite (rm_data HR), lookup_insert_ne; [done|]. by intros <-. }
  split; [done|]. split; [done|]. split; [|split; [done|split; [|by apply deletions_of_agree]]].
  - intros x Hx. rewrite Hag by done. apply (i_alloc _ _ _ _ _ _ HI). rewrite Hl. inlist.
  - intros Hi. apply Hel. rewrite Hl. inlist.
Qed.

(** Refused, with the handle wanted: the handle goes without its deleter being called. *)
Lemma Insert_refused :
  full s charge = true -> strict_capacity_limit_ s = true ->
  exists ev s' live' low' high' T',
    Insert e flags0 k h value charge deleter true priority s = Ret ((full_status, Some None), s') /\
    reclaimed (over charge) [] s live low high T ext ev s' live' low' high' T'.
Proof.
  intros Hfull Hstrict. destruct (make_room e d 2 flags0 priority HQ Hfh) as (ev & s2 & live2 & low2 & high2 & T2 & E & HR).
  destruct (room_nodup HR) as (Hnd & Hdis & Hal & Hee & Hel & Hdel). destruct (rm_ctl HR) as (Hcap & Hst & _ & Hdl).
  pose proof (rm_inv HR) as HI2.
  pose proof (Inv_heap _ _ _ _ _ _ (deletions s2) HI2 (heap_ok_delete e HI2 Hel (fh_null _ _ _ Hfh))) as HI3.
  set (s3 := upd_heap s2 _ _ _ _ _ _ _) in HI3.
  assert (forall x, x <> e -> hdata s3 !! x = hdata s2 !! x /\ hrefs s3 !! x = hrefs s2 !! x /\ hflags s3 !! x = hflags s2 !! x)
    as Hs3 by (intros x Hx; simpl; by rewrite !lookup_delete_ne).
  assert (forall x, x ∈ ev -> x <> e) as Hne by (intros x Hx ->; done).
  destruct (FreeAll_spec ev HI3 Hnd) as (s4 & E4 & HI4 & Hg).
  { intros x Hx. destruct (Hs3 x (Hne x Hx)) as (Hd & Hr & Hf). split; [by apply Hdis|]. rewrite Hd.
    split; [by apply Hal|]. destruct (rm_free HR x Hx) as (r & f & Hr' & Hf' & Hc). exists r, f. by rewrite Hr, Hf. }
  exists ev, s4, live2, low2, high2, T2. split.
  - unfold Insert. rewrite (M_bind_ret2 _ _ _ _ _ _ E). mnext. rewrite (full_test HR), Hfull, Hst, Hstrict. cbn [andb orb negb].
    unfold mbind at 1, M_bind at 1.
    erewrite (M_bind_ret (delete_handle e)) by reflexivity. cbv beta iota. unfold mret at 1, M_ret at 1.
    mstep E4. done.
  - destruct (g_ctl _ _ _ Hg) as (Hgc & Hgu & _). constructor; try apply HR.
    + constructor; [done| |].
      * intros x. rewrite (g_data _ _ _ Hg). destruct (decide (x ∈ ev)) as [|Hx]; [by intros []|]. simpl.
        intros [d0 Hd0]. apply lookup_delete_Some in Hd0 as [Hxe Hd0].
        rewrite (rm_data HR), lookup_insert_ne in Hd0 by done.
        pose proof (q_live _ _ _ _ _ _ HQ x ltac:(by eexists)) as Hx'. rewrite (rm_live HR) in Hx'. inlist.
      * rewrite Hgc, Hgu. simpl. destruct (room_quiet_cap HR) as [->|Hle]; [by right|left].
        pose proof (fh_charge _ _ _ Hfh) as Hc. simpl in Hc. lia.
    + rewrite Hgu. apply (rm_usage HR).
    + intros x. rewrite (g_data _ _ _ Hg). destruct (decide (x ∈ ev)) as [|Hx]; [done|]. simpl.
      rewrite (rm_data HR), delete_insert_eq. rewrite delete_id; [done|]. apply (fh_new _ _ _ Hfh).
    + rewrite (g_del _ _ _ Hg), app_nil_r. simpl. rewrite Hdl. f_equal.
      rewrite <- Hdel. apply deletions_of_agree. intros x Hx. by apply Hs3, Hne.
    + by rewrite Hgc.
Qed.

(** Refused, with no handle wanted: as if the entry had been inserted and evicted at once. *)
Lemma Insert_dropped :
  full s charge = true ->
  exists ev s' live' low' high' T',
    Insert e flags0 k h value charge deleter false priority s = Ret ((OK, None), s') /\
    reclaimed (over charge) (deletion_of d) s live low high T ext ev s' live' low' high' T'.
Proof.
  intros Hfull. destruct (make_room e d 1 flags0 priority HQ Hfh) as (ev & s2 & live2 & low2 & high2 & T2 & E & HR).
  destruct (room_nodup HR) as (Hnd & Hdis & Hal & Hee & Hel & Hdel). destruct (rm_ctl HR) as (Hcap & Hst & _ & Hdl).
  pose proof (rm_inv HR) as HI2. assert (hdata s2 !! e = Some d) as Hd2 by (rewrite (rm_data HR); apply lookup_insert_eq).
  destruct (FreeAll_spec (ev ++ [e]) HI2) as (s4 & E4 & HI4 & Hg).
  { apply list.NoDup_app. split; [done|]. split; [|apply NoDup_singleton]. intros x Hx Hxe.
    apply list_elem_of_singleton in Hxe as ->. done. }
  { intros x Hx. apply elem_of_app in Hx as [Hx|Hx].
    - split; [by apply Hdis|]. split; [by apply Hal|by apply (rm_free HR)].
    - apply list_elem_of_singleton in Hx as ->. split; [done|]. split; [by eexists|].
      destruct (rm_flags HR) as (f & Hf & Hb & _). exists 1, f. split; [apply (rm_refs HR)|]. split; [done|by left]. }
  exists ev, s4, live2, low2, high2, T2. split.
  - unfold Insert. rewrite (M_bind_ret2 _ _ _ _ _ _ E). mnext. rewrite (full_test HR), Hfull. cbn [negb].
    rewrite orb_true_r. cbn [andb]. unfold mbind at 1, M_bind at 1. unfold mret at 1, M_ret at 1. mstep E4. done.
  - destruct (g_ctl _ _ _ Hg) as (Hgc & Hgu & _).
    assert (forall x, hdata s4 !! x = if decide (x ∈ ev) then None else hdata s !! x) as Hgone.
    { intros x. rewrite (g_data _ _ _ Hg). destruct (decide (x ∈ ev)) as [Hx|Hx]; [rewrite decide_True; [done|inlist]|].
      destruct (decide (x = e)) as [->|Hxe].
      - rewrite decide_True by inlist. symmetry. apply (fh_new _ _ _ Hfh).
      - rewrite decide_False by (intros Hi; inlist). by rewrite (rm_data HR), lookup_insert_ne. }
    constructor; try apply HR; try done.
    + constructor; [done| |].
      * intros x. rewrite Hgone. destruct (decide (x ∈ ev)) as [|Hx]; [by intros []|].
        intros Hd0. apply (q_live _ _ _ _ _ _ HQ) in Hd0. rewrite (rm_live HR) in Hd0. inlist.
      * rewrite Hgc, Hgu. destruct (room_quiet_cap HR) as [->|Hle]; [by right|left].
        pose proof (fh_charge _ _ _ Hfh) as Hc. simpl in Hc. lia.
    + rewrite Hgu. apply (rm_usage HR).
    + rewrite (g_del _ _ _ Hg), Hdl. f_equal. unfold deletions_of at 1. rewrite map_app, concat_app.
      fold (deletions_of s2 ev). rewrite Hdel. f_equal. simpl. by rewrite Hd2, app_nil_r.
    + by rewrite Hgc.
Qed.

(** ** Putting the entry in *)

Definition olds (old : ptr) : list loc := match old with Some o => [o] | None => [] end.
(** The replaced entry is freed if no client holds it. *)
Definition dead_of (old : ptr) : list loc := match old with Some o => if decide (ext o = 0) then [o] else [] | None => [] end.

(** After the table has been changed and the replaced entry, if any, has been let go. *)
Record swapped (s2 : Shard) (live2 low2 high2 T2 : list loc) (old : ptr) (s5 : Shard) (low5 high5 T0 : list loc) : Prop := {
  sw_kept : kept (olds old) s2 s5;
  sw_lst : Lst s5 low5 high5;
  sw_tab : TabOf s5 (e :: T0);
  sw_perm : T2 ≡ₚ olds old ++ T0;
  sw_old : match old with
    | None => forall x, x ∈ T2 -> ~ matches s2 k h x
    | Some o => matches s2 k h o /\
        (ext o = 0 -> freeable s5 o) /\
        (0 < ext o -> hrefs s5 !! o = Some (ext o) /\ exists f, hflags s5 !! o = Some f /\ has_flag f 1 = false)
    end;
  sw_list : low5 ++ high5 = filter (fun x => Some x <> old) (low2 ++ high2);
  sw_usage : usage_ s5 = usage_ s2 + charge - csum s2 (dead_of old);
}.

(** After the table has been changed and the charge counted; [old] is still there. *)
Record charged (s2 : Shard) (low2 high2 T2 : list loc) (old : ptr) (s4 : Shard) (T0 : list loc) : Prop := {
  cg_kept : kept [] s2 s4;
  cg_flags : hflags s4 = hflags s2;
  cg_lst : Lst s4 low2 high2;
  cg_tab : TabOf s4 (e :: T0);
  cg_usage : usage_ s4 = usage_ s2 + charge;
  cg_old : match old with
    | None => T0 = T2 /\ forall x, x ∈ T2 -> ~ matches s2 k h x
    | Some o => T2 ≡ₚ o :: T0 /\ matches s2 k h o
    end;
}.

Lemma charge_spec {refs ev s2 live2 low2 high2 T2} :
  room s live low high T ext e d refs hi ev s2 live2 low2 high2 T2 -> zlen T + 1 < 2 ^ 30 ->
  exists old s3 s4 T0, table_Insert e s2 = Ret (old, s3) /\
    modify (fun s => set_usage s (u64 (usage_ s + charge))) s3 = Ret (tt, s4) /\ charged s2 low2 high2 T2 old s4 T0.
Proof.
  intros HR Hz. pose proof (rm_inv HR) as HI2. destruct (room_nodup HR) as (_ & _ & _ & Hee & Hel & _).
  assert (hdata s2 !! e = Some d) as Hd by (rewrite (rm_data HR); apply lookup_insert_eq).
  assert (e ∉ T2) as HeT by (intros Hi; by apply Hel, (i_table _ _ _ _ _ _ HI2)).
  assert (table_entry s2 e) as Hte.
  { exists d. split; [done|]. split; [apply (fh_hash _ _ _ Hfh)|].
    eapply no_self_loop; [apply (i_list _ _ _ _ _ _ HI2)|apply (fh_null _ _ _ Hfh)|by eexists]. }
  assert (zlen T2 + 1 < 2 ^ 30) as Hz2.
  { pose proof (zlen_Permutation _ _ (rm_table HR)) as Hp. rewrite zlen_app in Hp. zlen_pos. lia. }
  destruct (TabOf_Insert s2 T2 e d (i_tab _ _ _ _ _ _ HI2) Hd Hte HeT Hz2) as (old & s3 & T0 & E & Htf & HT3 & Hold).
  assert (usage_ s3 = usage_ s2) as Hu3 by (destruct Htf as [->]; done).
  destruct (room_pinned HQ Hfh HR) as (_ & _ & _ & Hev & _). pose proof (rm_usage HR) as Hu2.
  pose proof (fh_charge _ _ _ Hfh) as Hc. pose proof (fh_usage _ _ _ Hfh) as Hu. simpl in Hc, Hu.
  assert (0 <= usage_ s2) as Hu0.
  { rewrite (i_usage _ _ _ _ _ _ HI2). apply csum_nonneg, (l_charge _ _ _ _ (i_list _ _ _ _ _ _ HI2)). }
  exists old, s3, (set_usage s3 (usage_ s2 + charge)), T0. split; [done|].
  split; [unfold modify; rewrite u64_small by lia; by rewrite Hu3|]. constructor; try done.
  - exact (kept_trans [] [] _ _ _ (kept_table_frame _ _ Htf) (kept_usage [] s3 _)).
  - simpl. destruct Htf as [->]; done.
  - apply Lst_usage, (Lst_table_frame _ _ _ _ _ Htf), (i_list _ _ _ _ _ _ HI2).
  - by apply TabOf_usage.
Qed.

(** The replaced entry is let go: it is to be freed, or stays because clients hold it. *)
Lemma let_go_spec {refs ev s2 live2 low2 high2 T2} o s4 T0 :
  room s live low high T ext e d refs hi ev s2 live2 low2 high2 T2 -> charged s2 low2 high2 T2 (Some o) s4 T0 ->
  exists s5 low5 high5, release_old o ev s4 = Ret (ev ++ dead_of (Some o), s5) /\ swapped s2 live2 low2 high2 T2 (Some o) s5 low5 high5 T0.
Proof.
  intros HR [Hk4 Hf4 HL4 HT4 Hu4 [Hp Hm]]. pose proof (rm_inv HR) as HI2.
  assert (o ∈ T2) as HoT by (rewrite Hp; inlist). pose proof (i_table _ _ _ _ _ _ HI2 o HoT) as Hol.
  destruct (inv_handle HI2 o Hol) as (do & f & Hdo & Hfo & Hco & Hro & _ & _). rewrite (tin_in _ _ HoT) in Hro.
  assert (hrefs s4 !! o = Some (ext o + 1)) as Hr4 by (by rewrite (k_refs _ _ _ Hk4 o (not_elem_of_nil o))).
  rewrite <- Hf4 in Hfo. assert (hdata s4 !! o = Some do) as Hd4 by (by rewrite (k_data _ _ _ Hk4)).
  pose proof (i_ext _ _ _ _ _ _ HI2 o) as Hx. unfold dead_of. destruct (decide (ext o = 0)) as [Heo|Heo].
  - rewrite Heo in Hr4. destruct (split_perm live2 o Hol) as [k2 Hk2]. destruct (inv_charge_le HI2 o do k2 Hk2 Hdo) as (_ & Hus & Hcs).
    pose proof (fh_charge _ _ _ Hfh) as Hc. pose proof (fh_usage _ _ _ Hfh) as Hu. simpl in Hc, Hu. pose proof (rm_usage HR) as Hu2.
    destruct (room_pinned HQ Hfh HR) as (_ & _ & _ & Hev & _).
    assert (lru_ ∉ e :: T0) as Hlru.
    { intros Hi. apply elem_of_cons in Hi as [He|Hi]; [by apply (fh_null _ _ _ Hfh)|]. apply (inv_lru_notin HI2). rewrite Hp. inlist. }
    assert (o ∈ low2 ++ high2) as Holist by (by apply (i_lru _ _ _ _ _ _ HI2)).
    destruct (release_old_unheld s4 low2 high2 (e :: T0) o do f ev HL4 HT4 Hlru Holist Hd4 Hr4 Hfo ltac:(lia))
      as (s5 & low5 & high5 & E5 & Hk5 & HL5 & HT5 & Hlh5 & Hfr5 & Hu5).
    exists s5, low5, high5. split; [exact E5|]. constructor; try done.
    + exact (kept_trans [] [o] _ _ _ Hk4 Hk5).
    + split; [done|]. split; [done|]. intros ?. lia.
    + by rewrite (filter_some _ _ o).
    + rewrite Hu5. simpl. rewrite decide_True by done. simpl. rewrite (charge_at_eq _ _ _ Hdo). lia.
  - destruct (release_old_held s4 low2 high2 (e :: T0) o (ext o) f ev HL4 HT4 Hr4 Hfo ltac:(lia)) as (s5 & E5 & Hk5 & HL5 & HT5 & Hr5 & Hf5 & Hu5).
    exists s5, low2, high2. rewrite app_nil_r. split; [exact E5|]. constructor; try done.
    + exact (kept_trans [] [o] _ _ _ Hk4 Hk5).
    + split; [done|]. split; [done|]. intros _. split; [done|]. exists (put_flag f 1 false). split; [done|apply put_flag_1].
    + rewrite (filter_some _ _ o) by done. rewrite filter_out; [done|]. intros Hi. by apply (i_lru _ _ _ _ _ _ HI2) in Hi as [_ Hi].
    + rewrite Hu5. simpl. rewrite decide_False by done. simpl. lia.
Qed.

Lemma swap_spec {refs ev s2 live2 low2 high2 T2} :
  room s live low high T ext e d refs hi ev s2 live2 low2 high2 T2 -> zlen T + 1 < 2 ^ 30 ->
  exists old s5 low5 high5 T0,
    (old ← table_Insert e; _ ← modify (fun s => set_usage s (u64 (usage_ s + charge)));
     match old with None => mret ev | Some o => release_old o ev end) s2 = Ret (ev ++ dead_of old, s5) /\
    swapped s2 live2 low2 high2 T2 old s5 low5 high5 T0.
Proof.
  intros HR Hz. destruct (charge_spec HR Hz) as (old & s3 & s4 & T0 & E & E4 & HC). destruct old as [o|].
  - destruct (let_go_spec o s4 T0 HR HC) as (s5 & low5 & high5 & E5 & HS). exists (Some o), s5, low5, high5, T0. split; [|done].
    mstep E. mstep E4. exact E5.
  - destruct HC as [Hk Hf HL HT Hu [-> Hno]]. exists None, s4, low2, high2, T2. split; [mstep E; mstep E4; by rewrite app_nil_r|].
    constructor; try done; [by rewrite filter_none|simpl; lia].
Qed.

Lemma swapped_facts {refs ev s2 live2 low2 high2 T2 old s5 low5 high5 T0} :
  room s live low high T ext e d refs hi ev s2 live2 low2 high2 T2 ->
  swapped s2 live2 low2 high2 T2 old s5 low5 high5 T0 ->
  (e ∉ T2) /\ (forall o, old = Some o -> o ∈ T2 /\ o ∈ live2 /\ o <> e) /\ NoDup T0 /\
  (forall y, y ∈ T0 <-> y ∈ T2 /\ Some y <> old) /\ (e ∉ olds old).
Proof.
  intros HR HS. pose proof (rm_inv HR) as HI2. destruct (room_nodup HR) as (_ & _ & _ & _ & Hel & _).
  assert (e ∉ T2) as HeT by (intros Hi; by apply Hel, (i_table _ _ _ _ _ _ HI2)).
  pose proof (sw_perm _ _ _ _ _ _ _ _ _ _ HS) as Hp.
  assert (forall o, old = Some o -> o ∈ T2 /\ o ∈ live2 /\ o <> e) as Ho.
  { intros o ->. assert (o ∈ T2) as HoT by (rewrite Hp; simpl; inlist).
    split; [done|]. split; [by apply (i_table _ _ _ _ _ _ HI2)|]. by intros ->. }
  pose proof (TabOf_nodup _ _ (i_tab _ _ _ _ _ _ HI2)) as Hnd. rewrite Hp in Hnd.
  split; [done|]. split; [done|]. split; [by apply list.NoDup_app in Hnd as (_ & _ & ?)|]. split.
  - intros y. rewrite Hp. destruct old as [o|]; simpl.
    + apply list.NoDup_cons in Hnd as [HoT0 _]. split.
      * intros Hy. split; [inlist|]. intros [= ->]. done.
      * intros [Hy Hne]. apply elem_of_cons in Hy as [->|Hy]; done.
    + naive_solver.
  - destruct old as [o|]; simpl; [|apply not_elem_of_nil]. intros Hi. apply list_elem_of_singleton in Hi as ->.
    by destruct (Ho o eq_refl) as (_ & _ & ?).
Qed.

Lemma dead_perm {refs ev s2 live2 low2 high2 T2 old s5 low5 high5 T0} :
  room s live low high T ext e d refs hi ev s2 live2 low2 high2 T2 ->
  swapped s2 live2 low2 high2 T2 old s5 low5 high5 T0 ->
  exists live3, live2 ≡ₚ dead_of old ++ live3 /\ NoDup live3 /\
    (forall y, y ∈ live3 <-> y ∈ live2 /\ y ∉ dead_of old) /\
    usage_ s5 = charge + csum s2 live3 /\ usage_ s5 < 2 ^ 64.
Proof.
  intros HR HS. destruct (swapped_facts HR HS) as (_ & Ho & _).
  assert (exists live3, live2 ≡ₚ dead_of old ++ live3) as [live3 Hl3].
  { unfold dead_of. destruct old as [o|]; [|by exists live2]. destruct (decide (ext o = 0)); [|by exists live2].
    destruct (Ho o eq_refl) as (_ & Hol & _). by apply split_perm in Hol. }
  exists live3. split; [done|]. pose proof (i_nodup _ _ _ _ _ _ (rm_inv HR)) as Hnd. rewrite Hl3 in Hnd.
  apply list.NoDup_app in Hnd as (_ & Hdis & Hnd). split; [done|]. split.
  { intros y. rewrite Hl3. split.
    - intros Hy. split; [inlist|]. intros Hd. by apply (Hdis y).
    - intros [Hy Hne]. inlist. }
  rewrite (sw_usage _ _ _ _ _ _ _ _ _ _ HS). pose proof (i_usage _ _ _ _ _ _ (rm_inv HR)) as Hu2.
  rewrite (csum_perm _ _ _ Hl3), csum_app in Hu2. pose proof (rm_usage HR).
  destruct (room_pinned HQ Hfh HR) as (_ & _ & _ & Hev & _). pose proof (fh_usage _ _ _ Hfh) as Hu. simpl in Hu.
  pose proof (csum_nonneg s2 (dead_of old) (l_charge _ _ _ _ (i_list _ _ _ _ _ _ (rm_inv HR)))). lia.
Qed.

Lemma swap_inv n {ev s2 live2 low2 high2 T2 old s5 low5 high5 T0} s' low' high' live3 :
  room s live low high T ext e d (n + 1) hi ev s2 live2 low2 high2 T2 ->
  swapped s2 live2 low2 high2 T2 old s5 low5 high5 T0 ->
  (n = 0 \/ n = 1) -> kept [] s5 s' -> Lst s' low' high' -> TabOf s' (e :: T0) -> usage_ s' = usage_ s5 ->
  (forall y, y ∈ low' ++ high' <-> y ∈ low5 ++ high5 \/ (y = e /\ n = 0)) ->
  live2 ≡ₚ dead_of old ++ live3 -> NoDup live3 -> (forall y, y ∈ live3 <-> y ∈ live2 /\ y ∉ dead_of old) ->
  usage_ s5 = charge + csum s2 live3 -> usage_ s5 < 2 ^ 64 ->
  Inv s' (e :: live3) low' high' (e :: T0) (upd ext e n).
Proof.
  intros HR HS Hn Hk5 HL' HT' Hu' Hlist Hl3 Hnd Hin3 Hu5 Hu5b.
  destruct (swapped_facts HR HS) as (HeT & Ho & HndT & HT0 & Heo). pose proof (rm_inv HR) as HI2.
  destruct (room_nodup HR) as (_ & _ & _ & _ & Hel & _).
  assert (hdata s2 !! e = Some d) as Hd2 by (rewrite (rm_data HR); apply lookup_insert_eq).
  pose proof (kept_trans _ _ _ _ _ (sw_kept _ _ _ _ _ _ _ _ _ _ HS) Hk5) as Hk. rewrite app_nil_r in Hk.
  apply (Inv_update HI2 (e :: olds old)); try done.
  - apply (kept_sub (olds old)); [intros x Hx; inlist|done].
  - apply list.NoDup_cons. split; [|done]. rewrite Hin3. naive_solver.
  - intros y Hy. assert (y <> e /\ y ∉ olds old) as [Hye Hyo] by (split; [intros ->|intros Hi]; apply Hy; inlist).
    assert (Some y <> old) as Hso by (intros <-; apply Hyo; simpl; inlist).
    rewrite upd_ne by done. split; [|split; [done|]].
    + rewrite elem_of_cons, Hin3. assert (y ∉ dead_of old); [|naive_solver].
      unfold dead_of. destruct old as [o|]; [|apply not_elem_of_nil]. destruct (decide _); [done|apply not_elem_of_nil].
    + rewrite elem_of_cons, HT0. naive_solver.
  - intros y Hy. apply elem_of_cons in Hy as [->|Hy].
    + rewrite upd_eq, decide_True by inlist. split; [lia|]. split; [by eexists|]. split; [left; inlist|].
      split; [rewrite tin_in by inlist; rewrite (k_refs _ _ _ Hk e Heo); apply (rm_refs HR)|].
      destruct (rm_flags HR) as (f & Hf & Hb & _). destruct (k_flags _ _ _ Hk e f Heo Hf) as (f' & Hf' & Hb' & _).
      exists f'. split; [done|]. rewrite Hb', Hb. split; [intros _; inlist|done].
    + destruct old as [o|]; simpl in Hy; [|by apply not_elem_of_nil in Hy]. apply list_elem_of_singleton in Hy as ->.
      destruct (Ho o eq_refl) as (HoT & Hol & Hoe). rewrite upd_ne by done.
      pose proof (i_ext _ _ _ _ _ _ HI2 o) as Hx. split; [done|].
      destruct (sw_old _ _ _ _ _ _ _ _ _ _ HS) as (_ & _ & Hheld).
      assert (o ∉ e :: T0) as HoT0 by (rewrite elem_of_cons, HT0; naive_solver).
      destruct (decide (o ∈ e :: live3)) as [Hi|Hi].
      * apply elem_of_cons in Hi as [->|Hi]; [done|]. apply Hin3 in Hi as [_ Hi]. simpl in Hi.
        destruct (decide (ext o = 0)); [destruct Hi; inlist|]. destruct (Hheld ltac:(lia)) as (Hr & f & Hf & Hb).
        assert (o ∉ ([] : list loc)) as Hnil by apply not_elem_of_nil.
        split; [by apply (i_alloc _ _ _ _ _ _ HI2)|]. split; [right; lia|].
        split; [rewrite (k_refs _ _ _ Hk5 o Hnil), tin_out by done; by rewrite Z.add_0_r|].
        destruct (k_flags _ _ _ Hk5 o f Hnil Hf) as (f' & Hf' & Hb' & _). exists f'. split; [done|].
        rewrite Hb', Hb. split; [done|by intros].
      * split; [done|]. destruct (decide (ext o = 0)) as [|Hne]; [done|]. destruct Hi. apply elem_of_cons. right.
        apply Hin3. split; [done|]. simpl. rewrite decide_False by done. apply not_elem_of_nil.
  - intros y. rewrite Hlist, (sw_list _ _ _ _ _ _ _ _ _ _ HS), list_elem_of_filter, (i_lru _ _ _ _ _ _ HI2), elem_of_cons, HT0.
    unfold upd. destruct (decide (y = e)) as [->|Hye]; naive_solver.
  - rewrite Hu'. simpl. by rewrite (charge_at_eq _ _ _ Hd2).
  - by rewrite Hu'.
Qed.

(** The entry is in: [ev] has been evicted, [old] replaced. *)
Record inserted (want : bool) (ev : list loc) (old : ptr) (s' : Shard) (live' low' high' T' : list loc) : Prop := {
  in_quiet : Quiet s' live' low' high' T' (upd ext e (if want then 1 else 0));
  in_evicts : evicts (over charge) s (low ++ high) ev;
  in_old : match old with
    | None => forall x, x ∈ T -> x ∉ ev -> ~ matches s k h x
    | Some o => o ∈ T /\ (o ∉ ev) /\ matches s k h o
    end;
  in_table : forall y, y ∈ T' <-> y = e \/ (y ∈ T /\ (y ∉ ev) /\ Some y <> old);
  in_list : exists rest, low ++ high = ev ++ rest /\
    let rest' := filter (fun x => Some x <> old) rest in
    if want then low' ++ high' = rest'
    else if double_gt (high_pri_pool_ratio_ s) (double_of_size_t 0) && hi then low' ++ high' = rest' ++ [e]
    else exists l1 l2, rest' = l1 ++ l2 /\ low' = l1 ++ [e] /\ high' = l2;
  in_heap : forall x, hdata s' !! x = if decide (x ∈ ev ++ dead_of old) then None else <[e := d]> (hdata s) !! x;
  in_del : deletions s' = deletions s ++ deletions_of s (ev ++ dead_of old);
  in_usage : usage_ s' <= usage_ s - csum s ev + charge;
  in_cap : capacity_ s' = capacity_ s;
}.

(** What is left to do once the entry is in: freeing. *)
Lemma finish_insert n {ev s2 live2 low2 high2 T2 old s5 low5 high5 T0} s6 low' high' live3 :
  room s live low high T ext e d (n + 1) hi ev s2 live2 low2 high2 T2 ->
  swapped s2 live2 low2 high2 T2 old s5 low5 high5 T0 ->
  kept [] s5 s6 -> Inv s6 (e :: live3) low' high' (e :: T0) (upd ext e n) ->
  (forall y, y ∈ live3 <-> y ∈ live2 /\ y ∉ dead_of old) ->
  exists s', FreeAll (ev ++ dead_of old) s6 = Ret (tt, s') /\ Inv s' (e :: live3) low' high' (e :: T0) (upd ext e n) /\
    (forall x, hdata s' !! x = if decide (x ∈ ev ++ dead_of old) then None else <[e := d]> (hdata s) !! x) /\
    deletions s' = deletions s ++ deletions_of s (ev ++ dead_of old) /\
    capacity_ s' = capacity_ s /\ usage_ s' = usage_ s6 /\ (forall x, is_Some (hdata s' !! x) -> x ∈ e :: live3).
Proof.
  intros HR HS Hk6 HI6 Hin3. destruct (room_nodup HR) as (Hnd & Hdis & Hal & Hee & Hel & _).
  destruct (swapped_facts HR HS) as (HeT & Ho & _ & _ & Heo). pose proof (rm_inv HR) as HI2.
  pose proof (kept_trans _ _ _ _ _ (sw_kept _ _ _ _ _ _ _ _ _ _ HS) Hk6) as Hk. rewrite app_nil_r in Hk.
  assert (forall x, x ∈ dead_of old -> exists o, old = Some o /\ x = o /\ ext o = 0) as Hdead.
  { intros x Hx. unfold dead_of in Hx. destruct old as [o|]; [|by apply not_elem_of_nil in Hx].
    destruct (decide (ext o = 0)); [|by apply not_elem_of_nil in Hx]. apply list_elem_of_singleton in Hx as ->. by exists o. }
  assert (forall x, x ∈ ev -> x ∉ olds old) as Hevo.
  { intros x Hx Hi. destruct old as [o|]; simpl in Hi; [|by apply not_elem_of_nil in Hi].
    apply list_elem_of_singleton in Hi as ->. destruct (Ho o eq_refl) as (_ & Hol & _). by apply (Hdis o). }
  assert (NoDup (ev ++ dead_of old)) as Hnd2.
  { apply list.NoDup_app. split; [done|]. split.
    - intros x Hx Hd. destruct (Hdead x Hd) as (o & -> & -> & _). apply (Hevo o Hx). simpl. inlist.
    - unfold dead_of. destruct old as [o|]; [|constructor]. destruct (decide _); [apply NoDup_singleton|constructor]. }
  destruct (FreeAll_spec (ev ++ dead_of old) HI6 Hnd2) as (s7 & E7 & HI7 & Hg).
  { intros x Hx. rewrite (k_data _ _ _ Hk). apply elem_of_app in Hx as [Hx|Hx].
    - split; [|split; [by apply Hal|]].
      + intros Hi. apply elem_of_cons in Hi as [->|Hi]; [done|]. apply Hin3 in Hi as [Hi _]. by apply (Hdis x).
      + eapply kept_freeable; [exact Hk|by apply Hevo|by apply (rm_free HR)].
    - pose proof Hx as Hxd. destruct (Hdead x Hx) as (o & -> & -> & Heo0). destruct (Ho o eq_refl) as (_ & Hol & Hoe).
      split; [|split; [by apply (i_alloc _ _ _ _ _ _ HI2)|]].
      + intros Hi. apply elem_of_cons in Hi as [->|Hi]; [done|]. by apply Hin3 in Hi as [_ Hi].
      + eapply kept_freeable; [exact Hk6|apply not_elem_of_nil|].
        destruct (sw_old _ _ _ _ _ _ _ _ _ _ HS) as (_ & Hfr & _). by apply Hfr. }
  destruct (g_ctl _ _ _ Hg) as (Hgc & Hgu & _). destruct (rm_ctl HR) as (Hcap & _ & _ & Hdl).
  assert (forall x, hdata s7 !! x = if decide (x ∈ ev ++ dead_of old) then None else <[e := d]> (hdata s) !! x) as Hheap.
  { intros x. by rewrite (g_data _ _ _ Hg), (k_data _ _ _ Hk), (rm_data HR). }
  exists s7. split; [done|]. split; [done|]. split; [done|].
  split; [|split; [by rewrite Hgc, (k_cap _ _ _ Hk)|split; [done|]]].
  - rewrite (g_del _ _ _ Hg), (k_del _ _ _ Hk), Hdl. f_equal. apply deletions_of_agree. intros x Hx.
    rewrite (k_data _ _ _ Hk), (rm_data HR), lookup_insert_ne; [done|]. intros <-.
    apply elem_of_app in Hx as [Hx|Hx]; [done|]. destruct (Hdead e Hx) as (o & Ho1 & -> & _).
    by destruct (Ho o Ho1) as (_ & _ & ?).
  - intros x. rewrite Hheap. destruct (decide (x ∈ ev ++ dead_of old)) as [|Hx]; [by intros []|].
    destruct (decide (x = e)) as [->|Hxe]; [intros; inlist|]. rewrite lookup_insert_ne by done. intros Hd.
    apply (q_live _ _ _ _ _ _ HQ) in Hd. rewrite (rm_live HR) in Hd. apply elem_of_cons. right. apply Hin3.
    split; [|intros Hi]; [inlist|apply Hx; inlist].
Qed.

Lemma swapped_usage {refs ev s2 live2 low2 high2 T2 old s5 low5 high5 T0} :
  room s live low high T ext e d refs hi ev s2 live2 low2 high2 T2 ->
  swapped s2 live2 low2 high2 T2 old s5 low5 high5 T0 -> usage_ s5 <= usage_ s - csum s ev + charge.
Proof.
  intros HR HS. rewrite (sw_usage _ _ _ _ _ _ _ _ _ _ HS), (rm_usage HR).
  pose proof (csum_nonneg s2 (dead_of old) (l_charge _ _ _ _ (i_list _ _ _ _ _ _ (rm_inv HR)))). lia.
Qed.

(** The parts of [inserted] that concern the table. *)
Lemma inserted_table {refs ev s2 live2 low2 high2 T2 old s5 low5 high5 T0} :
  room s live low high T ext e d refs hi ev s2 live2 low2 high2 T2 ->
  swapped s2 live2 low2 high2 T2 old s5 low5 high5 T0 ->
  match old with
  | None => forall x, x ∈ T -> x ∉ ev -> ~ matches s k h x
  | Some o => o ∈ T /\ (o ∉ ev) /\ matches s k h o
  end /\ (forall y, y ∈ e :: T0 <-> y = e \/ (y ∈ T /\ (y ∉ ev) /\ Some y <> old)).
Proof.
  intros HR HS. destruct (room_nodup HR) as (_ & Hdis & _ & Hee & Hel & _).
  destruct (swapped_facts HR HS) as (HeT & Ho & _ & HT0 & _). pose proof (rm_inv HR) as HI2.
  pose proof (TabOf_nodup _ _ (i_tab _ _ _ _ _ _ HI)) as Hnd. rewrite (rm_table HR) in Hnd.
  apply list.NoDup_app in Hnd as (_ & Hd & _).
  assert (forall y, y ∈ T2 <-> y ∈ T /\ y ∉ ev) as HT2.
  { intros y. rewrite (rm_table HR). split; [|intros []; inlist]. intros Hy. split; [inlist|]. intros Hi. by apply (Hd y). }
  assert (forall x, x ∈ T2 -> matches s k h x <-> matches s2 k h x) as Hm.
  { intros x Hx. unfold matches. rewrite (rm_data HR), lookup_insert_ne; [done|]. by intros <-. }
  pose proof (sw_old _ _ _ _ _ _ _ _ _ _ HS) as Hold. split.
  - destruct old as [o|].
    + destruct (Ho o eq_refl) as (HoT & _ & _). destruct Hold as (Hmo & _). rewrite Hm by done. split; [by apply HT2|].
      split; [by apply HT2|done].
    + intros x Hx Hxe. assert (x ∈ T2) by (by apply HT2). rewrite Hm by done. by apply Hold.
  - intros y. rewrite elem_of_cons, HT0, HT2. naive_solver.
Qed.

(** Inserted, with a handle for the caller. *)
Lemma Insert_held :
  full s charge && strict_capacity_limit_ s = false -> zlen T + 1 < 2 ^ 30 ->
  exists ev old s' live' low' high' T',
    Insert e flags0 k h value charge deleter true priority s = Ret ((OK, Some (Some e)), s') /\
    inserted true ev old s' live' low' high' T'.
Proof.
  intros Hgo Hz. destruct (make_room e d 2 flags0 priority HQ Hfh) as (ev & s2 & live2 & low2 & high2 & T2 & E & HR).
  destruct (swap_spec HR Hz) as (old & s5 & low5 & high5 & T0 & E5 & HS).
  destruct (dead_perm HR HS) as (live3 & Hl3 & Hnd3 & Hin3 & Hu5 & Hu5b).
  assert (Inv s5 (e :: live3) low5 high5 (e :: T0) (upd ext e 1)) as HI5.
  { eapply (swap_inv 1 s5 low5 high5 live3 HR HS); try done; [by right|apply kept_refl|apply (sw_lst _ _ _ _ _ _ _ _ _ _ HS)
      |apply (sw_tab _ _ _ _ _ _ _ _ _ _ HS)|naive_solver]. }
  destruct (finish_insert 1 s5 low5 high5 live3 HR HS (kept_refl _ _) HI5 Hin3) as (s' & E' & HI' & Hheap & Hdel & Hcap & Hus & Hall).
  destruct (inserted_table HR HS) as [Hold HT'].
  exists ev, old, s', (e :: live3), low5, high5, (e :: T0). split.
  - unfold Insert. rewrite (M_bind_ret2 _ _ _ _ _ _ E). mnext. rewrite (full_test HR).
    destruct (rm_ctl HR) as (_ & -> & _). cbn [negb]. rewrite orb_false_r, Hgo.
    erewrite (M_bind_ret (A := Status * option ptr * list loc)) by
      (erewrite (M_bind_ret3 (table_Insert e)) by exact E5; cbv beta; reflexivity).
    cbv beta iota. mstep E'. done.
  - constructor; try done.
    + constructor; [done|done|]. rewrite Hus, Hcap. pose proof (rm_usage HR). 
      destruct (room_quiet_cap HR) as [Hnil|Hle].
      * right. by rewrite (sw_list _ _ _ _ _ _ _ _ _ _ HS), Hnil.
      * left. destruct (rm_ctl HR) as (<- & _). rewrite (sw_usage _ _ _ _ _ _ _ _ _ _ HS).
        pose proof (csum_nonneg s2 (dead_of old) (l_charge _ _ _ _ (i_list _ _ _ _ _ _ (rm_inv HR)))). lia.
    + apply HR.
    + exists (low2 ++ high2). split; [apply (rm_list HR)|]. apply (sw_list _ _ _ _ _ _ _ _ _ _ HS).
    + rewrite Hus. by apply (swapped_usage HR HS).
Qed.

(** The step that makes the new entry unused: [LRU_Insert] on the state the table insertion left. *)
Lemma list_step {ev s2 live2 low2 high2 T2 old s5 low5 high5 T0} live3 :
  room s live low high T ext e d 1 hi ev s2 live2 low2 high2 T2 ->
  swapped s2 live2 low2 high2 T2 old s5 low5 high5 T0 ->
  (forall y, y ∈ live3 <-> y ∈ live2 /\ y ∉ dead_of old) ->
  usage_ s5 = charge + csum s2 live3 -> usage_ s5 < 2 ^ 64 ->
  exists s6 low6 high6,
    LRU_Insert e s5 = Ret (tt, s6) /\ Lst s6 low6 high6 /\ list_frame s5 s6 /\
    if double_gt (high_pri_pool_ratio_ s) (double_of_size_t 0) && hi
    then low6 ++ high6 = low5 ++ high5 ++ [e]
    else low6 = low5 ++ [e] /\ high6 = high5.
Proof.
  intros HR HS Hin3 Hu5 Hu5b. pose proof (rm_inv HR) as HI2. destruct (swapped_facts HR HS) as (HeT & _ & _ & _ & Heo).
  pose proof (sw_kept _ _ _ _ _ _ _ _ _ _ HS) as Hk5. pose proof (sw_lst _ _ _ _ _ _ _ _ _ _ HS) as HL5.
  assert (forall y, y ∈ low5 ++ high5 -> y ∈ T2 /\ ext y = 0 /\ Some y <> old) as H5.
  { intros y. rewrite (sw_list _ _ _ _ _ _ _ _ _ _ HS), list_elem_of_filter, (i_lru _ _ _ _ _ _ HI2). naive_solver. }
  assert (e ∉ lru_ :: low5 ++ high5) as He5.
  { intros Hi. apply elem_of_cons in Hi as [Hi|Hi]; [by apply (fh_null _ _ _ Hfh)|]. by apply H5 in Hi as [? _]. }
  assert (hdata s5 !! e = Some d) as Hd5 by (rewrite (k_data _ _ _ Hk5), (rm_data HR); apply lookup_insert_eq).
  destruct (rm_flags HR) as (f2 & Hf2 & _ & Hb2). destruct (k_flags _ _ _ Hk5 e f2 Heo Hf2) as (f5 & Hf5 & _ & Hb5).
  assert (csum s5 (low5 ++ high5) <= csum s2 live3) as Hle.
  { rewrite (csum_data s2 s5) by apply Hk5. apply csum_sub; [apply (l_charge _ _ _ _ (i_list _ _ _ _ _ _ HI2))| |].
    - pose proof (l_nodup _ _ _ _ HL5) as Hnd. by apply list.NoDup_cons in Hnd as [_ Hnd].
    - intros x Hx. apply H5 in Hx as (Hx & Hex & Hxo). apply Hin3. split; [by apply (i_table _ _ _ _ _ _ HI2)|].
      unfold dead_of. intros Hi. destruct old as [o|]; [|by apply not_elem_of_nil in Hi].
      destruct (decide _); [|by apply not_elem_of_nil in Hi]. apply list_elem_of_singleton in Hi as ->. done. }
  destruct (LRU_Insert_spec s5 low5 high5 e d f5 HL5 He5 Hd5 Hf5 ltac:(simpl; lia)) as (s6 & low6 & high6 & E6 & HL6 & Hfr & Hpl).
  exists s6, low6, high6. split; [done|]. split; [done|]. split; [done|].
  assert (high_pri_pool_ratio_ s5 = high_pri_pool_ratio_ s) as Hra.
  { rewrite (k_ratio _ _ _ Hk5). by destruct (rm_ctl HR) as (_ & _ & ? & _). }
  by rewrite Hra, Hb5, Hb2 in Hpl.
Qed.

(** Inserted, with no handle for the caller: the entry is unused from the start. *)
Lemma Insert_unheld :
  full s charge = false -> zlen T + 1 < 2 ^ 30 ->
  exists ev old s' live' low' high' T',
    Insert e flags0 k h value charge deleter false priority s = Ret ((OK, None), s') /\
    inserted false ev old s' live' low' high' T'.
Proof.
  intros Hgo Hz. destruct (make_room e d 1 flags0 priority HQ Hfh) as (ev & s2 & live2 & low2 & high2 & T2 & E & HR).
  destruct (swap_spec HR Hz) as (old & s5 & low5 & high5 & T0 & E5 & HS).
  destruct (dead_perm HR HS) as (live3 & Hl3 & Hnd3 & Hin3 & Hu5 & Hu5b).
  destruct (swapped_facts HR HS) as (_ & _ & _ & HT0 & _). pose proof (rm_inv HR) as HI2.
  pose proof (sw_list _ _ _ _ _ _ _ _ _ _ HS) as Hlh5.
  destruct (list_step live3 HR HS Hin3 Hu5 Hu5b) as (s6 & low6 & high6 & E6 & HL6 & Hfr & Hpl).
  assert (forall y, y ∈ low6 ++ high6 <-> y ∈ low5 ++ high5 \/ y = e) as Hlh6.
  { intros y. revert Hpl. destruct (double_gt _ _ && _); intros Hpl; [rewrite Hpl|destruct Hpl as [-> ->]]; split; intros; inlist. }
  pose proof (kept_list_frame _ _ Hfr) as Hk6.
  assert (lru_ ∉ e :: T0) as Hlru.
  { intros Hi. apply elem_of_cons in Hi as [Hi|Hi]; [by apply (fh_null _ _ _ Hfh)|]. apply HT0 in Hi as [Hi _].
    by apply (inv_lru_notin HI2). }
  assert (Inv s6 (e :: live3) low6 high6 (e :: T0) (upd ext e 0)) as HI6.
  { eapply (swap_inv 0 s6 low6 high6 live3 HR HS); try done; [by left| |apply (lf_usage _ _ Hfr)|naive_solver].
    eapply TabOf_list_frame; [exact Hfr|exact HL6|exact Hlru|apply (sw_tab _ _ _ _ _ _ _ _ _ _ HS)]. }
  destruct (finish_insert 0 s6 low6 high6 live3 HR HS Hk6 HI6 Hin3) as (s' & E' & HI' & Hheap & Hdel & Hcap & Hus & Hall).
  destruct (inserted_table HR HS) as [Hold HT'].
  exists ev, old, s', (e :: live3), low6, high6, (e :: T0). split.
  - unfold Insert. rewrite (M_bind_ret2 _ _ _ _ _ _ E). mnext. rewrite (full_test HR), Hgo. cbn [andb negb].
    erewrite (M_bind_ret (A := Status * option ptr * list loc)) by
      (erewrite (M_bind_ret3 (table_Insert e)) by exact E5; cbv beta;
       erewrite (M_bind_ret (A := option ptr)) by (mstep E6; reflexivity); reflexivity).
    cbv beta iota. mstep E'. done.
  - constructor; try done.
    + constructor; [done|done|]. left. rewrite Hus, Hcap, (lf_usage _ _ Hfr), (sw_usage _ _ _ _ _ _ _ _ _ _ HS).
      pose proof (csum_nonneg s2 (dead_of old) (l_charge _ _ _ _ (i_list _ _ _ _ _ _ HI2))).
      destruct (room_quiet_cap HR) as [Hnil|Hle]; destruct (rm_ctl HR) as (Hc2 & _); [|lia].
      destruct (room_pinned HQ Hfh HR) as (_ & Hpin & _). pose proof (l_usage _ _ _ _ (i_list _ _ _ _ _ _ HI2)) as Hlu.
      rewrite Hnil in Hlu. simpl in Hlu. unfold full in Hgo. lia.
    + apply HR.
    + exists (low2 ++ high2). split; [apply (rm_list HR)|]. simpl. rewrite <- Hlh5.
      revert Hpl. unfold hi. destruct (double_gt _ _ && _); intros Hpl; [by rewrite Hpl, app_assoc|].
      destruct Hpl as [-> ->]. by exists low5, high5.
    + rewrite Hus, (lf_usage _ _ Hfr). by apply (swapped_usage HR HS).
Qed.
End insert.

(** ** [Erase] *)

Section erase.
Context {s : Shard} {live low high T : list loc} {ext : loc -> Z} (HQ : Quiet s live low high T ext).
#[local] Set Default Proof Using "All".
Let HI : Inv s live low high T ext := q_inv _ _ _ _ _ _ HQ.

(** A key without an entry. *)
Lemma Erase_absent k h : 0 <= h -> (forall x, x ∈ T -> ~ matches s k h x) -> Erase k h s = Ret (tt, s).
Proof.
  intros Hh Hno. destruct (TabOf_Remove s T k h (i_tab _ _ _ _ _ _ HI) Hh) as ([x|] & s' & E & _ & Hm).
  - destruct Hm as (Hm & T' & Hp & _). destruct (Hno x); [rewrite Hp; inlist|done].
  - destruct Hm as [-> _]. unfold Erase. by mstep E.
Qed.

Lemma remove_entry k h e :
  0 <= h -> e ∈ T -> matches s k h e ->
  exists s1 T', table_Remove k h s = Ret (Some e, s1) /\ table_frame s s1 /\ T ≡ₚ e :: T' /\ TabOf s1 T'.
Proof.
  intros Hh HeT (d & Hd & <- & <-). by apply TabOf_Remove_self; [apply (i_tab _ _ _ _ _ _ HI)| |].
Qed.

(** The entry of the key, held by clients: it leaves the table only. *)
Lemma Erase_held k h e :
  0 <= h -> e ∈ T -> matches s k h e -> 0 < ext e ->
  exists s' T', Erase k h s = Ret (tt, s') /\ Quiet s' live low high T' ext /\ T ≡ₚ e :: T' /\
    hdata s' = hdata s /\ deletions s' = deletions s.
Proof.
  intros Hh HeT Hm He. destruct (remove_entry k h e Hh HeT Hm) as (s1 & T' & E & Htf & Hp & HT1).
  pose proof (i_table _ _ _ _ _ _ HI e HeT) as Hel.
  destruct (inv_handle HI e Hel) as (d & f & Hd & Hf & Hc & Hr & Hb & _). rewrite (tin_in _ _ HeT) in Hr.
  pose proof (kept_table_frame _ _ Htf) as Hk1. pose proof (Lst_table_frame _ _ _ _ _ Htf (i_list _ _ _ _ _ _ HI)) as HL1.
  assert (hrefs s1 !! e = Some (ext e + 1)) as Hr1 by (by rewrite (k_refs _ _ _ Hk1 e (not_elem_of_nil e))).
  assert (hflags s1 !! e = Some f) as Hf1 by (destruct Htf as [->]; done).
  assert (hdata s1 !! e = Some d) as Hd1 by (by rewrite (k_data _ _ _ Hk1)).
  assert (usage_ s1 = usage_ s /\ capacity_ s1 = capacity_ s) as [Hu1 Hc1] by (destruct Htf as [->]; done).
  set (s2 := with_refs s1 (<[e := ext e]> (hrefs s1)) (<[e := put_flag f 1 false]> (hflags s1)) (usage_ s1)).
  assert (kept [e] s s2) as Hk2.
  { apply (kept_trans [] [e] s s1 s2 Hk1). constructor; try done; simpl.
    - intros x Hx. apply lookup_insert_ne. intros ->. apply Hx. inlist.
    - intros x g Hx Hg. exists g. rewrite lookup_insert_ne; [done|]. intros ->. apply Hx. inlist. }
  exists s2, T'. split; [|split; [|split; [done|split; [apply (k_data _ _ _ Hk2)|apply (k_del _ _ _ Hk2)]]]].
  - unfold Erase. mstep E. mstep (Unref_eq e _ s1 Hr1 ltac:(lia)). replace (ext e + 1 - 1) with (ext e) by lia.
    replace (ext e =? 0) with false by lia. mnext. erewrite (M_bind_ret (mret tt)) by reflexivity. cbv beta iota. mnext.
    cbn [andb]. erewrite (M_bind_ret (mret tt)) by reflexivity. cbv beta iota. mnext. done.
  - constructor.
    + apply (Inv_uncache HI e s2 T' He Hk2).
      * apply LstP_with_refs; [done|]. intros x g Hg. destruct (decide (x = e)) as [->|Hne].
        -- rewrite lookup_insert_eq. eexists. split; [done|]. simplify_eq. apply put_flag_1.
        -- rewrite lookup_insert_ne by done. by exists g.
      * by apply TabOf_with_refs.
      * intros y. exact (perm_rest HI e T' y Hp).
      * simpl. apply lookup_insert_eq.
      * simpl. exists (put_flag f 1 false). split; [apply lookup_insert_eq|apply put_flag_1].
      * done.
    + rewrite (k_data _ _ _ Hk2). apply (q_live _ _ _ _ _ _ HQ).
    + simpl. rewrite Hu1, Hc1. apply (q_cap _ _ _ _ _ _ HQ).
Qed.

(** The entry of the key, held by nobody: it is freed. *)
Lemma Erase_unheld k h e :
  0 <= h -> e ∈ T -> matches s k h e -> ext e = 0 ->
  exists s' live' low' high' T', Erase k h s = Ret (tt, s') /\
    dropped (s := s) (live := live) (low := low) (high := high) (T := T) (ext := ext) e s' live' low' high' T'.
Proof.
  intros Hh HeT Hm He. destruct (remove_entry k h e Hh HeT Hm) as (s1 & T' & E & Htf & Hp & HT1).
  pose proof (i_table _ _ _ _ _ _ HI e HeT) as Hel. destruct (split_perm live e Hel) as [live' Hlive].
  destruct (inv_handle HI e Hel) as (d & f & Hd & Hf & Hc & Hr & Hb & _). rewrite (tin_in _ _ HeT), He in Hr.
  destruct (inv_charge_le HI e d live' Hlive Hd) as (_ & Hu & Hcs). pose proof (i_usage_bound _ _ _ _ _ _ HI).
  apply Hb in HeT as Hbt.
  pose proof (kept_table_frame _ _ Htf) as Hk1. pose proof (Lst_table_frame _ _ _ _ _ Htf (i_list _ _ _ _ _ _ HI)) as HL1.
  assert (hrefs s1 !! e = Some 1) as Hr1 by (by rewrite (k_refs _ _ _ Hk1 e (not_elem_of_nil e))).
  assert (hflags s1 !! e = Some f) as Hf1 by (destruct Htf as [->]; done).
  assert (hdata s1 !! e = Some d) as Hd1 by (by rewrite (k_data _ _ _ Hk1)).
  assert (usage_ s1 = usage_ s) as Hu1 by (destruct Htf as [->]; done).
  set (s2 := with_refs s1 (<[e := 0]> (hrefs s1)) (hflags s1) (usage_ s1 - charge d)).
  assert (Lst s2 low high) as HL2 by (apply LstP_with_refs; [done|]; intros x g Hg; by exists g).
  assert (e ∈ low ++ high) as Hlist by (by apply (i_lru _ _ _ _ _ _ HI)).
  destruct (LRU_Remove_spec s2 low high e HL2 Hlist) as (s3 & low' & high' & l1 & l2 & E3 & HL3 & Hfr & Hfl & Hsp & Hsp').
  assert (lru_ ∉ T') as Hlru by (intros Hi; apply (inv_lru_notin HI); rewrite Hp; inlist).
  pose proof (TabOf_list_frame _ _ _ _ _ _ Hfr HL3 Hlru (TabOf_with_refs _ _ _ _ _ HT1)) as HT3.
  assert (hflags s3 !! e = Some f) as Hf3 by (by rewrite Hfl).
  set (s4 := with_refs s3 (hrefs s3) (<[e := put_flag f 1 false]> (hflags s3)) (usage_ s3)).
  pose proof (l_nodup _ _ _ _ (i_list _ _ _ _ _ _ HI)) as Hnd. apply list.NoDup_cons in Hnd as [_ Hnd].
  destruct (drop_spec HQ e d s4 live' low' high' T' Hlive Hd) as (s5 & E5 & HD).
  - apply (kept_trans [] [e] s s1 s4 Hk1). constructor; try apply Hfr; simpl.
    + intros x Hx. rewrite (lf_refs _ _ Hfr). apply lookup_insert_ne. intros ->. apply Hx. inlist.
    + intros x g Hx Hg. rewrite Hfl. exists g. rewrite lookup_insert_ne; [done|]. intros ->. apply Hx. inlist.
  - apply LstP_with_refs; [done|]. intros x g Hg. destruct (decide (x = e)) as [->|Hne].
    + rewrite lookup_insert_eq. eexists. split; [done|]. simplify_eq. apply put_flag_1.
    + rewrite lookup_insert_ne by done. by exists g.
  - by apply TabOf_with_refs.
  - intros y. rewrite Hsp', <- (filter_mid l1 l2 e) by (by rewrite <- Hsp). rewrite list_elem_of_filter, Hsp. naive_solver.
  - intros y. exact (perm_rest HI e T' y Hp).
  - simpl. rewrite (lf_usage _ _ Hfr). simpl. by rewrite Hu1.
  - exists 0, (put_flag f 1 false). simpl. rewrite (lf_refs _ _ Hfr). simpl. rewrite !lookup_insert_eq.
    split_and!; [done..|]. right. split; [done|]. apply put_flag_1.
  - exists s5, live', low', high', T'. split; [|exact HD].
    unfold Erase. mstep E. mstep (Unref_eq e _ s1 Hr1 ltac:(lia)). change (1 - 1) with 0. change (0 =? 0) with true.
    mnext. erewrite (M_bind_ret (modify _)) by reflexivity. cbv beta iota. mnext. rewrite Hbt. cbn [andb].
    erewrite (M_bind_ret (LRU_Remove e) _ _ tt s3).
    2: { rewrite <- E3. f_equal. unfold s2, with_refs, set_usage, set_flags, set_refs, upd_ctl, upd_heap. simpl.
         by rewrite u64_small by lia. }
    cbv beta iota. mnext. exact E5.
Qed.
End erase.
