(* ===== verification/LruSafety.v ===== *)
(** * LruSafety: a shard and its clients

    The operations of a shard as the steps of a system: [reachable s ext] says that some
    sequence of calls, by clients that release only what they hold, leads from a new
    shard to [s], with [ext x] the references that the clients then hold to [x]. *)

From Stdlib Require Import Strings.Byte Strings.String Floats.SpecFloat.
From stdpp Require Import gmap.
From S2P Require Import Prelude.
From S2P Require Import Slice.
From S2P Require Import Coding.
From S2P Require Import Status.
From S2P Require Import LruCache.
From S2P Require Import LruTable.
From S2P Require Import LruList.
From S2P Require Import LruInv.
From S2P Require Import LruTraverse.
From S2P Require Import LruOps.
From S2P Require Import LruInsert.

(** ** A new shard *)

Definition new_shard (capacity : Z) (strict : bool) (ratio : double) : Shard :=
  mkShard ∅ ∅ ∅ {[ lru_ := Some lru_ ]} {[ lru_ := Some lru_ ]} ∅ [] 16 0 (zrep 16 None)
    capacity 0 0 0 strict ratio (double_mul (double_of_size_t capacity) ratio) lru_.

Lemma new_shard_setup cap0 strict0 ratio0 pool0 capacity strict ratio :
  0 <= capacity < 2 ^ 64 -> double_nonneg ratio ->
  LRUCacheShard_setup capacity strict ratio (LRUCacheShard_new cap0 strict0 ratio0 pool0) =
    Ret (tt, new_shard capacity strict ratio).
Proof.
  intros Hc Hr. unfold LRUCacheShard_setup.
  assert (forall s, hnext s !! lru_ = Some (Some lru_) -> usage_ s = 0 -> capacity_ s = capacity ->
    (l ← EvictFromLRU 0; FreeAll l) s = Ret (tt, s)) as Hev.
  { intros s Hn Hu Hcap. unfold EvictFromLRU.
    erewrite (M_bind_ret (_ ← get; _)); [|].
    2: { mnext. unfold list_fuel. cbn [evict_loop]. do 3 mnext. rewrite Hu, Hcap. change (u64 (0 + 0)) with 0.
         replace (capacity <? 0) with false by lia. reflexivity. }
    done. }
  mstep (eq_refl : LRUHandleTable_new (LRUCacheShard_new cap0 strict0 ratio0 pool0) =
    Ret (tt, upd_table (LRUCacheShard_new cap0 strict0 ratio0 pool0) 16 0 (zrep 16 None))).
  unfold SetCapacity. erewrite (M_bind_ret (_ ← modify _; _)).
  2: { mnext. apply Hev; done. }
  cbv beta iota. unfold SetStrictCapacityLimit. mnext. unfold SetHighPriorityPoolRatio. mnext.
  unfold MaintainPoolSize. mnext. unfold list_fuel. cbn [MaintainPoolSize_loop]. mnext.
  match goal with |- context [double_gt (double_of_size_t ?a) _] => change a with 0 end. rewrite zero_not_gt; [done|].
  change (double_nonneg (double_mul (double_of_size_t capacity) ratio)).
  apply double_mul_nonneg; [apply double_of_size_t_nonneg; lia|done].
Qed.

Lemma new_shard_quiet capacity strict ratio :
  0 <= capacity < 2 ^ 64 -> double_nonneg ratio ->
  Quiet (new_shard capacity strict ratio) [] [] [] [] (fun _ => 0).
Proof.
  intros Hc Hr. constructor; [|by intros x [d Hd]|by right]. constructor; try done; simpl.
  - constructor; try done; simpl; try (by intros x Hx; apply not_elem_of_nil in Hx).
    + apply NoDup_singleton.
    + by intros x _ [d Hd].
    + by intros x [d Hd].
    + apply double_mul_nonneg; [apply double_of_size_t_nonneg; lia|done].
  - exists (replicate 16 []). rewrite concat_replicate_nil. split; [|done].
    constructor; simpl; try done; rewrite ?concat_replicate_nil.
    + exists 4. done.
    + change (Forall2 (chain ∅) (replicate 16 None) (replicate 16 [])). by apply Forall2_replicate.
    + constructor.
    + intros x Hx. by apply not_elem_of_nil in Hx.
    + intros x y k h Hx. by apply not_elem_of_nil in Hx.
  - constructor.
  - intros x Hx. by apply not_elem_of_nil in Hx.
  - intros x Hx. by apply not_elem_of_nil in Hx.
  - intros x Hx. by apply not_elem_of_nil in Hx.
  - intros x. split; [intros Hx; by apply not_elem_of_nil in Hx|intros [Hx _]; by apply not_elem_of_nil in Hx].
Qed.

(** ** Calls *)

(** A call of one of the operations of a shard. The address and the initial contents of
    the memory that [Insert] allocates are parameters of the call. *)
Inductive call : Type :=
| CInsert (e : loc) (flags0 : Z) (k : Slice) (h value charge : Z) (deleter : option Z) (want : bool) (p : Priority)
| CLookup (k : Slice) (h : Z)
| CRelease (handle : ptr)
| CErase (k : Slice) (h : Z)
| CSetCapacity (capacity : Z)
| CSetStrictCapacityLimit (strict : bool)
| CSetHighPriorityPoolRatio (ratio : double)
| CEraseUnRefEntries
| CGetUsage
| CGetPinnedUsage
| CApplyToAllCacheEntries.

Inductive result : Type :=
| RVoid
| RHandle (h : ptr)
| RInsert (st : Status) (h : option ptr)
| RSize (n : Z)
| RList (args : list (Z * Z)).

Definition run `{Host} (c : call) : M result :=
  match c with
  | CInsert e fl k h v ch del want p => '(st, hd) ← Insert e fl k h v ch del want p; mret (RInsert st hd)
  | CLookup k h => p ← Lookup k h; mret (RHandle p)
  | CRelease p => _ ← Release p; mret RVoid
  | CErase k h => _ ← Erase k h; mret RVoid
  | CSetCapacity c => _ ← SetCapacity c; mret RVoid
  | CSetStrictCapacityLimit b => _ ← SetStrictCapacityLimit b; mret RVoid
  | CSetHighPriorityPoolRatio r => _ ← SetHighPriorityPoolRatio r; mret RVoid
  | CEraseUnRefEntries => _ ← EraseUnRefEntries; mret RVoid
  | CGetUsage => n ← GetUsage; mret (RSize n)
  | CGetPinnedUsage => n ← GetPinnedUsage; mret (RSize n)
  | CApplyToAllCacheEntries => l ← ApplyToAllCacheEntries; mret (RList l)
  end.

(** What clients may call: they release what they hold, arguments are in the range of
    their types, the allocator returns unused memory, and no count reaches its limit. *)
Definition legal (s : Shard) (ext : loc -> Z) (c : call) : Prop :=
  match c with
  | CInsert e fl k h v ch del want p =>
      fresh_handle s e (mkHandle v del ch k h) /\ elems_ s + 1 < 2 ^ 30
  | CLookup k h => 0 <= h /\ forall x, ext x + 1 < 2 ^ 32 - 1
  | CRelease (Some e) => 0 < ext e
  | CErase k h => 0 <= h
  | CSetCapacity c => 0 <= c < 2 ^ 64
  | CSetHighPriorityPoolRatio r => double_nonneg r
  | _ => True
  end.

(** The references that clients hold afterwards. *)
Definition held (ext : loc -> Z) (c : call) (r : result) : loc -> Z :=
  match c, r with
  | CInsert e _ _ _ _ _ _ _ _, RInsert _ (Some (Some _)) => upd ext e 1
  | CLookup _ _, RHandle (Some e) => upd ext e (ext e + 1)
  | CRelease (Some e), _ => upd ext e (ext e - 1)
  | _, _ => ext
  end.

Inductive reachable `{Host} : Shard -> (loc -> Z) -> Prop :=
| reach_new capacity strict ratio : 0 <= capacity < 2 ^ 64 -> double_nonneg ratio ->
    reachable (new_shard capacity strict ratio) (fun _ => 0)
| reach_call s ext c r s' : reachable s ext -> legal s ext c -> run c s = Ret (r, s') ->
    reachable s' (held ext c r).

(** ** Every legal call returns *)

(** The calls of deleters for the handles [l] of the heap [m], in order. *)
Definition deletions_in (m : gmap loc HandleData) (l : list loc) : list Deletion :=
  concat (map (fun x => match m !! x with Some d => deletion_of d | None => [] end) l).

(** The heap with the handle that a call adds. A refused [Insert] takes its handle back. *)
Definition heap_with (m : gmap loc HandleData) (c : call) (r : result) : gmap loc HandleData :=
  match c, r with
  | CInsert _ _ _ _ _ _ _ _ _, RInsert _ (Some None) => m
  | CInsert e _ k h v ch del _ _, _ => <[e := mkHandle v del ch k h]> m
  | _, _ => m
  end.

(** The handles [l] leave the heap, and for each of them, once, its deleter is called. *)
Record disposed (m : gmap loc HandleData) (l : list loc) (s s' : Shard) : Prop := {
  dp_nodup : NoDup l;
  dp_in : forall x, x ∈ l -> is_Some (m !! x);
  dp_heap : forall x, hdata s' !! x = if decide (x ∈ l) then None else m !! x;
  dp_del : deletions s' = deletions s ++ deletions_in m l;
}.

Lemma disposed_none s s' : hdata s' = hdata s -> deletions s' = deletions s -> disposed (hdata s) [] s s'.
Proof.
  intros Hd Hdel. constructor; [constructor| |by rewrite Hd|by rewrite Hdel, app_nil_r].
  intros x Hx. by apply not_elem_of_nil in Hx.
Qed.

Section calls.
Context `{Host} {s : Shard} {live low high T : list loc} {ext : loc -> Z} (HQ : Quiet s live low high T ext).
#[local] Set Default Proof Using "All".
Let HI : Inv s live low high T ext := q_inv _ _ _ _ _ _ HQ.

(** A call that returns [r]: the shard is at rest again. *)
Definition returns (c : call) (r : result) (s' : Shard) : Prop :=
  run c s = Ret (r, s') /\ (exists live' low' high' T', Quiet s' live' low' high' T' (held ext c r)) /\
  exists l, disposed (heap_with (hdata s) c r) l s s'.

Lemma evicted_disposed P s0 live0 low0 high0 T0 ev s' live' low' high' T' :
  Inv s0 live0 low0 high0 T0 ext -> hdata s0 = hdata s -> deletions s0 = deletions s ->
  reclaimed P [] s0 live0 low0 high0 T0 ext ev s' live' low' high' T' -> disposed (hdata s) ev s s'.
Proof.
  intros HI0 Hd Hdel HR.
  pose proof (i_nodup _ _ _ _ _ _ HI0) as Hnd. pose proof (rc_live _ _ _ _ _ _ _ _ _ _ _ _ _ _ HR) as Hl.
  constructor.
  - rewrite Hl in Hnd. by apply list.NoDup_app in Hnd as (? & _).
  - intros x Hx. rewrite <- Hd. apply (i_alloc _ _ _ _ _ _ HI0). rewrite Hl. inlist.
  - intros x. rewrite <- Hd. apply (rc_gone _ _ _ _ _ _ _ _ _ _ _ _ _ _ HR).
  - rewrite (rc_del _ _ _ _ _ _ _ _ _ _ _ _ _ _ HR), app_nil_r, Hdel. unfold deletions_of, deletions_in. by rewrite Hd.
Qed.

Lemma dropped_disposed e s' live' low' high' T' :
  dropped (s := s) (live := live) (low := low) (high := high) (T := T) (ext := ext) e s' live' low' high' T' ->
  disposed (hdata s) [e] s s'.
Proof.
  intros HD. constructor; [apply NoDup_singleton| | |apply HD].
  - intros x Hx. apply list_elem_of_singleton in Hx as ->. apply (i_alloc _ _ _ _ _ _ HI).
    rewrite (dr_live _ _ _ _ _ _ HD). inlist.
  - intros x. rewrite (dr_gone _ _ _ _ _ _ HD). destruct (decide (x = e)) as [->|Hne].
    + by rewrite decide_True by inlist.
    + rewrite decide_False; [done|]. intros Hi. by apply list_elem_of_singleton in Hi.
Qed.

Lemma Lookup_returns k h : legal s ext (CLookup k h) -> exists r s', returns (CLookup k h) r s'.
Proof.
  intros [Hh Hx]. destruct (Lookup_spec HQ k h Hh Hx) as (p & s' & E & Hp). exists (RHandle p), s'.
  split; [cbn [run]; by mstep E|]. destruct p as [e|]; simpl.
  - destruct Hp as (_ & _ & Hk & _ & low' & high' & HQ' & _). split; [by exists live, low', high', T|].
    exists []. apply disposed_none; apply Hk.
  - destruct Hp as [-> _]. split; [by exists live, low, high, T|]. exists []. by apply disposed_none.
Qed.

Lemma Release_returns p : legal s ext (CRelease p) -> exists s', returns (CRelease p) RVoid s'.
Proof.
  destruct p as [e|]; simpl; intros He.
  2: { exists s. split; [done|]. split; [by exists live, low, high, T|]. exists []. by apply disposed_none. }
  destruct (decide (1 < ext e)) as [H1|H1].
  { destruct (Release_shared HQ e H1) as (s' & E & HQ' & Hd & Hdel & _). exists s'. split; [cbn [run]; by mstep E|].
    split; [by exists live, low, high, T|]. exists []. by apply disposed_none. }
  assert (ext e = 1) as He1 by lia. unfold returns, held. rewrite He1. change (1 - 1) with 0.
  destruct (decide (e ∈ T)) as [HeT|HeT].
  2: { destruct (Release_last HQ e He1 HeT) as (s' & live' & low' & high' & T' & E & HD). exists s'.
       split; [cbn [run]; by mstep E|]. split; [exists live', low', high', T'; apply HD|]. exists [e]. by eapply dropped_disposed. }
  destruct (decide (capacity_ s < usage_ s)) as [Hc|Hc].
  { destruct (Release_over HQ e He1 HeT Hc) as (s' & live' & low' & high' & T' & E & HD). exists s'.
    split; [cbn [run]; by mstep E|]. split; [exists live', low', high', T'; apply HD|]. exists [e]. by eapply dropped_disposed. }
  pose proof (i_table _ _ _ _ _ _ HI e HeT) as Hel. destruct (inv_handle HI e Hel) as (d & f & _ & Hf & _).
  destruct (Release_unused HQ e f He1 HeT ltac:(lia) Hf) as (s' & low' & high' & E & HQ' & _ & Hd & Hdel & _).
  exists s'. split; [cbn [run]; by mstep E|]. split; [by exists live, low', high', T|]. exists []. by apply disposed_none.
Qed.

Lemma Erase_returns k h : legal s ext (CErase k h) -> exists s', returns (CErase k h) RVoid s'.
Proof.
  simpl. intros Hh. destruct (TabOf_Lookup s T k h (i_tab _ _ _ _ _ _ HI) Hh) as ([e|] & _ & Hm).
  2: { exists s. split; [cbn [run]; by mstep (Erase_absent HQ k h Hh Hm)|]. split; [by exists live, low, high, T|].
       exists []. by apply disposed_none. }
  destruct Hm as [HeT Hm]. pose proof (i_ext _ _ _ _ _ _ HI e) as Hx. destruct (decide (0 < ext e)) as [He|He].
  - destruct (Erase_held HQ k h e Hh HeT Hm He) as (s' & T' & E & HQ' & _ & Hd & Hdel). exists s'.
    split; [cbn [run]; by mstep E|]. split; [by exists live, low, high, T'|]. exists []. by apply disposed_none.
  - assert (ext e = 0) as He0 by lia.
    destruct (Erase_unheld HQ k h e Hh HeT Hm He0) as (s' & live' & low' & high' & T' & E & HD).
    exists s'. split; [cbn [run]; by mstep E|]. split; [|exists [e]; by eapply dropped_disposed].
    exists live', low', high', T'. pose proof (dr_quiet _ _ _ _ _ _ HD) as [HI' Ha Hc]. constructor; [|done|done].
    eapply Inv_ext_eq; [|exact HI']. intros x. unfold upd. simpl. by destruct (decide (x = e)) as [->|].
Qed.

Lemma SetCapacity_returns c : legal s ext (CSetCapacity c) -> exists s', returns (CSetCapacity c) RVoid s'.
Proof.
  simpl. intros Hc. destruct (SetCapacity_spec HQ c Hc) as (ev & s' & live' & low' & high' & T' & E & HR).
  exists s'. split; [cbn [run]; by mstep E|]. split; [exists live', low', high', T'; apply HR|]. exists ev.
  eapply evicted_disposed; [| | |exact HR]; [|done|done]. apply Inv_ctl; [done|lia|apply HI|].
  apply double_mul_nonneg; [apply double_of_size_t_nonneg; lia|apply (i_ratio _ _ _ _ _ _ HI)].
Qed.

Lemma settings_return c :
  match c with CSetStrictCapacityLimit _ | CSetHighPriorityPoolRatio _ | CEraseUnRefEntries => True | _ => False end ->
  legal s ext c -> exists s', returns c RVoid s'.
Proof.
  destruct c as [| | | | |b|ra| | | |]; try done; intros _ Hl.
  - destruct (SetStrictCapacityLimit_spec HQ b) as (s' & E & HQ' & _ & Hd & Hdel). exists s'.
    split; [cbn [run]; by mstep E|]. split; [by exists live, low, high, T|]. exists []. by apply disposed_none.
  - destruct (SetHighPriorityPoolRatio_spec HQ ra Hl) as (s' & h1 & h2 & E & _ & HQ' & _ & _ & Hd & Hdel). exists s'.
    split; [cbn [run]; by mstep E|]. split; [by exists live, (low ++ h1), h2, T|]. exists []. by apply disposed_none.
  - destruct (EraseUnRefEntries_spec HQ) as (s' & live' & low' & high' & T' & E & HR). exists s'.
    split; [cbn [run]; by mstep E|]. split; [exists live', low', high', T'; apply HR|]. exists (low ++ high).
    by eapply evicted_disposed.
Qed.

Lemma pinned_bounds : 0 <= lru_usage_ s <= usage_ s.
Proof.
  pose proof (i_list _ _ _ _ _ _ HI) as HL. pose proof (l_nodup _ _ _ _ HL) as Hnd. apply list.NoDup_cons in Hnd as [_ Hnd].
  rewrite (l_usage _ _ _ _ HL), (i_usage _ _ _ _ _ _ HI), Z.sub_0_r. split; [apply csum_nonneg, (l_charge _ _ _ _ HL)|].
  apply csum_sub; [apply (l_charge _ _ _ _ HL)|done|]. intros x Hx. apply (i_table _ _ _ _ _ _ HI).
  by apply (i_lru _ _ _ _ _ _ HI) in Hx as [? _].
Qed.

Lemma sizes_return c :
  match c with CGetUsage | CGetPinnedUsage => True | _ => False end -> exists r s', returns c r s'.
Proof.
  pose proof pinned_bounds as Hb. destruct c; try done; intros _.
  - exists (RSize (usage_ s)), s. split; [done|]. split; [by exists live, low, high, T|]. exists []. by apply disposed_none.
  - exists (RSize (u64 (usage_ s - lru_usage_ s))), s. split; [|split; [by exists live, low, high, T|exists []; by apply disposed_none]].
    cbn [run]. unfold GetPinnedUsage, mbind, M_bind, get, massert. rewrite (proj2 (Z.leb_le _ _)) by lia. done.
Qed.

Lemma ApplyToAll_returns : exists r, returns CApplyToAllCacheEntries r s.
Proof.
  destruct (ApplyToAll_spec HI) as (l & _ & E). eexists. split; [cbn [run]; by mstep E|].
  split; [by exists live, low, high, T|]. exists []. by apply disposed_none.
Qed.

Lemma elems_bound : elems_ s = zlen T.
Proof.
  destruct (i_tab _ _ _ _ _ _ HI) as (bs & HT & Hp). by rewrite (tab_elems _ _ HT), (zlen_Permutation _ _ Hp).
Qed.

Lemma inserted_disposed e k h v ch del p want ev old s' live' low' high' T' :
  fresh_handle s e (mkHandle v del ch k h) ->
  inserted (s := s) (low := low) (high := high) (T := T) (ext := ext) e k h v ch del p want ev old s' live' low' high' T' ->
  disposed (<[e := mkHandle v del ch k h]> (hdata s)) (ev ++ dead_of (ext := ext) old) s s'.
Proof.
  intros Hfh HR. pose proof (in_old _ _ _ _ _ _ _ _ _ _ _ _ _ _ _ HR) as Hold.
  destruct (in_evicts _ _ _ _ _ _ _ _ _ _ _ _ _ _ _ HR) as [(rest & Hr & _) _].
  pose proof (l_nodup _ _ _ _ (i_list _ _ _ _ _ _ HI)) as Hnd. apply list.NoDup_cons in Hnd as [_ Hnd]. rewrite Hr in Hnd.
  apply list.NoDup_app in Hnd as (Hnd & _).
  assert (forall x, x ∈ ev ++ dead_of (ext := ext) old -> x ∈ live) as Hin.
  { intros x Hx. apply (i_table _ _ _ _ _ _ HI). apply elem_of_app in Hx as [Hx|Hx].
    - assert (x ∈ low ++ high) as Hxl by (rewrite Hr; inlist). by apply (i_lru _ _ _ _ _ _ HI) in Hxl as [? _].
    - unfold dead_of in Hx. destruct old as [o|]; [|by apply not_elem_of_nil in Hx].
      destruct (decide _); [|by apply not_elem_of_nil in Hx]. apply list_elem_of_singleton in Hx as ->. apply Hold. }
  assert (forall x, x ∈ live -> <[e := mkHandle v del ch k h]> (hdata s) !! x = hdata s !! x) as Hag.
  { intros x Hx. apply lookup_insert_ne. intros <-. destruct (i_alloc _ _ _ _ _ _ HI e Hx) as [d Hd].
    rewrite (fh_new _ _ _ Hfh) in Hd. done. }
  constructor.
  - apply list.NoDup_app. split; [done|]. unfold dead_of. destruct old as [o|]; [|split; [|constructor]].
    + destruct (decide _); [split; [|apply NoDup_singleton]|split; [|constructor]].
      * intros x Hx Hxo. apply list_elem_of_singleton in Hxo as ->. by destruct Hold as (_ & ? & _).
      * intros x _ Hx. by apply not_elem_of_nil in Hx.
    + intros x _ Hx. by apply not_elem_of_nil in Hx.
  - intros x Hx. rewrite Hag by (by apply Hin). apply (i_alloc _ _ _ _ _ _ HI), Hin, Hx.
  - apply (in_heap _ _ _ _ _ _ _ _ _ _ _ _ _ _ _ HR).
  - rewrite (in_del _ _ _ _ _ _ _ _ _ _ _ _ _ _ _ HR). f_equal. unfold deletions_of, deletions_in. f_equal.
    apply map_ext_in. intros x Hx. apply list_elem_of_In in Hx. by rewrite Hag by (by apply Hin).
Qed.

(** The entry that went at once: evicted entries and the new handle leave the heap. *)
Lemma refused_disposed P e d ev s' live' low' high' T' :
  hdata s !! e = None -> reclaimed P (deletion_of d) s live low high T ext ev s' live' low' high' T' ->
  disposed (<[e := d]> (hdata s)) (ev ++ [e]) s s'.
Proof.
  intros He HR. pose proof (i_nodup _ _ _ _ _ _ HI) as Hnd. pose proof (rc_live _ _ _ _ _ _ _ _ _ _ _ _ _ _ HR) as Hl.
  rewrite Hl in Hnd. apply list.NoDup_app in Hnd as (Hnd & _).
  assert (forall x, x ∈ ev -> is_Some (hdata s !! x)) as Hal.
  { intros x Hx. apply (i_alloc _ _ _ _ _ _ HI). rewrite Hl. inlist. }
  assert (e ∉ ev) as Hee by (intros Hi; destruct (Hal e Hi) as [? ?]; congruence).
  assert (forall x, x ∈ ev -> <[e := d]> (hdata s) !! x = hdata s !! x) as Hag.
  { intros x Hx. apply lookup_insert_ne. by intros <-. }
  constructor.
  - apply list.NoDup_app. split; [done|]. split; [|apply NoDup_singleton].
    intros x Hx Hxe. apply list_elem_of_singleton in Hxe as ->. done.
  - intros x Hx. apply elem_of_app in Hx as [Hx|Hx]; [rewrite Hag by done; by apply Hal|].
    apply list_elem_of_singleton in Hx as ->. rewrite lookup_insert_eq. by eexists.
  - intros x. rewrite (rc_gone _ _ _ _ _ _ _ _ _ _ _ _ _ _ HR). destruct (decide (x ∈ ev)) as [Hx|Hx].
    + by rewrite decide_True by inlist.
    + destruct (decide (x = e)) as [->|Hne]; [by rewrite decide_True by inlist|].
      rewrite decide_False by (intros Hi; inlist). by rewrite lookup_insert_ne.
  - rewrite (rc_del _ _ _ _ _ _ _ _ _ _ _ _ _ _ HR). f_equal. unfold deletions_in. rewrite map_app, concat_app. simpl.
    rewrite lookup_insert_eq, app_nil_r. f_equal. unfold deletions_of. f_equal. apply map_ext_in. intros x Hx.
    apply list_elem_of_In in Hx. by rewrite Hag.
Qed.

Lemma Insert_returns e fl k h v ch del want p :
  legal s ext (CInsert e fl k h v ch del want p) -> exists r s', returns (CInsert e fl k h v ch del want p) r s'.
Proof.
  intros [Hfh Hel]. rewrite elems_bound in Hel.
  assert (forall s' live' low' high' T', Quiet s' live' low' high' T' (upd ext e 0) -> Quiet s' live' low' high' T' ext) as H0.
  { intros s' live' low' high' T' [HI' Ha Hc]. constructor; [|done|done]. eapply Inv_ext_eq; [|exact HI'].
    intros x. unfold upd. destruct (decide (x = e)) as [->|]; [|done]. pose proof (i_ext _ _ _ _ _ _ HI e).
    destruct (decide (0 < ext e)) as [Hp|]; [|lia]. apply (i_ext_live _ _ _ _ _ _ HI) in Hp.
    by destruct (fresh_not_live e _ HQ Hfh). }
  destruct want.
  - destruct (full s ch && strict_capacity_limit_ s) eqn:Hf.
    + apply andb_true_iff in Hf as [Hf Hs].
      destruct (Insert_refused HQ e k h v ch del fl p Hfh Hf Hs) as (ev & s' & live' & low' & high' & T' & E & HR).
      exists (RInsert full_status (Some None)), s'. split; [cbn [run]; by mstep E|].
      split; [exists live', low', high', T'; apply HR|]. exists ev. by eapply evicted_disposed.
    + destruct (Insert_held HQ e k h v ch del fl p Hfh Hf Hel) as (ev & old & s' & live' & low' & high' & T' & E & HR).
      exists (RInsert OK (Some (Some e))), s'. split; [cbn [run]; by mstep E|].
      split; [exists live', low', high', T'; apply HR|]. eexists. by eapply inserted_disposed.
  - destruct (full s ch) eqn:Hf.
    + destruct (Insert_dropped HQ e k h v ch del fl p Hfh Hf) as (ev & s' & live' & low' & high' & T' & E & HR).
      exists (RInsert OK None), s'. split; [cbn [run]; by mstep E|].
      split; [exists live', low', high', T'; apply HR|]. exists (ev ++ [e]). eapply refused_disposed; [apply Hfh|exact HR].
    + destruct (Insert_unheld HQ e k h v ch del fl p Hfh Hf Hel) as (ev & old & s' & live' & low' & high' & T' & E & HR).
      exists (RInsert OK None), s'. split; [cbn [run]; by mstep E|].
      split; [exists live', low', high', T'; apply H0, HR|]. eexists. by eapply inserted_disposed.
Qed.

Lemma call_returns c : legal s ext c -> exists r s', returns c r s'.
Proof.
  destruct c; intros Hl; eauto using Insert_returns, Lookup_returns, sizes_return.
  - destruct (Release_returns handle Hl); eauto.
  - destruct (Erase_returns _ _ Hl); eauto.
  - destruct (SetCapacity_returns _ Hl); eauto.
  - destruct (settings_return (CSetStrictCapacityLimit strict) I Hl); eauto.
  - destruct (settings_return (CSetHighPriorityPoolRatio ratio) I Hl); eauto.
  - destruct (settings_return CEraseUnRefEntries I Hl); eauto.
  - destruct ApplyToAll_returns; eauto.
Qed.
End calls.

Lemma reachable_quiet `{Host} s ext : reachable s ext -> exists live low high T, Quiet s live low high T ext.
Proof.
  induction 1 as [|s ext c r s' _ (live & low & high & T & HQ) Hl E].
  - exists [], [], [], []. by apply new_shard_quiet.
  - destruct (call_returns HQ c Hl) as (r0 & s0 & E0 & Hq & _). rewrite E in E0. by simplify_eq.
Qed.

(** A shard exceeds its capacity only while clients hold all its handles. *)
Lemma reachable_over `{Host} s ext : reachable s ext ->
  0 <= usage_ s /\ (usage_ s <= capacity_ s \/ forall x, is_Some (hdata s !! x) -> 0 < ext x).
Proof.
  intros Hr. destruct (reachable_quiet s ext Hr) as (live & low & high & T & HQ). pose proof (q_inv _ _ _ _ _ _ HQ) as HI. split.
  - rewrite (i_usage _ _ _ _ _ _ HI). apply csum_nonneg, (l_charge _ _ _ _ (i_list _ _ _ _ _ _ HI)).
  - destruct (q_cap _ _ _ _ _ _ HQ) as [|Hnil]; [by left|right]. intros x Hx. apply (q_live _ _ _ _ _ _ HQ) in Hx.
    destruct (i_held _ _ _ _ _ _ HI x Hx) as [HxT|]; [|done].
    pose proof (i_ext _ _ _ _ _ _ HI x). destruct (decide (ext x = 0)) as [He|]; [|lia].
    assert (x ∈ low ++ high) as Hi by (by apply (i_lru _ _ _ _ _ _ HI)). rewrite Hnil in Hi. by apply not_elem_of_nil in Hi.
Qed.

Lemma reachable_empty `{Host} s ext : reachable s ext -> (forall x, hdata s !! x = None) -> usage_ s = 0.
Proof.
  intros Hr He. destruct (reachable_quiet s ext Hr) as (live & low & high & T & HQ). pose proof (q_inv _ _ _ _ _ _ HQ) as HI.
  rewrite (i_usage _ _ _ _ _ _ HI). destruct live as [|x live]; [done|].
  destruct (i_alloc _ _ _ _ _ _ HI x) as [d Hd]; [by left|]. by rewrite He in Hd.
Qed.
