(* ===== verification/LruFrame.v ===== *)
(** * LruFrame: the capacity of a shard changes with [SetCapacity] only

    The computations of the monad that leave [capacity_] alone are closed under sequencing
    and case distinction, which the tactic [keeps] uses. *)

From Stdlib Require Import Strings.Byte.
From stdpp Require Import gmap.
From S2P Require Import Prelude.
From S2P Require Import Slice.
From S2P Require Import Coding.
From S2P Require Import Status.
From S2P Require Import LruCache.
From S2P Require Import LruSafety.

Definition keeps_capacity {A} (m : M A) : Prop := forall s a s', m s = Ret (a, s') -> capacity_ s' = capacity_ s.

Lemma keeps_ret {A} (a : A) : keeps_capacity (mret a).
Proof. by intros s b s' [= _ <-]. Qed.
Lemma keeps_bind {A B} (m : M A) (k : A -> M B) :
  keeps_capacity m -> (forall a, keeps_capacity (k a)) -> keeps_capacity (m ≫= k).
Proof.
  intros Hm Hk s b s' E. change ((m ≫= k) s) with (M_bind A B k m s) in E. unfold M_bind in E.
  destruct (m s) as [[a s1]| | |] eqn:Em; try done. rewrite (Hk _ _ _ _ E). by eapply Hm.
Qed.
Lemma keeps_get : keeps_capacity get.
Proof. by intros s b s' [= _ <-]. Qed.
Lemma keeps_modify f : (forall s, capacity_ (f s) = capacity_ s) -> keeps_capacity (modify f).
Proof. intros Hf s b s' [= _ <-]. apply Hf. Qed.
Lemma keeps_modify_get (f : Shard -> M unit) : (forall s, keeps_capacity (f s)) -> keeps_capacity (fun s => f s s).
Proof. intros Hf s b s' E. by eapply Hf. Qed.
Lemma keeps_massert b : keeps_capacity (massert b).
Proof. intros s a s'. unfold massert. destruct b; [by intros [= _ <-]|done]. Qed.
Lemma keeps_undefined {A} : keeps_capacity (@undefined A).
Proof. by intros s a s'. Qed.
Lemma keeps_nofuel {A} : keeps_capacity (@nofuel A).
Proof. by intros s a s'. Qed.
Lemma keeps_load {A} (f : Shard -> gmap loc A) p : keeps_capacity (load f p).
Proof. intros s a s'. unfold load. destruct (f s !! p); [by intros [= _ <-]|done]. Qed.
Lemma keeps_store {A} (f : Shard -> gmap loc A) set p v :
  (forall s x, capacity_ (set s x) = capacity_ s) -> keeps_capacity (store f set p v).
Proof. intros Hs s a s'. unfold store. destruct (f s !! p); [intros [= _ <-]; apply Hs|done]. Qed.
Lemma keeps_store_slot sl v : keeps_capacity (store_slot sl v).
Proof.
  destruct sl as [i|p]; [|by intros s a s' [= _ <-]]. apply keeps_bind; [apply keeps_get|intros s].
  destruct (i <? _); [by apply keeps_modify|apply keeps_undefined].
Qed.

Create HintDb keeps.
#[export] Hint Resolve keeps_ret keeps_get keeps_massert keeps_undefined keeps_nofuel keeps_load keeps_store_slot : keeps.
#[export] Hint Extern 1 (keeps_capacity (modify _)) => apply keeps_modify; done : keeps.
#[export] Hint Extern 1 (keeps_capacity (store _ _ _ _)) => apply keeps_store; done : keeps.

(** Follow the structure of a computation, using [keeps] for the calls. *)
Ltac keeps :=
  repeat first
    [ solve [eauto with keeps nocore]
    | apply keeps_bind; [|intros ?]
    | match goal with |- keeps_capacity (match ?x with _ => _ end) => destruct x end ].

Lemma keeps_InCache e : keeps_capacity (InCache e).
Proof. unfold InCache. keeps. Qed.
Lemma keeps_IsHighPri e : keeps_capacity (IsHighPri e).
Proof. unfold IsHighPri. keeps. Qed.
Lemma keeps_InHighPriPool e : keeps_capacity (InHighPriPool e).
Proof. unfold InHighPriPool. keeps. Qed.
Lemma keeps_SetInCache e b : keeps_capacity (SetInCache e b).
Proof. unfold SetInCache. keeps. Qed.
Lemma keeps_SetPriority e p : keeps_capacity (SetPriority e p).
Proof. unfold SetPriority. keeps. Qed.
Lemma keeps_SetInHighPriPool e b : keeps_capacity (SetInHighPriPool e b).
Proof. unfold SetInHighPriPool. keeps. Qed.
Lemma keeps_key e : keeps_capacity (key e).
Proof. unfold key. keeps. Qed.
Lemma keeps_deref p : keeps_capacity (deref p).
Proof. unfold deref. keeps. Qed.
Lemma keeps_Unref e : keeps_capacity (Unref e).
Proof. unfold Unref. keeps. Qed.
Lemma keeps_load_slot sl : keeps_capacity (load_slot sl).
Proof. unfold load_slot. keeps. Qed.
#[export] Hint Resolve keeps_InCache keeps_IsHighPri keeps_InHighPriPool keeps_SetInCache keeps_SetPriority
  keeps_SetInHighPriPool keeps_key keeps_deref keeps_Unref keeps_load_slot : keeps.

Lemma keeps_Free e : keeps_capacity (Free e).
Proof. unfold Free. keeps. Qed.
#[export] Hint Resolve keeps_Free : keeps.
Lemma keeps_FreeAll l : keeps_capacity (FreeAll l).
Proof. induction l; simpl; keeps. Qed.
Lemma keeps_FindPointer_loop fuel sl k h : keeps_capacity (FindPointer_loop fuel sl k h).
Proof. revert sl. induction fuel as [|fuel IH]; intros sl; cbn [FindPointer_loop]; keeps. Qed.
#[export] Hint Resolve keeps_FreeAll keeps_FindPointer_loop : keeps.
Lemma keeps_FindPointer k h : keeps_capacity (FindPointer k h).
Proof. unfold FindPointer. keeps. Qed.
Lemma keeps_new_length_loop fuel n el : keeps_capacity (new_length_loop fuel n el).
Proof. revert n. induction fuel as [|fuel IH]; intros n; cbn [new_length_loop]; keeps. Qed.
Lemma keeps_rehash_chain fuel h n l c : keeps_capacity (rehash_chain fuel h n l c).
Proof. revert h l c. induction fuel as [|fuel IH]; intros [h|] l c; cbn [rehash_chain]; keeps. Qed.
#[export] Hint Resolve keeps_FindPointer keeps_new_length_loop keeps_rehash_chain : keeps.
Lemma keeps_rehash fuel bs n l c : keeps_capacity (rehash fuel bs n l c).
Proof. revert l c. induction bs as [|b bs IH]; intros l c; cbn [rehash]; keeps. Qed.
#[export] Hint Resolve keeps_rehash : keeps.
Lemma keeps_Resize : keeps_capacity Resize.
Proof. unfold Resize. keeps. Qed.
Lemma keeps_table_Lookup k h : keeps_capacity (table_Lookup k h).
Proof. unfold table_Lookup. keeps. Qed.
#[export] Hint Resolve keeps_Resize keeps_table_Lookup : keeps.
Lemma keeps_table_Insert e : keeps_capacity (table_Insert e).
Proof. unfold table_Insert. keeps. Qed.
Lemma keeps_table_Remove k h : keeps_capacity (table_Remove k h).
Proof. unfold table_Remove. keeps. Qed.
Lemma keeps_LRU_Remove e : keeps_capacity (LRU_Remove e).
Proof. unfold LRU_Remove. keeps. Qed.
Lemma keeps_MaintainPoolSize_loop fuel : keeps_capacity (MaintainPoolSize_loop fuel).
Proof. induction fuel as [|fuel IH]; cbn [MaintainPoolSize_loop]; keeps. Qed.
#[export] Hint Resolve keeps_table_Insert keeps_table_Remove keeps_LRU_Remove keeps_MaintainPoolSize_loop : keeps.
Lemma keeps_MaintainPoolSize : keeps_capacity MaintainPoolSize.
Proof. unfold MaintainPoolSize. keeps. Qed.
#[export] Hint Resolve keeps_MaintainPoolSize : keeps.
Lemma keeps_LRU_Insert e : keeps_capacity (LRU_Insert e).
Proof. unfold LRU_Insert. keeps. Qed.
Lemma keeps_evict_one e : keeps_capacity (evict_one e).
Proof. unfold evict_one. keeps. Qed.
#[export] Hint Resolve keeps_LRU_Insert keeps_evict_one : keeps.
Lemma keeps_evict_loop fuel c : keeps_capacity (evict_loop fuel c).
Proof. induction fuel as [|fuel IH]; cbn [evict_loop]; keeps. Qed.
#[export] Hint Resolve keeps_evict_loop : keeps.
Lemma keeps_EvictFromLRU c : keeps_capacity (EvictFromLRU c).
Proof. unfold EvictFromLRU. keeps. Qed.
Lemma keeps_new_handle e d r f p : keeps_capacity (new_handle e d r f p).
Proof. unfold new_handle. keeps. Qed.
Lemma keeps_delete_handle e : keeps_capacity (delete_handle e).
Proof. unfold delete_handle. keeps. Qed.
Lemma keeps_Release_locked e : keeps_capacity (Release_locked e).
Proof. unfold Release_locked. keeps. Qed.
#[export] Hint Resolve keeps_EvictFromLRU keeps_new_handle keeps_delete_handle keeps_Release_locked : keeps.

Lemma keeps_apply_chain fuel h : keeps_capacity (apply_chain fuel h).
Proof. revert h. induction fuel as [|fuel IH]; intros [h|]; cbn [apply_chain]; keeps. Qed.
#[export] Hint Resolve keeps_apply_chain : keeps.
Lemma keeps_apply_buckets fuel bs : keeps_capacity (apply_buckets fuel bs).
Proof. induction bs as [|b bs IH]; cbn [apply_buckets]; keeps. Qed.
#[export] Hint Resolve keeps_apply_buckets : keeps.

Lemma SetCapacity_sets c s a s' : SetCapacity c s = Ret (a, s') -> capacity_ s' = c.
Proof.
  unfold SetCapacity. intros E. change (_ s) with (M_bind _ _ (fun _ => l ← EvictFromLRU 0; FreeAll l)
    (modify (fun s => upd_ctl s c (usage_ s) (lru_usage_ s) (high_pri_pool_usage_ s) (strict_capacity_limit_ s)
      (high_pri_pool_ratio_ s) (double_mul (double_of_size_t c) (high_pri_pool_ratio_ s)) (lru_low_pri_ s))) s) in E.
  unfold M_bind, modify in E. enough (keeps_capacity (l ← EvictFromLRU 0; FreeAll l)) as Hk by (by rewrite (Hk _ _ _ E)).
  keeps.
Qed.

(** The calls of a shard. *)
Lemma run_capacity `{Host} c s r s' : run c s = Ret (r, s') ->
  capacity_ s' = match c with CSetCapacity cap => cap | _ => capacity_ s end.
Proof.
  destruct c; cbn [run]; intros E.
  5: { change (_ s) with (M_bind _ _ (fun _ => mret RVoid) (SetCapacity capacity) s) in E. unfold M_bind in E.
       destruct (SetCapacity capacity s) as [[a s1]| | |] eqn:E1; try done. injection E as _ <-. by eapply SetCapacity_sets. }
  all: revert E; match goal with |- ?m _ = _ -> _ => enough (keeps_capacity m) as Hk by apply Hk end.
  all: unfold Insert, Lookup, Release, Erase, SetStrictCapacityLimit, SetHighPriorityPoolRatio, EraseUnRefEntries,
    GetUsage, GetPinnedUsage, ApplyToAllCacheEntries; keeps.
Qed.
