(* ===== verification/LruTheorems.v ===== *)
(** * LruTheorems: what the cache guarantees

    The properties of a shard in terms of what its clients see: safety of every sequence
    of legal calls, the accounts, the map from keys to entries, the order of eviction, and
    the calls of the deleters. *)

From Stdlib Require Import Strings.Byte Strings.String Floats.SpecFloat.
From stdpp Require Import gmap.
From S2P Require Import Prelude.
From S2P Require Import Slice.
From S2P Require Import Coding.
From S2P Require Import Status.
From S2P Require Import LruCache.
From S2P Require Import LruTable.
From S2P Require Import LruList.
From S2P Require Import LruInv.
From S2P Require Import LruTraverse.
From S2P Require Import LruOps.
From S2P Require Import LruInsert.
From S2P Require Import LruSafety.

(** ** Views of a shard *)

(** The list from the oldest entry to the newest one. *)
Definition pointee (m : gmap loc ptr) (a : loc) : ptr := from_option (fun p : ptr => p) (None : ptr) (m !! a).
Fixpoint walk (fuel : nat) (m : gmap loc ptr) (a : loc) : list loc :=
  match fuel, pointee m a with
  | S fuel', Some x => if x =? lru_ then [] else x :: walk fuel' m x
  | _, _ => []
  end.
Definition lru_entries (s : Shard) : list loc := walk (list_fuel s) (hnext s) lru_.

Lemma pointee_eq (m : gmap loc ptr) a (p : ptr) : m !! a = Some p -> pointee m a = p.
Proof. unfold pointee. by intros ->. Qed.

Lemma walk_seg fuel m a l : lru_ ∉ l -> seg m a l lru_ -> (length l < fuel)%nat -> walk fuel m a = l.
Proof.
  revert a l; induction fuel as [|fuel IH]; intros a l Hl Hs Hf; [lia|].
  pose proof (pointee_eq _ _ _ (seg_head _ _ _ _ Hs)) as Hp. cbn [walk]. rewrite Hp.
  destruct l as [|x l]; [done|]. destruct Hs as [_ Hs]. change (hdd lru_ (x :: l)) with x.
  destruct (Z.eqb_spec x lru_) as [->|_]; [destruct Hl; inlist|].
  f_equal. apply IH; [|done|simpl in Hf; lia]. intros Hi. apply Hl. inlist.
Qed.

Lemma lru_entries_eq p s low high : LstP p s low high -> lru_entries s = low ++ high.
Proof.
  intros HL. pose proof (l_nodup _ _ _ _ HL) as Hnd. apply list.NoDup_cons in Hnd as [Hl _].
  apply walk_seg; [done|apply (l_next _ _ _ _ HL)|by eapply list_fuel_enough].
Qed.

(** The sum of the charges of all handles on the heap. *)
Definition total (m : gmap loc HandleData) : Z := foldr (fun '(_, d) t => charge d + t) 0 (map_to_list m).

Lemma total_live s live :
  NoDup live -> (forall x, x ∈ live <-> is_Some (hdata s !! x)) -> total (hdata s) = csum s live.
Proof.
  intros Hnd Hl. assert (live ≡ₚ (map_to_list (hdata s)).*1) as Hperm.
  { apply NoDup_Permutation; [done|apply NoDup_fst_map_to_list|]. intros x. rewrite Hl, list_elem_of_fmap. split.
    - intros [d Hd]. exists (x, d). split; [done|]. by apply elem_of_map_to_list.
    - intros [[y d] [-> Hd]]. apply elem_of_map_to_list in Hd. by exists d. }
  rewrite (csum_perm _ _ _ Hperm). unfold total. assert (forall l, (forall x d, (x, d) ∈ l -> hdata s !! x = Some d) ->
    foldr (fun '(_, d) t => charge d + t) 0 l = csum s l.*1) as Hg.
  { induction l as [|[x d] l IH]; intros Hm; [done|]. simpl. rewrite IH by (intros; apply Hm; inlist).
    by rewrite (charge_at_eq s x d) by (apply Hm; inlist). }
  apply Hg. intros x d. apply elem_of_map_to_list.
Qed.

(** The key maps to [p]. *)
Definition maps (s : Shard) (k : Slice) (h : Z) (p : ptr) : Prop := table_Lookup k h s = Ret (p, s).

Lemma maps_spec s live low high T ext k h p :
  Inv s live low high T ext -> 0 <= h ->
  maps s k h p <-> match p with Some x => x ∈ T /\ matches s k h x | None => forall x, x ∈ T -> ~ matches s k h x end.
Proof.
  intros HI Hh. destruct (TabOf_Lookup s T k h (i_tab _ _ _ _ _ _ HI) Hh) as (q & E & Hq). unfold maps. rewrite E.
  split; [intros [= <-]; done|]. intros Hp. do 2 f_equal. destruct p as [x|], q as [y|]; try done.
  - destruct Hp, Hq. f_equal. by eapply TabOf_unique; [apply (i_tab _ _ _ _ _ _ HI)| | | |].
  - destruct Hp as [Hx Hm]. by destruct (Hq x Hx).
  - destruct Hq as [Hx Hm]. by destruct (Hp y Hx).
Qed.

(** ** Safety *)

Lemma table_deleted s ext live low high T :
  Quiet s live low high T ext ->
  exists l s', LRUHandleTable_delete s = Ret (tt, s') /\ disposed (hdata s) l s s' /\
    forall x, x ∈ l <-> x ∈ lru_entries s.
Proof.
  intros HQ. pose proof (q_inv _ _ _ _ _ _ HQ) as HI. pose proof (i_list _ _ _ _ _ _ HI) as HL.
  destruct (table_delete_spec HI) as (l & s' & Hl & E & Hg). exists l, s'. split; [done|]. split.
  - pose proof (l_nodup _ _ _ _ HL) as Hnd. apply list.NoDup_cons in Hnd as [_ Hnd].
    constructor; [by rewrite Hl| |apply Hg|apply Hg].
    intros x. rewrite Hl, (i_lru _ _ _ _ _ _ HI). intros [Hx _]. by apply (i_alloc _ _ _ _ _ _ HI), (i_table _ _ _ _ _ _ HI).
  - intros x. by rewrite (lru_entries_eq _ _ _ _ HL), Hl.
Qed.

Lemma entries_traversed s ext live low high T :
  Quiet s live low high T ext ->
  exists l, NoDup l /\ (forall x, x ∈ l <-> cached s x) /\
    ApplyToAllCacheEntries s = Ret (map (entry_args s) l, s).
Proof.
  intros HQ. pose proof (q_inv _ _ _ _ _ _ HQ) as HI. destruct (ApplyToAll_spec HI) as (l & Hl & E).
  exists l. split; [rewrite Hl; apply (TabOf_nodup _ _ (i_tab _ _ _ _ _ _ HI))|]. split; [|done].
  intros x. rewrite Hl. split; [intros Hx; by apply (table_counted HI x)|].
  intros (Hd & f & Hf & Hb). by apply (i_flag _ _ _ _ _ _ HI x f (q_live _ _ _ _ _ _ HQ x Hd)).
Qed.

(** C11: Every legal call on a reachable shard returns: no assertion fails, no memory is used
    that is not allocated, no loop runs on. A traversal leaves the shard as it is and calls the
    callback with the value and the charge of each entry in the table, once. The destructor of the
    table returns as well, and frees exactly the entries that nobody holds, each once with one
    call of its deleter. *)
Theorem cache_never_stuck `{Host} s ext :
  reachable s ext ->
  (forall c, legal s ext c -> exists r s', run c s = Ret (r, s') /\ reachable s' (held ext c r)) /\
  (exists l, NoDup l /\ (forall x, x ∈ l <-> cached s x) /\
    run CApplyToAllCacheEntries s = Ret (RList (map (entry_args s) l), s)) /\
  (exists l s', LRUHandleTable_delete s = Ret (tt, s') /\ disposed (hdata s) l s s' /\
    forall x, x ∈ l <-> x ∈ lru_entries s).
Proof.
  intros Hr. destruct (reachable_quiet s ext Hr) as (live & low & high & T & HQ). split; [|split].
  - intros c Hl. destruct (call_returns HQ c Hl) as (r & s' & E & _). exists r, s'. split; [done|]. by eapply reach_call.
  - destruct (entries_traversed _ _ _ _ _ _ HQ) as (l & Hnd & Hl & E). exists l. do 2 (split; [done|]).
    cbn [run]. by mstep E.
  - by eapply table_deleted.
Qed.

(** C12: The accounts. *)
Theorem cache_accounts `{Host} s ext :
  reachable s ext ->
  usage_ s = total (hdata s) /\ lru_usage_ s = csum s (lru_entries s) /\ 0 <= lru_usage_ s <= usage_ s /\
  (capacity_ s < usage_ s -> forall x, is_Some (hdata s !! x) -> 0 < ext x) /\
  (forall x d, hdata s !! x = Some d -> exists f, hflags s !! x = Some f /\
     hrefs s !! x = Some (ext x + (if has_flag f 1 then 1 else 0)) /\
     (has_flag f 1 = true -> maps s (key_data d) (hash d) (Some x)) /\
     (x ∈ lru_entries s <-> has_flag f 1 = true /\ ext x = 0)).
Proof.
  intros Hr. destruct (reachable_quiet s ext Hr) as (live & low & high & T & HQ).
  pose proof (q_inv _ _ _ _ _ _ HQ) as HI. pose proof (i_list _ _ _ _ _ _ HI) as HL.
  assert (forall x, x ∈ live <-> is_Some (hdata s !! x)) as Hlive.
  { intros x. split; [apply (i_alloc _ _ _ _ _ _ HI)|apply (q_live _ _ _ _ _ _ HQ)]. }
  rewrite (lru_entries_eq _ _ _ _ HL). split; [|split; [|split; [apply (pinned_bounds HQ)|split]]].
  - rewrite (total_live s live (i_nodup _ _ _ _ _ _ HI) Hlive). apply (i_usage _ _ _ _ _ _ HI).
  - rewrite (l_usage _ _ _ _ HL). lia.
  - intros Hc. destruct (reachable_over s ext Hr) as [_ [|Hall]]; [lia|exact Hall].
  - intros x d Hd. assert (x ∈ live) as Hx by (apply Hlive; by eexists).
    destruct (inv_handle HI x Hx) as (d' & f & Hd' & Hf & _ & Hrf & Hb & _). simplify_eq. exists f. split; [done|].
    split; [rewrite Hrf; f_equal; unfold tin; destruct (decide (x ∈ T)) as [Hi|Hi];
      [by rewrite (proj2 Hb Hi)|destruct (has_flag f 1); [by destruct Hi; apply Hb|done]]|].
    split; [|rewrite (i_lru _ _ _ _ _ _ HI); naive_solver].
    intros Hf1. apply Hb in Hf1. destruct (TabOf_entry _ _ _ (i_tab _ _ _ _ _ _ HI) Hf1) as (d0 & Hd0 & Hh & _). simplify_eq.
    apply (maps_spec s live low high T ext _ _ (Some x) HI (proj1 Hh)). split; [done|]. by eexists.
Qed.

(** C13: Handles leave the heap once, when no client holds them, and this is when their deleter
    is called, with their key and value. A refused handle goes without such a call. *)
Theorem deleter_once `{Host} s ext c r s' :
  reachable s ext -> legal s ext c -> run c s = Ret (r, s') ->
  exists l, disposed (heap_with (hdata s) c r) l s s' /\ forall x, x ∈ l -> held ext c r x = 0.
Proof.
  intros Hr Hl E. destruct (reachable_quiet s ext Hr) as (live & low & high & T & HQ).
  destruct (call_returns HQ c Hl) as (r0 & s0 & E0 & (live' & low' & high' & T' & HQ') & l & HD).
  rewrite E in E0. simplify_eq. exists l. split; [done|]. intros x Hx.
  pose proof (q_inv _ _ _ _ _ _ HQ') as HI'. pose proof (i_ext _ _ _ _ _ _ HI' x).
  destruct (decide (0 < held ext c r0 x)) as [Hp|]; [|lia].
  apply (i_ext_live _ _ _ _ _ _ HI'), (i_alloc _ _ _ _ _ _ HI') in Hp.
  rewrite (dp_heap _ _ _ _ HD), decide_True in Hp by done. by destruct Hp.
Qed.

(** ** The map from keys to entries *)

Lemma matches_fun s k h k' h' x : matches s k h x -> matches s k' h' x -> k = k' /\ h = h'.
Proof. intros (d & Hd & <- & <-) (d' & Hd' & <- & <-). by simplify_eq. Qed.

(** When the table of [s'] is that of [s] but for the key [k], and for evicted entries. *)
Lemma maps_other s s' live low high T ext live' low' high' T' ext' k h :
  Inv s live low high T ext -> Inv s' live' low' high' T' ext' ->
  (forall x, x ∈ T -> x ∈ T' -> hdata s' !! x = hdata s !! x) ->
  (forall x, x ∈ T' -> x ∈ T \/ matches s' k h x) ->
  (forall x, x ∈ T -> 0 < ext x -> x ∈ T' \/ matches s k h x) ->
  forall k' h' x, 0 <= h' -> (k', h') <> (k, h) ->
    (maps s' k' h' (Some x) -> maps s k' h' (Some x)) /\
    (maps s k' h' (Some x) -> 0 < ext x -> maps s' k' h' (Some x)).
Proof.
  intros HI HI' Hd Hnew Hkeep k' h' x Hh Hne. rewrite !(maps_spec _ _ _ _ _ _ _ _ (Some x)) by eassumption. split.
  - intros [Hx Hm]. destruct (Hnew x Hx) as [HxT|Hm2].
    + split; [done|]. destruct Hm as (d & Hdx & Hdd). exists d. by rewrite <- Hd.
    + by destruct (matches_fun _ _ _ _ _ _ Hm Hm2) as [-> ->].
  - intros [Hx Hm] Hp. destruct (Hkeep x Hx Hp) as [HxT|Hm2].
    + split; [done|]. destruct Hm as (d & Hdx & Hdd). exists d. by rewrite Hd.
    + by destruct (matches_fun _ _ _ _ _ _ Hm Hm2) as [-> ->].
Qed.

(** C14: After an insertion the key maps to the new entry; other keys map to what they did, or
    to nothing if their entry was unused and has been evicted. *)
Theorem insert_maps `{Host} s ext e fl k h v ch del want p s' :
  reachable s ext -> legal s ext (CInsert e fl k h v ch del want p) ->
  run (CInsert e fl k h v ch del want p) s = Ret (RInsert OK (if want then Some (Some e) else None), s') ->
  (want = true \/ full s ch = false) ->
  maps s' k h (Some e) /\
  forall k' h' x, 0 <= h' -> (k', h') <> (k, h) ->
    (maps s' k' h' (Some x) -> maps s k' h' (Some x)) /\
    (maps s k' h' (Some x) -> 0 < ext x -> maps s' k' h' (Some x)).
Proof.
  intros Hr Hl E Hf. destruct (reachable_quiet s ext Hr) as (live & low & high & T & HQ).
  pose proof (q_inv _ _ _ _ _ _ HQ) as HI. pose proof Hl as [Hfh Hel]. rewrite (elems_bound HQ) in Hel.
  assert (exists ev old live' low' high' T',
    inserted (s := s) (low := low) (high := high) (T := T) (ext := ext) e k h v ch del p want ev old s' live' low' high' T')
    as (ev & old & live' & low' & high' & T' & HR).
  { destruct want.
    - destruct (full s ch && strict_capacity_limit_ s) eqn:Hfs.
      + apply andb_true_iff in Hfs as [H1 H2].
        destruct (Insert_refused HQ e k h v ch del fl p Hfh H1 H2) as (ev & s0 & live' & low' & high' & T' & E0 & _).
        cbn [run] in E. rewrite (M_bind_ret _ _ _ _ _ E0) in E. by simplify_eq.
      + destruct (Insert_held HQ e k h v ch del fl p Hfh Hfs Hel) as (ev & old & s0 & live' & low' & high' & T' & E0 & HR).
        cbn [run] in E. rewrite (M_bind_ret _ _ _ _ _ E0) in E. injection E as <-. by exists ev, old, live', low', high', T'.
    - destruct Hf as [?|Hf]; [done|].
      destruct (Insert_unheld HQ e k h v ch del fl p Hfh Hf Hel) as (ev & old & s0 & live' & low' & high' & T' & E0 & HR).
      cbn [run] in E. rewrite (M_bind_ret _ _ _ _ _ E0) in E. injection E as <-. by exists ev, old, live', low', high', T'. }
  pose proof (q_inv _ _ _ _ _ _ (in_quiet _ _ _ _ _ _ _ _ _ _ _ _ _ _ _ HR)) as HI'.
  pose proof (in_table _ _ _ _ _ _ _ _ _ _ _ _ _ _ _ HR) as HT'. pose proof (fresh_not_live e _ HQ Hfh) as Hne.
  assert (e ∈ T') as HeT by (apply HT'; by left). pose proof (fh_hash _ _ _ Hfh) as Hh. simpl in Hh.
  assert (forall x, x ∈ T' -> hdata s' !! x = <[e := mkHandle v del ch k h]> (hdata s) !! x) as Hd.
  { intros x Hx. pose proof (i_alloc _ _ _ _ _ _ HI' x (i_table _ _ _ _ _ _ HI' x Hx)) as Hal.
    pose proof (in_heap _ _ _ _ _ _ _ _ _ _ _ _ _ _ _ HR x) as Hp. rewrite Hp in Hal |- *.
    destruct (decide _); [by destruct Hal|done]. }
  assert (matches s' k h e) as Hme by (eexists; rewrite Hd by done; rewrite lookup_insert_eq; done).
  split; [apply (maps_spec s' live' low' high' T' _ k h (Some e) HI' ltac:(lia)); done|].
  eapply maps_other; [exact HI|exact HI'| | |].
  - intros x Hx Hx'. rewrite Hd by done. apply lookup_insert_ne. intros Hxe. apply Hne. rewrite Hxe.
    by apply (i_table _ _ _ _ _ _ HI).
  - intros x Hx. apply HT' in Hx as [->|[Hx _]]; [by right|by left].
  - intros x Hx Hp. destruct (decide (Some x = old)) as [<-|Ho].
    + right. apply (in_old _ _ _ _ _ _ _ _ _ _ _ _ _ _ _ HR).
    + left. apply HT'. right. split_and!; [done| |done]. intros Hev.
      destruct (in_evicts _ _ _ _ _ _ _ _ _ _ _ _ _ _ _ HR) as [(rest & Hrest & _) _].
      assert (x ∈ low ++ high) as Hi by (rewrite Hrest; inlist).
      apply (i_lru _ _ _ _ _ _ HI) in Hi as [_ Hi]. lia.
Qed.

(** C15: After [Erase] the key maps to nothing and other keys map to what they did; the handle
    of the entry stays valid for the clients that hold it. *)
Theorem erase_maps `{Host} s ext k h s' :
  reachable s ext -> 0 <= h -> run (CErase k h) s = Ret (RVoid, s') ->
  maps s' k h None /\
  (forall k' h' p, 0 <= h' -> (k', h') <> (k, h) -> maps s k' h' p -> maps s' k' h' p) /\
  (forall x, 0 < ext x -> hdata s' !! x = hdata s !! x /\ is_Some (hdata s !! x)).
Proof.
  intros Hr Hh E. destruct (reachable_quiet s ext Hr) as (live & low & high & T & HQ).
  pose proof (q_inv _ _ _ _ _ _ HQ) as HI.
  assert (exists live' low' high' T' ext', Inv s' live' low' high' T' ext' /\
    (forall x, x ∈ T' <-> x ∈ T /\ ~ matches s k h x) /\ (forall x, x ∈ T' \/ 0 < ext x -> hdata s' !! x = hdata s !! x))
    as (live' & low' & high' & T' & ext' & HI' & HT' & Hd).
  { cbn [run] in E. destruct (TabOf_Lookup s T k h (i_tab _ _ _ _ _ _ HI) Hh) as ([e|] & _ & Hm).
    2: { rewrite (M_bind_ret _ _ _ _ _ (Erase_absent HQ k h Hh Hm)) in E. injection E as <-.
         exists live, low, high, T, ext. split; [done|]. split; [|done]. intros x. split; [|by intros []]. eauto. }
    destruct Hm as [HeT Hm].
    assert (forall x, x ∈ T -> x <> e <-> ~ matches s k h x) as Hmx.
    { intros x Hx. split; [|by intros Hn ->]. intros Hne Hmx. apply Hne.
      by eapply TabOf_unique; [apply (i_tab _ _ _ _ _ _ HI)| | | |]. }
    pose proof (i_ext _ _ _ _ _ _ HI e). destruct (decide (0 < ext e)) as [He|He].
    - destruct (Erase_held HQ k h e Hh HeT Hm He) as (s0 & T' & E0 & HQ' & Hp & Hd & _).
      rewrite (M_bind_ret _ _ _ _ _ E0) in E. injection E as <-. exists live, low, high, T', ext.
      split; [apply HQ'|]. split; [|by rewrite Hd]. intros x. rewrite (perm_rest HI e T' x Hp). clear - Hmx. naive_solver.
    - destruct (Erase_unheld HQ k h e Hh HeT Hm ltac:(lia)) as (s0 & live' & low' & high' & T' & E0 & HD).
      rewrite (M_bind_ret _ _ _ _ _ E0) in E. injection E as <-. exists live', low', high', T'. eexists.
      split; [apply HD|]. split.
      + intros x. rewrite (dr_table _ _ _ _ _ _ HD). clear - Hmx. naive_solver.
      + intros x Hx. rewrite (dr_gone _ _ _ _ _ _ HD). destruct (decide (x = e)) as [->|]; [|done].
        destruct Hx as [Hx|Hx]; [|lia]. apply (dr_table _ _ _ _ _ _ HD) in Hx as [_ Hx]. done. }
  assert (forall x k' h', x ∈ T' -> matches s' k' h' x <-> matches s k' h' x) as Hms.
  { intros x k' h' Hx. unfold matches. rewrite Hd by (by left). done. }
  split; [|split].
  - apply (maps_spec s' live' low' high' T' ext' k h None HI' Hh). intros x Hx. rewrite Hms by done. by apply HT'.
  - intros k' h' p Hh' Hne. rewrite (maps_spec s live low high T ext), (maps_spec s' live' low' high' T' ext') by done.
    destruct p as [x|].
    + intros [Hx Hm]. assert (x ∈ T') as Hx' by (apply HT'; split; [done|]; intros Hm2; by destruct (matches_fun _ _ _ _ _ _ Hm Hm2) as [-> ->]).
      split; [done|]. by apply Hms.
    + intros Hno x Hx. rewrite Hms by done. apply Hno. by apply HT'.
  - intros x Hx. split; [apply Hd; by right|]. by apply (i_alloc _ _ _ _ _ _ HI), (i_ext_live _ _ _ _ _ _ HI).
Qed.

(** ** Eviction *)

(** C16: [EvictFromLRU] evicts the oldest entries, as few of them as make the new charge fit. *)
Theorem eviction_order `{Host} s ext charge :
  reachable s ext -> 0 <= charge -> usage_ s + charge < 2 ^ 64 ->
  exists ev s', EvictFromLRU charge s = Ret (ev, s') /\ lru_entries s = ev ++ lru_entries s' /\
    usage_ s' = usage_ s - csum s ev /\
    (lru_entries s' = [] \/ usage_ s' + charge <= capacity_ s) /\
    (forall i, (i < length ev)%nat -> capacity_ s < usage_ s - csum s (take i ev) + charge).
Proof.
  intros Hr Hc Hu. destruct (reachable_quiet s ext Hr) as (live & low & high & T & HQ). pose proof (q_inv _ _ _ _ _ _ HQ) as HI.
  pose proof (list_fuel_enough _ _ _ _ (i_list _ _ _ _ _ _ HI)) as Hf.
  destruct (evict_loop_spec (over charge) (fun s => capacity_ s <? u64 (usage_ s + charge)) (list_fuel s) (fun _ => eq_refl) HI ltac:(lia))
    as (ev & s' & live' & low' & high' & T' & E & HI' & Hk & _ & Hl & _ & Hlh & [(rest & Hrest & Hst) Hpre] & Hu').
  exists ev, s'. rewrite (lru_entries_eq _ _ _ _ (i_list _ _ _ _ _ _ HI)), (lru_entries_eq _ _ _ _ (i_list _ _ _ _ _ _ HI')).
  rewrite Hlh in Hrest. apply app_inv_head in Hrest as <-.
  pose proof (l_charge _ _ _ _ (i_list _ _ _ _ _ _ HI)) as Hch.
  assert (forall l, csum s' l = csum s l) as Hcs by (intros; apply csum_data, Hk).
  assert (0 <= usage_ s') as Hu0.
  { rewrite (i_usage _ _ _ _ _ _ HI'). apply csum_nonneg, (l_charge _ _ _ _ (i_list _ _ _ _ _ _ HI')). }
  pose proof (csum_nonneg s ev Hch).
  split; [exact E|]. split; [done|]. split; [done|]. split.
  - destruct Hst as [->|Ho]; [by left|right]. rewrite <- Hu' in Ho. apply over_fits in Ho; lia.
  - intros i Hi. specialize (Hpre i Hi). unfold over in Hpre.
    pose proof (csum_nonneg s (take i ev) Hch). pose proof (csum_nonneg s (drop i ev) Hch) as Hdr.
    assert (csum s ev = csum s (take i ev) + csum s (drop i ev)) by (rewrite <- csum_app; by rewrite take_drop).
    rewrite u64_small in Hpre by lia. lia.
Qed.

Definition in_pool (s : Shard) (x : loc) : bool :=
  match hflags s !! x with Some f => has_flag f 4 | None => false end.

(** The entry whose last reference is released becomes the newest one of the list, or, with
    low priority, the newest one below the high-priority pool. *)
Theorem release_order `{Host} s ext e f :
  reachable s ext -> ext e = 1 -> hflags s !! e = Some f -> has_flag f 1 = true -> usage_ s <= capacity_ s ->
  exists s', run (CRelease (Some e)) s = Ret (RVoid, s') /\ hdata s' = hdata s /\
    if double_gt (high_pri_pool_ratio_ s) (double_of_size_t 0) && has_flag f 2
    then lru_entries s' = lru_entries s ++ [e]
    else exists l1 l2, lru_entries s = l1 ++ l2 /\ lru_entries s' = l1 ++ e :: l2 /\
      (forall x, x ∈ l1 -> in_pool s x = false) /\ (forall x, x ∈ l2 -> in_pool s x = true).
Proof.
  intros Hr He Hf Hb Hc. destruct (reachable_quiet s ext Hr) as (live & low & high & T & HQ). pose proof (q_inv _ _ _ _ _ _ HQ) as HI.
  pose proof (i_ext_live _ _ _ _ _ _ HI e ltac:(lia)) as Hel.
  assert (e ∈ T) as HeT by (by apply (i_flag _ _ _ _ _ _ HI e f)).
  destruct (Release_unused HQ e f He HeT Hc Hf) as (s' & low' & high' & E & HQ' & Hpl & Hd & _).
  exists s'. split; [cbn [run]; by mstep E|]. split; [done|].
  pose proof (i_list _ _ _ _ _ _ HI) as HL.
  rewrite (lru_entries_eq _ _ _ _ HL), (lru_entries_eq _ _ _ _ (i_list _ _ _ _ _ _ (q_inv _ _ _ _ _ _ HQ'))).
  unfold placed in Hpl. destruct (double_gt _ _ && _); [by rewrite Hpl, app_assoc|]. destruct Hpl as [-> ->].
  exists low, high. rewrite <- app_assoc. split; [done|]. split; [done|].
  pose proof (l_nodup _ _ _ _ HL) as Hnd. apply list.NoDup_cons in Hnd as [_ Hnd]. apply list.NoDup_app in Hnd as (_ & Hdis & _).
  assert (forall x, x ∈ low ++ high -> in_pool s x = true <-> x ∈ high) as Hp.
  { intros x Hx. unfold in_pool. destruct (l_flags _ _ _ _ HL x (l_data _ _ _ _ HL x Hx)) as [g Hg]. rewrite Hg.
    symmetry. by apply (l_pool_bit _ _ _ _ HL). }
  split; intros x Hx.
  - destruct (in_pool s x) eqn:Hb1; [|done]. exfalso. apply (Hdis x Hx), Hp; [inlist|done].
  - apply Hp; [inlist|done].
Qed.

(** A lookup returns the entry of the key, takes it off the list, and counts the reference. *)
Theorem lookup_result `{Host} s ext k h p :
  reachable s ext -> legal s ext (CLookup k h) -> maps s k h p ->
  exists s', run (CLookup k h) s = Ret (RHandle p, s') /\ usage_ s' = usage_ s /\
    lru_entries s' = filter (fun x => Some x <> p) (lru_entries s) /\
    (forall e, p = Some e -> hrefs s' !! e = Some (ext e + 2)) /\
    (forall k' h' q, 0 <= h' -> maps s k' h' q -> maps s' k' h' q).
Proof.
  intros Hr [Hh Hx] Hm. destruct (reachable_quiet s ext Hr) as (live & low & high & T & HQ). pose proof (q_inv _ _ _ _ _ _ HQ) as HI.
  destruct (Lookup_spec HQ k h Hh Hx) as (q & s' & E & Hq).
  assert (q = p) as ->.
  { assert (maps s k h q) as Hm2; [|unfold maps in *; congruence].
    apply (maps_spec s live low high T ext k h q HI Hh). destruct q; [by destruct Hq as (? & ? & _)|by destruct Hq as [_ ?]]. }
  exists s'. split; [cbn [run]; by mstep E|]. rewrite (lru_entries_eq _ _ _ _ (i_list _ _ _ _ _ _ HI)).
  destruct p as [e|].
  - destruct Hq as (HeT & Hme & Hk & Hu & low' & high' & HQ' & Hlh). pose proof (q_inv _ _ _ _ _ _ HQ') as HI'.
    rewrite (lru_entries_eq _ _ _ _ (i_list _ _ _ _ _ _ HI')), Hlh. split; [done|].
    split; [symmetry; by apply filter_some|]. split.
    + intros e' [= <-]. rewrite (i_refs _ _ _ _ _ _ HI' e) by (by apply (i_table _ _ _ _ _ _ HI)).
      rewrite upd_eq, tin_in by done. f_equal. lia.
    + intros k' h' r Hh'. rewrite (maps_spec s live low high T ext), (maps_spec s' live low' high' T (upd ext e (ext e + 1))) by done.
      unfold matches. by rewrite (k_data _ _ _ Hk).
  - destruct Hq as [-> _]. rewrite (lru_entries_eq _ _ _ _ (i_list _ _ _ _ _ _ HI)). split; [done|].
    split; [symmetry; by apply filter_none|]. split; [done|]. done.
Qed.

(** C17: With the strict limit an insertion that succeeds leaves the usage within the capacity. *)
Theorem strict_limit `{Host} s ext e fl k h v ch del want p hd s' :
  reachable s ext -> legal s ext (CInsert e fl k h v ch del want p) -> strict_capacity_limit_ s = true ->
  usage_ s <= capacity_ s ->
  run (CInsert e fl k h v ch del want p) s = Ret (RInsert OK hd, s') -> usage_ s' <= capacity_ s'.
Proof.
  intros Hr Hl Hs Hc E. destruct (reachable_quiet s ext Hr) as (live & low & high & T & HQ). pose proof (q_inv _ _ _ _ _ _ HQ) as HI.
  pose proof Hl as [Hfh Hel]. rewrite (elems_bound HQ) in Hel. pose proof (fh_charge _ _ _ Hfh) as Hch. pose proof (fh_usage _ _ _ Hfh) as Hub.
  simpl in Hch, Hub. pose proof (i_list _ _ _ _ _ _ HI) as HL. pose proof (l_charge _ _ _ _ HL) as Hnn.
  assert (forall ev rest, low ++ high = ev ++ rest -> full s ch = false ->
    (rest = [] \/ over ch (capacity_ s) (usage_ s - csum s ev) = false) -> usage_ s - csum s ev + ch <= capacity_ s) as Hfit.
  { intros ev rest Hlh Hf [->|Ho].
    - rewrite app_nil_r in Hlh. unfold full in Hf. pose proof (l_usage _ _ _ _ HL). rewrite Hlh in *. lia.
    - pose proof (pinned_bounds HQ). pose proof (l_usage _ _ _ _ HL) as Hu. rewrite Hlh, csum_app in Hu.
      pose proof (csum_nonneg s ev Hnn). pose proof (csum_nonneg s rest Hnn). apply over_fits in Ho; lia. }
  destruct (full s ch) eqn:Hf.
  - destruct want; cbn [run] in E.
    + destruct (Insert_refused HQ e k h v ch del fl p Hfh Hf Hs) as (ev & s0 & live' & low' & high' & T' & E0 & _).
      rewrite (M_bind_ret _ _ _ _ _ E0) in E. injection E as E1 E2 E3. discriminate.
    + destruct (Insert_dropped HQ e k h v ch del fl p Hfh Hf) as (ev & s0 & live' & low' & high' & T' & E0 & HR).
      rewrite (M_bind_ret _ _ _ _ _ E0) in E. injection E as _ <-.
      rewrite (rc_cap _ _ _ _ _ _ _ _ _ _ _ _ _ _ HR), (rc_usage _ _ _ _ _ _ _ _ _ _ _ _ _ _ HR).
      pose proof (csum_nonneg s ev Hnn). lia.
  - assert (exists ev old live' low' high' T', inserted (s := s) (low := low) (high := high) (T := T) (ext := ext)
      e k h v ch del p want ev old s' live' low' high' T') as (ev & old & live' & low' & high' & T' & HR).
    { destruct want; cbn [run] in E.
      - destruct (Insert_held HQ e k h v ch del fl p Hfh ltac:(by rewrite Hf) Hel) as (ev & old & s0 & live' & low' & high' & T' & E0 & HR).
        rewrite (M_bind_ret _ _ _ _ _ E0) in E. injection E as _ <-. by exists ev, old, live', low', high', T'.
      - destruct (Insert_unheld HQ e k h v ch del fl p Hfh Hf Hel) as (ev & old & s0 & live' & low' & high' & T' & E0 & HR).
        rewrite (M_bind_ret _ _ _ _ _ E0) in E. injection E as _ <-. by exists ev, old, live', low', high', T'. }
    rewrite (in_cap _ _ _ _ _ _ _ _ _ _ _ _ _ _ _ HR). etransitivity; [apply (in_usage _ _ _ _ _ _ _ _ _ _ _ _ _ _ _ HR)|].
    destruct (in_evicts _ _ _ _ _ _ _ _ _ _ _ _ _ _ _ HR) as [(rest & Hlh & Hst) _]. by eapply Hfit.
Qed.

(** ** The theorems at concrete shards *)

#[local] Existing Instance le_host.

Definition after (c : call) (s : Shard) : Shard := match run c s with Ret (_, s') => s' | _ => s end.

(** An empty shard of capacity 10 with the strict limit, and a handle of charge 3 put in. *)
Definition ex0 : Shard := new_shard 10 true (S754_zero false).
Definition put1 : call := CInsert 1 0 (str "k") 7 100 3 (Some 5) true LOW.
Definition ex1 : Shard := after put1 ex0.
Definition ext1 : loc -> Z := upd (fun _ => 0) 1 1.

Lemma ex0_reachable : reachable ex0 (fun _ => 0).
Proof. constructor; [lia|done]. Qed.
Lemma put1_legal : legal ex0 (fun _ => 0) put1.
Proof. split; [constructor; vm_compute; split || done; done|vm_compute; done]. Qed.
Lemma put1_run : run put1 ex0 = Ret (RInsert OK (Some (Some 1)), ex1).
Proof. vm_compute. reflexivity. Qed.
Lemma ex1_reachable : reachable ex1 ext1.
Proof. exact (reach_call _ _ put1 _ _ ex0_reachable put1_legal put1_run). Qed.

Lemma cache_never_stuck_witness :
  exists r s', run put1 ex0 = Ret (r, s') /\ reachable s' (held (fun _ => 0) put1 r).
Proof. exact (proj1 (@cache_never_stuck le_host _ _ ex0_reachable) put1 put1_legal). Defined.

Lemma cache_accounts_witness : usage_ ex1 = 3 /\ usage_ ex1 = total (hdata ex1).
Proof. split; [vm_compute; reflexivity|]. apply (@cache_accounts le_host ex1 ext1 ex1_reachable). Defined.

Lemma deleter_once_witness : exists l, disposed (heap_with (hdata ex0) put1 (RInsert OK (Some (Some 1)))) l ex0 ex1 /\
  forall x, x ∈ l -> held (fun _ => 0) put1 (RInsert OK (Some (Some 1))) x = 0.
Proof. apply (@deleter_once le_host); [apply ex0_reachable|apply put1_legal|apply put1_run]. Defined.

Lemma insert_maps_witness : maps ex1 (str "k") 7 (Some 1).
Proof.
  refine (proj1 (@insert_maps le_host ex0 (fun _ => 0) 1 0 (str "k") 7 100 3 (Some 5) true LOW ex1 ex0_reachable put1_legal put1_run _)).
  by left.
Defined.

Lemma erase_maps_witness : maps (after (CErase (str "k") 7) ex1) (str "k") 7 None.
Proof.
  refine (proj1 (@erase_maps le_host ex1 ext1 (str "k") 7 _ ex1_reachable _ _)); [lia|vm_compute; reflexivity].
Defined.

(** After its release the entry is the only one of the list, and a charge of 8 evicts it. *)
Definition ex2 : Shard := after (CRelease (Some 1)) ex1.
Lemma ex2_reachable : reachable ex2 (upd ext1 1 0).
Proof. refine (reach_call ex1 ext1 (CRelease (Some 1)) RVoid ex2 ex1_reachable _ _); vm_compute; done. Qed.

Lemma eviction_order_witness :
  exists ev s', EvictFromLRU 8 ex2 = Ret (ev, s') /\ lru_entries ex2 = ev ++ lru_entries s' /\
    usage_ s' = usage_ ex2 - csum ex2 ev /\ (lru_entries s' = [] \/ usage_ s' + 8 <= capacity_ ex2) /\
    (forall i, (i < length ev)%nat -> capacity_ ex2 < usage_ ex2 - csum ex2 (take i ev) + 8).
Proof. apply (@eviction_order le_host ex2 (upd ext1 1 0) 8 ex2_reachable); [lia|vm_compute; done]. Defined.

Lemma release_order_witness :
  exists s', run (CRelease (Some 1)) ex1 = Ret (RVoid, s') /\ hdata s' = hdata ex1 /\
    exists l1 l2, lru_entries ex1 = l1 ++ l2 /\ lru_entries s' = l1 ++ 1 :: l2 /\
      (forall x, x ∈ l1 -> in_pool ex1 x = false) /\ (forall x, x ∈ l2 -> in_pool ex1 x = true).
Proof. apply (@release_order le_host ex1 ext1 1 1 ex1_reachable); vm_compute; done. Defined.

Lemma lookup_result_witness :
  exists s', run (CLookup (str "k") 7) ex2 = Ret (RHandle (Some 1), s') /\ usage_ s' = usage_ ex2.
Proof.
  destruct (@lookup_result le_host ex2 (upd ext1 1 0) (str "k") 7 (Some 1) ex2_reachable) as (s' & E & Hu & _).
  - split; [lia|]. intros x. unfold upd, ext1, upd. destruct (decide (x = 1)); lia.
  - vm_compute. reflexivity.
  - by exists s'.
Defined.

Lemma strict_limit_witness : usage_ ex1 <= capacity_ ex1.
Proof.
  apply (@strict_limit le_host ex0 (fun _ => 0) 1 0 (str "k") 7 100 3 (Some 5) true LOW (Some (Some 1)) ex1
    ex0_reachable put1_legal eq_refl); [vm_compute; done|apply put1_run].
Defined.

(** With a charge near [2^64] the sum in the capacity test overflows: the entry is put in
    although it exceeds the strict limit, and the usage wraps round to zero. *)
Theorem charge_overflow :
  capacity_ ex1 = 10 /\ usage_ ex1 = 3 /\ strict_capacity_limit_ ex1 = true /\
  exists s', run (CInsert 2 0 (str "m") 9 100 (2 ^ 64 - 3) (Some 5) true LOW) ex1 = Ret (RInsert OK (Some (Some 2)), s') /\
    usage_ s' = 0 /\ is_Some (hdata s' !! 1) /\ is_Some (hdata s' !! 2).
Proof. split_and!; try reflexivity. eexists. split; [vm_compute; reflexivity|]. vm_compute. eauto. Qed.
