(* ===== verification/ShardedCache.v ===== *)
(** * ShardedCache ([rutil/sharded_cache.h], [rutil/sharded_cache.cc], [LRUCache] of
    [rutil/lru_cache.cc])

    The cache that clients see: an array of shards, each with its part of the capacity,
    and calls that go to the shard that the hash of the key selects. The handles of all
    shards are on one heap: the heaps of the shards are parts of it. *)

From Stdlib Require Import Strings.Byte Strings.String Floats.SpecFloat.
From stdpp Require Import gmap.
From S2P Require Import Prelude.
From S2P Require Import Slice.
From S2P Require Import Coding.
From S2P Require Import Status.
From S2P Require Import Hash.
From S2P Require Import LruCache.
From S2P Require Import LruTable.
From S2P Require Import LruList.
From S2P Require Import LruInv.
From S2P Require Import LruSafety.

(** ** The code *)

Record LRUCache : Type := mkCache {
  shards_ : list Shard;
  num_shard_bits_ : Z;
  cache_capacity_ : Z;
  cache_strict_ : bool;
  last_id_ : Z;
}.

Definition with_shards (c : LRUCache) (l : list Shard) : LRUCache :=
  mkCache l (num_shard_bits_ c) (cache_capacity_ c) (cache_strict_ c) (last_id_ c).

Definition CM (A : Type) : Type := LRUCache -> outcome (A * LRUCache).
#[export] Instance CM_ret : MRet CM := fun A a c => Ret (a, c).
#[export] Instance CM_bind : MBind CM := fun A B f m c =>
  match m c with
  | Ret (a, c') => f a c'
  | AssertFail => AssertFail
  | Undef => Undef
  | NoFuel => NoFuel
  end.
Definition cget : CM LRUCache := fun c => Ret (c, c).
Definition cmodify (f : LRUCache -> LRUCache) : CM unit := fun c => Ret (tt, f c).
Definition cundef {A} : CM A := fun _ => Undef.

Definition HashSlice `{Host} (s : Slice) : Z := Hash s 0.
(** [Shard(hash)] *)
Definition ShardOf (bits hash : Z) : Z := if 0 <? bits then Z.shiftr hash (32 - bits) else 0.

(** [GetShard(i)->m]: outside of the array there is no shard. *)
Definition GetShard {A} (i : Z) (m : M A) : CM A := fun c =>
  match shards_ c !! Z.to_nat i with
  | None => Undef
  | Some s =>
      match m s with
      | Ret (a, s') => Ret (a, with_shards c (<[Z.to_nat i := s']> (shards_ c)))
      | AssertFail => AssertFail
      | Undef => Undef
      | NoFuel => NoFuel
      end
  end.

(** [1 << num_shard_bits_] in [int]. *)
Definition num_shards : CM Z :=
  c ← cget;
  if (0 <=? num_shard_bits_ c) && (num_shard_bits_ c <? 31) then mret (Z.shiftl 1 (num_shard_bits_ c))
  else cundef.

(** [for (int s = 0; s < num_shards; s++) GetShard(s)->m], with the [n] shards from [s] on
    to go; the results, in order. *)
Fixpoint shards_from {A} (m : M A) (n : nat) (s : Z) : CM (list A) :=
  match n with
  | O => mret []
  | S n' => a ← GetShard s m; l ← shards_from m n' (s + 1); mret (a :: l)
  end.
Definition for_shards {A} (m : M A) : CM (list A) :=
  n ← num_shards; shards_from m (Z.to_nat n) 0.

Definition per_shard (capacity n : Z) : Z := u64 (capacity + (n - 1)) `div` n.

Definition cache_SetCapacity (capacity : Z) : CM unit :=
  n ← num_shards;
  _ ← for_shards (SetCapacity (per_shard capacity n));
  cmodify (fun c => mkCache (shards_ c) (num_shard_bits_ c) capacity (cache_strict_ c) (last_id_ c)).

Definition cache_SetStrictCapacityLimit (strict : bool) : CM unit :=
  _ ← for_shards (SetStrictCapacityLimit strict);
  cmodify (fun c => mkCache (shards_ c) (num_shard_bits_ c) (cache_capacity_ c) strict (last_id_ c)).

Definition cache_Insert `{Host} (e flags0 : Z) (k : Slice) (value charge : Z) (deleter : option Z)
    (want : bool) (p : Priority) : CM (Status * option ptr) :=
  let hash := HashSlice k in
  c ← cget;
  GetShard (ShardOf (num_shard_bits_ c) hash) (Insert e flags0 k hash value charge deleter want p).

Definition cache_Lookup `{Host} (k : Slice) : CM ptr :=
  let hash := HashSlice k in
  c ← cget;
  GetShard (ShardOf (num_shard_bits_ c) hash) (Lookup k hash).

(** The handle at [e] on the heap of all shards. *)
Definition heap_at (l : list Shard) (e : loc) : option HandleData :=
  foldr (fun s r => match hdata s !! e with Some d => Some d | None => r end) None l.
Definition handle_data (handle : ptr) : CM HandleData :=
  c ← cget;
  match handle with
  | Some e => match heap_at (shards_ c) e with Some d => mret d | None => cundef end
  | None => cundef
  end.
Definition Value (handle : ptr) : CM Z := d ← handle_data handle; mret (value d).
Definition GetCharge (handle : ptr) : CM Z := d ← handle_data handle; mret (charge d).
Definition GetHash (handle : ptr) : CM Z := d ← handle_data handle; mret (hash d).

Definition cache_Release (handle : ptr) : CM unit :=
  hash ← GetHash handle;
  c ← cget;
  GetShard (ShardOf (num_shard_bits_ c) hash) (Release handle).

Definition cache_Erase `{Host} (k : Slice) : CM unit :=
  let hash := HashSlice k in
  c ← cget;
  GetShard (ShardOf (num_shard_bits_ c) hash) (Erase k hash).

Definition NewId : CM Z :=
  c ← cget;
  _ ← cmodify (fun c => mkCache (shards_ c) (num_shard_bits_ c) (cache_capacity_ c) (cache_strict_ c)
        (u64 (last_id_ c + 1)));
  mret (last_id_ c).

Definition GetCapacity : CM Z := c ← cget; mret (cache_capacity_ c).
Definition HasStrictCapacityLimit : CM bool := c ← cget; mret (cache_strict_ c).

Definition sum_usage (l : list Z) : Z := fold_left (fun u x => u64 (u + x)) l 0.
Definition cache_GetUsage : CM Z := l ← for_shards GetUsage; mret (sum_usage l).
Definition handle_GetUsage (handle : ptr) : CM Z := GetCharge handle.
Definition cache_GetPinnedUsage : CM Z := l ← for_shards GetPinnedUsage; mret (sum_usage l).
Definition cache_ApplyToAllCacheEntries : CM (list (Z * Z)) :=
  l ← for_shards ApplyToAllCacheEntries; mret (concat l).
Definition cache_EraseUnRefEntries : CM unit := _ ← for_shards EraseUnRefEntries; mret tt.

(** [shards_ = nullptr]: nothing can be reached any more. *)
Definition DisownData : CM unit := cmodify (fun c => with_shards c []).

(** The constructor. The members of a shard that its constructor does not initialise have
    the values of [raw]. *)
Definition LRUCache_ctor (capacity : Z) (strict : bool) (ratio : double) : CM unit :=
  _ ← for_shards LRUHandleTable_new;
  _ ← cache_SetCapacity capacity;
  _ ← cache_SetStrictCapacityLimit strict;
  _ ← for_shards (SetHighPriorityPoolRatio ratio);
  mret tt.
Definition LRUCache_new (raw : nat -> Z * bool * double * double) (capacity bits : Z) (strict : bool) (ratio : double)
  : outcome LRUCache :=
  let shard i := let '(c, st, ra, po) := raw i in LRUCacheShard_new c st ra po in
  '(_, c) ← LRUCache_ctor capacity strict ratio
    (mkCache (map shard (seq 0 (Z.to_nat (Z.shiftl 1 bits)))) bits capacity strict 1);
  Ret c.

Definition NewLRUCache raw (capacity bits : Z) (strict : bool) (ratio : double) : outcome (option LRUCache) :=
  if 20 <=? bits then Ret None
  else if SFltb ratio (S754_zero false) || SFltb (double_of_size_t 1) ratio then Ret None
  else c ← LRUCache_new raw capacity bits strict ratio; Ret (Some c).
