(* ===== verification/ShardedTheorems.v ===== *)
(** * ShardedTheorems: what the sharded cache guarantees

    The handles of a shard have keys whose hash selects that shard, so that a handle is
    released where it came from; calls return; the capacities of the shards add up. *)

From Stdlib Require Import Strings.Byte Strings.String Floats.SpecFloat.
From stdpp Require Import gmap.
From S2P Require Import Prelude.
From S2P Require Import Slice.
From S2P Require Import Coding.
From S2P Require Import Status.
From S2P Require Import Hash.
From S2P Require Import LruCache.
From S2P Require Import LruTable.
From S2P Require Import LruList.
From S2P Require Import LruInv.
From S2P Require Import LruInsert.
From S2P Require Import LruSafety.
From S2P Require Import LruFrame.
From S2P Require Import ShardedCache.

(** ** Running over the shards *)

Lemma CM_bind_ret {A B} (m : CM A) (k : A -> CM B) c a c' : m c = Ret (a, c') -> (m ≫= k) c = k a c'.
Proof. intros E. change ((m ≫= k) c) with (CM_bind A B k m c). unfold CM_bind. by rewrite E. Qed.
Ltac cstep E := rewrite (CM_bind_ret _ _ _ _ _ E); cbv beta iota.

Lemma CM_bind_inv {A B} (m : CM A) (k : A -> CM B) c r :
  (m ≫= k) c = Ret r -> exists a c', m c = Ret (a, c') /\ k a c' = Ret r.
Proof.
  change ((m ≫= k) c) with (CM_bind A B k m c). unfold CM_bind. intros E.
  destruct (m c) as [[a c']| | |] eqn:Em; try done. by exists a, c'.
Qed.
Lemma CM_bind_as_ext {A B} (m : CM A) (k k' : A -> CM B) c : (forall a, k a = k' a) -> (m ≫= k) c = (m ≫= k') c.
Proof. intros Hk. change (CM_bind A B k m c = CM_bind A B k' m c). unfold CM_bind. destruct (m c) as [[a c']| | |]; [by rewrite Hk|done..]. Qed.
Lemma M_bind_as_ext {A B} (m : M A) (k k' : A -> M B) s : (forall a, k a = k' a) -> (m ≫= k) s = (m ≫= k') s.
Proof. intros Hk. change (M_bind A B k m s = M_bind A B k' m s). unfold M_bind. destruct (m s) as [[a s']| | |]; [by rewrite Hk|done..]. Qed.
Lemma M_bind_inv {A B} (m : M A) (k : A -> M B) s r :
  (m ≫= k) s = Ret r -> exists a s', m s = Ret (a, s') /\ k a s' = Ret r.
Proof.
  change ((m ≫= k) s) with (M_bind A B k m s). unfold M_bind. intros E.
  destruct (m s) as [[a s']| | |] eqn:Em; try done. by exists a, s'.
Qed.

Lemma GetShard_eq {A} (m : M A) c i s a s' :
  shards_ c !! i = Some s -> m s = Ret (a, s') ->
  GetShard (Z.of_nat i) m c = Ret (a, with_shards c (<[i := s']> (shards_ c))).
Proof. intros Hs E. unfold GetShard. by rewrite Nat2Z.id, Hs, E. Qed.

Lemma with_shards_twice c l l' : with_shards (with_shards c l) l' = with_shards c l'.
Proof. done. Qed.
Lemma with_shards_same c : with_shards c (shards_ c) = c.
Proof. by destruct c. Qed.

Lemma shards_from_eq {A} (m : M A) l rs pre c :
  Forall2 (fun s r => m s = Ret r) l rs -> shards_ c = pre ++ l ->
  shards_from m (length l) (Z.of_nat (length pre)) c = Ret (rs.*1, with_shards c (pre ++ rs.*2)).
Proof.
  intros HF. revert pre c. induction HF as [|s [a s'] l rs E HF IH]; intros pre c Hc; simpl.
  - rewrite <- Hc, with_shards_same. done.
  - assert (shards_ c !! length pre = Some s) as Hs by (rewrite Hc; by apply list_lookup_middle).
    cstep (GetShard_eq m c (length pre) s a s' Hs E).
    assert (<[length pre:=s']> (shards_ c) = (pre ++ [s']) ++ l) as Hi.
    { rewrite Hc, insert_app_r_alt, Nat.sub_diag by done. simpl. by rewrite <- app_assoc. }
    pose proof (IH (pre ++ [s']) (with_shards c (<[length pre:=s']> (shards_ c))) Hi) as Hrest.
    rewrite length_app in Hrest. replace (Z.of_nat (length pre + length [s'])) with (Z.of_nat (length pre) + 1) in Hrest by (simpl; lia).
    cstep Hrest. by rewrite with_shards_twice, <- app_assoc.
Qed.

(** The number of shards matches [num_shard_bits_]. *)
Record sized (c : LRUCache) : Prop := {
  sz_bits : 0 <= num_shard_bits_ c < 20;
  sz_shards : length (shards_ c) = Z.to_nat (2 ^ num_shard_bits_ c);
}.

Lemma num_shards_eq c : 0 <= num_shard_bits_ c < 20 -> num_shards c = Ret (2 ^ num_shard_bits_ c, c).
Proof.
  intros Hb. unfold num_shards. cstep (eq_refl : cget c = Ret (c, c)).
  replace ((0 <=? num_shard_bits_ c) && (num_shard_bits_ c <? 31)) with true by lia.
  rewrite Z.shiftl_mul_pow2 by lia. by rewrite Z.mul_1_l.
Qed.

Lemma for_shards_eq {A} (m : M A) c rs :
  sized c -> Forall2 (fun s r => m s = Ret r) (shards_ c) rs ->
  for_shards m c = Ret (rs.*1, with_shards c rs.*2).
Proof.
  intros [Hb Hl] HF. unfold for_shards. cstep (num_shards_eq c Hb). rewrite <- Hl.
  apply (shards_from_eq m (shards_ c) rs [] c HF eq_refl).
Qed.

(** A loop whose body returns on every shard. *)
Lemma for_shards_total {A} (m : M A) (P : Shard -> A * Shard -> Prop) c :
  sized c -> (forall s, s ∈ shards_ c -> exists r, m s = Ret r /\ P s r) ->
  exists rs, for_shards m c = Ret (rs.*1, with_shards c rs.*2) /\ Forall2 P (shards_ c) rs.
Proof.
  intros Hsz Hm. assert (exists rs, Forall2 (fun s r => m s = Ret r /\ P s r) (shards_ c) rs) as [rs HF].
  { clear Hsz. induction (shards_ c) as [|s l IH]; [by exists []|].
    destruct (Hm s) as (r & Hr); [by left|]. destruct IH as [rs Hrs]; [intros; apply Hm; by right|]. exists (r :: rs). by constructor. }
  exists rs. split; [apply for_shards_eq; [done|]|]; eapply Forall2_impl; try exact HF; by intros ? ? [].
Qed.

Lemma sized_with c (rs : list Shard) : sized c -> length rs = length (shards_ c) -> sized (with_shards c rs).
Proof. intros [Hb Hl] E. constructor; [done|]. simpl. by rewrite E. Qed.

(** ** Capacities *)

Lemma per_shard_bounds capacity n :
  0 < n -> 0 <= capacity -> capacity + n - 1 < 2 ^ 64 -> capacity <= n * per_shard capacity n < capacity + n.
Proof.
  intros Hn Hc Hb.   unfold per_shard. rewrite u64_small by lia. pose proof (Z.div_mod (capacity + (n - 1)) n ltac:(lia)).
  pose proof (Z.mod_pos_bound (capacity + (n - 1)) n). lia.
Qed.

Lemma per_shard_range capacity n : 0 < n -> 0 <= per_shard capacity n < 2 ^ 64.
Proof.
  intros Hn. unfold per_shard. pose proof (u64_range (capacity + (n - 1))). change (2 ^ 64) with 18446744073709551616.
  split; [apply Z.div_pos; lia|]. apply (Z.le_lt_trans _ (u64 (capacity + (n - 1)))); [|lia]. apply Z.div_le_upper_bound; [done|]. nia.
Qed.

(** With the largest capacity the rounding overflows, and the shards get none. *)
Theorem max_capacity_is_none bits : 0 < bits < 20 -> per_shard (2 ^ 64 - 1) (2 ^ bits) = 0.
Proof.
  intros Hb. assert (1 < 2 ^ bits) by (apply Z.pow_gt_1; lia).
  assert (2 ^ bits < 2 ^ 20) by (apply Z.pow_lt_mono_r; lia). change (2 ^ 20) with 1048576 in *.
  unfold per_shard. replace (2 ^ 64 - 1 + (2 ^ bits - 1)) with (2 ^ bits - 2 + 1 * 2 ^ 64) by lia.
  unfold u64. rewrite Z_mod_plus_full, Z.mod_small by lia. apply Z.div_small. lia.
Qed.

(** ** The constructor *)

Lemma for_shards_chain {A} (m : M A) (Q : Shard -> Prop) c :
  sized c -> (forall s, s ∈ shards_ c -> exists a s', m s = Ret (a, s') /\ Q s') ->
  exists x l, for_shards m c = Ret (x, with_shards c l) /\ sized (with_shards c l) /\ (forall s, s ∈ l -> Q s).
Proof.
  intros Hsz Hm. destruct (for_shards_total m (fun _ r => Q r.2) c Hsz) as (rs & E & HF).
  { intros s Hs. destruct (Hm s Hs) as (a & s' & E & HQ). by exists (a, s'). }
  exists rs.*1, rs.*2. split; [done|]. split.
  - apply sized_with; [done|]. rewrite length_fmap. symmetry. by eapply Forall2_length.
  - intros s Hs. apply list_elem_of_fmap in Hs as (r & -> & Hr). apply list_elem_of_lookup in Hr as [i Hr].
    destruct (Forall2_lookup_r _ _ _ _ _ HF Hr) as (s0 & _ & HQ). done.
Qed.

Definition new_cache (capacity bits : Z) (strict : bool) (ratio : double) : LRUCache :=
  mkCache (replicate (Z.to_nat (2 ^ bits)) (new_shard (per_shard capacity (2 ^ bits)) strict ratio)) bits capacity strict 1.

Lemma LRUCache_new_eq raw capacity bits strict ratio :
  0 <= bits < 20 -> double_nonneg ratio ->
  LRUCache_new raw capacity bits strict ratio = Ret (new_cache capacity bits strict ratio).
Proof.
  intros Hb Hr. unfold LRUCache_new. rewrite Z.shiftl_mul_pow2, Z.mul_1_l by lia.
  set (ps := per_shard capacity (2 ^ bits)). set (sh := new_shard ps strict ratio).
  match goal with |- context [mkCache (map ?f _)] => set (shard := f) end.
  set (c0 := mkCache _ _ _ _ _). assert (sized c0) as Hsz by (constructor; [done|]; simpl; by rewrite length_map, length_seq).
  assert (0 < 2 ^ bits) by lia. pose proof (per_shard_range capacity (2 ^ bits) ltac:(done)) as Hps.
  destruct (for_shards_chain LRUHandleTable_new (fun s => (_ ← SetCapacity ps; _ ← SetStrictCapacityLimit strict; SetHighPriorityPoolRatio ratio) s = Ret (tt, sh)) c0 Hsz)
    as (x1 & l1 & E1 & Hs1 & H1).
  { intros s Hs. simpl in Hs. apply list_elem_of_In, in_map_iff in Hs as (i & <- & _). unfold shard. destruct (raw i) as [[[c st] ra] po].
    apply M_bind_inv, (new_shard_setup c st ra po ps strict ratio Hps Hr). }
  destruct (for_shards_chain (SetCapacity ps) (fun s => (_ ← SetStrictCapacityLimit strict; SetHighPriorityPoolRatio ratio) s = Ret (tt, sh)) _ Hs1)
    as (x2 & l2 & E2 & Hs2 & H2).
  { intros s Hs. apply M_bind_inv, H1, Hs. }
  destruct (for_shards_chain (SetStrictCapacityLimit strict) (fun s => SetHighPriorityPoolRatio ratio s = Ret (tt, sh)) _ Hs2)
    as (x3 & l3 & E3 & Hs3 & H3).
  { intros s Hs. apply M_bind_inv, H2, Hs. }
  destruct (for_shards_chain (SetHighPriorityPoolRatio ratio) (fun s => s = sh) _ Hs3) as (x4 & l4 & E4 & Hs4 & H4).
  { intros s Hs. exists tt, sh. split; [apply H3, Hs|done]. }
  assert (cache_SetCapacity capacity (with_shards c0 l1) = Ret (tt, with_shards c0 l2)) as EC.
  { unfold cache_SetCapacity. cstep (num_shards_eq (with_shards c0 l1) Hb). by cstep E2. }
  assert (cache_SetStrictCapacityLimit strict (with_shards c0 l2) = Ret (tt, with_shards c0 l3)) as ES.
  { unfold cache_SetStrictCapacityLimit. by cstep E3. }
  enough (LRUCache_ctor capacity strict ratio c0 = Ret (tt, with_shards c0 l4)) as E.
  - rewrite E. bret. assert (replicate (Z.to_nat (2 ^ bits)) sh = l4) as <-; [|done].
    apply replicate_as_elem_of. split; [apply (sz_shards _ Hs4)|exact H4].
  - unfold LRUCache_ctor. cstep E1. cstep EC. cstep ES. by cstep E4.
Qed.

(** ** Calls of the cache *)

Inductive ccall : Type :=
| KInsert (e : loc) (flags0 : Z) (k : Slice) (value charge : Z) (deleter : option Z) (want : bool) (p : Priority)
| KLookup (k : Slice)
| KRelease (handle : ptr)
| KErase (k : Slice)
| KSetCapacity (capacity : Z)
| KSetStrictCapacityLimit (strict : bool)
| KEraseUnRefEntries
| KGetUsage
| KGetPinnedUsage
| KApplyToAllCacheEntries
| KNewId.

Definition crun `{Host} (k : ccall) : CM result :=
  match k with
  | KInsert e fl k v ch del want p => '(st, hd) ← cache_Insert e fl k v ch del want p; mret (RInsert st hd)
  | KLookup k => p ← cache_Lookup k; mret (RHandle p)
  | KRelease p => _ ← cache_Release p; mret RVoid
  | KErase k => _ ← cache_Erase k; mret RVoid
  | KSetCapacity c => _ ← cache_SetCapacity c; mret RVoid
  | KSetStrictCapacityLimit b => _ ← cache_SetStrictCapacityLimit b; mret RVoid
  | KEraseUnRefEntries => _ ← cache_EraseUnRefEntries; mret RVoid
  | KGetUsage => n ← cache_GetUsage; mret (RSize n)
  | KGetPinnedUsage => n ← cache_GetPinnedUsage; mret (RSize n)
  | KApplyToAllCacheEntries => l ← cache_ApplyToAllCacheEntries; mret (RList l)
  | KNewId => n ← NewId; mret (RSize n)
  end.

(** As for a shard: clients release what they hold, the allocator returns unused memory,
    and no count reaches its limit. *)
Definition clegal (c : LRUCache) (ext : loc -> Z) (k : ccall) : Prop :=
  match k with
  | KInsert e fl k v ch del want p =>
      e <> lru_ /\ 0 <= ch /\
      forall s, s ∈ shards_ c -> hdata s !! e = None /\ usage_ s + ch < 2 ^ 64 /\ elems_ s + 1 < 2 ^ 30
  | KLookup k => forall x, ext x + 1 < 2 ^ 32 - 1
  | KRelease p => exists e, p = Some e /\ 0 < ext e
  | KSetCapacity cap => 0 <= cap < 2 ^ 64
  | _ => True
  end.

Definition cheld (ext : loc -> Z) (k : ccall) (r : result) : loc -> Z :=
  match k, r with
  | KInsert e _ _ _ _ _ _ _, RInsert _ (Some (Some _)) => upd ext e 1
  | KLookup _, RHandle (Some e) => upd ext e (ext e + 1)
  | KRelease (Some e), _ => upd ext e (ext e - 1)
  | _, _ => ext
  end.

(** The states of a cache that [NewLRUCache] returned. *)
Inductive creachable `{Host} : LRUCache -> (loc -> Z) -> Prop :=
| creach_new raw capacity bits strict ratio c : 0 <= capacity < 2 ^ 64 -> 0 <= bits ->
    NewLRUCache raw capacity bits strict ratio = Ret (Some c) -> creachable c (fun _ => 0)
| creach_call c ext k r c' : creachable c ext -> clegal c ext k -> crun k c = Ret (r, c') ->
    creachable c' (cheld ext k r).

(** ** The invariant *)

Definition esum (exts : list (loc -> Z)) (x : loc) : Z := foldr (fun e t => e x + t) 0 exts.

Section invariant.
Context `{Host}.

Definition at_home (c : LRUCache) (i : nat) (s : Shard) : Prop :=
  forall x d, hdata s !! x = Some d -> hash d = HashSlice (key_data d) /\ Z.of_nat i = ShardOf (num_shard_bits_ c) (hash d).

(** Each shard is in a reachable state for the references to its handles; its handles
    have keys that belong to it; no handle is in two shards. *)
Record CInv (c : LRUCache) (ext : loc -> Z) (exts : list (loc -> Z)) : Prop := {
  ci_sized : sized c;
  ci_shards : Forall2 reachable (shards_ c) exts;
  ci_home : forall i s, shards_ c !! i = Some s -> at_home c i s;
  ci_disj : forall x i j s t, shards_ c !! i = Some s -> shards_ c !! j = Some t ->
    is_Some (hdata s !! x) -> is_Some (hdata t !! x) -> i = j;
  ci_sum : forall x, ext x = esum exts x;
  ci_cap : forall s, s ∈ shards_ c -> capacity_ s = per_shard (cache_capacity_ c) (2 ^ num_shard_bits_ c);
}.

Lemma ext_in_heap s e x : reachable s e -> 0 <= e x /\ (0 < e x -> is_Some (hdata s !! x)).
Proof.
  intros Hr. destruct (reachable_quiet s e Hr) as (live & low & high & T & HQ). pose proof (q_inv _ _ _ _ _ _ HQ) as HI.
  split; [apply (i_ext _ _ _ _ _ _ HI)|]. intros Hp. by apply (i_alloc _ _ _ _ _ _ HI), (i_ext_live _ _ _ _ _ _ HI).
Qed.

Lemma esum_spec l exts x : Forall2 reachable l exts ->
  0 <= esum exts x /\ (forall i e, exts !! i = Some e -> e x <= esum exts x) /\
  (0 < esum exts x -> exists i s e, l !! i = Some s /\ exts !! i = Some e /\ 0 < e x).
Proof.
  induction 1 as [|s e l exts Hr HF (IH1 & IH2 & IH3)]; simpl; [split_and!; [done|intros i e ?; by destruct i|lia]|].
  destruct (ext_in_heap s e x Hr) as [H0 _]. split_and!; [lia| |].
  - intros [|i] e' E; simpl in E; [simplify_eq; lia|]. specialize (IH2 i e' E). lia.
  - intros Hp. destruct (decide (0 < e x)) as [He|He]; [by exists 0%nat, s, e|].
    destruct IH3 as (i & s' & e' & ? & ? & ?); [lia|]. by exists (S i), s', e'.
Qed.

Lemma esum_insert exts i e e' x : exts !! i = Some e -> esum (<[i := e']> exts) x = esum exts x - e x + e' x.
Proof.
  revert i. induction exts as [|e0 exts IH]; intros [|i] E; simplify_eq/=; [lia|]. rewrite IH by done. lia.
Qed.

(** ** A call of one shard *)

Lemma call_heap s ext c r s' : reachable s ext -> legal s ext c -> run c s = Ret (r, s') ->
  forall x d, hdata s' !! x = Some d -> heap_with (hdata s) c r !! x = Some d.
Proof.
  intros Hr Hl E x d Hx. destruct (reachable_quiet s ext Hr) as (live & low & high & T & HQ).
  destruct (call_returns HQ c Hl) as (r0 & s0 & E0 & _ & l & HD). rewrite E in E0. simplify_eq.
  rewrite (dp_heap _ _ _ _ HD) in Hx. by destruct (decide _).
Qed.

(** What a call adds to the heap: an insertion adds its handle, other calls nothing. *)
Definition adds (k : call) (x : loc) (d : HandleData) : Prop :=
  match k with CInsert e _ k h v ch del _ _ => x = e /\ d = mkHandle v del ch k h | _ => False end.

Lemma heap_with_adds m k r x d : heap_with m k r !! x = Some d -> m !! x = Some d \/ adds k x d.
Proof.
  destruct k; simpl; auto. destruct r as [| |st [[?|]|]| |]; auto; rewrite lookup_insert_Some; naive_solver.
Qed.

Lemma on_shard_inv c ext exts i s e k r s' :
  CInv c ext exts -> shards_ c !! i = Some s -> exts !! i = Some e ->
  legal s e k -> run k s = Ret (r, s') -> (forall cap, k <> CSetCapacity cap) ->
  (forall x d, adds k x d -> hash d = HashSlice (key_data d) /\ Z.of_nat i = ShardOf (num_shard_bits_ c) (hash d) /\
     forall t, t ∈ shards_ c -> hdata t !! x = None) ->
  CInv (with_shards c (<[i := s']> (shards_ c))) (fun x => ext x - e x + held e k r x) (<[i := held e k r]> exts).
Proof.
  intros HC Hs He Hl E Hcap Hadd. assert (i < length (shards_ c))%nat as Hi by (by eapply lookup_lt_Some).
  assert (reachable s e) as Hr by (by eapply (Forall2_lookup_lr _ _ _ i); [apply (ci_shards _ _ _ HC)| |]).
  assert (forall x d, hdata s' !! x = Some d -> hdata s !! x = Some d \/ adds k x d) as Hh.
  { intros x d Hx. eapply heap_with_adds, call_heap; eassumption. }
  constructor.
  - apply sized_with; [apply (ci_sized _ _ _ HC)|apply length_insert].
  - simpl. apply Forall2_insert; [apply (ci_shards _ _ _ HC)|]. by eapply reach_call.
  - intros j t Ht x d Hx. simpl in Ht |- *. destruct (decide (i = j)) as [<-|Hne].
    + rewrite list_lookup_insert_eq in Ht by done. simplify_eq. destruct (Hh x d Hx) as [Hx0|Ha]; [exact (ci_home _ _ _ HC i s Hs x d Hx0)|].
      by destruct (Hadd x d Ha) as (? & ? & _).
    + rewrite list_lookup_insert_ne in Ht by done. exact (ci_home _ _ _ HC j t Ht x d Hx).
  - assert (forall x, is_Some (hdata s' !! x) -> forall j t, j <> i -> shards_ c !! j = Some t -> is_Some (hdata t !! x) -> False) as Hsep.
    { intros x [d Hx] j t Hne Ht Htx. destruct (Hh x d Hx) as [Hx0|Ha].
      - apply Hne. eapply (ci_disj _ _ _ HC x j i t s); try done.
      - destruct (Hadd x d Ha) as (_ & _ & Hn). rewrite (Hn t) in Htx by (by eapply list_elem_of_lookup_2). by destruct Htx. }
    intros x j1 j2 t1 t2 H1 H2 Hx1 Hx2. simpl in H1, H2.
    destruct (decide (i = j1)) as [<-|Hn1], (decide (i = j2)) as [<-|Hn2]; try done;
      repeat first [rewrite list_lookup_insert_eq in H1 by done | rewrite list_lookup_insert_ne in H1 by done
        | rewrite list_lookup_insert_eq in H2 by done | rewrite list_lookup_insert_ne in H2 by done]; simplify_eq.
    + exfalso. by eapply (Hsep x Hx1 j2 t2).
    + exfalso. by eapply (Hsep x Hx2 j1 t1).
    + by eapply (ci_disj _ _ _ HC x).
  - intros x. rewrite (esum_insert _ _ e) by done. by rewrite (ci_sum _ _ _ HC).
  - simpl. intros t Ht. apply list_elem_of_lookup in Ht as [j Ht]. destruct (decide (i = j)) as [<-|Hne].
    + rewrite list_lookup_insert_eq in Ht by done. simplify_eq.
      rewrite (run_capacity _ _ _ _ E), <- (ci_cap _ _ _ HC s) by (by eapply list_elem_of_lookup_2). destruct k as [| | | |cap| | | | | |]; try done. by destruct (Hcap cap).
    + rewrite list_lookup_insert_ne in Ht by done. apply (ci_cap _ _ _ HC). by eapply list_elem_of_lookup_2.
Qed.

Lemma CInv_ext c ext ext' exts : (forall x, ext' x = ext x) -> CInv c ext exts -> CInv c ext' exts.
Proof. intros Hx [H1 H2 H3 H4 H5 H6]. constructor; try done. intros x. by rewrite Hx. Qed.

(** ** A call of every shard *)

(** [m] is the shard operation that the call [k] runs. *)
Record runs {A} (k : call) (m : M A) : Prop := {
  rn_run : forall s a s', m s = Ret (a, s') -> exists r, run k s = Ret (r, s');
  rn_back : forall s r s', run k s = Ret (r, s') -> exists a, m s = Ret (a, s');
  rn_legal : forall s e, legal s e k;
  rn_held : forall e r, held e k r = e;
  rn_adds : forall x d, ~ adds k x d;
}.

Lemma runs_of {A} (k : call) (m : M A) (g : A -> result) :
  run k = (a ← m; mret (g a)) -> (forall s e, legal s e k) -> (forall e r, held e k r = e) ->
  (forall x d, ~ adds k x d) -> runs k m.
Proof.
  intros Hk Hl Hh Ha. constructor; try done.
  - intros s a s' E. exists (g a). rewrite Hk. by rewrite (M_bind_ret _ _ _ _ _ E).
  - intros s r s' E. rewrite Hk in E. apply M_bind_inv in E as (a & s1 & E & [= _ <-]). by exists a.
Qed.

Ltac shard_op g := apply (runs_of _ _ g); [done|try done|done|by intros ? ? []].

Lemma shard_total {A} (k : call) (m : M A) s e : runs k m -> reachable s e -> exists r, m s = Ret r.
Proof.
  intros Hk Hr. destruct (reachable_quiet s e Hr) as (live & low & high & T & HQ).
  destruct (call_returns HQ k (rn_legal _ _ Hk s e)) as (r & s' & E & _). destruct (rn_back _ _ Hk _ _ _ E) as [a Ha]. eauto.
Qed.

Lemma all_shards_run {A} (k : call) (m : M A) c ext exts :
  CInv c ext exts -> runs k m ->
  exists rs, for_shards m c = Ret (rs.*1, with_shards c rs.*2) /\ Forall2 (fun s r => m s = Ret r) (shards_ c) rs.
Proof.
  intros HC Hk. destruct (for_shards_total m (fun s r => m s = Ret r) c (ci_sized _ _ _ HC)) as (rs & E & HF).
  - intros s Hs. apply list_elem_of_lookup in Hs as [i Hs].
    destruct (Forall2_lookup_l _ _ _ _ _ (ci_shards _ _ _ HC) Hs) as (e & _ & Hr).
    destruct (shard_total k m s e Hk Hr) as [r Er]. eauto.
  - eauto.
Qed.

Lemma all_shards_inv {A} (k : call) (m : M A) c ext exts rs cap st id :
  CInv c ext exts -> runs k m -> Forall2 (fun s r => m s = Ret r) (shards_ c) rs ->
  (match k with CSetCapacity v => v = per_shard cap (2 ^ num_shard_bits_ c) | _ => cap = cache_capacity_ c end) ->
  CInv (mkCache rs.*2 (num_shard_bits_ c) cap st id) ext exts.
Proof.
  intros HC Hk HF Hcap. pose proof (Forall2_length HF) as Hlen.
  assert (forall i s', rs.*2 !! i = Some s' -> exists s r, shards_ c !! i = Some s /\ run k s = Ret (r, s')) as Hi.
  { intros i s' Hs'. rewrite list_lookup_fmap in Hs'. destruct (rs !! i) as [[a t]|] eqn:Er; [|done]. simplify_eq/=.
    destruct (Forall2_lookup_r _ _ _ _ _ HF Er) as (s & Hs & E). destruct (rn_run _ _ Hk _ _ _ E) as [r Hr]. by exists s, r. }
  assert (forall i s', rs.*2 !! i = Some s' -> exists s, shards_ c !! i = Some s /\
    forall x d, hdata s' !! x = Some d -> hdata s !! x = Some d) as Hh.
  { intros i s' Hs'. destruct (Hi i s' Hs') as (s & r & Hs & E). exists s. split; [done|]. intros x d Hx.
    destruct (Forall2_lookup_l _ _ _ _ _ (ci_shards _ _ _ HC) Hs) as (e & _ & Hr).
    destruct (heap_with_adds _ _ _ _ _ (call_heap s e k r s' Hr (rn_legal _ _ Hk _ _) E x d Hx)) as [|Ha]; [done|].
    by destruct (rn_adds _ _ Hk x d). }
  constructor; simpl.
  - constructor; simpl; [apply (ci_sized _ _ _ HC)|]. rewrite length_fmap, <- Hlen. apply (ci_sized _ _ _ HC).
  - apply Forall2_same_length_lookup. split.
    + rewrite length_fmap, <- Hlen. apply (Forall2_length (ci_shards _ _ _ HC)).
    + intros i s' e Hs' He. destruct (Hi i s' Hs') as (s & r & Hs & E). rewrite <- (rn_held _ _ Hk e r).
      eapply reach_call; [|apply (rn_legal _ _ Hk)|exact E]. by eapply (Forall2_lookup_lr _ _ _ i); [apply (ci_shards _ _ _ HC)| |].
  - intros i s' Hs' x d Hx. destruct (Hh i s' Hs') as (s & Hs & Hd). exact (ci_home _ _ _ HC i s Hs x d (Hd x d Hx)).
  - intros x i j s' t' Hs' Ht' [d Hx] [d' Hx']. destruct (Hh i s' Hs') as (s & Hs & Hd), (Hh j t' Ht') as (t & Ht & Hd').
    eapply (ci_disj _ _ _ HC x i j s t); eauto.
  - apply (ci_sum _ _ _ HC).
  - intros s' Hs'. apply list_elem_of_lookup in Hs' as [i Hs']. destruct (Hi i s' Hs') as (s & r & Hs & E).
    rewrite (run_capacity _ _ _ _ E). pose proof (ci_cap _ _ _ HC s (list_elem_of_lookup_2 _ _ _ Hs)). destruct k; simplify_eq; done.
Qed.

(** ** The shard of a key *)

Lemma ShardOf_range bits h : 0 <= bits < 20 -> 0 <= h < 4294967296 -> 0 <= ShardOf bits h < 2 ^ bits.
Proof.
  intros Hb Hh. unfold ShardOf. destruct (Z.ltb_spec 0 bits).
  - pose proof (shiftr_range 32 (32 - bits) h ltac:(lia) Hh). by replace (32 - (32 - bits)) with bits in * by lia.
  - replace bits with 0 by lia. lia.
Qed.

Lemma key_shard c ext exts k : CInv c ext exts ->
  exists i s e, ShardOf (num_shard_bits_ c) (HashSlice k) = Z.of_nat i /\
    shards_ c !! i = Some s /\ exts !! i = Some e /\ reachable s e.
Proof.
  intros HC. pose proof (sz_bits _ (ci_sized _ _ _ HC)) as Hb. pose proof (sz_shards _ (ci_sized _ _ _ HC)) as Hl.
  pose proof (ShardOf_range _ (HashSlice k) Hb (Hash_word k 0)) as Hr. set (i := Z.to_nat (ShardOf (num_shard_bits_ c) (HashSlice k))).
  destruct (lookup_lt_is_Some_2 (shards_ c) i) as [s Hs]; [rewrite Hl; unfold i; lia|].
  destruct (Forall2_lookup_l _ _ _ _ _ (ci_shards _ _ _ HC) Hs) as (e & He & Hre).
  exists i, s, e. split; [|done]. unfold i. lia.
Qed.

Lemma heap_at_home c ext exts i s x d : CInv c ext exts -> shards_ c !! i = Some s -> hdata s !! x = Some d ->
  heap_at (shards_ c) x = Some d.
Proof.
  intros HC Hs Hx. pose proof (fun j t Ht => ci_disj _ _ _ HC x i j s t Hs Ht (ex_intro _ d Hx)) as Hd. clear HC. revert i Hs Hd.
  induction (shards_ c) as [|t l IH]; intros i Hs Hd; [by destruct i|]. simpl.
  destruct (hdata t !! x) as [d'|] eqn:Et.
  - rewrite (Hd 0%nat t eq_refl) in Hs by eauto. simpl in Hs. by simplify_eq.
  - destruct i as [|i]; [simpl in Hs; by simplify_eq|]. apply (IH i Hs). intros j t' Ht' Hx'.
    apply (inj S). by apply (Hd (S j) t').
Qed.

(** ** Every legal call returns *)

Section calls.
Context {c : LRUCache} {ext : loc -> Z} {exts : list (loc -> Z)} (HC : CInv c ext exts).
#[local] Set Default Proof Using "All".

Definition creturns (k : ccall) (r : result) (c' : LRUCache) : Prop :=
  crun k c = Ret (r, c') /\ exists exts', CInv c' (cheld ext k r) exts'.

(** A call of the shard [i] that the cache makes as [m], with [ck] the call of the cache. *)
Lemma shard_call {A} i s e (k : call) (ck : ccall) (m : M A) (cm : CM A) (g : A -> result) :
  shards_ c !! i = Some s -> exts !! i = Some e -> legal s e k ->
  (forall t, run k t = (a ← m; mret (g a)) t) -> (forall t, crun ck t = (a ← cm; mret (g a)) t) -> cm c = GetShard (Z.of_nat i) m c ->
  (forall cap, k <> CSetCapacity cap) ->
  (forall x d, adds k x d -> hash d = HashSlice (key_data d) /\ Z.of_nat i = ShardOf (num_shard_bits_ c) (hash d) /\
     forall t, t ∈ shards_ c -> hdata t !! x = None) ->
  (forall r s' x, run k s = Ret (r, s') -> cheld ext ck r x = ext x - e x + held e k r x) ->
  exists a s', m s = Ret (a, s') /\ creturns ck (g a) (with_shards c (<[i := s']> (shards_ c))).
Proof.
  intros Hs He Hl Hk Hck Hcm Hcap Hadd Hheld.
  assert (reachable s e) as Hr by (by eapply (Forall2_lookup_lr _ _ _ i); [apply (ci_shards _ _ _ HC)| |]).
  destruct (reachable_quiet s e Hr) as (live & low & high & T & HQ). destruct (call_returns HQ k Hl) as (r & s' & E & _).
  pose proof E as Er. rewrite Hk in Er. apply M_bind_inv in Er as (a & s1 & Em & [= <- <-]).
  exists a, s1. split; [done|]. split.
  - rewrite Hck. assert (cm c = Ret (a, with_shards c (<[i := s1]> (shards_ c)))) as Ec by (rewrite Hcm; by apply (GetShard_eq m c i s)).
    by cstep Ec.
  - exists (<[i := held e k (g a)]> exts). eapply CInv_ext; [|by eapply on_shard_inv]. intros x. by eapply Hheld.
Qed.

Lemma ext_le i e x : exts !! i = Some e -> 0 <= e x <= ext x.
Proof.
  intros He. destruct (esum_spec _ _ x (ci_shards _ _ _ HC)) as (_ & H2 & _). rewrite (ci_sum _ _ _ HC). split; [|by eapply H2].
  destruct (Forall2_lookup_r _ _ _ _ _ (ci_shards _ _ _ HC) He) as (s & _ & Hr). apply (ext_in_heap s e x Hr).
Qed.

Lemma KLookup_returns k : clegal c ext (KLookup k) -> exists r c', creturns (KLookup k) r c'.
Proof.
  intros Hl. destruct (key_shard c ext exts k HC) as (i & s & e & Hi & Hs & He & _).
  destruct (shard_call i s e (CLookup k (HashSlice k)) (KLookup k) (Lookup k (HashSlice k)) (cache_Lookup k) RHandle Hs He)
    as (a & s' & _ & Hret); try done; [| | |by eauto].
  - split; [apply (Hash_word k 0)|]. intros x. pose proof (ext_le i e x He). specialize (Hl x). simpl in Hl. lia.
  - unfold cache_Lookup. cstep (eq_refl : cget c = Ret (c, c)). by rewrite Hi.
  - intros r s' x _. simpl. destruct r as [|[p|]|st hd|n|args]; try lia. unfold upd. destruct (decide (x = p)) as [->|]; lia.
Qed.

Lemma KErase_returns k : exists r c', creturns (KErase k) r c'.
Proof.
  destruct (key_shard c ext exts k HC) as (i & s & e & Hi & Hs & He & _).
  destruct (shard_call i s e (CErase k (HashSlice k)) (KErase k) (Erase k (HashSlice k)) (cache_Erase k) (fun _ => RVoid) Hs He)
    as (a & s' & _ & Hret); try done; [| | |by eauto].
  - apply (Hash_word k 0).
  - unfold cache_Erase. cstep (eq_refl : cget c = Ret (c, c)). by rewrite Hi.
  - intros r s' x _. simpl. lia.
Qed.

Lemma KRelease_returns p : clegal c ext (KRelease p) -> exists r c', creturns (KRelease p) r c'.
Proof.
  intros (x & -> & Hx). rewrite (ci_sum _ _ _ HC) in Hx.
  destruct (esum_spec _ _ x (ci_shards _ _ _ HC)) as (_ & _ & H3). destruct (H3 Hx) as (i & s & e & Hs & He & Hp).
  assert (reachable s e) as Hr by (by eapply (Forall2_lookup_lr _ _ _ i); [apply (ci_shards _ _ _ HC)| |]).
  destruct (proj2 (ext_in_heap s e x Hr) Hp) as [d Hd]. destruct (ci_home _ _ _ HC i s Hs x d Hd) as [_ Hi].
  destruct (shard_call i s e (CRelease (Some x)) (KRelease (Some x)) (Release (Some x)) (cache_Release (Some x)) (fun _ => RVoid) Hs He)
    as (a & s' & _ & Hret); try done; [| |by eauto].
  - unfold cache_Release. assert (GetHash (Some x) c = Ret (hash d, c)) as Eh.
    { assert (handle_data (Some x) c = Ret (d, c)) as Ed; [|unfold GetHash; by cstep Ed].
      unfold handle_data. cstep (eq_refl : cget c = Ret (c, c)). by rewrite (heap_at_home c ext exts i s x d HC Hs Hd). }
    cstep Eh. cstep (eq_refl : cget c = Ret (c, c)). by rewrite Hi.
  - intros r s' y _. simpl. unfold upd. destruct (decide (y = x)) as [->|]; lia.
Qed.

Lemma KInsert_returns e0 fl k v ch del want p : clegal c ext (KInsert e0 fl k v ch del want p) ->
  exists r c', creturns (KInsert e0 fl k v ch del want p) r c'.
Proof.
  intros (Hn & Hch & Hall). destruct (key_shard c ext exts k HC) as (i & s & e & Hi & Hs & He & Hr).
  destruct (Hall s) as (Hf & Hu & Hel); [by eapply list_elem_of_lookup_2|]. pose proof (Hash_word k 0) as Hw.
  assert (forall t, t ∈ shards_ c -> hdata t !! e0 = None) as Hfree by (intros t Ht; by apply Hall).
  assert (ext e0 = 0) as H0.
  { rewrite (ci_sum _ _ _ HC). destruct (esum_spec _ _ e0 (ci_shards _ _ _ HC)) as (Hp & _ & H3).
    destruct (decide (0 < esum exts e0)) as [Hx|]; [|lia]. destruct (H3 Hx) as (j & t & e' & Ht & He' & Hpos).
    assert (reachable t e') as Hrt by (by eapply (Forall2_lookup_lr _ _ _ j); [apply (ci_shards _ _ _ HC)| |]).
    destruct (proj2 (ext_in_heap t e' e0 Hrt) Hpos) as [d Hd]. rewrite Hfree in Hd by (by eapply list_elem_of_lookup_2). done. }
  destruct (shard_call i s e (CInsert e0 fl k (HashSlice k) v ch del want p) (KInsert e0 fl k v ch del want p)
    (Insert e0 fl k (HashSlice k) v ch del want p) (cache_Insert e0 fl k v ch del want p) (fun '(st, hd) => RInsert st hd) Hs He)
    as (a & s' & _ & Hret); try done; [| | | | |by eauto].
  - intros t. cbn [run]. apply M_bind_as_ext. by intros [st hd].
  - intros t. cbn [crun]. apply CM_bind_as_ext. by intros [st hd].
  - unfold cache_Insert. cstep (eq_refl : cget c = Ret (c, c)). by rewrite Hi.
  - intros x d [-> ->]. split; [done|]. split; [simpl; by rewrite Hi|done].
  - intros r s' x _. pose proof (ext_le i e e0 He). simpl. destruct r as [|h|st [[q|]|]|n|args]; try lia.
    unfold upd. destruct (decide (x = e0)) as [->|]; lia.
Qed.

Lemma shards_call {A} (k : call) (m : M A) :
  runs k m -> exists rs, for_shards m c = Ret (rs.*1, with_shards c rs.*2) /\
    forall cap st id, (match k with CSetCapacity v => v = per_shard cap (2 ^ num_shard_bits_ c) | _ => cap = cache_capacity_ c end) ->
      CInv (mkCache rs.*2 (num_shard_bits_ c) cap st id) ext exts.
Proof.
  intros Hk. destruct (all_shards_run k m c ext exts HC Hk) as (rs & E & HF). exists rs. split; [done|].
  intros cap st id Hcap. by apply (all_shards_inv k m c ext exts rs cap st id HC Hk HF).
Qed.

Lemma KSetCapacity_returns cap : exists r c', creturns (KSetCapacity cap) r c'.
Proof.
  pose proof (sz_bits _ (ci_sized _ _ _ HC)) as Hb. set (v := per_shard cap (2 ^ num_shard_bits_ c)).
  assert (runs (CSetCapacity v) (SetCapacity v)) as Hk.
  { shard_op (fun _ : unit => RVoid). intros. apply per_shard_range. lia. }
  destruct (shards_call _ _ Hk) as (rs & E & Hinv). eexists RVoid, _. split; [|exists exts; by apply (Hinv cap)].
  cbn [crun]. erewrite CM_bind_ret; [reflexivity|]. unfold cache_SetCapacity. cstep (num_shards_eq c Hb). by cstep E.
Qed.

Lemma KSetStrict_returns b : exists r c', creturns (KSetStrictCapacityLimit b) r c'.
Proof.
  destruct (shards_call (CSetStrictCapacityLimit b) (SetStrictCapacityLimit b)) as (rs & E & Hinv).
  { shard_op (fun _ : unit => RVoid). }
  eexists RVoid, _. split; [|exists exts; by apply (Hinv (cache_capacity_ c))].
  cbn [crun]. erewrite CM_bind_ret; [reflexivity|]. unfold cache_SetStrictCapacityLimit. by cstep E.
Qed.

Lemma KErase_all_returns : exists r c', creturns KEraseUnRefEntries r c'.
Proof.
  destruct (shards_call CEraseUnRefEntries EraseUnRefEntries) as (rs & E & Hinv).
  { shard_op (fun _ : unit => RVoid). }
  eexists RVoid, _. split; [|exists exts; by apply (Hinv (cache_capacity_ c))].
  cbn [crun]. erewrite CM_bind_ret; [reflexivity|]. unfold cache_EraseUnRefEntries. by cstep E.
Qed.

Lemma sizes_call (ck : ccall) (k : call) (m : M Z) :
  runs k m -> (k = CGetUsage \/ k = CGetPinnedUsage) -> crun ck = (n ← (l ← for_shards m; mret (sum_usage l)); mret (RSize n)) ->
  (forall r, cheld ext ck r = ext) -> exists r c', creturns ck r c'.
Proof.
  intros Hk Hcase Hck Hh. destruct (shards_call k m Hk) as (rs & E & Hinv). eexists _, _. split.
  - rewrite Hck. erewrite CM_bind_ret; [reflexivity|]. by cstep E.
  - rewrite Hh. exists exts. apply (Hinv (cache_capacity_ c)). by destruct Hcase as [-> | ->].
Qed.

Lemma KApply_returns : exists r c', creturns KApplyToAllCacheEntries r c'.
Proof.
  destruct (shards_call CApplyToAllCacheEntries ApplyToAllCacheEntries) as (rs & E & Hinv).
  { shard_op RList. }
  eexists _, _. split; [|exists exts; by apply (Hinv (cache_capacity_ c))].
  cbn [crun]. erewrite CM_bind_ret; [reflexivity|]. unfold cache_ApplyToAllCacheEntries. by cstep E.
Qed.

Lemma KNewId_returns : exists r c', creturns KNewId r c'.
Proof.
  eexists _, _. split; [reflexivity|]. exists exts. destruct HC as [[? ?] ? ? ? ? ?]. by constructor.
Qed.

Lemma ccall_returns k : clegal c ext k -> exists r c', creturns k r c'.
Proof.
  destruct k; intros Hl; eauto using KInsert_returns, KLookup_returns, KRelease_returns, KErase_returns,
    KSetCapacity_returns, KSetStrict_returns, KErase_all_returns, KApply_returns, KNewId_returns.
  - apply (sizes_call KGetUsage CGetUsage GetUsage); try done; [shard_op RSize|by left].
  - apply (sizes_call KGetPinnedUsage CGetPinnedUsage GetPinnedUsage); try done; [shard_op RSize|by right].
Qed.
End calls.

Lemma NewLRUCache_inv raw capacity bits strict ratio c : 0 <= bits ->
  NewLRUCache raw capacity bits strict ratio = Ret (Some c) ->
  bits < 20 /\ double_nonneg ratio /\ c = new_cache capacity bits strict ratio.
Proof.
  intros Hb. unfold NewLRUCache. destruct (Z.leb_spec 20 bits); [done|]. destruct (SFltb ratio _ || _) eqn:Er; [done|].
  apply orb_false_iff in Er as [Er _]. assert (double_nonneg ratio) as Hr by (by destruct ratio as [[]|[]| |[] ? ?]).
  rewrite LRUCache_new_eq by done. intros E. rewrite bind_ret in E. injection E as <-. done.
Qed.

Lemma new_cache_inv capacity bits strict ratio : 0 <= bits < 20 -> double_nonneg ratio ->
  CInv (new_cache capacity bits strict ratio) (fun _ => 0) (replicate (Z.to_nat (2 ^ bits)) (fun _ => 0)).
Proof.
  intros Hb Hr. assert (forall i s, shards_ (new_cache capacity bits strict ratio) !! i = Some s -> hdata s = ∅) as He.
  { intros i s Hs. by apply lookup_replicate in Hs as [-> _]. }
  constructor.
  - constructor; simpl; [done|]. apply length_replicate.
  - simpl. apply Forall2_replicate. constructor; [apply per_shard_range; lia|done].
  - intros i s Hs x d Hx. by rewrite (He i s Hs) in Hx.
  - intros x i j s t Hs _ Hx _. rewrite (He i s Hs) in Hx. by destruct Hx.
  - intros x. induction (Z.to_nat (2 ^ bits)) as [|n IH]; simpl; lia.
  - intros s Hs. simpl in Hs |- *. apply list_elem_of_lookup in Hs as [i Hs]. by apply lookup_replicate in Hs as [-> _].
Qed.

Lemma creachable_inv c ext : creachable c ext -> exists exts, CInv c ext exts.
Proof.
  induction 1 as [raw capacity bits strict ratio c Hc Hb E|c ext k r c' _ [exts HC] Hl E].
  - destruct (NewLRUCache_inv _ _ _ _ _ _ Hb E) as (Hb2 & Hr & ->). eexists. by apply new_cache_inv.
  - destruct (ccall_returns HC k Hl) as (r0 & c0 & E0 & Hinv). rewrite E in E0. by simplify_eq.
Qed.
End invariant.

(** ** The properties *)

(** every legal call on a cache that [NewLRUCache] returned comes back: [Release]
    finds the shard of the handle, no assertion fails in it and no memory is misused. *)
Theorem sharded_never_stuck `{Host} c ext k :
  creachable c ext -> clegal c ext k -> exists r c', crun k c = Ret (r, c') /\ creachable c' (cheld ext k r).
Proof.
  intros Hr Hl. destruct (creachable_inv c ext Hr) as [exts HC]. destruct (ccall_returns HC k Hl) as (r & c' & E & _).
  exists r, c'. split; [done|]. by eapply creach_call.
Qed.

Lemma sharded_never_stuck_witness : exists c r c',
  NewLRUCache (fun _ => (7, false, S754_nan, S754_nan)) 10 1 true (S754_zero false) = Ret (Some c) /\
  @crun le_host (KInsert 1 0 (str "k") 100 3 (Some 5) true LOW) c = Ret (r, c').
Proof.
  eexists. destruct (@sharded_never_stuck le_host (new_cache 10 1 true (S754_zero false)) (fun _ => 0)
    (KInsert 1 0 (str "k") 100 3 (Some 5) true LOW)) as (r & c' & E & _).
  - apply (creach_new (fun _ => (7, false, S754_nan, S754_nan)) 10 1 true (S754_zero false)); [lia|lia|vm_compute; reflexivity].
  - split; [done|]. split; [lia|]. intros s Hs. apply list_elem_of_lookup in Hs as [i Hs].
    apply lookup_replicate in Hs as [-> _]. vm_compute. done.
  - exists r, c'. split; [vm_compute; reflexivity|]. rewrite <- E. vm_compute. reflexivity.
Defined.

Definition csum_usage (l : list Shard) : Z := foldr (fun s t => usage_ s + t) 0 l.

Lemma sum_usage_u64 l : sum_usage (map usage_ l) = u64 (csum_usage l).
Proof.
  unfold sum_usage. change 0 with (u64 0). change (csum_usage l) with (0 + csum_usage l). generalize 0 as a.
  induction l as [|s l IH]; intros a; simpl; [by rewrite Z.add_0_r|].
  replace (u64 (u64 a + usage_ s)) with (u64 (a + usage_ s)) by (unfold wrap; by rewrite Z.add_mod_idemp_l). rewrite IH. f_equal. lia.
Qed.

Lemma GetUsage_eq `{Host} c : sized c -> crun KGetUsage c = Ret (RSize (sum_usage (map usage_ (shards_ c))), c).
Proof.
  intros Hsz. cbn [crun]. unfold cache_GetUsage. erewrite CM_bind_ret; [reflexivity|].
  assert (Forall2 (fun s r => GetUsage s = Ret r) (shards_ c) (map (fun s => (usage_ s, s)) (shards_ c))) as HF.
  { clear Hsz. induction (shards_ c); simpl; by constructor. }
  pose proof (for_shards_eq GetUsage c _ Hsz HF) as E. cstep E. f_equal. unfold mret, CM_ret.
  replace ((map (fun s => (usage_ s, s)) (shards_ c)).*1) with (map usage_ (shards_ c)) by (rewrite map_map; done).
  replace ((map (fun s => (usage_ s, s)) (shards_ c)).*2) with (shards_ c) by (rewrite map_map; symmetry; apply map_id).
  by rewrite with_shards_same.
Qed.

(** C18: the capacity is split so that the shards have it all, and less than one unit each
    more; a shard exceeds its part only while clients hold all its handles. [GetUsage] is the sum of
    the usages of all shards (in [size_t]); of a cache that nobody uses it is exactly this
    sum and below the capacity plus the rounding. *)
Theorem sharded_capacity `{Host} c ext :
  creachable c ext -> 0 <= cache_capacity_ c -> cache_capacity_ c + 2 ^ num_shard_bits_ c <= 2 ^ 64 ->
  let parts := foldr (fun s t => capacity_ s + t) 0 (shards_ c) in
  cache_capacity_ c <= parts < cache_capacity_ c + 2 ^ num_shard_bits_ c /\
  (forall s, s ∈ shards_ c -> usage_ s <= capacity_ s \/ forall x, is_Some (hdata s !! x) -> 0 < ext x) /\
  crun KGetUsage c = Ret (RSize (u64 (csum_usage (shards_ c))), c) /\
  ((forall x, ext x = 0) -> u64 (csum_usage (shards_ c)) = csum_usage (shards_ c) /\ 0 <= csum_usage (shards_ c) <= parts).
Proof.
  intros Hr Hc0 Hcb parts. destruct (creachable_inv c ext Hr) as [exts HC]. destruct (ci_sized _ _ _ HC) as [Hb Hl].
  assert (0 < 2 ^ num_shard_bits_ c) as Hn by lia. pose proof (per_shard_bounds (cache_capacity_ c) _ Hn Hc0 ltac:(lia)) as Hps.
  assert (parts = 2 ^ num_shard_bits_ c * per_shard (cache_capacity_ c) (2 ^ num_shard_bits_ c)) as Hparts.
  { assert (parts = zlen (shards_ c) * per_shard (cache_capacity_ c) (2 ^ num_shard_bits_ c)) as ->; [|unfold zlen; rewrite Hl; lia].
    pose proof (ci_cap _ _ _ HC) as Hcap. unfold parts, zlen. clear - Hcap. induction (shards_ c) as [|s l IH]; simpl; [lia|].
    rewrite IH by (intros; apply Hcap; by right). rewrite (Hcap s) by (by left). lia. }
  assert (forall s, s ∈ shards_ c -> 0 <= usage_ s /\ (usage_ s <= capacity_ s \/ forall x, is_Some (hdata s !! x) -> 0 < ext x)) as Hus.
  { intros s Hs. apply list_elem_of_lookup in Hs as [i Hs].
    destruct (Forall2_lookup_l _ _ _ _ _ (ci_shards _ _ _ HC) Hs) as (e & He & Hre).
    destruct (reachable_over s e Hre) as [H0 Hov]. split; [done|]. destruct Hov as [|Hov]; [by left|right]. intros x Hx.
    specialize (Hov x Hx). pose proof (ext_le HC i e x He). lia. }
  split; [lia|]. split; [intros s Hs; by apply Hus|]. split; [by rewrite (GetUsage_eq c (ci_sized _ _ _ HC)), sum_usage_u64|]. intros H0.
  assert (forall s, s ∈ shards_ c -> 0 <= usage_ s <= capacity_ s) as Hfit.
  { intros s Hs. destruct (Hus s Hs) as [Hp [|Hh]]; [done|]. split; [done|]. apply list_elem_of_lookup in Hs as [i Hs].
    destruct (Forall2_lookup_l _ _ _ _ _ (ci_shards _ _ _ HC) Hs) as (e & He & Hre).
    rewrite (reachable_empty s e Hre); [pose proof (ci_cap _ _ _ HC s (list_elem_of_lookup_2 _ _ _ Hs)) as ->; apply per_shard_range; lia|].
    intros x. destruct (hdata s !! x) as [d|] eqn:Hx; [|done]. specialize (Hh x (ex_intro _ d Hx)). rewrite H0 in Hh. lia. }
  assert (0 <= csum_usage (shards_ c) <= parts) as Hsum.
  { unfold parts. clear - Hfit. induction (shards_ c) as [|s l IH]; simpl; [lia|].
    pose proof (Hfit s ltac:(by left)). destruct IH; [intros; apply Hfit; by right|]. lia. }
  split; [apply u64_small; lia|done].
Qed.

Lemma sharded_capacity_witness :
  @crun le_host KGetUsage (new_cache 10 2 true (S754_zero false)) =
    Ret (RSize (csum_usage (shards_ (new_cache 10 2 true (S754_zero false)))), new_cache 10 2 true (S754_zero false)).
Proof.
  destruct (@sharded_capacity le_host (new_cache 10 2 true (S754_zero false)) (fun _ => 0)) as (_ & _ & Hu & Hn); [|simpl; lia|simpl; lia|].
  - apply (creach_new (fun _ => (7, false, S754_nan, S754_nan)) 10 2 true (S754_zero false)); [lia|lia|vm_compute; reflexivity].
  - destruct (Hn (fun _ => eq_refl)) as [E _]. rewrite Hu, E. reflexivity.
Defined.
