(* ===== verification/LruCacheExample.v ===== *)
(** * LruCacheExample ([examples/lru_cache_example.cc])

    The example of the cache: 86 entities, of which every other one is held, then released; then a
    lookup of each. The program is executed. *)

From Stdlib Require Import Strings.Byte Strings.String Floats.SpecFloat.
From stdpp Require Import gmap pretty.
From S2P Require Import Prelude.
From S2P Require Import Slice.
From S2P Require Import Coding.
From S2P Require Import Status.
From S2P Require Import LruCache.
From S2P Require Import ShardedCache.

(** ** The program *)

(** What it prints. *)
Inductive cache_line : Type :=
| LInsert (i : Z) (s : Status) (capacity usage pinned : Z) | LHit (i num : Z) | LMiss (i : Z) | LDestruct (num : Z).

Section program.
Context `{Host}.

(** [std::to_string(i)]. *)
Definition to_string (i : Z) : Slice := str (pretty (Z.to_N i)).

(** [Deleter] deletes the [Entity], whose destructor prints. The value of an entry is the number of
    its entity. *)
Definition Deleter : Z := 1.
Definition destructed (c c' : LRUCache) : list cache_line :=
  concat (zip_with (fun s s' => (fun d => LDestruct (del_value d)) <$> drop (length (deletions s)) (deletions s')) (shards_ c) (shards_ c')).
Definition printing {A} (m : CM A) : CM (A * list cache_line) :=
  c ← cget; a ← m; c' ← cget; mret (a, destructed c c').

(** The first loop, from [i] on, with [n] turns to go: what is printed, and [handles]. The handle of
    the entry [i] is at the address [i + 1]. *)
Fixpoint insert_loop (n : nat) (i : Z) : CM (list cache_line * list ptr) :=
  match n with
  | O => mret ([], [])
  | S n' =>
      '(r, d) ← printing (cache_Insert (i + 1) 0 (to_string i) i 1 (Some Deleter) (i `mod` 2 =? 0) LOW);
      let '(s, handle) := r in
      capacity ← GetCapacity;
      usage ← cache_GetUsage;
      pinned ← cache_GetPinnedUsage;
      '(l, handles) ← insert_loop n' (i + 1);
      mret (d ++ [LInsert i s capacity usage pinned] ++ l, (match handle with Some h => [h] | None => [] end) ++ handles)
  end.

(** The second loop. *)
Fixpoint release_loop (handles : list ptr) : CM (list cache_line) :=
  match handles with
  | [] => mret []
  | h :: handles' => '(_, d) ← printing (cache_Release h); l ← release_loop handles'; mret (d ++ l)
  end.

(** The third loop. *)
Fixpoint lookup_loop (n : nat) (i : Z) : CM (list cache_line) :=
  match n with
  | O => mret []
  | S n' =>
      handle ← cache_Lookup (to_string i);
      l ← (match handle with
           | None => mret [LMiss i]
           | Some _ => num ← Value handle; '(_, d) ← printing (cache_Release handle); mret (LHit i num :: d)
           end);
      l' ← lookup_loop n' (i + 1);
      mret (l ++ l')
  end.

(** [main]; at the end the destructor of [lru_cache] destroys the shards. *)
Definition lru_cache_main : CM (list cache_line * list cache_line * list cache_line * list cache_line) :=
  '(l1, handles) ← insert_loop 86 0;
  l2 ← release_loop handles;
  l3 ← lookup_loop 86 0;
  '(_, l4) ← printing (for_shards LRUHandleTable_delete);
  mret (l1, l2, l3, l4).
End program.

(** ** Its run *)

#[local] Existing Instance le_host.

Definition lru_cache_run : outcome (list cache_line * list cache_line * list cache_line * list cache_line) :=
  c ← NewLRUCache (fun _ => (0, false, S754_zero false, S754_zero false)) 64 6 false (S754_zero false);
  match c with
  | Some c => '(l, _) ← lru_cache_main c; Ret l
  | None => Undef
  end.

#[export] Instance cache_line_eq_dec : EqDecision cache_line.
Proof. solve_decision. Defined.

Definition destroyed (l : list cache_line) : list Z := omap (fun x => match x with LDestruct i => Some i | _ => None end) l.

(** What each line has to be: the capacity is 64, what is held is pinned and counted once; a hit gives the entity of
    its key. *)
Definition insert_line (x : cache_line) : bool :=
  match x with
  | LInsert i s capacity usage pinned =>
      ok s && (capacity =? 64) && (pinned =? i `div` 2 + 1) && (pinned <=? usage) && (usage <=? Z.min 64 (i + 1))
  | LDestruct i => 0 <=? i
  | _ => false
  end.
Definition lookup_line (gone : list Z) (x : cache_line) : bool :=
  match x with
  | LHit i num => (num =? i) && negb (bool_decide (i ∈ gone))
  | LMiss i => bool_decide (i ∈ gone)
  | _ => false
  end.

(** The program ends. All insertions are accepted, within the capacity. A lookup misses the entities that have been destroyed
    before it, and only those; it destroys none. At the end each of the 86 entities has been destroyed, once. *)
Definition expected (r : list cache_line * list cache_line * list cache_line * list cache_line) : Prop :=
  let '(l1, l2, l3, l4) := r in
  Forall (fun x => insert_line x = true) l1 /\
  Forall (fun x => lookup_line (destroyed (l1 ++ l2)) x = true) l3 /\ length l3 = 86%nat /\
  destroyed (l1 ++ l2 ++ l3 ++ l4) ≡ₚ seqZ 0 86.
#[export] Instance expected_dec r : Decision (expected r).
Proof. destruct r as [[[l1 l2] l3] l4]. unfold expected. apply _. Defined.

Lemma lru_cache_example : exists r, lru_cache_run = Ret r /\ expected r.
Proof.
  assert (match lru_cache_run with Ret r => bool_decide (expected r) | _ => false end = true) as H by (vm_compute; reflexivity).
  destruct lru_cache_run as [r| | |]; try discriminate H. exists r. split; [reflexivity|]. by apply bool_decide_eq_true in H.
Qed.
