(* ===== verification/ThreadPool.v ===== *)
(** * ThreadPool ([rutil/threadpool_imp.h], [rutil/threadpool_imp.cc])

    The pool as an interleaving machine. A turn of the machine is what one thread does from
    taking the mutex to giving it back (or to waiting on the condition variable), a call of
    a scheduled function, or one [pthread_join]; turns of different threads interleave in
    any order. The choices of the operating system are arguments: the handles that
    [pthread_create] returns and the threads that a signal wakes. *)

From stdpp Require Import list gmap.
From S2P Require Import Prelude.

(** ** The state *)

Definition pthread_t : Type := positive.

(** [BGItem]; functions and pointers are numbers. *)
Record BGItem : Type := mkItem {
  arg : Z;
  function : Z;
  tag : Z;
  unschedFunction : option Z;
}.

(** Where a background thread is: at a [lock] (at the head of its loop or woken from its
    wait), in [ConditionWait], behind [unlock] with an item to run, or returned. *)
Inductive position : Type :=
| Locking
| Waiting
| Running (decrease_io_priority : bool) (item : BGItem)
| Exited.

(** A thread: the parameter of [BGThread], its local variable, where it is, and whether it
    has been detached. *)
Record Thread : Type := mkThread {
  thread_id : Z;
  low_io_priority : bool;
  at_ : position;
  detached : bool;
}.

(** The members, the threads of the system that belong to the pool and are not reaped yet,
    and what is left to join when [JoinAllThreads] is running. *)
Record Pool : Type := mkPool {
  total_threads_limit_ : Z;
  bgthreads_ : list pthread_t;
  queue_ : list BGItem;
  queue_len_ : Z;
  exit_all_threads_ : bool;
  low_io_priority_ : bool;
  priority_ : Z;
  env_ : Z;
  threads : gmap pthread_t Thread;
  joining : option (list pthread_t);
}.

Definition set_limit (p : Pool) x := mkPool x (bgthreads_ p) (queue_ p) (queue_len_ p) (exit_all_threads_ p)
  (low_io_priority_ p) (priority_ p) (env_ p) (threads p) (joining p).
Definition set_threads (p : Pool) bg th := mkPool (total_threads_limit_ p) bg (queue_ p) (queue_len_ p)
  (exit_all_threads_ p) (low_io_priority_ p) (priority_ p) (env_ p) th (joining p).
(** The queue is always stored with its length. *)
Definition set_queue (p : Pool) q := mkPool (total_threads_limit_ p) (bgthreads_ p) q (u32 (zlen q))
  (exit_all_threads_ p) (low_io_priority_ p) (priority_ p) (env_ p) (threads p) (joining p).
Definition set_flags (p : Pool) ex lo := mkPool (total_threads_limit_ p) (bgthreads_ p) (queue_ p) (queue_len_ p)
  ex lo (priority_ p) (env_ p) (threads p) (joining p).
Definition set_joining (p : Pool) j := mkPool (total_threads_limit_ p) (bgthreads_ p) (queue_ p) (queue_len_ p)
  (exit_all_threads_ p) (low_io_priority_ p) (priority_ p) (env_ p) (threads p) j.
Definition set_host (p : Pool) pr en := mkPool (total_threads_limit_ p) (bgthreads_ p) (queue_ p) (queue_len_ p)
  (exit_all_threads_ p) (low_io_priority_ p) pr en (threads p) (joining p).

Definition with_at (th : Thread) (a : position) : Thread :=
  mkThread (thread_id th) (low_io_priority th) a (detached th).
Definition put_thread (p : Pool) (t : pthread_t) (th : Thread) : Pool :=
  set_threads p (bgthreads_ p) (<[t := th]> (threads p)).

(** What happens: items enter the queue, leave it to a thread, run, or are cancelled with a
    call of their [unschedFunction]; [ioprio_set]. *)
Inductive event : Type :=
| Enqueued (i : BGItem)
| Dequeued (t : pthread_t) (i : BGItem)
| Ran (t : pthread_t) (i : BGItem)
| Cancelled (i : BGItem)
| LoweredIO (t : pthread_t).

(** ** The condition variable *)

Definition is_waiting (th : Thread) : bool := match at_ th with Waiting => true | _ => false end.
Definition wake_thread (th : Thread) : Thread := if is_waiting th then with_at th Locking else th.
Definition wake_map (woken : pthread_t -> bool) (m : gmap pthread_t Thread) : gmap pthread_t Thread :=
  map_imap (fun t th => Some (if woken t then wake_thread th else th)) m.
Definition wake (woken : pthread_t -> bool) (p : Pool) : Pool :=
  set_threads p (bgthreads_ p) (wake_map woken (threads p)).
Definition ConditionSignal (woken : gset pthread_t) : Pool -> Pool := wake (fun t => bool_decide (t ∈ woken)).
Definition WakeUpAllThreads : Pool -> Pool := wake (fun _ => true).

(** ** The code *)

(** The constructor leaves [priority_] uninitialised. *)
Definition ThreadPoolImpl_new (priority0 : Z) : Pool := mkPool 1 [] [] 0 false false priority0 0 ∅ None.

Definition HasExcessiveThread (p : Pool) : bool := total_threads_limit_ p <? swrap 32 (zlen (bgthreads_ p)).
Definition IsLastExcessiveThread (p : Pool) (id : Z) : bool :=
  HasExcessiveThread p && (id =? u64 (zlen (bgthreads_ p) - 1)).
Definition IsExcessiveThread (p : Pool) (id : Z) : bool := total_threads_limit_ p <=? swrap 32 id.

(** A thread starts at its first [lock]. *)
Definition start_thread (p : Pool) (t : pthread_t) : Pool :=
  set_threads p (bgthreads_ p ++ [t]) (<[t := mkThread (zlen (bgthreads_ p)) false Locking false]> (threads p)).

(** [ts] are the handles that [pthread_create] returns, in order; [PthreadCall] aborts when
    it has none to return. *)
Fixpoint StartBGThreads (ts : list pthread_t) (p : Pool) : outcome Pool :=
  if swrap 32 (zlen (bgthreads_ p)) <? total_threads_limit_ p then
    match ts with
    | [] => AssertFail
    | t :: ts' => StartBGThreads ts' (start_thread p t)
    end
  else Ret p.

Definition SetBackgroundThreadsInternal (ts : list pthread_t) (num : Z) (allow_reduce : bool) (p : Pool) : outcome Pool :=
  if exit_all_threads_ p then Ret p
  else if (total_threads_limit_ p <? num) || ((num <? total_threads_limit_ p) && allow_reduce) then
    StartBGThreads ts (WakeUpAllThreads (set_limit p (Z.max 1 num)))
  else Ret p.
Definition IncBackgroundThreadsIfNeeded ts num := SetBackgroundThreadsInternal ts num false.
Definition SetBackgroundThreads ts num := SetBackgroundThreadsInternal ts num true.
Definition NewThreadPool (priority0 : Z) ts num : outcome Pool := SetBackgroundThreads ts num (ThreadPoolImpl_new priority0).

Definition Schedule (ts : list pthread_t) (woken : gset pthread_t) (item : BGItem) (p : Pool) : outcome (list event * Pool) :=
  if exit_all_threads_ p then Ret ([], p)
  else
    p ← StartBGThreads ts p;
    let p := set_queue p (queue_ p ++ [item]) in
    let p := if negb (HasExcessiveThread p) then ConditionSignal woken p else WakeUpAllThreads p in
    Ret ([Enqueued item], p).

(** The loop of [UnSchedule]: the events, the queue that is left, and [count], an [int].
    The event of an item tells the call of [unschedFunction], if it has one. *)
Fixpoint UnSchedule_loop (q : list BGItem) (a count : Z) : outcome (list event * list BGItem * Z) :=
  match q with
  | [] => Ret ([], [], count)
  | i :: q' =>
      if a =? tag i then
        if count =? 2147483647 then Undef
        else
          '(es, q', count) ← UnSchedule_loop q' a (count + 1);
          Ret (Cancelled i :: es, q', count)
      else
        '(es, q', count) ← UnSchedule_loop q' a count;
        Ret (es, i :: q', count)
  end.
Definition UnSchedule (a : Z) (p : Pool) : outcome (Z * list event * Pool) :=
  '(es, q, count) ← UnSchedule_loop (queue_ p) a 0;
  Ret (count, es, set_queue p q).

Definition LowerIOPriority (p : Pool) : Pool := set_flags p (exit_all_threads_ p) true.
Definition GetQueueLen (p : Pool) : Z := queue_len_ p.
Definition SetHostEnv (p : Pool) (e : Z) : Pool := set_host p (priority_ p) e.
Definition GetHostEnv (p : Pool) : Z := env_ p.
Definition SetThreadPriority (p : Pool) (pr : Z) : Pool := set_host p pr (env_ p).
Definition GetThreadPriority (p : Pool) : Z := priority_ p.

(** A thread returns from [BGThread]: a detached one is gone, one that is not can be
    joined. *)
Definition thread_exit (p : Pool) (t : pthread_t) (th : Thread) : Pool :=
  if detached th then set_threads p (bgthreads_ p) (delete t (threads p))
  else put_thread p t (with_at th Exited).

(** [ThreadDetach]: only an existing thread that has not been detached may be. *)
Definition ThreadDetach (t : pthread_t) (p : Pool) : outcome Pool :=
  match threads p !! t with
  | Some th => if detached th then Undef
               else Ret (put_thread p t (mkThread (thread_id th) (low_io_priority th) (at_ th) true))
  | None => Undef
  end.

(** The last excessive thread leaves. *)
Definition terminate_last (t : pthread_t) (p : Pool) : outcome Pool :=
  match list.last (bgthreads_ p) with
  | None => Undef
  | Some terminating_thread =>
      p ← ThreadDetach terminating_thread p;
      let p := set_threads p (removelast (bgthreads_ p)) (threads p) in
      let p := if HasExcessiveThread p then WakeUpAllThreads p else p in
      match threads p !! t with
      | Some th => Ret (thread_exit p t th)
      | None => Undef
      end
  end.

(** The critical section of [BGThread], from taking the mutex to the wait, the [break] or
    the [unlock] before the call. *)
Definition BGThread_locked (t : pthread_t) (th : Thread) (p : Pool) : outcome (list event * Pool) :=
  let id := thread_id th in
  if negb (exit_all_threads_ p) && negb (IsLastExcessiveThread p id) &&
     (bool_decide (queue_ p = []) || IsExcessiveThread p id)
  then Ret ([], put_thread p t (with_at th Waiting))
  else if exit_all_threads_ p then Ret ([], thread_exit p t th)
  else if IsLastExcessiveThread p id then p ← terminate_last t p; Ret ([], p)
  else
    match queue_ p with
    | [] => Undef
    | item :: q =>
        let p := set_queue p q in
        let decrease_io_priority := negb (Bool.eqb (low_io_priority th) (low_io_priority_ p)) in
        Ret ([Dequeued t item], put_thread p t (with_at th (Running decrease_io_priority item)))
    end.

(** What follows the [unlock]. *)
Definition BGThread_run (t : pthread_t) (th : Thread) (decrease_io_priority : bool) (item : BGItem) (p : Pool)
  : list event * Pool :=
  let th' := mkThread (thread_id th) (if decrease_io_priority then true else low_io_priority th) Locking (detached th) in
  ((if decrease_io_priority then [LoweredIO t] else []) ++ [Ran t item], put_thread p t th').

(** A turn of thread [t]; [None] when it cannot move by itself. *)
Definition BGThread (t : pthread_t) (p : Pool) : outcome (option (list event * Pool)) :=
  match threads p !! t with
  | None => Ret None
  | Some th =>
      match at_ th with
      | Locking => r ← BGThread_locked t th p; Ret (Some r)
      | Running d item => Ret (Some (BGThread_run t th d item p))
      | Waiting | Exited => Ret None
      end
  end.

(** [JoinAllThreads]: the critical section, then the loop over [bgthreads_], which waits for
    each thread, then [clear]. *)
Definition JoinAllThreads (p : Pool) : outcome Pool :=
  if exit_all_threads_ p then AssertFail
  else Ret (set_joining (WakeUpAllThreads (set_flags p true (low_io_priority_ p))) (Some (bgthreads_ p))).
Definition ThreadJoin (t : pthread_t) (p : Pool) : outcome (option Pool) :=
  match threads p !! t with
  | None => Undef
  | Some th =>
      if detached th then Undef
      else match at_ th with
           | Exited => Ret (Some (set_threads p (bgthreads_ p) (delete t (threads p))))
           | _ => Ret None
           end
  end.
Definition JoinAllThreads_next (p : Pool) : outcome (option Pool) :=
  match joining p with
  | None => Ret None
  | Some [] => Ret (Some (set_joining (set_threads p [] (threads p)) None))
  | Some (t :: l) =>
      r ← ThreadJoin t p;
      Ret (match r with Some p => Some (set_joining p (Some l)) | None => None end)
  end.

(** The destructor. *)
Definition ThreadPoolImpl_delete (p : Pool) : outcome unit :=
  if zlen (bgthreads_ p) =? 0 then Ret tt else AssertFail.
