(* ===== verification/ThreadPoolInv.v ===== *)
(** * ThreadPoolInv: the machine of the thread pool and its invariant

    The turns of the machine, what the system promises about them, and the invariant that
    they keep: [bgthreads_] lists the live threads by their [thread_id], and no wake-up is
    lost. *)

From stdpp Require Import list gmap.
From S2P Require Import Prelude.
From S2P Require Import ThreadPool.

(** ** The machine *)

Inductive action : Type :=
| ASchedule (ts : list pthread_t) (woken : gset pthread_t) (item : BGItem)
| AUnSchedule (a : Z)
| ASetBackgroundThreads (ts : list pthread_t) (num : Z) (allow_reduce : bool)
| ALowerIOPriority
| AJoinAllThreads
| AJoinNext
| AThread (t : pthread_t)
| ASpuriousWakeup (t : pthread_t).

(** One turn; [None] when it has to wait. *)
Definition perform (a : action) (p : Pool) : outcome (option (list event * Pool)) :=
  match a with
  | ASchedule ts woken item => r ← Schedule ts woken item p; Ret (Some r)
  | AUnSchedule a => '(_, es, p) ← UnSchedule a p; Ret (Some (es, p))
  | ASetBackgroundThreads ts num allow => p ← SetBackgroundThreadsInternal ts num allow p; Ret (Some ([], p))
  | ALowerIOPriority => Ret (Some ([], LowerIOPriority p))
  | AJoinAllThreads => p ← JoinAllThreads p; Ret (Some ([], p))
  | AJoinNext => r ← JoinAllThreads_next p; Ret (match r with Some p => Some ([], p) | None => None end)
  | AThread t => BGThread t p
  | ASpuriousWakeup t => Ret (Some ([], wake (fun t' => bool_decide (t' = t)) p))
  end.

(** [pthread_create] gives handles that are not in use, as many as are asked for. *)
Definition fresh_handles (ts : list pthread_t) (limit : Z) (p : Pool) : Prop :=
  NoDup ts /\ (forall t, t ∈ ts -> threads p !! t = None) /\ limit - zlen (bgthreads_ p) <= zlen ts.
(** A signal wakes at least one of the threads that wait. *)
Definition signal_wakes (woken : gset pthread_t) (p : Pool) : Prop :=
  (exists t th, threads p !! t = Some th /\ is_waiting th = true) ->
  exists t th, t ∈ woken /\ threads p !! t = Some th /\ is_waiting th = true.

(** What the system and the callers promise: an [int] is an [int], [count] in
    [UnSchedule] does not overflow, [JoinAllThreads] is called once. *)
Definition allowed (a : action) (p : Pool) : Prop :=
  match a with
  | ASchedule ts woken _ => fresh_handles ts (total_threads_limit_ p) p /\ signal_wakes woken p
  | AUnSchedule _ => zlen (queue_ p) < 2 ^ 31
  | ASetBackgroundThreads ts num _ => num < 2 ^ 31 /\ fresh_handles ts (Z.max 1 num) p
  | AJoinAllThreads => exit_all_threads_ p = false
  | _ => True
  end.

Definition pool_step (a : action) (es : list event) (p p' : Pool) : Prop :=
  allowed a p /\ perform a p = Ret (Some (es, p')).

(** A run of the pool: the events and where it leads. *)
Inductive pool_run (p : Pool) : list event -> Pool -> Prop :=
| run_start : pool_run p [] p
| run_step es p1 a es' p2 : pool_run p es p1 -> pool_step a es' p1 p2 -> pool_run p (es ++ es') p2.

(** ** The invariant *)

Definition alive (p : Pool) : list pthread_t :=
  match joining p with Some l => l | None => bgthreads_ p end.

Record pool_wf (p : Pool) : Prop := {
  wf_limit : 1 <= total_threads_limit_ p < 2147483648;
  wf_size : zlen (bgthreads_ p) < 2147483648;
  wf_len : queue_len_ p = u32 (zlen (queue_ p));
  wf_nodup : NoDup (bgthreads_ p);
  wf_thread : forall t th, threads p !! t = Some th -> detached th = false /\ 0 <= thread_id th /\
    bgthreads_ p !! Z.to_nat (thread_id th) = Some t;
  wf_alive : forall t, t ∈ alive p <-> is_Some (threads p !! t);
  wf_running : exit_all_threads_ p = false -> joining p = None /\
    forall t th, threads p !! t = Some th -> at_ th <> Exited;
  wf_exiting : exit_all_threads_ p = true -> forall t th, threads p !! t = Some th -> is_waiting th = false;
  wf_joining : forall l, joining p = Some l -> NoDup l;
  wf_joined : exit_all_threads_ p = true -> joining p = None -> bgthreads_ p = [];
}.

(** A thread with number [id] that is not in [ConditionWait]. *)
Definition awake (p : Pool) (t : pthread_t) (id : Z) : Prop :=
  exists th, threads p !! t = Some th /\ thread_id th = id /\ is_waiting th = false.

(** Work is seen by a thread that may do it, and excess by the thread that has to leave. *)
Definition no_lost_wakeup (p : Pool) : Prop :=
  exit_all_threads_ p = false ->
  (queue_ p <> [] -> exists t id, awake p t id /\ id < total_threads_limit_ p) /\
  (HasExcessiveThread p = true -> exists t, awake p t (zlen (bgthreads_ p) - 1)).

Definition pool_ok (p : Pool) : Prop := pool_wf p /\ no_lost_wakeup p.

(** ** Numbers *)

Lemma swrap_int x : 0 <= x < 2147483648 -> swrap 32 x = x.
Proof. intros. unfold swrap. change (2 ^ (32 - 1)) with 2147483648. change (2 ^ 32) with 4294967296. rewrite Z.mod_small; lia. Qed.

Section facts.
Context (p : Pool) (Hwf : pool_wf p).

Lemma has_excessive : HasExcessiveThread p = (total_threads_limit_ p <? zlen (bgthreads_ p)).
Proof using All. unfold HasExcessiveThread. pose proof (zlen_nonneg (bgthreads_ p)). pose proof (wf_size _ Hwf). by rewrite swrap_int by lia. Qed.

Lemma thread_id_bound t th : threads p !! t = Some th -> 0 <= thread_id th < zlen (bgthreads_ p).
Proof using All. intros (_ & H0 & Hl%lookup_lt_Some)%(wf_thread _ Hwf). unfold zlen. lia. Qed.

Lemma thread_id_unique t th t' th' : threads p !! t = Some th -> threads p !! t' = Some th' ->
  thread_id th = thread_id th' -> t = t'.
Proof using All. intros (_ & _ & H1)%(wf_thread _ Hwf) (_ & _ & H2)%(wf_thread _ Hwf) E. rewrite E in H1. congruence. Qed.

Lemma is_last t th : threads p !! t = Some th ->
  IsLastExcessiveThread p (thread_id th) =
  (total_threads_limit_ p <? zlen (bgthreads_ p)) && (thread_id th =? zlen (bgthreads_ p) - 1).
Proof using All.
  intros Ht%thread_id_bound. unfold IsLastExcessiveThread. rewrite has_excessive.
  pose proof (wf_size _ Hwf). by rewrite u64_small by lia.
Qed.

Lemma is_excessive t th : threads p !! t = Some th -> IsExcessiveThread p (thread_id th) = (total_threads_limit_ p <=? thread_id th).
Proof using All. intros Ht%thread_id_bound. unfold IsExcessiveThread. pose proof (wf_size _ Hwf). by rewrite swrap_int by lia. Qed.

Lemma nth_thread i : exit_all_threads_ p = false -> 0 <= i < zlen (bgthreads_ p) ->
  exists t th, threads p !! t = Some th /\ thread_id th = i.
Proof using All.
  intros He Hi. destruct (lookup_lt_is_Some_2 (bgthreads_ p) (Z.to_nat i)) as [t Ht]; [unfold zlen in Hi; lia|].
  assert (t ∈ alive p) as Ha.
  { unfold alive. destruct (wf_running _ Hwf He) as [-> _]. by eapply list_elem_of_lookup_2. }
  apply (wf_alive _ Hwf) in Ha as [th Hth]. exists t, th. split; [done|].
  destruct (wf_thread _ Hwf _ _ Hth) as (_ & H0 & Hl).
  pose proof (NoDup_lookup _ _ _ _ (wf_nodup _ Hwf) Ht Hl). lia.
Qed.
End facts.

(** ** Waking *)

Lemma wake_lookup f m t : wake_map f m !! t = (fun th => if f t then wake_thread th else th) <$> m !! t.
Proof. unfold wake_map. rewrite map_lookup_imap. by destruct (m !! t). Qed.

Lemma woken_thread (b : bool) th :
  thread_id (if b then wake_thread th else th) = thread_id th /\ detached (if b then wake_thread th else th) = detached th /\
  (is_waiting th = false -> (if b then wake_thread th else th) = th) /\
  (at_ th <> Exited -> at_ (if b then wake_thread th else th) <> Exited).
Proof. unfold wake_thread. destruct b, th as [? ? [] ?]; naive_solver. Qed.

Lemma wake_thread_awake th : is_waiting (wake_thread th) = false.
Proof. unfold wake_thread. by destruct th as [? ? [] ?]. Qed.

Lemma wake_awake f p t id : awake p t id -> awake (wake f p) t id.
Proof.
  intros (th & Ht & Hid & Hw). exists th. simpl. rewrite wake_lookup, Ht. simpl.
  by destruct (woken_thread (f t) th) as (_ & _ & -> & _).
Qed.

Lemma wake_wf f p : pool_wf p -> pool_wf (wake f p).
Proof.
  intros Hwf. pose proof Hwf as []. constructor; simpl; try done.
  - intros t th. rewrite wake_lookup. intros (th0 & Ht & ->)%fmap_Some.
    destruct (woken_thread (f t) th0) as (-> & -> & _). by apply wf_thread0.
  - intros t. rewrite wake_lookup, fmap_is_Some. apply wf_alive0.
  - intros He. destruct (wf_running0 He) as [Hj Hx]. split; [done|].
    intros t th. rewrite wake_lookup. intros (th0 & Ht & ->)%fmap_Some.
    destruct (woken_thread (f t) th0) as (_ & _ & _ & H). eauto.
  - intros He t th. rewrite wake_lookup. intros (th0 & Ht & ->)%fmap_Some.
    destruct (woken_thread (f t) th0) as (_ & _ & -> & _); eauto.
Qed.

Lemma wake_ok f p : pool_ok p -> pool_ok (wake f p).
Proof.
  intros [Hwf Hn]. split; [by apply wake_wf|]. intros He. destruct (Hn He) as [Hq Hl]. split.
  - intros (t & id & Ha & Hid)%Hq. exists t, id. split; [by apply wake_awake|done].
  - intros (t & Ha)%Hl. exists t. by apply wake_awake.
Qed.

(** When nobody waits, no wake-up is lost. *)
Definition all_awake (p : Pool) : Prop := forall t th, threads p !! t = Some th -> is_waiting th = false.

Lemma WakeUpAllThreads_awake p : all_awake (WakeUpAllThreads p).
Proof.
  intros t th. simpl. rewrite wake_lookup. intros (th0 & _ & ->)%fmap_Some. apply wake_thread_awake.
Qed.

Lemma all_awake_ok p : pool_wf p -> all_awake p -> 0 < zlen (bgthreads_ p) -> pool_ok p.
Proof.
  intros Hwf Ha Hs. split; [done|]. intros He. pose proof (wf_limit _ Hwf). split.
  - intros _. destruct (nth_thread p Hwf 0 He) as (t & th & Ht & Hi); [lia|].
    exists t, 0. split; [|lia]. exists th. eauto.
  - intros _. destruct (nth_thread p Hwf (zlen (bgthreads_ p) - 1) He) as (t & th & Ht & Hi); [lia|].
    exists t, th. eauto.
Qed.

(** ** The parts of the operations *)

Lemma put_thread_wf p t th th' : pool_wf p -> threads p !! t = Some th ->
  thread_id th' = thread_id th -> detached th' = false ->
  (exit_all_threads_ p = false -> at_ th' <> Exited) -> (exit_all_threads_ p = true -> is_waiting th' = false) ->
  pool_wf (put_thread p t th').
Proof.
  intros [] Ht Hi Hd Hr He. constructor; simpl; try done.
  - intros t1 th1 [[<- <-]|[_ H]]%lookup_insert_Some; [rewrite Hi, Hd|]; [|by apply wf_thread0].
    split; [done|]. by apply wf_thread0.
  - intros t1. rewrite lookup_insert_is_Some. rewrite (wf_alive0 t1). split; [|naive_solver].
    destruct (decide (t = t1)); eauto.
  - intros Hx. destruct (wf_running0 Hx) as [Hj Hn]. split; [done|].
    intros t1 th1 [[<- <-]|[_ H]]%lookup_insert_Some; eauto.
  - intros Hx t1 th1 [[<- <-]|[_ H]]%lookup_insert_Some; eauto.
Qed.

Lemma set_queue_wf p q : pool_wf p -> pool_wf (set_queue p q).
Proof. intros []. by constructor. Qed.

Lemma set_limit_wf p n : pool_wf p -> 1 <= n < 2147483648 -> pool_wf (set_limit p n).
Proof. intros []. by constructor. Qed.

Lemma start_thread_wf p t : pool_wf p -> exit_all_threads_ p = false -> threads p !! t = None ->
  zlen (bgthreads_ p) < 2147483647 -> pool_wf (start_thread p t).
Proof.
  intros Hwf He Ht Hs. pose proof Hwf as []. destruct (wf_running0 He) as [Hj Hr].
  assert (t ∉ bgthreads_ p) as Hn.
  { intros Hin. apply eq_None_not_Some in Ht. apply Ht, wf_alive0. unfold alive. by rewrite Hj. }
  pose proof (zlen_nonneg (bgthreads_ p)).
  constructor; simpl; try done.
  - rewrite zlen_app, zlen_cons, zlen_nil. lia.
  - apply list.NoDup_app. split; [done|]. split; [|apply NoDup_singleton]. by intros x Hx ->%list_elem_of_singleton.
  - intros t1 th1 [[<- <-]|[_ H1]]%lookup_insert_Some; simpl.
    + split; [done|]. split; [done|]. unfold zlen. rewrite Nat2Z.id. apply list_lookup_middle. done.
    + destruct (wf_thread0 _ _ H1) as (? & ? & Hl). do 2 (split; [done|]). by apply lookup_app_l_Some.
  - intros t1. rewrite lookup_insert_is_Some. unfold alive in *. simpl. rewrite Hj in *.
    rewrite elem_of_app, list_elem_of_singleton, wf_alive0. destruct (decide (t = t1)); naive_solver.
  - intros _. split; [done|]. intros t1 th1 [[<- <-]|[_ H1]]%lookup_insert_Some; eauto.
  - intros Hx. congruence.
  - intros Hx. congruence.
Qed.

(** What [StartBGThreads] leaves: as many threads as the limit asks for, the new ones
    awake. *)
Record started (p p' : Pool) : Prop := {
  st_wf : pool_wf p';
  st_exit : exit_all_threads_ p' = false;
  st_limit : total_threads_limit_ p' = total_threads_limit_ p;
  st_queue : queue_ p' = queue_ p;
  st_size : zlen (bgthreads_ p') = Z.max (total_threads_limit_ p) (zlen (bgthreads_ p));
  st_old : forall t th, threads p !! t = Some th -> threads p' !! t = Some th;
  st_new : forall t th, threads p' !! t = Some th -> threads p !! t = Some th \/ is_waiting th = false /\ at_ th = Locking;
}.

Lemma StartBGThreads_spec ts p : pool_wf p -> exit_all_threads_ p = false ->
  fresh_handles ts (total_threads_limit_ p) p -> exists p', StartBGThreads ts p = Ret p' /\ started p p'.
Proof.
  revert p. induction ts as [|t ts IH]; intros p Hwf He (Hnd & Hf & Hl).
  all: pose proof (wf_size _ Hwf); pose proof (wf_limit _ Hwf); pose proof (zlen_nonneg (bgthreads_ p)).
  all: simpl; rewrite swrap_int by lia; destruct (zlen (bgthreads_ p) <? total_threads_limit_ p) eqn:E.
  - rewrite zlen_nil in Hl. lia.
  - exists p. split; [done|]. constructor; try done; [lia|eauto].
  - apply list.NoDup_cons in Hnd as [Hnt Hnd]. rewrite zlen_cons in Hl.
    destruct (IH (start_thread p t)) as (p' & -> & []).
    + apply start_thread_wf; try done; [|lia]. apply Hf. left.
    + done.
    + split; [done|]. simpl. rewrite zlen_app, zlen_cons, zlen_nil. split; [|lia].
      intros t1 Ht1. rewrite lookup_insert_ne by congruence. apply Hf. by right.
    + exists p'. split; [done|]. simpl in *. rewrite zlen_app, zlen_cons, zlen_nil in st_size0.
      constructor; try done; [lia| |].
      * intros t1 th1 Hx. apply st_old0. rewrite lookup_insert_ne; [done|]. intros ->. rewrite (Hf t1) in Hx; [done|left].
      * intros t1 th1 Hx. destruct (st_new0 _ _ Hx) as [[[<- <-]|[_ H2]]%lookup_insert_Some|H2]; eauto.
  - exists p. split; [done|]. constructor; try done; [lia|eauto].
Qed.

Lemma Schedule_spec ts woken item p : pool_ok p -> allowed (ASchedule ts woken item) p ->
  exists es p', Schedule ts woken item p = Ret (es, p') /\ pool_ok p'.
Proof.
  intros [Hwf Hn] [Hf Hs]. unfold Schedule. destruct (exit_all_threads_ p) eqn:He.
  { exists [], p. by split. }
  destruct (StartBGThreads_spec ts p Hwf He Hf) as (p1 & -> & []). bret.
  set (p2 := set_queue p1 (queue_ p1 ++ [item])). pose proof (wf_limit _ Hwf).
  assert (pool_wf p2) as Hwf2 by (by apply set_queue_wf).
  change (HasExcessiveThread p2) with (HasExcessiveThread p1). rewrite has_excessive by done. rewrite st_limit0.
  destruct (total_threads_limit_ p <? zlen (bgthreads_ p1)) eqn:E; simpl; (eexists _, _; split; [done|]).
  { apply all_awake_ok; [by apply wake_wf|apply WakeUpAllThreads_awake|simpl; lia]. }
  destruct (decide (map_Forall (fun _ th => is_waiting th = false) (threads p2))) as [Ha|Hw].
  { apply all_awake_ok; [by apply wake_wf| |simpl; lia]. intros t th. simpl. rewrite wake_lookup.
    intros (th0 & Ht & ->)%fmap_Some. apply (Ha t) in Ht as Hw0. destruct (woken_thread (bool_decide (t ∈ woken)) th0) as (_ & _ & -> & _); done. }
  split; [by apply wake_wf|]. intros _. split; [intros _|].
  2: { change (HasExcessiveThread (ConditionSignal woken p2)) with (HasExcessiveThread p1). rewrite has_excessive by done. rewrite st_limit0. lia. }
  destruct Hs as (t & th & Hin & Ht & Hwt).
  { apply map_not_Forall in Hw as (t & th & Ht & Hw); [|apply _]. exists t, th. split; [|by destruct (is_waiting th)].
    destruct (st_new0 t th Ht) as [|[Hx _]]; [done|]. by destruct Hw. }
  exists t, (thread_id th). split.
  - exists (wake_thread th). simpl. rewrite wake_lookup, (st_old0 _ _ Ht). simpl. rewrite bool_decide_true by done.
    split; [done|]. split; [apply (woken_thread true)|apply wake_thread_awake].
  - simpl. rewrite st_limit0. pose proof (thread_id_bound p1 st_wf0 t th (st_old0 _ _ Ht)). lia.
Qed.

Lemma SetBackgroundThreads_spec ts num allow p : pool_ok p -> allowed (ASetBackgroundThreads ts num allow) p ->
  exists p', SetBackgroundThreadsInternal ts num allow p = Ret p' /\ pool_ok p' /\
    (p' = p \/ started (WakeUpAllThreads (set_limit p (Z.max 1 num))) p').
Proof.
  intros Hok [Hnum Hf]. pose proof Hok as [Hwf _]. unfold SetBackgroundThreadsInternal.
  destruct (exit_all_threads_ p) eqn:He; [by eauto 6|]. destruct (_ || _); [|by eauto 6].
  change (2 ^ 31) with 2147483648 in Hnum. set (p1 := WakeUpAllThreads (set_limit p (Z.max 1 num))).
  assert (pool_wf p1) as Hwf1 by (apply wake_wf, set_limit_wf; [done|lia]).
  destruct (StartBGThreads_spec ts p1) as (p2 & -> & Hst); [done|done| |].
  { destruct Hf as (Hnd & Hf & Hl). split; [done|]. split; [|done]. intros t Ht. simpl. by rewrite wake_lookup, Hf. }
  exists p2. split; [done|]. split; [|by right]. destruct Hst. simpl in *. apply all_awake_ok; [done| |lia].
  intros t th Ht. destruct (st_new0 _ _ Ht) as [H|[H _]]; [|done]. by apply (WakeUpAllThreads_awake (set_limit p (Z.max 1 num)) t th).
Qed.

Lemma UnSchedule_loop_spec q a : forall c, 0 <= c -> c + zlen q < 2147483648 ->
  exists es q', UnSchedule_loop q a c = Ret (es, q', c + zlen es) /\ sublist q' q /\
    q' = filter (fun i => tag i <> a) q /\ es = Cancelled <$> filter (fun i => tag i = a) q.
Proof.
  induction q as [|i q IH]; intros c Hc Hl; cbn [UnSchedule_loop].
  { exists [], []. rewrite zlen_nil, Z.add_0_r. by split. }
  rewrite zlen_cons in Hl. pose proof (zlen_nonneg q). destruct (Z.eqb_spec a (tag i)) as [->|Hn].
  - destruct (Z.eqb_spec c 2147483647); [lia|]. destruct (IH (c + 1)) as (es & q' & -> & Hs & -> & ->); [lia|lia|]. bret.
    rewrite !filter_cons. rewrite decide_False by tauto. rewrite (decide_True (P := tag i = tag i)) by done.
    eexists _, _. split; [|split; [by apply sublist_cons|done]]. rewrite fmap_cons, zlen_cons. by rewrite Z.add_assoc.
  - destruct (IH c) as (es & q' & -> & Hs & -> & ->); [lia|lia|]. bret. rewrite !filter_cons.
    rewrite decide_True by congruence. rewrite (decide_False (P := tag i = a)) by congruence.
    eexists _, _. split; [done|]. split; [by apply sublist_skip|done].
Qed.

Lemma UnSchedule_spec a p : zlen (queue_ p) < 2 ^ 31 ->
  UnSchedule a p = Ret (zlen (filter (fun i => tag i = a) (queue_ p)), Cancelled <$> filter (fun i => tag i = a) (queue_ p),
    set_queue p (filter (fun i => tag i <> a) (queue_ p))).
Proof.
  change (2 ^ 31) with 2147483648. intros Hl. unfold UnSchedule.
  destruct (UnSchedule_loop_spec (queue_ p) a 0) as (es & q & -> & _ & -> & ->); [lia|lia|]. bret.
  unfold zlen. by rewrite length_fmap.
Qed.

(** Taking items out of the queue keeps the invariant. *)
Lemma shrink_queue_ok p q : pool_ok p -> (q <> [] -> queue_ p <> []) -> pool_ok (set_queue p q).
Proof.
  intros [Hwf Hn] Hq. split; [by apply set_queue_wf|]. intros He. destruct (Hn He) as [H1 H2]. split; [|exact H2].
  intros Hne. exact (H1 (Hq Hne)).
Qed.

Lemma UnSchedule_ok a p : pool_ok p -> pool_ok (set_queue p (filter (fun i => tag i <> a) (queue_ p))).
Proof. intros. apply shrink_queue_ok; [done|]. intros Hn E. by rewrite E in Hn. Qed.

Lemma LowerIOPriority_ok p : pool_ok p -> pool_ok (LowerIOPriority p).
Proof. intros [[] Hn]. by split. Qed.

Lemma JoinAllThreads_ok p : pool_ok p -> exit_all_threads_ p = false ->
  exists p', JoinAllThreads p = Ret p' /\ pool_ok p'.
Proof.
  intros [Hwf Hn] He. unfold JoinAllThreads. rewrite He. eexists. split; [done|]. split; [|done].
  destruct (wf_running _ Hwf He) as [Hj _]. destruct Hwf. unfold alive in *. rewrite Hj in *. constructor; simpl; try done.
  - intros t th. rewrite wake_lookup. intros (th0 & Ht & ->)%fmap_Some.
    destruct (woken_thread true th0) as (Hi & Hd & _). simpl in Hi, Hd. rewrite Hi, Hd. by apply wf_thread0.
  - intros t. unfold alive. simpl. rewrite wake_lookup, fmap_is_Some. apply wf_alive0.
  - intros _ t th. rewrite wake_lookup. intros (th0 & _ & ->)%fmap_Some. apply wake_thread_awake.
  - by intros l [= <-].
Qed.

Lemma JoinAllThreads_next_ok p : pool_ok p ->
  exists r, JoinAllThreads_next p = Ret r /\ match r with Some p' => pool_ok p' | None => True end.
Proof.
  intros [Hwf Hn]. unfold JoinAllThreads_next. destruct (joining p) as [[|t l]|] eqn:Hj; [| |by exists None].
  all: assert (exit_all_threads_ p = true) as He by (destruct (exit_all_threads_ p) eqn:He; [done|]; by destruct (wf_running _ Hwf He); congruence).
  all: pose proof Hwf as []; unfold alive in *; rewrite Hj in *.
  - eexists. split; [done|]. simpl. split; [|intros Hx; simpl in Hx; congruence].
    assert (forall t, threads p !! t = None) as Hno.
    { intros t. apply eq_None_not_Some. rewrite <- wf_alive0. apply not_elem_of_nil. }
    constructor; simpl; try done; [apply NoDup_nil_2| |congruence]. intros t th. by rewrite Hno.
  - unfold ThreadJoin. destruct (proj1 (wf_alive0 t)) as [th Hth]; [left|]. rewrite Hth.
    destruct (wf_thread0 _ _ Hth) as (-> & _). destruct (at_ th); simpl; try by exists None.
    eexists. split; [done|]. simpl. split; [|intros Hx; simpl in Hx; congruence].
    pose proof (wf_joining0 _ eq_refl) as Hnd. apply list.NoDup_cons in Hnd as [Hnt Hnd].
    constructor; simpl; try done; try congruence.
    + intros t1 th1 [_ H1]%lookup_delete_Some. by apply wf_thread0.
    + intros t1. unfold alive. simpl. rewrite lookup_delete_is_Some, <- wf_alive0, elem_of_cons. naive_solver.
    + intros _ t1 th1 [_ H1]%lookup_delete_Some. eauto.
Qed.

(** ** A thread's turns *)

(** A thread moves to [Waiting] or [Running], or back, without losing a wake-up. *)
Lemma put_thread_ok p t th th' : pool_ok p -> threads p !! t = Some th ->
  thread_id th' = thread_id th -> detached th' = false -> exit_all_threads_ p = false -> at_ th' <> Exited ->
  (is_waiting th' = true -> (queue_ p <> [] -> total_threads_limit_ p <= thread_id th) /\
    (HasExcessiveThread p = true -> thread_id th <> zlen (bgthreads_ p) - 1)) ->
  pool_ok (put_thread p t th').
Proof.
  intros [Hwf Hn] Ht Hi Hd He Hx Hw. split; [apply (put_thread_wf p t th); [done|done|done|done|done|congruence]|].
  assert (forall t1 id, awake p t1 id -> (t1 = t -> is_waiting th' = false) -> awake (put_thread p t th') t1 id) as Haw.
  { intros t1 id (th1 & H1 & Hid & Hw1) Hne. destruct (decide (t1 = t)) as [->|Hd1].
    - exists th'. simpl. rewrite lookup_insert_eq. split; [done|]. split; [congruence|by apply Hne].
    - exists th1. simpl. by rewrite lookup_insert_ne. }
  intros _. destruct (Hn He) as [Hq Hl]. split.
  - intros Hne. destruct (Hq Hne) as (t1 & id & Ha & Hid). exists t1, id. split; [|done]. apply Haw; [done|]. intros ->.
    apply not_true_is_false. intros Hwt. destruct (Hw Hwt) as [Hlim _]. destruct Ha as (th1 & H1 & <- & _).
    replace th1 with th in * by congruence. specialize (Hlim Hne). simpl in Hid. lia.
  - intros Hex. destruct (Hl Hex) as (t1 & Ha). exists t1. apply Haw; [done|]. intros ->.
    apply not_true_is_false. intros Hwt. destruct (Hw Hwt) as [_ Hlast]. destruct Ha as (th1 & H1 & Hid & _).
    replace th1 with th in * by congruence. by apply Hlast.
Qed.

(** The pool without its last thread. *)
Definition without_last (p : Pool) (t : pthread_t) : Pool :=
  set_threads p (removelast (bgthreads_ p)) (delete t (threads p)).

Lemma last_thread p t th : pool_wf p -> threads p !! t = Some th -> thread_id th = zlen (bgthreads_ p) - 1 ->
  bgthreads_ p = removelast (bgthreads_ p) ++ [t].
Proof.
  intros Hwf Ht Hid. destruct (wf_thread _ Hwf _ _ Ht) as (_ & _ & Hl). rewrite Hid in Hl.
  destruct (bgthreads_ p) as [|x l] using rev_ind; [done|]. rewrite removelast_last.
  rewrite zlen_app, zlen_cons, zlen_nil in Hl. replace (Z.to_nat _) with (length l) in Hl by (unfold zlen; lia).
  rewrite list_lookup_middle in Hl by done. congruence.
Qed.

Lemma without_last_wf p t th : pool_wf p -> exit_all_threads_ p = false -> threads p !! t = Some th ->
  thread_id th = zlen (bgthreads_ p) - 1 -> pool_wf (without_last p t).
Proof.
  intros Hwf He Ht Hid. pose proof (last_thread p t th Hwf Ht Hid) as El. pose proof Hwf as [].
  destruct (wf_running0 He) as [Hj Hr]. unfold alive in *. rewrite Hj in *.
  assert (zlen (bgthreads_ p) = zlen (removelast (bgthreads_ p)) + 1) as Es by (rewrite El at 1; by rewrite zlen_app).
  rewrite El in wf_nodup0. apply list.NoDup_app in wf_nodup0 as (Hnd & Hdis & _).
  constructor; simpl; try done; try congruence; [lia| | |].
  - intros t1 th1 [Hne H1]%lookup_delete_Some. destruct (wf_thread0 _ _ H1) as (Hd & H0 & Hl). do 2 (split; [done|]).
    assert (thread_id th1 <> thread_id th). { intros E. apply Hne. by apply (thread_id_unique p Hwf t th t1 th1). }
    pose proof (thread_id_bound p Hwf _ _ H1). rewrite El in Hl. rewrite lookup_app_l in Hl; [done|]. unfold zlen in *. lia.
  - intros t1. unfold alive. simpl. rewrite Hj, lookup_delete_is_Some, <- wf_alive0. rewrite El at 2.
    rewrite elem_of_app, list_elem_of_singleton. split; [|naive_solver].
    intros H1. split; [|by left]. intros ->. apply (Hdis _ H1). by apply list_elem_of_singleton.
  - intros _. split; [done|]. intros t1 th1 [_ H1]%lookup_delete_Some. eauto.
Qed.

(** The thread that detaches the last of [bgthreads_] and leaves is that thread. *)
Lemma terminate_last_ok p t th : pool_ok p -> exit_all_threads_ p = false -> threads p !! t = Some th ->
  HasExcessiveThread p = true -> thread_id th = zlen (bgthreads_ p) - 1 ->
  exists p', terminate_last t p = Ret p' /\ pool_ok p' /\
    p' = (if HasExcessiveThread (without_last p t) then WakeUpAllThreads (without_last p t) else without_last p t).
Proof.
  intros [Hwf Hn] He Ht Hx Hid. pose proof (last_thread p t th Hwf Ht Hid) as El.
  destruct (wf_thread _ Hwf _ _ Ht) as (Hd & _). pose proof (without_last_wf p t th Hwf He Ht Hid) as Hwf'.
  eexists. split; [|split; [|reflexivity]].
  - unfold terminate_last. rewrite El at 1. rewrite last_snoc. unfold ThreadDetach. rewrite Ht, Hd. bret.
    set (q := mkThread _ _ _ true).
    change (HasExcessiveThread (set_threads _ (removelast (bgthreads_ (put_thread p t q))) _)) with (HasExcessiveThread (without_last p t)).
    destruct (HasExcessiveThread (without_last p t)); simpl; [rewrite wake_lookup|]; rewrite lookup_insert_eq; simpl.
    + unfold thread_exit. destruct (woken_thread true q) as (_ & -> & _). simpl. unfold WakeUpAllThreads, wake, without_last, set_threads. simpl.
      do 2 f_equal. apply map_eq. intros t1. destruct (decide (t1 = t)) as [->|Hne].
      * by rewrite wake_lookup, !lookup_delete_eq.
      * rewrite lookup_delete_ne by done. rewrite !wake_lookup, lookup_insert_ne, lookup_delete_ne by done. done.
    + unfold thread_exit, without_last, set_threads. simpl. do 2 f_equal. by rewrite delete_insert_eq.
  - destruct (HasExcessiveThread (without_last p t)) eqn:Hx'.
    + rewrite has_excessive in Hx' by done. pose proof (wf_limit _ Hwf'). simpl in *.
      apply all_awake_ok; [by apply wake_wf|apply WakeUpAllThreads_awake|simpl; lia].
    + split; [done|]. intros _. destruct (Hn He) as [Hq _]. split; [|congruence].
      intros (t1 & id & (th1 & H1 & <- & Hw) & Hlim)%Hq. exists t1, (thread_id th1). split; [|done].
      exists th1. split; [|done]. simpl. rewrite lookup_delete_ne; [done|]. intros <-.
      rewrite has_excessive in Hx by done. replace th1 with th in * by congruence. lia.
Qed.

(** What a turn of a thread can be. *)
Inductive turn (p : Pool) (t : pthread_t) (th : Thread) : list event -> Pool -> Prop :=
| turn_wait : at_ th = Locking -> exit_all_threads_ p = false ->
    (queue_ p <> [] -> total_threads_limit_ p <= thread_id th) ->
    (HasExcessiveThread p = true -> thread_id th <> zlen (bgthreads_ p) - 1) ->
    turn p t th [] (put_thread p t (with_at th Waiting))
| turn_exit : at_ th = Locking -> exit_all_threads_ p = true -> turn p t th [] (put_thread p t (with_at th Exited))
| turn_leave p' : at_ th = Locking -> exit_all_threads_ p = false -> HasExcessiveThread p = true ->
    thread_id th = zlen (bgthreads_ p) - 1 ->
    p' = (if HasExcessiveThread (without_last p t) then WakeUpAllThreads (without_last p t) else without_last p t) ->
    turn p t th [] p'
| turn_take item q d : at_ th = Locking -> exit_all_threads_ p = false -> queue_ p = item :: q ->
    thread_id th < total_threads_limit_ p ->
    turn p t th [Dequeued t item] (put_thread (set_queue p q) t (with_at th (Running d item)))
| turn_run d item es th' : at_ th = Running d item -> es = (if d then [LoweredIO t; Ran t item] else [Ran t item]) ->
    thread_id th' = thread_id th -> detached th' = detached th -> at_ th' = Locking ->
    turn p t th es (put_thread p t th').

(** A thread that is neither waiting nor gone can always take its turn. *)
Lemma BGThread_turn p t th : pool_ok p -> threads p !! t = Some th -> (at_ th = Locking \/ exists d i, at_ th = Running d i) ->
  exists es p', BGThread t p = Ret (Some (es, p')) /\ turn p t th es p'.
Proof.
  intros Hok Ht Hat. pose proof Hok as [Hwf _]. unfold BGThread. rewrite Ht.
  destruct Hat as [Hat|(d & i & Hat)]; rewrite Hat.
  2: { eexists _, _. split; [done|]. eapply turn_run; [done|by destruct d|done..]. }
  unfold BGThread_locked. rewrite (is_last p Hwf t th Ht), (is_excessive p Hwf t th Ht).
  pose proof (has_excessive p Hwf) as Hx. rewrite <- Hx.
  assert (detached th = false) as Hd by by destruct (wf_thread _ Hwf _ _ Ht).
  destruct (exit_all_threads_ p) eqn:He; simpl.
  { unfold thread_exit. rewrite Hd. eexists _, _. split; [done|]. by apply turn_exit. }
  destruct (HasExcessiveThread p && (thread_id th =? zlen (bgthreads_ p) - 1)) eqn:E; simpl.
  { destruct (terminate_last_ok p t th) as (p' & -> & _ & Ep); [done|done|done|lia|lia|]. bret.
    eexists _, _. split; [done|]. apply (turn_leave p t th p'); [done|done|lia|lia|done]. }
  destruct (queue_ p) as [|item q] eqn:Eq; simpl.
  { eexists _, _. split; [done|]. apply turn_wait; [done|done|congruence|lia]. }
  destruct (Z.leb_spec (total_threads_limit_ p) (thread_id th)).
  - eexists _, _. split; [done|]. apply turn_wait; [done|done|lia|lia].
  - eexists _, _. split; [done|]. by apply turn_take.
Qed.

Lemma turn_ok p t th es p' : pool_ok p -> threads p !! t = Some th -> turn p t th es p' -> pool_ok p'.
Proof.
  intros Hok Ht Htn. pose proof Hok as [Hwf Hn]. destruct (wf_thread _ Hwf _ _ Ht) as (Hd & _).
  destruct Htn as [Hat He Hq Hx|Hat He|p' Hat He Hx Hi ->|item q d Hat He Hq Hi|d item es th' Hat -> Hi Hd' Ha].
  - by apply (put_thread_ok p t th).
  - split; [|intros Hx; simpl in Hx; congruence]. apply (put_thread_wf p t th); try done. congruence.
  - destruct (terminate_last_ok p t th) as (p' & _ & Hp & Ep); try done. by rewrite <- Ep.
  - apply (put_thread_ok _ t th); try done. apply shrink_queue_ok; [done|]. by rewrite Hq.
  - destruct (exit_all_threads_ p) eqn:He.
    + split; [|intros Hx; simpl in Hx; congruence]. apply (put_thread_wf p t th); try done; [congruence|congruence|].
      intros _. unfold is_waiting. by rewrite Ha.
    + apply (put_thread_ok p t th); try done; [congruence|congruence|]. unfold is_waiting. by rewrite Ha.
Qed.

Lemma BGThread_ok t p : pool_ok p -> exists r, BGThread t p = Ret r /\
  match r with Some (es, p') => exists th, threads p !! t = Some th /\ turn p t th es p' | None => True end.
Proof.
  intros Hok. destruct (threads p !! t) as [th|] eqn:Ht; [|unfold BGThread; rewrite Ht; by exists None].
  destruct (at_ th) as [| |d i|] eqn:Ha.
  1: destruct (BGThread_turn p t th Hok Ht (or_introl Ha)) as (es & p' & E & Htn).
  3: destruct (BGThread_turn p t th Hok Ht) as (es & p' & E & Htn); [right; by exists d, i|].
  1, 3: (exists (Some (es, p')); split; [done|by exists th]).
  all: unfold BGThread; rewrite Ht, Ha; by exists None.
Qed.

(** ** Every turn *)

Lemma perform_ok a p : pool_ok p -> allowed a p -> exists r, perform a p = Ret r /\
  match r with Some (_, p') => pool_ok p' | None => True end.
Proof.
  intros Hok Ha. destruct a as [ts woken item|a|ts num al| | | |t|t]; cbn [perform].
  - destruct (Schedule_spec ts woken item p Hok Ha) as (es & p' & -> & H). by exists (Some (es, p')).
  - rewrite UnSchedule_spec by done. bret. eexists. split; [done|]. by apply UnSchedule_ok.
  - destruct (SetBackgroundThreads_spec ts num al p Hok Ha) as (p' & -> & H & _). by exists (Some ([], p')).
  - eexists. split; [done|]. by apply LowerIOPriority_ok.
  - destruct (JoinAllThreads_ok p Hok Ha) as (p' & -> & H). by exists (Some ([], p')).
  - destruct (JoinAllThreads_next_ok p Hok) as (r & -> & H). bret. eexists. split; [done|]. by destruct r.
  - destruct (BGThread_ok t p Hok) as ([[es p']|] & -> & H); eexists; (split; [done|]); [|done].
    destruct H as (th & Ht & Htn). by eapply turn_ok.
  - eexists. split; [done|]. by apply wake_ok.
Qed.

Lemma pool_step_ok a es p p' : pool_ok p -> pool_step a es p p' -> pool_ok p'.
Proof. intros Hok [Ha E]. destruct (perform_ok a p Hok Ha) as (r & E' & H). rewrite E in E'. by injection E' as <-. Qed.

Lemma ThreadPoolImpl_new_ok pr : pool_ok (ThreadPoolImpl_new pr).
Proof.
  split; [|done]. constructor; simpl; try done; [apply NoDup_nil_2|].
  intros t. unfold alive. simpl. rewrite lookup_empty, elem_of_nil. by rewrite is_Some_alt.
Qed.

Lemma pool_run_ok p es p' : pool_ok p -> pool_run p es p' -> pool_ok p'.
Proof. intros Hok. induction 1; [done|]. by eapply pool_step_ok. Qed.
