(* ===== verification/ThreadPoolTheorems.v ===== *)
(** * ThreadPoolTheorems: the properties of the thread pool *)

From stdpp Require Import list gmap.
From S2P Require Import Prelude.
From S2P Require Import ThreadPool.
From S2P Require Import ThreadPoolInv.

(** ** What has happened *)

Definition enqueued (es : list event) : list BGItem := omap (fun e => match e with Enqueued i => Some i | _ => None end) es.
Definition dequeued (es : list event) : list BGItem := omap (fun e => match e with Dequeued _ i => Some i | _ => None end) es.
Definition cancelled (es : list event) : list BGItem := omap (fun e => match e with Cancelled i => Some i | _ => None end) es.
Definition ran (es : list event) : list BGItem := omap (fun e => match e with Ran _ i => Some i | _ => None end) es.
Definition dequeued_by (t : pthread_t) (es : list event) : list BGItem :=
  omap (fun e => match e with Dequeued t' i => if bool_decide (t' = t) then Some i else None | _ => None end) es.
Definition ran_by (t : pthread_t) (es : list event) : list BGItem :=
  omap (fun e => match e with Ran t' i => if bool_decide (t' = t) then Some i else None | _ => None end) es.

Lemma enqueued_app e1 e2 : enqueued (e1 ++ e2) = enqueued e1 ++ enqueued e2.
Proof. apply omap_app. Qed.
Lemma dequeued_app e1 e2 : dequeued (e1 ++ e2) = dequeued e1 ++ dequeued e2.
Proof. apply omap_app. Qed.
Lemma cancelled_app e1 e2 : cancelled (e1 ++ e2) = cancelled e1 ++ cancelled e2.
Proof. apply omap_app. Qed.
Lemma ran_app e1 e2 : ran (e1 ++ e2) = ran e1 ++ ran e2.
Proof. apply omap_app. Qed.
Lemma dequeued_by_app t e1 e2 : dequeued_by t (e1 ++ e2) = dequeued_by t e1 ++ dequeued_by t e2.
Proof. apply omap_app. Qed.
Lemma ran_by_app t e1 e2 : ran_by t (e1 ++ e2) = ran_by t e1 ++ ran_by t e2.
Proof. apply omap_app. Qed.
(** Split the events of a history at its end. *)
Ltac split_events :=
  rewrite ?enqueued_app, ?dequeued_app, ?cancelled_app, ?ran_app, ?dequeued_by_app, ?ran_by_app; simpl.

(** The item that thread [t] is about to run. *)
Definition running_on (p : Pool) (t : pthread_t) : list BGItem :=
  match threads p !! t with Some th => match at_ th with Running _ i => [i] | _ => [] end | None => [] end.

(** ** The order of the items *)

(** The history [es] of a pool that is in state [p] now: the items leave the queue in
    order, none is lost or doubled, and each thread runs what it takes. *)
Record history (es : list event) (p : Pool) : Prop := {
  hi_order : sublist (dequeued es ++ queue_ p) (enqueued es);
  hi_all : enqueued es ≡ₚ dequeued es ++ cancelled es ++ queue_ p;
  hi_thread : forall t, dequeued_by t es = ran_by t es ++ running_on p t;
}.

(** A turn that neither queues nor runs anything. *)
Lemma history_quiet es p p' : history es p -> queue_ p' = queue_ p -> (forall t, running_on p' t = running_on p t) ->
  history (es ++ []) p'.
Proof. intros [] Hq Hr. rewrite app_nil_r. split; [by rewrite Hq|by rewrite Hq|intros t; by rewrite Hr]. Qed.

Lemma running_wake f p t : running_on (wake f p) t = running_on p t.
Proof.
  unfold running_on. simpl. rewrite wake_lookup. destruct (threads p !! t) as [th|]; [|done]. simpl.
  unfold wake_thread. by destruct (f t), th as [? ? [] ?].
Qed.

Lemma running_put p t th : running_on (put_thread p t th) t = match at_ th with Running _ i => [i] | _ => [] end.
Proof. unfold running_on. simpl. by rewrite lookup_insert_eq. Qed.
Lemma running_put_ne p t th t' : t' <> t -> running_on (put_thread p t th) t' = running_on p t'.
Proof. intros. unfold running_on. simpl. by rewrite lookup_insert_ne. Qed.
Lemma running_put_same p t th th' t' : threads p !! t = Some th -> (forall d i, at_ th <> Running d i) ->
  (forall d i, at_ th' <> Running d i) -> running_on (put_thread p t th') t' = running_on p t'.
Proof.
  intros Ht H1 H2. destruct (decide (t' = t)) as [->|Hn]; [|by apply running_put_ne]. rewrite running_put.
  unfold running_on. rewrite Ht. destruct (at_ th') eqn:E, (at_ th) eqn:E'; naive_solver.
Qed.

Lemma running_started p p' t : started p p' -> running_on p' t = running_on p t.
Proof.
  intros [_ _ _ _ _ Hold Hnew]. unfold running_on. destruct (threads p !! t) as [th|] eqn:Ht; [by rewrite (Hold _ _ Ht)|].
  destruct (threads p' !! t) as [th|] eqn:Ht'; [|done]. destruct (Hnew _ _ Ht') as [|[_ ->]]; [congruence|done].
Qed.

Lemma history_turn p t th es es' p' : threads p !! t = Some th -> turn p t th es' p' -> history es p -> history (es ++ es') p'.
Proof.
  intros Ht Htn Hh. destruct Htn as [Hat He Hq Hx|Hat He|p' Hat He Hx Hi ->|item q d Hat He Hq Hi|d item es' th' Hat -> Hi Hd' Ha].
  - apply (history_quiet _ p); [done|done|]. intros t'. by apply (running_put_same p t th); [|intros d i; rewrite Hat|].
  - apply (history_quiet _ p); [done|done|]. intros t'. by apply (running_put_same p t th); [|intros d i; rewrite Hat|].
  - apply (history_quiet _ p); [done|by destruct (HasExcessiveThread (without_last p t))|]. intros t'.
    assert (running_on (without_last p t) t' = running_on p t') as <-.
    { unfold running_on. simpl. destruct (decide (t' = t)) as [->|]; [rewrite lookup_delete_eq, Ht; by rewrite Hat|by rewrite lookup_delete_ne]. }
    destruct (HasExcessiveThread (without_last p t)); [apply running_wake|done].
  - destruct Hh as [Ho Hal Hth]. split.
    + split_events. rewrite app_nil_r, <- app_assoc. simpl. by rewrite <- Hq.
    + split_events. rewrite !app_nil_r, Hal, Hq. solve_Permutation.
    + intros t'. split_events. rewrite Hth, app_nil_r, <- app_assoc. f_equal. unfold dequeued_by. simpl. destruct (decide (t' = t)) as [->|Hn].
      * rewrite bool_decide_true by done. rewrite running_put. simpl. unfold running_on. by rewrite Ht, Hat.
      * rewrite bool_decide_false by done. rewrite running_put_ne by done. by rewrite app_nil_r.
  - destruct Hh as [Ho Hal Hth]. split.
    + split_events. destruct d; simpl; by rewrite !app_nil_r.
    + split_events. destruct d; simpl; by rewrite !app_nil_r.
    + intros t'. split_events. rewrite Hth. unfold dequeued_by, ran_by. destruct (decide (t' = t)) as [->|Hn].
      * unfold running_on at 1. rewrite Ht, Hat, running_put, Ha. destruct d; simpl; rewrite bool_decide_true by done; by rewrite !app_nil_r.
      * rewrite running_put_ne by done. destruct d; simpl; rewrite bool_decide_false by done; by rewrite !app_nil_r.
Qed.

Lemma history_schedule ts woken item p es es' p' : pool_ok p -> allowed (ASchedule ts woken item) p ->
  Schedule ts woken item p = Ret (es', p') -> history es p -> history (es ++ es') p'.
Proof.
  intros [Hwf _] [Hf _] E Hh. unfold Schedule in E. destruct (exit_all_threads_ p) eqn:He.
  { injection E as <- <-. by apply (history_quiet _ p). }
  destruct (StartBGThreads_spec ts p Hwf He Hf) as (p1 & E1 & Hst). rewrite E1 in E. simpl in E.
  injection E as <- <-. set (p2 := set_queue p1 (queue_ p1 ++ [item])). change (HasExcessiveThread p1) with (HasExcessiveThread p2).
  assert (forall t, running_on (if negb (HasExcessiveThread p2) then ConditionSignal woken p2 else WakeUpAllThreads p2) t = running_on p t) as Hr.
  { intros t. rewrite <- (running_started p p1 t Hst). change (running_on p1 t) with (running_on p2 t). destruct (HasExcessiveThread p2); apply running_wake. }
  destruct Hh as [Ho Hal Hth]. pose proof (st_queue _ _ Hst) as Hq.
  split; [| |intros t; split_events; by rewrite Hr, !app_nil_r].
  all: replace (queue_ (if negb (HasExcessiveThread p2) then ConditionSignal woken p2 else WakeUpAllThreads p2)) with (queue_ p ++ [item]) by (rewrite <- Hq; by destruct (HasExcessiveThread p2)).
  all: split_events; rewrite ?app_nil_r, ?app_assoc.
  - by apply sublist_app.
  - rewrite Hal. solve_Permutation.
Qed.

Lemma cancelled_fmap l : cancelled (Cancelled <$> l) = l /\ enqueued (Cancelled <$> l) = [] /\ dequeued (Cancelled <$> l) = [] /\
  forall t, dequeued_by t (Cancelled <$> l) = [] /\ ran_by t (Cancelled <$> l) = [].
Proof.
  unfold cancelled, enqueued, dequeued, dequeued_by, ran_by.
  induction l as [|i l (IH1 & IH2 & IH3 & IH4)]; [done|]. csimpl. by rewrite IH1.
Qed.

Lemma history_step a es es' p p' : pool_ok p -> pool_step a es' p p' -> history es p -> history (es ++ es') p'.
Proof.
  intros Hok [Ha E] Hh. pose proof Hok as [Hwf _]. destruct a as [ts woken item|a|ts num al| | | |t|t]; cbn [perform] in E.
  - destruct (Schedule ts woken item p) as [[es1 p1]| | |] eqn:E1; try done. injection E as <- <-. by eapply history_schedule.
  - rewrite UnSchedule_spec in E by done. injection E as <- <-. destruct Hh as [Ho Hal Hth].
    destruct (cancelled_fmap (filter (fun i => tag i = a) (queue_ p))) as (Ec & Ee & Ed & Et). split.
    + split_events. rewrite Ee, Ed, !app_nil_r. etrans; [|exact Ho]. apply sublist_app; [done|]. apply sublist_filter.
    + split_events. rewrite Ee, Ed, Ec, !app_nil_r, Hal. rewrite <- (filter_app_complement (fun i => tag i = a) (queue_ p)) at 1. solve_Permutation.
    + intros t. split_events. destruct (Et t) as [-> ->]. by rewrite !app_nil_r.
  - destruct (SetBackgroundThreads_spec ts num al p Hok Ha) as (p1 & E1 & _ & Hp). rewrite E1 in E. injection E as <- <-.
    destruct Hp as [->|Hst]; apply (history_quiet _ p); try done; [by rewrite (st_queue _ _ Hst)|].
    intros t. rewrite (running_started _ _ t Hst). apply (running_wake _ (set_limit p (Z.max 1 num))).
  - injection E as <- <-. by apply (history_quiet _ p).
  - unfold JoinAllThreads in E. destruct (exit_all_threads_ p); [done|]. injection E as <- <-.
    apply (history_quiet _ p); [done|done|]. intros t. apply (running_wake _ (set_flags p true (low_io_priority_ p))).
  - unfold JoinAllThreads_next in E. destruct (joining p) as [[|t l]|]; [by injection E as <- <-; apply (history_quiet _ p)| |done].
    unfold ThreadJoin in E. destruct (threads p !! t) as [th|] eqn:Ht; [|done]. destruct (detached th); [done|].
    destruct (at_ th) eqn:Hat; try done. injection E as <- <-. apply (history_quiet _ p); [done|done|].
    intros t'. unfold running_on. simpl. destruct (decide (t' = t)) as [->|]; [rewrite lookup_delete_eq, Ht; by rewrite Hat|by rewrite lookup_delete_ne].
  - destruct (BGThread_ok t p Hok) as (r & E1 & Hr). rewrite E1 in E. injection E as ->.
    destruct Hr as (th & Ht & Htn). by eapply history_turn.
  - injection E as <- <-. apply (history_quiet _ p); [done|done|]. intros t'. apply running_wake.
Qed.

Lemma run_history p0 es p : pool_ok p0 -> history [] p0 -> pool_run p0 es p -> pool_ok p /\ history es p.
Proof.
  intros Hok0 Hh0. induction 1 as [|es p1 a es' p2 _ [Hok Hh] Hs]; [done|]. split; [by eapply pool_step_ok|by eapply history_step].
Qed.

Lemma pool_history pr es p : pool_run (ThreadPoolImpl_new pr) es p -> pool_ok p /\ history es p.
Proof. apply run_history; [apply ThreadPoolImpl_new_ok|by split]. Qed.

(** What a turn does to the queue of a pool that has not been told to exit. *)
Lemma started_running p p' : started p p' -> exit_all_threads_ p' = false.
Proof. by intros []. Qed.
Lemma turn_queue p t th es p' : turn p t th es p' -> exit_all_threads_ p = false -> exit_all_threads_ p' = false /\
  enqueued es = [] /\ cancelled es = [] /\ (queue_ p' = queue_ p \/ exists i, queue_ p = i :: queue_ p').
Proof.
  intros [Hat He Hq Hx|Hat He|p1 Hat He Hx Hi ->|item q d Hat He Hq Hi|d item es1 th' Hat -> Hi Hd' Ha] Hrun; try (by rewrite He in Hrun); simpl.
  - by auto.
  - destruct (HasExcessiveThread (without_last p t)); by auto.
  - rewrite Hq. by eauto 10.
  - destruct d; by auto.
Qed.
Lemma pool_step_queue a es p p' : pool_ok p -> exit_all_threads_ p = false -> a <> AJoinAllThreads -> pool_step a es p p' ->
  exit_all_threads_ p' = false /\
  match a with
  | ASchedule _ _ item => enqueued es = [item] /\ cancelled es = [] /\ queue_ p' = queue_ p ++ [item]
  | AUnSchedule arg => enqueued es = [] /\ cancelled es = filter (fun i => tag i = arg) (queue_ p) /\ queue_ p' = filter (fun i => tag i <> arg) (queue_ p)
  | _ => enqueued es = [] /\ cancelled es = [] /\ (queue_ p' = queue_ p \/ exists i, queue_ p = i :: queue_ p')
  end.
Proof.
  intros Hok He Hj [Ha E]. pose proof Hok as [Hwf _]. destruct a as [ts woken item|a|ts num al| | | |t|t]; cbn [perform] in E; try done.
  - unfold Schedule in E. rewrite He in E. destruct Ha as [Hf _]. destruct (StartBGThreads_spec ts p Hwf He Hf) as (p1 & E1 & Hst). rewrite E1 in E.
    simpl in E. injection E as <- <-. pose proof (st_exit _ _ Hst). pose proof (st_queue _ _ Hst) as Hq. destruct (HasExcessiveThread _); simpl; by rewrite Hq.
  - rewrite UnSchedule_spec in E by done. injection E as <- <-. split; [done|].
    destruct (cancelled_fmap (filter (fun i => tag i = a) (queue_ p))) as (Ec & Ee & _). done.
  - destruct (SetBackgroundThreads_spec ts num al p Hok Ha) as (p1 & E1 & _ & Hp). rewrite E1 in E. injection E as <- <-.
    destruct Hp as [->|Hst]; [by auto|]. split; [by apply (started_running _ _ Hst)|]. split; [done|]. split; [done|]. left. by rewrite (st_queue _ _ Hst).
  - injection E as <- <-. by auto.
  - unfold JoinAllThreads_next in E. pose proof (proj1 (wf_running _ Hwf He)) as Hn. by rewrite Hn in E.
  - destruct (BGThread_ok t p Hok) as (r & E1 & Hr). rewrite E1 in E. injection E as ->. destruct Hr as (th & Ht & Htn). by eapply turn_queue.
  - injection E as <- <-. by auto.
Qed.

(** ** Progress *)

(** What the threads of the pool, and the thread that joins them, have left to do. A turn
    that ends a thread may wake all others. *)
Definition weight (th : option Thread) : Z :=
  match th with
  | Some th => match at_ th with Locking => 1 | Waiting => 0 | Running _ _ => 2 | Exited => 0 end
  | None => 0
  end.
Definition weights (m : gmap pthread_t Thread) (l : list pthread_t) : Z := foldr (fun t n => weight (m !! t) + n) 0 l.
Definition pool_cost (p : Pool) : Z :=
  weights (threads p) (bgthreads_ p) + 2 * zlen (queue_ p) + zlen (bgthreads_ p) * zlen (bgthreads_ p) +
  match joining p with Some l => 1 + zlen l | None => 0 end.

Lemma weight_nonneg o : 0 <= weight o.
Proof. destruct o as [[? ? [] ?]|]; done. Qed.
Lemma weights_nonneg m l : 0 <= weights m l.
Proof. unfold weights. induction l as [|t l IH]; simpl; [done|]. pose proof (weight_nonneg (m !! t)). lia. Qed.
Lemma weights_app m l k : weights m (l ++ k) = weights m l + weights m k.
Proof. induction l as [|t l IH]; [done|]. simpl. rewrite IH. lia. Qed.
Lemma weights_ext m m' l : (forall t, t ∈ l -> m !! t = m' !! t) -> weights m l = weights m' l.
Proof.
  intros H. induction l as [|t l IH]; [done|]. simpl. rewrite IH by (intros; apply H; by right). rewrite H by left. done.
Qed.
Lemma weights_cons m t l : weights m (t :: l) = weight (m !! t) + weights m l.
Proof. done. Qed.
Lemma weights_insert m l t th : NoDup l -> t ∈ l -> weights (<[t := th]> m) l = weights m l - weight (m !! t) + weight (Some th).
Proof.
  induction l as [|t1 l IH]; [by intros _ ?%elem_of_nil|]. intros [Hn Hnd]%list.NoDup_cons. rewrite elem_of_cons.
  rewrite !weights_cons. destruct (decide (t = t1)) as [<-|Hne].
  - intros _. rewrite lookup_insert_eq. rewrite (weights_ext _ m l); [lia|]. intros t1 H1. apply lookup_insert_ne. congruence.
  - intros [|Ht]; [done|]. rewrite lookup_insert_ne by done. rewrite IH by done. lia.
Qed.
Lemma weights_delete m l t : weights (delete t m) l <= weights m l.
Proof.
  induction l as [|t1 l IH]; [done|]. simpl. destruct (decide (t = t1)) as [<-|].
  - rewrite lookup_delete_eq. pose proof (weight_nonneg (m !! t)). simpl. lia.
  - rewrite lookup_delete_ne by done. lia.
Qed.
Lemma weight_wake (b : bool) o : weight ((fun th => if b then wake_thread th else th) <$> o) <= weight o + 1.
Proof. destruct o as [[id lo a d]|]; [|done]. destruct b, a; done. Qed.
Lemma weights_wake f m l : weights (wake_map f m) l <= weights m l + zlen l.
Proof.
  induction l as [|t l IH]; [done|]. rewrite !weights_cons, zlen_cons, wake_lookup. pose proof (weight_wake (f t) (m !! t)). lia.
Qed.

Lemma pool_cost_nonneg p : 0 <= pool_cost p.
Proof.
  unfold pool_cost. pose proof (weights_nonneg (threads p) (bgthreads_ p)). pose proof (zlen_nonneg (queue_ p)).
  pose proof (Z.square_nonneg (zlen (bgthreads_ p))). destruct (joining p) as [l|]; [pose proof (zlen_nonneg l)|]; lia.
Qed.

(** A change of one thread. *)
Lemma put_cost p q t th th' : pool_wf p -> threads p !! t = Some th ->
  pool_cost (put_thread (set_queue p q) t th') =
  pool_cost p - weight (Some th) + weight (Some th') + 2 * (zlen q - zlen (queue_ p)).
Proof.
  intros Hwf Ht. unfold pool_cost, put_thread, set_threads, set_queue. cbn [threads bgthreads_ queue_ joining].
  rewrite weights_insert; [rewrite Ht; lia|apply (wf_nodup _ Hwf)|].
  destruct (wf_thread _ Hwf _ _ Ht) as (_ & _ & H). by eapply list_elem_of_lookup_2.
Qed.

Lemma turn_cost p t th es p' : pool_ok p -> threads p !! t = Some th -> turn p t th es p' -> pool_cost p' < pool_cost p.
Proof.
  intros [Hwf Hn] Ht Htn. pose proof (put_cost p (queue_ p) t th) as Hput.
  assert (forall th', pool_cost (put_thread (set_queue p (queue_ p)) t th') = pool_cost (put_thread p t th')) as Hsame by done.
  destruct Htn as [Hat He Hq Hx|Hat He|p' Hat He Hx Hi ->|item q d Hat He Hq Hi|d item es th' Hat -> Hi Hd' Ha].
  - rewrite <- Hsame, Hput by done. simpl. rewrite Hat. lia.
  - rewrite <- Hsame, Hput by done. simpl. rewrite Hat. lia.
  - pose proof (last_thread p t th Hwf Ht Hi) as El. destruct (wf_running _ Hwf He) as [Hj _].
    assert (weights (threads p) [t] = 1) as Hw by (simpl; rewrite Ht; simpl; by rewrite Hat).
    pose proof (weights_delete (threads p) (removelast (bgthreads_ p)) t).
    pose proof (weights_wake (fun _ => true) (delete t (threads p)) (removelast (bgthreads_ p))).
    assert (weights (threads p) (bgthreads_ p) = weights (threads p) (removelast (bgthreads_ p)) + 1) as Ew
      by (rewrite El at 1; by rewrite weights_app, Hw).
    assert (zlen (bgthreads_ p) = zlen (removelast (bgthreads_ p)) + 1) as Es by (rewrite El at 1; by rewrite zlen_app).
    unfold pool_cost. pose proof (zlen_nonneg (removelast (bgthreads_ p))).
    destruct (HasExcessiveThread (without_last p t)); simpl; rewrite Hj, Ew, Es; nia.
  - rewrite put_cost with (th := th) by done. rewrite Hq, zlen_cons. simpl. rewrite Hat. lia.
  - rewrite <- Hsame, Hput by done. simpl. rewrite Hat, Ha. lia.
Qed.

(** The turns that the threads of the pool, and the caller of [JoinAllThreads], make by
    themselves. *)
Definition is_work (a : action) : Prop := match a with AThread _ | AJoinNext => True | _ => False end.
Inductive work_run (p : Pool) : nat -> list event -> Pool -> Prop :=
| work_start : work_run p 0 [] p
| work_step n es p1 a es' p2 : work_run p n es p1 -> is_work a -> perform a p1 = Ret (Some (es', p2)) ->
    work_run p (S n) (es ++ es') p2.

(** None of them can move. *)
Definition at_rest (p : Pool) : Prop := forall a, is_work a -> perform a p = Ret None.

Lemma is_work_step a es p p' : is_work a -> perform a p = Ret (Some (es, p')) -> pool_step a es p p'.
Proof. intros Hw E. split; [by destruct a|done]. Qed.

Lemma work_cost a es p p' : pool_ok p -> is_work a -> perform a p = Ret (Some (es, p')) -> pool_cost p' < pool_cost p.
Proof.
  intros Hok Hw E. pose proof Hok as [Hwf _]. destruct a as [| | | | | |t|]; try done; cbn [perform] in E.
  - unfold JoinAllThreads_next in E. destruct (joining p) as [[|t l]|] eqn:Hj; [| |done].
    + injection E as <- <-. unfold pool_cost. simpl. rewrite Hj. pose proof (weights_nonneg (threads p) (bgthreads_ p)).
      pose proof (Z.square_nonneg (zlen (bgthreads_ p))). change (zlen (@nil pthread_t)) with 0. lia.
    + unfold ThreadJoin in E. destruct (threads p !! t) as [th|]; [|done]. destruct (detached th); [done|].
      destruct (at_ th); try done. injection E as <- <-. unfold pool_cost. simpl. rewrite Hj, zlen_cons.
      pose proof (weights_delete (threads p) (bgthreads_ p) t). lia.
  - destruct (BGThread_ok t p Hok) as (r & E1 & Hr). rewrite E1 in E. injection E as ->.
    destruct Hr as (th & Ht & Htn). by eapply turn_cost.
Qed.

Lemma work_run_facts p n es p' : pool_ok p -> work_run p n es p' -> pool_ok p' /\ Z.of_nat n + pool_cost p' <= pool_cost p.
Proof.
  intros Hok. induction 1 as [|n es p1 a es' p2 _ [Hok1 IH] Hw E]; [split; [done|lia]|].
  split; [exact (pool_step_ok _ _ _ _ Hok1 (is_work_step a es' p1 p2 Hw E))|]. pose proof (work_cost a es' p1 p2 Hok1 Hw E). lia.
Qed.

Lemma work_run_run p0 es0 p n es p' : pool_run p0 es0 p -> work_run p n es p' -> pool_run p0 (es0 ++ es) p'.
Proof.
  intros H0. induction 1 as [|n es p1 a es' p2 _ IH Hw E]; [by rewrite app_nil_r|].
  rewrite app_assoc. econstructor; [exact IH|exact (is_work_step a es' p1 p2 Hw E)].
Qed.

(** A thread at rest waits or has returned. *)
Lemma at_rest_thread p t th : pool_ok p -> at_rest p -> threads p !! t = Some th -> at_ th = Waiting \/ at_ th = Exited.
Proof.
  intros Hok Hr Ht. specialize (Hr (AThread t) I). cbn [perform] in Hr.
  destruct (at_ th) as [| |d i|] eqn:Ha; [|by left| |by right].
  - destruct (BGThread_turn p t th Hok Ht (or_introl Ha)) as (es & p' & E & _). congruence.
  - destruct (BGThread_turn p t th Hok Ht) as (es & p' & E & _); [right; by exists d, i|congruence].
Qed.

Lemma at_rest_running p : pool_ok p -> at_rest p -> exit_all_threads_ p = false ->
  queue_ p = [] /\ HasExcessiveThread p = false /\ forall t th, threads p !! t = Some th -> at_ th = Waiting.
Proof.
  intros Hok Hr He. pose proof Hok as [Hwf Hn].
  assert (forall t th, threads p !! t = Some th -> at_ th = Waiting) as Hall.
  { intros t th Ht. destruct (at_rest_thread p t th Hok Hr Ht) as [|Hx]; [done|].
    by destruct (proj2 (wf_running _ Hwf He) t th Ht). }
  assert (forall t id, ~ awake p t id) as Hno.
  { intros t id (th & Ht & _ & Hw). unfold is_waiting in Hw. by rewrite (Hall t th Ht) in Hw. }
  destruct (Hn He) as [Hq Hl]. split; [|split; [|done]].
  - destruct (queue_ p); [done|]. destruct (Hq ltac:(done)) as (t & id & Ha & _). by destruct (Hno t id).
  - apply not_true_is_false. intros Hx. destruct (Hl Hx) as (t & Ha). by destruct (Hno _ _ Ha).
Qed.

Lemma at_rest_joined p : pool_ok p -> at_rest p -> exit_all_threads_ p = true -> threads p = ∅ /\ bgthreads_ p = [].
Proof.
  intros Hok Hr He. pose proof Hok as [Hwf _]. pose proof (Hr AJoinNext I) as Hj. cbn [perform] in Hj.
  unfold JoinAllThreads_next in Hj. pose proof (wf_alive _ Hwf) as Ha. unfold alive in Ha.
  destruct (joining p) as [[|t l]|] eqn:Ej; [done| |].
  - destruct (proj1 (Ha t)) as [th Ht]; [left|]. unfold ThreadJoin in Hj. rewrite Ht in Hj.
    destruct (wf_thread _ Hwf _ _ Ht) as (Hd & _). rewrite Hd in Hj. pose proof (wf_exiting _ Hwf He t th Ht) as Hw.
    unfold is_waiting in Hw. destruct (at_rest_thread p t th Hok Hr Ht) as [Hx|Hx]; rewrite Hx in Hj, Hw; done.
  - pose proof (wf_joined _ Hwf He Ej) as Hb. split; [|done]. apply map_eq. intros t. rewrite lookup_empty.
    apply eq_None_not_Some. rewrite <- Ha, Hb. apply not_elem_of_nil.
Qed.

(** ** The properties *)

(** C22: After any run of a new pool every turn can be performed without an abort or undefined
    behaviour: no [assert] fails, no handle is detached or joined wrongly, [front] and [back]
    are not called on empty containers. [bgthreads_] has the threads by their [thread_id],
    [GetQueueLen] is the length of the queue as [unsigned int], and a pool that has been
    joined can be destroyed. *)
Theorem pool_never_aborts pr es p : pool_run (ThreadPoolImpl_new pr) es p ->
  (forall a, allowed a p -> exists r, perform a p = Ret r) /\
  (forall t th, threads p !! t = Some th -> bgthreads_ p !! Z.to_nat (thread_id th) = Some t) /\
  GetQueueLen p = u32 (zlen (queue_ p)) /\
  (exit_all_threads_ p = true -> at_rest p -> ThreadPoolImpl_delete p = Ret tt).
Proof.
  intros [Hok _]%pool_history. pose proof Hok as [Hwf _]. split; [|split; [|split]].
  - intros a Ha. destruct (perform_ok a p Hok Ha) as (r & E & _). by exists r.
  - intros t th (_ & _ & H)%(wf_thread _ Hwf). done.
  - apply (wf_len _ Hwf).
  - intros He Hr. destruct (at_rest_joined p Hok Hr He) as [_ Hb]. unfold ThreadPoolImpl_delete. by rewrite Hb.
Qed.

(** C21: Scheduled items are started in the order in which they were scheduled, whatever the
    interleaving: what the threads took and what is queued is a subsequence of what was
    scheduled, what is missing was cancelled by [UnSchedule], nothing is lost or doubled, and
    each thread runs what it takes. *)
Theorem pool_fifo pr es p : pool_run (ThreadPoolImpl_new pr) es p ->
  sublist (dequeued es ++ queue_ p) (enqueued es) /\
  enqueued es ≡ₚ dequeued es ++ cancelled es ++ queue_ p /\
  forall t, dequeued_by t es = ran_by t es ++ running_on p t.
Proof. intros [_ []]%pool_history. done. Qed.

(** C20: Every pool comes to rest after at most [pool_cost] turns of its threads, in any order,
    and rests only when nothing is left to do: if it has not been told to exit, the queue is
    empty, the threads over the limit are gone and every item that was scheduled and not
    cancelled has been taken and run; if it has, all threads are joined. *)
Theorem pool_drains pr es p n es' p' : pool_run (ThreadPoolImpl_new pr) es p -> work_run p n es' p' ->
  Z.of_nat n <= pool_cost p /\
  (at_rest p' -> exit_all_threads_ p' = false -> queue_ p' = [] /\ zlen (bgthreads_ p') <= total_threads_limit_ p' /\
    enqueued (es ++ es') ≡ₚ dequeued (es ++ es') ++ cancelled (es ++ es') /\
    forall t, dequeued_by t (es ++ es') = ran_by t (es ++ es')) /\
  (at_rest p' -> exit_all_threads_ p' = true -> threads p' = ∅ /\ bgthreads_ p' = []).
Proof.
  intros Hrun Hwork. destruct (pool_history _ _ _ Hrun) as [Hok _].
  destruct (work_run_facts _ _ _ _ Hok Hwork) as [Hok' Hc]. pose proof (pool_cost_nonneg p'). split; [lia|]. split.
  - intros Hr He. destruct (at_rest_running p' Hok' Hr He) as (Hq & Hx & Hw).
    destruct (pool_history _ _ _ (work_run_run _ _ _ _ _ _ Hrun Hwork)) as [_ [Ho Hal Hth]]. split; [done|]. split.
    { destruct Hok' as [Hwf' _]. rewrite has_excessive in Hx by done. lia. }
    split; [by rewrite Hal, Hq, app_nil_r|]. intros t. rewrite Hth. unfold running_on.
    destruct (threads p' !! t) as [th|] eqn:Ht; [|by rewrite app_nil_r]. by rewrite (Hw _ _ Ht), app_nil_r.
  - intros Hr He. by apply at_rest_joined.
Qed.

(** ** A pool at work *)

Definition demo_item : BGItem := mkItem 7 100 1 None.
Definition demo_after (a : action) (p : Pool) : Pool :=
  match perform a p with Ret (Some (_, p')) => p' | _ => p end.
Definition demo_start : action := ASetBackgroundThreads [1%positive; 2%positive] 2 true.
Definition demo_schedule : action := ASchedule [] {[ 1%positive ]} demo_item.
Definition demo_idle : Pool := demo_after demo_start (ThreadPoolImpl_new 0).
Definition demo_pool : Pool := demo_after demo_schedule demo_idle.
Definition demo_taken : Pool := demo_after (AThread 1%positive) demo_pool.
Definition demo_done : Pool := demo_after (AThread 1%positive) demo_taken.
Definition demo_waits : Pool := demo_after (AThread 1%positive) demo_done.
Definition demo_rest : Pool := demo_after (AThread 2%positive) demo_waits.

Lemma demo_run : pool_run (ThreadPoolImpl_new 0) [Enqueued demo_item] demo_pool.
Proof.
  change [Enqueued demo_item] with (([] ++ []) ++ [Enqueued demo_item]).
  apply (run_step _ _ demo_idle demo_schedule); [apply (run_step _ _ (ThreadPoolImpl_new 0) demo_start); [apply run_start|]|]; split; try (vm_compute; reflexivity).
  - split; [vm_compute; reflexivity|]. split; [by apply (bool_decide_eq_true_1 _)|]. split; [|by vm_compute].
    intros t _. apply lookup_empty.
  - split; [split; [apply NoDup_nil_2|]; split; [by intros t ?%elem_of_nil|by vm_compute]|].
    intros (t & th & Ht & Hw). assert (map_Forall (fun _ th => is_waiting th = false) (threads demo_idle)) as Ha by (apply (bool_decide_eq_true_1 _); by vm_compute).
    rewrite (Ha t th Ht) in Hw. done.
Qed.

Lemma demo_work : work_run demo_pool 4 [Dequeued 1%positive demo_item; Ran 1%positive demo_item] demo_rest.
Proof.
  change [Dequeued 1%positive demo_item; Ran 1%positive demo_item] with (((([] ++ [Dequeued 1%positive demo_item]) ++ [Ran 1%positive demo_item]) ++ []) ++ []).
  apply (work_step _ _ _ demo_waits (AThread 2%positive)); [|done|vm_compute; reflexivity].
  apply (work_step _ _ _ demo_done (AThread 1%positive)); [|done|vm_compute; reflexivity].
  apply (work_step _ _ _ demo_taken (AThread 1%positive)); [|done|vm_compute; reflexivity].
  apply (work_step _ _ _ demo_pool (AThread 1%positive)); [|done|vm_compute; reflexivity].
  apply work_start.
Qed.

Lemma rest_when_waiting p : map_Forall (fun _ th => at_ th = Waiting) (threads p) -> joining p = None -> at_rest p.
Proof.
  intros Hw Hj [| | | | | |t|] Ha; try done; cbn [perform]; [unfold JoinAllThreads_next; by rewrite Hj|].
  unfold BGThread. destruct (threads p !! t) as [th|] eqn:Ht; [|done]. by rewrite (Hw t th Ht).
Qed.

Lemma demo_at_rest : at_rest demo_rest.
Proof. apply rest_when_waiting; [|by vm_compute]. apply map_Forall_to_list. vm_compute. by repeat constructor. Qed.

Lemma pool_never_aborts_witness : exists r, perform (AThread 1%positive) demo_pool = Ret r.
Proof. apply (pool_never_aborts 0 [Enqueued demo_item] demo_pool demo_run). exact I. Defined.

Lemma pool_fifo_witness : enqueued ([Enqueued demo_item] ++ [Dequeued 1%positive demo_item; Ran 1%positive demo_item]) ≡ₚ [demo_item] ++ [] ++ [].
Proof. exact (proj1 (proj2 (pool_fifo 0 _ demo_rest (work_run_run _ _ _ _ _ _ demo_run demo_work)))). Defined.

Lemma pool_drains_witness : 4 <= pool_cost demo_pool /\ queue_ demo_rest = [].
Proof.
  destruct (pool_drains 0 _ demo_pool 4 _ demo_rest demo_run demo_work) as (Hn & Hr & _).
  split; [exact Hn|]. destruct (Hr demo_at_rest) as [Hq _]; [vm_compute; reflexivity|exact Hq].
Defined.
