(* ===== verification/ThreadLocal.v ===== *)
(** * ThreadLocal ([include/rocksutil/thread_local.h], [rutil/thread_local.cc])

    [ThreadLocalPtr] on top of its singleton [StaticMeta]: every thread has a [ThreadData]
    with a vector of pointers indexed by instance ids, and the [ThreadData]s are chained into
    a ring with the member [head_]. Every method is one step: under the mutex, or an atomic
    access of the thread's own vector. A pointer is a number, [nullptr] is 0. *)

From stdpp Require Import list gmap.
From S2P Require Import Prelude.

(** ** The state *)

Definition loc : Type := Z.
Definition thread : Type := Z.
(** The address of [head_]. *)
Definition head_ : loc := 0.

(** [StaticMeta], with the [next], [prev] and [entries] members of the [ThreadData]s on the
    heap, the variable [tls_] and the value of [pthread_key_] of each thread, and the calls of
    [UnrefHandler]s so far (handler and argument). *)
Record StaticMeta : Type := mkMeta {
  next_instance_id_ : Z;
  free_instance_ids_ : list Z;
  td_next : gmap loc loc;
  td_prev : gmap loc loc;
  td_entries : gmap loc (list Z);
  handler_map_ : gmap Z (option Z);
  tls_ : gmap thread loc;
  specific : gmap thread loc;
  unrefs : list (Z * Z);
}.

Definition set_ids (m : StaticMeta) n f := mkMeta n f (td_next m) (td_prev m) (td_entries m) (handler_map_ m) (tls_ m) (specific m) (unrefs m).
Definition set_links (m : StaticMeta) nx pv := mkMeta (next_instance_id_ m) (free_instance_ids_ m) nx pv (td_entries m)
  (handler_map_ m) (tls_ m) (specific m) (unrefs m).
Definition set_entries (m : StaticMeta) e := mkMeta (next_instance_id_ m) (free_instance_ids_ m) (td_next m) (td_prev m) e
  (handler_map_ m) (tls_ m) (specific m) (unrefs m).
Definition set_handlers (m : StaticMeta) h := mkMeta (next_instance_id_ m) (free_instance_ids_ m) (td_next m) (td_prev m) (td_entries m)
  h (tls_ m) (specific m) (unrefs m).
Definition set_tls (m : StaticMeta) t s := mkMeta (next_instance_id_ m) (free_instance_ids_ m) (td_next m) (td_prev m) (td_entries m)
  (handler_map_ m) t s (unrefs m).
Definition add_unref (m : StaticMeta) (h : option Z) (p : Z) : StaticMeta :=
  match h with
  | Some f => mkMeta (next_instance_id_ m) (free_instance_ids_ m) (td_next m) (td_prev m) (td_entries m)
                (handler_map_ m) (tls_ m) (specific m) (unrefs m ++ [(f, p)])
  | None => m
  end.

(** ** The monad *)

Definition T (A : Type) : Type := StaticMeta -> outcome (A * StaticMeta).
#[export] Instance T_ret : MRet T := fun A a m => Ret (a, m).
#[export] Instance T_bind : MBind T := fun A B f k m =>
  match k m with
  | Ret (a, m') => f a m'
  | AssertFail => AssertFail
  | Undef => Undef
  | NoFuel => NoFuel
  end.
Definition tget : T StaticMeta := fun m => Ret (m, m).
Definition tmodify (f : StaticMeta -> StaticMeta) : T unit := fun m => Ret (tt, f m).
Definition tundef {A} : T A := fun _ => Undef.

(** Reading and writing a member of a [ThreadData]. *)
Definition tload {A} (field : StaticMeta -> gmap loc A) (d : loc) : T A := fun m =>
  match field m !! d with Some v => Ret (v, m) | None => Undef end.
Definition store_next (d v : loc) : T unit := fun m =>
  match td_next m !! d with Some _ => Ret (tt, set_links m (<[d := v]> (td_next m)) (td_prev m)) | None => Undef end.
Definition store_prev (d v : loc) : T unit := fun m =>
  match td_prev m !! d with Some _ => Ret (tt, set_links m (td_next m) (<[d := v]> (td_prev m))) | None => Undef end.
Definition store_entries (d : loc) (es : list Z) : T unit := fun m =>
  match td_entries m !! d with Some _ => Ret (tt, set_entries m (<[d := es]> (td_entries m))) | None => Undef end.

(** ** The code *)

Definition AddThreadData (d : loc) : T unit :=
  _ ← store_next d head_;
  p ← tload td_prev head_;
  _ ← store_prev d p;
  p ← tload td_prev head_;
  _ ← store_next p d;
  store_prev head_ d.

Definition RemoveThreadData (d : loc) : T unit :=
  n ← tload td_next d;
  p ← tload td_prev d;
  _ ← store_prev n p;
  p ← tload td_prev d;
  n ← tload td_next d;
  _ ← store_next p n;
  _ ← store_prev d d;
  store_next d d.

(** The constructor of [StaticMeta]. *)
Definition StaticMeta_new : StaticMeta := mkMeta 0 [] {[ head_ := head_ ]} {[ head_ := head_ ]} ∅ ∅ ∅ ∅ [].

(** [new ThreadData(inst)] at [d]; [next] and [prev] get their values in [AddThreadData]. *)
Definition new_ThreadData (d : loc) : T unit :=
  tmodify (fun m => set_entries (set_links m (<[d := 0]> (td_next m)) (<[d := 0]> (td_prev m))) (<[d := []]> (td_entries m))).
Definition delete_ThreadData (d : loc) : T unit :=
  tmodify (fun m => set_entries (set_links m (delete d (td_next m)) (delete d (td_prev m))) (delete d (td_entries m))).

(** [GetThreadLocal] in thread [t]. If the thread has no [ThreadData] yet, [fresh] is the
    address of the new one; without one [pthread_setspecific] fails and the process aborts. *)
Definition GetThreadLocal (t : thread) (fresh : option loc) : T loc :=
  m ← tget;
  match tls_ m !! t with
  | Some d => mret d
  | None =>
      match fresh with
      | None => fun _ => AssertFail
      | Some d =>
          _ ← tmodify (fun m => set_tls m (<[t := d]> (tls_ m)) (specific m));
          _ ← new_ThreadData d;
          _ ← AddThreadData d;
          _ ← tmodify (fun m => set_tls m (tls_ m) (<[t := d]> (specific m)));
          mret d
      end
  end.

(** [entries[id]]: outside of the vector there is no entry. *)
Definition entry_at (es : list Z) (id : Z) : T Z :=
  match es !! Z.to_nat id with Some p => mret p | None => tundef end.
Definition put_entry (es : list Z) (id p : Z) : list Z := <[Z.to_nat id := p]> es.

(** [vector::resize] with null entries. *)
Definition resize_entries (es : list Z) (n : Z) : list Z :=
  ztake n es ++ zrep (n - zlen es) 0.

Definition meta_Get (t : thread) (fresh : option loc) (id : Z) : T Z :=
  d ← GetThreadLocal t fresh;
  es ← tload td_entries d;
  if zlen es <=? id then mret 0 else entry_at es id.

(** What [Reset], [Swap] and [CompareAndSwap] start with: the thread's [ThreadData], whose
    vector has been extended if it is too short; [id + 1] is in [uint32_t]. *)
Definition own_entries (t : thread) (fresh : option loc) (id : Z) : T (loc * list Z) :=
  d ← GetThreadLocal t fresh;
  es ← tload td_entries d;
  if zlen es <=? id then
    let es := resize_entries es (u32 (id + 1)) in
    _ ← store_entries d es;
    mret (d, es)
  else mret (d, es).

Definition meta_Reset (t : thread) (fresh : option loc) (id p : Z) : T unit :=
  '(d, es) ← own_entries t fresh id;
  _ ← entry_at es id;
  store_entries d (put_entry es id p).

Definition meta_Swap (t : thread) (fresh : option loc) (id p : Z) : T Z :=
  '(d, es) ← own_entries t fresh id;
  old ← entry_at es id;
  _ ← store_entries d (put_entry es id p);
  mret old.

(** The result, and [expected] afterwards. *)
Definition meta_CompareAndSwap (t : thread) (fresh : option loc) (id p expected : Z) : T (bool * Z) :=
  '(d, es) ← own_entries t fresh id;
  old ← entry_at es id;
  if old =? expected then
    _ ← store_entries d (put_entry es id p);
    mret (true, expected)
  else mret (false, old).

(** The loop [for (t = head_.next; t != &head_; t = t->next)] from [d] on, with a body that
    sees the [ThreadData]; the results of the body, in order. *)
Fixpoint for_each {A} (fuel : nat) (d : loc) (body : loc -> T (list A)) : T (list A) :=
  if d =? head_ then mret []
  else
    match fuel with
    | O => fun _ => NoFuel
    | S fuel' =>
        l ← body d;
        n ← tload td_next d;
        l' ← for_each fuel' n body;
        mret (l ++ l')
    end.
(** There are no more [ThreadData]s in the ring than on the heap. *)
Definition for_threads {A} (body : loc -> T (list A)) : T (list A) :=
  m ← tget;
  d ← tload td_next head_;
  for_each (size (td_entries m)) d body.

(** The exchange of entry [id] of [d] for [p], if there is one: the old value if it is not
    null. *)
Definition exchange_entry (id p : Z) (d : loc) : T (list Z) :=
  es ← tload td_entries d;
  if id <? zlen es then
    old ← entry_at es id;
    _ ← store_entries d (put_entry es id p);
    mret (if old =? 0 then [] else [old])
  else mret [].

(** What [Scrape] appends to [*ptrs]. *)
Definition meta_Scrape (id replacement : Z) : T (list Z) := for_threads (exchange_entry id replacement).

(** The first arguments of the calls of [func], in order. *)
Definition meta_Fold (id : Z) : T (list Z) :=
  for_threads (fun d =>
    es ← tload td_entries d;
    if id <? zlen es then
      p ← entry_at es id;
      mret (if p =? 0 then [] else [p])
    else mret []).

Definition SetHandler (id : Z) (handler : option Z) : T unit :=
  tmodify (fun m => set_handlers m (<[id := handler]> (handler_map_ m))).
Definition GetHandler (id : Z) : T (option Z) :=
  m ← tget; mret (match handler_map_ m !! id with Some h => h | None => None end).

Definition GetId : T Z :=
  m ← tget;
  match list.last (free_instance_ids_ m) with
  | None =>
      _ ← tmodify (fun m => set_ids m (u32 (next_instance_id_ m + 1)) (free_instance_ids_ m));
      mret (next_instance_id_ m)
  | Some id =>
      _ ← tmodify (fun m => set_ids m (next_instance_id_ m) (removelast (free_instance_ids_ m)));
      mret id
  end.

Definition PeekId : T Z :=
  m ← tget;
  match list.last (free_instance_ids_ m) with
  | Some id => mret id
  | None => mret (next_instance_id_ m)
  end.

Definition ReclaimId (id : Z) : T unit :=
  unref ← GetHandler id;
  _ ← for_threads (fun d =>
        old ← exchange_entry id 0 d;
        _ ← tmodify (fun m => foldl (fun m p => add_unref m unref p) m old);
        mret ([] : list unit));
  _ ← SetHandler id None;
  tmodify (fun m => set_ids m (next_instance_id_ m) (free_instance_ids_ m ++ [id])).

(** The loop of [OnThreadExit] over the entries, [id] counts them. *)
Fixpoint unref_entries (es : list Z) (id : Z) : T unit :=
  match es with
  | [] => mret tt
  | raw :: es' =>
      _ ← (if raw =? 0 then mret tt
           else unref ← GetHandler id; tmodify (fun m => add_unref m unref raw));
      unref_entries es' (u32 (id + 1))
  end.

(** [OnThreadExit(ptr)] in thread [t], for the [ThreadData] at [d]; [tls_] keeps its value. *)
Definition OnThreadExit_of (t : thread) (d : loc) : T unit :=
  _ ← tmodify (fun m => set_tls m (tls_ m) (delete t (specific m)));
  _ ← RemoveThreadData d;
  es ← tload td_entries d;
  _ ← unref_entries es 0;
  delete_ThreadData d.

(** It is called at the end of a thread whose [pthread_key_] value is not null. *)
Definition OnThreadExit (t : thread) : T unit :=
  m ← tget;
  match specific m !! t with
  | None => mret tt
  | Some d => OnThreadExit_of t d
  end.

(** The destructor of the static [A], in the thread that ends the process. *)
Definition A_delete (t : thread) : T unit :=
  m ← tget;
  match tls_ m !! t with
  | None => mret tt
  | Some d => OnThreadExit_of t d
  end.

(** [ThreadLocalPtr] is the number [id_]. *)
Definition ThreadLocalPtr_new (handler : option Z) : T Z :=
  id ← GetId;
  _ ← match handler with Some _ => SetHandler id handler | None => mret tt end;
  mret id.
Definition ThreadLocalPtr_delete (id : Z) : T unit := ReclaimId id.
Definition Get t fresh (id : Z) : T Z := meta_Get t fresh id.
Definition Reset t fresh (id p : Z) : T unit := meta_Reset t fresh id p.
Definition Swap t fresh (id p : Z) : T Z := meta_Swap t fresh id p.
Definition CompareAndSwap t fresh (id p expected : Z) : T (bool * Z) := meta_CompareAndSwap t fresh id p expected.
Definition Scrape (id replacement : Z) : T (list Z) := meta_Scrape id replacement.
Definition Fold (id : Z) : T (list Z) := meta_Fold id.
