(* ===== verification/ThreadLocalRing.v ===== *)
(** * ThreadLocalRing: the ring of [ThreadData]s as a table

    The invariant of the ring, and what the methods do to the table of the threads and their
    vectors that it stands for. *)

From stdpp Require Import list gmap.
From S2P Require Import Prelude.
From S2P Require Import ThreadLocal.

(** ** Linked nodes *)

(** From [a] the links lead over [l] to [b], and back. *)
Fixpoint linked (nx pv : gmap loc loc) (a : loc) (l : list loc) (b : loc) : Prop :=
  match l with
  | [] => nx !! a = Some b /\ pv !! b = Some a
  | x :: l' => nx !! a = Some x /\ pv !! x = Some a /\ linked nx pv x l' b
  end.

Section linked.
Implicit Types nx pv : gmap loc loc.

Lemma linked_next d v nx pv l b : forall a, d ∉ a :: l -> linked nx pv a l b -> linked (<[d := v]> nx) pv a l b.
Proof.
  induction l as [|x l IH]; intros a [Hd Hn]%not_elem_of_cons; simpl; rewrite lookup_insert_ne by done; [done|].
  intros (H1 & H2 & H3). auto.
Qed.
Lemma linked_prev d v nx pv l b : forall a, d ∉ l -> d <> b -> linked nx pv a l b -> linked nx (<[d := v]> pv) a l b.
Proof.
  induction l as [|x l IH]; intros a Hn Hb; simpl.
  - by rewrite lookup_insert_ne.
  - apply not_elem_of_cons in Hn as [Hd Hn]. rewrite lookup_insert_ne by done. intros (H1 & H2 & H3). auto.
Qed.

Lemma last_cons (x : loc) l a : List.last (x :: l) a = List.last l x.
Proof. revert x a. induction l as [|y l IH]; intros x a; [done|]. change (List.last (y :: l) a = List.last (y :: l) x). by rewrite !IH. Qed.
Lemma last_in (l : list loc) a : List.last l a ∈ a :: l.
Proof. revert a. induction l as [|x l IH]; intros a; [left|]. rewrite last_cons. right. apply IH. Qed.

Lemma linked_last nx pv l b : forall a, linked nx pv a l b -> pv !! b = Some (List.last l a).
Proof.
  induction l as [|x l IH]; intros a; [by intros [_ ?]|]. intros (_ & _ & H). rewrite last_cons. by apply IH.
Qed.

Lemma linked_source nx pv l b p : forall a, linked nx pv a l b -> p ∈ a :: l -> is_Some (nx !! p).
Proof.
  induction l as [|y l IH]; intros a; [intros [H _] ->%list_elem_of_singleton; eauto|].
  intros (H & _ & Hl) [->|Hin]%elem_of_cons; [eauto|]. by apply (IH y).
Qed.

(** A new node before [b]. *)
Lemma linked_extend d nx pv b l : forall a, linked nx pv a l b -> NoDup (a :: l) -> d ∉ a :: l -> d <> b -> b ∉ l ->
  linked (<[List.last l a := d]> (<[d := b]> nx)) (<[b := d]> (<[d := List.last l a]> pv)) a (l ++ [d]) b.
Proof.
  induction l as [|x l IH]; intros a Hl Hnd Hd Hb Hbl.
  - simpl in *. apply not_elem_of_cons in Hd as [Hda _]. split_and!; [by rewrite lookup_insert_eq| | |by rewrite lookup_insert_eq].
    all: rewrite lookup_insert_ne by done; by rewrite lookup_insert_eq.
  - rewrite last_cons. apply list.NoDup_cons in Hnd as [Ha Hnd]. apply not_elem_of_cons in Hd as [Hda Hd].
    apply not_elem_of_cons in Hbl as [Hbx Hbl]. destruct Hl as (H1 & H2 & H3). simpl. split; [|split].
    + rewrite !lookup_insert_ne; [done|done|]. intros E. apply Ha. rewrite <- E. apply last_in.
    + apply not_elem_of_cons in Hd as [Hdx _]. by rewrite !lookup_insert_ne.
    + by apply IH.
Qed.

(** Taking a node out. *)
Lemma linked_remove d nx pv b l2 l1 : forall a, linked nx pv a (l1 ++ d :: l2) b -> NoDup (a :: l1 ++ d :: l2) -> b ∉ l1 ++ d :: l2 ->
  exists p n, nx !! d = Some n /\ pv !! d = Some p /\ p ∈ a :: l1 /\ (n ∈ l2 \/ n = b) /\
    linked (<[p := n]> nx) (<[n := p]> pv) a (l1 ++ l2) b.
Proof.
  induction l1 as [|y l1 IH]; intros a Hl Hnd Hb; simpl in *.
  - destruct Hl as (H1 & H2 & H3). apply list.NoDup_cons in Hnd as [Ha Hnd].
    destruct l2 as [|x l2]; simpl in H3.
    + destruct H3 as [H3 H4]. exists a, b. split; [done|]. split; [done|]. split; [left|]. split; [by right|].
      simpl. by rewrite !lookup_insert_eq.
    + destruct H3 as (H3 & H4 & H5). exists a, x. split; [done|]. split; [done|]. split; [left|]. split; [left; left|].
      simpl. rewrite !lookup_insert_eq. split; [done|]. split; [done|].
      apply not_elem_of_cons in Ha as [_ Ha]. apply list.NoDup_cons in Hnd as [_ Hnd]. apply list.NoDup_cons in Hnd as [Hx _].
      rewrite !not_elem_of_cons in Hb. apply linked_next; [done|]. apply linked_prev; [done|naive_solver|done].
  - destruct Hl as (H1 & H2 & H3). apply list.NoDup_cons in Hnd as [Ha Hnd]. apply not_elem_of_cons in Hb as [Hby Hb].
    destruct (IH y H3 Hnd Hb) as (p & n & Hn & Hp & Hpin & Hnin & Hl). exists p, n. do 2 (split; [done|]).
    split; [by right|]. split; [done|]. simpl. apply list.NoDup_cons in Hnd as [Hy Hnd].
    rewrite lookup_insert_ne; [rewrite lookup_insert_ne; [done|]|].
    + intros ->. destruct Hnin as [Hnin|Hnin]; [|by apply Hby]. apply Hy. set_solver.
    + intros ->. apply Ha. set_solver.
Qed.
End linked.

(** ** The table *)

(** The threads in the order of the ring, with their vectors. *)
Abbreviation table := (list (thread * list Z)).

(** The vector of a thread; empty if it has none. *)
Fixpoint vec (rows : table) (t : thread) : list Z :=
  match rows with
  | [] => []
  | (t', es) :: rows' => if bool_decide (t' = t) then es else vec rows' t
  end.
(** What [Get] is to return. *)
Definition slot (es : list Z) (id : Z) : Z := nth (Z.to_nat id) es 0.
Definition val (rows : table) (t : thread) (id : Z) : Z := slot (vec rows t) id.
Definition register (t : thread) (rows : table) : table :=
  if bool_decide (t ∈ rows.*1) then rows else rows ++ [(t, [])].
Definition set_vec (t : thread) (es : list Z) (rows : table) : table :=
  map (fun r => if bool_decide (r.1 = t) then (t, es) else r) rows.

Lemma vec_app rows1 rows2 t : vec (rows1 ++ rows2) t = if bool_decide (t ∈ rows1.*1) then vec rows1 t else vec rows2 t.
Proof.
  induction rows1 as [|[t' es] rows IH]; [done|]. simpl. rewrite IH. repeat case_bool_decide; set_solver.
Qed.
Lemma vec_absent rows t : t ∉ rows.*1 -> vec rows t = [].
Proof. induction rows as [|[t' es] rows IH]; [done|]. simpl. rewrite not_elem_of_cons. intros [? ?]. rewrite bool_decide_false by congruence. auto. Qed.
Lemma vec_register t t' rows : vec (register t rows) t' = vec rows t'.
Proof.
  unfold register. case_bool_decide as H; [done|]. rewrite vec_app. case_bool_decide; [done|]. simpl.
  rewrite (vec_absent rows) by done. by case_bool_decide.
Qed.
Lemma val_register t t' rows id : val (register t rows) t' id = val rows t' id.
Proof. unfold val. by rewrite vec_register. Qed.
Lemma register_in t rows : t ∈ (register t rows).*1.
Proof. unfold register. case_bool_decide; [done|]. rewrite fmap_app. set_solver. Qed.
Lemma set_vec_threads t es rows : (set_vec t es rows).*1 = rows.*1.
Proof. unfold set_vec. induction rows as [|[t' es'] rows IH]; [done|]. csimpl. rewrite IH. by case_bool_decide as H; [simpl in H; subst|]. Qed.
Lemma vec_set_vec t es rows t' : t ∈ rows.*1 -> vec (set_vec t es rows) t' = if bool_decide (t' = t) then es else vec rows t'.
Proof.
  unfold set_vec. induction rows as [|[t1 es1] rows IH]; [by intros ?%elem_of_nil|]. simpl. intros Hin.
  destruct (decide (t1 = t)) as [->|Hn].
  - rewrite (bool_decide_true (t = t)) by done. simpl. destruct (decide (t' = t)) as [->|Hn'].
    + by rewrite !bool_decide_true by done.
    + rewrite !(bool_decide_false (t = t')), !(bool_decide_false (t' = t)) by done.
      clear IH Hin. induction rows as [|[t2 es2] rows IH]; [done|]. simpl. case_bool_decide as H2; simpl; [|by rewrite IH].
      subst t2. rewrite !(bool_decide_false (t = t')) by done. apply IH.
  - apply elem_of_cons in Hin as [|Hin]; [done|]. rewrite (bool_decide_false (t1 = t)) by done. simpl. rewrite IH by done.
    destruct (decide (t' = t)) as [->|]; [by rewrite !(bool_decide_true (t = t)), bool_decide_false|].
    by rewrite !(bool_decide_false (t' = t)).
Qed.
Lemma rows_vec rows i t es : NoDup rows.*1 -> rows !! i = Some (t, es) -> vec rows t = es.
Proof.
  revert i. induction rows as [|[t' es'] rows IH]; intros i; [done|]. intros [Hn Hnd]%list.NoDup_cons Hi. simpl.
  destruct i as [|i]; simpl in Hi; [injection Hi as -> ->; by rewrite bool_decide_true|].
  rewrite bool_decide_false; [by eapply IH|]. intros ->. apply Hn. apply list_elem_of_lookup_2 in Hi. by apply (list_elem_of_fmap_2' fst _ (t, es)).
Qed.
Lemma insert_set_vec rows i t es es' : NoDup rows.*1 -> rows !! i = Some (t, es) -> <[i := (t, es')]> rows = set_vec t es' rows.
Proof.
  unfold set_vec. revert i. induction rows as [|[t1 es1] rows IH]; intros i; [done|]. intros [Hn Hnd]%list.NoDup_cons Hi. simpl.
  destruct i as [|i]; simpl in *.
  - injection Hi as -> ->. rewrite bool_decide_true by done. f_equal. clear IH Hnd. induction rows as [|[t2 es2] rows IH]; [done|].
    simpl in *. apply not_elem_of_cons in Hn as [Hn1 Hn2]. rewrite bool_decide_false by congruence. by rewrite <- IH.
  - rewrite bool_decide_false; [by rewrite (IH i)|]. intros ->. apply Hn. apply list_elem_of_lookup_2 in Hi. by apply (list_elem_of_fmap_2' fst _ (t, es)).
Qed.

(** ** The ring stands for a table *)

(** The nodes [ls] of the ring hold the rows of the table; [dead] are the threads that have
    ended. *)
Record ring_rep (m : StaticMeta) (dead : gset thread) (ls : list loc) (rows : table) : Prop := {
  rr_linked : linked (td_next m) (td_prev m) head_ ls head_;
  rr_nodup : NoDup (head_ :: ls);
  rr_rows : Forall2 (fun d r => td_entries m !! d = Some r.2 /\ tls_ m !! r.1 = Some d /\ specific m !! r.1 = Some d) ls rows;
  rr_threads : NoDup rows.*1;
  rr_alive : forall t, t ∈ rows.*1 -> t ∉ dead;
  rr_tls : forall t, t ∉ dead -> t ∉ rows.*1 -> tls_ m !! t = None /\ specific m !! t = None;
  rr_heap : forall d, is_Some (td_entries m !! d) <-> d ∈ ls;
}.

(** What a method that only changes the ring leaves alone. *)
Record same_ids (m m' : StaticMeta) : Prop := {
  si_next : next_instance_id_ m' = next_instance_id_ m;
  si_free : free_instance_ids_ m' = free_instance_ids_ m;
  si_handlers : handler_map_ m' = handler_map_ m;
  si_unrefs : unrefs m' = unrefs m;
}.
Lemma same_ids_refl m : same_ids m m.
Proof. done. Qed.
Lemma same_ids_trans m1 m2 m3 : same_ids m1 m2 -> same_ids m2 m3 -> same_ids m1 m3.
Proof. intros [] []. constructor; congruence. Qed.

Lemma StaticMeta_new_rep : ring_rep StaticMeta_new ∅ [] [].
Proof. constructor; try done; [apply NoDup_singleton|apply NoDup_nil_2|]. intros d. simpl. rewrite lookup_empty, elem_of_nil. by rewrite is_Some_alt. Qed.

Section ring.
Context {m : StaticMeta} {dead : gset thread} {ls : list loc} {rows : table} (HR : ring_rep m dead ls rows).

Lemma ring_size : size (td_entries m) = length ls.
Proof using HR.
  rewrite <- size_dom. assert (dom (td_entries m) = list_to_set (C := gset loc) ls) as ->.
  { apply set_eq. intros d. rewrite elem_of_dom, elem_of_list_to_set. apply (rr_heap _ _ _ _ HR). }
  apply size_list_to_set. pose proof (rr_nodup _ _ _ _ HR) as Hnd. by apply list.NoDup_cons in Hnd as [_ ?].
Qed.

Lemma ring_row t : t ∈ rows.*1 -> exists i d, ls !! i = Some d /\ rows !! i = Some (t, vec rows t) /\
  td_entries m !! d = Some (vec rows t) /\ tls_ m !! t = Some d /\ specific m !! t = Some d.
Proof using HR.
  intros ([t' es] & -> & Hin)%list_elem_of_fmap. apply list_elem_of_lookup in Hin as [i Hi].
  destruct (Forall2_lookup_r _ _ _ _ _ (rr_rows _ _ _ _ HR) Hi) as (d & Hd & He & Ht & Hs).
  simpl in *. rewrite (rows_vec rows i t' es (rr_threads _ _ _ _ HR) Hi). by exists i, d.
Qed.

(** Writing the vector of a thread. *)
Lemma store_entries_spec i t es0 d es : ls !! i = Some d -> rows !! i = Some (t, es0) ->
  exists m', store_entries d es m = Ret (tt, m') /\ ring_rep m' dead ls (set_vec t es rows) /\ same_ids m m' /\
    tls_ m' = tls_ m /\ td_entries m' = <[d := es]> (td_entries m).
Proof using HR.
  intros Hd Hr. destruct (Forall2_lookup_lr _ _ _ _ _ _ (rr_rows _ _ _ _ HR) Hd Hr) as (He & _ & _). unfold store_entries.
  rewrite He. eexists. split; [done|]. split; [|done]. pose proof HR as []. constructor; simpl; try done.
  - rewrite <- (insert_set_vec rows i t es0 es) by done. apply list.NoDup_cons in rr_nodup0 as [_ Hnd]. apply Forall2_same_length_lookup.
    split; [rewrite length_insert; by eapply Forall2_length|]. intros j x y Hx Hy.
    destruct (decide (j = i)) as [->|Hj].
    + rewrite list_lookup_insert_eq in Hy by by eapply lookup_lt_Some. injection Hy as <-. replace x with d in * by congruence.
      rewrite lookup_insert_eq. destruct (Forall2_lookup_lr _ _ _ _ _ _ rr_rows0 Hd Hr) as (_ & ? & ?). done.
    + rewrite list_lookup_insert_ne in Hy by done. rewrite lookup_insert_ne; [by apply (Forall2_lookup_lr _ _ _ _ _ _ rr_rows0 Hx Hy)|].
      intros <-. by apply Hj, (NoDup_lookup ls j i d).
  - by rewrite set_vec_threads.
  - intros t1. rewrite set_vec_threads. apply rr_alive0.
  - intros t1. rewrite set_vec_threads. apply rr_tls0.
  - intros d1. rewrite lookup_insert_is_Some, rr_heap0. split; [|destruct (decide (d = d1)); tauto]. intros [<-|[_ H]]; [|done].
    by eapply list_elem_of_lookup_2.
Qed.
End ring.

(** The address of a new [ThreadData]. *)
Definition fresh_data (m : StaticMeta) (fresh : option loc) : Prop :=
  exists d, fresh = Some d /\ d <> head_ /\ td_entries m !! d = None.

(** The steps of a method. *)
Lemma tload_bind {A B} (field : StaticMeta -> gmap loc A) d v (k : A -> T B) m : field m !! d = Some v -> (tload field d ≫= k) m = k v m.
Proof. intros H. unfold mbind, T_bind, tload. by rewrite H. Qed.
Lemma store_next_bind {B} d v (k : unit -> T B) m : is_Some (td_next m !! d) ->
  (store_next d v ≫= k) m = k tt (set_links m (<[d := v]> (td_next m)) (td_prev m)).
Proof. intros [x H]. unfold mbind, T_bind, store_next. by rewrite H. Qed.
Lemma store_prev_bind {B} d v (k : unit -> T B) m : is_Some (td_prev m !! d) ->
  (store_prev d v ≫= k) m = k tt (set_links m (td_next m) (<[d := v]> (td_prev m))).
Proof. intros [x H]. unfold mbind, T_bind, store_prev. by rewrite H. Qed.
Lemma store_prev_ret d v m : is_Some (td_prev m !! d) -> store_prev d v m = Ret (tt, set_links m (td_next m) (<[d := v]> (td_prev m))).
Proof. intros [x H]. unfold store_prev. by rewrite H. Qed.
Lemma store_next_ret d v m : is_Some (td_next m !! d) -> store_next d v m = Ret (tt, set_links m (<[d := v]> (td_next m)) (td_prev m)).
Proof. intros [x H]. unfold store_next. by rewrite H. Qed.
Lemma T_bind_step {A B} (x : T A) (k : A -> T B) a m m' : x m = Ret (a, m') -> (x ≫= k) m = k a m'.
Proof. intros E. unfold mbind, T_bind. by rewrite E. Qed.

(** [AddThreadData] puts a node at the end of the ring. *)
Lemma AddThreadData_spec nx pv d ls m : td_next m = <[d := 0]> nx -> td_prev m = <[d := 0]> pv ->
  linked nx pv head_ ls head_ -> NoDup (head_ :: ls) -> d ∉ head_ :: ls ->
  exists nx' pv', AddThreadData d m = Ret (tt, set_links m nx' pv') /\ linked nx' pv' head_ (ls ++ [d]) head_.
Proof.
  intros Hnx Hpv Hl Hnd Hd. pose proof Hd as [Hdh Hdl]%not_elem_of_cons. apply list.NoDup_cons in Hnd as Hhl. destruct Hhl as [Hhl _].
  pose proof (linked_last _ _ _ _ _ Hl) as Hp. set (p := List.last ls head_) in *.
  assert (p ∈ head_ :: ls) as Hpin by apply last_in. assert (p <> d) as Hpd by congruence.
  assert (is_Some (nx !! p)) as [x Hx].
  { by eapply linked_source. }
  exists (<[p := d]> (<[d := head_]> nx)), (<[head_ := d]> (<[d := p]> pv)). split; [|by apply linked_extend].
  unfold AddThreadData. rewrite store_next_bind by (rewrite Hnx, lookup_insert_eq; eauto). rewrite Hnx, insert_insert_eq.
  rewrite (tload_bind _ _ p) by (simpl; rewrite Hpv; by rewrite lookup_insert_ne).
  rewrite store_prev_bind by (simpl; rewrite Hpv, lookup_insert_eq; eauto). simpl. rewrite Hpv, insert_insert_eq.
  rewrite (tload_bind _ _ p) by (simpl; by rewrite lookup_insert_ne).
  rewrite store_next_bind by (simpl; rewrite lookup_insert_ne by done; eauto). simpl.
  rewrite store_prev_ret by (simpl; rewrite lookup_insert_ne, Hp by done; eauto). done.
Qed.
