(* ===== verification/ThreadLocalSpec.v ===== *)
(** * ThreadLocalSpec: the methods of [StaticMeta] as operations on the table *)

From stdpp Require Import list gmap.
From S2P Require Import Prelude.
From S2P Require Import ThreadLocal.
From S2P Require Import ThreadLocalRing.

Lemma Forall2_impl_elem {A B} (P Q : A -> B -> Prop) l k : Forall2 P l k ->
  (forall x y, x ∈ l -> y ∈ k -> P x y -> Q x y) -> Forall2 Q l k.
Proof. induction 1 as [|x y l k Hxy _ IH]; intros H; constructor; [apply H; [left|left|done]|]. apply IH. intros. apply H; [by right|by right|done]. Qed.

Lemma nth_nulls n i : nth i (replicate n 0) 0 = 0.
Proof. revert i. induction n; intros []; simpl; auto. Qed.

(** ** The [ThreadData] of a thread *)

Section own.
Context {m : StaticMeta} {dead : gset thread} {ls : list loc} {rows : table} (HR : ring_rep m dead ls rows).

(** [GetThreadLocal] registers the thread if needed. *)
Lemma GetThreadLocal_spec t fresh : t ∉ dead -> fresh_data m fresh ->
  exists d m' ls' i, GetThreadLocal t fresh m = Ret (d, m') /\ ring_rep m' dead ls' (register t rows) /\ same_ids m m' /\
    ls' !! i = Some d /\ register t rows !! i = Some (t, vec rows t) /\ td_entries m' !! d = Some (vec rows t).
Proof using HR.
  intros Ht Hf. unfold GetThreadLocal, register. destruct (decide (t ∈ rows.*1)) as [Hin|Hin].
  - rewrite bool_decide_true by done. destruct (ring_row HR t Hin) as (i & d & Hd & Hr & He & Htls & _).
    exists d, m, ls, i. split; [|done]. unfold tget, mbind, T_bind. by rewrite Htls.
  - rewrite bool_decide_false by done. pose proof HR as [Hlk Hnd Hrows Hths Hal Htls Hheap]. destruct (Htls t Ht Hin) as [Htl Hsp].
    destruct Hf as (d & -> & Hdh & Hdn).
    assert (d ∉ ls) as Hdl by (rewrite <- Hheap, Hdn; by intros []).
    assert (forall r, r ∈ rows -> r.1 <> t) as Hrt by (intros r Hr E; apply Hin; rewrite <- E; by apply list_elem_of_fmap_2).
    set (m1 := set_tls m (<[t := d]> (tls_ m)) (specific m)).
    set (m2 := set_entries (set_links m1 (<[d := 0]> (td_next m1)) (<[d := 0]> (td_prev m1))) (<[d := []]> (td_entries m1))).
    destruct (AddThreadData_spec (td_next m) (td_prev m) d ls m2) as (nx & pv & E & Hl); [done|done|done|done|by rewrite not_elem_of_cons|].
    exists d, (set_tls (set_links m2 nx pv) (tls_ m2) (<[t := d]> (specific m2))), (ls ++ [d]), (length ls).
    split; [|split; [|split; [done|]]].
    + unfold tget, tmodify, new_ThreadData. rewrite (T_bind_step _ _ m m m) by done. rewrite Htl.
      rewrite (T_bind_step _ _ tt m m1) by done. rewrite (T_bind_step _ _ tt m1 m2) by done. by rewrite (T_bind_step _ _ tt m2 _ E).
    + constructor; simpl; try done.
      * apply list.NoDup_cons in Hnd as [H1 H2]. apply list.NoDup_cons. split; [set_solver|]. apply list.NoDup_app.
        split; [done|]. split; [set_solver|apply NoDup_singleton].
      * apply Forall2_app; [|constructor; [|constructor]].
        -- eapply Forall2_impl_elem; [exact Hrows|]. intros d1 r Hd1 Hr (H1 & H2 & H3). simpl.
           assert (d <> d1) by (by intros ->). pose proof (Hrt r Hr). by rewrite !lookup_insert_ne by done.
        -- simpl. by rewrite !lookup_insert_eq.
      * rewrite fmap_app. apply list.NoDup_app. split; [done|]. split; [set_solver|apply NoDup_singleton].
      * intros t1. rewrite fmap_app. set_solver.
      * intros t1. rewrite fmap_app, not_elem_of_app. simpl. intros H1 [H2 H3]. rewrite !lookup_insert_ne by set_solver. by apply Htls.
      * intros d1. rewrite lookup_insert_is_Some, Hheap, elem_of_app, list_elem_of_singleton. destruct (decide (d = d1)); naive_solver.
    + rewrite vec_absent by done. split; [by apply list_lookup_middle|]. split; [|simpl; by rewrite lookup_insert_eq].
      apply list_lookup_middle. by rewrite (Forall2_length Hrows).
Qed.
End own.

(** The vector after it has been extended for [id]. *)
Definition grown (es : list Z) (id : Z) : list Z := if zlen es <=? id then resize_entries es (u32 (id + 1)) else es.

Lemma grown_facts es id : 0 <= id < 4294967295 -> id < zlen (grown es id) /\ forall id', 0 <= id' -> slot (grown es id) id' = slot es id'.
Proof.
  intros Hid. pose proof (zlen_nonneg es). unfold grown. destruct (Z.leb_spec (zlen es) id) as [Hl|Hl]; [|by split].
  rewrite u32_small by lia. unfold resize_entries. rewrite ztake_ge by lia. split.
  - rewrite zlen_app, zlen_zrep by lia. lia.
  - intros id' Hid'. unfold slot, zrep. destruct (decide (Z.to_nat id' < length es)%nat).
    + by rewrite app_nth1.
    + rewrite app_nth2, (nth_overflow es) by lia. apply nth_nulls.
Qed.

Lemma grown_id es id : 0 <= id < 4294967295 -> exists p, grown es id !! Z.to_nat id = Some p /\ p = slot es id.
Proof.
  intros Hid. destruct (grown_facts es id Hid) as [Hl Hs].
  destruct (lookup_lt_is_Some_2 (grown es id) (Z.to_nat id)) as [p Hp]; [unfold zlen in Hl; lia|].
  exists p. split; [done|]. rewrite <- Hs by lia. unfold slot. by erewrite nth_lookup_Some.
Qed.

Lemma slot_put es id p id' : 0 <= id -> 0 <= id' -> id < zlen es -> slot (put_entry es id p) id' = if bool_decide (id' = id) then p else slot es id'.
Proof.
  intros H0 H1 Hl. unfold slot, put_entry. rewrite !nth_lookup. case_bool_decide as E.
  - subst. rewrite list_lookup_insert_eq; [done|unfold zlen in Hl; lia].
  - by rewrite list_lookup_insert_ne by lia.
Qed.

Lemma set_vec_same rows i t es : NoDup rows.*1 -> rows !! i = Some (t, es) -> set_vec t es rows = rows.
Proof. intros Hnd Hi. rewrite <- (insert_set_vec rows i t es es) by done. by apply list_insert_id. Qed.
Lemma set_vec_set_vec rows t es es' : set_vec t es (set_vec t es' rows) = set_vec t es rows.
Proof. unfold set_vec. rewrite map_map. apply map_ext. intros [t1 es1]. simpl. by repeat (case_bool_decide; simpl in * ). Qed.
Lemma set_vec_lookup rows i t es es' : NoDup rows.*1 -> rows !! i = Some (t, es) -> set_vec t es' rows !! i = Some (t, es').
Proof. intros Hnd Hi. rewrite <- (insert_set_vec rows i t es es') by done. apply list_lookup_insert_eq. by eapply lookup_lt_Some. Qed.

(** The table in which thread [t] has [p] for [id]. *)
Definition written (t : thread) (id p : Z) (rows : table) : table :=
  set_vec t (put_entry (grown (vec rows t) id) id p) (register t rows).

Lemma val_written t id p rows t' id' : 0 <= id < 4294967295 -> 0 <= id' ->
  val (written t id p rows) t' id' = if bool_decide (t' = t /\ id' = id) then p else val rows t' id'.
Proof.
  intros Hid Hid'. unfold val, written. destruct (grown_facts (vec rows t) id Hid) as [Hl Hs].
  rewrite vec_set_vec by apply register_in. destruct (decide (t' = t)) as [->|Hn].
  - rewrite bool_decide_true by done. rewrite slot_put by lia. rewrite Hs by lia.
    destruct (decide (id' = id)) as [->|Hn]; [by rewrite !bool_decide_true|by rewrite !bool_decide_false by tauto].
  - rewrite !bool_decide_false by tauto. by rewrite vec_register.
Qed.

Lemma zlen_put es id p : zlen (put_entry es id p) = zlen es.
Proof. unfold put_entry, zlen. by rewrite length_insert. Qed.
Lemma zlen_grown es id n : 0 <= id < 4294967295 -> zlen es <= n -> id < n -> zlen (grown es id) <= n.
Proof.
  intros Hid Hes Hn. unfold grown. destruct (Z.leb_spec (zlen es) id); [|done]. rewrite u32_small by lia. unfold resize_entries.
  rewrite ztake_ge by lia. pose proof (zlen_nonneg es). rewrite zlen_app, zlen_zrep by lia. lia.
Qed.
Lemma set_vec_size t es rows n : zlen es <= n -> Forall (fun r => zlen r.2 <= n) rows -> Forall (fun r => zlen r.2 <= n) (set_vec t es rows).
Proof. intros He Hs. unfold set_vec. induction Hs as [|r rows Hr Hs IH]; simpl; [done|]. constructor; [by case_bool_decide|done]. Qed.

Section ops.
Context {m : StaticMeta} {dead : gset thread} {ls : list loc} {rows : table} (HR : ring_rep m dead ls rows).
Context (t : thread) (fresh : option loc) (Ht : t ∉ dead) (Hf : fresh_data m fresh).

Lemma meta_Get_spec id : 0 <= id ->
  exists m' ls', meta_Get t fresh id m = Ret (val rows t id, m') /\ ring_rep m' dead ls' (register t rows) /\ same_ids m m'.
Proof using All.
  intros Hid. destruct (GetThreadLocal_spec HR t fresh Ht Hf) as (d & m' & ls' & i & E & HR' & Hs & Hd & Hr & He).
  exists m', ls'. split; [|done]. unfold meta_Get. rewrite (T_bind_step _ _ _ _ _ E), (tload_bind _ _ _ _ _ He).
  unfold val, slot. destruct (Z.leb_spec (zlen (vec rows t)) id) as [Hl|Hl].
  - rewrite nth_overflow; [done|]. unfold zlen in Hl. lia.
  - unfold entry_at. destruct (lookup_lt_is_Some_2 (vec rows t) (Z.to_nat id)) as [p Hp]; [unfold zlen in Hl; lia|].
    rewrite Hp. by erewrite nth_lookup_Some.
Qed.

Context (id : Z) (Hid : 0 <= id < 4294967295).

(** Behind [own_entries] the vector is long enough. *)
Lemma own_entries_spec : exists d m' ls' i, own_entries t fresh id m = Ret ((d, grown (vec rows t) id), m') /\
  ring_rep m' dead ls' (set_vec t (grown (vec rows t) id) (register t rows)) /\ same_ids m m' /\
  ls' !! i = Some d /\ set_vec t (grown (vec rows t) id) (register t rows) !! i = Some (t, grown (vec rows t) id).
Proof using All.
  destruct (GetThreadLocal_spec HR t fresh Ht Hf) as (d & m1 & ls' & i & E & HR1 & Hs & Hd & Hr & He).
  pose proof (rr_threads _ _ _ _ HR1) as Hnd. unfold own_entries, grown. destruct (zlen (vec rows t) <=? id) eqn:El.
  - destruct (store_entries_spec HR1 i t _ d (resize_entries (vec rows t) (u32 (id + 1))) Hd Hr) as (m2 & E2 & HR2 & Hs2 & _).
    exists d, m2, ls', i. split; [|split; [done|split; [by eapply same_ids_trans|split; [done|by eapply set_vec_lookup]]]].
    rewrite (T_bind_step _ _ _ _ _ E), (tload_bind _ _ _ _ _ He), El. by rewrite (T_bind_step _ _ _ _ _ E2).
  - exists d, m1, ls', i. rewrite (set_vec_same _ i) by done. split; [|done].
    by rewrite (T_bind_step _ _ _ _ _ E), (tload_bind _ _ _ _ _ He), El.
Qed.

Lemma meta_Reset_spec p : exists m' ls', meta_Reset t fresh id p m = Ret (tt, m') /\ ring_rep m' dead ls' (written t id p rows) /\ same_ids m m'.
Proof using All.
  destruct own_entries_spec as (d & m1 & ls' & i & E & HR1 & Hs & Hd & Hr).
  destruct (grown_id (vec rows t) id Hid) as (q & Hq & _).
  destruct (store_entries_spec HR1 i t _ d (put_entry (grown (vec rows t) id) id p) Hd Hr) as (m2 & E2 & HR2 & Hs2 & _).
  exists m2, ls'. rewrite set_vec_set_vec in HR2. split; [|split; [done|by eapply same_ids_trans]].
  unfold meta_Reset. rewrite (T_bind_step _ _ _ _ _ E). unfold entry_at. by rewrite Hq, (T_bind_step _ _ q m1 m1).
Qed.

Lemma meta_Swap_spec p : exists m' ls', meta_Swap t fresh id p m = Ret (val rows t id, m') /\ ring_rep m' dead ls' (written t id p rows) /\ same_ids m m'.
Proof using All.
  destruct own_entries_spec as (d & m1 & ls' & i & E & HR1 & Hs & Hd & Hr).
  destruct (grown_id (vec rows t) id Hid) as (q & Hq & Eq).
  destruct (store_entries_spec HR1 i t _ d (put_entry (grown (vec rows t) id) id p) Hd Hr) as (m2 & E2 & HR2 & Hs2 & _).
  exists m2, ls'. rewrite set_vec_set_vec in HR2. split; [|split; [done|by eapply same_ids_trans]].
  unfold meta_Swap. rewrite (T_bind_step _ _ _ _ _ E). unfold entry_at. rewrite Hq, (T_bind_step _ _ q m1 m1) by done.
  rewrite (T_bind_step _ _ _ _ _ E2). unfold val. by rewrite Eq.
Qed.

Lemma meta_CompareAndSwap_spec p expected : exists m' ls' es',
  meta_CompareAndSwap t fresh id p expected m = Ret (val rows t id =? expected, val rows t id, m') /\
  ring_rep m' dead ls' (set_vec t es' (register t rows)) /\ same_ids m m' /\ zlen es' = zlen (grown (vec rows t) id) /\
  (forall t' id', 0 <= id' -> val (set_vec t es' (register t rows)) t' id' =
     if (val rows t id =? expected) && bool_decide (t' = t /\ id' = id) then p else val rows t' id').
Proof using All.
  destruct own_entries_spec as (d & m1 & ls' & i & E & HR1 & Hs & Hd & Hr).
  destruct (grown_id (vec rows t) id Hid) as (q & Hq & Eq). fold (val rows t id) in Eq.
  destruct (store_entries_spec HR1 i t _ d (put_entry (grown (vec rows t) id) id p) Hd Hr) as (m2 & E2 & HR2 & Hs2 & _).
  unfold meta_CompareAndSwap. rewrite (T_bind_step _ _ _ _ _ E). unfold entry_at. rewrite Hq, (T_bind_step _ _ q m1 m1) by done.
  rewrite <- Eq. destruct (Z.eqb_spec q expected) as [<-|Hn].
  - exists m2, ls', (put_entry (grown (vec rows t) id) id p). rewrite set_vec_set_vec in HR2. rewrite (T_bind_step _ _ _ _ _ E2). split; [done|].
    split; [done|]. split; [by eapply same_ids_trans|]. split; [apply zlen_put|]. intros. by apply val_written.
  - exists m1, ls', (grown (vec rows t) id). split; [done|]. split; [done|]. split; [done|].
    split; [done|]. intros t' id' Hid'. simpl. unfold val. rewrite vec_set_vec by apply register_in.
    case_bool_decide; [subst t'; by apply grown_facts|by rewrite vec_register].
Qed.
End ops.

(** ** The loops over the ring *)

Definition with_log (m : StaticMeta) (E : gmap loc (list Z)) (log : list (Z * Z)) : StaticMeta :=
  mkMeta (next_instance_id_ m) (free_instance_ids_ m) (td_next m) (td_prev m) E (handler_map_ m) (tls_ m) (specific m)
    (unrefs m ++ log).

(** A body that looks at one [ThreadData]: it makes [g] of the vector, leaves [f] of it there,
    and calls the handlers in [h]. *)
Definition body_does {A} (body : loc -> T (list A)) (f : list Z -> list Z) (g : list Z -> list A) (h : list Z -> list (Z * Z)) : Prop :=
  forall m d es, td_entries m !! d = Some es -> body d m = Ret (g es, with_log m (<[d := f es]> (td_entries m)) (h es)).

Section loop.
Context {A : Type} (body : loc -> T (list A)) f g h (Hbody : body_does body f g h).

Lemma for_each_spec l : forall fuel a d m vs, linked (td_next m) (td_prev m) a l head_ -> td_next m !! a = Some d ->
  head_ ∉ l -> NoDup l -> (length l <= fuel)%nat -> Forall2 (fun x es => td_entries m !! x = Some es) l vs ->
  exists E, for_each fuel d body m = Ret (concat (g <$> vs), with_log m E (concat (h <$> vs))) /\
    Forall2 (fun x es => E !! x = Some (f es)) l vs /\ forall x, x ∉ l -> E !! x = td_entries m !! x.
Proof using All.
  induction l as [|x l IH]; intros fuel a d m vs Hl Ha Hh Hnd Hfuel Hvs.
  - apply Forall2_nil_inv_l in Hvs as ->. simpl in Hl. destruct Hl as [Hl _]. replace d with head_ by congruence.
    exists (td_entries m). split; [|done]. destruct fuel; simpl; unfold with_log; rewrite app_nil_r; by destruct m.
  - apply Forall2_cons_inv_l in Hvs as (es & vs' & Hes & Hvs & ->). destruct Hl as (Hx & _ & Hl).
    replace d with x by congruence. apply not_elem_of_cons in Hh as [Hxh Hh]. apply list.NoDup_cons in Hnd as [Hxl Hnd].
    destruct fuel as [|fuel]; [simpl in Hfuel; lia|]. simpl in Hfuel.
    destruct (linked_source _ _ _ _ x x Hl) as [n Hn]; [left|].
    set (m1 := with_log m (<[x := f es]> (td_entries m)) (h es)).
    destruct (IH fuel x n m1 vs') as (E & EE & HE & Hout); [done|done|done|done|lia| |].
    { eapply Forall2_impl_elem; [exact Hvs|]. intros y e Hy _ H. simpl. rewrite lookup_insert_ne; [done|]. by intros ->. }
    exists E. split; [|split].
    + cbn [for_each]. destruct (Z.eqb_spec x head_); [by symmetry in e|].
      rewrite (T_bind_step _ _ _ _ _ (Hbody m x es Hes)). fold m1. rewrite (tload_bind _ _ n) by done. rewrite (T_bind_step _ _ _ _ _ EE).
      unfold with_log, m1. simpl. by rewrite app_assoc.
    + constructor; [|done]. rewrite Hout by done. simpl. by rewrite lookup_insert_eq.
    + intros y [Hy Hyl]%not_elem_of_cons. rewrite Hout by done. simpl. by rewrite lookup_insert_ne by done.
Qed.

Lemma for_threads_spec m dead ls rows : ring_rep m dead ls rows -> exists m',
  for_threads body m = Ret (concat ((fun r => g r.2) <$> rows), m') /\
  ring_rep m' dead ls ((fun r => (r.1, f r.2)) <$> rows) /\
  next_instance_id_ m' = next_instance_id_ m /\ free_instance_ids_ m' = free_instance_ids_ m /\
  handler_map_ m' = handler_map_ m /\ unrefs m' = unrefs m ++ concat ((fun r => h r.2) <$> rows).
Proof using All.
  intros HR. pose proof HR as [Hlk Hnd Hrows Hths Hal Htls Hheap]. apply list.NoDup_cons in Hnd as Hnd'. destruct Hnd' as [Hh Hnd'].
  destruct (linked_source _ _ _ _ head_ head_ Hlk) as [d Hd]; [left|].
  destruct (for_each_spec ls (size (td_entries m)) head_ d m (rows.*2)) as (E & EE & HE & Hout); try done.
  { by rewrite (ring_size HR). }
  { apply Forall2_fmap_r. eapply Forall2_impl_elem; [exact Hrows|]. by intros x r _ _ (? & _). }
  exists (with_log m E (concat (h <$> rows.*2))). split.
  { unfold for_threads, tget. rewrite (T_bind_step _ _ m m m) by done. rewrite (tload_bind _ _ d) by done. rewrite EE. by rewrite <- list_fmap_compose. }
  apply Forall2_fmap_r in HE. split; [|simpl; by rewrite <- list_fmap_compose]. constructor; simpl; try done.
  - apply Forall2_fmap_r. clear -Hrows HE. induction Hrows as [|x r ls rows (H1 & H2 & H3) _ IH]; [constructor|].
    inversion HE; subst. constructor; [done|by apply IH].
  - by rewrite <- list_fmap_compose.
  - intros t. rewrite <- list_fmap_compose. apply Hal.
  - intros t. rewrite <- list_fmap_compose. apply Htls.
  - intros x. destruct (decide (x ∈ ls)) as [Hin|Hin].
    + apply list_elem_of_lookup in Hin as Hin'. destruct Hin' as [i Hi].
      destruct (Forall2_lookup_l _ _ _ _ _ HE Hi) as (r & _ & Hr). rewrite Hr. by split.
    + rewrite Hout by done. apply Hheap.
Qed.
End loop.

(** ** [Scrape], [Fold] and the end of an instance *)

(** The value of an instance in a vector, if it is not null. *)
Definition nonnull (p : Z) : list Z := if p =? 0 then [] else [p].
Definition put_if (id p : Z) (es : list Z) : list Z := if id <? zlen es then put_entry es id p else es.

Lemma slot_out es id : zlen es <= id -> slot es id = 0.
Proof. intros. unfold slot. apply nth_overflow. unfold zlen in *. lia. Qed.
Lemma slot_lookup es id : 0 <= id < zlen es -> es !! Z.to_nat id = Some (slot es id).
Proof.
  intros Hid. destruct (lookup_lt_is_Some_2 es (Z.to_nat id)) as [p Hp]; [unfold zlen in Hid; lia|].
  rewrite Hp. unfold slot. by erewrite nth_lookup_Some.
Qed.

Lemma with_log_same m d es : td_entries m !! d = Some es -> with_log m (<[d := es]> (td_entries m)) [] = m.
Proof. intros H. unfold with_log. rewrite insert_id by done. rewrite app_nil_r. by destruct m. Qed.

Lemma exchange_entry_does id p : 0 <= id -> body_does (exchange_entry id p) (put_if id p) (fun es => nonnull (slot es id)) (fun _ => []).
Proof.
  intros Hid m d es He. unfold exchange_entry, put_if. rewrite (tload_bind _ _ es) by done. destruct (Z.ltb_spec id (zlen es)) as [Hl|Hl].
  - unfold entry_at. rewrite slot_lookup by lia. rewrite (T_bind_step _ _ (slot es id) m m) by done.
    unfold store_entries. unfold mbind, T_bind. rewrite He. unfold with_log. rewrite app_nil_r. done.
  - rewrite with_log_same by done. by rewrite slot_out by done.
Qed.

Lemma val_put_if id p rows t id' : 0 <= id -> 0 <= id' ->
  val ((fun r => (r.1, put_if id p r.2)) <$> rows) t id' =
  if bool_decide (id' = id) then (if id <? zlen (vec rows t) then p else 0) else val rows t id'.
Proof.
  intros H0 H1. unfold val. induction rows as [|[t1 es] rows IH].
  - simpl. rewrite zlen_nil. destruct (Z.ltb_spec id 0); [lia|]. unfold slot. destruct (Z.to_nat id'); by case_bool_decide.
  - csimpl. destruct (decide (t1 = t)) as [->|Hn]; [|rewrite !(bool_decide_false (t1 = t)) by done; apply IH].
    rewrite !(bool_decide_true (t = t)) by done. unfold put_if. destruct (Z.ltb_spec id (zlen es)) as [Hl|Hl]; [by apply slot_put|].
    case_bool_decide; [subst; by apply slot_out|done].
Qed.

Section shared.
Context {m : StaticMeta} {dead : gset thread} {ls : list loc} {rows : table} (HR : ring_rep m dead ls rows).
Context (id : Z) (Hid : 0 <= id).

(** The values of instance [id] that are not null, in the order of the ring. *)
Definition values (rows : table) (id : Z) : list Z := concat ((fun r => nonnull (slot r.2 id)) <$> rows).

Lemma meta_Scrape_spec p : exists m', meta_Scrape id p m = Ret (values rows id, m') /\
  ring_rep m' dead ls ((fun r => (r.1, put_if id p r.2)) <$> rows) /\ same_ids m m'.
Proof using HR Hid.
  destruct (for_threads_spec _ _ _ _ (exchange_entry_does id p Hid) m dead ls rows HR) as (m' & E & HR' & ? & ? & ? & Hu).
  exists m'. split; [done|]. split; [done|]. constructor; try done. rewrite Hu.
  replace (concat _) with (@nil (Z * Z)); [by rewrite app_nil_r|]. clear. by induction rows.
Qed.

Lemma meta_Fold_spec : exists m', meta_Fold id m = Ret (values rows id, m') /\ ring_rep m' dead ls rows /\ same_ids m m'.
Proof using HR Hid.
  assert (body_does (fun d => es ← tload td_entries d;
    if id <? zlen es then p ← entry_at es id; mret (if p =? 0 then [] else [p]) else mret [])
    (fun es => es) (fun es => nonnull (slot es id)) (fun _ => [])) as Hb.
  { intros m1 d es He. rewrite (tload_bind _ _ es) by done. rewrite with_log_same by done. destruct (Z.ltb_spec id (zlen es)) as [Hl|Hl].
    - unfold entry_at. rewrite slot_lookup by lia. by rewrite (T_bind_step _ _ (slot es id) m1 m1) by done.
    - by rewrite slot_out by done. }
  destruct (for_threads_spec _ _ _ _ Hb m dead ls rows HR) as (m' & E & HR' & ? & ? & ? & Hu).
  exists m'. split; [done|]. split.
  - replace ((fun r => (r.1, r.2)) <$> rows) with rows in HR'; [done|]. clear. induction rows as [|[] rows' IH]; [done|]. csimpl. by f_equal.
  - constructor; try done. rewrite Hu. replace (concat _) with (@nil (Z * Z)); [by rewrite app_nil_r|]. clear. by induction rows.
Qed.

Definition handler_of (m : StaticMeta) (id : Z) : option Z := match handler_map_ m !! id with Some h => h | None => None end.
(** The calls of a handler. *)
Definition calls (h : option Z) (ps : list Z) : list (Z * Z) := match h with Some f => (fun p => (f, p)) <$> ps | None => [] end.

Lemma calls_concat h (l : list (list Z)) : concat (calls h <$> l) = calls h (concat l).
Proof.
  destruct h as [f|]; simpl; [|by induction l]. induction l as [|x l IH]; [done|]. csimpl. by rewrite IH, fmap_app.
Qed.

Lemma calls_nil h : calls h [] = [].
Proof. by destruct h. Qed.

Lemma add_unrefs h ps : forall m0, foldl (fun m p => add_unref m h p) m0 ps = with_log m0 (td_entries m0) (calls h ps).
Proof.
  unfold with_log. induction ps as [|p ps IH]; intros m0.
  - destruct h; simpl; rewrite app_nil_r; by destruct m0.
  - cbn [foldl]. rewrite IH. destruct h as [f|]; simpl; [|done]. by rewrite <- app_assoc.
Qed.

Lemma ReclaimId_spec : exists m', ReclaimId id m = Ret (tt, m') /\
  ring_rep m' dead ls ((fun r => (r.1, put_if id 0 r.2)) <$> rows) /\
  next_instance_id_ m' = next_instance_id_ m /\ free_instance_ids_ m' = free_instance_ids_ m ++ [id] /\
  handler_map_ m' = <[id := None]> (handler_map_ m) /\ unrefs m' = unrefs m ++ calls (handler_of m id) (values rows id).
Proof using HR Hid.
  assert (body_does (fun d => old ← exchange_entry id 0 d;
    _ ← tmodify (fun m1 => foldl (fun m2 p => add_unref m2 (handler_of m id) p) m1 old); mret ([] : list unit))
    (put_if id 0) (fun _ => []) (fun es => calls (handler_of m id) (nonnull (slot es id)))) as Hb.
  { intros m1 d es He. rewrite (T_bind_step _ _ _ _ _ (exchange_entry_does id 0 Hid m1 d es He)).
    unfold tmodify. rewrite (T_bind_step _ _ tt _ (with_log m1 (<[d := put_if id 0 es]> (td_entries m1)) (calls (handler_of m id) (nonnull (slot es id))))); [done|].
    rewrite add_unrefs. unfold with_log. simpl. by rewrite app_nil_r. }
  destruct (for_threads_spec _ _ _ _ Hb m dead ls rows HR) as (m' & E & HR' & H1 & H2 & H3 & Hu).
  exists (set_ids (set_handlers m' (<[id := None]> (handler_map_ m'))) (next_instance_id_ m') (free_instance_ids_ m' ++ [id])).
  split; [|split; [by destruct HR'; constructor|]].
  - unfold ReclaimId, GetHandler. rewrite (T_bind_step _ _ (handler_of m id) m m) by done.
    rewrite (T_bind_step _ _ _ _ _ E). done.
  - simpl. rewrite H1, H2, H3, Hu. do 3 (split; [done|]). f_equal. unfold values. rewrite <- calls_concat. by rewrite <- list_fmap_compose.
Qed.
End shared.

(** ** The end of a thread *)

Lemma linked_ext nx pv nx' pv' l b : forall a, (forall x, x ∈ a :: l -> nx' !! x = nx !! x) -> (forall x, x ∈ l ++ [b] -> pv' !! x = pv !! x) ->
  linked nx pv a l b -> linked nx' pv' a l b.
Proof.
  induction l as [|x l IH]; intros a Hn Hp; simpl.
  - rewrite Hn by left. rewrite Hp by (by left). done.
  - rewrite Hn by left. rewrite Hp by (by left). intros (H1 & H2 & H3). do 2 (split; [done|]). apply IH; [|  |done].
    + intros y Hy. apply Hn. by right.
    + intros y Hy. apply Hp. by right.
Qed.

Lemma RemoveThreadData_spec d l1 l2 m : linked (td_next m) (td_prev m) head_ (l1 ++ d :: l2) head_ -> NoDup (head_ :: l1 ++ d :: l2) ->
  exists nx pv, RemoveThreadData d m = Ret (tt, set_links m nx pv) /\ linked nx pv head_ (l1 ++ l2) head_.
Proof.
  intros Hl Hnd. pose proof Hnd as [Hh Hnd']%list.NoDup_cons.
  destruct (linked_remove d _ _ head_ l2 l1 head_ Hl Hnd Hh) as (p & n & Hn & Hp & Hpin & Hnin & Hl').
  assert (d <> head_) as Hdh by set_solver.
  apply list.NoDup_app in Hnd' as (Hnd1 & Hdis & Hnd2). apply list.NoDup_cons in Hnd2 as [Hd2 Hnd2].
  assert (p <> d) as Hpd. { intros ->. apply elem_of_cons in Hpin as [|Hpin]; [done|]. apply (Hdis d); [done|left]. }
  assert (n <> d) as Hnd3 by (destruct Hnin as [Hnin| ->]; [by intros ->|done]).
  assert (is_Some (td_next m !! p)) as Hsp by (eapply linked_source; [exact Hl|set_solver]).
  assert (is_Some (td_prev m !! n)) as Hsn.
  { assert (forall l a b x, linked (td_next m) (td_prev m) a l b -> x ∈ l \/ x = b -> is_Some (td_prev m !! x)) as Hpv.
    { clear. induction l as [|y l IH]; intros a b x; simpl; [intros [_ H] [?%elem_of_nil| ->]; [done|eauto]|].
      intros (_ & H & Hl) [[->|Hin]%elem_of_cons| ->]; [eauto|eapply IH; [exact Hl|by left]|eapply IH; [exact Hl|by right]]. }
    eapply Hpv; [exact Hl|]. set_solver. }
  exists (<[d := d]> (<[p := n]> (td_next m))), (<[d := d]> (<[n := p]> (td_prev m))). split.
  - unfold RemoveThreadData. rewrite (tload_bind _ _ n) by done. rewrite (tload_bind _ _ p) by done.
    rewrite store_prev_bind by done. rewrite (tload_bind _ _ p) by (simpl; by rewrite lookup_insert_ne).
    rewrite (tload_bind _ _ n) by done. rewrite store_next_bind by done.
    rewrite store_prev_bind by (simpl; rewrite lookup_insert_ne by done; eauto).
    rewrite store_next_ret by (simpl; rewrite lookup_insert_ne by done; eauto). done.
  - eapply linked_ext; [| |exact Hl'].
    + intros x Hx. apply lookup_insert_ne. intros <-. apply elem_of_cons in Hx as [|Hx]; [done|].
      apply elem_of_app in Hx as [Hx|Hx]; [|done]. apply (Hdis d Hx). left.
    + intros x Hx. apply lookup_insert_ne. intros <-. apply elem_of_app in Hx as [Hx|Hx]; [|set_solver].
      apply elem_of_app in Hx as [Hx|Hx]; [|done]. apply (Hdis d Hx). left.
Qed.

(** The calls of the handlers for the vector of a thread that ends. *)
Fixpoint exit_calls (m : StaticMeta) (es : list Z) (id : Z) : list (Z * Z) :=
  match es with
  | [] => []
  | raw :: es' => calls (handler_of m id) (nonnull raw) ++ exit_calls m es' (id + 1)
  end.

Lemma unref_entries_spec m0 es : forall id m, handler_map_ m = handler_map_ m0 -> 0 <= id -> id + zlen es <= 4294967296 ->
  unref_entries es id m = Ret (tt, with_log m (td_entries m) (exit_calls m0 es id)).
Proof.
  induction es as [|raw es IH]; intros id m Hm H0 Hid; simpl.
  - unfold with_log. rewrite app_nil_r. by destruct m.
  - rewrite zlen_cons in Hid. pose proof (zlen_nonneg es).
    assert (exists m1, (if raw =? 0 then mret tt else unref ← GetHandler id; tmodify (fun m => add_unref m unref raw)) m = Ret (tt, m1) /\
      m1 = with_log m (td_entries m) (calls (handler_of m0 id) (nonnull raw))) as (m1 & E & ->).
    { unfold nonnull. destruct (raw =? 0).
      - exists m. split; [done|]. unfold with_log. rewrite calls_nil, app_nil_r. by destruct m.
      - exists (add_unref m (handler_of m0 id) raw). split; [unfold handler_of; by rewrite <- Hm|].
        unfold calls. destruct (handler_of m0 id); [done|]. unfold with_log. simpl. rewrite app_nil_r. by destruct m. }
    rewrite (T_bind_step _ _ _ _ _ E). destruct es as [|raw2 es2] eqn:Ees.
    + simpl. unfold with_log. simpl. by rewrite app_nil_r.
    + rewrite u32_small by (rewrite zlen_cons in *; pose proof (zlen_nonneg es2); lia). rewrite IH; [|done|lia|lia].
      unfold with_log. simpl. by rewrite <- app_assoc.
Qed.

Definition drop_row (t : thread) (rows : table) : table := filter (fun r => r.1 <> t) rows.

Lemma drop_row_absent t rows : t ∉ rows.*1 -> drop_row t rows = rows.
Proof.
  unfold drop_row. induction rows as [|r rows IH]; [done|]. rewrite fmap_cons, not_elem_of_cons. intros [Hn Hr].
  rewrite filter_cons_True by congruence. by rewrite IH.
Qed.

Lemma drop_row_mid t es r1 r2 : NoDup (r1 ++ (t, es) :: r2).*1 -> drop_row t (r1 ++ (t, es) :: r2) = r1 ++ r2.
Proof.
  intros Hnd. rewrite fmap_app in Hnd. apply list.NoDup_app in Hnd as (_ & Hdis & Hnd). apply list.NoDup_cons in Hnd as [Hn _].
  unfold drop_row. rewrite list.filter_app, filter_cons, decide_False by (by intros H; apply H).
  f_equal; apply drop_row_absent; [|done]. intros Hin. apply (Hdis t Hin). left.
Qed.

Lemma vec_drop_row t rows t' : vec (drop_row t rows) t' = if bool_decide (t' = t) then [] else vec rows t'.
Proof.
  unfold drop_row. induction rows as [|[t1 es] rows IH]; [by case_bool_decide|]. rewrite filter_cons. simpl.
  destruct (decide (t1 = t)) as [->|Hn]; [rewrite decide_False by tauto|rewrite decide_True by done; simpl].
  all: rewrite IH; repeat case_bool_decide; try done; congruence.
Qed.

Lemma OnThreadExit_spec {m dead ls rows} (HR : ring_rep m dead ls rows) t : t ∉ dead -> Forall (fun r => zlen r.2 <= 4294967296) rows ->
  exists m' ls', OnThreadExit t m = Ret (tt, m') /\ ring_rep m' ({[t]} ∪ dead) ls' (drop_row t rows) /\
    next_instance_id_ m' = next_instance_id_ m /\ free_instance_ids_ m' = free_instance_ids_ m /\
    handler_map_ m' = handler_map_ m /\ unrefs m' = unrefs m ++ exit_calls m (vec rows t) 0.
Proof.
  intros Ht Hsz. pose proof HR as [Hlk Hnd Hrows Hths Hal Htls Hheap]. unfold OnThreadExit, OnThreadExit_of, tget.
  rewrite (T_bind_step _ _ m m m) by done. destruct (decide (t ∈ rows.*1)) as [Hin|Hin].
  2: { destruct (Htls t Ht Hin) as [Htl Hsp]. rewrite Hsp. rewrite (vec_absent rows t Hin). exists m, ls. split; [done|].
    assert (drop_row t rows = rows) as ->.
    { by apply drop_row_absent. }
    split; [|simpl; by rewrite app_nil_r]. constructor; try done.
    - intros t1 H1. rewrite elem_of_union, elem_of_singleton. intros [->|H2]; [done|]. by apply (Hal t1).
    - intros t1 H1. apply Htls. set_solver. }
  destruct (ring_row HR t Hin) as (i & d & Hd & Hr & He & Htl & Hsp). rewrite Hsp.
  apply list_elem_of_split_length in Hd as (l1 & l2 & -> & Hi1). apply list_elem_of_split_length in Hr as (r1 & r2 & Er & Hi2).
  set (m1 := set_tls m (tls_ m) (delete t (specific m))).
  destruct (RemoveThreadData_spec d l1 l2 m1 Hlk Hnd) as (nx & pv & E & Hl').
  remember (vec rows t) as es eqn:Ees. clear Ees. set (m2 := set_links m1 nx pv).
  assert (zlen es <= 4294967296) as Hes.
  { rewrite Er in Hsz. apply Forall_app in Hsz as [_ Hsz]. by inversion Hsz. }
  set (m3 := with_log m2 (td_entries m2) (exit_calls m es 0)).
  eexists _, (l1 ++ l2). split; [|split].
  - unfold tmodify at 1. rewrite (T_bind_step _ _ tt m m1) by done. rewrite (T_bind_step _ _ _ _ _ E). fold m2.
    rewrite (tload_bind _ _ es) by done. rewrite (T_bind_step _ _ tt m2 m3) by by apply unref_entries_spec. reflexivity.
  - rewrite Er in Hrows, Hths. assert (drop_row t rows = r1 ++ r2) as -> by (rewrite Er; by apply drop_row_mid in Hths).
    apply list.NoDup_cons in Hnd as [Hh Hnd]. apply list.NoDup_app in Hnd as (Hn1 & Hdis & Hn2). apply list.NoDup_cons in Hn2 as [Hd2 Hn2].
    assert (d ∉ l1 ++ l2) as Hdl. { rewrite not_elem_of_app. split; [|done]. intros H. apply (Hdis d H). left. }
    assert (d <> head_) as Hdh by set_solver.
    assert (t ∉ (r1 ++ r2).*1) as Htr.
    { rewrite fmap_app, not_elem_of_app. rewrite fmap_app in Hths. apply list.NoDup_app in Hths as (_ & Hd1 & Hd3).
      apply list.NoDup_cons in Hd3 as [Hd3 _]. split; [|done]. intros H. apply (Hd1 t H). left. }
    assert (forall t1, t1 ∈ (r1 ++ r2).*1 -> t1 ∈ rows.*1) as Hsub by (rewrite Er, !fmap_app; set_solver).
    constructor; simpl.
    + eapply linked_ext; [| |exact Hl']; intros x Hx; apply lookup_delete_ne; intros <-; set_solver.
    + apply list.NoDup_cons. split; [set_solver|]. apply list.NoDup_app. split; [done|]. split; [|done]. intros x Hx Hx2. apply (Hdis x Hx). by right.
    + assert (length l1 = length r1) as Hlen by congruence.
      apply Forall2_app_inv in Hrows as [H1 H2]; [|done]. inversion H2; subst.
      eapply Forall2_impl_elem; [apply Forall2_app; eassumption|]. intros x r Hx Hrr (Hx1 & Hx2 & Hx3).
      assert (t <> r.1) by (intros ->; apply Htr; by apply list_elem_of_fmap_2).
      assert (d <> x) by (intros ->; done). by rewrite !lookup_delete_ne.
    + rewrite fmap_app in *. simpl in Hths. apply list.NoDup_app in Hths as (H1 & H2 & H3). apply list.NoDup_cons in H3 as [H3 H4].
      apply list.NoDup_app. split; [done|]. split; [|done]. intros x Hx Hx2. apply (H2 x Hx). by right.
    + intros t1 H1. rewrite elem_of_union, elem_of_singleton. intros [->|H2]; [done|]. by apply (Hal t1); [apply Hsub|].
    + intros t1 H1 H2. apply not_elem_of_union in H1 as [H1 H3]. apply not_elem_of_singleton in H1. rewrite lookup_delete_ne by done.
      apply Htls; [done|]. rewrite Er. rewrite fmap_app in *. set_solver.
    + intros x. rewrite lookup_delete_is_Some, Hheap. clear -Hdl. set_solver.
  - simpl. done.
Qed.

(** A thread that has not ended has the same value in [tls_] and under the key. *)
Lemma A_delete_eq {m dead ls rows} (HR : ring_rep m dead ls rows) t : t ∉ dead -> A_delete t m = OnThreadExit t m.
Proof.
  intros Ht. unfold A_delete, OnThreadExit, tget. rewrite !(T_bind_step _ _ m m m) by done.
  destruct (decide (t ∈ rows.*1)) as [Hin|Hin].
  - destruct (ring_row HR t Hin) as (i & d & _ & _ & _ & -> & ->). done.
  - destruct (rr_tls _ _ _ _ HR t Ht Hin) as [-> ->]. done.
Qed.
