(* ===== verification/ThreadLocalTheorems.v ===== *)
(** * ThreadLocalTheorems: the properties of [ThreadLocalPtr] *)

From stdpp Require Import list gmap.
From S2P Require Import Prelude.
From S2P Require Import ThreadLocal.
From S2P Require Import ThreadLocalRing.
From S2P Require Import ThreadLocalSpec.

(** The invariant of the singleton: [live] are the ids of the existing [ThreadLocalPtr]s, the
    other ids below [next_instance_id_] are free for reuse, and nothing is left of them. *)
Record meta_ok (m : StaticMeta) (dead : gset thread) (live : gset Z) (rows : table) : Prop := {
  mo_ring : exists ls, ring_rep m dead ls rows;
  mo_next : 0 <= next_instance_id_ m <= 4294967295;
  mo_ids : forall id, 0 <= id < next_instance_id_ m <-> id ∈ free_instance_ids_ m \/ id ∈ live;
  mo_free : NoDup (free_instance_ids_ m) /\ forall id, id ∈ free_instance_ids_ m -> id ∉ live;
  mo_null : forall t id, 0 <= id -> id ∉ live -> val rows t id = 0;
  mo_handlers : forall id, id ∉ live -> handler_of m id = None;
  mo_size : Forall (fun r => zlen r.2 <= next_instance_id_ m) rows;
}.

Lemma StaticMeta_new_ok : meta_ok StaticMeta_new ∅ ∅ [].
Proof.
  constructor; simpl; try done.
  - exists []. apply StaticMeta_new_rep.
  - intros id. split; [lia|]. set_solver.
  - split; [apply NoDup_nil_2|]. set_solver.
  - intros t id _ _. unfold val, slot. simpl. by destruct (Z.to_nat id).
Qed.

Section ok.
Context {m : StaticMeta} {dead : gset thread} {live : gset Z} {rows : table} (Hok : meta_ok m dead live rows).

Lemma live_id id : id ∈ live -> 0 <= id < next_instance_id_ m /\ 0 <= id < 4294967295.
Proof using Hok. intros H. pose proof (mo_next _ _ _ _ Hok). assert (0 <= id < next_instance_id_ m) by (apply (mo_ids _ _ _ _ Hok); by right). lia. Qed.

(** A method that leaves ids and handlers alone keeps the invariant. *)
Lemma same_ids_ok m' ls rows' : ring_rep m' dead ls rows' -> same_ids m m' ->
  (forall t id, 0 <= id -> id ∉ live -> val rows' t id = val rows t id) ->
  Forall (fun r => zlen r.2 <= next_instance_id_ m) rows' -> meta_ok m' dead live rows'.
Proof using Hok.
  intros HR [H1 H2 H3 _] Hv Hs. destruct Hok. constructor; try rewrite H1; try rewrite H2; try done.
  - by exists ls.
  - intros t id H0 Hid. rewrite Hv by done. by apply (mo_null _ _ _ _ Hok).
  - intros id Hid. unfold handler_of. rewrite H3. by apply (mo_handlers _ _ _ _ Hok).
Qed.

Lemma register_size t : Forall (fun r => zlen r.2 <= next_instance_id_ m) (register t rows).
Proof using Hok.
  pose proof (mo_next _ _ _ _ Hok). pose proof (mo_size _ _ _ _ Hok). unfold register. case_bool_decide; [done|]. apply Forall_app. split; [done|].
  constructor; [|constructor]. simpl. rewrite zlen_nil. lia.
Qed.

Lemma vec_size t : zlen (vec rows t) <= next_instance_id_ m.
Proof using Hok.
  pose proof (mo_next _ _ _ _ Hok). pose proof (mo_size _ _ _ _ Hok) as Hs. clear Hok. induction Hs as [|[t1 es] rows' H1 Hs IH]; simpl; [rewrite zlen_nil; lia|].
  case_bool_decide; [done|]. exact IH.
Qed.
End ok.

(** ** The vectors as a map *)

Lemma values_val rows id : NoDup rows.*1 -> values rows id = filter (fun p => p <> 0) ((fun t => val rows t id) <$> rows.*1).
Proof.
  assert (forall all, NoDup rows.*1 -> (forall r, r ∈ rows -> vec all r.1 = r.2) ->
    values rows id = filter (fun p => p <> 0) ((fun t => val all t id) <$> rows.*1)) as H.
  { intros all. unfold values. induction rows as [|r rows IH]; [done|]. intros [_ Hnd]%list.NoDup_cons Hall. csimpl. rewrite IH; [|done|].
    - assert (val all r.1 id = slot r.2 id) as -> by (unfold val; by rewrite Hall by left).
      unfold nonnull. rewrite filter_cons. destruct (Z.eqb_spec (slot r.2 id) 0); [by rewrite decide_False by tauto|by rewrite decide_True].
    - intros r' Hr'. apply Hall. by right. }
  intros Hnd. apply H; [done|]. intros [t es] Hr. apply list_elem_of_lookup in Hr as [i Hi]. by apply (rows_vec rows i).
Qed.

Section methods.
Context {m : StaticMeta} {dead : gset thread} {live : gset Z} {rows : table} (Hok : meta_ok m dead live rows).

(** The state after a write of [p] by thread [t]. *)
Lemma written_ok m' ls t id p es : id ∈ live -> ring_rep m' dead ls (set_vec t es (register t rows)) -> same_ids m m' ->
  zlen es = zlen (grown (vec rows t) id) -> (forall t' id', 0 <= id' ->
    val (set_vec t es (register t rows)) t' id' = if bool_decide (t' = t /\ id' = id) then p else val rows t' id') ->
  meta_ok m' dead live (set_vec t es (register t rows)).
Proof using Hok.
  intros Hid HR Hs Hl Hv. destruct (live_id Hok id Hid) as [H1 H2]. apply (same_ids_ok Hok m' ls); [done|done| |].
  - intros t' id' H0 Hn. rewrite Hv by done. rewrite bool_decide_false; [done|]. intros [_ ->]. done.
  - apply set_vec_size; [|by apply (register_size Hok)]. rewrite Hl. apply zlen_grown; [done|by apply (vec_size Hok)|lia].
Qed.

Lemma put_if_ok m' ls id p : id ∈ live -> ring_rep m' dead ls ((fun r => (r.1, put_if id p r.2)) <$> rows) -> same_ids m m' ->
  meta_ok m' dead live ((fun r => (r.1, put_if id p r.2)) <$> rows).
Proof using Hok.
  intros Hid HR Hs. destruct (live_id Hok id Hid) as [H1 H2]. apply (same_ids_ok Hok m' ls); [done|done| |].
  - intros t' id' H0 Hn. rewrite val_put_if by lia. rewrite bool_decide_false; [done|]. by intros ->.
  - apply Forall_fmap. eapply Forall_impl; [|apply (mo_size _ _ _ _ Hok)]. intros r Hr. simpl. unfold put_if.
    by destruct (id <? zlen r.2); [rewrite zlen_put|].
Qed.
End methods.

(** ** The properties *)

(** C23: [ThreadLocalPtr] is a map from thread and instance to a pointer: in a thread that has not
    ended, [Get], [Reset], [Swap] and [CompareAndSwap] read and write the thread's own value
    and no other; [Fold] visits, and [Scrape] also takes, the values of all threads that are
    not null, in the order in which the threads have come. The ring, the vectors that grow
    on demand and the registration of new threads cannot be seen. *)
Theorem thread_local_map m dead live rows t fresh id : meta_ok m dead live rows -> t ∉ dead -> fresh_data m fresh -> id ∈ live ->
  (exists m' rows', Get t fresh id m = Ret (val rows t id, m') /\ meta_ok m' dead live rows' /\ unrefs m' = unrefs m /\
     forall t' id', val rows' t' id' = val rows t' id') /\
  (forall p, exists m' rows', Reset t fresh id p m = Ret (tt, m') /\ meta_ok m' dead live rows' /\ unrefs m' = unrefs m /\
     forall t' id', 0 <= id' -> val rows' t' id' = if bool_decide (t' = t /\ id' = id) then p else val rows t' id') /\
  (forall p, exists m' rows', Swap t fresh id p m = Ret (val rows t id, m') /\ meta_ok m' dead live rows' /\ unrefs m' = unrefs m /\
     forall t' id', 0 <= id' -> val rows' t' id' = if bool_decide (t' = t /\ id' = id) then p else val rows t' id') /\
  (forall p expected, exists m' rows',
     CompareAndSwap t fresh id p expected m = Ret ((val rows t id =? expected), val rows t id, m') /\ meta_ok m' dead live rows' /\ unrefs m' = unrefs m /\
     forall t' id', 0 <= id' -> val rows' t' id' = if (val rows t id =? expected) && bool_decide (t' = t /\ id' = id) then p else val rows t' id') /\
  (exists m', Fold id m = Ret (filter (fun p => p <> 0) ((fun t => val rows t id) <$> rows.*1), m') /\ meta_ok m' dead live rows /\ unrefs m' = unrefs m) /\
  (forall p, exists m' rows', Scrape id p m = Ret (filter (fun p => p <> 0) ((fun t => val rows t id) <$> rows.*1), m') /\
     meta_ok m' dead live rows' /\ unrefs m' = unrefs m /\
     forall t' id', 0 <= id' -> if bool_decide (id' = id) then (val rows t' id' <> 0 -> val rows' t' id' = p) /\ (val rows' t' id' = p \/ val rows' t' id' = 0)
       else val rows' t' id' = val rows t' id').
Proof.
  intros Hok Ht Hf Hid. destruct (live_id Hok id Hid) as [H1 H2]. destruct (mo_ring _ _ _ _ Hok) as [ls HR].
  pose proof (values_val rows id (rr_threads _ _ _ _ HR)) as Hvals. repeat split.
  - destruct (meta_Get_spec HR t fresh Ht Hf id) as (m' & ls' & E & HR' & Hs); [lia|]. exists m', (register t rows).
    split; [exact E|]. split; [|split; [by apply si_unrefs|intros; apply val_register]].
    apply (same_ids_ok Hok m' ls'); [done|done|intros; apply val_register|by apply (register_size Hok)].
  - intros p. destruct (meta_Reset_spec HR t fresh Ht Hf id H2 p) as (m' & ls' & E & HR' & Hs). exists m', (written t id p rows).
    split; [exact E|]. split; [|split; [by apply si_unrefs|intros; by apply val_written]].
    apply (written_ok Hok m' ls' t id p); [done|done|done|apply zlen_put|]. intros. by apply val_written.
  - intros p. destruct (meta_Swap_spec HR t fresh Ht Hf id H2 p) as (m' & ls' & E & HR' & Hs). exists m', (written t id p rows).
    split; [exact E|]. split; [|split; [by apply si_unrefs|intros; by apply val_written]].
    apply (written_ok Hok m' ls' t id p); [done|done|done|apply zlen_put|]. intros. by apply val_written.
  - intros p e. destruct (meta_CompareAndSwap_spec HR t fresh Ht Hf id H2 p e) as (m' & ls' & es & E & HR' & Hs & Hl & Hv).
    exists m', (set_vec t es (register t rows)). split; [exact E|]. split; [|split; [by apply si_unrefs|done]].
    apply (written_ok Hok m' ls' t id (if val rows t id =? e then p else val rows t id)); [done|done|done|done|].
    intros t' id' H0. rewrite Hv by done. destruct (val rows t id =? e); simpl; [done|]. case_bool_decide as Hx; [by destruct Hx as [-> ->]|done].
  - destruct (meta_Fold_spec HR id) as (m' & E & HR' & Hs); [lia|]. exists m'. rewrite <- Hvals. split; [exact E|].
    split; [|by apply si_unrefs]. apply (same_ids_ok Hok m' ls); [done|done|done|apply (mo_size _ _ _ _ Hok)].
  - intros p. destruct (meta_Scrape_spec HR id ltac:(lia) p) as (m' & E & HR' & Hs). rewrite <- Hvals.
    exists m', ((fun r => (r.1, put_if id p r.2)) <$> rows). split; [exact E|]. split; [by apply (put_if_ok Hok m' ls)|].
    split; [by apply si_unrefs|]. intros t' id' H0. rewrite val_put_if by lia. case_bool_decide as Hx; [subst id'|done].
    destruct (Z.ltb_spec id (zlen (vec rows t'))) as [Hl|Hl]; [by split; [|left]|]. split; [|by right].
    intros Hn. destruct Hn. unfold val. by apply slot_out.
Qed.

(** A state that differs in its ids and handlers. *)
Lemma ring_set_ids m dead ls rows n f : ring_rep m dead ls rows -> ring_rep (set_ids m n f) dead ls rows.
Proof. intros []. by constructor. Qed.
Lemma ring_set_handlers m dead ls rows h : ring_rep m dead ls rows -> ring_rep (set_handlers m h) dead ls rows.
Proof. intros []. by constructor. Qed.

(** [GetId] hands out the id that [PeekId] announces, one that is not in use. *)
Lemma GetId_ok {m dead live rows} : meta_ok m dead live rows -> next_instance_id_ m < 4294967295 ->
  exists id n f, GetId m = Ret (id, set_ids m n f) /\ PeekId m = Ret (id, m) /\ 0 <= id /\ (id ∉ live) /\
    meta_ok (set_ids m n f) dead ({[id]} ∪ live) rows.
Proof.
  intros [[ls HR] Hn Hids [Hnd Hfr] Hnull Hh Hsz] Hmax. unfold GetId, PeekId, tget. rewrite !(T_bind_step _ _ m m m) by done.
  destruct (list.last (free_instance_ids_ m)) as [id|] eqn:El.
  - apply last_Some in El as [l El]. rewrite El in Hids, Hnd, Hfr.
    assert (id ∉ live) as Hnl by (apply Hfr; set_solver). assert (0 <= id < next_instance_id_ m) as Hid by (apply Hids; set_solver).
    apply list.NoDup_app in Hnd as (Hl1 & Hl2 & _).
    exists id, (next_instance_id_ m), (removelast (free_instance_ids_ m)). split; [done|]. split; [done|]. split; [lia|]. split; [done|].
    rewrite El, removelast_last. constructor; simpl; try done.
    + exists ls. by apply ring_set_ids.
    + intros i. rewrite Hids. set_solver.
    + split; [done|]. intros i Hi. specialize (Hfr i). set_solver.
    + intros t i H0 Hi. apply Hnull; [done|set_solver].
    + intros i Hi. unfold handler_of. simpl. apply (Hh i). set_solver.
  - apply last_None in El. rewrite El in Hids, Hnd, Hfr. set (id := next_instance_id_ m) in *.
    assert (id ∉ live) as Hnl by (intros H; assert (0 <= id < id) by (apply Hids; by right); lia).
    exists id, (u32 (id + 1)), (free_instance_ids_ m). split; [done|]. split; [done|]. split; [lia|]. split; [done|].
    rewrite El, u32_small by lia. constructor; simpl; try done.
    + exists ls. by apply ring_set_ids.
    + lia.
    + intros i. rewrite elem_of_union, elem_of_singleton. pose proof (Hids i) as Hi. destruct (decide (i = id)) as [->|]; [split; [tauto|lia]|].
      split; [intros; assert (0 <= i < id) as Hx by lia; apply Hi in Hx; tauto|].
      intros [H|[->|H]]; [by apply elem_of_nil in H|done|]. assert (0 <= i < id) by (apply Hi; by right). lia.
    + split; [apply NoDup_nil_2|]. intros i Hi. by apply elem_of_nil in Hi.
    + intros t i H0 Hi. apply Hnull; [done|set_solver].
    + intros i Hi. unfold handler_of. simpl. apply (Hh i). set_solver.
    + eapply Forall_impl; [|exact Hsz]. intros r Hr. simpl in *. lia.
Qed.

(** C24: Instances and threads come and go without leaving anything behind. A new instance has
    an id that no other one has, and its value is null in every thread, whoever had the id
    before. When an instance ends its handler is called exactly for its values that are not
    null, and when a thread ends each instance's handler is called for the thread's value
    that is not null; the other values stay. The end of the process is the end of the thread in which it
    ends, as the main thread, for which the key has no destructor. *)
Theorem thread_local_lifecycle m dead live rows : meta_ok m dead live rows ->
  (forall handler, next_instance_id_ m < 4294967295 -> exists id m', ThreadLocalPtr_new handler m = Ret (id, m') /\ (id ∉ live) /\
     meta_ok m' dead ({[id]} ∪ live) rows /\ (forall t, val rows t id = 0) /\ handler_of m' id = handler /\ unrefs m' = unrefs m) /\
  (forall id, id ∈ live -> exists m' rows', ThreadLocalPtr_delete id m = Ret (tt, m') /\ meta_ok m' dead (live ∖ {[id]}) rows' /\
     unrefs m' = unrefs m ++ calls (handler_of m id) (filter (fun p => p <> 0) ((fun t => val rows t id) <$> rows.*1)) /\
     forall t id', 0 <= id' -> id' <> id -> val rows' t id' = val rows t id') /\
  (forall t, t ∉ dead -> exists m' rows', OnThreadExit t m = Ret (tt, m') /\ meta_ok m' ({[t]} ∪ dead) live rows' /\
     unrefs m' = unrefs m ++ exit_calls m (vec rows t) 0 /\ forall t' id, t' <> t -> val rows' t' id = val rows t' id) /\
  (forall t, t ∉ dead -> A_delete t m = OnThreadExit t m).
Proof.
  intros Hok. split; [|split; [|split; [|intros t Ht; destruct Hok as [[ls HR] _ _ _ _ _ _]; exact (A_delete_eq HR t Ht)]]].
  - intros handler Hmax. destruct (GetId_ok Hok Hmax) as (id & n & f & E & _ & H0 & Hnl & Hok1). exists id.
    pose proof (mo_handlers _ _ _ _ Hok id Hnl) as Hno. unfold ThreadLocalPtr_new. rewrite (T_bind_step _ _ _ _ _ E).
    destruct handler as [h|]; (eexists; split; [done|]); (split; [done|]); (split; [|split; [intros t; by apply (mo_null _ _ _ _ Hok)|split; [|done]]]).
    + destruct Hok1 as [[ls HR] ? ? ? ? Hh ?]. constructor; simpl; try done; [exists ls; by apply ring_set_handlers|].
      intros i Hi. unfold handler_of. simpl. rewrite lookup_insert_ne by set_solver. by apply (Hh i).
    + unfold handler_of. simpl. by rewrite lookup_insert_eq.
    + done.
    + done.
  - intros id Hid. destruct (live_id Hok id Hid) as [H1 H2]. destruct Hok as [[ls HR] Hn Hids [Hnd Hfr] Hnull Hh Hsz].
    destruct (ReclaimId_spec HR id ltac:(lia)) as (m' & E & HR' & E1 & E2 & E3 & E4). rewrite (values_val rows id) in E4 by apply (rr_threads _ _ _ _ HR).
    exists m', ((fun r => (r.1, put_if id 0 r.2)) <$> rows). split; [exact E|]. split; [|split; [done|]].
    2: { intros t id' H0 Hne. rewrite val_put_if by lia. by rewrite bool_decide_false. }
    constructor; rewrite ?E1, ?E2; try done.
    + by exists ls.
    + intros i. rewrite Hids. rewrite elem_of_app, list_elem_of_singleton, elem_of_difference, elem_of_singleton. destruct (decide (i = id)) as [->|]; tauto.
    + split; [apply list.NoDup_app; split; [done|split; [|apply NoDup_singleton]]|].
      * intros i Hi ->%list_elem_of_singleton. by apply (Hfr id).
      * intros i. rewrite elem_of_app, list_elem_of_singleton, elem_of_difference, elem_of_singleton. intros [Hi|Hi]; [|tauto]. specialize (Hfr i Hi). tauto.
    + intros t i H0 Hi. rewrite val_put_if by lia. case_bool_decide as Hx; [by destruct (_ <? _)|]. apply Hnull; [done|set_solver].
    + intros i Hi. unfold handler_of. rewrite E3. destruct (decide (i = id)) as [->|]; [by rewrite lookup_insert_eq|].
      rewrite lookup_insert_ne by done. apply (Hh i). set_solver.
    + apply Forall_fmap. eapply Forall_impl; [|exact Hsz]. intros r Hr. simpl. unfold put_if. by destruct (id <? zlen r.2); [rewrite zlen_put|].
  - intros t Ht. destruct Hok as [[ls HR] Hn Hids [Hnd Hfr] Hnull Hh Hsz].
    destruct (OnThreadExit_spec HR t Ht) as (m' & ls' & E & HR' & E1 & E2 & E3 & E4).
    { eapply Forall_impl; [|exact Hsz]. intros r Hr. simpl in *. lia. }
    exists m', (drop_row t rows). split; [exact E|]. split; [|split; [done|]].
    2: { intros t' id Hne. unfold val. rewrite vec_drop_row. by rewrite bool_decide_false. }
    constructor; rewrite ?E1, ?E2; try done.
    + by exists ls'.
    + intros t' i H0 Hi. unfold val. rewrite vec_drop_row. case_bool_decide; [unfold slot; by destruct (Z.to_nat i)|]. by apply Hnull.
    + intros i Hi. unfold handler_of. rewrite E3. by apply (Hh i).
    + unfold drop_row. clear -Hsz. induction Hsz as [|r rows Hr _ IH]; [done|]. rewrite filter_cons. case_decide; [by constructor|done].
Qed.

(** ** One instance *)

Definition demo_meta : StaticMeta := set_ids StaticMeta_new 1 [].
Lemma demo_meta_ok : meta_ok demo_meta ∅ {[ 0 ]} [].
Proof.
  constructor; simpl; try done.
  - exists []. apply ring_set_ids, StaticMeta_new_rep.
  - intros id. rewrite elem_of_singleton. split; [intros; right; lia|intros [H| ->]; [by apply elem_of_nil in H|lia]].
  - split; [apply NoDup_nil_2|set_solver].
  - intros t id _ _. unfold val, slot. simpl. by destruct (Z.to_nat id).
Qed.
Lemma demo_fresh : fresh_data demo_meta (Some 8).
Proof. exists 8. by split. Qed.

Lemma thread_local_map_witness : exists m' rows', Reset 1 (Some 8) 0 42 demo_meta = Ret (tt, m') /\ val rows' 1 0 = 42 /\ val rows' 2 0 = 0.
Proof.
  destruct (thread_local_map demo_meta ∅ {[ 0 ]} [] 1 (Some 8) 0 demo_meta_ok ltac:(apply not_elem_of_empty) demo_fresh ltac:(by apply elem_of_singleton))
    as (_ & HR & _).
  destruct (HR 42) as (m' & rows' & E & _ & _ & Hv). exists m', rows'. split; [exact E|].
  rewrite !Hv by lia. split; reflexivity.
Defined.

Lemma thread_local_lifecycle_witness : exists id m', ThreadLocalPtr_new (Some 5) demo_meta = Ret (id, m') /\ id ∉ ({[ 0 ]} : gset Z).
Proof.
  destruct (thread_local_lifecycle demo_meta ∅ {[ 0 ]} [] demo_meta_ok) as (HN & _).
  destruct (HN (Some 5) ltac:(by vm_compute)) as (id & m' & E & Hid & _). exists id, m'. exact (conj E Hid).
Defined.

(** [tls_] is not reset when a thread ends: code that runs after [OnThreadExit] in the same
    thread and uses an instance reads freed memory. *)
Lemma use_after_exit :
  (m ← (fun m => match Reset 1 (Some 8) 0 42 m with Ret (_, m) => Ret m | _ => NoFuel end) demo_meta;
   m ← match OnThreadExit 1 m with Ret (_, m) => Ret m | _ => NoFuel end;
   Get 1 (Some 9) 0 m) = Undef.
Proof. vm_compute. reflexivity. Qed.

(** So does the end of the process when it is a thread that has ended which ends it, as the last thread
    of a process whose [main] has called [pthread_exit]: it frees its [ThreadData] again. *)
Lemma double_exit :
  (m ← (fun m => match Reset 1 (Some 8) 0 42 m with Ret (_, m) => Ret m | _ => NoFuel end) demo_meta;
   m ← match OnThreadExit 1 m with Ret (_, m) => Ret m | _ => NoFuel end;
   A_delete 1 m) = Undef.
Proof. vm_compute. reflexivity. Qed.
