(* ===== verification/ThreadLocalExample.v ===== *)
(** * ThreadLocalExample ([examples/thread_local_example.cc])

    The example of the thread-local pointers: two threads store an object each, read it back and end. Every
    interleaving of their calls is executed. *)

From stdpp Require Import list gmap.
From S2P Require Import Prelude.
From S2P Require Import ThreadLocal.

(** ** The program *)

(** What it prints; an object is known by what it has [First]. *)
Inductive visit_line : Type := VSwap (t : thread) (old_ptr : Z) | VGet (t : thread) (first : Z) | VDestruct (first : Z).
#[export] Instance visit_line_eq_dec : EqDecision visit_line.
Proof. solve_decision. Defined.

Definition UnrefHandle : Z := 1.

(** [VisitLocalData], its call number [pc] in thread [t], and the end of the thread. *)
Definition VisitLocalData (thread_local_ptr : Z) (t : thread) (first : Z) (pc : nat) : T (list visit_line) :=
  match pc with
  | 0%nat => old_ptr ← Swap t (Some t) thread_local_ptr first; mret [VSwap t old_ptr]
  | 1%nat => cur_ptr ← Get t None thread_local_ptr; mret [VGet t cur_ptr]
  | 2%nat =>
      m ← tget;
      _ ← OnThreadExit t;
      m' ← tget;
      mret ((fun c => VDestruct c.2) <$> drop (length (unrefs m)) (unrefs m'))
  | _ => mret []
  end.

(** The threads [1] and [2], in the order in which they take turns, with the calls that they have made. *)
Fixpoint visit_loop (thread_local_ptr : Z) (turns : list thread) (pc1 pc2 : nat) : T (list visit_line) :=
  match turns with
  | [] => mret []
  | t :: turns' =>
      l ← (if t =? 1 then VisitLocalData thread_local_ptr 1 6 pc1 else VisitLocalData thread_local_ptr 2 8 pc2);
      l' ← (if t =? 1 then visit_loop thread_local_ptr turns' (S pc1) pc2 else visit_loop thread_local_ptr turns' pc1 (S pc2));
      mret (l ++ l')
  end.

(** [main], thread [0], which never deletes [thread_local_ptr]; the process ends after [return]. *)
Definition thread_local_main (turns : list thread) : T (list visit_line) :=
  thread_local_ptr ← ThreadLocalPtr_new (Some UnrefHandle);
  l ← visit_loop thread_local_ptr turns 0 0;
  _ ← A_delete 0;
  mret l.

(** ** Its runs *)

(** The lines of a thread and of its object. *)
Definition lines_of (t : thread) (first : Z) (l : list visit_line) : list visit_line :=
  filter (fun x => match x with VSwap t' _ | VGet t' _ => t' =? t | VDestruct f => f =? first end = true) l.

(** In whatever order the threads make their calls, each of them finds no object, gets the one it has stored, and
    leaves it to the handler when it ends, once. *)
Lemma thread_local_example turns : turns ≡ₚ [1; 1; 1; 2; 2; 2] ->
  exists l m, thread_local_main turns StaticMeta_new = Ret (l, m) /\ length l = 6%nat /\
    lines_of 1 6 l = [VSwap 1 0; VGet 1 6; VDestruct 6] /\ lines_of 2 8 l = [VSwap 2 0; VGet 2 8; VDestruct 8].
Proof.
  intros Ht%symmetry%permutations_Permutation.
  assert (Forall (fun turns => match thread_local_main turns StaticMeta_new with
    | Ret (l, _) => bool_decide (length l = 6%nat /\ lines_of 1 6 l = [VSwap 1 0; VGet 1 6; VDestruct 6] /\
        lines_of 2 8 l = [VSwap 2 0; VGet 2 8; VDestruct 8])
    | _ => false end = true) (permutations [1; 1; 1; 2; 2; 2])) as H.
  { apply (bool_decide_unpack _). by vm_compute. }
  apply list_elem_of_In in Ht. rewrite Forall_forall in H. specialize (H turns Ht). destruct (thread_local_main _ _) as [[l m]| | |]; try discriminate H.
  exists l, m. split; [done|]. by apply bool_decide_eq_true in H.
Qed.
