(* ===== verification/IoPosix.v ===== *)
(** * IoPosix ([rutil/io_posix.h], [rutil/io_posix.cc])

    The files of the POSIX environment over the system calls, which are an interface. A
    program is a function of the state of the system; its loops have fuel, because a call
    may be interrupted any number of times. *)

From Stdlib Require Import Strings.Byte Strings.String.
From stdpp Require Import list.
From S2P Require Import Prelude.
From S2P Require Import Slice.
From S2P Require Import Coding.
From S2P Require Import Status.
From S2P Require Import FileApi.

(** ** System calls *)

(** The calls that these files make, on the state [O] of the process and its files. A call
    returns an integer (for the reading ones, with the bytes; [fstat] also gives the device and
    the inode, the [ioctl] the version), and may change [errno]. *)
Class Posix (O : Type) := {
  errno : O -> Z;
  strerror : Z -> Slice;
  kPageSize : Z;
  sys_pread : O -> Z -> Z -> Z -> (Z * list byte) * O;
  sys_pwrite : O -> Z -> list byte -> Z -> Z * O;
  sys_write : O -> Z -> list byte -> Z * O;
  sys_close : O -> Z -> Z * O;
  sys_fsync : O -> Z -> Z * O;
  sys_fdatasync : O -> Z -> Z * O;
  sys_ftruncate : O -> Z -> Z -> Z * O;
  sys_fallocate : O -> Z -> bool -> Z -> Z -> Z * O;
  sys_punch_hole : O -> Z -> Z -> Z -> Z * O;
  sys_sync_file_range : O -> Z -> Z -> Z -> Z * O;
  sys_fadvise : O -> Z -> Z -> Z -> Z -> Z * O;
  sys_memalign : O -> Z -> option (Z * list byte) * O;
  sys_fstat : O -> Z -> (Z * (Z * Z)) * O;
  sys_getversion : O -> Z -> (Z * Z) * O;
  sys_posix_fallocate : O -> Z -> Z -> Z -> Z * O;
  sys_mmap : O -> Z -> Z -> Z -> option Z * O;
  sys_munmap : O -> Z -> Z -> Z * O;
  sys_msync : O -> Z -> Z -> Z * O;
  mem_store : O -> Z -> list byte -> O;
  c_fread : O -> Z -> Z -> (Z * list byte) * O;
  c_feof : O -> Z -> bool;
  c_ferror : O -> Z -> bool;
  c_clearerr : O -> Z -> O;
  c_fseek_cur : O -> Z -> Z -> Z * O;
}.

Definition EINTR : Z := 4.
Definition EINVAL : Z := 22.
Definition ENOSPC : Z := 28.
Definition POSIX_FADV_NORMAL : Z := 0.
Definition POSIX_FADV_RANDOM : Z := 1.
Definition POSIX_FADV_SEQUENTIAL : Z := 2.
Definition POSIX_FADV_WILLNEED : Z := 3.
Definition POSIX_FADV_DONTNEED : Z := 4.

(** [static_cast<off_t>] and the greatest [off_t]. *)
Definition off_t (z : Z) : Z := swrap 64 z.
Definition max_off_t : Z := 2 ^ 63 - 1.

Section posix.
Context `{Host} {O : Type} `{Posix O}.

Definition IO (A : Type) : Type := O -> outcome (A * O).
#[export] Instance IO_ret : MRet IO := fun A a o => Ret (a, o).
#[export] Instance IO_bind : MBind IO := fun A B f m o =>
  match m o with
  | Ret (a, o') => f a o'
  | AssertFail => AssertFail
  | Undef => Undef
  | NoFuel => NoFuel
  end.
Definition call {A} (f : O -> A * O) : IO A := fun o => Ret (f o).
Definition get_errno : IO Z := fun o => Ret (errno o, o).
Definition io_assert (b : bool) : IO unit := fun o => if b then Ret (tt, o) else AssertFail.
Definition io_undef {A} : IO A := fun _ => Undef.
Definition io_nofuel {A} : IO A := fun _ => NoFuel.

(** [IOError] of the header. *)
Definition IOError_of (context : Slice) (err_number : Z) : Status :=
  if err_number =? ENOSPC then NoSpace context (strerror err_number) else IOError context (strerror err_number).

(** [return IOError(filename_, errno)] when the call has failed. *)
Definition status_of (context : Slice) (r : Z) : IO Status :=
  if r <? 0 then e ← get_errno; mret (IOError_of context e) else mret OK.

Definition Fadvise (fd offset len advice : Z) : IO Z := call (fun o => sys_fadvise o fd offset len advice).

(** [InvalidateCache] of the classes that advise. *)
Definition posix_InvalidateCache (filename : Slice) (fd offset length : Z) : IO Status :=
  ret ← Fadvise fd (off_t offset) length POSIX_FADV_DONTNEED;
  if ret =? 0 then mret OK else e ← get_errno; mret (IOError_of filename e).

(** ** Direct I/O *)

Definition kSectorSize : Z := 512.

Definition Upper (size fac : Z) : Z := if size mod fac =? 0 then size else u64 (size + (fac - size mod fac)).
Definition Lower (size fac : Z) : Z := if size mod fac =? 0 then size else size - size mod fac.
Definition IsSectorAligned (off : Z) : bool := off mod kSectorSize =? 0.
Definition IsPageAligned (ptr : Z) : bool := ptr mod kPageSize =? 0.

(** The loop of [ReadAligned]; [data] is what has been read, [status] the last result. *)
Fixpoint ReadAligned_loop (fuel : nat) (fd offset size : Z) (data : list byte) (status : Z) : IO (list byte * Z) :=
  if zlen data <? size then
    match fuel with
    | 0%nat => io_nofuel
    | S fuel' =>
        '(status, bytes) ← call (fun o => sys_pread o fd (size - zlen data) (off_t (offset + zlen data)));
        if status <=? 0 then
          e ← get_errno;
          if e =? EINTR then ReadAligned_loop fuel' fd offset size data status else mret (data, status)
        else
          let data := data ++ bytes in
          if negb (status mod kSectorSize =? 0) then mret (data, status)
          else ReadAligned_loop fuel' fd offset size data status
    end
  else mret (data, status).

(** [scratch] is the address of the memory; the result is the data and what [scratch] begins
    with. *)
Definition ReadAligned (fuel : nat) (fd offset size scratch : Z) : IO (Status * list byte) :=
  _ ← io_assert (IsSectorAligned offset);
  _ ← io_assert (IsSectorAligned size);
  _ ← io_assert (IsPageAligned scratch);
  '(data, status) ← ReadAligned_loop fuel fd offset size [] (-1);
  if status <? 0 then e ← get_errno; mret (IOError (strerror e) [], data) else mret (OK, data).

(** [memcpy] from [raw] at [i]; outside it is undefined. *)
Definition copy_from (raw : list byte) (i n : Z) : IO (list byte) :=
  if i + n <=? zlen raw then mret (ztake n (zdrop i raw)) else io_undef.

Definition ReadUnaligned (fuel : nat) (fd offset size scratch : Z) : IO (Status * list byte) :=
  _ ← io_assert (negb (scratch =? 0));
  _ ← io_assert (negb (IsSectorAligned offset) || negb (IsSectorAligned size) || negb (IsPageAligned scratch));
  let aligned_off := Lower offset kSectorSize in
  let aligned_size := Upper (u64 (size + (offset - aligned_off))) kSectorSize in
  aligned_scratch ← call (fun o => sys_memalign o aligned_size);
  match aligned_scratch with
  | None => fun _ => AssertFail
  | Some (p, raw) =>
      _ ← io_assert (IsSectorAligned aligned_off);
      _ ← io_assert (IsSectorAligned aligned_size);
      _ ← io_assert (IsPageAligned p);
      _ ← io_assert (u64 (offset + size) <=? u64 (aligned_off + aligned_size));
      '(s, data) ← ReadAligned fuel fd aligned_off aligned_size p;
      let raw := data ++ zdrop (zlen data) raw in
      let n := Z.min size (zlen data) in
      result ← copy_from raw (offset mod kSectorSize) n;
      mret (s, result)
  end.

Definition DirectIORead (fuel : nat) (fd off n scratch : Z) : IO (Status * list byte) :=
  if IsSectorAligned off && IsSectorAligned n && IsPageAligned scratch
  then ReadAligned fuel fd off n scratch
  else ReadUnaligned fuel fd off n scratch.

(** ** [PosixSequentialFile] and its direct sibling *)

Record PosixSequentialFile : Type := mkSeq { sq_filename : Slice; sq_file : Z; sq_fd : Z; sq_use_os_buffer : bool }.

(** The loop around [fread_unlocked]. *)
Fixpoint fread_loop (fuel : nat) (stream n : Z) : IO (list byte) :=
  match fuel with
  | 0%nat => io_nofuel
  | S fuel' =>
      '(r, bytes) ← call (fun o => c_fread o stream n);
      again ← (fun o => Ret ((r =? 0) && c_ferror o stream && (errno o =? EINTR), o));
      if again : bool then fread_loop fuel' stream n else mret bytes
  end.
Definition Sequential_Read (fuel : nat) (f : PosixSequentialFile) (n : Z) : IO (Status * Slice) :=
  result ← fread_loop fuel (sq_file f) n;
  s ← (if zlen result <? n then
         eof ← (fun o => Ret (c_feof o (sq_file f), o));
         if eof : bool then _ ← call (fun o => (tt, c_clearerr o (sq_file f))); mret OK
         else e ← get_errno; mret (IOError_of (sq_filename f) e)
       else mret OK);
  _ ← (if negb (sq_use_os_buffer f) then Fadvise (sq_fd f) 0 0 POSIX_FADV_DONTNEED else mret 0);
  mret (s, result).
Definition Sequential_Skip (f : PosixSequentialFile) (n : Z) : IO Status :=
  r ← call (fun o => c_fseek_cur o (sq_file f) (swrap 64 n));
  if negb (r =? 0) then e ← get_errno; mret (IOError_of (sq_filename f) e) else mret OK.
Definition Sequential_InvalidateCache (f : PosixSequentialFile) (offset length : Z) : IO Status :=
  posix_InvalidateCache (sq_filename f) (sq_fd f) offset length.

Record PosixDirectIOSequentialFile : Type := mkDirectSeq { dq_filename : Slice; dq_fd : Z; off_ : Z }.
Definition DirectSequential_Read (fuel : nat) (f : PosixDirectIOSequentialFile) (n scratch : Z)
  : IO (Status * list byte * PosixDirectIOSequentialFile) :=
  let off := off_ f in
  let f := mkDirectSeq (dq_filename f) (dq_fd f) (u64 (off_ f + n)) in
  '(s, result) ← DirectIORead fuel (dq_fd f) off n scratch;
  mret (s, result, f).
Definition DirectSequential_Skip (f : PosixDirectIOSequentialFile) (n : Z) : Status * PosixDirectIOSequentialFile :=
  (OK, mkDirectSeq (dq_filename f) (dq_fd f) (u64 (off_ f + n))).

Definition DirectSequential_InvalidateCache (f : PosixDirectIOSequentialFile) (offset length : Z) : Status := OK.

(** ** [PosixRandomAccessFile] and its siblings *)

Record PosixRandomAccessFile : Type := mkRandomAccess { rf_filename : Slice; rf_fd : Z; rf_use_os_buffer : bool }.

(** The loop of [Read]: [acc] has been read, [left] is to come, [r] is the last result. *)
Fixpoint Read_loop (fuel : nat) (fd offset left : Z) (acc : list byte) (r : Z) : IO (list byte * Z) :=
  if 0 <? left then
    match fuel with
    | 0%nat => io_nofuel
    | S fuel' =>
        '(r, bytes) ← call (fun o => sys_pread o fd left (off_t offset));
        if r <=? 0 then
          e ← get_errno;
          if e =? EINTR then Read_loop fuel' fd offset left acc r else mret (acc, r)
        else Read_loop fuel' fd (u64 (offset + r)) (left - r) (acc ++ bytes) r
    end
  else mret (acc, r).
Definition RandomAccess_Read (fuel : nat) (f : PosixRandomAccessFile) (offset n : Z) : IO (Status * Slice) :=
  '(data, r) ← Read_loop fuel (rf_fd f) offset n [] (-1);
  let result := if r <? 0 then [] else data in
  s ← status_of (rf_filename f) r;
  _ ← (if negb (rf_use_os_buffer f) then Fadvise (rf_fd f) 0 0 POSIX_FADV_DONTNEED else mret 0);
  mret (s, result).

Definition RandomAccess_Hint (f : PosixRandomAccessFile) (pattern : AccessPattern) : IO Z :=
  Fadvise (rf_fd f) 0 0
    match pattern with
    | NORMAL => POSIX_FADV_NORMAL
    | RANDOM => POSIX_FADV_RANDOM
    | SEQUENTIAL => POSIX_FADV_SEQUENTIAL
    | WILLNEED => POSIX_FADV_WILLNEED
    | DONTNEED => POSIX_FADV_DONTNEED
    end.
Definition RandomAccess_InvalidateCache (f : PosixRandomAccessFile) (offset length : Z) : IO Status :=
  posix_InvalidateCache (rf_filename f) (rf_fd f) offset length.
Definition DirectRandomAccess_Read (fuel : nat) (f : PosixRandomAccessFile) (offset n scratch : Z) : IO (Status * list byte) :=
  DirectIORead fuel (rf_fd f) offset n scratch.

Definition DirectRandomAccess_Hint {A : Type} (f : A) (pattern : AccessPattern) : A := f.
Definition DirectRandomAccess_InvalidateCache (f : PosixRandomAccessFile) (offset length : Z) : Status := OK.

(** [GetUniqueIdFromFile]: what is written to [id]. *)
Definition GetUniqueIdFromFile (fd max_size : Z) : IO (list byte) :=
  if max_size <? kMaxVarint64Length * 3 then mret []
  else
    '(result, (dev, ino)) ← call (fun o => sys_fstat o fd);
    _ ← io_assert (negb (result =? -1));
    '(result, version) ← call (fun o => sys_getversion o fd);
    if result =? -1 then mret []
    else mret (EncodeVarint64 (u64 dev) ++ EncodeVarint64 (u64 ino) ++ EncodeVarint64 (u64 version)).

Definition RandomAccess_GetUniqueId (f : PosixRandomAccessFile) (max_size : Z) : IO (list byte) := GetUniqueIdFromFile (rf_fd f) max_size.

(** [mmapped_region_] is the bytes of the region. *)
Record PosixMmapReadableFile : Type := mkMmapReadable { mr_filename : Slice; mmapped_region_ : list byte; length_ : Z; mr_fd : Z }.
Definition Mmap_Read (f : PosixMmapReadableFile) (offset n : Z) : outcome (Status * Slice) :=
  if length_ f <? offset then Ret (IOError_of (mr_filename f) EINVAL, [])
  else
    let n := if length_ f <? u64 (offset + n) then u64 (length_ f - offset) else n in
    if offset + n <=? zlen (mmapped_region_ f) then Ret (OK, ztake n (zdrop offset (mmapped_region_ f))) else Undef.

Definition MmapReadable_InvalidateCache (f : PosixMmapReadableFile) (offset length : Z) : IO Status :=
  posix_InvalidateCache (mr_filename f) (mr_fd f) offset length.

(** ** [PosixWritableFile] and its direct sibling *)

(** The members, those of the base class included. *)
Record PosixWritableFile : Type := mkPosixWritable {
  pw_filename : Slice;
  pw_fd : Z;
  pw_filesize : Z;
  allow_fallocate_ : bool;
  fallocate_with_keep_size_ : bool;
  pw_base : WritableFileBase;
}.
Definition set_filesize (f : PosixWritableFile) n := mkPosixWritable (pw_filename f) (pw_fd f) n (allow_fallocate_ f)
  (fallocate_with_keep_size_ f) (pw_base f).
Definition set_fd (f : PosixWritableFile) fd := mkPosixWritable (pw_filename f) fd (pw_filesize f) (allow_fallocate_ f)
  (fallocate_with_keep_size_ f) (pw_base f).
Definition set_base (f : PosixWritableFile) b := mkPosixWritable (pw_filename f) (pw_fd f) (pw_filesize f) (allow_fallocate_ f)
  (fallocate_with_keep_size_ f) b.

(** The constructor, with the options that it uses. *)
Definition PosixWritableFile_new (fname : Slice) (fd : Z) (use_mmap_writes allow_fallocate keep_size : bool) : IO PosixWritableFile :=
  _ ← io_assert (negb use_mmap_writes);
  mret (mkPosixWritable fname fd 0 allow_fallocate keep_size WritableFileBase_new).

(** The loop of [Append]; [Some e] is a failed call with [errno] [e]. A call that claims to
    have written more than it was given moves [src] out of its bounds. *)
Fixpoint write_loop (fuel : nat) (fd : Z) (src : Slice) : IO (option Z) :=
  if negb (zlen src =? 0) then
    match fuel with
    | 0%nat => io_nofuel
    | S fuel' =>
        done ← call (fun o => sys_write o fd src);
        if done <? 0 then
          e ← get_errno;
          if e =? EINTR then write_loop fuel' fd src else mret (Some e)
        else if zlen src <? done then io_undef
        else write_loop fuel' fd (zdrop done src)
    end
  else mret None.
Definition Writable_Append (fuel : nat) (f : PosixWritableFile) (data : Slice) : IO (Status * PosixWritableFile) :=
  r ← write_loop fuel (pw_fd f) data;
  match r with
  | Some e => mret (IOError_of (pw_filename f) e, f)
  | None => mret (OK, set_filesize f (u64 (pw_filesize f + zlen data)))
  end.

(** The loop of [PositionedAppend]: the error, and [offset] afterwards. *)
Fixpoint pwrite_loop (fuel : nat) (fd : Z) (src : Slice) (offset : Z) : IO (option Z * Z) :=
  if negb (zlen src =? 0) then
    match fuel with
    | 0%nat => io_nofuel
    | S fuel' =>
        done ← call (fun o => sys_pwrite o fd src (off_t offset));
        if done <? 0 then
          e ← get_errno;
          if e =? EINTR then pwrite_loop fuel' fd src offset else mret (Some e, offset)
        else if zlen src <? done then io_undef
        else pwrite_loop fuel' fd (zdrop done src) (u64 (offset + done))
    end
  else mret (None, offset).
Definition Writable_PositionedAppend (fuel : nat) (f : PosixWritableFile) (data : Slice) (offset : Z) : IO (Status * PosixWritableFile) :=
  _ ← io_assert (offset <=? max_off_t);
  '(r, offset) ← pwrite_loop fuel (pw_fd f) data offset;
  match r with
  | Some e => mret (IOError_of (pw_filename f) e, f)
  | None => mret (OK, set_filesize f (u64 (offset + zlen data)))
  end.

Definition Writable_Truncate (f : PosixWritableFile) (size : Z) : Status := OK.
Definition Writable_Close (f : PosixWritableFile) : IO (Status * PosixWritableFile) :=
  let '(block_size, last_allocated_block) := GetPreallocationStatus (pw_base f) in
  _ ← (if 0 <? last_allocated_block then
         _ ← call (fun o => sys_ftruncate o (pw_fd f) (off_t (pw_filesize f)));
         if allow_fallocate_ f then
           call (fun o => sys_punch_hole o (pw_fd f) (off_t (pw_filesize f))
             (off_t (block_size * last_allocated_block - pw_filesize f)))
         else mret 0
       else mret 0);
  r ← call (fun o => sys_close o (pw_fd f));
  s ← status_of (pw_filename f) r;
  mret (s, set_fd f (-1)).
Definition Writable_Flush : Status := OK.
Definition Writable_Sync (f : PosixWritableFile) : IO Status :=
  r ← call (fun o => sys_fdatasync o (pw_fd f)); status_of (pw_filename f) r.
Definition Writable_Fsync (f : PosixWritableFile) : IO Status :=
  r ← call (fun o => sys_fsync o (pw_fd f)); status_of (pw_filename f) r.
Definition Writable_IsSyncThreadSafe : bool := true.
Definition Writable_GetFileSize (f : PosixWritableFile) : Z := pw_filesize f.
Definition Writable_InvalidateCache (f : PosixWritableFile) (offset length : Z) : IO Status :=
  posix_InvalidateCache (pw_filename f) (pw_fd f) offset length.

Definition Writable_GetUniqueId (f : PosixWritableFile) (max_size : Z) : IO (list byte) := GetUniqueIdFromFile (pw_fd f) max_size.

(** [Allocate], of this class and of [PosixMmapFile]. *)
Definition posix_Allocate (filename : Slice) (fd : Z) (allow keep : bool) (offset len : Z) : IO Status :=
  _ ← io_assert (offset <=? max_off_t);
  _ ← io_assert (len <=? max_off_t);
  alloc_status ← (if allow then call (fun o => sys_fallocate o fd keep (off_t offset) (off_t len)) else mret 0);
  if alloc_status =? 0 then mret OK else e ← get_errno; mret (IOError_of filename e).
Definition Writable_Allocate (f : PosixWritableFile) (offset len : Z) : IO Status :=
  posix_Allocate (pw_filename f) (pw_fd f) (allow_fallocate_ f) (fallocate_with_keep_size_ f) offset len.
Definition Writable_RangeSync (f : PosixWritableFile) (offset nbytes : Z) : IO Status :=
  _ ← io_assert (offset <=? max_off_t);
  _ ← io_assert (nbytes <=? max_off_t);
  r ← call (fun o => sys_sync_file_range o (pw_fd f) (off_t offset) (off_t nbytes));
  if r =? 0 then mret OK else e ← get_errno; mret (IOError_of (pw_filename f) e).
(** [PrepareWrite] of the base class with this [Allocate], whose status is dropped. *)
Definition Writable_PrepareWrite (f : PosixWritableFile) (offset len : Z) : IO PosixWritableFile :=
  let '(alloc, b) := PrepareWrite (pw_base f) offset len in
  _ ← match alloc with Some (off, n) => Writable_Allocate f off n | None => mret OK end;
  mret (set_base f b).

(** [addr] is the address of the data. *)
Definition DirectWritable_Append (fuel : nat) (f : PosixWritableFile) (addr : Z) (data : Slice) : IO (Status * PosixWritableFile) :=
  _ ← io_assert (IsSectorAligned (zlen data) && IsPageAligned addr);
  if negb (IsSectorAligned (zlen data)) || negb (IsPageAligned addr)
  then mret (IOError (str "Unaligned buffer for direct IO") [], f)
  else Writable_Append fuel f data.
Definition DirectWritable_PositionedAppend (fuel : nat) (f : PosixWritableFile) (addr : Z) (data : Slice) (offset : Z)
  : IO (Status * PosixWritableFile) :=
  _ ← io_assert (IsSectorAligned offset);
  _ ← io_assert (IsSectorAligned (zlen data));
  _ ← io_assert (IsPageAligned addr);
  if negb (IsSectorAligned offset) || negb (IsSectorAligned (zlen data)) || negb (IsPageAligned addr)
  then mret (IOError (str "offset or size is not aligned") [], f)
  else Writable_PositionedAppend fuel f data offset.

(** The destructors close what was not closed, and drop the status. *)
Definition RandomAccess_delete (f : PosixRandomAccessFile) : IO unit := _ ← call (fun o => sys_close o (rf_fd f)); mret tt.
(** [base] is the address of the mapping; the result of [munmap] is only printed. *)
Definition MmapReadable_delete (f : PosixMmapReadableFile) (base : Z) : IO unit :=
  _ ← call (fun o => sys_munmap o base (length_ f)); mret tt.
Definition Writable_delete (f : PosixWritableFile) : IO unit :=
  if 0 <=? pw_fd f then _ ← Writable_Close f; mret tt else mret tt.

(** ** [PosixMmapFile] *)

(** The pointers are addresses, [nullptr] is 0. *)
Record PosixMmapFile : Type := mkMmapFile {
  mm_filename : Slice;
  mm_fd : Z;
  page_size_ : Z;
  map_size_ : Z;
  base_ : Z;
  limit_ : Z;
  dst_ : Z;
  last_sync_ : Z;
  file_offset_ : Z;
  mm_allow_fallocate : bool;
  mm_keep_size : bool;
}.
Definition set_region (f : PosixMmapFile) map base limit dst sync off := mkMmapFile (mm_filename f) (mm_fd f) (page_size_ f)
  map base limit dst sync off (mm_allow_fallocate f) (mm_keep_size f).
Definition mm_set_fd (f : PosixMmapFile) fd := mkMmapFile (mm_filename f) fd (page_size_ f) (map_size_ f) (base_ f) (limit_ f)
  (dst_ f) (last_sync_ f) (file_offset_ f) (mm_allow_fallocate f) (mm_keep_size f).

Definition mm_Roundup (x y : Z) : Z := u64 (u64 (u64 (x + y) - 1) `div` y * y).
Definition mm_TruncateToPageBoundary (f : PosixMmapFile) (s : Z) : IO Z :=
  let s := u64 (s - Z.land s (page_size_ f - 1)) in
  _ ← io_assert (s mod page_size_ f =? 0);
  mret s.

Definition PosixMmapFile_new (fname : Slice) (fd page_size : Z) (use_mmap_writes allow_fallocate keep_size : bool) : IO PosixMmapFile :=
  _ ← io_assert (Z.land page_size (page_size - 1) =? 0);
  _ ← io_assert use_mmap_writes;
  mret (mkMmapFile fname fd page_size (mm_Roundup 65536 page_size) 0 0 0 0 0 allow_fallocate keep_size).

(** The error of [munmap] is made of its result, not of [errno]. *)
Definition UnmapCurrentRegion (f : PosixMmapFile) : IO (Status * PosixMmapFile) :=
  if negb (base_ f =? 0) then
    munmap_status ← call (fun o => sys_munmap o (base_ f) (u64 (limit_ f - base_ f)));
    if negb (munmap_status =? 0) then mret (IOError_of (mm_filename f) munmap_status, f)
    else
      let map_size := if map_size_ f <? 1048576 then u64 (map_size_ f * 2) else map_size_ f in
      mret (OK, set_region f map_size 0 0 0 0 (u64 (file_offset_ f + (limit_ f - base_ f))))
  else mret (OK, f).

Definition MapNewRegion (f : PosixMmapFile) : IO (Status * PosixMmapFile) :=
  _ ← io_assert (base_ f =? 0);
  alloc_status ← (if mm_allow_fallocate f then
      alloc_status ← call (fun o => sys_fallocate o (mm_fd f) false (off_t (file_offset_ f)) (off_t (map_size_ f)));
      if negb (alloc_status =? 0)
      then call (fun o => sys_posix_fallocate o (mm_fd f) (off_t (file_offset_ f)) (off_t (map_size_ f)))
      else mret alloc_status
    else mret 0);
  if negb (alloc_status =? 0) then
    mret (IOError (str "Error allocating space to file : " ++ mm_filename f ++ str "Error : " ++ strerror alloc_status) [], f)
  else
    ptr ← call (fun o => sys_mmap o (map_size_ f) (mm_fd f) (off_t (file_offset_ f)));
    match ptr with
    | None => mret (IOError (str "MMap failed on " ++ mm_filename f) [], f)
    | Some p => mret (OK, set_region f (map_size_ f) p (p + map_size_ f) p p (file_offset_ f))
    end.

Definition Msync (f : PosixMmapFile) : IO (Status * PosixMmapFile) :=
  if dst_ f =? last_sync_ f then mret (OK, f)
  else
    p1 ← mm_TruncateToPageBoundary f (u64 (last_sync_ f - base_ f));
    p2 ← mm_TruncateToPageBoundary f (u64 (dst_ f - base_ f - 1));
    let f := set_region f (map_size_ f) (base_ f) (limit_ f) (dst_ f) (dst_ f) (file_offset_ f) in
    r ← call (fun o => sys_msync o (base_ f + p1) (u64 (p2 - p1 + page_size_ f)));
    s ← status_of (mm_filename f) r;
    mret (s, f).

(** The loop of [Append] over what is left of the data. When there is no room the turn maps
    a new region and copies nothing, because [avail] has been computed before. *)
Fixpoint Mmap_Append (fuel : nat) (f : PosixMmapFile) (src : Slice) : IO (Status * PosixMmapFile) :=
  if 0 <? zlen src then
    match fuel with
    | 0%nat => io_nofuel
    | S fuel' =>
        _ ← io_assert (base_ f <=? dst_ f);
        _ ← io_assert (dst_ f <=? limit_ f);
        let avail := limit_ f - dst_ f in
        '(s, f) ← (if avail =? 0 then
            '(s, f) ← UnmapCurrentRegion f;
            if negb (ok s) then mret (s, f) else MapNewRegion f
          else mret (OK, f));
        if negb (ok s) then mret (s, f)
        else
          let n := if zlen src <=? avail then zlen src else avail in
          _ ← call (fun o => (tt, mem_store o (dst_ f) (ztake n src)));
          Mmap_Append fuel' (set_region f (map_size_ f) (base_ f) (limit_ f) (dst_ f + n) (last_sync_ f) (file_offset_ f)) (zdrop n src)
    end
  else mret (OK, f).

Definition Mmap_Close (f : PosixMmapFile) : IO (Status * PosixMmapFile) :=
  let unused := u64 (limit_ f - dst_ f) in
  '(s, f) ← UnmapCurrentRegion f;
  s ← (if negb (ok s) then e ← get_errno; mret (IOError_of (mm_filename f) e)
       else if 0 <? unused then
         r ← call (fun o => sys_ftruncate o (mm_fd f) (off_t (file_offset_ f - unused)));
         status_of (mm_filename f) r
       else mret s);
  r ← call (fun o => sys_close o (mm_fd f));
  s ← (if r <? 0 then (if ok s then e ← get_errno; mret (IOError_of (mm_filename f) e) else mret s) else mret s);
  mret (s, set_region (mm_set_fd f (-1)) (map_size_ f) 0 0 (dst_ f) (last_sync_ f) (file_offset_ f)).

Definition Mmap_delete (f : PosixMmapFile) : IO unit :=
  if 0 <=? mm_fd f then _ ← Mmap_Close f; mret tt else mret tt.
Definition Mmap_Sync (f : PosixMmapFile) : IO (Status * PosixMmapFile) :=
  r ← call (fun o => sys_fdatasync o (mm_fd f));
  if r <? 0 then e ← get_errno; mret (IOError_of (mm_filename f) e, f) else Msync f.
Definition Mmap_Fsync (f : PosixMmapFile) : IO (Status * PosixMmapFile) :=
  r ← call (fun o => sys_fsync o (mm_fd f));
  if r <? 0 then e ← get_errno; mret (IOError_of (mm_filename f) e, f) else Msync f.
Definition Mmap_Flush : Status := OK.
Definition Mmap_InvalidateCache (f : PosixMmapFile) (offset length : Z) : IO Status :=
  posix_InvalidateCache (mm_filename f) (mm_fd f) offset length.
Definition Mmap_GetFileSize (f : PosixMmapFile) : Z := u64 (file_offset_ f + u64 (dst_ f - base_ f)).
Definition Mmap_Allocate (f : PosixMmapFile) (offset len : Z) : IO Status :=
  posix_Allocate (mm_filename f) (mm_fd f) (mm_allow_fallocate f) (mm_keep_size f) offset len.

(** ** [PosixRandomRWFile] and [PosixDirectory] *)

Record PosixRandomRWFile : Type := mkRandomRW { rw_filename : Slice; rw_fd : Z }.

(** Its [offset] is passed to [pwrite] as it is. *)
Fixpoint RandomRW_Write_loop (fuel : nat) (fd : Z) (src : Slice) (offset : Z) : IO (option Z) :=
  if negb (zlen src =? 0) then
    match fuel with
    | 0%nat => io_nofuel
    | S fuel' =>
        done ← call (fun o => sys_pwrite o fd src (off_t offset));
        if done <? 0 then
          e ← get_errno;
          if e =? EINTR then RandomRW_Write_loop fuel' fd src offset else mret (Some e)
        else if zlen src <? done then io_undef
        else RandomRW_Write_loop fuel' fd (zdrop done src) (u64 (offset + done))
    end
  else mret None.
Definition RandomRW_Write (fuel : nat) (f : PosixRandomRWFile) (offset : Z) (data : Slice) : IO Status :=
  r ← RandomRW_Write_loop fuel (rw_fd f) data offset;
  mret match r with Some e => IOError_of (rw_filename f) e | None => OK end.

(** The loop of [Read]: the error, and what has been read. *)
Fixpoint RandomRW_Read_loop (fuel : nat) (fd offset left : Z) (acc : list byte) : IO (option Z * list byte) :=
  if 0 <? left then
    match fuel with
    | 0%nat => io_nofuel
    | S fuel' =>
        '(done, bytes) ← call (fun o => sys_pread o fd left (off_t offset));
        if done <? 0 then
          e ← get_errno;
          if e =? EINTR then RandomRW_Read_loop fuel' fd offset left acc else mret (Some e, acc)
        else if done =? 0 then mret (None, acc)
        else RandomRW_Read_loop fuel' fd (u64 (offset + done)) (left - done) (acc ++ bytes)
    end
  else mret (None, acc).
(** On an error [*result] is not set. *)
Definition RandomRW_Read (fuel : nat) (f : PosixRandomRWFile) (offset n : Z) : IO (Status * option Slice) :=
  '(r, data) ← RandomRW_Read_loop fuel (rw_fd f) offset n [];
  mret match r with Some e => (IOError_of (rw_filename f) e, None) | None => (OK, Some data) end.
Definition RandomRW_Flush : Status := OK.
Definition RandomRW_Sync (f : PosixRandomRWFile) : IO Status :=
  r ← call (fun o => sys_fdatasync o (rw_fd f)); status_of (rw_filename f) r.
Definition RandomRW_Fsync (f : PosixRandomRWFile) : IO Status :=
  r ← call (fun o => sys_fsync o (rw_fd f)); status_of (rw_filename f) r.
Definition RandomRW_Close (f : PosixRandomRWFile) : IO (Status * PosixRandomRWFile) :=
  r ← call (fun o => sys_close o (rw_fd f));
  if r <? 0 then e ← get_errno; mret (IOError_of (rw_filename f) e, f)
  else mret (OK, mkRandomRW (rw_filename f) (-1)).

Definition RandomRW_delete (f : PosixRandomRWFile) : IO unit :=
  if 0 <=? rw_fd f then _ ← RandomRW_Close f; mret tt else mret tt.
Definition Directory_delete (fd : Z) : IO unit := _ ← call (fun o => sys_close o fd); mret tt.
Definition Directory_Fsync (fd : Z) : IO Status :=
  r ← call (fun o => sys_fsync o fd);
  if r =? -1 then e ← get_errno; mret (IOError_of (str "directory") e) else mret OK.

End posix.
