(* ===== verification/IoPosixTheorems.v ===== *)
(** * IoPosixTheorems: the properties of the POSIX files

    What the system calls promise, as a class of laws, the loops of the files over them, and
    [PosixWritableFile] as a file that [WritableFileWriter] can use. *)

From Stdlib Require Import Strings.Byte Strings.String.
From stdpp Require Import list.
From S2P Require Import Prelude.
From S2P Require Import Slice.
From S2P Require Import Coding.
From S2P Require Import Status.
From S2P Require Import Crc32c.
From S2P Require Import LogFormat.
From S2P Require Import LogWriter.
From S2P Require Import LogReader.
From S2P Require Import FileApi.
From S2P Require Import IoPosix.

(** ** What the system promises *)

(** How a call can end that is to transfer [n] bytes: [r] of them, interrupted, or failed.
    Signals interrupt finitely often ([patience]), and a healthy system does not fail. *)
Inductive transfer (n r : Z) (e e' : Z) (p p' : nat) (healthy : Prop) : Prop :=
| moved : 0 <= r <= n -> e' = e -> (p' <= p)%nat -> transfer n r e e' p p' healthy
| interrupted : r = -1 -> e' = EINTR -> (p' < p)%nat -> transfer n r e e' p p' healthy
| failed : r = -1 -> e' <> EINTR -> (p' <= p)%nat -> ~ healthy -> transfer n r e e' p p' healthy.

(** The calls that leave the bytes of the file alone. *)
Inductive quiet_call {O} `{Posix O} (o : O) (fd : Z) : Z * O -> Prop :=
| quiet_fsync : quiet_call o fd (sys_fsync o fd)
| quiet_fdatasync : quiet_call o fd (sys_fdatasync o fd)
| quiet_range a b : quiet_call o fd (sys_sync_file_range o fd a b).

(** [file_bytes o fd] are the bytes of the file that [fd] was opened for; [at_end] says that
    writes go to its end ([O_APPEND]), [positional] that [pwrite] writes at its offset. A read
    gives bytes from the offset, none only at the end of the file; a write takes at least one
    byte. The memory of [NewAligned] is aligned to 4096 bytes, which has to be the page size. *)
Class PosixFiles (O : Type) `{Posix O} := {
  file_bytes : O -> Z -> list byte;
  at_end : O -> Z -> Prop;
  positional : O -> Z -> Prop;
  patience : O -> nat;
  healthy : O -> Prop;
  pread_law : forall o fd n off r bytes o', 0 < n -> 0 <= off -> sys_pread o fd n off = (r, bytes, o') ->
    file_bytes o' = file_bytes o /\ (healthy o -> healthy o') /\
    transfer n r (errno o) (errno o') (patience o) (patience o') (healthy o) /\
    bytes = ztake r (zdrop off (file_bytes o fd)) /\ (0 <= r -> zlen bytes = r) /\ (r = 0 -> zlen (file_bytes o fd) <= off);
  write_law : forall o fd data r o', 0 < zlen data -> at_end o fd -> sys_write o fd data = (r, o') ->
    file_bytes o' fd = file_bytes o fd ++ ztake r data /\ at_end o' fd /\ (healthy o -> healthy o') /\
    transfer (zlen data) r (errno o) (errno o') (patience o) (patience o') (healthy o) /\ r <> 0;
  pwrite_law : forall o fd data off r o', 0 < zlen data -> positional o fd -> 0 <= off <= zlen (file_bytes o fd) ->
    sys_pwrite o fd data off = (r, o') ->
    file_bytes o' fd = overwrite (file_bytes o fd) off (ztake r data) /\ positional o' fd /\ (healthy o -> healthy o') /\
    transfer (zlen data) r (errno o) (errno o') (patience o) (patience o') (healthy o) /\ r <> 0;
  quiet_law : forall o fd r o', quiet_call o fd (r, o') ->
    file_bytes o' fd = file_bytes o fd /\ (healthy o -> healthy o' /\ r = 0) /\ (at_end o fd -> at_end o' fd);
  close_law : forall o fd r o', sys_close o fd = (r, o') -> file_bytes o' fd = file_bytes o fd /\ (healthy o -> r = 0);
  memalign_law : forall o n r o', 0 < n -> sys_memalign o n = (r, o') ->
    file_bytes o' = file_bytes o /\ errno o' = errno o /\ patience o' = patience o /\ (healthy o -> healthy o') /\
    match r with Some (p, raw) => p <> 0 /\ p mod (4 * 1024) = 0 /\ zlen raw = n | None => ~ healthy o end;
  page_law : kPageSize = 4 * 1024;
}.

Section posix.
Context `{Host} {O : Type} `{PosixFiles O}.

Lemma IO_bind_step {A B} (m : IO (O := O) A) (k : A -> IO B) a o o' : m o = Ret (a, o') -> (m ≫= k) o = k a o'.
Proof. intros E. unfold mbind, IO_bind. by rewrite E. Qed.

(** ** Writing *)

(** The loop of [Append] writes all of the data, through short writes and interruptions, or
    stops at a failure behind a part of them. *)
Lemma write_loop_spec fd fuel : forall src o, at_end o fd -> (patience o + length src < fuel)%nat ->
  exists e o' k, write_loop fuel fd src o = Ret (e, o') /\ at_end o' fd /\ (healthy o -> healthy o' /\ e = None) /\
    file_bytes o' fd = file_bytes o fd ++ ztake k src /\ 0 <= k <= zlen src /\ (e = None -> k = zlen src).
Proof.
  induction fuel as [|fuel IH]; intros src o Ha Hf; [lia|]. cbn [write_loop]. pose proof (zlen_nonneg src).
  destruct (Z.eqb_spec (zlen src) 0) as [Hz|Hz]; cbn [negb].
  { exists None, o, 0. split; [done|]. split; [done|]. split; [done|]. rewrite ztake_0, app_nil_r. split; [done|]. split; [lia|]. by intros _. }
  destruct (sys_write o fd src) as [r o1] eqn:E. destruct (write_law o fd src r o1 ltac:(lia) Ha E) as (Hb & Ha1 & Hh & Ht & Hr0).
  rewrite (IO_bind_step _ _ r o o1) by (unfold call; by rewrite E). destruct Ht as [Hr He Hp|Er He Hp|Er He Hp Hnh]; try subst r.
  - destruct (Z.ltb_spec r 0); [lia|]. destruct (Z.ltb_spec (zlen src) r); [lia|].
    assert (length (zdrop r src) = length src - Z.to_nat r)%nat as Hlen by (unfold zdrop; by rewrite length_drop).
    destruct (IH (zdrop r src) o1 Ha1) as (e & o2 & k & E2 & Ha2 & Hh2 & Hb2 & Hk & Hk2); [unfold zlen in *; lia|].
    rewrite zlen_zdrop in Hk, Hk2 by lia. exists e, o2, (r + k). split; [done|]. split; [done|]. split; [intros Hx; by apply Hh2, Hh|].
    split; [|split; [lia|intros En; specialize (Hk2 En); lia]]. rewrite Hb2, Hb, <- app_assoc. f_equal. symmetry. apply ztake_zdrop_split; lia.
  - simpl. rewrite (IO_bind_step _ _ EINTR o1 o1) by (unfold get_errno; by rewrite He). simpl.
    destruct (IH src o1 Ha1 ltac:(lia)) as (e & o2 & k & E2 & Ha2 & Hh2 & Hb2 & Hk). exists e, o2, k. split; [exact E2|]. split; [done|].
    split; [intros Hx; by apply Hh2, Hh|]. split; [|done]. rewrite Hb2, Hb. by rewrite (ztake_neg (-1)), app_nil_r by lia.
  - simpl. rewrite (IO_bind_step _ _ (errno o1) o1 o1) by done. destruct (Z.eqb_spec (errno o1) EINTR); [done|].
    exists (Some (errno o1)), o1, 0. split; [done|]. split; [done|]. split; [by intros Hx%Hnh|]. rewrite Hb, (ztake_neg (-1)) by lia.
    split; [by rewrite ztake_0|]. split; [lia|done].
Qed.

Lemma Writable_Append_run fuel f data o : at_end o (pw_fd f) -> (patience o + length data < fuel)%nat ->
  exists s f' o' k, Writable_Append fuel f data o = Ret (s, f', o') /\ at_end o' (pw_fd f) /\ (healthy o -> healthy o' /\ ok s = true) /\
    file_bytes o' (pw_fd f) = file_bytes o (pw_fd f) ++ ztake k data /\ 0 <= k <= zlen data /\
    (if ok s then k = zlen data /\ f' = set_filesize f (u64 (pw_filesize f + zlen data)) else f' = f /\ IsIOError s = true).
Proof.
  intros Ha Hf. destruct (write_loop_spec (pw_fd f) fuel data o Ha Hf) as (e & o' & k & E & Ha' & Hh & Hb & Hk & Hn).
  unfold Writable_Append. rewrite (IO_bind_step _ _ _ _ _ E). destruct e as [e|].
  - exists (IOError_of (pw_filename f) e), f, o', k. split; [done|]. split; [done|]. unfold IOError_of.
    split; [intros Hx; destruct (Hh Hx) as [_ Hx']; done|]. do 2 (split; [done|]). by destruct (e =? ENOSPC).
  - exists OK, (set_filesize f (u64 (pw_filesize f + zlen data))), o', k. split; [done|]. split; [done|].
    split; [intros Hx; by destruct (Hh Hx)|]. do 2 (split; [done|]). split; [by apply Hn|done].
Qed.

Lemma off_t_small z : 0 <= z < 2 ^ 63 -> off_t z = z.
Proof.
  intros Hz. unfold off_t, swrap. change (2 ^ (64 - 1)) with 9223372036854775808. change (2 ^ 63) with 9223372036854775808 in Hz.
  change (2 ^ 64) with 18446744073709551616. rewrite Z.mod_small; lia.
Qed.

(** The same of the loop of [PositionedAppend], which overwrites. *)
Lemma pwrite_loop_spec fd fuel : forall src off (o : O), positional o fd -> 0 <= off <= zlen (file_bytes o fd) ->
  off + zlen src < 2 ^ 63 -> (patience o + length src < fuel)%nat ->
  exists e off' o' k, pwrite_loop fuel fd src off o = Ret (e, off', o') /\ positional o' fd /\ (healthy o -> healthy o' /\ e = None) /\
    file_bytes o' fd = overwrite (file_bytes o fd) off (ztake k src) /\ 0 <= k <= zlen src /\ (e = None -> k = zlen src /\ off' = off + k).
Proof.
  induction fuel as [|fuel IH]; intros src off o Ha Ho Hb Hf; [lia|]. cbn [pwrite_loop]. pose proof (zlen_nonneg src).
  destruct (Z.eqb_spec (zlen src) 0) as [Hz|Hz]; cbn [negb].
  { exists None, off, o, 0. split; [done|]. split; [done|]. split; [done|]. rewrite ztake_0, overwrite_nil by lia. split; [done|]. split; [lia|]. intros _. lia. }
  rewrite off_t_small by lia. destruct (sys_pwrite o fd src off) as [r o1] eqn:E.
  destruct (pwrite_law o fd src off r o1 ltac:(lia) Ha Ho E) as (Hby & Ha1 & Hh & Ht & Hr0).
  assert (zlen (file_bytes o1 fd) = Z.max (zlen (file_bytes o fd)) (off + zlen (ztake r src))) as Hl1 by (rewrite Hby; by apply zlen_overwrite).
  rewrite (IO_bind_step _ _ r o o1) by (unfold call; by rewrite E). destruct Ht as [Hr He Hp|Er He Hp|Er He Hp Hnh]; try subst r.
  - destruct (Z.ltb_spec r 0); [lia|]. destruct (Z.ltb_spec (zlen src) r); [lia|]. rewrite zlen_ztake in Hl1 by lia.
    rewrite u64_small by (change (2 ^ 63) with 9223372036854775808 in Hb; lia).
    assert (length (zdrop r src) = length src - Z.to_nat r)%nat as Hlen by (unfold zdrop; by rewrite length_drop).
    destruct (IH (zdrop r src) (off + r) o1 Ha1) as (e & off' & o2 & k & E2 & Ha2 & Hh2 & Hb2 & Hk & Hk2);
      [lia|rewrite zlen_zdrop; lia|unfold zlen in *; lia|].
    rewrite zlen_zdrop in Hk, Hk2 by lia. exists e, off', o2, (r + k). split; [done|]. split; [done|].
    split; [intros Hx; by apply Hh2, Hh|]. split; [|split; [lia|intros En; destruct (Hk2 En); lia]].
    rewrite Hb2, Hby. replace (off + r) with (off + zlen (ztake r src)) by (rewrite zlen_ztake; lia).
    rewrite overwrite_app by lia. f_equal. symmetry. apply ztake_zdrop_split; lia.
  - simpl. rewrite (IO_bind_step _ _ EINTR o1 o1) by (unfold get_errno; by rewrite He). simpl.
    rewrite (ztake_neg (-1)), overwrite_nil in Hby by lia. rewrite (ztake_neg (-1)), zlen_nil in Hl1 by lia.
    destruct (IH src off o1 Ha1 ltac:(lia) Hb ltac:(lia)) as (e & off' & o2 & k & E2 & Ha2 & Hh2 & Hb2 & Hk).
    exists e, off', o2, k. split; [exact E2|]. split; [done|]. split; [intros Hx; by apply Hh2, Hh|]. split; [|done]. by rewrite Hb2, Hby.
  - simpl. rewrite (IO_bind_step _ _ (errno o1) o1 o1) by done. destruct (Z.eqb_spec (errno o1) EINTR); [done|].
    exists (Some (errno o1)), off, o1, 0. split; [done|]. split; [done|]. split; [by intros Hx%Hnh|]. rewrite Hby, (ztake_neg (-1)) by lia.
    split; [by rewrite ztake_0|]. split; [lia|done].
Qed.

(** The loop of [PosixRandomRWFile::Write] is that one without its offset. *)
Lemma RandomRW_Write_loop_pwrite fd fuel : forall src off (o : O),
  RandomRW_Write_loop fuel fd src off o = ('(e, _) ← pwrite_loop fuel fd src off; mret e) o.
Proof.
  unfold mbind, IO_bind. induction fuel as [|fuel IH]; intros src off o; cbn [RandomRW_Write_loop pwrite_loop];
    destruct (negb (zlen src =? 0)); try done.
  unfold mbind, IO_bind, call. destruct (sys_pwrite o fd src (off_t off)) as [r o1]. destruct (r <? 0); [|destruct (zlen src <? r); [done|apply IH]].
  simpl. destruct (errno o1 =? EINTR); [apply IH|done].
Qed.

(** ** Reading *)

(** The bytes that a read of [n] bytes at [off] is to give. *)
Definition range (o : O) (fd off n : Z) : list byte := ztake n (zdrop off (file_bytes o fd)).

Lemma range_split o o' fd off n r : file_bytes o' = file_bytes o -> 0 <= off -> 0 <= r <= n ->
  range o fd off n = ztake r (zdrop off (file_bytes o fd)) ++ range o' fd (off + r) (n - r).
Proof.
  intros E Ho Hr. unfold range. rewrite E. replace n with (r + (n - r)) at 1 by lia. rewrite ztake_zdrop_split by lia.
  f_equal. by rewrite zdrop_zdrop by lia.
Qed.

(** The loop of [PosixRandomRWFile::Read]. *)
Lemma RandomRW_Read_loop_spec fd fuel : forall off left acc o, 0 <= off -> 0 <= left -> off + left < 2 ^ 63 ->
  (patience o + Z.to_nat left < fuel)%nat ->
  exists e data o', RandomRW_Read_loop fuel fd off left acc o = Ret (e, data, o') /\ file_bytes o' = file_bytes o /\
    (healthy o -> healthy o' /\ e = None) /\ (e = None -> data = acc ++ range o fd off left).
Proof.
  induction fuel as [|fuel IH]; intros off left acc o Ho Hl Hb Hf; [lia|]. cbn [RandomRW_Read_loop].
  destruct (Z.ltb_spec 0 left).
  2: { exists None, acc, o. do 2 (split; [done|]). split; [done|]. intros _. unfold range. by rewrite ztake_neg, app_nil_r by lia. }
  rewrite off_t_small by lia. destruct (sys_pread o fd left off) as [[r bytes] o1] eqn:E.
  destruct (pread_law o fd left off r bytes o1 ltac:(lia) Ho E) as (Hfb & Hh & Ht & Hby & Hlen & Hz).
  rewrite (IO_bind_step _ _ (r, bytes) o o1) by (unfold call; by rewrite E). cbv beta iota.
  destruct Ht as [Hr He Hp|Er He Hp|Er He Hp Hnh]; try subst r.
  - destruct (Z.ltb_spec r 0); [lia|]. destruct (Z.eqb_spec r 0) as [->|Hr0].
    + exists None, acc, o1. split; [done|]. split; [done|]. split; [intros Hx; split; [by apply Hh|done]|]. intros _.
      unfold range. rewrite zdrop_ge by (by apply Hz). by rewrite ztake_nil, app_nil_r.
    + rewrite u64_small by (change (2 ^ 63) with 9223372036854775808 in Hb; lia).
      destruct (IH (off + r) (left - r) (acc ++ bytes) o1) as (e & data & o2 & E2 & Hb2 & Hh2 & Hd); [lia|lia|lia|lia|].
      exists e, data, o2. split; [exact E2|]. split; [congruence|]. split; [intros Hx; by apply Hh2, Hh|].
      intros En. rewrite (Hd En), <- app_assoc. f_equal. rewrite Hby. symmetry. apply range_split; [done|lia|lia].
  - simpl. rewrite (IO_bind_step _ _ EINTR o1 o1) by (unfold get_errno; by rewrite He). simpl.
    destruct (IH off left acc o1) as (e & data & o2 & E2 & Hb2 & Hh2 & Hd); [lia|lia|lia|lia|].
    exists e, data, o2. split; [exact E2|]. split; [congruence|]. split; [intros Hx; by apply Hh2, Hh|].
    intros En. rewrite (Hd En). unfold range. by rewrite Hfb.
  - simpl. rewrite (IO_bind_step _ _ (errno o1) o1 o1) by done. destruct (Z.eqb_spec (errno o1) EINTR); [done|].
    exists (Some (errno o1)), acc, o1. split; [done|]. split; [done|]. split; [by intros Hx%Hnh|done].
Qed.

(** The loop of [PosixRandomAccessFile::Read], when [errno] cannot be a stale [EINTR] at the
    end of the file: either the end is not reached, or nothing interrupts. *)
Lemma Read_loop_spec fd fuel : forall off left acc r0 o, 0 <= off -> 0 <= left -> off + left < 2 ^ 63 ->
  (patience o + Z.to_nat left < fuel)%nat -> (off + left <= zlen (file_bytes o fd) \/ patience o = 0%nat /\ errno o <> EINTR) ->
  exists data r o', Read_loop fuel fd off left acc r0 o = Ret (data, r, o') /\ file_bytes o' = file_bytes o /\
    (healthy o -> healthy o' /\ (0 < left -> 0 <= r)) /\ (0 <= r \/ left = 0 -> data = acc ++ range o fd off left) /\ (left = 0 -> r = r0).
Proof.
  induction fuel as [|fuel IH]; intros off left acc r0 o Ho Hl Hb Hf Hstale; [lia|]. cbn [Read_loop].
  destruct (Z.ltb_spec 0 left).
  2: { exists acc, r0, o. do 2 (split; [done|]). split; [split; [done|lia]|]. split; [|done]. intros _. unfold range. by rewrite ztake_neg, app_nil_r by lia. }
  rewrite off_t_small by lia. destruct (sys_pread o fd left off) as [[r bytes] o1] eqn:E.
  destruct (pread_law o fd left off r bytes o1 ltac:(lia) Ho E) as (Hfb & Hh & Ht & Hby & Hlen & Hz).
  rewrite (IO_bind_step _ _ (r, bytes) o o1) by (unfold call; by rewrite E). cbv beta iota.
  destruct Ht as [Hr He Hp|Er He Hp|Er He Hp Hnh]; try subst r.
  - destruct (Z.leb_spec r 0).
    + replace r with 0 in * by lia. specialize (Hz eq_refl). destruct Hstale as [Hs|[Hs1 Hs2]]; [lia|].
      rewrite (IO_bind_step _ _ (errno o1) o1 o1) by done. destruct (Z.eqb_spec (errno o1) EINTR); [congruence|].
      exists acc, 0, o1. split; [done|]. split; [done|]. split; [intros Hx; split; [by apply Hh|lia]|]. split; [|lia]. intros _.
      unfold range. rewrite zdrop_ge by done. by rewrite ztake_nil, app_nil_r.
    + rewrite u64_small by (change (2 ^ 63) with 9223372036854775808 in Hb; lia).
      destruct (IH (off + r) (left - r) (acc ++ bytes) r o1) as (data & r2 & o2 & E2 & Hb2 & Hh2 & Hd & Hr2); [lia|lia|lia|lia| |].
      { rewrite Hfb. destruct Hstale as [Hs|[Hs1 Hs2]]; [left; lia|right]. split; [lia|congruence]. }
      exists data, r2, o2. split; [exact E2|]. split; [congruence|]. split.
      { intros Hx. destruct (Hh2 (Hh Hx)) as [Hx1 Hx2]. split; [done|]. intros _.
        destruct (decide (left - r = 0)) as [Hz0|]; [rewrite (Hr2 Hz0); lia|apply Hx2; lia]. }
      split; [|lia]. intros Hr3. rewrite Hd by lia. rewrite <- app_assoc. f_equal. rewrite Hby. symmetry. apply range_split; [done|lia|lia].
  - simpl. rewrite (IO_bind_step _ _ EINTR o1 o1) by (unfold get_errno; by rewrite He). simpl.
    destruct (IH off left acc (-1) o1) as (data & r2 & o2 & E2 & Hb2 & Hh2 & Hd & Hr2); [lia|lia|lia|lia| |].
    { rewrite Hfb. destruct Hstale as [Hs|[Hs1 Hs2]]; [by left|lia]. }
    exists data, r2, o2. split; [exact E2|]. split; [congruence|]. split; [intros Hx; by apply Hh2, Hh|]. split; [|lia].
    intros Hr3. rewrite (Hd Hr3). unfold range. by rewrite Hfb.
  - simpl. rewrite (IO_bind_step _ _ (errno o1) o1 o1) by done. destruct (Z.eqb_spec (errno o1) EINTR); [done|].
    exists acc, (-1), o1. split; [done|]. split; [done|]. split; [by intros Hx%Hnh|]. split; [lia|lia].
Qed.

(** ** [PosixWritableFile] as a file of [WritableFileWriter] *)

(** The file with the state of the system, and the descriptor it was opened with. *)
Record PosixFile : Type := mkPosixFile { pf_file : PosixWritableFile; pf_os : O; pf_fd : Z }.

(** The result of a call that returns. *)
Definition io_result {A} (d : A) (m : IO (O := O) A) (o : O) : A * O := match m o with Ret r => r | _ => (d, o) end.
Definition with_file (f : PosixFile) (m : IO (Status * PosixWritableFile)) : Status * PosixFile :=
  let '((s, pf), o) := io_result (OK, pf_file f) m (pf_os f) in (s, mkPosixFile pf o (pf_fd f)).
Definition with_status (f : PosixFile) (m : IO Status) : Status * PosixFile :=
  with_file f (s ← m; mret (s, pf_file f)).

(** As much fuel as the loop of a write can use. *)
Definition write_fuel (f : PosixFile) (d : Slice) : nat := S (patience (pf_os f) + length d).

#[export] Instance PosixFile_ops : WritableFile PosixFile := {
  UseOSBuffer _ := default_UseOSBuffer;
  UseDirectIO _ := default_UseDirectIO;
  GetRequiredBufferAlignment _ := c_DefaultPageSize;
  IsSyncThreadSafe _ := Writable_IsSyncThreadSafe;
  file_Append f d := with_file f (Writable_Append (write_fuel f d) (pf_file f) d);
  PositionedAppend f p d i := with_file f (Writable_PositionedAppend (write_fuel f d) (pf_file f) d i);
  Truncate f n := (Writable_Truncate (pf_file f) n, f);
  file_Close f := with_file f (Writable_Close (pf_file f));
  file_Flush f := (Writable_Flush, f);
  file_Sync f := with_status f (Writable_Sync (pf_file f));
  file_Fsync f := with_status f (Writable_Fsync (pf_file f));
  file_RangeSync f a b := with_status f (Writable_RangeSync (pf_file f) a b);
  file_InvalidateCache f a b := with_status f (Writable_InvalidateCache (pf_file f) a b);
  file_PrepareWrite f a b := (with_file f (pf ← Writable_PrepareWrite (pf_file f) a b; mret (OK, pf))).2;
}.
#[export] Instance PosixFile_settings : WritableSettings PosixFile := {
  wf_SetIOPriority f pri := mkPosixFile (set_base (pf_file f) (SetIOPriority (pw_base (pf_file f)) pri)) (pf_os f) (pf_fd f);
  wf_GetIOPriority f := GetIOPriority (pw_base (pf_file f));
  wf_GetFileSize f := Writable_GetFileSize (pf_file f);
  wf_SetPreallocationBlockSize f size := mkPosixFile (set_base (pf_file f) (SetPreallocationBlockSize (pw_base (pf_file f)) size)) (pf_os f) (pf_fd f);
  wf_GetPreallocationStatus f := GetPreallocationStatus (pw_base (pf_file f));
  wf_GetUniqueId f max_size := (io_result [] (Writable_GetUniqueId (pf_file f) max_size) (pf_os f)).1;
  wf_Allocate f offset len := with_status f (Writable_Allocate (pf_file f) offset len);
}.

(** An open file without preallocation in a healthy system. *)
Record posix_works (f : PosixFile) : Prop := {
  px_fd : pw_fd (pf_file f) = pf_fd f;
  px_end : at_end (pf_os f) (pf_fd f);
  px_healthy : healthy (pf_os f);
  px_base : pw_base (pf_file f) = WritableFileBase_new;
}.
Definition posix_bytes (f : PosixFile) : list byte := file_bytes (pf_os f) (pf_fd f).

Lemma posix_Append f d : posix_works f ->
  ok (file_Append f d).1 = true /\ posix_works (file_Append f d).2 /\ posix_bytes (file_Append f d).2 = posix_bytes f ++ d.
Proof.
  intros [Hfd He Hh Hb]. pose proof He as He'. rewrite <- Hfd in He'.
  destruct (Writable_Append_run (write_fuel f d) (pf_file f) d (pf_os f) He') as (s & pf & o & k & E & Ha & Hhl & Hby & Hk & Hs); [unfold write_fuel; lia|].
  destruct (Hhl Hh) as [Hh' Es]. rewrite Es in Hs. destruct Hs as [-> ->]. cbn [file_Append PosixFile_ops]. unfold with_file, io_result. rewrite E. simpl.
  split; [done|]. unfold posix_bytes. rewrite Hfd in Ha, Hby. simpl. split; [constructor; done|]. rewrite Hby. by rewrite ztake_ge.
Qed.

Lemma posix_quiet f r o : posix_works f -> quiet_call (pf_os f) (pf_fd f) (r, o) ->
  r = 0 /\ posix_works (mkPosixFile (pf_file f) o (pf_fd f)) /\ posix_bytes (mkPosixFile (pf_file f) o (pf_fd f)) = posix_bytes f.
Proof.
  intros [Hfd He Hh Hb] Hq. destruct (quiet_law _ _ _ _ Hq) as (Hby & Hhl & Hat). destruct (Hhl Hh) as [Hh' ->].
  split; [done|]. split; [|done]. constructor; simpl; auto.
Qed.

#[export] Instance PosixFile_working : WorkingFile PosixFile.
Proof.
  refine {| bytes_of := posix_bytes; works := posix_works; same_mode := fun _ _ => True; file_fits := fun _ => True |}; try done.
  - intros f d Hf. destruct (posix_Append f d Hf) as (Hp1 & Hp2 & Hp3). done.
  - intros f n Hf Hn Hall. simpl. do 3 (split; [done|]). rewrite (Hall eq_refl). by rewrite ztake_ge.
  - intros f [Hfd He Hh Hb]. cbn [file_Close PosixFile_ops]. unfold with_file, io_result, Writable_Close, GetPreallocationStatus. rewrite Hb. simpl.
    rewrite (IO_bind_step _ _ 0 (pf_os f) (pf_os f)) by done. destruct (sys_close (pf_os f) (pw_fd (pf_file f))) as [r o] eqn:E.
    rewrite (IO_bind_step _ _ r (pf_os f) o) by (unfold call; by rewrite E). rewrite Hfd in E. destruct (close_law _ _ _ _ E) as [Hby Hr].
    rewrite (Hr Hh). simpl. done.
  - intros f r Hf [->|[->|[->|(a & b & Ha & Hb & Hab & ->)]]]; [done| | |].
    + cbn [file_Sync PosixFile_ops]. unfold with_status, with_file, io_result, Writable_Sync. rewrite (px_fd _ Hf).
      destruct (sys_fdatasync (pf_os f) (pf_fd f)) as [x o] eqn:E. destruct (posix_quiet f x o Hf) as (-> & Hw & Hby); [rewrite <- E; constructor|].
      unfold mbind, IO_bind, call. rewrite E. simpl. done.
    + cbn [file_Fsync PosixFile_ops]. unfold with_status, with_file, io_result, Writable_Fsync. rewrite (px_fd _ Hf).
      destruct (sys_fsync (pf_os f) (pf_fd f)) as [x o] eqn:E. destruct (posix_quiet f x o Hf) as (-> & Hw & Hby); [rewrite <- E; constructor|].
      unfold mbind, IO_bind, call. rewrite E. simpl. done.
    + cbn [file_RangeSync PosixFile_ops]. unfold with_status, with_file, io_result, Writable_RangeSync. rewrite (px_fd _ Hf).
      destruct (sys_sync_file_range (pf_os f) (pf_fd f) (off_t a) (off_t b)) as [x o] eqn:E.
      destruct (posix_quiet f x o Hf) as (-> & Hw & Hby); [rewrite <- E; constructor|].
      change (2 ^ 63) with (max_off_t + 1) in Hab. unfold mbind, IO_bind, io_assert, call.
      replace (a <=? max_off_t) with true by lia. replace (b <=? max_off_t) with true by lia. rewrite E. simpl. done.
  - intros f a b Hf. pose proof Hf as [Hfd He Hh Hb]. cbn [file_PrepareWrite PosixFile_ops]. unfold with_file, io_result, Writable_PrepareWrite.
    rewrite Hb. simpl. split; [|done]. constructor; simpl; done.
Defined.
End posix.
