(* ===== verification/IoPosixDirect.v ===== *)
(** * IoPosixDirect: direct reads

    [DirectIORead] and its two cases: what an aligned read gives, and that the detour over
    an aligned block gives the same for every range inside the file. *)

From Stdlib Require Import Strings.Byte Strings.String.
From stdpp Require Import list.
From S2P Require Import Prelude.
From S2P Require Import Slice.
From S2P Require Import Coding.
From S2P Require Import Status.
From S2P Require Import FileApi.
From S2P Require Import IoPosix.
From S2P Require Import IoPosixTheorems.

(** A descriptor opened with [O_DIRECT]: aligned reads give whole sectors, except at the end
    of the file. *)
Definition sector_reads {O} `{PosixFiles O} (fd : Z) : Prop := forall o n off r bytes o',
  0 < n -> n mod kSectorSize = 0 -> 0 <= off -> off mod kSectorSize = 0 -> sys_pread o fd n off = (r, bytes, o') -> 0 <= r ->
  r mod kSectorSize = 0 \/ off + r = zlen (file_bytes o fd).

Section direct.
Context `{Host} {O : Type} `{PosixFiles O} (fd : Z) (Hsec : sector_reads fd).

(** [errno] cannot be a stale [EINTR] at the end of the file: the end is not reached, or
    nothing interrupts. *)
Definition not_stale (o : O) (last : Z) : Prop := last <= zlen (file_bytes o fd) \/ patience o = 0%nat /\ errno o <> EINTR.

Lemma range_snoc (o o' : O) off data r : file_bytes o' = file_bytes o -> 0 <= off -> 0 <= r -> data = range o fd off (zlen data) ->
  data ++ ztake r (zdrop (off + zlen data) (file_bytes o fd)) = range o' fd off (zlen data + r).
Proof.
  intros E Ho Hr Hd. pose proof (zlen_nonneg data). unfold range in *. rewrite E, ztake_zdrop_split by lia.
  rewrite Hd at 1. f_equal. by rewrite zdrop_zdrop by lia.
Qed.

Lemma ReadAligned_loop_spec fuel : forall off size data st (o : O), 0 <= off -> off + size < 2 ^ 63 ->
  off mod kSectorSize = 0 -> size mod kSectorSize = 0 -> zlen data mod kSectorSize = 0 -> zlen data <= size ->
  data = range o fd off (zlen data) -> (patience o + Z.to_nat (size - zlen data) < fuel)%nat -> not_stale o (off + size) ->
  exists data' r o', ReadAligned_loop fuel fd off size data st o = Ret (data', r, o') /\ file_bytes o' = file_bytes o /\
    (healthy o -> healthy o' /\ (zlen data < size -> 0 <= r)) /\ data' = range o fd off (zlen data') /\ zlen data' <= size /\
    (0 <= r -> zlen data' = size \/ zlen (file_bytes o fd) <= off + zlen data').
Proof using All.
  induction fuel as [|fuel IH]; intros off size data st o Ho Hb Hoa Hsa Hda Hl Hd Hf Hstale; [lia|]. cbn [ReadAligned_loop].
  pose proof (zlen_nonneg data).
  destruct (Z.ltb_spec (zlen data) size).
  2: { exists data, st, o. split_and!; try done; [intros Hx; by split; [done|lia]|]. intros _. left. lia. }
  rewrite off_t_small by lia. destruct (sys_pread o fd (size - zlen data) (off + zlen data)) as [[r bytes] o1] eqn:E.
  assert ((off + zlen data) mod kSectorSize = 0) as Ha1 by (rewrite Z.add_mod, Hoa, Hda by done; done).
  assert ((size - zlen data) mod kSectorSize = 0) as Ha2 by (rewrite Zminus_mod, Hsa, Hda by done; done).
  pose proof (Hsec o (size - zlen data) (off + zlen data) r bytes o1 ltac:(lia) Ha2 ltac:(lia) Ha1 E) as Hs.
  destruct (pread_law o fd (size - zlen data) (off + zlen data) r bytes o1 ltac:(lia) ltac:(lia) E) as (Hfb & Hh & Ht & Hby & Hlen & Hz).
  rewrite (IO_bind_step _ _ (r, bytes) o o1) by (unfold call; by rewrite E). cbv beta iota.
  destruct Ht as [Hr He Hp|Er He Hp|Er He Hp Hnh]; try subst r.
  - destruct (Z.leb_spec r 0).
    + replace r with 0 in * by lia. specialize (Hz eq_refl). destruct Hstale as [?|[Hs1 Hs2]]; [lia|].
      rewrite (IO_bind_step _ _ (errno o1) o1 o1) by done. destruct (Z.eqb_spec (errno o1) EINTR); [congruence|].
      exists data, 0, o1. split_and!; try done; [intros Hx; split; [auto|lia]|auto].
    + specialize (Hlen ltac:(lia)). specialize (Hs ltac:(lia)).
      pose proof (range_snoc o o1 off data r Hfb Ho ltac:(lia) Hd) as Hd1. rewrite <- Hby in Hd1.
      assert (zlen (data ++ bytes) = zlen data + r) as Hl1 by (rewrite zlen_app; lia).
      destruct (Z.eqb_spec (r mod kSectorSize) 0) as [Hr0|Hr0]; cbn [negb].
      * destruct (IH off size (data ++ bytes) r o1) as (data' & r' & o2 & E2 & Hb2 & Hh2 & Hd2 & Hl2 & Hfin); try done.
        { by rewrite Hl1, Z.add_mod, Hda, Hr0 by done. } { lia. } { by rewrite Hl1. } { lia. }
        { unfold not_stale in *. rewrite Hfb. destruct Hstale as [?|[? ?]]; [by left|right; split; [lia|congruence]]. }
        exists data', r', o2. split; [exact E2|]. split; [congruence|]. unfold range in *. rewrite Hfb in *. split; [|done].
        intros Hx. destruct (Hh2 (Hh Hx)) as [Hx1 Hx2]. split; [done|]. intros _.
        destruct (decide (zlen (data ++ bytes) < size)) as [|Hge]; [auto|].
        destruct fuel as [|fuel']; [simpl in E2|]; cbn [ReadAligned_loop] in E2; replace (zlen (data ++ bytes) <? size) with false in E2 by lia; inversion E2; subst; lia.
      * exists (data ++ bytes), r, o1. split_and!; try done; [intros Hx; split; [auto|lia]| |lia|].
        -- rewrite Hl1. unfold range in *. rewrite <- Hfb. exact Hd1.
        -- intros _. right. lia.
  - simpl. rewrite (IO_bind_step _ _ EINTR o1 o1) by (unfold get_errno; by rewrite He). simpl.
    destruct (IH off size data (-1) o1) as (data' & r' & o2 & E2 & Hb2 & Hh2 & Hd2 & Hl2 & Hfin); try done.
    { unfold range in *. by rewrite Hfb. } { lia. }
    { unfold not_stale in *. rewrite Hfb. destruct Hstale as [?|[? ?]]; [by left|lia]. }
    exists data', r', o2. split; [exact E2|]. split; [congruence|]. unfold range in *. rewrite Hfb in *. split; [|done]. intros Hx. by apply Hh2, Hh.
  - simpl. rewrite (IO_bind_step _ _ (errno o1) o1 o1) by done. destruct (Z.eqb_spec (errno o1) EINTR); [done|].
    exists data, (-1), o1. split_and!; done.
Qed.

(** An aligned read gives the bytes of the range as far as the file goes, or an error. *)
Lemma ReadAligned_spec fuel off size p (o : O) : 0 <= off -> 0 < size -> off + size < 2 ^ 63 ->
  off mod kSectorSize = 0 -> size mod kSectorSize = 0 -> p mod kPageSize = 0 -> (patience o + Z.to_nat size < fuel)%nat -> not_stale o (off + size) ->
  exists s data o', ReadAligned fuel fd off size p o = Ret (s, data, o') /\ file_bytes o' = file_bytes o /\
    (healthy o -> ok s = true) /\ (ok s = true -> data = range o fd off size) /\ zlen data <= size.
Proof using All.
  intros Ho Hs Hb Hoa Hsa Hp Hf Hst. unfold ReadAligned, IsSectorAligned, IsPageAligned. rewrite Hoa, Hsa, Hp, !(IO_bind_step _ _ tt o o) by done.
  destruct (ReadAligned_loop_spec fuel off size [] (-1) o) as (data & r & o1 & E & Hby & Hh & Hd & Hl & Hfin);
    rewrite ?zlen_nil, ?Z.sub_0_r; try done; [lia|..].
  rewrite (IO_bind_step _ _ (data, r) o o1) by exact E. cbv beta iota. destruct (Z.ltb_spec r 0) as [Hr|Hr].
  - exists (IOError (strerror (errno o1)) []), data, o1. split; [done|]. split; [done|]. split; [|done]. intros Hx. destruct (Hh Hx) as [_ Hy].
    specialize (Hy Hs). lia.
  - exists OK, data, o1. split; [done|]. do 2 (split; [done|]). split; [|done]. intros _. transitivity (range o fd off (zlen data)); [done|].
    destruct (Hfin Hr) as [->|Hend]; [done|]. unfold range. pose proof (zlen_nonneg data). rewrite !ztake_ge; [done| |]; rewrite zlen_zdrop by done; lia.
Qed.

Lemma Upper_spec n : 0 < n < 2 ^ 63 -> n <= Upper n kSectorSize < n + kSectorSize /\ Upper n kSectorSize mod kSectorSize = 0.
Proof using.
  intros Hn. change (2 ^ 63) with 9223372036854775808 in Hn. unfold Upper, kSectorSize. pose proof (Z.mod_pos_bound n 512 ltac:(lia)). destruct (Z.eqb_spec (n mod 512) 0); [lia|].
  rewrite u64_small by lia. split; [lia|]. rewrite Z.add_comm. 
  replace (512 - n mod 512 + n) with ((n / 512 + 1) * 512) by (pose proof (Z.div_mod n 512); lia). by apply Z_mod_mult.
Qed.

Lemma Lower_spec n : 0 <= n -> Lower n kSectorSize = n - n mod kSectorSize /\ Lower n kSectorSize mod kSectorSize = 0 /\ 0 <= Lower n kSectorSize.
Proof using.
  intros Hn. assert (Lower n kSectorSize = n - n mod kSectorSize) as E by (unfold Lower; destruct (Z.eqb_spec (n mod kSectorSize) 0); lia).
  split; [done|]. rewrite E. unfold kSectorSize. pose proof (Z.mod_le n 512 ltac:(lia)). split; [|lia]. rewrite Zminus_mod, Zmod_mod, Z.sub_diag. done.
Qed.

(** The detour over an aligned block, for a range inside the file. *)
Lemma ReadUnaligned_spec fuel off n p (o : O) : 0 <= off -> 0 < n -> off + n + kSectorSize < 2 ^ 63 -> off + n <= zlen (file_bytes o fd) ->
  p <> 0 -> off mod kSectorSize <> 0 \/ n mod kSectorSize <> 0 \/ p mod kPageSize <> 0 -> (patience o + Z.to_nat (n + 2 * kSectorSize) < fuel)%nat ->
  not_stale o (Lower off kSectorSize + Upper (n + off mod kSectorSize) kSectorSize) -> healthy o ->
  exists s o', ReadUnaligned fuel fd off n p o = Ret (s, range o fd off n, o') /\ ok s = true /\ file_bytes o' = file_bytes o.
Proof using All.
  intros Ho Hn Hb Hin Hp Hmis Hf Hst Hh. destruct (Lower_spec off Ho) as (El & Hla & Hl0). set (m := off mod kSectorSize) in *.
  assert (0 <= m < 512) as Hm by (apply Z.mod_pos_bound; unfold kSectorSize; lia). change (2 ^ 63) with 9223372036854775808 in Hb. change kSectorSize with 512 in Hb, Hf.
  destruct (Upper_spec (n + m)) as [[Hu1 Hu2] Hua]; [change (2 ^ 63) with 9223372036854775808; lia|].
  unfold ReadUnaligned. rewrite (IO_bind_step _ _ tt o o) by (unfold io_assert; by replace (p =? 0) with false by lia).
  rewrite (IO_bind_step _ _ tt o o).
  2: { unfold io_assert, IsSectorAligned, IsPageAligned. fold m.
       destruct (Z.eqb_spec m 0), (Z.eqb_spec (n mod kSectorSize) 0), (Z.eqb_spec (p mod kPageSize) 0); done || lia. }
  cbv zeta. replace (off - Lower off kSectorSize) with m by lia. rewrite (u64_small (n + m)) by lia.
  set (lo := Lower off kSectorSize) in *. set (up := Upper (n + m) kSectorSize) in *. change (up < n + m + 512) in Hu2.
  destruct (sys_memalign o up) as [[[q raw]|] o1] eqn:E; destruct (memalign_law o up _ o1 ltac:(lia) E) as (Hfb & He & Hpa & Hh1 & Hr); [|done].
  destruct Hr as (Hq & Hqa & Hrl). rewrite <- page_law in Hqa. rewrite (IO_bind_step _ _ (Some (q, raw)) o o1) by (unfold call; by rewrite E).
  unfold IsSectorAligned, IsPageAligned. rewrite Hla, Hua, Hqa, (u64_small (off + n)), (u64_small (lo + up)) by lia.
  replace (off + n <=? lo + up) with true by lia. rewrite !(IO_bind_step _ _ tt o1 o1) by done.
  destruct (ReadAligned_spec fuel lo up q o1) as (s & data & o2 & E2 & Hb2 & Hok & Hd & Hdl); try done; try lia.
  { unfold not_stale in *. by rewrite Hfb, Hpa, He. }
  rewrite (IO_bind_step _ _ (s, data) o1 o2) by exact E2. cbv beta iota zeta. specialize (Hok (Hh1 Hh)). specialize (Hd Hok).
  assert (m + n <= zlen data) as Hlong.
  { rewrite Hd. unfold range. rewrite zlen_ztake, zlen_zdrop, Hfb by lia. lia. }
  replace (Z.min n (zlen data)) with n by lia. unfold copy_from. rewrite zlen_app.
  pose proof (zlen_nonneg (zdrop (zlen data) raw)). fold m. replace (m + n <=? _) with true by lia.
  exists s, o2. split; [|split; [done|congruence]]. unfold mbind, IO_bind, mret, IO_ret. do 3 f_equal.
  rewrite zdrop_app_le, ztake_app_le by (rewrite ?zlen_zdrop; lia). rewrite Hd. unfold range. rewrite Hfb.
  rewrite zdrop_ztake, ztake_ztake, zdrop_zdrop by lia. f_equal; [lia|]. f_equal. lia.
Qed.

(** [DirectIORead] of a range inside the file, whatever its alignment, gives it. *)
Lemma DirectIORead_spec fuel off n p (o : O) : 0 <= off -> 0 < n -> off + n + kSectorSize < 2 ^ 63 -> off + n <= zlen (file_bytes o fd) ->
  p <> 0 -> (patience o + Z.to_nat (n + 2 * kSectorSize) < fuel)%nat -> healthy o ->
  off + n + kSectorSize <= zlen (file_bytes o fd) \/ patience o = 0%nat /\ errno o <> EINTR ->
  exists s o', DirectIORead fuel fd off n p o = Ret (s, range o fd off n, o') /\ ok s = true /\ file_bytes o' = file_bytes o.
Proof using All.
  intros Ho Hn Hb Hin Hp Hf Hh Hst. unfold DirectIORead, IsSectorAligned, IsPageAligned. change kSectorSize with 512 in Hb, Hf, Hst.
  destruct (Z.eqb_spec (off mod kSectorSize) 0) as [Hoa|]; [destruct (Z.eqb_spec (n mod kSectorSize) 0) as [Hna|]|]; simpl.
  1: destruct (Z.eqb_spec (p mod kPageSize) 0) as [Hpa|]; simpl.
  1: destruct (ReadAligned_spec fuel off n p o) as (s & data & o' & E & Hfb & Hok & Hd & _); try done; [lia|lia|unfold not_stale; lia|];
     exists s, o'; rewrite E, Hd by auto; auto.
  all: destruct (ReadUnaligned_spec fuel off n p o) as (s & o' & E & Hok & Hfb); try done; auto; [|by exists s, o'];
     destruct (Lower_spec off Ho) as (El & _); unfold not_stale; destruct Hst as [Hst|]; [left|by right];
     pose proof (Z.mod_pos_bound off 512 ltac:(lia)); change kSectorSize with 512 in *;
     destruct (Upper_spec (n + off mod 512)) as [[_ Hu] _]; [lia|]; change kSectorSize with 512 in Hu; lia.
Qed.
End direct.
