(* ===== verification/IoPosixMmap.v ===== *)
(** * IoPosixMmap: [PosixMmapFile]

    What its system calls promise, and the file as an append-only byte string in the
    mappings: the invariant of the region, [Append], the syncs and [Close]; the file as one that works. *)

From Stdlib Require Import Strings.Byte Strings.String.
From stdpp Require Import list.
From S2P Require Import Prelude.
From S2P Require Import Slice.
From S2P Require Import Coding.
From S2P Require Import Status.
From S2P Require Import AlignedBuffer.
From S2P Require Import FileApi.
From S2P Require Import IoPosix.
From S2P Require Import IoPosixTheorems.

(** [mapped o fd p n off] says that the [n] bytes at the address [p] are those of the file
    from [off], as far as the file goes. The allocating calls extend the file with zeros, or fail
    and leave it. Mappings are made of pages: [mmap] is only sure to succeed for an offset that is
    a multiple of the page size, and then gives such an address; [munmap] and [msync] for such an
    address, [msync] inside a mapping. A store is a store to the file only where the file is: behind
    its end it raises a signal, so no law speaks of it. *)
Definition extend (l : list byte) (n : Z) : list byte := l ++ zrep (n - zlen l) x00.

Class MmapFiles (O : Type) `{PosixFiles O} := {
  mapped : O -> Z -> Z -> Z -> Z -> Prop;
  fallocate_law : forall o fd off n r o', 0 <= off -> 0 < n -> sys_fallocate o fd false off n = (r, o') ->
    file_bytes o' fd = (if r =? 0 then extend (file_bytes o fd) (off + n) else file_bytes o fd) /\ (healthy o -> healthy o');
  posix_fallocate_law : forall o fd off n r o', 0 <= off -> 0 < n -> sys_posix_fallocate o fd off n = (r, o') ->
    file_bytes o' fd = (if r =? 0 then extend (file_bytes o fd) (off + n) else file_bytes o fd) /\ (healthy o -> healthy o' /\ r = 0);
  mmap_law : forall o fd off n r o', 0 <= off -> 0 < n -> sys_mmap o n fd off = (r, o') ->
    file_bytes o' fd = file_bytes o fd /\ (healthy o -> healthy o' /\ (n <= 2 ^ 32 -> (kPageSize | off) -> r <> None)) /\
    match r with Some p => 0 < p /\ p + n < 2 ^ 64 /\ (kPageSize | p) /\ mapped o' fd p n off | None => True end;
  store_law : forall o fd p n off i d, mapped o fd p n off -> off + n <= zlen (file_bytes o fd) -> 0 <= i -> i + zlen d <= n ->
    let o' := mem_store o (p + i) d in
    file_bytes o' fd = overwrite (file_bytes o fd) (off + i) d /\ mapped o' fd p n off /\ (healthy o -> healthy o');
  munmap_law : forall o fd p n r o', sys_munmap o p n = (r, o') ->
    file_bytes o' fd = file_bytes o fd /\ (healthy o -> healthy o' /\ ((kPageSize | p) -> 0 < n -> r = 0)) /\
    (r <> 0 -> forall q m off, mapped o fd q m off -> mapped o' fd q m off);
  ftruncate_law : forall o fd n r o', 0 <= n <= zlen (file_bytes o fd) -> sys_ftruncate o fd n = (r, o') ->
    file_bytes o' fd = (if r <? 0 then file_bytes o fd else ztake n (file_bytes o fd)) /\ (healthy o -> healthy o' /\ r = 0);
  msync_law : forall o fd p n r o', sys_msync o p n = (r, o') ->
    file_bytes o' fd = file_bytes o fd /\
    (healthy o -> healthy o' /\ ((kPageSize | p) -> 0 <= n -> (exists q m off, mapped o fd q m off /\ q <= p /\ p + n <= q + m) -> r = 0)) /\
    forall q m off, mapped o fd q m off -> mapped o' fd q m off;
  quiet_mapped : forall o fd r o' q m off, quiet_call o fd (r, o') -> mapped o fd q m off -> mapped o' fd q m off;
}.

Lemma ztake_extend l n m : 0 <= m <= zlen l -> ztake m (extend l n) = ztake m l.
Proof. intros Hm. unfold extend. by rewrite ztake_app_le by lia. Qed.

Lemma zlen_extend l n : zlen (extend l n) = Z.max (zlen l) n.
Proof.
  unfold extend. rewrite zlen_app. destruct (Z.le_gt_cases 0 (n - zlen l)); [rewrite zlen_zrep; lia|].
  unfold zrep. replace (Z.to_nat (n - zlen l)) with 0%nat by lia. simpl. rewrite zlen_nil. lia.
Qed.

Lemma ztake_overwrite l i d : 0 <= i <= zlen l -> ztake (i + zlen d) (overwrite l i d) = ztake i l ++ d.
Proof.
  intros Hi. unfold overwrite. rewrite app_assoc. assert (i + zlen d = zlen (ztake i l ++ d)) as -> by (rewrite zlen_app, zlen_ztake; lia).
  apply ztake_app_zlen.
Qed.

(** [data], and zeros up to the end of the file. *)
Definition padded (bytes data : list byte) : Prop := exists n, 0 <= n /\ bytes = data ++ zrep n x00.

Lemma padded_refl l : padded l l.
Proof. exists 0. by rewrite zrep_0, app_nil_r. Qed.

Lemma padded_spec l data : padded l data -> ztake (zlen data) l = data /\ zlen data <= zlen l.
Proof.
  intros (n & Hn & ->). split; [by rewrite ztake_app_zlen|]. rewrite zlen_app. pose proof (zlen_nonneg (zrep n x00)). lia.
Qed.

Lemma padded_exact l data : padded l data -> zlen l <= zlen data -> l = data.
Proof. intros Hp Hl. destruct (padded_spec _ _ Hp) as [Ht _]. by rewrite ztake_ge in Ht by lia. Qed.

Lemma padded_extend l data n : padded l data -> padded (extend l n) data.
Proof.
  intros (m & Hm & ->). unfold extend. set (k := Z.max 0 (n - zlen (data ++ zrep m x00))). exists (m + k). split; [lia|].
  rewrite <- app_assoc, zrep_add by lia. do 2 f_equal. unfold k, zrep. f_equal. lia.
Qed.

Lemma padded_store l data d : padded l data -> zlen data + zlen d <= zlen l -> padded (overwrite l (zlen data) d) (data ++ d).
Proof.
  intros (n & Hn & ->) Hfit. rewrite zlen_app, zlen_zrep in Hfit by done. pose proof (zlen_nonneg d). exists (n - zlen d). split; [lia|].
  unfold overwrite. rewrite ztake_app_zlen, <- app_assoc. do 2 f_equal. rewrite zdrop_app_ge by lia.
  rewrite zdrop_zrep by lia. f_equal. lia.
Qed.

Section mmap.
Context `{Host} {O : Type} `{MmapFiles O}.

(** The file of [f] holds [data] up to [file_offset_] and what is in the region, and zeros
    behind them. The region is made of whole pages of [page_size_] bytes. The file was made with
    [allow_fallocate], which is the default: without it the region lies behind the end of the file
    ([MapNewRegion_unallocated]). *)
Record mmap_inv (f : PosixMmapFile) (o : O) (data : list byte) : Prop := {
  mi_size : file_offset_ f + (dst_ f - base_ f) = zlen data;
  mi_data : padded (file_bytes o (mm_fd f)) data;
  mi_max : zlen (file_bytes o (mm_fd f)) <= file_offset_ f + map_size_ f;
  mi_off : 0 <= file_offset_ f;
  mi_map : 0 < map_size_ f < 2 ^ 21;
  mi_page : exists k, 0 <= k < 32 /\ page_size_ f = 2 ^ k;
  mi_pages : (kPageSize | page_size_ f) /\ (page_size_ f | map_size_ f) /\ (page_size_ f | file_offset_ f);
  mi_alloc : mm_allow_fallocate f = true;
  mi_region : (base_ f = 0 /\ limit_ f = 0 /\ dst_ f = 0 /\ last_sync_ f = 0) \/
    (0 < base_ f /\ base_ f <= dst_ f <= limit_ f /\ limit_ f = base_ f + map_size_ f /\ limit_ f < 2 ^ 64 /\
     base_ f <= last_sync_ f <= dst_ f /\ (kPageSize | base_ f) /\
     mapped o (mm_fd f) (base_ f) (map_size_ f) (file_offset_ f) /\ file_offset_ f + map_size_ f <= zlen (file_bytes o (mm_fd f)));
}.

(** A call that succeeds in a healthy system. *)
Definition healthy_step (o o' : O) (s : Status) : Prop := healthy o -> healthy o' /\ ok s = true.

(** ** The steps *)

Lemma Unmap_spec f o data : mmap_inv f o data -> zlen data < 2 ^ 62 -> dst_ f = limit_ f ->
  exists s f' o', UnmapCurrentRegion f o = Ret (s, f', o') /\ mmap_inv f' o' data /\ mm_fd f' = mm_fd f /\ healthy_step o o' s /\
    file_bytes o' (mm_fd f) = file_bytes o (mm_fd f) /\ (if ok s then base_ f' = 0 else f' = f).
Proof.
  intros [Hs Hd Hmax Hoff Hm Hpg Hpp Hal Hr] Hb Hdl. change (2 ^ 62) with 4611686018427387904 in Hb. change (2 ^ 21) with 2097152 in Hm.
  unfold UnmapCurrentRegion. destruct Hr as [(Eb & El & Ed & Ey)|(Hb0 & Hbd & El & Hl64 & Hsy & Hpb & Hmp & Hfl)].
  - rewrite Eb. simpl. exists OK, f, o. split_and!; try done. constructor; auto.
  - destruct (Z.eqb_spec (base_ f) 0); [lia|]. cbn [negb].
    destruct (sys_munmap o (base_ f) (u64 (limit_ f - base_ f))) as [r o1] eqn:E. destruct (munmap_law _ (mm_fd f) _ _ _ _ E) as (Hby & Hhl & Hk).
    rewrite (IO_bind_step _ _ r o o1) by (unfold call; by rewrite E). destruct (Z.eqb_spec r 0) as [->|Hr0]; cbn [negb].
    + eexists _, _, o1. split; [reflexivity|]. split; [|split; [done|]; split; [intros Hx; by destruct (Hhl Hx)|done]]. rewrite (u64_small (file_offset_ f + _)) by lia.
      assert ((if map_size_ f <? 1048576 then u64 (map_size_ f * 2) else map_size_ f) =
              (if map_size_ f <? 1048576 then map_size_ f * 2 else map_size_ f)) as -> by (case_match; [apply u64_small; lia|done]).
      constructor; simpl; rewrite ?Hby; try done; [lia|case_match; lia|lia|case_match; lia| |by left].
      destruct Hpp as (? & Hpm & Hpo). split; [done|]. split; [case_match; [by apply Z.divide_mul_l|done]|].
      apply Z.divide_add_r; [done|]. by replace (limit_ f - base_ f) with (map_size_ f) by lia.
    + eexists _, f, o1. split; [reflexivity|]. split; [constructor; rewrite ?Hby; auto; right; split_and!; auto; lia|]. split; [done|].
      split; [intros Hx; destruct (Hhl Hx) as [_ Hz]; destruct Hr0; apply Hz; [done|rewrite u64_small; lia]|]. split; [done|]. unfold IOError_of. by destruct (r =? ENOSPC).
Qed.

(** The allocation, by [fallocate] or else [posix_fallocate]. *)
Lemma allocate_run fd off n o : 0 <= off -> 0 < n -> off + n < 2 ^ 63 -> exists a o1,
  (alloc_status ← call (fun o => sys_fallocate o fd false (off_t off) (off_t n));
   if negb (alloc_status =? 0) then call (fun o => sys_posix_fallocate o fd (off_t off) (off_t n)) else mret alloc_status) o = Ret (a, o1) /\
  (healthy o -> healthy o1 /\ a = 0) /\
  file_bytes o1 fd = if a =? 0 then extend (file_bytes o fd) (off + n) else file_bytes o fd.
Proof using Type*.
  intros Ho Hn Hb. rewrite !off_t_small by lia. destruct (sys_fallocate o fd false off n) as [r o1] eqn:E.
  destruct (fallocate_law _ _ _ _ _ _ Ho Hn E) as [Hb1 Hh1]. rewrite (IO_bind_step _ _ r o o1) by (unfold call; by rewrite E).
  destruct (Z.eqb_spec r 0) as [->|Hr]; cbn [negb]; [by exists 0, o1; auto|].
  unfold call. destruct (sys_posix_fallocate o1 fd off n) as [r2 o2] eqn:E2. exists r2, o2. split; [done|].
  destruct (posix_fallocate_law _ _ _ _ _ _ Ho Hn E2) as [Hb2 Hh2]. split; [auto|]. by rewrite Hb2, Hb1.
Qed.

Lemma MapNew_spec f o data : mmap_inv f o data -> zlen data < 2 ^ 62 -> base_ f = 0 ->
  exists s f' o', MapNewRegion f o = Ret (s, f', o') /\ mmap_inv f' o' data /\ mm_fd f' = mm_fd f /\ healthy_step o o' s /\
    (ok s = true -> dst_ f' < limit_ f' /\ base_ f' <> 0).
Proof.
  intros Hi Hb Hbase. pose proof Hi as [Hs Hd Hmax Hoff Hm Hpg Hpp Hal Hr]. change (2 ^ 62) with 4611686018427387904 in Hb. change (2 ^ 21) with 2097152 in Hm.
  destruct Hr as [(Eb & El & Ed & Ey)|]; [|lia]. pose proof (zlen_nonneg data).
  destruct (allocate_run (mm_fd f) (file_offset_ f) (map_size_ f) o Hoff) as (a & o1 & Ea & Hha & Hby); [lia|change (2 ^ 63) with 9223372036854775808; lia|].
  assert (mmap_inv f o1 data) as Hi1.
  { clear Ea Hha. revert Hby. destruct (a =? 0); intros Hby; constructor; rewrite ?Hby, ?zlen_extend by lia; auto; [by apply padded_extend|lia]. }
  unfold MapNewRegion. rewrite Hbase, Hal, (IO_bind_step _ _ tt o o), (IO_bind_step _ _ a o o1) by done.
  destruct (Z.eqb_spec a 0) as [->|Hna]; cbn [negb].
  2: { eexists _, f, o1. split; [reflexivity|]. split; [done|]. split; [done|]. split; [|done]. intros Hx. by destruct (Hha Hx). }
  rewrite off_t_small by (change (2 ^ 63) with 9223372036854775808; lia).
  destruct (sys_mmap o1 (map_size_ f) (mm_fd f) (file_offset_ f)) as [ptr o2] eqn:E2.
  destruct (mmap_law o1 (mm_fd f) (file_offset_ f) (map_size_ f) ptr o2 Hoff ltac:(lia) E2) as (Hby2 & Hhm & Hp).
  rewrite (IO_bind_step _ _ ptr o1 o2) by (unfold call; by rewrite E2). destruct Hi1 as [_ Hd1 Hx1 _ _ _ _ _ _].
  destruct ptr as [q|].
  2: { eexists _, f, o2. split; [reflexivity|]. split; [constructor; rewrite ?Hby2; auto|]. split; [done|]. split; [|done].
       intros Hx. destruct (Hha Hx) as [Hx1' _]. destruct (Hhm Hx1') as [_ Hsome]. destruct Hpp as (Hp1 & _ & Hp3).
       destruct (Hsome ltac:(lia)); [|done]. by apply (Z.divide_trans _ (page_size_ f)). }
  destruct Hp as (Hq & Hq64 & Hqp & Hmp). eexists OK, _, o2. split; [reflexivity|]. split; [|split; [done|]; split; [|simpl; lia]].
  - constructor; simpl; rewrite ?Hby2; auto; [lia|]. right. rewrite Hby. simpl. rewrite zlen_extend. split_and!; auto; lia.
  - intros Hx. destruct (Hha Hx) as [Hx1' _]. by destruct (Hhm Hx1').
Qed.

(** Without [allow_fallocate] nothing makes room for the region in the file: all of it lies behind
    the end, where no store is a store to the file. *)
Lemma MapNewRegion_unallocated f o data : mm_allow_fallocate f = false -> base_ f = 0 ->
  file_bytes o (mm_fd f) = data -> file_offset_ f = zlen data -> 0 < map_size_ f -> zlen data < 2 ^ 62 ->
  exists s f' o', MapNewRegion f o = Ret (s, f', o') /\ file_bytes o' (mm_fd f) = data /\
    (ok s = true -> 0 < dst_ f' < limit_ f' /\ exists p, dst_ f' = p /\ limit_ f' = p + map_size_ f /\ mapped o' (mm_fd f) p (map_size_ f) (zlen data)).
Proof.
  intros Hal Hbase Hby Hoff Hm Hb. change (2 ^ 62) with 4611686018427387904 in Hb. pose proof (zlen_nonneg data).
  unfold MapNewRegion. rewrite Hbase, Hal, (IO_bind_step _ _ tt o o), (IO_bind_step _ _ 0 o o) by done. cbn [negb Z.eqb].
  rewrite Hoff, off_t_small by (change (2 ^ 63) with 9223372036854775808; lia).
  destruct (sys_mmap o (map_size_ f) (mm_fd f) (zlen data)) as [ptr o2] eqn:E2.
  destruct (mmap_law _ _ _ _ _ _ (zlen_nonneg data) Hm E2) as (Hby2 & _ & Hp). rewrite (IO_bind_step _ _ ptr o o2) by (unfold call; by rewrite E2).
  destruct ptr as [p|]; eexists _, _, o2; (split; [reflexivity|]); (split; [by rewrite Hby2|]); [|done].
  intros _. destruct Hp as (Hq & Hq64 & _ & Hmp). simpl. split; [lia|]. by exists p.
Qed.

Lemma store_spec f o data d : mmap_inv f o data -> base_ f <> 0 -> dst_ f + zlen d <= limit_ f ->
  mmap_inv (set_region f (map_size_ f) (base_ f) (limit_ f) (dst_ f + zlen d) (last_sync_ f) (file_offset_ f))
    (mem_store o (dst_ f) d) (data ++ d) /\ (healthy o -> healthy (mem_store o (dst_ f) d)).
Proof.
  intros [Hs Hd Hmax Hoff Hm Hpg Hpp Hal Hr] Hb Hdl. destruct Hr as [(Eb & _)|(Hb0 & Hbd & El & Hl64 & Hsy & Hpb & Hmp & Hfl)]; [lia|].
  pose proof (zlen_nonneg d). pose proof (zlen_nonneg data). destruct (padded_spec _ _ Hd) as [_ Hl].
  destruct (store_law o (mm_fd f) (base_ f) (map_size_ f) (file_offset_ f) (dst_ f - base_ f) d Hmp Hfl) as (Hby & Hmp' & Hhl); [lia|lia|].
  replace (base_ f + (dst_ f - base_ f)) with (dst_ f) in * by lia. rewrite Hs in Hby. split; [|done].
  assert (zlen (file_bytes (mem_store o (dst_ f) d) (mm_fd f)) = Z.max (zlen (file_bytes o (mm_fd f))) (zlen data + zlen d)) as Hlen.
  { rewrite Hby. apply zlen_overwrite. lia. }
  constructor; simpl; rewrite ?zlen_app, ?Hlen; auto; try lia.
  - rewrite Hby. apply padded_store; [done|lia].
  - right. split_and!; auto; lia.
Qed.

(** ** The operations *)

(** Nothing is in the file behind the data once the region is gone. *)
Definition mmap_clean (f : PosixMmapFile) (o : O) (data : list byte) : Prop :=
  mmap_inv f o data /\ (base_ f = 0 -> file_bytes o (mm_fd f) = data).

(** A turn of the loop that has to map a region. *)
Lemma remap_spec f o data : mmap_inv f o data -> zlen data < 2 ^ 62 -> dst_ f = limit_ f -> exists s f' o',
  ('(s, f) ← UnmapCurrentRegion f; if negb (ok s) then mret (s, f) else MapNewRegion f) o = Ret (s, f', o') /\
  mmap_inv f' o' data /\ mm_fd f' = mm_fd f /\ healthy_step o o' s /\ (ok s = true -> dst_ f' < limit_ f' /\ base_ f' <> 0).
Proof.
  intros Hi Hb Hdl. destruct (Unmap_spec f o data Hi Hb Hdl) as (s & f1 & o1 & E & Hi1 & Hfd & Hh & _ & Hs).
  rewrite (IO_bind_step _ _ _ _ _ E). destruct (ok s) eqn:Es; cbn [negb].
  - destruct (MapNew_spec f1 o1 data Hi1 Hb Hs) as (s2 & f2 & o2 & E2 & Hi2 & Hfd2 & Hh2 & Hok). exists s2, f2, o2. rewrite <- Hfd.
    split_and!; auto. intros Hx. by apply Hh2, Hh.
  - exists s, f1, o1. split_and!; auto. by rewrite Es.
Qed.

Lemma Mmap_Append_run fuel : forall src f o data, mmap_inv f o data -> zlen data + zlen src < 2 ^ 62 ->
  (2 * length src + (if (dst_ f =? limit_ f)%Z then 1 else 0) < fuel)%nat ->
  exists s f' o' k, Mmap_Append fuel f src o = Ret (s, f', o') /\ mmap_inv f' o' (data ++ ztake k src) /\ mm_fd f' = mm_fd f /\
    healthy_step o o' s /\
    0 <= k <= zlen src /\ (ok s = true -> k = zlen src /\ (src = [] -> f' = f /\ o' = o) /\ (src <> [] -> base_ f' <> 0)).
Proof.
  induction fuel as [|fuel IH]; intros src f o data Hi Hb Hf; [lia|]. cbn [Mmap_Append].
  destruct (Z.ltb_spec 0 (zlen src)) as [Hpos|Hnil].
  2: { assert (src = []) as -> by (apply zlen_zero; pose proof (zlen_nonneg src); lia). exists OK, f, o, 0. rewrite ztake_0, app_nil_r. split_and!; done. }
  assert (base_ f <= dst_ f <= limit_ f) as Hbd by (destruct Hi as [_ _ _ _ _ _ _ _ []]; lia).
  replace (base_ f <=? dst_ f) with true by lia. replace (dst_ f <=? limit_ f) with true by lia.
  rewrite !(IO_bind_step _ _ tt o o) by done.
  destruct (Z.eqb_spec (dst_ f) (limit_ f)) as [Hfull|Hroom].
  - replace (limit_ f - dst_ f =? 0) with true by lia.
    destruct (remap_spec f o data Hi ltac:(lia) Hfull) as (s & f1 & o1 & E & Hi1 & Hfd & Hh & Hok).
    rewrite (IO_bind_step _ _ _ _ _ E). destruct (ok s) eqn:Es; cbn [negb].
    2: { exists s, f1, o1, 0. rewrite ztake_0, app_nil_r. split_and!; auto; [lia|lia|by rewrite Es]. }
    destruct (Hok eq_refl) as [Hlt Hb1]. replace (zlen src <=? limit_ f - dst_ f) with false by lia.
    replace (limit_ f - dst_ f) with 0 by lia. rewrite ztake_0, zdrop_0.
    rewrite (IO_bind_step _ _ tt o1 (mem_store o1 (dst_ f1) [])) by done.
    pose proof (store_spec f1 o1 data [] Hi1 Hb1) as Hi2. rewrite zlen_nil, app_nil_r in Hi2. destruct (Hi2 ltac:(lia)) as [Hi2' Hh2].
    destruct (IH src _ _ data Hi2' Hb) as (s2 & f2 & o2 & k & E2 & Hi3 & Hfd2 & Hh3 & Hk & Hok2).
    { simpl. replace (dst_ f1 + 0 =? limit_ f1) with false by lia. lia. }
    exists s2, f2, o2, k. split; [exact E2|]. split; [done|]. split; [by rewrite Hfd2|]. split; [intros Hx; by apply Hh3, Hh2, Hh|]. split; [done|].
    intros Hs. destruct (Hok2 Hs) as (Hk2 & _ & Hne). split; [done|]. split; [by intros ->|done].
  - replace (limit_ f - dst_ f =? 0) with false by lia. rewrite (IO_bind_step _ _ (OK, f) o o) by done. cbn [ok negb].
    set (n := if zlen src <=? limit_ f - dst_ f then zlen src else limit_ f - dst_ f). assert (0 < n <= zlen src) as Hn by (unfold n; case_match; lia).
    assert (zlen (ztake n src) = n) as Hzn by (rewrite zlen_ztake; lia). change (negb (ok OK)) with false. cbv iota.
    rewrite (IO_bind_step _ _ tt o (mem_store o (dst_ f) (ztake n src))) by done.
    assert (base_ f <> 0) as Hb1 by (destruct Hi as [_ _ _ _ _ _ _ _ []]; lia).
    destruct (store_spec f o data (ztake n src) Hi Hb1) as [Hi2 Hh2]; [unfold n in *; case_match; lia|]. rewrite Hzn in Hi2.
    destruct (IH (zdrop n src) _ _ _ Hi2) as (s2 & f2 & o2 & k & E2 & Hi3 & Hfd2 & Hh3 & Hk & Hok2).
    { rewrite zlen_app, Hzn, zlen_zdrop; lia. }
    { assert (length (zdrop n src) = length src - Z.to_nat n)%nat as -> by (unfold zdrop; by rewrite length_drop).
      unfold zlen in Hn. case_match; lia. }
    rewrite zlen_zdrop in Hk, Hok2 by lia. exists s2, f2, o2, (n + k). split; [exact E2|].
    rewrite <- app_assoc, <- ztake_zdrop_split in Hi3 by lia. split; [done|]. split; [by rewrite Hfd2|]. split; [intros Hx; by apply Hh3, Hh2|]. split; [lia|].
    intros Hs. destruct (Hok2 Hs) as (Hk2 & Hnil & Hne). split; [lia|]. split; [by intros ->|]. intros _.
    destruct (decide (zdrop n src = [])) as [Hz|Hz]; [|by apply Hne]. destruct (Hnil Hz) as [-> _]. done.
Qed.

(** What is in the file stays clean. *)
Lemma Mmap_Append_clean fuel src f o data : mmap_clean f o data -> zlen data + zlen src < 2 ^ 62 -> (2 * length src + 1 < fuel)%nat ->
  exists s f' o' k, Mmap_Append fuel f src o = Ret (s, f', o') /\ mmap_inv f' o' (data ++ ztake k src) /\ mm_fd f' = mm_fd f /\
    healthy_step o o' s /\ (ok s = true -> mmap_clean f' o' (data ++ src)).
Proof.
  intros [Hi Hc] Hb Hf. destruct (Mmap_Append_run fuel src f o data Hi Hb) as (s & f' & o' & k & E & Hi' & Hfd & Hh & Hk & Hok); [case_match; lia|].
  exists s, f', o', k. do 4 (split; [done|]). intros Hs. destruct (Hok Hs) as (-> & Hnil & Hne). rewrite ztake_ge in Hi' by lia. split; [done|].
  intros Hb0. destruct (decide (src = [])) as [->|Hn]; [|by destruct (Hne Hn)]. destruct (Hnil eq_refl) as [-> ->]. rewrite app_nil_r. auto.
Qed.

Lemma Mmap_GetFileSize_run f o data : mmap_inv f o data -> zlen data < 2 ^ 62 -> Mmap_GetFileSize f = zlen data.
Proof.
  intros [Hs _ _ Hoff Hm _ _ _ Hr] Hb. change (2 ^ 62) with 4611686018427387904 in Hb. pose proof (zlen_nonneg data). unfold Mmap_GetFileSize.
  assert (base_ f <= dst_ f) by (destruct Hr; lia). rewrite (u64_small (dst_ f - base_ f)), u64_small by lia. done.
Qed.

Lemma PosixMmapFile_new_run fname fd page allow keep o : 0 < page <= 2 ^ 20 -> Z.land page (page - 1) = 0 -> (kPageSize | page) -> allow = true ->
  file_bytes o fd = [] -> exists f, PosixMmapFile_new fname fd page true allow keep o = Ret (f, o) /\ mmap_clean f o [] /\ mm_fd f = fd.
Proof.
  intros Hp Hl Hk4 -> Hby. change (2 ^ 20) with 1048576 in Hp. destruct (power_of_two_spec page) as (k & Hk & Ek); [unfold power_of_two; lia|].
  assert (k < 32) as Hk2 by (destruct (Z.lt_ge_cases k 32); [done|]; pose proof (Z.pow_le_mono_r 2 32 k); lia).
  unfold PosixMmapFile_new. rewrite Hl, !(IO_bind_step _ _ tt o o) by done.
  eexists. split; [reflexivity|]. split; [|done]. split; [|done]. unfold mm_Roundup.
  rewrite (u64_small (65536 + page)), (u64_small (_ - 1)) by lia. pose proof (Z.div_mod (65536 + page - 1) page ltac:(lia)).
  pose proof (Z.mod_pos_bound (65536 + page - 1) page ltac:(lia)). change (2 ^ 21) with 2097152.
  rewrite u64_small by lia.
  constructor; simpl; rewrite ?Hby; try done; [apply padded_refl| | |by exists k| |by left].
  3: { split; [done|]. split; [by apply Z.divide_mul_r|apply Z.divide_0_r]. }
  all: change (2 ^ 21) with 2097152; rewrite ?zlen_nil; lia.
Qed.

(** ** Syncing *)

Lemma page_run f s (o : O) : (exists k, 0 <= k < 32 /\ page_size_ f = 2 ^ k) -> exists p, mm_TruncateToPageBoundary f s o = Ret (p, o) /\
  (page_size_ f | p) /\ (0 <= s < 2 ^ 64 -> p = s - s mod page_size_ f).
Proof.
  intros (k & Hk & E). unfold mm_TruncateToPageBoundary. rewrite E, land_low by lia.
  pose proof (Z.pow_pos_nonneg 2 k ltac:(lia) ltac:(lia)) as Hpos.
  assert (u64 (s - s mod 2 ^ k) mod 2 ^ k = 0) as Hz.
  { rewrite u64_mod_pow2 by lia. rewrite Zminus_mod_idemp_r. by rewrite Z.sub_diag. }
  rewrite Hz, (IO_bind_step _ _ tt o o) by done. eexists. split; [reflexivity|]. split; [apply Z.mod_divide; [lia|done]|].
  intros Hs. apply u64_small. pose proof (Z.mod_pos_bound s (2 ^ k) Hpos). pose proof (Z.mod_le s (2 ^ k) ltac:(lia) Hpos). lia.
Qed.

(** Calls that keep the file and its mappings keep the invariant; it does not depend on
    [last_sync_]. *)
Definition synced (f : PosixMmapFile) (sync : Z) : PosixMmapFile :=
  set_region f (map_size_ f) (base_ f) (limit_ f) (dst_ f) sync (file_offset_ f).
Lemma synced_same f : synced f (last_sync_ f) = f.
Proof. by destruct f. Qed.

Lemma mmap_inv_same f o o' data sync : mmap_inv f o data -> sync = last_sync_ f \/ sync = dst_ f -> file_bytes o' (mm_fd f) = file_bytes o (mm_fd f) ->
  (forall q m off, mapped o (mm_fd f) q m off -> mapped o' (mm_fd f) q m off) -> mmap_inv (synced f sync) o' data.
Proof.
  intros [Hs Hd Hmax Hoff Hm Hpg Hpp Hal Hr] Hsync Hb Hk. constructor; simpl; rewrite ?Hb; auto. destruct Hr as [(? & ? & ? & ?)|(? & ? & ? & ? & ? & ? & ? & ?)]; [left; split_and!; auto; lia|right].
  split_and!; auto; lia.
Qed.

(** What [Msync] hands to the system: whole pages inside the region. *)
Lemma Msync_range f o data p1 p2 : mmap_inv f o data -> dst_ f <> last_sync_ f ->
  (page_size_ f | p1) -> (0 <= u64 (last_sync_ f - base_ f) < 2 ^ 64 -> p1 = u64 (last_sync_ f - base_ f) - u64 (last_sync_ f - base_ f) mod page_size_ f) ->
  (page_size_ f | p2) -> (0 <= u64 (dst_ f - base_ f - 1) < 2 ^ 64 -> p2 = u64 (dst_ f - base_ f - 1) - u64 (dst_ f - base_ f - 1) mod page_size_ f) ->
  (kPageSize | base_ f + p1) /\ 0 <= u64 (p2 - p1 + page_size_ f) /\
  exists q m off, mapped o (mm_fd f) q m off /\ q <= base_ f + p1 /\ base_ f + p1 + u64 (p2 - p1 + page_size_ f) <= q + m.
Proof.
  intros [Hs Hd Hmax Hoff Hm (k & Hk & Ek) (Hk4 & Hpm & Hpo) Hal Hr] He Hp1 Hv1 Hp2 Hv2. change (2 ^ 21) with 2097152 in Hm.
  destruct Hr as [(Eb & El & Ed & Ey)|(Hb0 & Hbd & El & Hl64 & Hsy & Hpb & Hmp & Hfl)]; [lia|].
  assert (0 < page_size_ f) as Hpos by (rewrite Ek; apply Z.pow_pos_nonneg; lia).
  rewrite (u64_small (last_sync_ f - base_ f)) in Hv1 by lia. rewrite (u64_small (dst_ f - base_ f - 1)) in Hv2 by lia.
  specialize (Hv1 ltac:(lia)). specialize (Hv2 ltac:(lia)). split; [apply Z.divide_add_r; [done|by apply (Z.divide_trans _ (page_size_ f))]|].
  pose proof (Z.mod_pos_bound (last_sync_ f - base_ f) (page_size_ f) Hpos). pose proof (Z.mod_pos_bound (dst_ f - base_ f - 1) (page_size_ f) Hpos).
  pose proof (Z.mod_le (last_sync_ f - base_ f) (page_size_ f) ltac:(lia) Hpos). pose proof (Z.mod_le (dst_ f - base_ f - 1) (page_size_ f) ltac:(lia) Hpos).
  destruct Hp1 as [a Ha], Hp2 as [b Hb], Hpm as [m Hmm].
  assert (b < m) by (apply (Z.mul_lt_mono_pos_r (page_size_ f)); lia).
  assert (p2 + page_size_ f <= map_size_ f) as Hend by (rewrite Hb, Hmm; nia).
  assert (a < b + 1) by (apply (Z.mul_lt_mono_pos_r (page_size_ f)); lia).
  assert (p1 <= p2) as H12 by (rewrite Ha, Hb; nia).
  rewrite u64_small by lia. split; [lia|]. exists (base_ f), (map_size_ f), (file_offset_ f). split; [done|]. lia.
Qed.

Lemma Msync_run f o data : mmap_inv f o data -> exists s sync o', Msync f o = Ret (s, synced f sync, o') /\
  mmap_inv (synced f sync) o' data /\ healthy_step o o' s /\ file_bytes o' (mm_fd f) = file_bytes o (mm_fd f).
Proof.
  intros Hi. unfold Msync. destruct (Z.eqb_spec (dst_ f) (last_sync_ f)) as [He|He].
  { exists OK, (last_sync_ f), o. split; [by rewrite synced_same|]. split; [by apply (mmap_inv_same f o); auto|]. done. }
  destruct (page_run f (u64 (last_sync_ f - base_ f)) o (mi_page _ _ _ Hi)) as (p1 & E1 & Hp1 & Hv1). rewrite (IO_bind_step _ _ _ _ _ E1).
  destruct (page_run f (u64 (dst_ f - base_ f - 1)) o (mi_page _ _ _ Hi)) as (p2 & E2 & Hp2 & Hv2). rewrite (IO_bind_step _ _ _ _ _ E2).
  cbv beta zeta. change (mm_filename (set_region f _ _ _ _ _ _)) with (mm_filename f).
  destruct (sys_msync o (base_ f + p1) (u64 (p2 - p1 + page_size_ f))) as [r o1] eqn:E.
  destruct (msync_law _ (mm_fd f) _ _ _ _ E) as (Hb & Hh & Hk). rewrite (IO_bind_step _ _ r o o1) by (unfold call; simpl; by rewrite E).
  assert (exists s, status_of (mm_filename f) r o1 = Ret (s, o1) /\ (r = 0 -> ok s = true)) as (s & Es & Hs).
  { unfold status_of. destruct (Z.ltb_spec r 0); eexists; (split; [reflexivity|]); [lia|done]. }
  rewrite (IO_bind_step _ _ _ _ _ Es). exists s, (dst_ f), o1. split; [done|]. split; [by apply (mmap_inv_same f o); auto|]. split; [|done].
  intros Hx. destruct (Hh Hx) as [Hx1 Hz]. split; [done|]. apply Hs. destruct (Msync_range f o data p1 p2 Hi He) as (Ha & Hn & Hin); auto.
Qed.

(** [Sync] and [Fsync]: the call on the descriptor, and then [Msync]. *)
Lemma Sync_run f o data (sync : O -> Z -> Z * O) : (forall o fd, quiet_call o fd (sync o fd)) -> mmap_inv f o data ->
  exists s last o', (r ← call (fun o => sync o (mm_fd f));
     if r <? 0 then e ← get_errno; mret (IOError_of (mm_filename f) e, f) else Msync f) o = Ret (s, synced f last, o') /\
  mmap_inv (synced f last) o' data /\ healthy_step o o' s /\ file_bytes o' (mm_fd f) = file_bytes o (mm_fd f).
Proof.
  intros Hq Hi. specialize (Hq o (mm_fd f)). destruct (sync o (mm_fd f)) as [r o1] eqn:E.
  destruct (quiet_law _ _ _ _ Hq) as (Hb & Hh & _). pose proof (fun q m off => quiet_mapped o (mm_fd f) r o1 q m off Hq) as Hk.
  rewrite (IO_bind_step _ _ r o o1) by (unfold call; by rewrite E).
  assert (mmap_inv f o1 data) as Hi1 by (rewrite <- (synced_same f); by apply (mmap_inv_same f o); auto).
  destruct (Z.ltb_spec r 0) as [Hr|Hr].
  - rewrite (IO_bind_step _ _ (errno o1) o1 o1) by done. eexists _, (last_sync_ f), o1. split; [by rewrite synced_same|].
    split; [by apply (mmap_inv_same f o1); auto|]. split; [|done]. intros Hx. destruct (Hh Hx). lia.
  - destruct (Msync_run f o1 data Hi1) as (s & last & o2 & E2 & Hi2 & Hh2 & Hb2). exists s, last, o2. split; [done|]. split; [done|].
    split; [|by rewrite Hb2]. intros Hx. by apply Hh2, Hh.
Qed.

Lemma Mmap_Sync_clean f o data sync : sync = Mmap_Sync \/ sync = Mmap_Fsync -> mmap_clean f o data ->
  exists s f' o', sync f o = Ret (s, f', o') /\ mmap_clean f' o' data /\ mm_fd f' = mm_fd f /\ healthy_step o o' s.
Proof.
  intros Hsync [Hi Hc].
  assert (forall call, (forall o fd, quiet_call o fd (call o fd)) -> sync = (fun f => r ← IoPosix.call (fun o => call o (mm_fd f));
     if r <? 0 then e ← get_errno; mret (IOError_of (mm_filename f) e, f) else Msync f) ->
    exists s f' o', sync f o = Ret (s, f', o') /\ mmap_clean f' o' data /\ mm_fd f' = mm_fd f /\ healthy_step o o' s) as Hrun.
  { intros sys Hq ->. destruct (Sync_run f o data sys Hq Hi) as (s & last & o' & E & Hi' & Hh & Hb).
    exists s, (synced f last), o'. split; [exact E|]. split; [split; [exact Hi'|]|done]. intros Hb0. simpl. rewrite Hb. by apply Hc. }
  destruct Hsync as [->| ->]; [apply (Hrun sys_fdatasync)|apply (Hrun sys_fsync)]; done || constructor.
Qed.

(** Unmapping for good. *)
Lemma Unmap_last f o data : mmap_inv f o data -> zlen data < 2 ^ 62 -> exists s f' o',
  UnmapCurrentRegion f o = Ret (s, f', o') /\ mm_fd f' = mm_fd f /\ mm_filename f' = mm_filename f /\ healthy_step o o' s /\
  file_bytes o' (mm_fd f) = file_bytes o (mm_fd f) /\ (ok s = true -> file_offset_ f' = file_offset_ f + (limit_ f - base_ f)).
Proof.
  intros [Hs Hd Hmax Hoff Hm Hpg Hpp Hal Hr] Hb. change (2 ^ 62) with 4611686018427387904 in Hb. change (2 ^ 21) with 2097152 in Hm.
  unfold UnmapCurrentRegion. destruct (Z.eqb_spec (base_ f) 0) as [Eb|Hb0]; cbn [negb].
  { exists OK, f, o. split_and!; try done. lia. }
  destruct (sys_munmap o (base_ f) (u64 (limit_ f - base_ f))) as [r o1] eqn:E. destruct (munmap_law _ (mm_fd f) _ _ _ _ E) as (Hby & Hh & _).
  rewrite (IO_bind_step _ _ r o o1) by (unfold call; by rewrite E). destruct (Z.eqb_spec r 0) as [->|Hr0]; cbn [negb].
  - eexists OK, _, o1. split; [reflexivity|]. split_and!; try done; [intros Hx; destruct (Hh Hx); done|]. intros _. simpl. apply u64_small. lia.
  - eexists _, f, o1. split; [reflexivity|]. split_and!; try done; [intros Hx; destruct (Hh Hx) as [_ Hz]|].
    { destruct Hr as [(Eb & _)|(_ & ? & ? & ? & ? & ? & _)]; [done|]. destruct Hr0. apply Hz; [done|rewrite u64_small; lia]. }
    unfold IOError_of. by destruct (r =? ENOSPC).
Qed.

(** The rest of the last region is cut off. *)
Lemma trim_run name fd size unused o data : padded (file_bytes o fd) data -> zlen data < 2 ^ 62 -> size - unused = zlen data ->
  (unused <= 0 -> file_bytes o fd = data) -> exists s o',
  (if 0 <? unused then r ← call (fun o => sys_ftruncate o fd (off_t (size - unused))); status_of name r else mret OK) o = Ret (s, o') /\
  healthy_step o o' s /\ padded (file_bytes o' fd) data /\ (ok s = true -> file_bytes o' fd = data).
Proof using Type*.
  intros Hd Hb Hs Hc. change (2 ^ 62) with 4611686018427387904 in Hb.
  pose proof (zlen_nonneg data). destruct (padded_spec _ _ Hd) as [Htk Hlen]. rewrite Hs.
  rewrite off_t_small by (change (2 ^ 63) with 9223372036854775808; lia). destruct (Z.ltb_spec 0 unused).
  2: { exists OK, o. split_and!; try done. intros _. apply Hc. lia. }
  destruct (sys_ftruncate o fd (zlen data)) as [r o2] eqn:E2. destruct (ftruncate_law _ _ _ _ _ ltac:(split; [done|exact Hlen]) E2) as [Hb2 Hh].
  rewrite (IO_bind_step _ _ r o o2) by (unfold call; by rewrite E2). unfold status_of. rewrite Htk in Hb2.
  destruct (Z.ltb_spec r 0).
  - eexists _, o2. split; [reflexivity|]. split; [intros Hx; destruct (Hh Hx); lia|]. rewrite Hb2. split; [done|]. unfold IOError_of; by case_match.
  - eexists _, o2. split; [reflexivity|]. split; [intros Hx; by destruct (Hh Hx)|]. rewrite Hb2. split; [apply padded_refl|done].
Qed.

(** The descriptor is closed, and an error of it is returned when there was none before. *)
Lemma close_run {A} name fd s (k : Status -> IO (O := O) A) o : exists s' o',
  (r ← call (fun o => sys_close o fd);
   s ← (if r <? 0 then (if ok s then e ← get_errno; mret (IOError_of name e) else mret s) else mret s); k s) o = k s' o' /\
  (healthy o -> ok s = true -> ok s' = true) /\ (ok s' = true -> ok s = true) /\ file_bytes o' fd = file_bytes o fd.
Proof using Type*.
  destruct (sys_close o fd) as [r o3] eqn:E3. rewrite (IO_bind_step _ _ r o o3) by (unfold call; by rewrite E3). destruct (close_law _ _ _ _ E3) as [Hby Hh].
  destruct (Z.ltb_spec r 0); [|by exists s, o3]. destruct (ok s) eqn:Es.
  - eexists _, o3. split; [reflexivity|]. split; [|done]. intros Hx. specialize (Hh Hx). lia.
  - exists s, o3. by rewrite Es.
Qed.

Lemma Mmap_Close_run f o data : mmap_clean f o data -> zlen data < 2 ^ 62 -> exists s f' o',
  Mmap_Close f o = Ret (s, f', o') /\ mm_fd f' = -1 /\ (healthy o -> ok s = true) /\ padded (file_bytes o' (mm_fd f)) data /\
  (ok s = true -> file_bytes o' (mm_fd f) = data).
Proof.
  intros [Hi Hc] Hb. destruct (Unmap_last f o data Hi Hb) as (s & f1 & o1 & E & Hfd & _ & Hh & Hby & Hs).
  unfold Mmap_Close. rewrite (IO_bind_step _ _ _ _ _ E), Hfd. pose proof (mi_data _ _ _ Hi) as Hd. rewrite <- Hby in Hd.
  assert (u64 (limit_ f - dst_ f) = limit_ f - dst_ f /\ file_offset_ f + (limit_ f - base_ f) - (limit_ f - dst_ f) = zlen data /\
    (limit_ f - dst_ f <= 0 -> file_bytes o1 (mm_fd f) = data)) as (-> & Hsz & Hall).
  { rewrite Hby in Hd |- *. destruct Hi as [Hs0 _ Hmax _ Hm _ _ _ Hr]. change (2 ^ 21) with 2097152 in Hm. split; [apply u64_small; lia|]. split; [lia|].
    intros Hle. destruct (Z.eqb_spec (base_ f) 0) as [Eb|Hb0]; [auto|]. apply padded_exact; [done|lia]. }
  assert (exists s' o2, (if negb (ok s) then e ← get_errno; mret (IOError_of (mm_filename f1) e)
       else if 0 <? limit_ f - dst_ f then
         r ← call (fun o => sys_ftruncate o (mm_fd f) (off_t (file_offset_ f1 - (limit_ f - dst_ f)))); status_of (mm_filename f1) r
       else mret s) o1 = Ret (s', o2) /\ healthy_step o o2 s' /\ padded (file_bytes o2 (mm_fd f)) data /\
         (ok s' = true -> file_bytes o2 (mm_fd f) = data)) as (s' & o2 & E2 & Hh2 & Hp & Hs').
  { clear E. destruct (ok s) eqn:Es; cbn [negb].
    2: { eexists _, o1. split; [reflexivity|]. split; [intros Hx; destruct (Hh Hx); congruence|]. split; [done|]. unfold IOError_of; by case_match. }
    rewrite (Hs eq_refl). destruct (trim_run (mm_filename f1) (mm_fd f) _ _ o1 data Hd Hb Hsz Hall) as (s' & o2 & E2 & Hh2 & Hp & Hs').
    destruct (0 <? limit_ f - dst_ f).
    - exists s', o2. split; [exact E2|]. split; [intros Hx; by apply Hh2, Hh|done].
    - injection E2 as <- <-. exists s, o1. split; [done|]. split; [intros Hx; by destruct (Hh Hx)|auto]. }
  rewrite (IO_bind_step _ _ _ _ _ E2). destruct (close_run (mm_filename f1) (mm_fd f) s'
    (fun s => mret (s, set_region (mm_set_fd f1 (-1)) (map_size_ f1) 0 0 (dst_ f1) (last_sync_ f1) (file_offset_ f1))) o2) as (s3 & o3 & -> & Hh3 & Hok & Hb3).
  eexists s3, _, o3. split; [reflexivity|]. split; [done|]. rewrite Hb3. split; [intros Hx; by destruct (Hh2 Hx); auto|]. auto.
Qed.

(** ** [PosixMmapFile] as a file of [WritableFileWriter] *)

(** The file with the members of its base class, the state of the system, and the descriptor it
    was opened with. *)
Record MmapFile : Type := mkMmap { mf_file : PosixMmapFile; mf_base : WritableFileBase; mf_os : O; mf_fd : Z }.
Definition mf_with (f : MmapFile) (m : IO (Status * PosixMmapFile)) : Status * MmapFile :=
  let '((s, mf), o) := io_result (OK, mf_file f) m (mf_os f) in (s, mkMmap mf (mf_base f) o (mf_fd f)).
Definition mf_status (f : MmapFile) (m : IO Status) : Status * MmapFile := mf_with f (s ← m; mret (s, mf_file f)).
Definition mf_PrepareWrite (f : MmapFile) (offset len : Z) : MmapFile :=
  let '(alloc, b) := PrepareWrite (mf_base f) offset len in
  let f' := (mf_status f match alloc with Some (off, n) => Mmap_Allocate (mf_file f) off n | None => mret OK end).2 in
  mkMmap (mf_file f') b (mf_os f') (mf_fd f').

(** What the class does not override are the defaults of the base class. *)
#[export] Instance MmapFile_ops : WritableFile MmapFile := {
  UseOSBuffer _ := default_UseOSBuffer;
  UseDirectIO _ := default_UseDirectIO;
  GetRequiredBufferAlignment _ := c_DefaultPageSize;
  IsSyncThreadSafe _ := default_IsSyncThreadSafe;
  file_Append f d := mf_with f (Mmap_Append (2 * length d + 2) (mf_file f) d);
  PositionedAppend f p d i := (default_PositionedAppend, f);
  Truncate f n := (default_Truncate, f);
  file_Close f := mf_with f (Mmap_Close (mf_file f));
  file_Flush f := (Mmap_Flush, f);
  file_Sync f := mf_with f (Mmap_Sync (mf_file f));
  file_Fsync f := mf_with f (Mmap_Fsync (mf_file f));
  file_RangeSync f a b := (default_RangeSync, f);
  file_InvalidateCache f a b := mf_status f (Mmap_InvalidateCache (mf_file f) a b);
  file_PrepareWrite := mf_PrepareWrite;
}.
#[export] Instance MmapFile_settings : WritableSettings MmapFile := {
  wf_SetIOPriority f pri := mkMmap (mf_file f) (SetIOPriority (mf_base f) pri) (mf_os f) (mf_fd f);
  wf_GetIOPriority f := GetIOPriority (mf_base f);
  wf_GetFileSize f := Mmap_GetFileSize (mf_file f);
  wf_SetPreallocationBlockSize f size := mkMmap (mf_file f) (SetPreallocationBlockSize (mf_base f) size) (mf_os f) (mf_fd f);
  wf_GetPreallocationStatus f := GetPreallocationStatus (mf_base f);
  wf_GetUniqueId f max_size := default_GetUniqueId;
  wf_Allocate f offset len := mf_status f (Mmap_Allocate (mf_file f) offset len);
}.

(** The bytes on the disk; those of them that count, which are all when the file is closed. *)
Definition mmap_disk (f : MmapFile) : list byte := file_bytes (mf_os f) (mf_fd f).
Definition mmap_bytes (f : MmapFile) : list byte :=
  if mm_fd (mf_file f) <? 0 then mmap_disk f else ztake (Mmap_GetFileSize (mf_file f)) (mmap_disk f).

(** An open file in a healthy system, as large as 62 bits allow. *)
Record mmap_works (f : MmapFile) : Prop := {
  mw_fd : mm_fd (mf_file f) = mf_fd f /\ 0 <= mf_fd f;
  mw_healthy : healthy (mf_os f);
  mw_base : mf_base f = WritableFileBase_new;
  mw_clean : exists data, mmap_clean (mf_file f) (mf_os f) data /\ zlen data < 2 ^ 62;
}.

Lemma mmap_works_clean f : mmap_works f ->
  mmap_clean (mf_file f) (mf_os f) (mmap_bytes f) /\ zlen (mmap_bytes f) < 2 ^ 62 /\ padded (mmap_disk f) (mmap_bytes f).
Proof.
  intros [[Hfd H0f] _ _ (data & Hc & Hl)]. pose proof (mi_data _ _ _ (proj1 Hc)) as Hp. rewrite Hfd in Hp.
  assert (mmap_bytes f = data) as ->; [|done]. unfold mmap_bytes. replace (mm_fd (mf_file f) <? 0) with false by lia.
  rewrite (Mmap_GetFileSize_run _ _ _ (proj1 Hc) Hl). by apply padded_spec.
Qed.

(** A new state of an open file whose bytes are [data]. *)
Lemma mmap_works_next f mf o data : mmap_works f -> mmap_clean mf o data -> mm_fd mf = mm_fd (mf_file f) -> healthy o -> zlen data < 2 ^ 62 ->
  let f' := mkMmap mf (mf_base f) o (mf_fd f) in mmap_works f' /\ mmap_bytes f' = data.
Proof.
  intros [[Hfd H0f] _ Hb _] Hc Hm Hh Hl f'. assert (mmap_works f') as Hw by (constructor; simpl; [split; congruence|done|done|by exists data]).
  split; [done|]. unfold mmap_bytes. simpl. replace (mm_fd mf <? 0) with false by lia. rewrite (Mmap_GetFileSize_run _ _ _ (proj1 Hc) Hl).
  pose proof (mi_data _ _ _ (proj1 Hc)) as Hp. rewrite Hm, Hfd in Hp. by apply padded_spec.
Qed.

Lemma mmap_sync_works f (sync : O -> Z -> Z * O) m : (forall o fd, quiet_call o fd (sync o fd)) -> mmap_works f ->
  m = (r ← call (fun o => sync o (mm_fd (mf_file f)));
     if r <? 0 then e ← get_errno; mret (IOError_of (mm_filename (mf_file f)) e, mf_file f) else Msync (mf_file f)) ->
  ok (mf_with f m).1 = true /\ mmap_works (mf_with f m).2 /\ mmap_bytes (mf_with f m).2 = mmap_bytes f.
Proof.
  intros Hq Hw ->. destruct (mmap_works_clean f Hw) as ([Hi Hc] & Hl & _).
  destruct (Sync_run (mf_file f) (mf_os f) _ sync Hq Hi) as (s & last & o' & E & Hi' & Hh & Hb). destruct (Hh (mw_healthy _ Hw)) as [Hh' Hs].
  unfold mf_with, io_result. rewrite E. cbn [fst snd].
  destruct (mmap_works_next f (synced (mf_file f) last) o' (mmap_bytes f) Hw) as [Hw' Hb']; [|done|done|exact Hl|done].
  split; [done|]. intros Hb0. simpl. rewrite Hb. by apply Hc.
Qed.

#[export] Instance MmapFile_working : WorkingFile MmapFile.
Proof using H H0 H1 H2 O.
  refine {| bytes_of := mmap_bytes; works := mmap_works; same_mode := fun _ _ => True; file_fits n := n < 2 ^ 62 |}; try done; try lia.
  - intros f d Hw _ Hfit. destruct (mmap_works_clean f Hw) as (Hc & Hl & _). rewrite zlen_app in Hfit.
    destruct (Mmap_Append_clean (2 * length d + 2) d (mf_file f) (mf_os f) _ Hc Hfit ltac:(lia)) as (s & mf & o & k & E & _ & Hfd & Hh & Hs).
    destruct (Hh (mw_healthy _ Hw)) as [Hh' Es]. cbn [file_Append MmapFile_ops]. unfold mf_with, io_result. rewrite E. cbn [fst snd].
    destruct (mmap_works_next f mf o _ Hw (Hs Es) Hfd Hh') as [Hw' Hb']; [by rewrite zlen_app|]. done.
  - intros f n Hw Hn Hall. simpl. do 3 (split; [done|]). rewrite (Hall eq_refl). by rewrite ztake_ge.
  - intros f Hw. destruct (mmap_works_clean f Hw) as (Hc & Hl & _).
    destruct (Mmap_Close_run _ _ _ Hc Hl) as (s & mf & o & E & Hfd & Hh & _ & Hs). specialize (Hh (mw_healthy _ Hw)).
    cbn [file_Close MmapFile_ops]. unfold mf_with, io_result. rewrite E. cbn [fst snd]. split; [done|].
    unfold mmap_bytes at 1. simpl. rewrite Hfd. change (-1 <? 0) with true. cbv iota. unfold mmap_disk. simpl.
    by rewrite <- (proj1 (mw_fd _ Hw)), (Hs Hh).
  - intros f r Hw [->|[->|[->|(a & b & _ & _ & _ & ->)]]]; [done| | |done].
    + destruct (mmap_sync_works f sys_fdatasync (Mmap_Sync (mf_file f))) as (H1' & H2' & H3'); [constructor|done|done|done].
    + destruct (mmap_sync_works f sys_fsync (Mmap_Fsync (mf_file f))) as (H1' & H2' & H3'); [constructor|done|done|done].
  - intros f a b Hw. cbn [file_PrepareWrite MmapFile_ops]. unfold mf_PrepareWrite. rewrite (mw_base _ Hw).
    unfold mf_status, mf_with, io_result. simpl. rewrite <- (mw_base _ Hw). by destruct f.
Defined.
End mmap.
