(* ===== verification/PosixDisk.v ===== *)
(** * PosixDisk: a system with one file

    A concrete instance of the system calls, which shows that what the files rely on can be
    provided: transfers of at most so many bytes at a time, and calls that are interrupted. *)

From Stdlib Require Import Strings.Byte Strings.String.
From stdpp Require Import list.
From S2P Require Import Prelude.
From S2P Require Import Slice.
From S2P Require Import Coding.
From S2P Require Import Status.
From S2P Require Import FileApi.
From S2P Require Import IoPosix.
From S2P Require Import IoPosixTheorems.
From S2P Require Import IoPosixMmap.

(** The bytes of the file, whether it was opened with [O_APPEND], the greatest number of bytes
    that a call transfers, [errno], how many calls
    are still to be interrupted, the offset of the mapping at [disk_addr], and the position
    and the flag of the stream. *)
Record Disk : Type := mkDisk {
  d_bytes : list byte;
  d_append : bool;
  d_chunk : positive;
  d_errno : Z;
  d_intr : nat;
  d_map : Z;
  d_pos : Z;
  d_eof : bool;
}.
Definition set_bytes (o : Disk) l := mkDisk l (d_append o) (d_chunk o) (d_errno o) (d_intr o) (d_map o) (d_pos o) (d_eof o).
Definition set_map (o : Disk) m := mkDisk (d_bytes o) (d_append o) (d_chunk o) (d_errno o) (d_intr o) m (d_pos o) (d_eof o).
Definition set_stream (o : Disk) p e := mkDisk (d_bytes o) (d_append o) (d_chunk o) (d_errno o) (d_intr o) (d_map o) p e.
Definition interrupt (o : Disk) n := mkDisk (d_bytes o) (d_append o) (d_chunk o) EINTR n (d_map o) (d_pos o) (d_eof o).
Definition disk_addr : Z := 8192.
Definition empty_disk (append : bool) (chunk : positive) (intr : nat) : Disk := mkDisk [] append chunk 0 intr 0 0 false.

(** A call that is interrupted while there are interruptions left. *)
Definition interruptible {A} (o : Disk) (bad : A) (f : A * Disk) : A * Disk :=
  match d_intr o with S n => (bad, interrupt o n) | 0%nat => f end.
Definition disk_write (o : Disk) (data : list byte) (off : Z) : Z * Disk :=
  let k := Z.min (zlen data) (Zpos (d_chunk o)) in
  interruptible o (-1) (k, set_bytes o (overwrite (d_bytes o) (if d_append o then zlen (d_bytes o) else off) (ztake k data))).
Definition disk_read (o : Disk) (n off : Z) : (Z * list byte) * Disk :=
  let bytes := ztake (Z.min n (Zpos (d_chunk o))) (zdrop off (d_bytes o)) in interruptible o (-1, []) ((zlen bytes, bytes), o).

#[export] Instance Disk_posix : Posix Disk := {
  errno := d_errno;
  strerror _ := str "error";
  kPageSize := 4096;
  sys_pread o _ n off := disk_read o n off;
  sys_pwrite o _ data off := disk_write o data off;
  sys_write o _ data := disk_write o data (zlen (d_bytes o));
  sys_close o _ := (0, o);
  sys_fsync o _ := (0, o);
  sys_fdatasync o _ := (0, o);
  sys_ftruncate o _ n := (0, set_bytes o (ztake n (extend (d_bytes o) n)));
  sys_fallocate o _ keep off n := (0, if keep then o else set_bytes o (extend (d_bytes o) (off + n)));
  sys_punch_hole o _ _ _ := (0, o);
  sys_sync_file_range o _ _ _ := (0, o);
  sys_fadvise o _ _ _ _ := (0, o);
  sys_memalign o n := (Some (4096, zrep n x23), o);
  sys_fstat o _ := ((0, (1, 2)), o);
  sys_getversion o _ := ((0, 3), o);
  sys_posix_fallocate o _ off n := (0, set_bytes o (extend (d_bytes o) (off + n)));
  sys_mmap o n _ off := if (n <=? 2 ^ 32) && (off mod 4096 =? 0) then (Some disk_addr, set_map o off) else (None, o);
  sys_munmap o p n := (if (p mod 4096 =? 0) && (0 <? n) then 0 else -1, o);
  sys_msync o p _ := (if p mod 4096 =? 0 then 0 else -1, o);
  mem_store o p d := set_bytes o (overwrite (d_bytes o) (d_map o + (p - disk_addr)) d);
  c_fread o _ n := let bytes := ztake n (zdrop (d_pos o) (d_bytes o)) in ((zlen bytes, bytes), set_stream o (d_pos o + zlen bytes) (zlen bytes <? n));
  c_feof o _ := d_eof o;
  c_ferror _ _ := false;
  c_clearerr o _ := set_stream o (d_pos o) false;
  c_fseek_cur o _ n := (0, set_stream o (d_pos o + n) (d_eof o));
}.

Lemma disk_write_law o data off r o' : 0 < zlen data -> 0 <= off -> disk_write o data off = (r, o') ->
  d_bytes o' = overwrite (d_bytes o) (if d_append o then zlen (d_bytes o) else off) (ztake r data) /\ d_append o' = d_append o /\
  transfer (zlen data) r (d_errno o) (d_errno o') (d_intr o) (d_intr o') True /\ r <> 0.
Proof.
  intros Hd Ho E. unfold disk_write, interruptible in E. destruct (d_intr o) as [|n] eqn:Ei; inversion E; subst; simpl.
  - split; [done|]. split; [done|]. split; [|lia]. apply moved; [lia|done|lia].
  - rewrite ztake_neg, overwrite_nil by (try destruct (d_append o); pose proof (zlen_nonneg (d_bytes o)); lia).
    split; [done|]. split; [done|]. split; [|done]. apply interrupted; [done|done|lia].
Qed.

#[export] Instance Disk_files : PosixFiles Disk.
Proof.
  refine {| file_bytes o _ := d_bytes o; at_end o _ := d_append o = true; positional o _ := d_append o = false;
    patience := d_intr; healthy _ := True |}.
  - intros o fd n off r bytes o' Hn Ho E. simpl in E. unfold disk_read, interruptible in E. destruct (d_intr o) as [|k] eqn:Ei; inversion E; subst; simpl.
    + split; [done|]. split; [done|]. pose proof (zlen_ztake (Z.min n (Zpos (d_chunk o'))) (zdrop off (d_bytes o')) ltac:(lia)) as Hl.
      pose proof (ztake_len (Z.min n (Zpos (d_chunk o'))) (zdrop off (d_bytes o'))) as He. rewrite zlen_zdrop in Hl by lia.
      pose proof (zlen_nonneg (d_bytes o')). split; [apply moved; [lia|done|lia]|]. split; [exact He|]. split; [lia|]. lia.
    + split; [done|]. split; [done|]. split; [apply interrupted; [done|done|lia]|]. by rewrite ztake_neg by lia.
  - intros o fd data r o' Hd Ha E. destruct (disk_write_law o data (zlen (d_bytes o)) r o' Hd (zlen_nonneg _) E) as (Hb & Ha' & Ht & Hr).
    rewrite Ha in Hb. rewrite Ha'. rewrite Hb. unfold overwrite. rewrite ztake_ge by lia.
    pose proof (zlen_nonneg (ztake r data)). rewrite zdrop_ge, app_nil_r by lia. done.
  - intros o fd data off r o' Hd Ha Ho E. destruct (disk_write_law o data off r o' Hd ltac:(lia) E) as (Hb & Ha' & Ht & Hr).
    rewrite Ha in Hb. rewrite Ha'. done.
  - intros o fd r o' Hq. inversion Hq; subst; done.
  - intros o fd r o' E. simpl in E. inversion E; subst. done.
  - intros o n r o' Hn E. simpl in E. inversion E; subst. split_and!; try done. apply zlen_zrep. lia.
  - done.
Defined.

#[export] Instance Disk_mmap : MmapFiles Disk.
Proof.
  refine {| mapped o _ p n off := p = disk_addr /\ d_map o = off /\ n <= 2 ^ 32 |}.
  - intros o fd off n r o' Ho Hn E. simpl in E. inversion E; subst. done.
  - intros o fd off n r o' Ho Hn E. simpl in E. inversion E; subst. done.
  - intros o fd off n r o' Ho Hn E. simpl in E. change kPageSize with 4096.
    destruct ((n <=? 2 ^ 32) && (off mod 4096 =? 0)) eqn:Ec; injection E as <- <-; (split; [done|]); (split; [intros _; split; [done|]; intros Hle Hoff|]); try done.
    + simpl. unfold disk_addr. change (2 ^ 32) with 4294967296 in *. change (2 ^ 64) with 18446744073709551616. split; [done|]. split; [lia|]. split; [by exists 2|lia].
    + rewrite (proj2 (Z.leb_le _ _) Hle), (proj2 (Z.mod_divide off 4096 ltac:(done)) Hoff) in Ec. done.
  - intros o fd p n off i d (-> & <- & Hn) Hb Hi Hd. simpl. replace (disk_addr + i - disk_addr) with i by lia. done.
  - intros o fd p n r o' E. injection E as <- <-. split; [done|]. split; [|done]. intros _. split; [done|].
    intros Hp Hn. rewrite (proj2 (Z.mod_divide p 4096 ltac:(done)) Hp), (proj2 (Z.ltb_lt _ _) Hn). done.
  - intros o fd n r o' Hn E. simpl in E. inversion E; subst. simpl in *. by rewrite ztake_extend.
  - intros o fd p n r o' E. injection E as <- <-. split; [done|]. split; [|done]. intros _. split; [done|].
    intros Hp _ _. by rewrite (proj2 (Z.mod_divide p 4096 ltac:(done)) Hp).
  - intros o fd r o' q m off Hq. by inversion Hq; subst.
Defined.
