(* ===== verification/PosixProps.v ===== *)
(** * PosixProps: what the POSIX files do

    The properties of the operations over the laws of the system calls, with witnesses on
    the system of PosixDisk, and a log in such a file from end to end. *)

From Stdlib Require Import Strings.Byte Strings.String.
From stdpp Require Import list.
From S2P Require Import Prelude.
From S2P Require Import Slice.
From S2P Require Import Coding.
From S2P Require Import Status.
From S2P Require Import Crc32c.
From S2P Require Import LogFormat.
From S2P Require Import LogWriter.
From S2P Require Import LogReader.
From S2P Require Import LogRoundtrip.
From S2P Require Import AlignedBuffer.
From S2P Require Import FileApi.
From S2P Require Import FileWriter.
From S2P Require Import FileWriterSpec.
From S2P Require Import FileWriterTheorems.
From S2P Require Import LogFile.
From S2P Require Import IoPosix.
From S2P Require Import IoPosixTheorems.
From S2P Require Import IoPosixDirect.
From S2P Require Import IoPosixMmap.
From S2P Require Import PosixDisk.

Lemma IOError_of_fails `{Host} {O} `{Posix O} c e : ok (IOError_of c e) = false.
Proof. unfold IOError_of. by destruct (e =? ENOSPC). Qed.

(** C32: the writes of the POSIX files, through short writes and interruptions.
    [PosixWritableFile::Append] puts the data at the end of the file and adds their size to
    [filesize_]; [PosixRandomRWFile::Write] overwrites at its offset. Both return, with enough
    fuel for the interruptions, and write all of the data when they return OK; at an error
    they have written a part from the front and the file counts nothing. A healthy system
    gives OK. *)
Theorem posix_writes `{Host} {O} `{PosixFiles O} fuel data (o : O) : (patience o + length data < fuel)%nat ->
  (forall f, at_end o (pw_fd f) -> exists s f' o' k, Writable_Append fuel f data o = Ret (s, f', o') /\
    file_bytes o' (pw_fd f) = file_bytes o (pw_fd f) ++ ztake k data /\ 0 <= k <= zlen data /\ (healthy o -> ok s = true) /\
    (if ok s then k = zlen data /\ f' = set_filesize f (u64 (pw_filesize f + zlen data)) else f' = f /\ IsIOError s = true)) /\
  (forall f off, positional o (rw_fd f) -> 0 <= off <= zlen (file_bytes o (rw_fd f)) -> off + zlen data < 2 ^ 63 ->
    exists s o' k, RandomRW_Write fuel f off data o = Ret (s, o') /\
    file_bytes o' (rw_fd f) = overwrite (file_bytes o (rw_fd f)) off (ztake k data) /\ 0 <= k <= zlen data /\
    (healthy o -> ok s = true) /\ (ok s = true -> k = zlen data)).
Proof.
  intros Hf. split.
  - intros f Ha. destruct (Writable_Append_run fuel f data o Ha Hf) as (s & f' & o' & k & E & _ & Hh & Hb & Hk & Hs).
    exists s, f', o', k. split_and!; try done; try lia. intros Hx. by destruct (Hh Hx).
  - intros f off Hp Ho Hb. destruct (pwrite_loop_spec (rw_fd f) fuel data off o Hp Ho Hb Hf) as (e & off' & o' & k & E & _ & Hh & Hby & Hk & Hn).
    unfold RandomRW_Write. rewrite (IO_bind_step _ _ e o o').
    2: { by rewrite RandomRW_Write_loop_pwrite, (IO_bind_step _ _ _ _ _ E). }
    eexists _, o', k. split; [reflexivity|]. split_and!; try done; try lia.
    + intros Hx. by destruct (Hh Hx) as [_ ->].
    + destruct e as [e|]; [by rewrite IOError_of_fails|]. intros _. by apply Hn.
Qed.

Lemma posix_writes_witness : exists s f' o' k,
  @Writable_Append le_host _ _ 20 (mkPosixWritable (str "f") 3 0 true false WritableFileBase_new) (str "hello") (empty_disk true 2 4) = Ret (s, f', o') /\
  (if ok s then k = 5 /\ f' = mkPosixWritable (str "f") 3 5 true false WritableFileBase_new else False).
Proof.
  destruct (@posix_writes le_host Disk Disk_posix Disk_files 20 (str "hello") (empty_disk true 2 4)) as [Hw _]; [vm_compute; lia|].
  destruct (Hw (mkPosixWritable (str "f") 3 0 true false WritableFileBase_new) eq_refl) as (s & f' & o' & k & E & _ & _ & Hh & Hs).
  exists s, f', o', k. split; [exact E|]. rewrite (Hh I) in *. exact Hs.
Defined.

Lemma Mmap_Read_run `{Host} {O} `{Posix O} f off n : length_ f = zlen (mmapped_region_ f) -> 0 <= off -> 0 <= n -> off + n < 2 ^ 64 ->
  if zlen (mmapped_region_ f) <? off then exists s, Mmap_Read f off n = Ret (s, []) /\ IsIOError s = true
  else Mmap_Read f off n = Ret (OK, ztake n (zdrop off (mmapped_region_ f))).
Proof.
  intros Hl Ho Hn Hb. unfold Mmap_Read. rewrite Hl. destruct (Z.ltb_spec (zlen (mmapped_region_ f)) off) as [Hlt|Hge]; [by eexists|].
  rewrite u64_small by lia. destruct (Z.ltb_spec (zlen (mmapped_region_ f)) (off + n)).
  - rewrite u64_small by lia. replace (_ <=? _) with true by lia. rewrite !ztake_ge by (rewrite zlen_zdrop by lia; lia). done.
  - replace (_ <=? _) with true by lia. done.
Qed.


Definition text_disk (text : list byte) (chunk : positive) (intr : nat) : Disk := set_bytes (empty_disk false chunk intr) text.


(** the loop of [PosixRandomAccessFile::Read] looks at [errno] also when [pread] has
    returned 0, which does not set it. At the end of the file, when an earlier interruption
    has left [EINTR] there, the loop never ends, although every call succeeds. *)
Lemma stale_EINTR_spins `{Host} {O} `{PosixFiles O} fuel f off n (o : O) :
  errno o = EINTR -> patience o = 0%nat -> healthy o -> zlen (file_bytes o (rf_fd f)) <= off -> off < 2 ^ 63 -> 0 < n ->
  RandomAccess_Read fuel f off n o = NoFuel.
Proof.
  intros He Hp Hh Hl Hb Hn. unfold RandomAccess_Read. pose proof (zlen_nonneg (file_bytes o (rf_fd f))).
  assert (forall acc r, Read_loop fuel (rf_fd f) off n acc r o = NoFuel) as E; [|unfold mbind, IO_bind; by rewrite E].
  clear H2. revert o He Hp Hh Hl. induction fuel as [|fuel IH]; intros o He Hp Hh Hl acc r0; cbn [Read_loop]; replace (0 <? n) with true by lia; [done|].
  pose proof (zlen_nonneg (file_bytes o (rf_fd f))).
  rewrite off_t_small by lia. destruct (sys_pread o (rf_fd f) n off) as [[r bytes] o1] eqn:E.
  destruct (pread_law o (rf_fd f) n off r bytes o1 Hn ltac:(lia) E) as (Hfb & Hh1 & Ht & Hby & Hlen & _).
  rewrite (IO_bind_step _ _ (r, bytes) o o1) by (unfold call; by rewrite E). cbv beta iota.
  destruct Ht as [Hr He1 Hp1|_ _ Hp1|_ _ _ Hnh]; [|lia|done].
  rewrite zdrop_ge, ztake_nil in Hby by done. subst bytes. assert (r = 0) as -> by exact (eq_sym (Hlen (proj1 Hr))). cbn [Z.leb Z.compare].
  rewrite (IO_bind_step _ _ EINTR o1 o1) by (unfold get_errno; by rewrite He1, He). simpl.
  apply IH; [congruence|lia|auto|by rewrite Hfb].
Qed.

Lemma stale_EINTR_spins_witness :
  @RandomAccess_Read le_host _ _ 1000 (mkRandomAccess (str "f") 3 true) 10 1 (interrupt (text_disk (str "0123456789") 2 0) 0) = NoFuel.
Proof.
  apply (@stale_EINTR_spins le_host Disk Disk_posix Disk_files 1000 (mkRandomAccess (str "f") 3 true) 10 1
    (interrupt (text_disk (str "0123456789") 2 0) 0)); [reflexivity|reflexivity|exact I|vm_compute; done|vm_compute; done|lia].
Defined.

(** C34: a [PosixMmapFile] that was made with [allow_fallocate], the default, is an append-only
    byte string. A new one on an empty file, for a page size that is a multiple of the system's,
    holds nothing; [Append] of any size, over any number of mappings, returns, stays inside them and
    holds a prefix of the data more, all of them when it returns OK, and then [GetFileSize] is
    their number. At every moment the file has these bytes and behind them nothing but zeros,
    the space that is left of the last mapping; [Sync] and [Fsync] keep all this, and an OK [Close]
    leaves exactly the data. In a healthy system, which maps, unmaps and syncs whole pages only,
    every call returns OK. (Without [allow_fallocate] the first store raises a signal, see
    [MapNewRegion_unallocated].) *)
Theorem mmap_file `{Host} {O} `{MmapFiles O} (o : O) :
  (forall fname fd page keep, 0 < page <= 2 ^ 20 -> Z.land page (page - 1) = 0 -> (kPageSize | page) -> file_bytes o fd = [] ->
    exists f, PosixMmapFile_new fname fd page true true keep o = Ret (f, o) /\ mmap_clean f o [] /\ mm_fd f = fd) /\
  (forall fuel f data src, mmap_clean f o data -> zlen data + zlen src < 2 ^ 62 -> (2 * length src + 1 < fuel)%nat ->
    exists s f' o' k, Mmap_Append fuel f src o = Ret (s, f', o') /\ mmap_inv f' o' (data ++ ztake k src) /\ mm_fd f' = mm_fd f /\
      padded (file_bytes o' (mm_fd f)) (data ++ ztake k src) /\ (healthy o -> healthy o' /\ ok s = true) /\
      (ok s = true -> mmap_clean f' o' (data ++ src) /\ Mmap_GetFileSize f' = zlen data + zlen src)) /\
  (forall f data sync, sync = Mmap_Sync \/ sync = Mmap_Fsync -> mmap_clean f o data ->
    exists s f' o', sync f o = Ret (s, f', o') /\ mmap_clean f' o' data /\ mm_fd f' = mm_fd f /\ (healthy o -> healthy o' /\ ok s = true)) /\
  (forall f data, mmap_clean f o data -> zlen data < 2 ^ 62 ->
    exists s f' o', Mmap_Close f o = Ret (s, f', o') /\ mm_fd f' = -1 /\ padded (file_bytes o' (mm_fd f)) data /\
      (healthy o -> ok s = true) /\ (ok s = true -> file_bytes o' (mm_fd f) = data)).
Proof.
  split_and!.
  - intros fname fd page keep Hp Hl Hpage Hb. by apply PosixMmapFile_new_run.
  - intros fuel f data src Hc Hb Hf.
    destruct (Mmap_Append_clean fuel src f o data Hc Hb Hf) as (s & f' & o' & k & E & Hi' & Hfd & Hh & Hs).
    exists s, f', o', k. do 3 (split; [done|]). split; [rewrite <- Hfd; apply (mi_data _ _ _ Hi')|]. split; [done|]. intros Hok.
    specialize (Hs Hok). split; [done|]. rewrite <- zlen_app. by apply (Mmap_GetFileSize_run f' o'); [apply Hs|rewrite zlen_app].
  - intros f data sync Hsy Hc. by apply Mmap_Sync_clean.
  - intros f data Hc Hb. destruct (Mmap_Close_run f o data Hc Hb) as (s & f' & o' & E & Hfd & Hh & Hp & Hs). by exists s, f', o'.
Qed.

Lemma mmap_file_witness : exists f o1 o2, @PosixMmapFile_new Disk (str "f") 3 4096 true true false (empty_disk false 4 0) = Ret (f, o1) /\
  exists s f', @Mmap_Append le_host _ _ 100 f (str "hello") o1 = Ret (s, f', o2) /\ (ok s = true -> Mmap_GetFileSize f' = 5).
Proof.
  destruct (@mmap_file le_host Disk Disk_posix Disk_files Disk_mmap (empty_disk false 4 0)) as (Hn & _ & _).
  destruct (Hn (str "f") 3 4096 false) as (f & E & Hc & _); [vm_compute; intuition discriminate|reflexivity|exact (Z.divide_refl 4096)|reflexivity|].
  destruct (@mmap_file le_host Disk Disk_posix Disk_files Disk_mmap (empty_disk false 4 0)) as (_ & Ha & _).
  destruct (Ha 100%nat f [] (str "hello") Hc) as (s & f' & o' & k & E2 & _ & _ & _ & _ & Hs); [vm_compute; done|vm_compute; lia|].
  exists f, (empty_disk false 4 0), o'. split; [exact E|]. exists s, f'. split; [exact E2|]. intros Hok. destruct (Hs Hok) as [_ ->]. reflexivity.
Defined.

(** C31: a log in a POSIX file, from end to end. Records of any number and size, put by a log
    writer through [WritableFileWriter] into a new [PosixWritableFile] in a healthy system,
    which may transfer few bytes at a time and be interrupted, are in the file as soon as the
    last [AddRecord] has returned, also when the process goes no further, and when it is
    closed: a reader on its bytes returns them all, in order, and reports nothing. *)
Theorem log_in_posix_file `{Host} `{Crc32c} {O} `{PosixFiles O} new_chars `{!Allocator new_chars}
    (pf : PosixWritableFile) (o : O) max n recycle recs :
  at_end o (pw_fd pf) -> healthy o -> pw_base pf = WritableFileBase_new -> file_bytes o (pw_fd pf) = [] ->
  max < 2 ^ 61 -> 0 <= n -> (recycle = true -> n < 2 ^ 32) ->
  exists fw w0 ss w f, WritableFileWriter_new new_chars (mkPosixFile pf o (pw_fd pf)) max 0 = Ret fw /\
    Writer_new fw n recycle = Ret w0 /\
    @AddRecords _ _ _ (FileWriter_dest new_chars) w0 recs = Ret (ss, w) /\
    Forall (fun s => ok s = true) ss /\ length ss = length recs /\
    writable_file_ (dest_ w) = Some f /\ rereads (file_bytes (pf_os f) (pf_fd f)) n recs /\
    (zlen (file_bytes (pf_os f) (pf_fd f)) < 2 ^ 64 -> exists s fw' f', Close_file (dest_ w) = Ret (s, fw') /\ ok s = true /\
      writable_file_ fw' = Some f' /\ file_bytes (pf_os f') (pf_fd f') = file_bytes (pf_os f) (pf_fd f)).
Proof.
  intros Ha Hh Hb Hby Hmax Hn Hrec.
  destruct (@log_in_file _ _ PosixFile PosixFile_ops PosixFile_working new_chars _ (mkPosixFile pf o (pw_fd pf)) 12 max n recycle recs)
    as (fw & w0 & ss & w & f & E1 & E2 & E3 & Hss & Hlen & Hf & _ & Hr & Hc); try done; try lia.
  exists fw, w0, ss, w, f. do 7 (split; [done|]). intros Hsz. destruct (Hc Hsz) as (s & fw' & f' & Ec & Es & Hf' & Hb' & _). by exists s, fw', f'.
Qed.

Lemma log_in_posix_file_witness : exists fw w0 ss w f,
  @WritableFileWriter_new _ (@PosixFile_ops le_host Disk Disk_posix Disk_files) zero_chars
    (mkPosixFile (mkPosixWritable (str "f") 3 0 true false WritableFileBase_new) (empty_disk true 2 5) 3) 0 0 = Ret fw /\
  @Writer_new test_crc _ fw 5 true = Ret w0 /\
  @AddRecords le_host test_crc _ (@FileWriter_dest le_host _ (@PosixFile_ops le_host Disk Disk_posix Disk_files) zero_chars) w0 [str "hello"; []] = Ret (ss, w) /\
  Forall (fun s => ok s = true) ss /\ writable_file_ (dest_ w) = Some f /\
  @rereads le_host test_crc (d_bytes (pf_os f)) 5 [str "hello"; []].
Proof.
  destruct (@log_in_posix_file le_host test_crc Disk Disk_posix Disk_files zero_chars zero_chars_allocator
    (mkPosixWritable (str "f") 3 0 true false WritableFileBase_new) (empty_disk true 2 5) 0 5 true [str "hello"; []] eq_refl I eq_refl eq_refl)
    as (fw & w0 & ss & w & f & E1 & E2 & E3 & E4 & _ & E5 & E6 & _); [lia|lia|lia|].
  exists fw, w0, ss, w, f. exact (conj E1 (conj E2 (conj E3 (conj E4 (conj E5 E6))))).
Defined.

(** C30: a log in a memory mapped file, from end to end. The comment of [PosixMmapFile] says that
    writing into mapped, preallocated space is safe since a file is closed before it is read,
    or, for log files, the reading code skips zero suffixes. So it is in a healthy system for
    a log of a size of less than 62 bits: when the last [AddRecord] has returned and the process goes no
    further, the file on the disk is the log with zeros behind it, and a reader on it returns
    all of the records, in order, and reports nothing (except in [kAbsoluteConsistency] mode);
    after [Close] the file is exactly the log. *)
Theorem log_in_mmap_file `{Host} `{Crc32c} {O} `{MmapFiles O} new_chars `{!Allocator new_chars}
    (mf : PosixMmapFile) (o : O) max n recycle recs :
  mmap_clean mf o [] -> 0 <= mm_fd mf -> healthy o -> max < 2 ^ 61 -> 0 <= n -> (recycle = true -> n < 2 ^ 32) ->
  log_bound recs < 2 ^ 62 ->
  exists fw w0 ss w f log, WritableFileWriter_new new_chars (mkMmap mf WritableFileBase_new o (mm_fd mf)) max 0 = Ret fw /\
    Writer_new fw n recycle = Ret w0 /\
    @AddRecords _ _ _ (FileWriter_dest new_chars) w0 recs = Ret (ss, w) /\
    Forall (fun s => ok s = true) ss /\ length ss = length recs /\
    writable_file_ (dest_ w) = Some f /\ padded (mmap_disk f) log /\ rereads log n recs /\
    (exists s fw' f', Close_file (dest_ w) = Ret (s, fw') /\ ok s = true /\ writable_file_ fw' = Some f' /\ mmap_disk f' = log).
Proof.
  intros Hcl Hfd Hh Hmax Hn Hrec Hfit.
  assert (mmap_works (mkMmap mf WritableFileBase_new o (mm_fd mf))) as Hw by (constructor; simpl; [done|done|done|by exists []]).
  destruct (@log_in_file _ _ MmapFile MmapFile_ops MmapFile_working new_chars _ (mkMmap mf WritableFileBase_new o (mm_fd mf)) 12 max n recycle recs)
    as (fw & w0 & ss & w & f & E1 & E2 & E3 & Hss & Hlen & Hf & Hwf & Hr & Hc); try done; try lia.
  2: { intros out off' HL. pose proof (Log_size _ _ _ _ _ HL ltac:(done)). change (zlen out < 2 ^ 62). lia. }
  { change (mmap_bytes (mkMmap mf WritableFileBase_new o (mm_fd mf)) = []). unfold mmap_bytes. simpl. replace (mm_fd mf <? 0) with false by lia.
    rewrite (Mmap_GetFileSize_run _ _ _ (proj1 Hcl)) by done. apply ztake_0. }
  destruct (mmap_works_clean f Hwf) as (_ & Hl & Hp). change (2 ^ 62) with 4611686018427387904 in Hl. change (2 ^ 64) with 18446744073709551616 in Hc.
  exists fw, w0, ss, w, f, (mmap_bytes f). do 8 (split; [done|]).
  destruct Hc as (s & fw' & f' & Ec & Es & Hf' & Hb' & g & Hg & Eg); [change (zlen (mmap_bytes f) < 18446744073709551616); lia|].
  exists s, fw', f'. do 3 (split; [done|]). transitivity (mmap_bytes f'); [|exact Hb']. subst f'. destruct (mmap_works_clean g Hg) as (Hgc & Hgl & _).
  destruct (Mmap_Close_run _ _ _ Hgc Hgl) as (sg & mg & og & E & Hg1 & _). simpl. unfold mmap_bytes, mf_with, io_result. rewrite E. simpl. by rewrite Hg1.
Qed.

(** The file is the log, and its 65536 bytes are all zeros behind it while it is open. *)
Lemma log_in_mmap_file_witness : exists fw w0 ss w f log,
  @WritableFileWriter_new _ (@MmapFile_ops le_host Disk Disk_posix) zero_chars
    (mkMmap (mkMmapFile (str "f") 3 4096 65536 0 0 0 0 0 true false) WritableFileBase_new (empty_disk false 4 0) 3) 0 0 = Ret fw /\
  @Writer_new test_crc _ fw 5 true = Ret w0 /\
  @AddRecords le_host test_crc _ (@FileWriter_dest le_host _ (@MmapFile_ops le_host Disk Disk_posix) zero_chars) w0 [str "hello"; []] = Ret (ss, w) /\
  Forall (fun s => ok s = true) ss /\ writable_file_ (dest_ w) = Some f /\ padded (@mmap_disk Disk _ _ f) log /\
  @rereads le_host test_crc log 5 [str "hello"; []].
Proof.
  destruct (@log_in_mmap_file le_host test_crc Disk Disk_posix Disk_files Disk_mmap zero_chars zero_chars_allocator
    (mkMmapFile (str "f") 3 4096 65536 0 0 0 0 0 true false) (empty_disk false 4 0) 0 5 true [str "hello"; []])
    as (fw & w0 & ss & w & f & log & E1 & E2 & E3 & E4 & _ & E5 & E6 & E7 & _); [| |done|lia|lia|lia| |].
  - split; [|done]. constructor; simpl; try done; [apply padded_refl|exists 12; done|split; [by exists 1|]; split; [by exists 16|by exists 0]|by left].
  - simpl. lia.
  - vm_compute. done.
  - exists fw, w0, ss, w, f, log. exact (conj E1 (conj E2 (conj E3 (conj E4 (conj E5 (conj E6 E7)))))).
Defined.

(** The unique id fits into the [max_size] bytes of [id]. *)
Lemma unique_id_fits `{Host} {O} `{Posix O} fd max_size (o o' : O) id :
  0 <= max_size -> GetUniqueIdFromFile fd max_size o = Ret (id, o') -> zlen id <= max_size.
Proof.
  intros Hm. unfold GetUniqueIdFromFile. destruct (Z.ltb_spec max_size (kMaxVarint64Length * 3)); [by intros [= <- _]|].
  unfold mbind, IO_bind, call. destruct (sys_fstat o fd) as [[r [dev ino]] o1]. unfold io_assert. destruct (negb (r =? -1)); [|done].
  destruct (sys_getversion o1 fd) as [[r2 v] o2]. destruct (r2 =? -1); intros [= <- _]; [done|].
  unfold kMaxVarint64Length in *. unfold EncodeVarint64. rewrite !zlen_app.
  pose proof (zlen_EncodeVarint64_loop 10 (u64 dev)). pose proof (zlen_EncodeVarint64_loop 10 (u64 ino)). pose proof (zlen_EncodeVarint64_loop 10 (u64 v)). lia.
Qed.

(** ** What the code does beside its promise *)

(** [ReadUnaligned] at the end of the file: it copies as many bytes as the aligned block had,
    from the middle of the block on, so the result runs over the end of the file and shows
    what the memory held ([x23] here). *)
Lemma unaligned_read_past_end : exists o',
  @DirectIORead le_host _ _ 100 3 4 20 4096 (text_disk (str "0123456789") 512 0) =
  Ret (OK, str "456789####", o').
Proof. eexists. vm_compute. reflexivity. Qed.

(** A direct read of no bytes from an aligned place is an error. *)
Lemma empty_direct_read_fails : exists s o',
  @DirectIORead le_host _ _ 100 3 0 0 4096 (text_disk (str "0123456789") 512 0) = Ret (s, [], o') /\ ok s = false.
Proof. eexists _, _. split; vm_compute; reflexivity. Qed.

(** [PositionedAppend] counts the data twice: [filesize_] is [offset + data.size()] after the
    loop has moved [offset] behind the data. With preallocated blocks [Close] then sets the
    length of the file to it. *)
Lemma PositionedAppend_counts_twice : exists s f o1,
  @Writable_PositionedAppend le_host _ _ 100 (mkPosixWritable (str "f") 3 0 true false (mkBase 1 4096 IO_TOTAL)) (str "hello") 0 (empty_disk false 512 0) =
    Ret (s, f, o1) /\ ok s = true /\ pw_filesize f = 10 /\
  exists f' o2, @Writable_Close le_host _ _ f o1 = Ret (OK, f', o2) /\ d_bytes o2 = str "hello" ++ zrep 5 x00.
Proof. eexists _, _, _. split; [vm_compute; reflexivity|]. do 2 (split; [reflexivity|]). eexists _, _. split; vm_compute; reflexivity. Qed.

(** [offset + n] in [PosixMmapReadableFile::Read] wraps, and then the result is not inside
    the mapped region. *)
Lemma Mmap_Read_overflow : @Mmap_Read le_host _ Disk_posix (mkMmapReadable (str "f") (str "0123456789") 10 3) 4 (2 ^ 64 - 1) = Undef.
Proof. vm_compute. reflexivity. Qed.
