(* ===== verification/StringUtil.v ===== *)
(** * StringUtil ([rutil/string_util.h], [rutil/string_util.cc])

    [ToString] of integers and [StringSplit], with what it makes of its argument. *)

From Stdlib Require Import Strings.Byte Strings.String.
From stdpp Require Import list pretty.
From S2P Require Import Prelude.
From S2P Require Import Slice.
From S2P Require Import Coding.

(** [std::to_string] of an integer. *)
Definition ToString_int (value : Z) : Slice := str (pretty value).

(** [std::getline] on what is left of the stream: the item up to the delimiter, which is taken,
    too, and the rest. It fails when nothing is left. *)
Fixpoint getline_item (delim : byte) (ss : Slice) : Slice * Slice :=
  match ss with
  | [] => ([], [])
  | b :: ss' => if bool_decide (b = delim) then ([], ss') else let '(item, rest) := getline_item delim ss' in (b :: item, rest)
  end.
Definition getline (delim : byte) (ss : Slice) : option (Slice * Slice) :=
  match ss with [] => None | _ => Some (getline_item delim ss) end.

(** Every turn takes a character at least, so that as many turns as characters are enough. *)
Fixpoint StringSplit_loop (fuel : nat) (delim : byte) (ss : Slice) (splits : list Slice) : list Slice :=
  match getline delim ss with
  | Some (item, rest) => match fuel with 0%nat => splits | S fuel' => StringSplit_loop fuel' delim rest (splits ++ [item]) end
  | None => splits
  end.
Definition StringSplit (arg : Slice) (delim : byte) : list Slice := StringSplit_loop (length arg) delim arg [].

(** ** The parts *)

(** The parts, each with the delimiter behind it. *)
Definition terminated (delim : byte) (items : list Slice) : Slice := concat (map (fun item => item ++ [delim]) items).

Lemma getline_item_spec delim ss item rest : getline_item delim ss = (item, rest) ->
  (delim ∉ item) /\ (ss = item ++ delim :: rest \/ ss = item /\ rest = []).
Proof.
  revert item rest. induction ss as [|b ss IH]; intros item rest; simpl.
  { intros E. injection E as <- <-. split; [apply not_elem_of_nil|by right]. }
  case_bool_decide as Hb.
  { intros E. injection E as <- <-. subst. split; [apply not_elem_of_nil|by left]. }
  destruct (getline_item delim ss) as [item' rest'] eqn:Eg. intros E. injection E as <- <-. destruct (IH _ _ eq_refl) as [Hn Hs].
  split; [apply not_elem_of_cons; by split; [congruence|]|]. destruct Hs as [->|[-> ->]]; [by left|by right].
Qed.

Lemma getline_item_app delim item rest : delim ∉ item ->
  getline_item delim (item ++ delim :: rest) = (item, rest) /\ getline_item delim item = (item, []).
Proof.
  induction item as [|b item IH]; intros Hn; simpl; [by rewrite bool_decide_true|]. apply not_elem_of_cons in Hn as [Hb Hn].
  rewrite bool_decide_false by congruence. destruct (IH Hn) as [-> ->]. done.
Qed.

Definition unterminated (delim : byte) (ss : Slice) : Prop := ss <> [] /\ list_basics.list.last ss <> Some delim.

(** The loop in terms of the parts that it finds. *)
Lemma StringSplit_loop_spec fuel delim : forall ss splits, (length ss <= fuel)%nat -> exists items,
  StringSplit_loop fuel delim ss splits = splits ++ items /\ Forall (fun item => delim ∉ item) items /\
  (terminated delim items = ss /\ ~ unterminated delim ss \/ terminated delim items = ss ++ [delim] /\ unterminated delim ss).
Proof.
  induction fuel as [|fuel IH]; intros ss splits Hf; destruct ss as [|b ss]; simpl in Hf; try lia.
  1-2: exists []; rewrite app_nil_r; split; [done|]; split; [constructor|left]; split; [done|]; by intros [].
  set (arg := b :: ss). change (StringSplit_loop (S fuel) delim arg splits) with
    (let '(item, rest) := getline_item delim arg in StringSplit_loop fuel delim rest (splits ++ [item])).
  destruct (getline_item delim arg) as [item rest] eqn:Eg. destruct (getline_item_spec _ _ _ _ Eg) as [Hn Hs].
  destruct (IH rest (splits ++ [item])) as (items & E & Hall & Hj).
  { destruct Hs as [Hs|[_ ->]]; [|simpl; lia]. apply (f_equal length) in Hs. rewrite length_app in Hs. subst arg. simpl in Hs. lia. }
  assert (arg <> []) as Hne by done. clearbody arg. exists (item :: items). split; [by rewrite E, <- app_assoc|]. split; [by constructor|].
  unfold terminated in *. simpl. destruct Hs as [Hs|[Hs ->]]; rewrite Hs.
  - assert (unterminated delim (item ++ delim :: rest) <-> unterminated delim rest) as Hu.
    { unfold unterminated. destruct rest as [|r rest].
      - split; [intros [_ Hl]; destruct Hl; apply last_snoc|by intros []].
      - rewrite last_app_cons, last_cons_cons. split; intros [_ Hl]; split; try done. by destruct item. }
    rewrite Hu. destruct Hj as [[-> Hj]|[-> Hj]]; [left|right]; (split; [by rewrite <- !app_assoc|done]).
  - right. destruct Hj as [[-> _]|[_ [[] _]]]; [|done]. rewrite app_nil_r. split; [done|]. split; [congruence|].
    intros Hl. apply last_Some_elem_of in Hl. done.
Qed.

(** The parts of the terminated parts. *)
Lemma StringSplit_loop_terminated delim items : Forall (fun item => delim ∉ item) items -> forall fuel splits,
  (length (terminated delim items) <= fuel)%nat -> StringSplit_loop fuel delim (terminated delim items) splits = splits ++ items.
Proof.
  induction 1 as [|item items Hi _ IH]; intros fuel splits Hf.
  - rewrite app_nil_r. by destruct fuel.
  - unfold terminated in *. simpl in *. rewrite <- app_assoc in *. simpl in *. rewrite length_app in Hf. simpl in Hf.
    destruct fuel as [|fuel]; [lia|]. cbn [StringSplit_loop].
    assert (getline delim (item ++ delim :: concat (map (fun i => i ++ [delim]) items)) = Some (item, concat (map (fun i => i ++ [delim]) items))) as ->.
    { rewrite <- (proj1 (getline_item_app delim item _ Hi)). unfold getline. by destruct item. }
    rewrite IH by lia. by rewrite <- app_assoc.
Qed.

(** [StringSplit] gives the parts between the delimiters: none contains it, and with the delimiter
    behind each they are the argument again, with a delimiter at its end if it had none there. In
    the other direction, parts without the delimiter that are written with it behind each are
    what [StringSplit] finds. So empty parts are kept, except for one behind the last delimiter. *)
Theorem string_split arg delim :
  Forall (fun item => delim ∉ item) (StringSplit arg delim) /\
  terminated delim (StringSplit arg delim) =
    (if bool_decide (arg = [] \/ list_basics.list.last arg = Some delim) then arg else arg ++ [delim]) /\
  forall items, Forall (fun item => delim ∉ item) items -> StringSplit (terminated delim items) delim = items.
Proof.
  unfold StringSplit. destruct (StringSplit_loop_spec (length arg) delim arg [] ltac:(lia)) as (items & -> & Hall & Hj). simpl. split; [done|]. split.
  - unfold unterminated in Hj. case_bool_decide as Hc; destruct Hj as [[-> Hj]|[-> Hj]]; try done; exfalso; naive_solver.
  - intros items2 Hi. by apply (StringSplit_loop_terminated delim items2 Hi).
Qed.

Example string_split_example : StringSplit (str "a,,b,") x2c = [str "a"; []; str "b"] /\ StringSplit (str ",a") x2c = [[]; str "a"].
Proof. done. Qed.
