(* ===== verification/Locks.v ===== *)
(** * Locks ([include/rocksutil/mutexlock.h], [rport/port_posix.h], [rport/port_posix.cc])

    The locks as step relations between threads: [SpinMutex] on an atomic boolean, [Mutex] and
    [CondVar] over a pthread mutex with the flag that [AssertHeld] looks at, and [RWMutex].
    Every access to shared memory is a step of its own. With the other functions of port_posix.cc. *)

From stdpp Require Import list relations.
From S2P Require Import Prelude.

(** A thread in its own program. *)
Definition thread : Type := Z.
Definition set_pc {P} (m : thread -> P) (t : thread) (p : P) : thread -> P := fun t' => if decide (t' = t) then p else m t'.
Lemma set_pc_eq {P} (m : thread -> P) t p : set_pc m t p t = p.
Proof. unfold set_pc. by rewrite decide_True. Qed.
Lemma set_pc_ne {P} (m : thread -> P) t p t' : t' <> t -> set_pc m t p t' = m t'.
Proof. intros Hn. unfold set_pc. by rewrite decide_False. Qed.

Module Spin.
(** ** [SpinMutex] *)

(** Where a thread is: [Loading] and [Exchanging] are the two accesses of [try_lock], called by
    itself with [None] and by [lock] with the number of tries; [Pausing] and [Yielding] are the
    rest of the loop of [lock]. *)
Inductive spin_pc : Type :=
| Outside
| Loading (tries : option Z)
| Exchanging (tries : option Z)
| Pausing (tries : Z)
| Yielding (tries : Z)
| Holding.

(** After a failed [try_lock]. *)
Definition failed (tries : option Z) : spin_pc := match tries with Some n => Pausing n | None => Outside end.
Definition again (tries : Z) : spin_pc := Loading (Some (u64 (tries + 1))).

(** One step of a thread inside [try_lock] or [lock], with the atomic boolean before and after.
    [compare_exchange_weak] may fail without a reason. *)
Definition spin_run (spurious locked : bool) (p : spin_pc) : bool * spin_pc :=
  match p with
  | Loading tries => (locked, if locked then failed tries else Exchanging tries)
  | Exchanging tries => if negb locked && negb spurious then (true, Holding) else (locked, failed tries)
  | Pausing tries => (locked, if 100 <? tries then Yielding tries else again tries)
  | Yielding tries => (locked, again tries)
  | Outside | Holding => (locked, p)
  end.

Record SpinMutex : Type := mkSpin { locked_ : bool; pcs : thread -> spin_pc }.
Definition SpinMutex_new : SpinMutex := mkSpin false (fun _ => Outside).
Definition busy (p : spin_pc) : bool := match p with Outside | Holding => false | _ => true end.

Definition called (m : SpinMutex) (t : thread) (p : spin_pc) : SpinMutex := mkSpin (locked_ m) (set_pc (pcs m) t p).
Definition ran (m : SpinMutex) (t : thread) (spurious : bool) : SpinMutex :=
  let '(l, p) := spin_run spurious (locked_ m) (pcs m t) in mkSpin l (set_pc (pcs m) t p).

(** [unlock] is called by the thread that has the lock. *)
Inductive spin_step : SpinMutex -> SpinMutex -> Prop :=
| step_try_lock m t : pcs m t = Outside -> spin_step m (called m t (Loading None))
| step_lock m t : pcs m t = Outside -> spin_step m (called m t (Loading (Some 0)))
| step_run m t spurious : busy (pcs m t) = true ->
    spin_step m (ran m t spurious)
| step_unlock m t : pcs m t = Holding -> spin_step m (mkSpin false (set_pc (pcs m) t Outside)).

Definition spin_inv (m : SpinMutex) : Prop :=
  (locked_ m = true -> exists t, pcs m t = Holding) /\ (forall t, pcs m t = Holding -> locked_ m = true) /\
  forall t1 t2, pcs m t1 = Holding -> pcs m t2 = Holding -> t1 = t2.

(** A thread that does not get the lock moves between places outside. *)
Lemma spin_inv_move m t p : spin_inv m -> pcs m t <> Holding -> p <> Holding -> spin_inv (mkSpin (locked_ m) (set_pc (pcs m) t p)).
Proof.
  intros (H1 & H2 & H3) Ht Hp.
  assert (forall t', set_pc (pcs m) t p t' = Holding <-> pcs m t' = Holding) as Hs.
  { intros t'. destruct (decide (t' = t)) as [->|Hn]; [rewrite set_pc_eq; by split|by rewrite set_pc_ne]. }
  split_and!; simpl.
  - intros [t' Ht']%H1. exists t'. by apply Hs.
  - intros t' Ht'%Hs. by apply (H2 t').
  - intros t1 t2 Ht1%Hs Ht2%Hs. by apply H3.
Qed.

Lemma spin_step_inv m m' : spin_step m m' -> spin_inv m -> spin_inv m'.
Proof.
  intros Hs Hi. destruct Hs as [m t Ht|m t Ht|m t sp Hb|m t Ht].
  - apply spin_inv_move; [done|by rewrite Ht|done].
  - apply spin_inv_move; [done|by rewrite Ht|done].
  - assert (pcs m t <> Holding) as Hn by (by destruct (pcs m t)).
    assert ((spin_run sp (locked_ m) (pcs m t)).2 <> Holding /\ (spin_run sp (locked_ m) (pcs m t)).1 = locked_ m \/
      locked_ m = false /\ spin_run sp (locked_ m) (pcs m t) = (true, Holding)) as [[Hr Hr1]|[Hl Hr]].
    { destruct (pcs m t) as [|tries|tries|n|n|]; try done; simpl.
      - left. destruct (locked_ m); simpl; [destruct tries|]; done.
      - destruct (locked_ m); simpl; [left; destruct tries; done|]. destruct sp; simpl; [left; destruct tries; done|by right].
      - left. by destruct (100 <? n).
      - by left. }
    + unfold ran. destruct (spin_run sp (locked_ m) (pcs m t)) as [l p]. simpl in *. subst l. by apply spin_inv_move.
    + unfold ran. rewrite Hr. destruct Hi as (H1 & H2 & H3). assert (forall t', pcs m t' <> Holding) as Hno by (intros t' Ht'; rewrite (H2 t' Ht') in Hl; discriminate).
      split_and!; simpl; [intros _; exists t; apply set_pc_eq|done|]. intros t1 t2 Ht1 Ht2.
      destruct (decide (t1 = t)) as [->|]; [|rewrite set_pc_ne in Ht1 by done; by destruct (Hno t1)].
      destruct (decide (t2 = t)) as [->|]; [done|rewrite set_pc_ne in Ht2 by done; by destruct (Hno t2)].
  - destruct Hi as (H1 & H2 & H3). assert (forall t', set_pc (pcs m) t Outside t' <> Holding) as Hno.
    { intros t'. destruct (decide (t' = t)) as [->|Hn]; [by rewrite set_pc_eq|]. rewrite set_pc_ne by done. intros Ht'. by apply Hn, H3. }
    split_and!; simpl; [done|intros t1 Ht1; by destruct (Hno t1)|intros t1 t2 Ht1; by destruct (Hno t1)].
Qed.

Lemma spin_reachable_inv m : rtc spin_step SpinMutex_new m -> spin_inv m.
Proof.
  intros Hr. assert (spin_inv SpinMutex_new) as Hi by (split_and!; simpl; [discriminate|discriminate|discriminate]).
  induction Hr as [|x y z Hxy _ IH]; [done|]. apply IH. by apply (spin_step_inv x).
Qed.

(** A thread alone, without failures of the exchange that have no reason. *)
Fixpoint alone (n : nat) (s : bool * spin_pc) : bool * spin_pc := match n with 0%nat => s | S n' => alone n' (spin_run false s.1 s.2) end.
End Spin.


(** Thread 1 has the lock, thread 2 has tried. *)
Definition contended : Spin.SpinMutex :=
  let m := Spin.called Spin.SpinMutex_new 1 (Spin.Loading (Some 0)) in
  let m := Spin.ran (Spin.ran m 1 false) 1 false in
  Spin.ran (Spin.called m 2 (Spin.Loading (Some 0))) 2 false.
Lemma contended_reachable : rtc Spin.spin_step Spin.SpinMutex_new contended.
Proof.
  eapply rtc_l; [by apply (Spin.step_lock _ 1)|]. eapply rtc_l; [by apply (Spin.step_run _ 1 false)|]. eapply rtc_l; [by apply (Spin.step_run _ 1 false)|].
  eapply rtc_l; [by apply (Spin.step_lock _ 2)|]. eapply rtc_l; [by apply (Spin.step_run _ 2 false)|]. apply rtc_refl.
Qed.

(** ** pthread results and times *)

Definition ETIMEDOUT : Z := 110.
(** An error other than a timeout ends the process, here like a failed assertion. *)
Definition PthreadCall (result : Z) : outcome Z :=
  if negb (result =? 0) && negb (result =? ETIMEDOUT) then AssertFail else Ret result.

(** The [timespec] of [TimedWait]: seconds and nanoseconds; it returns whether the time is over. *)
Definition timespec_of (abs_time_us : Z) : Z * Z := (swrap 64 (abs_time_us / 1000000), swrap 64 (u64 (abs_time_us mod 1000000 * 1000))).
Definition TimedWait_result (err : Z) : outcome bool :=
  if err =? ETIMEDOUT then Ret true
  else if negb (err =? 0) then _ ← PthreadCall err; Ret false
  else Ret false.
(** The upper bits of [ebx], which starts with 0 and is set when [cpuid] knows the leaf. *)
Definition PhysicalCoreID (ebx : option Z) : Z := Z.shiftr (default 0 ebx) 24.
(** [pthread_once]: the first call with [once] runs the initializer. *)
Definition InitOnce {A} (initializer : A -> A) (once : bool) (a : A) : bool * A := (true, if once then a else initializer a).
(** The limit of open files from [getrlimit]: its result and [rlim_cur]. *)
Definition GetMaxOpenFiles (result rlim_cur : Z) : Z :=
  if negb (result =? 0) then -1 else if 2 ^ 31 - 1 <=? rlim_cur then 2 ^ 31 - 1 else swrap 32 rlim_cur.

Lemma timespec_range us : 0 <= us < 2 ^ 64 -> 0 <= (timespec_of us).1 /\ 0 <= (timespec_of us).2 < 1000000000 /\
  (timespec_of us).1 * 1000000000 + (timespec_of us).2 = us * 1000.
Proof.
  intros Hu. change (2 ^ 64) with 18446744073709551616 in Hu. unfold timespec_of, swrap. simpl fst. simpl snd.
  rewrite (u64_small (us mod 1000000 * 1000)) by dlia. change (2 ^ (64 - 1)) with 9223372036854775808. change (2 ^ 64) with 18446744073709551616.
  rewrite !Z.mod_small by dlia. split; [dlia|]. split; dlia.
Qed.

Lemma GetMaxOpenFiles_range r n : 0 <= n -> -1 <= GetMaxOpenFiles r n <= 2 ^ 31 - 1 /\ (GetMaxOpenFiles r n = -1 <-> r <> 0).
Proof.
  intros Hn. unfold GetMaxOpenFiles. destruct (Z.eqb_spec r 0); cbn [negb]; [|lia].
  destruct (Z.leb_spec (2 ^ 31 - 1) n); [lia|]. unfold swrap. change (2 ^ 31) with 2147483648 in *. change (2 ^ (32 - 1)) with 2147483648.
  change (2 ^ 32) with 4294967296. rewrite Z.mod_small by lia. lia.
Qed.

Module Mutex.
(** ** [Mutex] and [CondVar] *)

(** Where a thread is: [Acquired] and [Woken] have the pthread mutex and have not set the flag
    yet, [Unlocking] and [Waiting_call] have taken the flag back and still have the mutex;
    [Locking], [Waiting] and [Signalled] are blocked, the second on the condition variable and the others on
    the mutex. *)
Inductive mutex_pc : Type := Outside | Locking | Acquired | Inside | Unlocking | Waiting_call | Waiting | Signalled | Woken.
Definition pc_eq_dec : EqDecision mutex_pc.
Proof. solve_decision. Defined.
#[export] Existing Instance pc_eq_dec.

(** The owner of the pthread mutex; [locked_], which the constructor leaves as it is in memory. *)
Record Mutex : Type := mkMutex { owner : option thread; locked_ : bool; pcs : thread -> mutex_pc }.
Definition Mutex_new (garbage : bool) : Mutex := mkMutex None garbage (fun _ => Outside).
Definition at_pc (m : Mutex) (t : thread) (own : option thread) (flag : bool) (p : mutex_pc) : Mutex := mkMutex own flag (set_pc (pcs m) t p).
Definition AssertHeld (m : Mutex) : outcome unit := if locked_ m then Ret tt else AssertFail.

(** [SignalAll]. *)
Definition wake_pc (p : mutex_pc) : mutex_pc := match p with Waiting => Signalled | _ => p end.
Definition SignalAll (m : Mutex) : Mutex := mkMutex (owner m) (locked_ m) (fun t => wake_pc (pcs m t)).
(** [Signal], which wakes the thread [w] when one waits. *)
Definition Signal (w : thread) (m : Mutex) : Mutex := at_pc m w (owner m) (locked_ m) (wake_pc (pcs m w)).

(** [Lock], [Unlock], [Wait] and [TimedWait], [Signal] and [SignalAll], which any thread may call at any time. A thread that
    waits may wake up without a signal. *)
Inductive mutex_step : Mutex -> Mutex -> Prop :=
| lock_call m t : pcs m t = Outside -> mutex_step m (at_pc m t (owner m) (locked_ m) Locking)
| lock_acquire m t : pcs m t = Locking -> owner m = None -> mutex_step m (at_pc m t (Some t) (locked_ m) Acquired)
| lock_flag m t : pcs m t = Acquired -> mutex_step m (at_pc m t (owner m) true Inside)
| unlock_flag m t : pcs m t = Inside -> mutex_step m (at_pc m t (owner m) false Unlocking)
| unlock_release m t : pcs m t = Unlocking -> mutex_step m (at_pc m t None (locked_ m) Outside)
| wait_flag m t : pcs m t = Inside -> mutex_step m (at_pc m t (owner m) false Waiting_call)
| wait_release m t : pcs m t = Waiting_call -> mutex_step m (at_pc m t None (locked_ m) Waiting)
| wait_spurious m t : pcs m t = Waiting -> mutex_step m (at_pc m t (owner m) (locked_ m) Signalled)
| wait_signal m w : pcs m w = Waiting -> mutex_step m (Signal w m)
| wait_signal_all m : mutex_step m (SignalAll m)
| wait_wake m t : pcs m t = Signalled -> owner m = None -> mutex_step m (at_pc m t (Some t) (locked_ m) Woken)
| wait_return m t : pcs m t = Woken -> mutex_step m (at_pc m t (owner m) true Inside).

Definition has_mutex (p : mutex_pc) : bool := match p with Outside | Locking | Waiting | Signalled => false | _ => true end.
Definition mutex_inv (m : Mutex) : Prop :=
  (forall t, has_mutex (pcs m t) = true <-> owner m = Some t) /\ (forall t, pcs m t = Inside -> locked_ m = true).

(** The step of a thread [t] from [p] keeps the invariant when it takes or gives back the mutex
    as its place says, and is inside only with the flag set. *)
Lemma mutex_inv_at m t own flag p : mutex_inv m ->
  (if has_mutex p then own = Some t /\ (owner m = Some t \/ owner m = None) else own = owner m /\ owner m <> Some t \/ own = None /\ owner m = Some t) ->
  (p = Inside -> flag = true) -> (has_mutex p = true \/ flag = locked_ m) -> mutex_inv (at_pc m t own flag p).
Proof.
  intros [Ho Hf] Hown Hin Hflag. split; simpl.
  - intros t'. destruct (decide (t' = t)) as [->|Hn]; [rewrite set_pc_eq|rewrite set_pc_ne by done; rewrite Ho].
    + destruct (has_mutex p); [naive_solver|]. split; [done|]. destruct Hown as [[-> Hne]|[-> _]]; [by intros ?|done].
    + destruct (has_mutex p); [destruct Hown as [-> [E|E]]; rewrite E; naive_solver congruence|].
      destruct Hown as [[-> _]|[-> E]]; [done|]. rewrite E. naive_solver congruence.
  - intros t'. destruct (decide (t' = t)) as [->|Hn]; [by rewrite set_pc_eq|]. rewrite set_pc_ne by done. intros Ht'.
    destruct Hflag as [Hp| ->]; [|by apply (Hf t')]. exfalso.
    assert (owner m = Some t') as E by (apply Ho; by rewrite Ht'). rewrite Hp in Hown. destruct Hown as [_ [E2|E2]]; congruence.
Qed.

Lemma SignalAll_inv m : mutex_inv m -> mutex_inv (SignalAll m).
Proof.
  intros [Ho Hf]. split; simpl; intros t; [rewrite <- Ho|intros Ht; apply (Hf t)]; by destruct (pcs m t).
Qed.

Lemma mutex_step_inv m m' : mutex_step m m' -> mutex_inv m -> mutex_inv m'.
Proof.
  intros Hs Hi. pose proof Hi as [Ho Hf].
  destruct Hs as [m t Ht|m t Ht Hn|m t Ht|m t Ht|m t Ht|m t Ht|m t Ht|m t Ht|m t Ht|m|m t Ht Hn|m t Ht]; [..|by apply SignalAll_inv|specialize (Ho t)|specialize (Ho t)];
    try specialize (Ho t); rewrite Ht in Ho; simpl in Ho; unfold Signal; rewrite ?Ht;
    apply mutex_inv_at; simpl; try done; try (by intuition congruence).
Qed.

Lemma mutex_reachable_inv garbage m : rtc mutex_step (Mutex_new garbage) m -> mutex_inv m.
Proof.
  intros Hr. assert (mutex_inv (Mutex_new garbage)) as Hi by (split; simpl; [intros t; split; discriminate|discriminate]).
  induction Hr as [|x y z Hxy _ IH]; [done|]. apply IH. by apply (mutex_step_inv x).
Qed.
End Mutex.

(** [Mutex] and [CondVar] keep their promises. In every state that threads can reach with [Lock],
    [Unlock] and the two waits, whatever [locked_] was in the beginning, at most one thread is
    between a [Lock] that has returned and its [Unlock], outside of a wait, and there
    [AssertHeld] does not fail. It is not about the thread that calls it: it does not fail for
    another one at that time either. *)
Theorem mutex_assert_held garbage m : rtc Mutex.mutex_step (Mutex.Mutex_new garbage) m ->
  (forall t1 t2, Mutex.pcs m t1 = Mutex.Inside -> Mutex.pcs m t2 = Mutex.Inside -> t1 = t2) /\
  (forall t, Mutex.pcs m t = Mutex.Inside -> Mutex.AssertHeld m = Ret tt) /\
  (forall t, Mutex.pcs m t = Mutex.Inside -> Mutex.owner m = Some t).
Proof.
  intros Hr. destruct (Mutex.mutex_reachable_inv garbage m Hr) as [Ho Hf].
  assert (forall t, Mutex.pcs m t = Mutex.Inside -> Mutex.owner m = Some t) as Hin by (intros t Ht; apply Ho; by rewrite Ht).
  split; [|split; [|done]].
  - intros t1 t2 H1%Hin H2%Hin. congruence.
  - intros t Ht. unfold Mutex.AssertHeld. by rewrite (Hf t Ht).
Qed.

(** A signal reaches the threads that wait: [SignalAll] all of them and [Signal] one. A thread that has
    been signalled returns from [Wait] in two steps when the mutex is free, inside, and no other thread
    moves for that. *)
Lemma condvar_wakes m t :
  Mutex.pcs (Mutex.SignalAll m) t <> Mutex.Waiting /\
  (Mutex.pcs m t = Mutex.Waiting -> Mutex.pcs (Mutex.SignalAll m) t = Mutex.Signalled /\ Mutex.pcs (Mutex.Signal t m) t = Mutex.Signalled) /\
  (Mutex.pcs m t = Mutex.Signalled -> Mutex.owner m = None ->
    exists m2, rtc Mutex.mutex_step m m2 /\ Mutex.pcs m2 t = Mutex.Inside /\ Mutex.AssertHeld m2 = Ret tt /\
      forall t', t' <> t -> Mutex.pcs m2 t' = Mutex.pcs m t').
Proof.
  split; [|split].
  - simpl. by destruct (Mutex.pcs m t).
  - intros E. simpl. rewrite set_pc_eq, E. done.
  - intros E Ho. eexists. split.
    { eapply rtc_l; [by apply (Mutex.wait_wake m t)|]. eapply rtc_l; [apply (Mutex.wait_return _ t); apply set_pc_eq|apply rtc_refl]. }
    simpl. split; [apply set_pc_eq|]. split; [done|]. intros t' Hn. by rewrite !set_pc_ne.
Qed.

(** Thread 1 waits on the condition variable, thread 2 is inside. *)
Definition waiting : Mutex.Mutex :=
  let f := set_pc (set_pc (set_pc (set_pc (set_pc (fun _ => Mutex.Outside) 1 Mutex.Locking) 1 Mutex.Acquired) 1 Mutex.Inside) 1 Mutex.Waiting_call) 1 Mutex.Waiting in
  Mutex.mkMutex (Some 2) true (set_pc (set_pc (set_pc f 2 Mutex.Locking) 2 Mutex.Acquired) 2 Mutex.Inside).
Lemma waiting_reachable : rtc Mutex.mutex_step (Mutex.Mutex_new true) waiting.
Proof.
  eapply rtc_l; [by apply (Mutex.lock_call _ 1)|]. eapply rtc_l; [by apply (Mutex.lock_acquire _ 1)|]. eapply rtc_l; [by apply (Mutex.lock_flag _ 1)|].
  eapply rtc_l; [by apply (Mutex.wait_flag _ 1)|]. eapply rtc_l; [by apply (Mutex.wait_release _ 1)|].
  eapply rtc_l; [by apply (Mutex.lock_call _ 2)|]. eapply rtc_l; [by apply (Mutex.lock_acquire _ 2)|]. eapply rtc_l; [by apply (Mutex.lock_flag _ 2)|].
  apply rtc_refl.
Qed.
Lemma mutex_assert_held_witness : Mutex.pcs waiting 1 = Mutex.Waiting /\ Mutex.pcs waiting 2 = Mutex.Inside /\ Mutex.AssertHeld waiting = Ret tt.
Proof.
  destruct (mutex_assert_held true waiting waiting_reachable) as (_ & Hh & _). split; [reflexivity|]. split; [reflexivity|]. exact (Hh 2 eq_refl).
Defined.

Module RWMutex.
(** ** [RWMutex] *)

(** The threads that read and the one that writes. *)
Record RWMutex : Type := mkRW { readers : list thread; writer : option thread }.
Definition RWMutex_new : RWMutex := mkRW [] None.
(** The calls do not return before they can: then they give the new state. Both unlocks are the
    same call, on the lock that the thread has. *)
Definition ReadLock (m : RWMutex) (t : thread) : option RWMutex := match writer m with None => Some (mkRW (t :: readers m) None) | Some _ => None end.
Definition WriteLock (m : RWMutex) (t : thread) : option RWMutex := match writer m, readers m with None, [] => Some (mkRW [] (Some t)) | _, _ => None end.
Definition rw_unlock (m : RWMutex) (t : thread) : RWMutex :=
  match writer m with
  | Some t' => if decide (t' = t) then mkRW (readers m) None else m
  | None => match list_find (fun x => x = t) (readers m) with Some (i, _) => mkRW (delete i (readers m)) None | None => m end
  end.
Definition ReadUnlock := rw_unlock.
Definition WriteUnlock := rw_unlock.
Definition rw_AssertHeld (m : RWMutex) : outcome unit := Ret tt.

Inductive rw_step : RWMutex -> RWMutex -> Prop :=
| step_read m t m' : ReadLock m t = Some m' -> rw_step m m'
| step_write m t m' : WriteLock m t = Some m' -> rw_step m m'
| step_unlock m t : rw_step m (rw_unlock m t).

(** Readers and a writer exclude each other. *)
Lemma exclusive m : rtc rw_step RWMutex_new m -> writer m = None \/ readers m = [].
Proof.
  intros Hr. assert (writer RWMutex_new = None \/ readers RWMutex_new = []) as Hi by by left.
  induction Hr as [|x y z Hxy _ IH]; [done|]. apply IH. destruct Hxy as [m t m' E|m t m' E|m t].
  - unfold ReadLock in E. destruct (writer m); [done|]. injection E as <-. by left.
  - unfold WriteLock in E. destruct (writer m), (readers m); try done. injection E as <-. by right.
  - unfold rw_unlock. destruct (writer m) as [t'|] eqn:Ew; [destruct (decide (t' = t)); [by left|]; rewrite Ew; by destruct Hi; [|right]|].
    left. by destruct (list_find _ _) as [[]|].
Qed.
End RWMutex.

(** ** Scopes *)

(** [MutexLock], [ReadLock], [WriteLock] and [ReadUnlock]: what their constructors and destructors
    do to the lock, as labels of the steps above. *)
Inductive call : Type := LockCall | UnlockCall | ReadLockCall | ReadUnlockCall | WriteLockCall | WriteUnlockCall | AssertHeldCall.
Definition MutexLock_scope (body : list call) : list call := LockCall :: body ++ [UnlockCall].
Definition ReadLock_scope (body : list call) : list call := ReadLockCall :: body ++ [ReadUnlockCall].
Definition WriteLock_scope (body : list call) : list call := WriteLockCall :: body ++ [WriteUnlockCall].
Definition ReadUnlock_scope (body : list call) : list call := AssertHeldCall :: body ++ [ReadUnlockCall].
