(* ===== verification/Env.v ===== *)
(** * Env ([include/rocksutil/env.h], [rutil/env.cc])

    The interface of the environment as a class over the state of the system, the options of
    files, the functions of env.cc that use the interface, and the logging functions. *)

From Stdlib Require Import Strings.Byte Strings.String.
From stdpp Require Import list.
From S2P Require Import Prelude.
From S2P Require Import Slice.
From S2P Require Import Coding.
From S2P Require Import Status.
From S2P Require Import IoPosix.

(** ** Options *)

Record EnvOptions : Type := mkEnvOptions {
  opt_use_os_buffer : bool;
  opt_use_mmap_reads : bool;
  opt_use_mmap_writes : bool;
  opt_use_direct_reads : bool;
  opt_use_direct_writes : bool;
  opt_allow_fallocate : bool;
  opt_set_fd_cloexec : bool;
  opt_bytes_per_sync : Z;
  opt_fallocate_with_keep_size : bool;
  opt_writable_file_max_buffer_size : Z;
}.
Definition EnvOptions_new : EnvOptions := mkEnvOptions true false true false false true true 0 true (1024 * 1024).
(** A copy with [use_mmap_writes] (and [fallocate_with_keep_size]) replaced. *)
Definition with_mmap_writes (o : EnvOptions) (mmap keep : bool) : EnvOptions :=
  mkEnvOptions (opt_use_os_buffer o) (opt_use_mmap_reads o) mmap (opt_use_direct_reads o) (opt_use_direct_writes o)
    (opt_allow_fallocate o) (opt_set_fd_cloexec o) (opt_bytes_per_sync o) keep (opt_writable_file_max_buffer_size o).
Definition Env_OptimizeForLogWrite (o : EnvOptions) : EnvOptions := o.
Definition Env_OptimizeForManifestWrite (o : EnvOptions) : EnvOptions := o.

(** ** Loggers *)

Inductive InfoLogLevel : Set := DEBUG_LEVEL | INFO_LEVEL | WARN_LEVEL | ERROR_LEVEL | FATAL_LEVEL | HEADER_LEVEL.
Definition level_num (l : InfoLogLevel) : Z :=
  match l with DEBUG_LEVEL => 0 | INFO_LEVEL => 1 | WARN_LEVEL => 2 | ERROR_LEVEL => 3 | FATAL_LEVEL => 4 | HEADER_LEVEL => 5 end.
#[export] Instance InfoLogLevel_eq_dec : EqDecision InfoLogLevel.
Proof. solve_decision. Defined.

(** [va_list], and the text that [vsnprintf] makes of a format and its arguments;
    [va_string] is the list of one string. *)
Class Printf := { va_list : Type; vformat : Slice -> va_list -> Slice; va_string : Slice -> va_list }.

(** The virtual methods of [Logger]; [l_Logv2] is the one with two arguments. *)
Class Logger (O L : Type) `{Printf} := {
  l_GetInfoLogLevel : L -> O -> InfoLogLevel;
  l_Logv2 : L -> Slice -> va_list -> O -> outcome (unit * O);
  l_Logv : L -> InfoLogLevel -> Slice -> va_list -> O -> outcome (unit * O);
  l_LogHeader : L -> Slice -> va_list -> O -> outcome (unit * O);
  l_Flush : L -> O -> outcome (unit * O);
  l_SetInfoLogLevel : L -> InfoLogLevel -> O -> outcome (unit * O);
  l_GetLogFileSize : L -> O -> Z;
}.

Section Logging.
Context {O L : Type} `{Logger O L}.

Definition kInfoLogLevelNames : list Slice := [str "DEBUG"; str "INFO"; str "WARN"; str "ERROR"; str "FATAL"].
Definition kDoNotSupportGetLogFileSize : Z := 2 ^ 64 - 1.

(** [Logger::Logv] with a level, of the base class; behind the names is undefined. *)
Definition Logger_Logv (l : L) (log_level : InfoLogLevel) (format : Slice) (ap : va_list) : IO (O := O) unit := fun o =>
  if level_num log_level <? level_num (l_GetInfoLogLevel l o) then Ret (tt, o)
  else if bool_decide (log_level = INFO_LEVEL) then l_Logv2 l format ap o
  else
    match kInfoLogLevelNames !! Z.to_nat (level_num log_level) with
    | Some name => l_Logv2 l (ztake 498 (str "[" ++ name ++ str "] " ++ format)) ap o
    | None => Undef
    end.
Definition Logger_LogHeader (l : L) (format : Slice) (ap : va_list) : IO (O := O) unit := l_Logv2 l format ap.
Definition Logger_GetLogFileSize : Z := kDoNotSupportGetLogFileSize.

(** [info_log && info_log->GetInfoLogLevel() <= level] of the functions with a pointer. *)
Definition enabled (info_log : option L) (level : InfoLogLevel) (o : O) : option L :=
  match info_log with
  | Some l => if level_num (l_GetInfoLogLevel l o) <=? level_num level then Some l else None
  | None => None
  end.
Definition log_at (level : InfoLogLevel) (info_log : option L) (format : Slice) (ap : va_list) : IO (O := O) unit := fun o =>
  match enabled info_log level o with Some l => l_Logv l level format ap o | None => Ret (tt, o) end.

Definition LogFlush (info_log : option L) : IO (O := O) unit := fun o =>
  match info_log with Some l => l_Flush l o | None => Ret (tt, o) end.
Definition Log_info (info_log : option L) (format : Slice) (ap : va_list) : IO (O := O) unit := log_at INFO_LEVEL info_log format ap.
Definition Log (log_level : InfoLogLevel) (info_log : option L) (format : Slice) (ap : va_list) : IO (O := O) unit := fun o =>
  match enabled info_log log_level o with
  | Some l => if bool_decide (log_level = HEADER_LEVEL) then l_LogHeader l format ap o else l_Logv l log_level format ap o
  | None => Ret (tt, o)
  end.
Definition Header (info_log : option L) (format : Slice) (ap : va_list) : IO (O := O) unit := fun o =>
  match info_log with Some l => l_LogHeader l format ap o | None => Ret (tt, o) end.
Definition Debug_log := log_at DEBUG_LEVEL.
Definition Info_log := log_at INFO_LEVEL.
Definition Warn_log := log_at WARN_LEVEL.
Definition Error_log := log_at ERROR_LEVEL.
Definition Fatal_log := log_at FATAL_LEVEL.

(** The functions with a [shared_ptr], which do not look at the level. *)
Definition shared_at (level : InfoLogLevel) (info_log : option L) (format : Slice) (ap : va_list) : IO (O := O) unit := fun o =>
  match info_log with Some l => l_Logv l level format ap o | None => Ret (tt, o) end.
Definition shared_Log (log_level : InfoLogLevel) := shared_at log_level.
Definition shared_Header := Header.
Definition shared_Debug := shared_at DEBUG_LEVEL.
Definition shared_Info := shared_at INFO_LEVEL.
Definition shared_Warn := shared_at WARN_LEVEL.
Definition shared_Error := shared_at ERROR_LEVEL.
Definition shared_Fatal := shared_at FATAL_LEVEL.
Definition shared_Log_info := shared_at INFO_LEVEL.
End Logging.

(** ** The interface *)

(** The methods of [Env], of its files and of its loggers that the code of this library
    calls, as programs on the state [E] of the environment and the system. *)
Class Env (E : Type) := {
  wfile : Type;
  sfile : Type;
  logger : Type;
  NewWritableFile : Slice -> EnvOptions -> IO (O := E) (Status * option wfile);
  NewSequentialFile : Slice -> EnvOptions -> IO (O := E) (Status * option sfile);
  NewLogger : Slice -> Z -> IO (O := E) (Status * option logger);
  FileExists : Slice -> IO (O := E) Status;
  GetChildren : Slice -> IO (O := E) (Status * list Slice);
  GetFileSize_of : Slice -> IO (O := E) (Status * Z);
  DeleteFile : Slice -> IO (O := E) Status;
  RenameFile : Slice -> Slice -> IO (O := E) Status;
  CreateDirIfMissing : Slice -> IO (O := E) Status;
  NowMicros : IO (O := E) Z;
  w_Append : wfile -> Slice -> IO (O := E) Status;
  w_Sync : wfile -> IO (O := E) Status;
  w_delete : wfile -> IO (O := E) unit;
  s_Read : sfile -> Z -> IO (O := E) (Status * Slice);
  s_delete : sfile -> IO (O := E) unit;
}.

(** The other methods, of the file system, the clock and the host. What [GetHostName] writes and
    the path that [GetAbsolutePath] finds come with the status. *)
Class EnvSystem (E : Type) `{Env E} := {
  rfile : Type;
  rwfile : Type;
  directory : Type;
  file_lock : Type;
  NewRandomAccessFile : Slice -> EnvOptions -> IO (O := E) (Status * option rfile);
  ReuseWritableFile : Slice -> Slice -> EnvOptions -> IO (O := E) (Status * option wfile);
  NewRandomRWFile : Slice -> EnvOptions -> IO (O := E) (Status * option rwfile);
  NewDirectory : Slice -> IO (O := E) (Status * option directory);
  ChildrenFileAttributes : Slice -> IO (O := E) (Status * list (Slice * Z));
  CreateDir : Slice -> IO (O := E) Status;
  DeleteDir : Slice -> IO (O := E) Status;
  GetFileModificationTime : Slice -> IO (O := E) (Status * Z);
  LinkFile : Slice -> Slice -> IO (O := E) Status;
  LockFile : Slice -> IO (O := E) (Status * option file_lock);
  UnlockFile : file_lock -> IO (O := E) Status;
  GetTestDirectory : IO (O := E) (Status * Slice);
  NowNanos : IO (O := E) Z;
  SleepForMicroseconds : Z -> IO (O := E) unit;
  GetHostName : Z -> IO (O := E) (Status * Slice);
  GetCurrentTime : IO (O := E) (Status * Z);
  GetAbsolutePath : Slice -> IO (O := E) (Status * Slice);
  TimeToString : Z -> Slice;
  OptimizeForLogWrite : EnvOptions -> EnvOptions;
  OptimizeForManifestWrite : EnvOptions -> EnvOptions;
}.

Section Env.
Context `{Host} {E : Type} `{Env E}.

(** [NotSupported] of the base class. *)
Definition Env_NewRandomRWFile : Status := error kNotSupported kNone (str "RandomRWFile is not implemented in this Env") [].
Definition Env_LinkFile : Status := error kNotSupported kNone (str "LinkFile is not supported for this Env") [].
Definition Env_NowNanos : IO (O := E) Z := now ← NowMicros; mret (u64 (now * 1000)).

Definition Env_ReuseWritableFile (fname old_fname : Slice) (options : EnvOptions) : IO (O := E) (Status * option wfile) :=
  s ← RenameFile old_fname fname;
  if negb (ok s) then mret (s, None) else NewWritableFile fname options.

(** The loop of [GetChildrenFileAttributes]; [result] are the entries that are kept. When it
    fails the vector of the source has as many entries more as there are children left. *)
Fixpoint attributes_loop (dir : Slice) (child_fnames : list Slice) (result : list (Slice * Z)) : IO (O := E) (Status * list (Slice * Z)) :=
  match child_fnames with
  | [] => mret (OK, result)
  | child :: rest =>
      let path := dir ++ str "/" ++ child in
      '(s, size_bytes) ← GetFileSize_of path;
      if negb (ok s) then
        e ← FileExists path;
        if IsNotFound e then attributes_loop dir rest result else mret (s, result)
      else attributes_loop dir rest (result ++ [(child, size_bytes)])
  end.
Definition GetChildrenFileAttributes (dir : Slice) : IO (O := E) (Status * list (Slice * Z)) :=
  '(s, child_fnames) ← GetChildren dir;
  if negb (ok s) then mret (s, []) else attributes_loop dir child_fnames [].

(** A [unique_ptr] at the end of its scope. *)
Definition drop_w (file : option wfile) : IO (O := E) unit := match file with Some f => w_delete f | None => mret tt end.
Definition drop_s (file : option sfile) : IO (O := E) unit := match file with Some f => s_delete f | None => mret tt end.

Definition WriteStringToFile (data fname : Slice) (should_sync : bool) : IO (O := E) Status :=
  '(s, file) ← NewWritableFile fname EnvOptions_new;
  if negb (ok s) then _ ← drop_w file; mret s
  else
    match file with
    | None => io_undef
    | Some f =>
        s ← w_Append f data;
        s ← (if ok s && should_sync then w_Sync f else mret s);
        _ ← (if negb (ok s) then DeleteFile fname else mret s);
        _ ← w_delete f;
        mret s
    end.

Definition kBufferSize : Z := 8192.
Fixpoint read_loop (fuel : nat) (file : sfile) (data : list byte) : IO (O := E) (Status * list byte) :=
  match fuel with
  | 0%nat => io_nofuel
  | S fuel' =>
      '(s, fragment) ← s_Read file kBufferSize;
      if negb (ok s) then mret (s, data)
      else
        let data := data ++ fragment in
        if zlen fragment =? 0 then mret (s, data) else read_loop fuel' file data
  end.
Definition ReadFileToString (fuel : nat) (fname : Slice) : IO (O := E) (Status * list byte) :=
  '(s, file) ← NewSequentialFile fname EnvOptions_new;
  if negb (ok s) then _ ← drop_s file; mret (s, [])
  else
    match file with
    | None => io_undef
    | Some f =>
        r ← read_loop fuel f [];
        _ ← s_delete f;
        mret r
    end.
End Env.
