(* ===== verification/EnvTheorems.v ===== *)
(** * EnvTheorems: the functions of env.cc

    What an environment promises about its files, as a class of laws; a string written to a
    file and read back; the attributes of the children; and the two families of logging
    functions. *)

From Stdlib Require Import Strings.Byte Strings.String.
From stdpp Require Import list.
From S2P Require Import Prelude.
From S2P Require Import Slice.
From S2P Require Import Coding.
From S2P Require Import Status.
From S2P Require Import FileApi.
From S2P Require Import IoPosix.
From S2P Require Import IoPosixTheorems.
From S2P Require Import IoPosixMmap.
From S2P Require Import Env.

(** ** What an environment promises *)

(** [file_of e f] are the bytes of the file called [f]. [writes e w f c] says that the open file
    [w] has been given the bytes [c] for the file [f], [opens e w f] that it can change no file
    but [f], [reads] what an open file reads, with its position; [env_ok] says that the
    environment is in order. A destructor of a file may leave zeros behind its bytes, unless the
    environment [trims]. Every call may fail, and then only the file that it is about may have
    changed. *)
Definition same_but {E} (file_of : E -> Slice -> option (list byte)) (f : Slice) (e e' : E) : Prop :=
  forall g, g <> f -> file_of e' g = file_of e g.

Class EnvFiles (E : Type) `{Env E} := {
  file_of : E -> Slice -> option (list byte);
  env_ok : E -> Prop;
  trims : E -> Prop;
  opens : E -> wfile -> Slice -> Prop;
  writes : E -> wfile -> Slice -> list byte -> Prop;
  reads : E -> sfile -> Slice -> Z -> Prop;
  writes_opens : forall e w f c, writes e w f c -> opens e w f;
  new_writable_law : forall f e, env_ok e -> exists s r e', NewWritableFile f EnvOptions_new e = Ret (s, r, e') /\ env_ok e' /\
    (trims e -> trims e') /\ same_but file_of f e e' /\ if ok s then exists w, r = Some w /\ writes e' w f [] else r = None;
  append_law : forall w f d c e, env_ok e -> writes e w f c -> zlen c + zlen d < 2 ^ 62 -> exists s e', w_Append w d e = Ret (s, e') /\
    env_ok e' /\ (trims e -> trims e') /\ same_but file_of f e e' /\ opens e' w f /\ (ok s = true -> writes e' w f (c ++ d));
  sync_law : forall w f c e, env_ok e -> writes e w f c -> exists s e', w_Sync w e = Ret (s, e') /\
    env_ok e' /\ (trims e -> trims e') /\ same_but file_of f e e' /\ writes e' w f c;
  delete_law : forall f e, env_ok e -> exists s e', DeleteFile f e = Ret (s, e') /\ env_ok e' /\ same_but file_of f e e' /\
    (forall w g, opens e w g -> opens e' w g) /\ (ok s = true -> file_of e' f = None);
  drop_law : forall w f e, env_ok e -> opens e w f -> exists e', w_delete w e = Ret (tt, e') /\ env_ok e' /\ same_but file_of f e e' /\
    forall c, writes e w f c -> exists c', file_of e' f = Some c' /\ padded c' c /\ (trims e -> c' = c);
  new_sequential_law : forall f e, env_ok e -> exists s r e', NewSequentialFile f EnvOptions_new e = Ret (s, r, e') /\ env_ok e' /\
    (forall g, file_of e' g = file_of e g) /\ (ok s = true -> exists h, r = Some h /\ reads e' h f 0);
  read_law : forall h f pos c n e, env_ok e -> reads e h f pos -> file_of e f = Some c -> 0 < n -> 0 <= pos ->
    exists s d e', s_Read h n e = Ret (s, d, e') /\ env_ok e' /\ (forall g, file_of e' g = file_of e g) /\
    (ok s = true -> d = ztake n (zdrop pos c) /\ reads e' h f (pos + zlen d));
  s_close_law : forall h e, env_ok e -> exists e', s_delete h e = Ret (tt, e') /\ env_ok e' /\ forall g, file_of e' g = file_of e g;
}.

Section env.
Context `{Host} {E : Type} `{EnvFiles E}.

(** ** Strings in files *)

(** [Sync], when it is asked for, and then [DeleteFile] after an error. *)
Lemma finish_spec f w s c sync e : env_ok e -> opens e w f -> (ok s = true -> writes e w f c) -> exists s' a e', 
  (s ← (if ok s && sync then w_Sync w else mret s); a ← (if negb (ok s) then DeleteFile f else mret s); mret (s, a)) e = Ret (s', a, e') /\
  env_ok e' /\ same_but file_of f e e' /\ opens e' w f /\ (ok s' = true -> writes e' w f c /\ (trims e -> trims e')).
Proof.
  intros He Ho Hw.
  assert (exists s1 e1, (if ok s && sync then w_Sync w else mret s) e = Ret (s1, e1) /\ env_ok e1 /\ (trims e -> trims e1) /\ same_but file_of f e e1 /\
    opens e1 w f /\ (ok s1 = true -> writes e1 w f c)) as (s1 & e1 & E1 & He1 & Ht1 & Hs1 & Ho1 & Hw1).
  { destruct (ok s && sync) eqn:Eb; [|by exists s, e]. apply andb_true_iff in Eb as [Es _]. specialize (Hw Es).
    destruct (sync_law w f c e He Hw) as (s1 & e1 & E1 & He1 & Ht1 & Hs1 & Hw1). exists s1, e1. do 4 (split; [done|]). split; [by eapply writes_opens|done]. }
  rewrite (IO_bind_step _ _ _ _ _ E1). destruct (ok s1) eqn:Es; simpl negb; cbv iota.
  - rewrite (IO_bind_step _ _ s1 e1 e1) by done. exists s1, s1, e1. rewrite Es. auto 10.
  - destruct (delete_law f e1 He1) as (a & e2 & E2 & He2 & Hs2 & Ho2 & _). rewrite (IO_bind_step _ _ _ _ _ E2). exists s1, a, e2. split; [done|].
    split; [done|]. split; [intros g Hg; by rewrite Hs2, Hs1|]. split; [auto|congruence].
Qed.

Lemma WriteStringToFile_spec data f sync e : env_ok e -> zlen data < 2 ^ 62 -> exists s e', WriteStringToFile data f sync e = Ret (s, e') /\ env_ok e' /\
  same_but file_of f e e' /\ (ok s = true -> exists c, file_of e' f = Some c /\ padded c data /\ (trims e -> c = data)).
Proof.
  intros Hok0 Hlen. unfold WriteStringToFile. destruct (new_writable_law f e Hok0) as (s & r & e1 & E1 & Ho1 & Ht1 & Hf1 & Hr).
  rewrite (IO_bind_step _ _ (s, r) e e1) by exact E1. cbv beta iota. destruct (ok s) eqn:Es; cbn [negb].
  2: { subst r. rewrite (IO_bind_step _ _ tt e1 e1) by done. exists s, e1. rewrite Es. by do 3 (split; [done|]). }
  destruct Hr as (w & -> & Hw). destruct (append_law w f data [] e1 Ho1 Hw Hlen) as (s2 & e2 & E2 & Ho2 & Ht2 & Hf2 & Hop2 & Hc2).
  rewrite (IO_bind_step _ _ _ _ _ E2). simpl app in Hc2. destruct (finish_spec f w s2 data sync e2 Ho2 Hop2 Hc2) as (s3 & a & e3 & E3 & Ho3 & Hf3 & Hop3 & Hw3).
  unfold mbind, IO_bind in E3. destruct ((if ok s2 && sync then w_Sync w else mret s2) e2) as [[s4 e4]| | |] eqn:E4; try done.
  rewrite (IO_bind_step _ _ _ _ _ E4). destruct ((if negb (ok s4) then DeleteFile f else mret s4) e4) as [[a5 e5]| | |] eqn:E5; try done.
  injection E3 as -> -> ->. rewrite (IO_bind_step _ _ _ _ _ E5). destruct (drop_law w f e3 Ho3 Hop3) as (e6 & E6 & Ho6 & Hf6 & Hc6).
  rewrite (IO_bind_step _ _ _ _ _ E6). exists s3, e6. split; [done|]. split; [done|]. split; [intros g Hg; by rewrite Hf6, Hf3, Hf2, Hf1|].
  intros Hs. destruct (Hw3 Hs) as [Hw' Ht3]. destruct (Hc6 data Hw') as (c & Hc & Hp & Hx). exists c. by auto 10.
Qed.

Lemma read_loop_spec f c fuel : forall h pos data e, env_ok e -> reads e h f pos -> file_of e f = Some c -> data = ztake pos c -> 0 <= pos <= zlen c ->
  zlen c - pos <= kBufferSize * (Z.of_nat fuel - 1) ->
  exists s d e', read_loop fuel h data e = Ret (s, d, e') /\ env_ok e' /\ (forall g, file_of e' g = file_of e g) /\ (ok s = true -> d = c).
Proof.
  unfold kBufferSize. induction fuel as [|fuel IH]; intros h pos data e Hok0 Hr Hc Hd Hp Hf; [lia|]. cbn [read_loop].
  destruct (read_law h f pos c 8192 e Hok0 Hr Hc ltac:(lia) ltac:(lia)) as (s & d & e1 & E1 & Ho1 & Hf1 & Hok).
  rewrite (IO_bind_step _ _ (s, d) e e1) by exact E1. cbv beta iota. destruct (ok s) eqn:Es; cbn [negb].
  2: { exists s, data, e1. do 3 (split; [done|]). congruence. }
  destruct (Hok eq_refl) as [Hdd Hr1]. assert (zlen d = Z.min 8192 (zlen c - pos)) as Hl by (rewrite Hdd, zlen_ztake, zlen_zdrop; lia).
  destruct (Z.eqb_spec (zlen d) 0) as [Hz|Hz].
  - exists s, (data ++ d), e1. do 3 (split; [done|]). intros _. rewrite (zlen_zero d Hz), app_nil_r, Hd. apply ztake_ge. lia.
  - destruct (IH h (pos + zlen d) (data ++ d) e1) as (s2 & d2 & e2 & E2 & Ho2 & Hf2 & Hok2).
    + done.
    + done.
    + by rewrite Hf1.
    + rewrite Hd, Hdd at 1. rewrite ztake_zdrop_split by lia. f_equal. rewrite Hl. destruct (Z.le_gt_cases 8192 (zlen c - pos)).
      * by rewrite Z.min_l by lia.
      * rewrite Z.min_r by lia. rewrite !ztake_ge; [done| |]; rewrite zlen_zdrop; lia.
    + lia.
    + lia.
    + exists s2, d2, e2. split; [exact E2|]. split; [done|]. split; [|done]. intros g. by rewrite Hf2.
Qed.

Lemma ReadFileToString_spec fuel f c e : env_ok e -> file_of e f = Some c -> zlen c <= kBufferSize * (Z.of_nat fuel - 1) ->
  exists s d e', ReadFileToString fuel f e = Ret (s, d, e') /\ env_ok e' /\ (forall g, file_of e' g = file_of e g) /\ (ok s = true -> d = c).
Proof.
  intros Hok0 Hc Hf. unfold ReadFileToString. destruct (new_sequential_law f e Hok0) as (s & r & e1 & E1 & Ho1 & Hf1 & Hok).
  rewrite (IO_bind_step _ _ (s, r) e e1) by exact E1. cbv beta iota. destruct (ok s) eqn:Es; cbn [negb].
  - destruct (Hok eq_refl) as (h & -> & Hr). pose proof (zlen_nonneg c).
    destruct (read_loop_spec f c fuel h 0 [] e1 Ho1 Hr) as (s2 & d & e2 & E2 & Ho2 & Hf2 & Hok2); [by rewrite Hf1|by rewrite ztake_0|lia|lia|].
    rewrite (IO_bind_step _ _ _ _ _ E2). destruct (s_close_law h e2 Ho2) as (e3 & E3 & Ho3 & Hf3). rewrite (IO_bind_step _ _ _ _ _ E3).
    exists s2, d, e3. split; [done|]. split; [done|]. split; [|done]. intros g. by rewrite Hf3, Hf2.
  - assert (exists e2, drop_s r e1 = Ret (tt, e2) /\ env_ok e2 /\ forall g, file_of e2 g = file_of e1 g) as (e2 & E2 & Ho2 & Hf2).
    { destruct r as [h|]; simpl; [by apply s_close_law|by exists e1]. }
    rewrite (IO_bind_step _ _ _ _ _ E2). exists s, [], e2. split; [done|]. split; [done|]. split; [|congruence]. intros g. by rewrite Hf2.
Qed.
End env.
