(* ===== verification/AutoRoll.v ===== *)
(** * AutoRoll ([include/rocksutil/auto_roll_logger.h], [rutil/auto_roll_logger.cc])

    [AutoRollLogger]: an information log that is renamed and begun anew when it is too large
    or too old, over the interface of the environment. *)

From Stdlib Require Import Strings.Byte Strings.String.
From stdpp Require Import list pretty.
From S2P Require Import Prelude.
From S2P Require Import Slice.
From S2P Require Import Coding.
From S2P Require Import Status.
From S2P Require Import IoPosix.
From S2P Require Import Env.

(** ** [static_cast<uint64_t>(micros * 1e-6)] *)

(** The nearest number with 53 significant bits, to even when there are two. *)
Definition round53 (m : Z) : Z :=
  let k := Z.log2 m - 52 in
  if k <=? 0 then m
  else
    let q := m / 2 ^ k in
    let r := m mod 2 ^ k in
    let half := 2 ^ (k - 1) in
    (if (r <? half) || ((r =? half) && Z.even q) then q else q + 1) * 2 ^ k.
(** The [double] 1e-6 is this number over 2^72. *)
Definition double_1e_6 : Z := 4722366482869645.
Definition seconds_of (micros : Z) : Z := round53 (round53 micros * double_1e_6) / 2 ^ 72.

(** ** File names *)

Definition InfoLogFileName (log_path : Slice) : Slice := log_path ++ str "/LOG".
Definition OldInfoLogFileName (log_path : Slice) (ts : Z) : Slice := log_path ++ str "/LOG.old." ++ str (pretty (Z.to_N ts)).

(** A C string ends at its first 0. *)
Fixpoint c_string (l : list byte) : list byte :=
  match l with b :: l' => if bool_decide (b = x00) then [] else b :: c_string l' | [] => [] end.

Section AutoRoll.
Context `{Host} {E : Type} `{Env E} `{!Printf} `{!Logger E logger}.

Record AutoRollLogger : Type := mkAutoRoll {
  log_fname_ : Slice;
  log_path_ : Slice;
  logger_ : option logger;
  status_ : Status;
  kMaxLogFileSize : Z;
  kLogFileTimeToRoll : Z;
  headers_ : list Slice;
  cached_now : Z;
  ctime_ : Z;
  cached_now_access_count : Z;
  call_NowMicros_every_N_records_ : Z;
  flush_every_seconds_ : Z;
  log_level_ : InfoLogLevel;
}.
Implicit Types a : AutoRollLogger.
Definition set_logger a l s := mkAutoRoll (log_fname_ a) (log_path_ a) l s (kMaxLogFileSize a) (kLogFileTimeToRoll a) (headers_ a)
  (cached_now a) (ctime_ a) (cached_now_access_count a) (call_NowMicros_every_N_records_ a) (flush_every_seconds_ a) (log_level_ a).
Definition set_headers a h := mkAutoRoll (log_fname_ a) (log_path_ a) (logger_ a) (status_ a) (kMaxLogFileSize a) (kLogFileTimeToRoll a) h
  (cached_now a) (ctime_ a) (cached_now_access_count a) (call_NowMicros_every_N_records_ a) (flush_every_seconds_ a) (log_level_ a).
Definition set_time a now ctime count := mkAutoRoll (log_fname_ a) (log_path_ a) (logger_ a) (status_ a) (kMaxLogFileSize a) (kLogFileTimeToRoll a)
  (headers_ a) now ctime count (call_NowMicros_every_N_records_ a) (flush_every_seconds_ a) (log_level_ a).
Definition SetCallNowMicrosEveryNRecords a n := mkAutoRoll (log_fname_ a) (log_path_ a) (logger_ a) (status_ a) (kMaxLogFileSize a)
  (kLogFileTimeToRoll a) (headers_ a) (cached_now a) (ctime_ a) (cached_now_access_count a) n (flush_every_seconds_ a) (log_level_ a).

(** A call on the current logger, a null pointer when the last reset has failed. *)
Definition with_logger {A} a (f : logger -> IO (O := E) A) : IO (O := E) A :=
  match logger_ a with Some l => f l | None => io_undef end.
Definition log_size (l : logger) : IO (O := E) Z := fun e => Ret (l_GetLogFileSize l e, e).

Definition GetStatus a : Status := status_ a.
Definition ar_GetLogFileSize a : IO (O := E) Z := with_logger a log_size.
Definition ar_Flush a : IO (O := E) unit := match logger_ a with Some l => l_Flush l | None => mret tt end.

Definition ResetLogger a : IO (O := E) (Status * AutoRollLogger) :=
  '(s, l) ← NewLogger (log_fname_ a) (flush_every_seconds_ a);
  let a := set_logger a l s in
  if negb (ok s) then mret (s, a)
  else
    size ← with_logger a log_size;
    let s := if size =? kDoNotSupportGetLogFileSize then NotSupported (str "The underlying logger doesn't support GetLogFileSize()") [] else s in
    let a := set_logger a l s in
    if ok s then
      now ← NowMicros;
      mret (s, set_time a (seconds_of now) (seconds_of now) 0)
    else mret (s, a).

(** The loop of [RollLogFile]: a name that no file has. *)
Fixpoint free_name (fuel : nat) (log_path : Slice) (now : Z) : IO (O := E) Slice :=
  match fuel with
  | 0%nat => io_nofuel
  | S fuel' =>
      let old_fname := OldInfoLogFileName log_path now in
      s ← FileExists old_fname;
      if ok s then free_name fuel' log_path (u64 (now + 1)) else mret old_fname
  end.
Definition RollLogFile (fuel : nat) a : IO (O := E) unit :=
  now ← NowMicros;
  old_fname ← free_name fuel (log_path_ a) now;
  _ ← RenameFile (log_fname_ a) old_fname;
  mret tt.

Definition AutoRollLogger_new (fuel : nat) (log_path : Slice) (log_max_size log_file_time_to_roll : Z) (log_level : InfoLogLevel)
    (flush_every_seconds : Z) : IO (O := E) AutoRollLogger :=
  now ← NowMicros;
  let a := mkAutoRoll (InfoLogFileName log_path) log_path None OK log_max_size log_file_time_to_roll [] (seconds_of now) (seconds_of now) 0 100
    flush_every_seconds log_level in
  _ ← RollLogFile fuel a;
  '(_, a) ← ResetLogger a;
  mret a.

Definition ValistToString (format : Slice) (args : va_list) : Slice := c_string (ztake 1023 (vformat format args)).
Definition LogInternal a (format : Slice) (args : va_list) : IO (O := E) unit := with_logger a (fun l => l_Logv2 l format args).
Fixpoint WriteHeaders a (headers : list Slice) : IO (O := E) unit :=
  match headers with
  | [] => mret tt
  | header :: rest => _ ← LogInternal a (str "%s") (va_string header); WriteHeaders a rest
  end.
Definition WriteHeaderInfo a : IO (O := E) unit := WriteHeaders a (headers_ a).

Definition LogExpired a : IO (O := E) (bool * AutoRollLogger) :=
  a ← (if call_NowMicros_every_N_records_ a <=? cached_now_access_count a
       then now ← NowMicros; mret (set_time a (seconds_of now) (ctime_ a) 0)
       else mret a);
  let a := set_time a (cached_now a) (ctime_ a) (u64 (cached_now_access_count a + 1)) in
  mret (u64 (ctime_ a + kLogFileTimeToRoll a) <=? cached_now a, a).

(** The condition of [Logv]. *)
Definition has_to_roll a : IO (O := E) (bool * AutoRollLogger) :=
  '(expired, a) ← (if 0 <? kLogFileTimeToRoll a then LogExpired a else mret (false, a));
  if expired : bool then mret (true, a)
  else if 0 <? kMaxLogFileSize a then
    size ← with_logger a log_size;
    mret (kMaxLogFileSize a <=? size, a)
  else mret (false, a).

(** [Logv] up to the end of the critical section: the logger that is pinned down, if any. *)
Definition Logv_locked (fuel : nat) a : IO (O := E) (option (option logger) * AutoRollLogger) :=
  _ ← io_assert (ok (GetStatus a));
  '(roll, a) ← has_to_roll a;
  if roll : bool then
    _ ← RollLogFile fuel a;
    '(s, a) ← ResetLogger a;
    if negb (ok s) then mret (None, a)
    else _ ← WriteHeaderInfo a; mret (Some (logger_ a), a)
  else mret (Some (logger_ a), a).
Definition ar_Logv (fuel : nat) a (format : Slice) (ap : va_list) : IO (O := E) AutoRollLogger :=
  '(l, a) ← Logv_locked fuel a;
  match l with
  | None => mret a
  | Some None => io_undef
  | Some (Some l) => _ ← l_Logv2 l format ap; mret a
  end.

Definition ar_LogHeader a (format : Slice) (args : va_list) : IO (O := E) AutoRollLogger :=
  let data := ValistToString format args in
  let a := set_headers a (headers_ a ++ [data]) in
  _ ← with_logger a (fun l => l_Logv2 l format args);
  mret a.

(** The logger that [CreateLogger] gives. *)
Inductive CreatedLogger : Type := RollingLogger (a : AutoRollLogger) | PlainLogger (l : logger) | NoLogger.
Definition CreateLogger (fuel : nat) (log_path : Slice) (log_max_size log_file_time_to_roll : Z) (log_level : InfoLogLevel)
    (flush_every_seconds : Z) : IO (O := E) (Status * CreatedLogger) :=
  let fname := InfoLogFileName log_path in
  _ ← CreateDirIfMissing log_path;
  if (0 <? log_file_time_to_roll) || (0 <? log_max_size) then
    result ← AutoRollLogger_new fuel log_path log_max_size log_file_time_to_roll log_level flush_every_seconds;
    let s := GetStatus result in
    mret (s, if negb (ok s) then NoLogger else RollingLogger result)
  else
    now ← NowMicros;
    _ ← RenameFile fname (OldInfoLogFileName log_path now);
    '(s, l) ← NewLogger fname flush_every_seconds;
    match l with
    | Some l => _ ← l_SetInfoLogLevel l log_level; mret (s, PlainLogger l)
    | None => mret (s, NoLogger)
    end.
End AutoRoll.
