(* ===== verification/AutoRollTheorems.v ===== *)
(** * AutoRollTheorems: no log is lost or overwritten

    What loggers and the naming of files promise, as a class of laws; the free name that a
    roll finds; [Logv] with and without a roll; and the seconds of the [double] product. *)

From Stdlib Require Import Strings.Byte Strings.String.
From stdpp Require Import list pretty.
From S2P Require Import Prelude.
From S2P Require Import Slice.
From S2P Require Import Coding.
From S2P Require Import Status.
From S2P Require Import FileApi.
From S2P Require Import IoPosix.
From S2P Require Import IoPosixTheorems.
From S2P Require Import Env.
From S2P Require Import EnvTheorems.
From S2P Require Import AutoRoll.

(** ** What loggers promise *)

(** What a call that only looks does: files, loggers and the working of renaming stay. *)
Definition looking {E L} (env_ok : E -> Prop) (file_of : E -> Slice -> option (list byte)) (logs_to : E -> L -> Slice -> Prop)
    (renames : E -> Prop) (e e' : E) : Prop :=
  env_ok e' /\ (forall g, file_of e' g = file_of e g) /\ (forall l g, logs_to e l g -> logs_to e' l g) /\ (renames e -> renames e').

(** [logs_to e l f] says that the logger [l] writes to the file that is called [f]. [entry t b]
    says that the bytes [b] are a log entry with the text [t]. [renames e] says that renaming
    works. *)
Class LogFiles (E : Type) `{Printf} `{EnvFiles E} `{!Logger E logger} := {
  logs_to : E -> logger -> Slice -> Prop;
  entry : Slice -> list byte -> Prop;
  renames : E -> Prop;
  string_law : forall t, vformat (str "%s") (va_string t) = t;
  now_law : forall e, env_ok e -> exists now e', NowMicros e = Ret (now, e') /\ 0 <= now < 2 ^ 64 /\ looking env_ok file_of logs_to renames e e';
  exists_law : forall f e, env_ok e -> exists s e', FileExists f e = Ret (s, e') /\ (ok s = true <-> file_of e f <> None) /\
    looking env_ok file_of logs_to renames e e';
  rename_law : forall f f' c e, env_ok e -> file_of e f = Some c -> f <> f' -> exists s e', RenameFile f f' e = Ret (s, e') /\ env_ok e' /\
    (renames e -> ok s = true) /\
    (ok s = true -> file_of e' f' = Some c /\ file_of e' f = None /\ forall g, g <> f -> g <> f' -> file_of e' g = file_of e g);
  new_logger_law : forall f n e, env_ok e -> exists s r e', NewLogger f n e = Ret (s, r, e') /\ env_ok e' /\ same_but file_of f e e' /\
    (if ok s then exists l, r = Some l /\ logs_to e' l f /\ file_of e' f = Some [] else r = None);
  size_law : forall l f c e, logs_to e l f -> file_of e f = Some c -> l_GetLogFileSize l e = u64 (zlen c);
  logv_law : forall l f c format ap e, env_ok e -> logs_to e l f -> file_of e f = Some c -> exists e' b, l_Logv2 l format ap e = Ret (tt, e') /\
    env_ok e' /\ entry (vformat format ap) b /\ file_of e' f = Some (c ++ b) /\ same_but file_of f e e' /\ (forall k g, logs_to e k g -> logs_to e' k g);
}.

(** The bytes of the entries of some texts, in order. *)
Inductive entries {E} `{LogFiles E} : list Slice -> list byte -> Prop :=
| entries_nil : entries [] []
| entries_cons t ts b bs : entry t b -> entries ts bs -> entries (t :: ts) (b ++ bs).

(** ** File names *)

Lemma str_inj a b : str a = str b -> a = b.
Proof. unfold str. intros E. rewrite <- (string_of_list_byte_of_string a), <- (string_of_list_byte_of_string b). by f_equal. Qed.

Lemma OldInfoLogFileName_inj p t1 t2 : 0 <= t1 -> 0 <= t2 -> OldInfoLogFileName p t1 = OldInfoLogFileName p t2 -> t1 = t2.
Proof.
  intros H1 H2 E. unfold OldInfoLogFileName in E. do 2 apply app_inv_head in E. apply str_inj, (inj pretty) in E. lia.
Qed.

Lemma OldInfoLogFileName_ne p t : InfoLogFileName p <> OldInfoLogFileName p t.
Proof. unfold InfoLogFileName, OldInfoLogFileName. intros E. by apply app_inv_head in E. Qed.

(** The time stamps that [free_name] tries. *)
Lemma stamps_ne now k : 0 <= now < 2 ^ 64 -> 0 < k < 2 ^ 64 -> u64 (now + k) <> now.
Proof.
  intros Hn Hk. change (2 ^ 64) with 18446744073709551616 in *. unfold wrap. change (2 ^ 64) with 18446744073709551616. dlia.
Qed.

Section rolling.
Context `{Host} {E : Type} `{LogFiles E}.

(** The calls that only look keep the files and the loggers. *)
Definition looks (e e' : E) : Prop := looking env_ok file_of logs_to renames e e'.

Lemma looks_refl e : env_ok e -> looks e e.
Proof. by intros. Qed.
Lemma looks_trans e1 e2 e3 : looks e1 e2 -> looks e2 e3 -> looks e1 e3.
Proof. intros (O1 & F1 & L1 & R1) (O2 & F2 & L2 & R2). split_and!; auto. intros g. by rewrite F2. Qed.

(** The loop finds a name that no file has, when it may try more names than there are files. *)
Lemma free_name_spec p fuel : forall now names (e : E), env_ok e -> 0 <= now < 2 ^ 64 -> Z.of_nat fuel <= 2 ^ 64 -> (length names < fuel)%nat ->
  (forall k, 0 <= k < Z.of_nat fuel -> file_of e (OldInfoLogFileName p (u64 (now + k))) <> None -> OldInfoLogFileName p (u64 (now + k)) ∈ names) ->
  exists t e', free_name fuel p now e = Ret (OldInfoLogFileName p t, e') /\ file_of e (OldInfoLogFileName p t) = None /\ looks e e'.
Proof.
  induction fuel as [|fuel IH]; intros now names e Hok Hn Hf Hl Hin; [lia|]. cbn [free_name]. set (name := OldInfoLogFileName p now).
  destruct (exists_law name e Hok) as (s & e1 & E1 & Hs & Hlook). rewrite (IO_bind_step _ _ _ _ _ E1). destruct (ok s) eqn:Es.
  2: { exists now, e1. split; [done|]. split; [|done]. fold name. destruct (file_of e name); [|done]. destruct Hs as [_ Hs]. discriminate (Hs ltac:(done)). }
  assert (name ∈ names) as Hname.
  { specialize (Hin 0). rewrite Z.add_0_r, u64_small in Hin by (change (2 ^ 64) with 18446744073709551616 in Hn; lia). apply Hin; [lia|]. by apply Hs. }
  pose proof (u64_range (now + 1)).
  destruct (IH (u64 (now + 1)) (filter (fun g => g <> name) names) e1) as (t & e2 & E2 & Ht & Hlook2).
  - apply Hlook.
  - change (2 ^ 64) with 18446744073709551616. lia.
  - lia.
  - apply list_elem_of_split in Hname as (l1 & l2 & ->). rewrite list.filter_app, filter_cons_False by (by intros ?).
    rewrite length_app in *. simpl in Hl. pose proof (length_filter (fun g => g <> name) l1). pose proof (length_filter (fun g => g <> name) l2). lia.
  - intros k Hk. assert (u64 (u64 (now + 1) + k) = u64 (now + (k + 1))) as -> by (unfold wrap; rewrite Zplus_mod_idemp_l; f_equal; lia).
    destruct Hlook as (_ & Hfs & _). rewrite Hfs. intros Hex. apply list_elem_of_filter. split; [|apply Hin; [lia|done]].
    intros En. apply OldInfoLogFileName_inj in En; [|apply u64_range|lia]. revert En. apply stamps_ne; lia.
  - exists t, e2. split; [exact E2|]. split; [|by eapply looks_trans]. destruct Hlook as (_ & Hfs & _). by rewrite <- Hfs.
Qed.

(** ** The steps of a roll *)

Definition few_files (e : E) (fuel : nat) : Prop :=
  exists names, (forall f, file_of e f <> None -> f ∈ names) /\ (length names < fuel)%nat /\ Z.of_nat fuel <= 2 ^ 64.

Lemma RollLogFile_spec fuel a c (e : E) : env_ok e -> log_fname_ a = InfoLogFileName (log_path_ a) -> file_of e (log_fname_ a) = Some c -> renames e -> few_files e fuel ->
  exists t e', RollLogFile fuel a e = Ret (tt, e') /\ env_ok e' /\ file_of e (OldInfoLogFileName (log_path_ a) t) = None /\
    file_of e' (OldInfoLogFileName (log_path_ a) t) = Some c /\ file_of e' (log_fname_ a) = None /\
    forall g, g <> log_fname_ a -> g <> OldInfoLogFileName (log_path_ a) t -> file_of e' g = file_of e g.
Proof.
  intros Hok Hfn Hc Hr (names & Hin & Hlen & Hfuel). unfold RollLogFile. destruct (now_law e Hok) as (now & e1 & E1 & Hnow & Ho1 & Hf1 & Hl1 & Hr1).
  rewrite (IO_bind_step _ _ _ _ _ E1).
  destruct (free_name_spec (log_path_ a) fuel now names e1 Ho1 Hnow Hfuel Hlen) as (t & e2 & E2 & Ht & Ho2 & Hf2 & Hl2 & Hr2).
  { intros k _. rewrite Hf1. apply Hin. }
  rewrite (IO_bind_step _ _ _ _ _ E2).
  destruct (rename_law (log_fname_ a) (OldInfoLogFileName (log_path_ a) t) c e2 Ho2) as (s & e3 & E3 & Ho3 & Hs & Hren).
  { by rewrite Hf2, Hf1. } { rewrite Hfn. apply OldInfoLogFileName_ne. }
  rewrite (IO_bind_step _ _ _ _ _ E3). destruct (Hren (Hs (Hr2 (Hr1 Hr)))) as (Hn1 & Hn2 & Hn3).
  exists t, e3. split; [done|]. split; [done|]. split; [by rewrite <- Hf1|]. do 2 (split; [done|]). intros g Hg1 Hg2. by rewrite Hn3, Hf2, Hf1.
Qed.

(** What the operations do not change. *)
Definition kept (a a' : AutoRollLogger) : Prop := log_fname_ a' = log_fname_ a /\ log_path_ a' = log_path_ a /\ headers_ a' = headers_ a /\
  kMaxLogFileSize a' = kMaxLogFileSize a /\ kLogFileTimeToRoll a' = kLogFileTimeToRoll a.

Lemma reset_spec a (e : E) : env_ok e -> exists s a' e', ResetLogger a e = Ret (s, a', e') /\ env_ok e' /\ same_but file_of (log_fname_ a) e e' /\ status_ a' = s /\ kept a a' /\
  (if ok s then exists l, logger_ a' = Some l /\ logs_to e' l (log_fname_ a) /\ file_of e' (log_fname_ a) = Some [] else logger_ a' = None).
Proof.
  intros Ho. unfold ResetLogger. destruct (new_logger_law (log_fname_ a) (flush_every_seconds_ a) e Ho) as (s & r & e1 & E1 & Ho1 & Hf1 & Hok).
  rewrite (IO_bind_step _ _ (s, r) e e1) by exact E1. cbv beta iota. destruct (ok s) eqn:Es; cbn [negb].
  2: { eexists s, _, e1. split; [reflexivity|]. rewrite Es. split_and!; done. }
  destruct Hok as (l & -> & Hl & Hc). unfold with_logger, log_size. simpl logger_. cbv iota.
  rewrite (IO_bind_step _ _ 0 e1 e1) by (by rewrite (size_law l _ _ e1 Hl Hc)). change (0 =? kDoNotSupportGetLogFileSize) with false. cbv zeta iota. rewrite Es.
  destruct (now_law e1 Ho1) as (now & e2 & E2 & _ & Ho2 & Hf2 & Hl2 & _). rewrite (IO_bind_step _ _ _ _ _ E2).
  eexists s, _, e2. split; [reflexivity|]. rewrite Es. split; [done|]. split; [intros g Hg; rewrite Hf2; auto|]. do 2 (split; [done|]).
  exists l. split; [done|]. split; [auto|]. by rewrite Hf2.
Qed.

Lemma headers_spec f l hs : forall a c (e : E), env_ok e -> logger_ a = Some l -> logs_to e l f -> file_of e f = Some c ->
  exists e' bs, WriteHeaders a hs e = Ret (tt, e') /\ env_ok e' /\ entries hs bs /\ file_of e' f = Some (c ++ bs) /\ same_but file_of f e e' /\ logs_to e' l f.
Proof.
  induction hs as [|h hs IH]; intros a c e Ho Hl Hlt Hc; cbn [WriteHeaders].
  { exists e, []. rewrite app_nil_r. split; [done|]. split; [done|]. split; [constructor|]. split_and!; done. }
  unfold LogInternal, with_logger. rewrite Hl.
  destruct (logv_law l f c (str "%s") (va_string h) e Ho Hlt Hc) as (e1 & b & E1 & Ho1 & Hb & Hc1 & Hs1 & Hl1). rewrite (IO_bind_step _ _ _ _ _ E1).
  destruct (IH a (c ++ b) e1 Ho1 Hl (Hl1 _ _ Hlt) Hc1) as (e2 & bs & E2 & Ho2 & Hbs & Hc2 & Hs2 & Hl2). exists e2, (b ++ bs). rewrite app_assoc.
  rewrite string_law in Hb. split; [exact E2|]. split; [done|]. split; [by constructor|]. split; [done|]. split; [|done]. intros g Hg. rewrite Hs2, Hs1; done.
Qed.

Lemma LogExpired_spec a (e : E) : env_ok e -> exists b a' e', LogExpired a e = Ret (b, a', e') /\ looks e e' /\ kept a a' /\ logger_ a' = logger_ a /\ status_ a' = status_ a.
Proof.
  intros Ho. unfold LogExpired.
  assert (exists a1 e1, (if call_NowMicros_every_N_records_ a <=? cached_now_access_count a
       then now ← NowMicros; mret (set_time a (seconds_of now) (ctime_ a) 0) else mret a) e = Ret (a1, e1) /\
    looks e e1 /\ kept a a1 /\ logger_ a1 = logger_ a /\ status_ a1 = status_ a) as (a1 & e1 & E1 & Hlook & Hk & Hl & Hs).
  { destruct (_ <=? _).
    - destruct (now_law e Ho) as (now & e1 & E1 & _ & Hlk). rewrite (IO_bind_step _ _ _ _ _ E1). eexists _, e1. split; [reflexivity|]. by split.
    - exists a, e. split; [done|]. split; [by apply looks_refl|done]. }
  rewrite (IO_bind_step _ _ _ _ _ E1). eexists _, _, e1. split; [reflexivity|]. split_and!; done.
Qed.

(** A log that is as long as allowed has to be rolled; without limits none has to. *)
Lemma has_to_roll_spec a l c (e : E) : env_ok e -> logger_ a = Some l -> logs_to e l (log_fname_ a) -> file_of e (log_fname_ a) = Some c ->
  exists b a' e', has_to_roll a e = Ret (b, a', e') /\ looks e e' /\ kept a a' /\ logger_ a' = logger_ a /\ status_ a' = status_ a /\
    (0 < kMaxLogFileSize a <= u64 (zlen c) -> b = true) /\ (kMaxLogFileSize a <= 0 -> kLogFileTimeToRoll a <= 0 -> b = false).
Proof.
  intros Ho Hl Hlt Hc. unfold has_to_roll.
  assert (exists b a1 e1, (if 0 <? kLogFileTimeToRoll a then LogExpired a else mret (false, a)) e = Ret (b, a1, e1) /\ looks e e1 /\ kept a a1 /\
    logger_ a1 = logger_ a /\ status_ a1 = status_ a /\ (kLogFileTimeToRoll a <= 0 -> b = false)) as (b & a1 & e1 & E1 & Hlook & Hk & Hl1 & Hs1 & Hb).
  { destruct (Z.ltb_spec 0 (kLogFileTimeToRoll a)).
    - destruct (LogExpired_spec a e Ho) as (b & a1 & e1 & E1 & Hlook & Hk & Hl1 & Hs1). exists b, a1, e1. split_and!; done || lia.
    - exists false, a, e. split_and!; done. }
  rewrite (IO_bind_step _ _ (b, a1) e e1) by exact E1. cbv beta iota. destruct b.
  { exists true, a1, e1. split_and!; done. }
  pose proof Hk as (_ & _ & _ & Hmax & _). rewrite Hmax. destruct (Z.ltb_spec 0 (kMaxLogFileSize a)).
  - unfold with_logger, log_size. rewrite Hl1, Hl. pose proof Hlook as (_ & Hf & Hlo & Hrn).
    rewrite (IO_bind_step _ _ (u64 (zlen c)) e1 e1) by (rewrite (size_law l (log_fname_ a) c); auto; by rewrite Hf).
    eexists _, a1, e1. split; [reflexivity|]. split_and!; try done; [congruence|lia|lia].
  - exists false, a1, e1. split_and!; done || lia.
Qed.

(** ** [Logv] *)

(** The logger is open and [c] is the current log. *)
Definition running (a : AutoRollLogger) (e : E) (c : list byte) : Prop :=
  env_ok e /\ ok (status_ a) = true /\ log_fname_ a = InfoLogFileName (log_path_ a) /\
  exists l, logger_ a = Some l /\ logs_to e l (log_fname_ a) /\ file_of e (log_fname_ a) = Some c.

(** What a call that rolls leaves: the old log under a name that was free, and a new one that
    begins with the headers, unless it could not be opened. *)
Definition rolled (a a' : AutoRollLogger) (e e' : E) (c t : list byte) : Prop := exists ts,
  let old := OldInfoLogFileName (log_path_ a) ts in
  env_ok e' /\ file_of e old = None /\ file_of e' old = Some c /\
  (forall g, g <> log_fname_ a -> g <> old -> file_of e' g = file_of e g) /\
  (if ok (status_ a') then exists hs b, entries (headers_ a) hs /\ entry t b /\ running a' e' (hs ++ b) else logger_ a' = None).

Definition appended (a a' : AutoRollLogger) (e e' : E) (c t : list byte) : Prop := exists b,
  entry t b /\ running a' e' (c ++ b) /\ same_but file_of (log_fname_ a) e e'.

(** The roll: [RollLogFile], [ResetLogger] and the headers. *)
Lemma rolls fuel a c (e : E) : env_ok e -> log_fname_ a = InfoLogFileName (log_path_ a) -> file_of e (log_fname_ a) = Some c -> renames e -> few_files e fuel ->
  exists ts a' e', let old := OldInfoLogFileName (log_path_ a) ts in
  (_ ← RollLogFile fuel a;
   '(s, a) ← ResetLogger a;
   if negb (ok s) then mret (None, a) else _ ← WriteHeaderInfo a; mret (Some (logger_ a), a)) e =
    Ret (if ok (status_ a') then Some (logger_ a') else None, a', e') /\ kept a a' /\ env_ok e' /\ file_of e old = None /\ file_of e' old = Some c /\
  (forall g, g <> log_fname_ a -> g <> old -> file_of e' g = file_of e g) /\
  (if ok (status_ a') then exists hs, entries (headers_ a) hs /\ running a' e' hs else logger_ a' = None).
Proof.
  intros Ho Hfn Hc Hr Hfew. destruct (RollLogFile_spec fuel a c e Ho Hfn Hc Hr Hfew) as (ts & e1 & E1 & Ho1 & Hold & Hold1 & Hcur & Hoth).
  set (old := OldInfoLogFileName (log_path_ a) ts) in *. rewrite (IO_bind_step _ _ _ _ _ E1).
  destruct (reset_spec a e1 Ho1) as (s & a2 & e2 & E2 & Ho2 & Hs2 & Hst & Hk & Hok). rewrite (IO_bind_step _ _ (s, a2) e1 e2) by exact E2. cbv beta iota.
  assert (old <> log_fname_ a) as Hne by (rewrite Hfn; intros En; by eapply OldInfoLogFileName_ne).
  exists ts, a2. destruct (ok s) eqn:Es; cbn [negb].
  - destruct Hok as (l & Hl & Hlt & Hc2). pose proof Hk as (Kf & Kp & Kh & Km & Kt).
    destruct (headers_spec (log_fname_ a) l (headers_ a2) a2 [] e2 Ho2 Hl Hlt Hc2) as (e3 & hs & E3 & Ho3 & Hhs & Hc3 & Hs3 & Hl3).
    exists e3. rewrite (IO_bind_step _ _ tt e2 e3) by exact E3. rewrite Hst, Es. split; [done|]. split; [done|]. split; [done|]. split; [done|].
    split; [by rewrite Hs3, Hs2|]. split; [intros g Hg1 Hg2; rewrite Hs3, Hs2; auto|].
    exists hs. rewrite <- Kh. split; [done|]. split; [done|]. split; [by rewrite Hst|]. split; [by rewrite Kf, Kp|]. exists l. rewrite Kf. done.
  - exists e2. rewrite Hst, Es. split; [done|]. split; [done|]. split; [done|]. split; [done|]. split; [by rewrite Hs2|]. split; [|done].
    intros g Hg1 Hg2. rewrite Hs2; auto.
Qed.

Lemma ar_Logv_spec fuel a format ap c (e : E) : running a e c -> renames e -> few_files e fuel -> exists roll a' e',
  ar_Logv fuel a format ap e = Ret (a', e') /\ kept a a' /\
  (0 < kMaxLogFileSize a <= u64 (zlen c) -> roll = true) /\ (kMaxLogFileSize a <= 0 -> kLogFileTimeToRoll a <= 0 -> roll = false) /\
  if roll : bool then rolled a a' e e' c (vformat format ap) else appended a a' e e' c (vformat format ap).
Proof.
  intros (Ho & Hok & Hfn & l & Hl & Hlt & Hc) Hr Hfew.
  destruct (has_to_roll_spec a l c e Ho Hl Hlt Hc) as (roll & a1 & e1 & E1 & Hlook & Hk & Hl1 & Hs1 & Hb1 & Hb2).
  pose proof Hlook as (Ho1 & Hf1 & Hlo1 & Hr1). pose proof Hk as (Kf & Kp & Kh & Km & Kt). exists roll.
  assert (few_files e1 fuel) as Hfew1 by (destruct Hfew as (names & Hn & Hrest); exists names; split; [intros f; rewrite Hf1; apply Hn|done]).
  assert (Logv_locked fuel a e = (if roll
    then _ ← RollLogFile fuel a1;
         '(s, a) ← ResetLogger a1;
         if negb (ok s) then mret (None, a) else _ ← WriteHeaderInfo a; mret (Some (logger_ a), a)
    else mret (Some (logger_ a1), a1)) e1) as EL.
  { unfold Logv_locked, GetStatus. rewrite (IO_bind_step _ _ tt e e) by (unfold io_assert; by rewrite Hok).
    rewrite (IO_bind_step _ _ (roll, a1) e e1) by exact E1. by destruct roll. }
  unfold ar_Logv. destruct roll.
  - destruct (rolls fuel a1 c e1 Ho1) as (ts & a2 & e2 & ER & Hk2 & Ho2 & Hold & Hold2 & Hoth & Hst); [congruence|by rewrite Kf, Hf1|auto|done|].
    rewrite (IO_bind_step _ _ (if ok (status_ a2) then Some (logger_ a2) else None, a2) e e2) by (rewrite EL; exact ER). cbv beta iota.
    rewrite Kf, Kp, Kh in *. rewrite Hf1 in Hold. destruct Hk2 as (Kf2 & Kp2 & Kh2 & Km2 & Kt2). destruct (ok (status_ a2)) eqn:Es2.
    + destruct Hst as (hs & Hhs & _ & Hok2 & Hfn2 & l2 & Hl2 & Hlt2 & Hc2). rewrite Kf2, Kf in Hfn2, Hlt2, Hc2. rewrite Hl2.
      destruct (logv_law l2 _ hs format ap e2 Ho2 Hlt2 Hc2) as (e3 & b & E3 & Ho3 & Hb & Hc3 & Hs3 & Hlo3). rewrite (IO_bind_step _ _ _ _ _ E3).
      exists a2, e3. split; [done|]. split; [split_and!; congruence|]. split; [done|]. split; [done|].
      exists ts. split; [done|]. split; [done|]. split; [rewrite Hs3; [done|]; rewrite Hfn; intros En; by eapply OldInfoLogFileName_ne|].
      split; [intros g Hg1 Hg2; rewrite Hs3, Hoth, Hf1; done|]. rewrite Es2. exists hs, b. split; [done|]. split; [done|].
      split; [done|]. split; [done|]. split; [congruence|]. exists l2. rewrite Kf2, Kf. auto.
    + exists a2, e2. split; [done|]. split; [split_and!; congruence|]. split; [done|]. split; [done|].
      exists ts. split; [done|]. split; [done|]. split; [done|]. split; [intros g Hg1 Hg2; rewrite Hoth, Hf1; done|]. by rewrite Es2.
  - rewrite (IO_bind_step _ _ (Some (logger_ a1), a1) e e1) by exact EL. cbv beta iota. rewrite Hl1, Hl.
    destruct (logv_law l (log_fname_ a) c format ap e1 Ho1 (Hlo1 _ _ Hlt)) as (e2 & b & E2 & Ho2 & Hb & Hc2 & Hs2 & Hlo2); [by rewrite Hf1|].
    rewrite (IO_bind_step _ _ _ _ _ E2). exists a1, e2. split; [done|]. split; [done|]. split; [done|]. split; [done|].
    exists b. split; [done|]. split; [|intros g Hg; rewrite Hs2, Hf1; done].
    split; [done|]. split; [by rewrite Hs1|]. split; [congruence|]. exists l. rewrite Kf, Hl1. auto.
Qed.

(** A header is kept for the logs to come, and written into the current one. *)
Lemma ar_LogHeader_spec a format ap c (e : E) : running a e c -> exists a' e',
  ar_LogHeader a format ap e = Ret (a', e') /\ appended a a' e e' c (vformat format ap) /\
  headers_ a' = headers_ a ++ [c_string (ztake 1023 (vformat format ap))].
Proof.
  intros (Ho & Hok & Hfn & l & Hl & Hlt & Hc). unfold ar_LogHeader, with_logger. simpl logger_. rewrite Hl.
  destruct (logv_law l (log_fname_ a) c format ap e Ho Hlt Hc) as (e2 & b & E2 & Ho2 & Hb & Hc2 & Hs2 & Hlo2).
  rewrite (IO_bind_step _ _ _ _ _ E2). eexists _, e2. split; [reflexivity|]. split; [|done].
  exists b. split; [done|]. split; [|done]. split; [done|]. split; [done|]. split; [done|]. exists l. auto.
Qed.

(** A new logger moves a log that is there out of the way. *)
Lemma AutoRollLogger_new_spec fuel path size time level flush c (e : E) : env_ok e -> file_of e (InfoLogFileName path) = Some c -> renames e -> few_files e fuel ->
  exists a e' ts, AutoRollLogger_new fuel path size time level flush e = Ret (a, e') /\ env_ok e' /\
    file_of e (OldInfoLogFileName path ts) = None /\ file_of e' (OldInfoLogFileName path ts) = Some c /\
    (if ok (status_ a) then running a e' [] else logger_ a = None).
Proof.
  intros Ho Hc Hr Hfew. unfold AutoRollLogger_new. destruct (now_law e Ho) as (now & e1 & E1 & _ & Ho1 & Hf1 & Hl1 & Hr1).
  rewrite (IO_bind_step _ _ _ _ _ E1). cbv zeta. set (a0 := mkAutoRoll _ _ _ _ _ _ _ _ _ _ _ _ _).
  assert (few_files e1 fuel) as Hfew1 by (destruct Hfew as (names & Hn & Hrest); exists names; split; [intros f; rewrite Hf1; apply Hn|done]).
  destruct (RollLogFile_spec fuel a0 c e1 Ho1) as (ts & e2 & E2 & Ho2 & Hold & Hold2 & Hcur & _); [done|by rewrite Hf1|auto|done|].
  rewrite (IO_bind_step _ _ _ _ _ E2). destruct (reset_spec a0 e2 Ho2) as (s & a & e3 & E3 & Ho3 & Hs3 & Hst & (Kf & Kp & _) & Hok).
  rewrite (IO_bind_step _ _ (s, a) e2 e3) by exact E3. exists a, e3, ts. split; [done|]. split; [done|]. rewrite <- (Hf1 (OldInfoLogFileName path ts)). split; [exact Hold|].
  split; [rewrite Hs3; [exact Hold2|]; intros En; by eapply (OldInfoLogFileName_ne path)|]. rewrite Hst. destruct (ok s) eqn:Es; [|done].
  destruct Hok as (l & Hl & Hlt & Hc3). split; [done|]. split; [by rewrite Hst|]. split; [by rewrite Kf, Kp|]. exists l. by rewrite Kf.
Qed.
End rolling.

(** ** The seconds *)

Lemma round53_small m : 0 <= m < 2 ^ 53 -> round53 m = m.
Proof.
  intros Hm. unfold round53. destruct (Z.eqb_spec m 0) as [->|Hz]; [done|]. assert (Z.log2 m < 53) by (apply Z.log2_lt_pow2; lia).
  by replace (Z.log2 m - 52 <=? 0) with true by lia.
Qed.

(** The rounded number is a multiple of the last place and at most half of it away. *)
Lemma round53_spec m : 2 ^ 53 <= m -> exists k a, 0 < k /\ round53 m = a * 2 ^ k /\ 2 ^ 52 * 2 ^ k <= m < 2 ^ 53 * 2 ^ k /\
  m - 2 ^ (k - 1) <= round53 m <= m + 2 ^ (k - 1).
Proof.
  intros Hm. pose proof (Z.log2_spec m ltac:(lia)) as [Hlo Hhi]. assert (53 <= Z.log2 m) by (apply Z.log2_le_pow2; lia).
  unfold round53. set (k := Z.log2 m - 52). exists k. replace (k <=? 0) with false by lia.
  replace (Z.log2 m) with (52 + k) in Hlo by lia. replace (Z.succ (Z.log2 m)) with (53 + k) in Hhi by lia. rewrite Z.pow_add_r in Hlo, Hhi by lia.
  assert (2 ^ k = 2 * 2 ^ (k - 1)) as Ek by (rewrite <- Z.pow_succ_r by lia; f_equal; lia).
  assert (0 < 2 ^ (k - 1)) as Hh by (apply Z.pow_pos_nonneg; lia).
  pose proof (Z.div_mod m (2 ^ k) ltac:(lia)) as Hd. pose proof (Z.mod_pos_bound m (2 ^ k) ltac:(lia)) as Hr.
  eexists. split; [lia|]. split; [reflexivity|]. split; [lia|].
  destruct (Z.ltb_spec (m mod 2 ^ k) (2 ^ (k - 1))); simpl; [lia|]. destruct (Z.eqb_spec (m mod 2 ^ k) (2 ^ (k - 1))); simpl; [|lia].
  destruct (Z.even _); lia.
Qed.

(** Up to the year 2112 the product with the [double] 1e-6 gives the seconds. *)
Lemma seconds_of_div n : 0 <= n < 2 ^ 52 -> seconds_of n = n / 1000000.
Proof.
  intros Hn. unfold seconds_of. rewrite (round53_small n) by lia. set (P := n * double_1e_6).
  pose proof (Z.div_mod n 1000000 ltac:(lia)) as Hd. pose proof (Z.mod_pos_bound n 1000000 ltac:(lia)) as Hs. set (q := n / 1000000) in *.
  assert (0 <= q) as Hq by (apply Z.div_pos; lia). unfold double_1e_6 in P. symmetry.
  destruct (Z.le_gt_cases (2 ^ 53) P) as [Hbig|Hsmall].
  2: { rewrite round53_small by lia. assert (n <= 1) by lia. assert (q = 0) as -> by lia. symmetry. apply Z.div_small. lia. }
  destruct (round53_spec P Hbig) as (k & a & Hk & HR & HP & HRP). set (R := round53 P) in *. set (h := 2 ^ (k - 1)) in *.
  assert (2 ^ k = 2 * h) as Ek by (unfold h; rewrite <- Z.pow_succ_r by lia; f_equal; lia). rewrite Ek in *.
  assert (k - 1 < 52) as Hk52 by (apply (Z.pow_lt_mono_r_iff 2); [lia|lia|fold h; lia]).
  assert (exists b, 2 ^ 72 = b * (2 * h)) as (b & Hb).
  { exists (2 ^ (72 - k)). rewrite <- Ek, <- Z.pow_add_r by lia. f_equal. lia. }
  assert (q * 2 ^ 72 <= R) as HT.
  { destruct (Z.le_gt_cases (q * 2 ^ 72) R) as [|Hlt]; [done|]. exfalso. assert (a < q * b) by nia. assert (R + 2 * h <= q * 2 ^ 72) by nia. lia. }
  apply (Z.div_unique R (2 ^ 72) q (R - 2 ^ 72 * q)); lia.
Qed.
