(* ===== verification/MemEnv.v ===== *)
(** * MemEnv: an environment in memory

    A concrete environment with files, streams and loggers, which shows that what EnvFiles and
    LogFiles ask for can be provided. *)

From Stdlib Require Import Strings.Byte Strings.String.
From stdpp Require Import list.
From S2P Require Import Prelude.
From S2P Require Import Slice.
From S2P Require Import Coding.
From S2P Require Import Status.
From S2P Require Import IoPosix.
From S2P Require Import IoPosixMmap.
From S2P Require Import Env.
From S2P Require Import EnvTheorems.
From S2P Require Import AutoRoll.
From S2P Require Import AutoRollTheorems.

(** The files by their names, the position of the stream on each, where the loggers write,
    the clock, and whether renaming and opening loggers works. *)
Record MemEnv : Type := mkMemEnv {
  me_files : Slice -> option (list byte);
  me_pos : Slice -> Z;
  me_logs : nat -> option Slice;
  me_next : nat;
  me_now : Z;
  me_renames : bool;
  me_opens : bool;
}.
Definition at_name {A} (f : Slice) (x : A) (m : Slice -> A) (g : Slice) : A := if bool_decide (g = f) then x else m g.
Definition me_set_files (e : MemEnv) fs := mkMemEnv fs (me_pos e) (me_logs e) (me_next e) (me_now e) (me_renames e) (me_opens e).
Definition me_set_pos (e : MemEnv) p := mkMemEnv (me_files e) p (me_logs e) (me_next e) (me_now e) (me_renames e) (me_opens e).
Definition me_set_logs (e : MemEnv) l n := mkMemEnv (me_files e) (me_pos e) l n (me_now e) (me_renames e) (me_opens e).
Definition me_tick (e : MemEnv) := mkMemEnv (me_files e) (me_pos e) (me_logs e) (me_next e) (u64 (me_now e + 1)) (me_renames e) (me_opens e).
Definition me_write (e : MemEnv) (f : Slice) (c : list byte) := me_set_files e (at_name f (Some c) (me_files e)).
Definition empty_env (now : Z) (renames opens : bool) : MemEnv := mkMemEnv (fun _ => None) (fun _ => 0) (fun _ => None) 0 now renames opens.

Definition io_error : Status := @IOError le_host (str "error") [].
Definition the_file (e : MemEnv) (f : Slice) : list byte := default [] (me_files e f).

#[export] Instance MemEnv_env : Env MemEnv := {
  wfile := Slice;
  sfile := Slice;
  logger := nat;
  NewWritableFile f _ e := Ret (OK, Some f, me_write e f []);
  NewSequentialFile f _ e := Ret (OK, Some f, me_set_pos e (at_name f 0 (me_pos e)));
  NewLogger f _ e :=
    if me_opens e then
      Ret (OK, Some (me_next e), me_write (me_set_logs e (fun l => if Nat.eqb l (me_next e) then Some f else me_logs e l) (S (me_next e))) f [])
    else Ret (io_error, None, e);
  FileExists f e := Ret (match me_files e f with Some _ => OK | None => @NotFound le_host [] [] end, e);
  GetChildren _ e := Ret (OK, [], e);
  GetFileSize_of f e := Ret (OK, zlen (the_file e f), e);
  DeleteFile f e := Ret (OK, me_set_files e (at_name f None (me_files e)));
  RenameFile f g e :=
    match me_files e f with
    | Some c =>
        if me_renames e then
          Ret (OK, me_set_logs (me_set_files e (at_name f None (at_name g (Some c) (me_files e))))
            (fun l => match me_logs e l with Some h => if bool_decide (h = f) then Some g else Some h | None => None end) (me_next e))
        else Ret (io_error, e)
    | None => Ret (io_error, e)
    end;
  CreateDirIfMissing _ e := Ret (OK, e);
  NowMicros e := Ret (u64 (me_now e), me_tick e);
  w_Append f d e := Ret (OK, me_write e f (the_file e f ++ d));
  w_Sync _ e := Ret (OK, e);
  w_delete _ e := Ret (tt, e);
  s_Read f n e :=
    let d := ztake n (zdrop (me_pos e f) (the_file e f)) in
    Ret (OK, d, me_set_pos e (at_name f (me_pos e f + zlen d) (me_pos e)));
  s_delete _ e := Ret (tt, e);
}.

(** Formats have no conversions but ["%s"]. *)
#[export] Instance plain_printf : Printf := {
  va_list := Slice;
  vformat f s := if bool_decide (f = str "%s") then s else f;
  va_string s := s;
}.

Definition mem_log (l : nat) (f ap : Slice) (e : MemEnv) : outcome (unit * MemEnv) :=
  match me_logs e l with
  | Some g => Ret (tt, me_write e g (the_file e g ++ vformat f ap ++ [x0a]))
  | None => Ret (tt, e)
  end.
Definition mem_size (l : nat) (e : MemEnv) : Z := match me_logs e l with Some g => u64 (zlen (the_file e g)) | None => 0 end.
(** The loggers inherit [Logv] from the base class. *)
Definition mem_logger_with (logv : nat -> InfoLogLevel -> Slice -> Slice -> MemEnv -> outcome (unit * MemEnv)) : Logger MemEnv nat := {|
  l_GetInfoLogLevel _ _ := INFO_LEVEL;
  l_Logv2 := mem_log;
  l_Logv := logv;
  l_LogHeader := mem_log;
  l_Flush _ e := Ret (tt, e);
  l_SetInfoLogLevel _ _ e := Ret (tt, e);
  l_GetLogFileSize := mem_size;
|}.
Definition mem_logger : Logger MemEnv nat := mem_logger_with (@Logger_Logv MemEnv nat _ (mem_logger_with (fun l _ => mem_log l))).
#[export] Instance mem_env_logger : Logger MemEnv (@logger MemEnv MemEnv_env) := mem_logger.

Lemma at_name_eq {A} f (x : A) m : at_name f x m f = x.
Proof. unfold at_name. by rewrite bool_decide_true. Qed.
Lemma at_name_ne {A} f (x : A) m g : g <> f -> at_name f x m g = m g.
Proof. intros Hg. unfold at_name. by rewrite bool_decide_false. Qed.

#[export] Instance MemEnv_files : EnvFiles MemEnv.
Proof.
  refine {| file_of := me_files; env_ok _ := True; trims _ := True; opens _ w f := w = f; writes e w f c := w = f /\ me_files e f = Some c;
    reads e h f pos := h = f /\ me_pos e f = pos |}.
  - by intros e w f c [].
  - intros f e _. eexists _, _, _. do 3 (split; [done|]). split; [intros g Hg; by apply at_name_ne|]. exists f. simpl. by rewrite at_name_eq.
  - intros w f d c e _ [-> Hc] _. eexists _, _. do 3 (split; [done|]). split; [intros g Hg; by apply at_name_ne|]. split; [done|]. intros _. split; [done|]. simpl.
    unfold the_file. by rewrite at_name_eq, Hc.
  - intros w f c e _ [-> Hc]. eexists _, _. split; [reflexivity|]. done.
  - intros f e _. eexists _, _. do 2 (split; [done|]). split; [intros g Hg; by apply at_name_ne|]. split; [done|]. intros _. simpl. apply at_name_eq.
  - intros w f e _ ->. exists e. do 3 (split; [done|]). intros c [_ Hc]. exists c. split; [done|]. split; [apply padded_refl|done].
  - intros f e _. eexists _, _, _. do 3 (split; [done|]). intros _. exists f. simpl. by rewrite at_name_eq.
  - intros h f pos c n e _ [-> Hp] Hc Hn Hpos. eexists _, _, _. do 3 (split; [done|]). intros _. simpl. unfold the_file.
    rewrite Hc, Hp. simpl. by rewrite at_name_eq.
  - intros h e _. by exists e.
Defined.

#[export] Instance MemEnv_logs : LogFiles MemEnv.
Proof.
  refine {| logs_to e l f := me_logs e l = Some f; entry t b := b = t ++ [x0a]; renames e := me_renames e = true |}.
  - done.
  - intros e _. eexists _, _. split; [reflexivity|]. split; [apply u64_range|]. done.
  - intros f e _. eexists _, e. split; [reflexivity|]. split; [|done]. simpl. by destruct (me_files e f).
  - intros f f' c e _ Hc Hne. simpl in *. rewrite Hc. destruct (me_renames e) eqn:Er; (eexists _, _; split; [reflexivity|]); [|done].
    do 2 (split; [done|]). intros _. simpl. rewrite (at_name_ne f), !at_name_eq by done. split; [done|]. split; [done|].
    intros g Hg Hg'. by rewrite !at_name_ne.
  - intros f n e _. simpl. destruct (me_opens e); (eexists _, _, _; split; [reflexivity|]); [|done].
    split; [done|]. split; [intros g Hg; by apply at_name_ne|]. exists (me_next e). simpl. rewrite Nat.eqb_refl. by rewrite at_name_eq.
  - intros l f c e Hl Hc. simpl in *. unfold mem_size. rewrite Hl. unfold the_file. by rewrite Hc.
  - intros l f c format ap e _ Hl Hc. simpl in *. unfold mem_log. rewrite Hl. eexists _, _. split; [reflexivity|]. split; [done|]. split; [reflexivity|].
    unfold the_file. simpl. rewrite at_name_eq, Hc. split; [done|]. split; [intros g Hg; by apply at_name_ne|]. done.
Defined.
