(* ===== verification/EnvProps.v ===== *)
(** * EnvProps: what the environment's functions and the rolling log do

    The properties over the laws of EnvTheorems and AutoRollTheorems, with witnesses on the
    environment of MemEnv. *)

From Stdlib Require Import Strings.Byte Strings.String.
From stdpp Require Import list.
From S2P Require Import Prelude.
From S2P Require Import Slice.
From S2P Require Import Coding.
From S2P Require Import Status.
From S2P Require Import IoPosix.
From S2P Require Import IoPosixTheorems.
From S2P Require Import Env.
From S2P Require Import EnvTheorems.
From S2P Require Import AutoRoll.
From S2P Require Import AutoRollTheorems.
From S2P Require Import MemEnv.

(** ** env.cc *)

(** A string written to a file is read back. [WriteStringToFile] returns whatever fails, and
    touches no other file; when it returns OK the file has the string, with nothing behind it if the
    environment trims its files, and
    [ReadFileToString] of it returns, with fuel for its blocks, and gives the string when it
    returns OK. *)
Lemma string_file_roundtrip `{Host} {E} `{EnvFiles E} data fname sync fuel (e : E) :
  env_ok e -> trims e -> zlen data < 2 ^ 62 -> zlen data <= kBufferSize * (Z.of_nat fuel - 1) ->
  exists s e1, WriteStringToFile data fname sync e = Ret (s, e1) /\ same_but file_of fname e e1 /\
    (ok s = true -> file_of e1 fname = Some data /\
      exists s2 d e2, ReadFileToString fuel fname e1 = Ret (s2, d, e2) /\ (forall g, file_of e2 g = file_of e1 g) /\ (ok s2 = true -> d = data)).
Proof.
  intros He Ht Hl Hf. destruct (WriteStringToFile_spec data fname sync e He Hl) as (s & e1 & E1 & He1 & Hs1 & Hok).
  exists s, e1. split; [done|]. split; [done|]. intros Hs. destruct (Hok Hs) as (c & Hc & _ & Hx). rewrite (Hx Ht) in Hc. split; [done|].
  destruct (ReadFileToString_spec fuel fname data e1 He1 Hc Hf) as (s2 & d & e2 & E2 & _ & Hy). by exists s2, d, e2.
Qed.

Lemma string_file_roundtrip_witness : exists s e1, WriteStringToFile (str "hello") (str "f") true (empty_env 0 true true) = Ret (s, e1) /\
  (ok s = true -> exists s2 d e2, ReadFileToString 2 (str "f") e1 = Ret (s2, d, e2) /\ (ok s2 = true -> d = str "hello")).
Proof.
  destruct (@string_file_roundtrip le_host MemEnv MemEnv_env MemEnv_files (str "hello") (str "f") true 2 (empty_env 0 true true))
    as (s & e1 & E1 & _ & Hok); [exact I|exact I|reflexivity|vm_compute; discriminate|].
  exists s, e1. split; [exact E1|]. intros Hs. destruct (Hok Hs) as (_ & s2 & d & e2 & E2 & _ & Hd). exists s2, d, e2. exact (conj E2 Hd).
Defined.

(** the two families of logging functions agree. On a logger that has the [Logv] of the
    base class, [Log], [Debug], [Info], [Warn], [Error] and [Fatal] do the same with a pointer,
    where they look at the level first, and with a [shared_ptr], where they do not: the message
    is given to the logger exactly when its level is at least that of the logger. Only for
    [HEADER_LEVEL] they differ: with a pointer it is a header, with a [shared_ptr] the name of
    the level is read from behind the array. *)
Theorem log_overloads_agree {O L} `{Logger O L} (l : L) format ap (o : O) :
  (forall level, l_Logv l level format ap o = Logger_Logv l level format ap o) ->
  (forall level, level <> HEADER_LEVEL ->
    Log level (Some l) format ap o = shared_Log level (Some l) format ap o /\
    Log level (Some l) format ap o =
      if level_num (l_GetInfoLogLevel l o) <=? level_num level then
        l_Logv2 l (if bool_decide (level = INFO_LEVEL) then format
          else ztake 498 (str "[" ++ default [] (kInfoLogLevelNames !! Z.to_nat (level_num level)) ++ str "] " ++ format)) ap o
      else Ret (tt, o)) /\
  Debug_log (Some l) format ap o = shared_Debug (Some l) format ap o /\ Info_log (Some l) format ap o = shared_Info (Some l) format ap o /\
  Warn_log (Some l) format ap o = shared_Warn (Some l) format ap o /\ Error_log (Some l) format ap o = shared_Error (Some l) format ap o /\
  Fatal_log (Some l) format ap o = shared_Fatal (Some l) format ap o /\ Log_info (Some l) format ap o = shared_Log_info (Some l) format ap o /\
  Log HEADER_LEVEL (Some l) format ap o = l_LogHeader l format ap o /\ shared_Log HEADER_LEVEL (Some l) format ap o = Undef.
Proof.
  intros Hv.
  assert (forall level, log_at level (Some l) format ap o = shared_at level (Some l) format ap o) as Hat.
  { intros level. unfold log_at, shared_at, enabled.
    destruct (Z.leb_spec (level_num (l_GetInfoLogLevel l o)) (level_num level)); [done|]. rewrite Hv. unfold Logger_Logv.
    by replace (level_num level <? level_num (l_GetInfoLogLevel l o)) with true by lia. }
  split; [|split_and!; try apply Hat].
  - intros level Hl. assert (Log level (Some l) format ap o = log_at level (Some l) format ap o) as El.
    { unfold Log, log_at. by rewrite (bool_decide_false (level = HEADER_LEVEL)) by done. }
    rewrite El. split; [apply Hat|]. unfold log_at, enabled. destruct (Z.leb_spec (level_num (l_GetInfoLogLevel l o)) (level_num level)); [|done].
    rewrite Hv. unfold Logger_Logv. replace (level_num level <? level_num (l_GetInfoLogLevel l o)) with false by lia. by destruct level.
  - unfold Log, enabled. by destruct (l_GetInfoLogLevel l o).
  - unfold shared_Log, shared_at. rewrite Hv. unfold Logger_Logv. by destruct (l_GetInfoLogLevel l o).
Qed.

Lemma log_overloads_agree_witness : let l := 0%nat in
  @Log MemEnv _ _ mem_logger WARN_LEVEL (Some l) (str "m") [] (empty_env 0 true true) =
    @shared_Log MemEnv _ _ mem_logger WARN_LEVEL (Some l) (str "m") [] (empty_env 0 true true).
Proof.
  destruct (@log_overloads_agree MemEnv nat plain_printf mem_logger 0%nat (str "m") [] (empty_env 0 true true)) as [Ha _].
  - reflexivity.
  - destruct (Ha WARN_LEVEL ltac:(discriminate)) as [E _]. exact E.
Defined.

(** ** The rolling log *)

(** C35: no information log is lost or overwritten. [AutoRollLogger::Logv] on an open logger, when
    renaming works and there are fewer files than names to try, returns. Either it appends the
    message to the current log and touches no other file, or it rolls: then the old log, whole,
    has a name that no file had, all other files are as before, and the new log is the headers
    in order and the message; only when the new log could not be opened the message is lost. It
    rolls when the log is as long as allowed, and never when there is no limit. [LogHeader]
    appends, too, and keeps the text for the logs to come. Where renaming fails the old log is overwritten
    ([failed_rename_loses_log]). The environment is any that keeps the
    promises of EnvFiles and LogFiles; [PosixEnv] with [PosixLogger] does ([World_logs]). *)
Theorem roll_keeps_logs `{Host} {E} `{LogFiles E} fuel a format ap c (e : E) : running a e c -> renames e -> few_files e fuel ->
  (exists roll a' e', ar_Logv fuel a format ap e = Ret (a', e') /\ kept a a' /\
    (0 < kMaxLogFileSize a <= u64 (zlen c) -> roll = true) /\ (kMaxLogFileSize a <= 0 -> kLogFileTimeToRoll a <= 0 -> roll = false) /\
    if roll : bool then rolled a a' e e' c (vformat format ap) else appended a a' e e' c (vformat format ap)) /\
  (exists a' e', ar_LogHeader a format ap e = Ret (a', e') /\ appended a a' e e' c (vformat format ap) /\
    headers_ a' = headers_ a ++ [c_string (ztake 1023 (vformat format ap))]).
Proof. intros Ha Hr Hf. split; [by apply ar_Logv_spec|by apply ar_LogHeader_spec]. Qed.

(** A logger on the log of [MemEnv] with a log that is longer than its limit of one byte. *)
Definition full_env (renames opens : bool) : MemEnv :=
  mkMemEnv (at_name (str "d/LOG") (Some (str "old")) (fun _ => None)) (fun _ => 0) (fun l => if Nat.eqb l 0 then Some (str "d/LOG") else None) 1 7 renames opens.
Definition full_logger : AutoRollLogger (E := MemEnv) :=
  mkAutoRoll (str "d/LOG") (str "d") (Some (0%nat : @logger MemEnv MemEnv_env)) OK 1 0 [str "header"] 0 0 0 100 5 INFO_LEVEL.

Lemma full_running renames opens : running full_logger (full_env renames opens) (str "old").
Proof. do 3 (split; [done|]). exists 0%nat. split; [reflexivity|]. split; reflexivity. Qed.
Lemma full_few renames opens : few_files (full_env renames opens) 2.
Proof.
  exists [str "d/LOG"]. split; [|split; [simpl; lia|lia]]. intros f Hf. apply list_elem_of_singleton. simpl in Hf. unfold at_name in Hf.
  case_bool_decide; [done|]. by destruct Hf.
Qed.

(** a log that cannot be reopened is fatal. When a roll could not open the new log, [Logv]
    returns without a word, but from then on every [Logv] fails its assertion and every
    [LogHeader] and [GetLogFileSize] dereferences a null pointer, whatever the system does. *)
Theorem failed_reset_is_fatal `{Host} {E} `{LogFiles E} fuel a format ap c (e : E) a' e' : running a e c -> renames e -> few_files e fuel ->
  ar_Logv fuel a format ap e = Ret (a', e') -> ok (status_ a') = false ->
  (forall fuel2 format2 ap2 e2, ar_Logv fuel2 a' format2 ap2 e2 = AssertFail) /\
  (forall format2 ap2 e2, ar_LogHeader a' format2 ap2 e2 = Undef) /\ (forall e2, ar_GetLogFileSize a' e2 = Undef).
Proof.
  intros Ha Hr Hf E1 Hs. destruct (ar_Logv_spec fuel a format ap c e Ha Hr Hf) as (roll & a2 & e2 & E2 & _ & _ & _ & Hx).
  rewrite E1 in E2. injection E2 as <- <-.
  assert (logger_ a' = None) as Hl.
  { destruct roll; [|destruct Hx as (b & _ & (_ & Hs' & _) & _); congruence]. destruct Hx as (ts & _ & _ & _ & _ & Hx). by rewrite Hs in Hx. }
  split_and!.
  - intros fuel2 format2 ap2 e2. unfold ar_Logv, Logv_locked, GetStatus, mbind, IO_bind, io_assert. by rewrite Hs.
  - intros format2 ap2 e2. unfold ar_LogHeader, with_logger. simpl. by rewrite Hl.
  - intros e2. unfold ar_GetLogFileSize, with_logger. by rewrite Hl.
Qed.

Lemma failed_reset_is_fatal_witness : exists a' e',
  @ar_Logv le_host MemEnv _ _ _ 2 full_logger (str "m") [] (full_env true false) = Ret (a', e') /\
  forall format2 ap2 e2, @ar_Logv le_host MemEnv _ _ _ 2 a' format2 ap2 e2 = AssertFail.
Proof.
  eexists _, _. split; [reflexivity|]. intros format2 ap2 e2.
  refine (proj1 (@failed_reset_is_fatal le_host MemEnv plain_printf MemEnv_env MemEnv_files mem_env_logger MemEnv_logs 2 full_logger (str "m") [] (str "old")
    (full_env true false) _ _ (full_running _ _) eq_refl (full_few _ _) _ _) 2%nat format2 ap2 e2); reflexivity.
Defined.

(** When renaming fails [RollLogFile] says nothing, and the log is opened anew over the old
    one, which is lost. *)
Lemma failed_rename_loses_log : exists a' e', @ar_Logv le_host MemEnv _ _ _ 2 full_logger (str "m") [] (full_env false true) = Ret (a', e') /\
  me_files e' (str "d/LOG") = Some (str "header" ++ [x0a] ++ str "m" ++ [x0a]).
Proof. eexists _, _. split; reflexivity. Qed.
