(* ===== verification/EnvPosix.v ===== *)
(** * EnvPosix ([rutil/env_posix.cc])

    [PosixEnv]: opening files, directories, locks, the thread pools, names and times, as
    programs over the system calls with paths. [Posix_] marks the methods of the class. *)

From Stdlib Require Import Strings.Byte Strings.String.
From stdpp Require Import list gmap pretty.
From S2P Require Import Prelude.
From S2P Require Import Slice.
From S2P Require Import Coding.
From S2P Require Import Status.
From S2P Require Import FileApi.
From S2P Require Import ThreadPool.
From S2P Require Import IoPosix.
From S2P Require Import Env.

(** ** System calls with paths *)

(** What the code uses of [struct stat] and [struct tm]. *)
Record Stat : Type := mkStat { st_size : Z; st_mtime : Z; st_isdir : bool }.
Record Tm : Type := mkTm { tm_year : Z; tm_mon : Z; tm_mday : Z; tm_hour : Z; tm_min : Z; tm_sec : Z }.

Class PosixPaths (O : Type) `{Posix O} := {
  set_errno : O -> Z -> O;
  sys_open : O -> Slice -> Z -> Z * O;
  sys_fopen : O -> Slice -> Slice -> option Z * O;
  c_fileno : O -> Z -> Z;
  sys_getfd : O -> Z -> Z * O;
  sys_setfd : O -> Z -> Z -> Z * O;
  sys_setlk : O -> Z -> bool -> Z * O;
  sys_mmap_read : O -> Z -> Z -> option (list byte) * O;
  sys_access : O -> Slice -> Z * O;
  sys_stat : O -> Slice -> (Z * Stat) * O;
  sys_statfs : O -> Slice -> (Z * Z) * O;
  sys_unlink : O -> Slice -> Z * O;
  sys_mkdir : O -> Slice -> Z * O;
  sys_rmdir : O -> Slice -> Z * O;
  sys_rename : O -> Slice -> Slice -> Z * O;
  sys_link : O -> Slice -> Slice -> Z * O;
  sys_opendir : O -> Slice -> option Z * O;
  sys_readdir : O -> Z -> option Slice * O;
  sys_closedir : O -> Z -> Z * O;
  sys_gettimeofday : O -> (Z * Z) * O;
  sys_clock_gettime : O -> (Z * Z) * O;
  sys_time : O -> Z * O;
  sys_gethostname : O -> Z -> (Z * Slice) * O;
  sys_getcwd : O -> Z -> option Slice * O;
  sys_usleep : O -> Z -> O;
  c_getenv : O -> Slice -> option Slice;
  c_geteuid : O -> Z;
  c_localtime : Z -> Tm;
  c_gettid : O -> Z;
  sys_pthread_join : O -> pthread_t -> Z * O;
  c_fwrite : O -> Z -> list byte -> Z * O;
  c_fflush : O -> Z -> Z * O;
  c_fclose : O -> Z -> O;
}.

Definition O_RDONLY : Z := 0.
Definition O_WRONLY : Z := 1.
Definition O_RDWR : Z := 2.
Definition O_CREAT : Z := 64.
Definition O_TRUNC : Z := 512.
Definition O_APPEND : Z := 1024.
Definition O_DIRECT : Z := 16384.
Definition FD_CLOEXEC : Z := 1.
Definition ENOENT : Z := 2.
Definition EIO : Z := 5.
Definition ENOMEM : Z := 12.
Definition EACCES : Z := 13.
Definition EFAULT : Z := 14.
Definition EEXIST : Z := 17.
Definition EXDEV : Z := 18.
Definition ENOTDIR : Z := 20.
Definition ENAMETOOLONG : Z := 36.
Definition ENOLCK : Z := 37.
Definition ELOOP : Z := 40.
Definition EXT4_SUPER_MAGIC : Z := 61267.
Definition XFS_SUPER_MAGIC : Z := 1481003842.
Definition TMPFS_MAGIC : Z := 16914836.

(** ** The state *)

(** The members that the methods use, and the set of locked names, a static variable of the
    file behind a mutex. *)
Record PosixEnv : Type := mkPosixEnv {
  lockedFiles : list Slice;
  checkedDiskForMmap_ : bool;
  forceMmapOff : bool;
  env_page_size_ : Z;
  thread_pools_ : list Pool;
  threads_to_join_ : list pthread_t;
}.
Definition set_locked (v : PosixEnv) l := mkPosixEnv l (checkedDiskForMmap_ v) (forceMmapOff v) (env_page_size_ v) (thread_pools_ v) (threads_to_join_ v).
Definition set_checked (v : PosixEnv) off := mkPosixEnv (lockedFiles v) true off (env_page_size_ v) (thread_pools_ v) (threads_to_join_ v).
Definition set_pools (v : PosixEnv) p := mkPosixEnv (lockedFiles v) (checkedDiskForMmap_ v) (forceMmapOff v) (env_page_size_ v) p (threads_to_join_ v).
Definition set_to_join (v : PosixEnv) j := mkPosixEnv (lockedFiles v) (checkedDiskForMmap_ v) (forceMmapOff v) (env_page_size_ v) (thread_pools_ v) j.

Section env.
Context `{Host} {O : Type} `{PosixPaths O}.

(** The files that the environment makes. *)
Inductive OpenSequential : Type := SeqPosix (f : PosixSequentialFile) | SeqDirect (f : PosixDirectIOSequentialFile).
Inductive OpenRandom : Type := RandPosix (f : PosixRandomAccessFile) | RandDirect (f : PosixRandomAccessFile) | RandMmap (f : PosixMmapReadableFile).
Inductive OpenWritable : Type := WritePosix (f : PosixWritableFile) | WriteDirect (f : PosixWritableFile) | WriteMmap (f : PosixMmapFile).

(** The destructors that are left; the file of direct reads has an empty one. *)
Definition Sequential_delete (f : PosixSequentialFile) : IO (O := O) unit := call (fun o => (tt, c_fclose o (sq_file f))).
Definition DirectSequential_delete (f : PosixDirectIOSequentialFile) : IO (O := O) unit := mret tt.

(** [IOError(fname, errno)] *)
Definition fail_errno (fname : Slice) : IO (O := O) Status := e ← get_errno; mret (IOError_of fname e).
Definition status_zero (fname : Slice) (r : Z) : IO (O := O) Status := if negb (r =? 0) then fail_errno fname else mret OK.

(** ** Opening files *)

Definition SetFD_CLOEXEC (fd : Z) (options : option EnvOptions) : IO (O := O) unit :=
  if match options with None => true | Some o => opt_set_fd_cloexec o end && (0 <? fd) then
    flags ← call (fun o => sys_getfd o fd);
    _ ← call (fun o => sys_setfd o fd (Z.lor flags FD_CLOEXEC));
    mret tt
  else mret tt.

(** The loops that repeat a call that was interrupted. *)
Fixpoint fopen_loop (fuel : nat) (fname mode : Slice) : IO (O := O) (option Z) :=
  match fuel with
  | 0%nat => io_nofuel
  | S fuel' =>
      f ← call (fun o => sys_fopen o fname mode);
      e ← get_errno;
      match f with None => if e =? EINTR then fopen_loop fuel' fname mode else mret None | Some s => mret (Some s) end
  end.
Fixpoint open_loop (fuel : nat) (fname : Slice) (flags : Z) : IO (O := O) Z :=
  match fuel with
  | 0%nat => io_nofuel
  | S fuel' =>
      fd ← call (fun o => sys_open o fname flags);
      e ← get_errno;
      if (fd <? 0) && (e =? EINTR) then open_loop fuel' fname flags else mret fd
  end.

(** In the direct case the stream stays open. *)
Definition Posix_NewSequentialFile (fuel : nat) (fname : Slice) (options : EnvOptions) : IO (O := O) (Status * option OpenSequential) :=
  f ← fopen_loop fuel fname (str "r");
  match f with
  | None => s ← fail_errno fname; mret (s, None)
  | Some f =>
      if opt_use_direct_reads options && negb (opt_use_mmap_writes options) then
        fd ← call (fun o => sys_open o fname (Z.lor O_RDONLY O_DIRECT));
        if fd <? 0 then s ← fail_errno fname; mret (s, None)
        else mret (OK, Some (SeqDirect (mkDirectSeq fname fd 0)))
      else
        fd ← (fun o => Ret (c_fileno o f, o));
        _ ← SetFD_CLOEXEC fd (Some options);
        mret (OK, Some (SeqPosix (mkSeq fname f fd (opt_use_os_buffer options))))
  end.

Definition Posix_GetFileSize (fname : Slice) : IO (O := O) (Status * Z) :=
  '(r, sbuf) ← call (fun o => sys_stat o fname);
  if negb (r =? 0) then s ← fail_errno fname; mret (s, 0) else mret (OK, u64 (st_size sbuf)).

(** The constructors of the files for random access, with their assertions. *)
Definition RandomAccess_new (fname : Slice) (fd : Z) (options : EnvOptions) : IO (O := O) PosixRandomAccessFile :=
  _ ← io_assert (negb (opt_use_mmap_reads options));
  mret (mkRandomAccess fname fd (opt_use_os_buffer options)).
Definition DirectRandomAccess_new (fname : Slice) (fd : Z) : IO (O := O) PosixRandomAccessFile := RandomAccess_new fname fd EnvOptions_new.
Definition MmapReadable_new (fd : Z) (fname : Slice) (region : list byte) (length : Z) (options : EnvOptions)
  : IO (O := O) PosixMmapReadableFile :=
  _ ← io_assert (opt_use_mmap_reads options);
  _ ← io_assert (opt_use_os_buffer options);
  mret (mkMmapReadable fname region length fd).

(** In the mapped case the descriptor is closed, in the direct case the first one stays open. *)
Definition Posix_NewRandomAccessFile (fname : Slice) (options : EnvOptions) : IO (O := O) (Status * option OpenRandom) :=
  fd ← call (fun o => sys_open o fname O_RDONLY);
  _ ← SetFD_CLOEXEC fd (Some options);
  if fd <? 0 then s ← fail_errno fname; mret (s, None)
  else if opt_use_mmap_reads options then
    '(s, size) ← Posix_GetFileSize fname;
    r ← (if ok s then
           base ← call (fun o => sys_mmap_read o size fd);
           match base with
           | Some region =>
               file ← MmapReadable_new fd fname region size options;
               mret (s, Some (RandMmap file))
           | None => s ← fail_errno fname; mret (s, None)
           end
         else mret (s, None));
    _ ← call (fun o => sys_close o fd);
    mret r
  else if opt_use_direct_reads options then
    fd ← call (fun o => sys_open o fname (Z.lor O_RDONLY O_DIRECT));
    if fd <? 0 then s ← fail_errno fname; mret (s, None)
    else
      file ← DirectRandomAccess_new fname fd;
      mret (OK, Some (RandDirect file))
  else
    file ← RandomAccess_new fname fd options;
    mret (OK, Some (RandPosix file)).

Definition SupportsFastAllocate (path : Slice) : IO (O := O) bool :=
  '(r, f_type) ← call (fun o => sys_statfs o path);
  mret (if negb (r =? 0) then false
        else (f_type =? EXT4_SUPER_MAGIC) || (f_type =? XFS_SUPER_MAGIC) || (f_type =? TMPFS_MAGIC)).
(** The check of the disk, once in the life of the environment. *)
Definition check_disk (v : PosixEnv) (fname : Slice) (options : EnvOptions) : IO (O := O) PosixEnv :=
  if opt_use_mmap_writes options && negb (checkedDiskForMmap_ v) then
    fast ← SupportsFastAllocate fname;
    mret (set_checked v (if fast : bool then forceMmapOff v else true))
  else mret v.
Definition new_mmap_file (v : PosixEnv) (fname : Slice) (fd : Z) (o : EnvOptions) : IO (O := O) OpenWritable :=
  f ← PosixMmapFile_new fname fd (env_page_size_ v) (opt_use_mmap_writes o) (opt_allow_fallocate o) (opt_fallocate_with_keep_size o);
  mret (WriteMmap f).
Definition new_posix_file (fname : Slice) (fd : Z) (o : EnvOptions) : IO (O := O) PosixWritableFile :=
  PosixWritableFile_new fname fd (opt_use_mmap_writes o) (opt_allow_fallocate o) (opt_fallocate_with_keep_size o).
(** The constructor of [PosixDirectIOWritableFile] passes on [EnvOptions()]. *)
Definition new_direct_file (fname : Slice) (fd : Z) : IO (O := O) PosixWritableFile := new_posix_file fname fd EnvOptions_new.
Definition no_mmap (o : EnvOptions) : EnvOptions := with_mmap_writes o false (opt_fallocate_with_keep_size o).

Definition Posix_NewWritableFile (fuel : nat) (v : PosixEnv) (fname : Slice) (options : EnvOptions)
  : IO (O := O) (Status * option OpenWritable * PosixEnv) :=
  fd ← open_loop fuel fname (Z.lor O_CREAT (Z.lor O_RDWR O_TRUNC));
  if fd <? 0 then s ← fail_errno fname; mret (s, None, v)
  else
    _ ← SetFD_CLOEXEC fd (Some options);
    v ← check_disk v fname options;
    if opt_use_mmap_writes options && negb (forceMmapOff v) then
      f ← new_mmap_file v fname fd options; mret (OK, Some f, v)
    else if opt_use_direct_writes options then
      fd ← call (fun o => sys_open o fname (Z.lor O_WRONLY (Z.lor O_APPEND (Z.lor O_TRUNC (Z.lor O_CREAT O_DIRECT)))));
      if fd <? 0 then s ← fail_errno fname; mret (s, None, v)
      else f ← new_direct_file fname fd; mret (OK, Some (WriteDirect f), v)
    else f ← new_posix_file fname fd (no_mmap options); mret (OK, Some (WritePosix f), v).

Definition Posix_ReuseWritableFile (fuel : nat) (v : PosixEnv) (fname old_fname : Slice) (options : EnvOptions)
  : IO (O := O) (Status * option OpenWritable * PosixEnv) :=
  fd ← open_loop fuel old_fname O_RDWR;
  if fd <? 0 then s ← fail_errno fname; mret (s, None, v)
  else
    _ ← SetFD_CLOEXEC fd (Some options);
    renamed ← call (fun o => sys_rename o old_fname fname);
    if negb (renamed =? 0) then
      r ← fail_errno old_fname;
      _ ← call (fun o => sys_close o fd);
      mret (r, None, v)
    else
      v ← check_disk v fname options;
      if opt_use_mmap_writes options && negb (forceMmapOff v) then
        f ← new_mmap_file v fname fd options; mret (OK, Some f, v)
      else f ← new_posix_file fname fd (no_mmap options); mret (OK, Some (WritePosix f), v).

Definition Posix_NewDirectory (name : Slice) : IO (O := O) (Status * option Z) :=
  fd ← call (fun o => sys_open o name 0);
  if fd <? 0 then s ← fail_errno name; mret (s, None) else mret (OK, Some fd).

(** ** Names *)

(** [access] fails with -1, which the assertion compares with the error numbers. *)
Definition Posix_FileExists (fname : Slice) : IO (O := O) Status :=
  result ← call (fun o => sys_access o fname);
  if result =? 0 then mret OK
  else
    e ← get_errno;
    if (e =? EACCES) || (e =? ELOOP) || (e =? ENAMETOOLONG) || (e =? ENOENT) || (e =? ENOTDIR) then mret (NotFound [] [])
    else
      _ ← io_assert ((result =? EIO) || (result =? ENOMEM));
      mret (IOError (str "Unexpected error(" ++ str (pretty result) ++ str ") accessing file `" ++ fname ++ str "' ") []).

Fixpoint readdir_loop (fuel : nat) (d : Z) (result : list Slice) : IO (O := O) (list Slice) :=
  match fuel with
  | 0%nat => io_nofuel
  | S fuel' =>
      entry ← call (fun o => sys_readdir o d);
      match entry with Some name => readdir_loop fuel' d (result ++ [name]) | None => mret result end
  end.
Definition Posix_GetChildren (fuel : nat) (dir : Slice) : IO (O := O) (Status * list Slice) :=
  d ← call (fun o => sys_opendir o dir);
  match d with
  | None => s ← fail_errno dir; mret (s, [])
  | Some d =>
      result ← readdir_loop fuel d [];
      _ ← call (fun o => sys_closedir o d);
      mret (OK, result)
  end.

Definition Posix_DeleteFile (fname : Slice) : IO (O := O) Status := r ← call (fun o => sys_unlink o fname); status_zero fname r.
Definition Posix_CreateDir (name : Slice) : IO (O := O) Status := r ← call (fun o => sys_mkdir o name); status_zero name r.
Definition DirExists (dname : Slice) : IO (O := O) bool :=
  '(r, statbuf) ← call (fun o => sys_stat o dname); mret (if r =? 0 then st_isdir statbuf else false).
Definition Posix_CreateDirIfMissing (name : Slice) : IO (O := O) Status :=
  r ← call (fun o => sys_mkdir o name);
  if negb (r =? 0) then
    e ← get_errno;
    if negb (e =? EEXIST) then mret (IOError_of name e)
    else
      dir ← DirExists name;
      mret (if negb dir then IOError (str "`" ++ name ++ str "' exists but is not a directory") [] else OK)
  else mret OK.
Definition Posix_DeleteDir (name : Slice) : IO (O := O) Status := r ← call (fun o => sys_rmdir o name); status_zero name r.
Definition Posix_GetFileModificationTime (fname : Slice) : IO (O := O) (Status * Z) :=
  '(r, s) ← call (fun o => sys_stat o fname);
  if negb (r =? 0) then s ← fail_errno fname; mret (s, 0) else mret (OK, u64 (st_mtime s)).
Definition Posix_RenameFile (src target : Slice) : IO (O := O) Status := r ← call (fun o => sys_rename o src target); status_zero src r.
Definition Posix_LinkFile (src target : Slice) : IO (O := O) Status :=
  r ← call (fun o => sys_link o src target);
  if negb (r =? 0) then
    e ← get_errno;
    mret (if e =? EXDEV then NotSupported (str "No cross FS links allowed") [] else IOError_of src e)
  else mret OK.
Definition Posix_GetAbsolutePath (db_path : Slice) : IO (O := O) (Status * Slice) :=
  if match db_path with b :: _ => bool_decide (b = x2f) | [] => false end then mret (OK, db_path)
  else
    ret ← call (fun o => sys_getcwd o 256);
    match ret with
    | None => e ← get_errno; mret (IOError (strerror e) [], [])
    | Some cwd => mret (OK, cwd)
    end.
Definition Posix_GetTestDirectory : IO (O := O) (Status * Slice) := fun o =>
  let result := match c_getenv o (str "TEST_TMPDIR") with
    | Some (b :: d) => b :: d
    | _ => ztake 99 (str "/tmp/rocksutiltest-" ++ str (pretty (c_geteuid o)))
    end in
  (_ ← Posix_CreateDir result; mret (OK, result)) o.
Definition Posix_GetHostName (len : Z) : IO (O := O) (Status * Slice) :=
  '(ret, name) ← call (fun o => sys_gethostname o len);
  if ret <? 0 then
    e ← get_errno;
    mret (if (e =? EFAULT) || (e =? EINVAL) then error kInvalidArgument kNone (strerror e) [] else IOError_of (str "GetHostName") e, name)
  else mret (OK, name).

(** ** Locks *)

Record PosixFileLock : Type := mkLock { lock_fd : Z; lock_filename : Slice }.

(** The mutex is held from the beginning to the end. *)
Definition LockOrUnlock (v : PosixEnv) (fname : Slice) (fd : Z) (lock : bool) : IO (O := O) (Z * PosixEnv) :=
  let held := bool_decide (fname ∈ lockedFiles v) in
  if Bool.eqb lock held then
    _ ← (fun o => Ret (tt, set_errno o ENOLCK));
    mret (-1, v)
  else
    let names := filter (fun g => g <> fname) (lockedFiles v) in
    _ ← (fun o => Ret (tt, set_errno o 0));
    value ← call (fun o => sys_setlk o fd lock);
    mret (value, set_locked v (if lock && negb (value =? -1) then fname :: lockedFiles v else names)).

Definition Posix_LockFile (v : PosixEnv) (fname : Slice) : IO (O := O) (Status * option PosixFileLock * PosixEnv) :=
  fd ← call (fun o => sys_open o fname (Z.lor O_RDWR O_CREAT));
  if fd <? 0 then s ← fail_errno fname; mret (s, None, v)
  else
    '(r, v) ← LockOrUnlock v fname fd true;
    if r =? -1 then
      s ← fail_errno (str "lock " ++ fname);
      _ ← call (fun o => sys_close o fd);
      mret (s, None, v)
    else
      _ ← SetFD_CLOEXEC fd None;
      mret (OK, Some (mkLock fd fname), v).
Definition Posix_UnlockFile (v : PosixEnv) (my_lock : PosixFileLock) : IO (O := O) (Status * PosixEnv) :=
  '(r, v) ← LockOrUnlock v (lock_filename my_lock) (lock_fd my_lock) false;
  s ← (if r =? -1 then fail_errno (str "unlock") else mret OK);
  _ ← call (fun o => sys_close o (lock_fd my_lock));
  mret (s, v).

(** ** Time *)

Definition Posix_NowMicros : IO (O := O) Z := '(sec, usec) ← call sys_gettimeofday; mret (u64 (u64 sec * 1000000 + usec)).
Definition Posix_NowNanos : IO (O := O) Z := '(sec, nsec) ← call sys_clock_gettime; mret (u64 (u64 sec * 1000000000 + nsec)).
Definition Posix_SleepForMicroseconds (micros : Z) : IO (O := O) unit := call (fun o => (tt, sys_usleep o micros)).
Definition Posix_GetCurrentTime : IO (O := O) (Status * Z) :=
  ret ← call sys_time;
  if ret =? -1 then s ← fail_errno (str "GetCurrentTime"); mret (s, 0) else mret (OK, ret).

(** [%0*d] *)
Definition zero_padded (width n : Z) : Slice :=
  let digits := str (pretty (Z.to_N (Z.abs n))) in
  let sign := if n <? 0 then str "-" else [] in
  sign ++ zrep (width - zlen sign - zlen digits) x30 ++ digits.
(** [%llx] *)
Definition hex_digit (d : Z) : byte := nth (Z.to_nat d) (str "0123456789abcdef") x30.
Fixpoint hex_loop (fuel : nat) (n : Z) (acc : Slice) : Slice :=
  match fuel with
  | 0%nat => acc
  | S fuel' => let acc := hex_digit (n mod 16) :: acc in if n <? 16 then acc else hex_loop fuel' (n / 16) acc
  end.
Definition hex (n : Z) : Slice := hex_loop 16 (u64 n) [].
Definition date_and_time (t : Tm) : Slice :=
  zero_padded 4 (tm_year t + 1900) ++ str "/" ++ zero_padded 2 (tm_mon t + 1) ++ str "/" ++ zero_padded 2 (tm_mday t) ++ str "-" ++
  zero_padded 2 (tm_hour t) ++ str ":" ++ zero_padded 2 (tm_min t) ++ str ":" ++ zero_padded 2 (tm_sec t).
(** The buffer of 64 bytes is returned as a whole. *)
Definition Posix_TimeToString (secondsSince1970 : Z) : Slice :=
  let text := ztake 63 (date_and_time (c_localtime (swrap 64 secondsSince1970)) ++ str " ") in
  text ++ zrep (64 - zlen text) x00.

Definition Posix_OptimizeForLogWrite (env_options : EnvOptions) : EnvOptions := with_mmap_writes env_options false true.
Definition Posix_OptimizeForManifestWrite (env_options : EnvOptions) : EnvOptions := with_mmap_writes env_options false true.

(** ** Threads *)

(** The pools of the priorities [LOW] 0 and [HIGH] 1. *)
Definition with_pool {A} (v : PosixEnv) (pri : Z) (f : Pool -> outcome (A * Pool)) : outcome (A * PosixEnv) :=
  match thread_pools_ v !! Z.to_nat pri with
  | Some p => '(a, p) ← f p; mret (a, set_pools v (<[Z.to_nat pri := p]> (thread_pools_ v)))
  | None => Undef
  end.
Definition pool_priority (pri : Z) : outcome unit := assert_that ((0 <=? pri) && (pri <=? 1)).
Definition Posix_Schedule (ts : list pthread_t) (woken : gset pthread_t) (v : PosixEnv) (item : BGItem) (pri : Z) : outcome (list event * PosixEnv) :=
  _ ← pool_priority pri; with_pool v pri (Schedule ts woken item).
Definition Posix_UnSchedule (v : PosixEnv) (arg pri : Z) : outcome (Z * list event * PosixEnv) := with_pool v pri (UnSchedule arg).
Definition Posix_GetThreadPoolQueueLen (v : PosixEnv) (pri : Z) : outcome Z :=
  _ ← pool_priority pri; match thread_pools_ v !! Z.to_nat pri with Some p => mret (GetQueueLen p) | None => Undef end.
Definition Posix_SetBackgroundThreads (ts : list pthread_t) (v : PosixEnv) (num pri : Z) : outcome (unit * PosixEnv) :=
  _ ← pool_priority pri; with_pool v pri (fun p => p ← SetBackgroundThreads ts num p; mret (tt, p)).
Definition Posix_IncBackgroundThreadsIfNeeded (ts : list pthread_t) (v : PosixEnv) (num pri : Z) : outcome (unit * PosixEnv) :=
  _ ← pool_priority pri; with_pool v pri (fun p => p ← IncBackgroundThreadsIfNeeded ts num p; mret (tt, p)).
Definition Posix_LowerThreadPoolIOPriority (v : PosixEnv) (pool : Z) : outcome (unit * PosixEnv) :=
  _ ← pool_priority pool; with_pool v pool (fun p => mret (tt, LowerIOPriority p)).

(** [t] is the handle that [pthread_create] returns. *)
Definition Posix_StartThread (t : pthread_t) (v : PosixEnv) : PosixEnv := set_to_join v (threads_to_join_ v ++ [t]).
Fixpoint join_all (ts : list pthread_t) : IO (O := O) unit :=
  match ts with [] => mret tt | t :: rest => _ ← call (fun o => sys_pthread_join o t); join_all rest end.
Definition Posix_WaitForJoin (v : PosixEnv) : IO (O := O) PosixEnv := _ ← join_all (threads_to_join_ v); mret (set_to_join v []).

Definition io_lift {A} (x : outcome A) : IO (O := O) A := fun o =>
  match x with Ret a => Ret (a, o) | AssertFail => AssertFail | Undef => Undef | NoFuel => NoFuel end.
(** The destructor: the threads, then the pools up to the point where they wait for theirs. *)
Fixpoint join_pools (ps : list Pool) : outcome (list Pool) :=
  match ps with [] => mret [] | p :: rest => p ← JoinAllThreads p; rest ← join_pools rest; mret (p :: rest) end.
Definition PosixEnv_delete (v : PosixEnv) : IO (O := O) PosixEnv :=
  _ ← join_all (threads_to_join_ v);
  ps ← io_lift (join_pools (thread_pools_ v));
  mret (set_pools v ps).

(** The constructor; the members of the pools that it does not set are [priority0]. *)
Definition PosixEnv_new (page_size env : Z) (priority0 : Z -> Z) : PosixEnv :=
  mkPosixEnv [] false false page_size
    (map (fun pool_id => SetHostEnv (SetThreadPriority (ThreadPoolImpl_new (priority0 pool_id)) pool_id) env) [0; 1]) [].
End env.
