(* ===== verification/Random64.v ===== *)
(** * Random64 ([Random64] of [rutil/random.h], [rutil/random.cc], [Env::GenerateUniqueId])

    The generator over [std::mt19937_64], which the C++ standard defines, the instance of
    [Random] of each thread, and the unique names made with them. *)

From Stdlib Require Import Strings.Byte Strings.String.
From stdpp Require Import list.
From S2P Require Import Prelude.
From S2P Require Import Slice.
From S2P Require Import Coding.
From S2P Require Import Status.
From S2P Require Import IoPosix.
From S2P Require Import Random.
From S2P Require Import Env.
From S2P Require Import EnvPosix.

(** ** [std::mt19937_64] *)

(** The words of the state and how many of them are used up. *)
Record mt19937_64 : Type := mkMt { mt_words : list Z; mt_index : nat }.
Definition mt_n : nat := 312.
Definition mt_m : nat := 156.
Fixpoint mt_seed_loop (fuel : nat) (i x : Z) : list Z :=
  match fuel with
  | 0%nat => []
  | S fuel' => x :: mt_seed_loop fuel' (i + 1) (u64 (6364136223846793005 * Z.lxor x (Z.shiftr x 62) + (i + 1)))
  end.
Definition mt_seed (s : Z) : mt19937_64 := mkMt (mt_seed_loop mt_n 0 (u64 s)) mt_n.

(** One word of the recurrence, of the word itself, the one after it and the one [mt_m] further. *)
Definition mt_word (x y far : Z) : Z :=
  let z := Z.lor (Z.land x (Z.lxor (Z.ones 64) (Z.ones 31))) (Z.land y (Z.ones 31)) in
  Z.lxor far (Z.lxor (Z.shiftr z 1) (if Z.odd z then 13043109905998158313 else 0)).
(** The next word is put at the end, behind the [mt_n] ones before it. *)
Fixpoint mt_twist_loop (fuel : nat) (near far : list Z) : list Z :=
  match fuel, near, far with
  | S fuel', x :: ((y :: _) as near'), f :: far' => mt_word x y f :: mt_twist_loop fuel' near' far'
  | _, _, _ => []
  end.
(** The whole state: the second half needs words of the first one, the last word the first new one. *)
Definition mt_twist (w : list Z) : list Z :=
  let a := mt_twist_loop (mt_n - mt_m) w (drop mt_m w) in
  let b := mt_twist_loop mt_m (drop (mt_n - mt_m) w ++ take 1 a) a in
  a ++ b.
Definition mt_temper (x : Z) : Z :=
  let x := Z.lxor x (Z.land (Z.shiftr x 29) 6148914691236517205) in
  let x := Z.lxor x (Z.land (u64 (Z.shiftl x 17)) 8202884508482404352) in
  let x := Z.lxor x (Z.land (u64 (Z.shiftl x 37)) 18444473444759240704) in
  Z.lxor x (Z.shiftr x 43).
Definition mt_next (g : mt19937_64) : Z * mt19937_64 :=
  let g := if (mt_n <=? mt_index g)%nat then mkMt (mt_twist (mt_words g)) 0 else g in
  (mt_temper (nth (mt_index g) (mt_words g) 0), mkMt (mt_words g) (S (mt_index g))).

Fixpoint mt_numbers (n : nat) (g : mt19937_64) : list Z :=
  match n with 0%nat => [] | S n' => let '(x, g) := mt_next g in x :: mt_numbers n' g end.
Example mt_first : mt_numbers 2 (mt_seed 5489) = [14514284786278117030; 4620546740167642908].
Proof. vm_compute. reflexivity. Qed.

(** ** [Random64] *)

Section Random64.
(** [std::uniform_int_distribution], which the standard leaves to the implementation. *)
Context (uniform_int_distribution : Z -> Z -> mt19937_64 -> Z * mt19937_64).

Definition Random64_new (s : Z) : mt19937_64 := mt_seed s.
Definition Random64_Next (g : mt19937_64) : Z * mt19937_64 := mt_next g.
Definition Random64_Uniform (n : Z) (g : mt19937_64) : Z * mt19937_64 := uniform_int_distribution 0 (u64 (n - 1)) g.
Definition Random64_OneIn (n : Z) (g : mt19937_64) : bool * mt19937_64 := let '(x, g) := Random64_Uniform n g in (x =? 0, g).
Definition Random64_Skewed (max_log : Z) (g : mt19937_64) : Z * mt19937_64 :=
  let '(base, g) := Random64_Uniform (u64 (swrap 32 (max_log + 1))) g in Random64_Uniform (u64 (Z.shiftl 1 base)) g.

(** ** [Env::GenerateUniqueId] *)

Context `{Host} {E : Type} `{Env E}.

(** [time_null] is the call [time(nullptr)], [now_nanos] the virtual [NowNanos]. *)
Definition GenerateUniqueId (fuel : nat) (time_null now_nanos : IO (O := E) Z) : IO (O := E) Slice :=
  let uuid_file := str "/proc/sys/kernel/random/uuid" in
  s ← FileExists uuid_file;
  r ← (if ok s then
         '(s, uuid) ← ReadFileToString fuel uuid_file;
         mret (if ok s then Some uuid else None)
       else mret None);
  match r with
  | Some uuid => mret uuid
  | None =>
      t ← time_null;
      let '(random_uuid_portion, _) := Random64_Uniform (2 ^ 64 - 1) (Random64_new (u64 t)) in
      nanos_uuid_portion ← now_nanos;
      mret (ztake 199 (hex nanos_uuid_portion ++ str "-" ++ hex random_uuid_portion))
  end.
End Random64.

(** ** [Random::GetTLSInstance] *)

(** The instances of the threads; a new one is seeded with the hash of the thread. *)
Definition GetTLSInstance (hash : Z -> Z) (tls_instance : Z -> option Z) (t : Z) : Z * (Z -> option Z) :=
  match tls_instance t with
  | Some rv => (rv, tls_instance)
  | None => let rv := Random_new (u32 (hash t)) in (rv, fun t' => if t' =? t then Some rv else tls_instance t')
  end.
(** Every thread has one instance, with a seed that a [Random] may have. *)
Lemma GetTLSInstance_stable hash tls t r tls' : GetTLSInstance hash tls t = (r, tls') ->
  tls' t = Some r /\ GetTLSInstance hash tls' t = (r, tls') /\ (forall t', t' <> t -> tls' t' = tls t') /\ (tls t = None -> 1 <= r <= M).
Proof.
  unfold GetTLSInstance. destruct (tls t) as [rv|] eqn:Et; intros E; injection E as <- <-.
  - by rewrite Et.
  - rewrite Z.eqb_refl. split; [done|]. split; [done|]. split; [|intros _; apply GoodSeed_range].
    intros t' Ht. by replace (t' =? t) with false by lia.
Qed.

(** ** Hexadecimal digits *)

Lemma hex_loop_length fuel : forall n acc, 0 <= n < 16 ^ Z.of_nat fuel -> (0 < fuel)%nat -> 1 + zlen acc <= zlen (hex_loop fuel n acc) <= Z.of_nat fuel + zlen acc.
Proof.
  induction fuel as [|fuel IH]; intros n acc Hn Hf; [lia|]. cbn [hex_loop].
  assert (zlen (hex_digit (n mod 16) :: acc) = 1 + zlen acc) as Hl by (unfold zlen; simpl; lia).
  destruct (Z.ltb_spec n 16); [rewrite Hl; lia|]. destruct fuel as [|fuel]; [change (16 ^ Z.of_nat 1) with 16 in Hn; lia|].
  assert (0 <= n / 16 < 16 ^ Z.of_nat (S fuel)) as Hd.
  { rewrite (Nat2Z.inj_succ (S fuel)), Z.pow_succ_r in Hn by lia. split; [apply Z.div_pos; lia|apply Z.div_lt_upper_bound; lia]. }
  specialize (IH (n / 16) (hex_digit (n mod 16) :: acc) Hd ltac:(lia)). rewrite Hl in IH. lia.
Qed.
(** A 64-bit number has at most 16 digits, so that the name fits its buffer of 200 bytes. *)
Lemma hex_length n : 1 <= zlen (hex n) <= 16.
Proof.
  unfold hex. pose proof (u64_range n). pose proof (hex_loop_length 16 (u64 n) []) as Hl. change (16 ^ Z.of_nat 16) with 18446744073709551616 in Hl.
  change (zlen (@nil byte)) with 0 in Hl. lia.
Qed.
Lemma unique_id_untruncated a b : ztake 199 (hex a ++ str "-" ++ hex b) = hex a ++ str "-" ++ hex b.
Proof.
  apply ztake_ge. rewrite !zlen_app. pose proof (hex_length a). pose proof (hex_length b). change (zlen (str "-")) with 1. lia.
Qed.
