(* ===== verification/PosixLogger.v ===== *)
(** * PosixLogger ([rutil/posix_logger.h], [NewLogger] of [rutil/env_posix.cc])

    The logger that writes to a stream: an entry is a line with the time and the thread, made
    in a buffer of 500 bytes or, when it is too long for that, of 64 KiB. *)

From Stdlib Require Import Strings.Byte Strings.String.
From stdpp Require Import list gmap pretty.
From S2P Require Import Prelude.
From S2P Require Import Slice.
From S2P Require Import Coding.
From S2P Require Import Status.
From S2P Require Import IoPosix.
From S2P Require Import Env.
From S2P Require Import EnvPosix.

(** The members of the class and, behind them, those of [Logger]. *)
Record PosixLogger : Type := mkPosixLogger {
  pl_file : Z;
  log_size_ : Z;
  pl_fd : Z;
  last_flush_micros_ : Z;
  flush_pending_ : bool;
  flush_every_seconds_ : Z;
  log_level_ : InfoLogLevel;
}.
Definition pl_flushed (l : PosixLogger) last := mkPosixLogger (pl_file l) (log_size_ l) (pl_fd l) last false (flush_every_seconds_ l) (log_level_ l).
Definition pl_written (l : PosixLogger) size := mkPosixLogger (pl_file l) size (pl_fd l) (last_flush_micros_ l) true (flush_every_seconds_ l) (log_level_ l).

Section logger.
Context `{Host} {O : Type} `{PosixPaths O} `{!Printf}.

Definition PosixLogger_new (f fd flush_every_seconds : Z) (log_level : InfoLogLevel) : PosixLogger :=
  mkPosixLogger f 0 fd 0 false flush_every_seconds log_level.

Definition pl_GetLogFileSize (l : PosixLogger) : Z := log_size_ l.

Definition pl_Flush (l : PosixLogger) : IO (O := O) PosixLogger :=
  _ ← (if flush_pending_ l then call (fun o => c_fflush o (pl_file l)) else mret 0);
  if negb (flush_every_seconds_ l =? 0) then now ← Posix_NowMicros; mret (pl_flushed l now)
  else mret (pl_flushed l (last_flush_micros_ l)).

(** The beginning of an entry. *)
Definition entry_header (seconds usec thread_id : Z) : Slice :=
  date_and_time (c_localtime seconds) ++ str "." ++ zero_padded 6 (swrap 32 usec) ++ str " " ++ hex thread_id ++ str " ".

(** What one turn puts into a buffer of [bufsize] bytes: the number of bytes that the entry
    needs, those that are there, and the time. *)
Definition print_entry (bufsize thread_id : Z) (format : Slice) (ap : va_list) : IO (O := O) (Z * Slice * (Z * Z)) :=
  now_tv ← call sys_gettimeofday;
  let header := entry_header now_tv.1 now_tv.2 thread_id in
  let entry := if zlen header <? bufsize then header ++ vformat format ap else header in
  mret (zlen entry, ztake (bufsize - 1) entry, now_tv).

Definition add_newline (base : Slice) : Slice :=
  match list_basics.list.last base with
  | Some b => if bool_decide (b = x0a) then base else base ++ [x0a]
  | None => [x0a]
  end.

Definition kDebugLogChunkSize : Z := 128 * 1024.
Definition allocation_chunk (n : Z) : Z := u64 (kDebugLogChunkSize - 1 + n) `div` kDebugLogChunkSize.

(** A finished line, from the test of the last byte on. *)
Definition write_entry (l : PosixLogger) (limit : Z) (base : Slice) (now_tv : Z * Z) : IO (O := O) PosixLogger :=
  let base := add_newline base in
  _ ← io_assert (zlen base <=? limit);
  let write_size := zlen base in
  let desired := allocation_chunk (u64 (log_size_ l + write_size)) in
  _ ← (if negb (allocation_chunk (log_size_ l) =? desired)
       then call (fun o => sys_fallocate o (pl_fd l) true 0 (off_t (u64 (desired * kDebugLogChunkSize))))
       else mret 0);
  sz ← call (fun o => c_fwrite o (pl_file l) base);
  _ ← io_assert (sz =? write_size);
  let l := pl_written l (if 0 <? sz then u64 (log_size_ l + write_size) else log_size_ l) in
  if flush_every_seconds_ l =? 0 then pl_Flush l
  else
    let now_micros := u64 (u64 now_tv.1 * 1000000 + now_tv.2) in
    if u64 (flush_every_seconds_ l * 1000000) <=? u64 (now_micros - last_flush_micros_ l) then pl_Flush l else mret l.

(** [Logv]: the turn with the array, and the one with the allocated buffer. *)
Definition pl_Logv (l : PosixLogger) (format : Slice) (ap : va_list) : IO (O := O) PosixLogger := fun o =>
  let thread_id := c_gettid o in
  ('(p, base, now_tv) ← print_entry 500 thread_id format ap;
   if p <? 500 then write_entry l 500 base now_tv
   else
     '(p, base, now_tv) ← print_entry 65536 thread_id format ap;
     write_entry l 65536 base now_tv) o.

Definition pl_delete (l : PosixLogger) : IO (O := O) unit := call (fun o => (tt, c_fclose o (pl_file l))).

(** [NewLogger] of [PosixEnv]. *)
Definition Posix_NewLogger (fname : Slice) (flush_every_seconds : Z) : IO (O := O) (Status * option PosixLogger) :=
  f ← call (fun o => sys_fopen o fname (str "w"));
  match f with
  | None => s ← fail_errno fname; mret (s, None)
  | Some f =>
      fd ← (fun o => Ret (c_fileno o f, o));
      _ ← call (fun o => sys_fallocate o fd true 0 (4 * 1024));
      _ ← SetFD_CLOEXEC fd None;
      mret (OK, Some (PosixLogger_new f fd flush_every_seconds ERROR_LEVEL))
  end.
End logger.
