(* ===== verification/EnvPosixTheorems.v ===== *)
(** * EnvPosixTheorems: locks, opening files and times

    The table of the locked names and the locks that are out, as a step relation with an
    invariant; how [NewWritableFile] ends; the loops that repeat an interrupted call. *)

From Stdlib Require Import Strings.Byte Strings.String.
From stdpp Require Import list gmap pretty.
From S2P Require Import Prelude.
From S2P Require Import Slice.
From S2P Require Import Coding.
From S2P Require Import Status.
From S2P Require Import FileApi.
From S2P Require Import ThreadPool.
From S2P Require Import IoPosix.
From S2P Require Import IoPosixTheorems.
From S2P Require Import Env.
From S2P Require Import EnvPosix.

Section theorems.
Context `{Host} {O : Type} `{PosixPaths O}.

Lemma call_run {A} (f : O -> A * O) o : call f o = Ret ((f o).1, (f o).2).
Proof. unfold call. by destruct (f o). Qed.

Lemma IO_call_step {A B} (f : O -> A * O) (k : A -> IO B) o : (call f ≫= k) o = k (f o).1 (f o).2.
Proof. apply IO_bind_step. apply call_run. Qed.

Lemma IOError_of_not_ok c e : ok (IOError_of c e) = false.
Proof. unfold IOError_of. by destruct (e =? ENOSPC). Qed.

Lemma fail_errno_step {B} fname (k : Status -> IO B) o : (fail_errno fname ≫= k) o = k (IOError_of fname (errno o)) o.
Proof. reflexivity. Qed.

(** ** The table of locks *)

Lemma filter_out_absent (x : Slice) (l : list Slice) : x ∉ l -> filter (fun g => g <> x) l = l.
Proof.
  induction l as [|y l IH]; intros Hx; [done|]. apply not_elem_of_cons in Hx as [Hxy Hx].
  rewrite filter_cons_True by congruence. by rewrite IH.
Qed.

Lemma set_locked_same v : set_locked v (lockedFiles v) = v.
Proof. by destruct v. Qed.

(** Locking: a held name fails with the table as it was; else the name is in the table
    afterwards exactly when [fcntl] has worked. *)
Lemma lock_run v fname fd o :
  (fname ∈ lockedFiles v -> LockOrUnlock v fname fd true o = Ret (-1, v, set_errno o ENOLCK)) /\
  (fname ∉ lockedFiles v -> exists r o', LockOrUnlock v fname fd true o = Ret (r, if r =? -1 then v else set_locked v (fname :: lockedFiles v), o') /\
    sys_setlk (set_errno o 0) fd true = (r, o')).
Proof.
  unfold LockOrUnlock. split; intros Hin.
  - by rewrite bool_decide_true by done.
  - rewrite bool_decide_false by done. cbv zeta. cbn [Bool.eqb andb].
    rewrite (IO_bind_step _ _ tt o (set_errno o 0)) by done. rewrite IO_call_step.
    destruct (sys_setlk (set_errno o 0) fd true) as [r o']. exists r, o'. split; [|done]. cbn [fst snd].
    unfold mret, IO_ret. do 3 f_equal. destruct (r =? -1); [|done]. simpl. rewrite filter_out_absent by done. apply set_locked_same.
Qed.

(** Unlocking: a name that is not held fails, a held one leaves the table in any case. *)
Lemma unlock_run v fname fd o :
  (fname ∉ lockedFiles v -> LockOrUnlock v fname fd false o = Ret (-1, v, set_errno o ENOLCK)) /\
  (fname ∈ lockedFiles v -> exists r o', LockOrUnlock v fname fd false o = Ret (r, set_locked v (filter (fun g => g <> fname) (lockedFiles v)), o') /\
    sys_setlk (set_errno o 0) fd false = (r, o')).
Proof.
  unfold LockOrUnlock. split; intros Hin.
  - by rewrite bool_decide_false by done.
  - rewrite bool_decide_true by done. cbv zeta. cbn [Bool.eqb andb].
    rewrite (IO_bind_step _ _ tt o (set_errno o 0)) by done. rewrite IO_call_step.
    destruct (sys_setlk (set_errno o 0) fd false) as [r o']. by exists r, o'.
Qed.

Lemma SetFD_CLOEXEC_run fd opts o : exists o', SetFD_CLOEXEC fd opts o = Ret (tt, o').
Proof.
  unfold SetFD_CLOEXEC. destruct (_ && _); [|by exists o]. rewrite !IO_call_step. by eexists.
Qed.

(** How [LockFile] ends. *)
Definition locked_result (v v' : PosixEnv) (fname : Slice) (s : Status) (r : option PosixFileLock) : Prop :=
  match r with
  | Some l => s = OK /\ lock_filename l = fname /\ (fname ∉ lockedFiles v) /\ v' = set_locked v (fname :: lockedFiles v)
  | None => ok s = false /\ v' = v
  end.
Lemma LockFile_run v fname o : exists s r v' o', Posix_LockFile v fname o = Ret (s, r, v', o') /\ locked_result v v' fname s r /\
  (fname ∈ lockedFiles v -> r = None).
Proof.
  unfold Posix_LockFile. rewrite IO_call_step. destruct (sys_open o fname (Z.lor O_RDWR O_CREAT)) as [fd o1]. cbn [fst snd].
  destruct (Z.ltb_spec fd 0).
  { rewrite fail_errno_step. eexists _, None, v, o1. split; [reflexivity|]. split; [|done]. split; [apply IOError_of_not_ok|done]. }
  destruct (decide (fname ∈ lockedFiles v)) as [Hin|Hin].
  - destruct (lock_run v fname fd o1) as [Hl _]. rewrite (IO_bind_step _ _ _ _ _ (Hl Hin)). cbv beta iota.
    change (-1 =? -1) with true. cbv iota. rewrite fail_errno_step, IO_call_step.
    eexists _, None, v, _. split; [reflexivity|]. split; [|done]. split; [apply IOError_of_not_ok|done].
  - destruct (lock_run v fname fd o1) as [_ Hl]. destruct (Hl Hin) as (r & o2 & E2 & _). rewrite (IO_bind_step _ _ _ _ _ E2). cbv beta iota.
    destruct (Z.eqb_spec r (-1)).
    + rewrite fail_errno_step, IO_call_step. eexists _, None, v, _. split; [reflexivity|]. split; [|done]. split; [apply IOError_of_not_ok|done].
    + destruct (SetFD_CLOEXEC_run fd None o2) as (o3 & E3). rewrite (IO_bind_step _ _ _ _ _ E3).
      eexists OK, (Some (mkLock fd fname)), _, o3. split; [reflexivity|]. by split.
Qed.

Lemma UnlockFile_run v l o : lock_filename l ∈ lockedFiles v -> exists s o',
  Posix_UnlockFile v l o = Ret (s, set_locked v (filter (fun g => g <> lock_filename l) (lockedFiles v)), o').
Proof.
  intros Hin. unfold Posix_UnlockFile. destruct (unlock_run v (lock_filename l) (lock_fd l) o) as [_ Hu].
  destruct (Hu Hin) as (r & o1 & E1 & _). rewrite (IO_bind_step _ _ _ _ _ E1). cbv beta iota.
  destruct (r =? -1).
  - rewrite fail_errno_step, IO_call_step. eexists _, _. reflexivity.
  - rewrite (IO_bind_step _ _ OK o1 o1) by done. rewrite IO_call_step. eexists _, _. reflexivity.
Qed.

(** What the processes do with locks: [live] are those that [LockFile] has given out and that
    were not given back. In between anything can happen to the system. *)
Record LockState : Type := mkLocks { ls_env : PosixEnv; ls_os : O; live : list PosixFileLock }.
Inductive lock_step : LockState -> LockState -> Prop :=
| step_lock v o ls fname s r v' o' : Posix_LockFile v fname o = Ret (s, r, v', o') ->
    lock_step (mkLocks v o ls) (mkLocks v' o' (match r with Some l => l :: ls | None => ls end))
| step_unlock v o ls1 l ls2 s v' o' : Posix_UnlockFile v l o = Ret (s, v', o') ->
    lock_step (mkLocks v o (ls1 ++ l :: ls2)) (mkLocks v' o' (ls1 ++ ls2))
| step_world v o o' ls : lock_step (mkLocks v o ls) (mkLocks v o' ls).

(** The table has the names of the locks that are out, each once. *)
Definition locks_inv (st : LockState) : Prop :=
  NoDup (map lock_filename (live st)) /\ lockedFiles (ls_env st) ≡ₚ map lock_filename (live st).

Lemma filter_out_middle (x : Slice) (l1 l2 : list Slice) : NoDup (l1 ++ x :: l2) -> filter (fun g => g <> x) (l1 ++ x :: l2) = l1 ++ l2.
Proof.
  intros Hn. apply list.NoDup_app in Hn as (_ & Hx & Hn2). apply list.NoDup_cons in Hn2 as [Hx2 _].
  rewrite list.filter_app, filter_cons_False by (intros Hxx; by apply Hxx).
  rewrite (filter_out_absent x l2) by done. rewrite filter_out_absent; [done|].
  intros Hin. apply (Hx x Hin). by left.
Qed.

Lemma lock_step_inv st st' : lock_step st st' -> locks_inv st -> locks_inv st'.
Proof.
  unfold locks_inv. intros Hs [Hn Hp]. destruct Hs as [v o ls fname s r v' o' E|v o ls1 l ls2 s v' o' E|v o o' ls]; simpl in *; [| |done].
  - destruct (LockFile_run v fname o) as (s2 & r2 & v2 & o2 & E2 & Hr & _). rewrite E in E2. injection E2 as <- <- <- <-.
    destruct r as [l|]; simpl in Hr; [|by destruct Hr as [_ ->]]. destruct Hr as (_ & <- & Hin & ->). simpl.
    rewrite Hp in Hin. split; [by constructor|]. by constructor.
  - rewrite map_app in Hn, Hp. rewrite map_app. simpl in *.
    assert (lock_filename l ∈ lockedFiles v) as Hin by (rewrite Hp; apply elem_of_app; right; left).
    destruct (UnlockFile_run v l o Hin) as (s2 & o2 & E2). rewrite E in E2. injection E2 as <- -> <-. simpl. split.
    + apply list.NoDup_app in Hn as (Hd1 & Hd2 & Hd3). apply list.NoDup_cons in Hd3 as [_ Hd3]. apply list.NoDup_app. split; [done|]. split; [|done].
      intros x Hx Hx2. apply (Hd2 x Hx). by right.
    + rewrite Hp. by rewrite filter_out_middle.
Qed.

Definition lock_init (v : PosixEnv) (o : O) : LockState := mkLocks v o [].
Lemma locks_reachable v o st : lockedFiles v = [] -> rtc lock_step (lock_init v o) st -> locks_inv st.
Proof.
  intros Hv Hr. assert (locks_inv (lock_init v o)) as Hi by (split; simpl; [constructor|by rewrite Hv]).
  induction Hr as [|x y z Hxy _ IH]; [done|]. apply IH. by apply (lock_step_inv x).
Qed.
End theorems.

(** ** Locks of the system *)

(** [fcntl] locks belong to the process: [lock_file o fd] is the file that [fd] is open for and
    [holds_lock o f] says that this process has the lock of [f]. Closing any descriptor of a
    file gives its lock up. *)
Class FileLocks (O : Type) `{PosixPaths O} := {
  lock_file : O -> Z -> option Slice;
  holds_lock : O -> Slice -> bool;
  set_errno_law : forall o e, errno (set_errno o e) = e /\ lock_file (set_errno o e) = lock_file o /\ holds_lock (set_errno o e) = holds_lock o;
  open_lock_law : forall o f flags fd o', sys_open o f flags = (fd, o') -> holds_lock o' = holds_lock o /\ (0 <= fd -> lock_file o' fd = Some f);
  close_lock_law : forall o fd f r o', lock_file o fd = Some f -> sys_close o fd = (r, o') -> holds_lock o' f = false;
  setlk_law : forall o fd f lock r o', lock_file o fd = Some f -> sys_setlk o fd lock = (r, o') ->
    lock_file o' = lock_file o /\ (r <> -1 -> holds_lock o' f = lock);
  cloexec_law : forall o fd flags, holds_lock (sys_setfd (sys_getfd o fd).2 fd flags).2 = holds_lock o;
}.

Section os_locks.
Context `{Host} {O : Type} `{FileLocks O}.

Lemma cloexec_locks fd opts o o' : SetFD_CLOEXEC fd opts o = Ret (tt, o') -> holds_lock o' = holds_lock o.
Proof.
  unfold SetFD_CLOEXEC. destruct (_ && _); [|intros E; by injection E as <-]. rewrite !IO_call_step. intros E. injection E as <-.
  apply cloexec_law.
Qed.

(** A lock that [LockFile] gives out is a lock of the system. *)
Lemma LockFile_locks v fname o s l v' o' : Posix_LockFile v fname o = Ret (s, Some l, v', o') -> holds_lock o' fname = true.
Proof.
  unfold Posix_LockFile. rewrite IO_call_step. destruct (sys_open o fname (Z.lor O_RDWR O_CREAT)) as [fd o1] eqn:Eo. cbn [fst snd].
  destruct (Z.ltb_spec fd 0) as [|Hfd]; [by rewrite fail_errno_step|]. destruct (open_lock_law _ _ _ _ _ Eo) as [_ Hf]. specialize (Hf Hfd).
  destruct (decide (fname ∈ lockedFiles v)) as [Hin|Hin].
  { destruct (lock_run v fname fd o1) as [Hl _]. rewrite (IO_bind_step _ _ _ _ _ (Hl Hin)). cbv beta iota.
    change (-1 =? -1) with true. cbv iota. by rewrite fail_errno_step, IO_call_step. }
  destruct (lock_run v fname fd o1) as [_ Hl]. destruct (Hl Hin) as (r & o2 & E2 & Ek). rewrite (IO_bind_step _ _ _ _ _ E2). cbv beta iota.
  destruct (Z.eqb_spec r (-1)) as [|Hr]; [by rewrite fail_errno_step, IO_call_step|].
  destruct (SetFD_CLOEXEC_run fd None o2) as (o3 & E3). rewrite (IO_bind_step _ _ _ _ _ E3). intros E. injection E as <- <- <- <-.
  rewrite (cloexec_locks _ _ _ _ E3). destruct (set_errno_law o1 0) as (_ & He & _).
  destruct (setlk_law _ _ fname _ _ _ ltac:(by rewrite He) Ek) as [_ Hh]. by apply Hh.
Qed.

(** [LockFile] on a name that this process has locked opens the file, sees the table, and
    closes what it has opened, and with that the lock of the system is gone. *)
Lemma relock_loses v fname o : fname ∈ lockedFiles v -> 0 <= (sys_open o fname (Z.lor O_RDWR O_CREAT)).1 ->
  exists o', Posix_LockFile v fname o = Ret (IOError_of (str "lock " ++ fname) ENOLCK, None, v, o') /\ holds_lock o' fname = false.
Proof.
  intros Hin Hfd. unfold Posix_LockFile. rewrite IO_call_step. destruct (sys_open o fname (Z.lor O_RDWR O_CREAT)) as [fd o1] eqn:Eo. cbn [fst snd] in *.
  destruct (open_lock_law _ _ _ _ _ Eo) as [_ Hf]. specialize (Hf Hfd). destruct (Z.ltb_spec fd 0); [lia|].
  destruct (lock_run v fname fd o1) as [Hl _]. rewrite (IO_bind_step _ _ _ _ _ (Hl Hin)). cbv beta iota.
  change (-1 =? -1) with true. cbv iota. rewrite fail_errno_step, IO_call_step. destruct (set_errno_law o1 ENOLCK) as (-> & He & _).
  destruct (sys_close (set_errno o1 ENOLCK) fd) as [r o2] eqn:Ec. exists o2. split; [done|].
  apply (close_lock_law _ _ fname _ _ ltac:(by rewrite He) Ec).
Qed.
End os_locks.

(** ** Opening for writing *)

Section opening.
Context `{Host} {O : Type} `{PosixPaths O}.

Lemma open_loop_run fuel f flags o fd o' : open_loop fuel f flags o = Ret (fd, o') -> 0 <= fd \/ errno o' <> EINTR.
Proof.
  revert o. induction fuel as [|fuel IH]; intros o; cbn [open_loop]; [done|]. rewrite IO_call_step. destruct (sys_open o f flags) as [r o1]. cbn [fst snd].
  rewrite (IO_bind_step _ _ (errno o1) o1 o1) by done. destruct (Z.ltb_spec r 0), (Z.eqb_spec (errno o1) EINTR); simpl; [apply IH| | |];
    intros E; injection E as <- <-; auto; left; lia.
Qed.

(** Direct writes: when the memory mapping is off, [NewWritableFile] asserts in the constructor
    of the file, which is given options of its own that ask for the mapping. *)
Lemma direct_write_run fuel v fname opts o fd o1 : opt_use_direct_writes opts = true ->
  opt_use_mmap_writes opts = false \/ checkedDiskForMmap_ v = true /\ forceMmapOff v = true ->
  open_loop fuel fname (Z.lor O_CREAT (Z.lor O_RDWR O_TRUNC)) o = Ret (fd, o1) ->
  if fd <? 0 then Posix_NewWritableFile fuel v fname opts o = Ret (IOError_of fname (errno o1), None, v, o1)
  else exists fd2 o2, if fd2 <? 0 then Posix_NewWritableFile fuel v fname opts o = Ret (IOError_of fname (errno o2), None, v, o2)
    else Posix_NewWritableFile fuel v fname opts o = AssertFail.
Proof.
  intros Hd Hm E. unfold Posix_NewWritableFile. rewrite (IO_bind_step _ _ _ _ _ E). destruct (fd <? 0); [done|].
  destruct (SetFD_CLOEXEC_run fd (Some opts) o1) as (o2 & E2).
  assert (check_disk v fname opts o2 = Ret (v, o2)) as Ed.
  { unfold check_disk. destruct Hm as [->|[-> _]]; [done|]. by rewrite andb_false_r. }
  rewrite (IO_bind_step _ _ _ _ _ E2), (IO_bind_step _ _ _ _ _ Ed).
  assert (opt_use_mmap_writes opts && negb (forceMmapOff v) = false) as -> by (destruct Hm as [->|[_ ->]]; [done|apply andb_false_r]).
  cbv iota. rewrite Hd, IO_call_step. destruct (sys_open o2 fname _) as [fd2 o3] eqn:Eo. cbn [fst snd]. exists fd2, o3. by destruct (fd2 <? 0).
Qed.
End opening.
