(* ===== verification/PosixLoggerTheorems.v ===== *)
(** * PosixLoggerTheorems: the lines of a log

    What the streams of the system promise, and what [Logv] of [PosixLogger] writes: one line
    per call, cut to the buffer. *)

From Stdlib Require Import Strings.Byte Strings.String.
From stdpp Require Import list.
From S2P Require Import Prelude.
From S2P Require Import Slice.
From S2P Require Import Coding.
From S2P Require Import Status.
From S2P Require Import IoPosix.
From S2P Require Import IoPosixTheorems.
From S2P Require Import Env.
From S2P Require Import EnvPosix.
From S2P Require Import EnvPosixTheorems.
From S2P Require Import PosixLogger.

(** [stream_bytes o s] are the bytes of the file that the stream [s] writes to, with those that
    are not flushed; [unflushed o s] of them, at the end, are still in the buffer of [s].
    [writable o s] says that [s] is open and the last stream that was opened
    to write that file, and that there is room for what is written, so that [fwrite] takes all
    of it and [fflush] succeeds. *)
Class LogStreams (O : Type) `{PosixPaths O} := {
  stream_bytes : O -> Z -> list byte;
  unflushed : O -> Z -> Z;
  writable : O -> Z -> Prop;
  time_stream_law : forall o, stream_bytes (sys_gettimeofday o).2 = stream_bytes o /\ unflushed (sys_gettimeofday o).2 = unflushed o /\
    forall s, writable o s -> writable (sys_gettimeofday o).2 s;
  keep_stream_law : forall o fd a n, stream_bytes (sys_fallocate o fd true a n).2 = stream_bytes o /\
    unflushed (sys_fallocate o fd true a n).2 = unflushed o /\ forall s, writable o s -> writable (sys_fallocate o fd true a n).2 s;
  fflush_law : forall o f, stream_bytes (c_fflush o f).2 = stream_bytes o /\ (forall s, writable o s -> writable (c_fflush o f).2 s) /\
    (writable o f -> unflushed (c_fflush o f).2 f = 0) /\ forall s, s <> f -> unflushed (c_fflush o f).2 s = unflushed o s;
  fwrite_law : forall o s d n o', c_fwrite o s d = (n, o') -> writable o s -> n = zlen d /\ stream_bytes o' s = stream_bytes o s ++ d /\
    unflushed o' s <= unflushed o s + zlen d /\
    forall s', writable o s' -> writable o' s' /\ (s' <> s -> stream_bytes o' s' = stream_bytes o s' /\ unflushed o' s' = unflushed o s');
}.

Lemma add_newline_spec base : exists t, add_newline base = t ++ [x0a] /\ zlen base <= zlen (add_newline base) <= zlen base + 1.
Proof.
  unfold add_newline. destruct (list_basics.list.last base) as [b|] eqn:El.
  - apply last_Some in El as [t ->]. case_bool_decide as Hb.
    + subst. exists t. split; [done|lia].
    + exists (t ++ [b]). split; [done|]. rewrite !zlen_app. change (zlen [b]) with 1. change (zlen [x0a]) with 1. lia.
  - apply last_None in El as ->. exists []. split; [done|]. change (zlen [x0a]) with 1. change (zlen (@nil byte)) with 0. lia.
Qed.

Lemma add_newline_line base : list_basics.list.last (add_newline base) = Some x0a.
Proof. destruct (add_newline_spec base) as (t & -> & _). apply last_snoc. Qed.

Section logger.
Context `{Host} {O : Type} `{LogStreams O} `{!Printf}.

(** The bytes of an entry: cut to the large buffer, with a newline. *)
Definition log_line (sec usec thread_id : Z) (text : Slice) : Slice :=
  add_newline (ztake 65535 (entry_header sec usec thread_id ++ text)).

Lemma log_line_spec sec usec tid text :
  0 < zlen (log_line sec usec tid text) <= 65536 /\ exists t, log_line sec usec tid text = t ++ [x0a].
Proof.
  unfold log_line. destruct (add_newline_spec (ztake 65535 (entry_header sec usec tid ++ text))) as (t & Ht & Hlen).
  assert (zlen (ztake 65535 (entry_header sec usec tid ++ text)) <= 65535) by (rewrite zlen_ztake by lia; lia).
  split; [|by eauto]. split; [|lia]. rewrite Ht, zlen_app. pose proof (zlen_nonneg t). change (zlen [x0a]) with 1. lia.
Qed.

(** A step that leaves the streams alone. *)
Definition quiet_streams (o o' : O) : Prop :=
  stream_bytes o' = stream_bytes o /\ unflushed o' = unflushed o /\ forall s, writable o s -> writable o' s.
Lemma quiet_streams_refl o : quiet_streams o o.
Proof. by split. Qed.

(** What another stream than [f] keeps. *)
Definition other_streams (f : Z) (o o' : O) : Prop :=
  forall s, writable o s -> writable o' s /\ (s <> f -> stream_bytes o' s = stream_bytes o s /\ unflushed o' s = unflushed o s).

Lemma other_streams_trans f o1 o2 o3 : other_streams f o1 o2 -> other_streams f o2 o3 -> other_streams f o1 o3.
Proof.
  intros H12 H23 s Hs. destruct (H12 s Hs) as [Hs2 Hb2]. destruct (H23 s Hs2) as [Hs3 Hb3]. split; [done|].
  intros Hne. destruct (Hb2 Hne) as [<- <-]. auto.
Qed.
Lemma quiet_others f o o' : quiet_streams o o' -> other_streams f o o'.
Proof. intros (Hb & Hu & Hw) s Hs. split; [auto|]. by rewrite Hb, Hu. Qed.

(** Nothing is pending but what is in the buffer, so everything is in the file when nothing is. *)
Definition log_flushed (l : PosixLogger) (o : O) : Prop := flush_pending_ l = false -> unflushed o (pl_file l) <= 0.

Lemma NowMicros_quiet o : exists now o', Posix_NowMicros o = Ret (now, o') /\ quiet_streams o o'.
Proof.
  unfold Posix_NowMicros. rewrite IO_call_step. destruct (time_stream_law o) as (Hs & Hu & Hr). destruct (sys_gettimeofday o) as [[sec usec] o1].
  cbn [fst snd] in *. eexists _, o1. split; [reflexivity|]. by split.
Qed.

Lemma pl_Flush_run l o : writable o (pl_file l) -> log_flushed l o -> exists last o', pl_Flush l o = Ret (pl_flushed l last, o') /\
  stream_bytes o' = stream_bytes o /\ other_streams (pl_file l) o o' /\ unflushed o' (pl_file l) <= 0.
Proof.
  intros Hw Hl. unfold pl_Flush.
  assert (exists r o1, (if flush_pending_ l then call (fun o => c_fflush o (pl_file l)) else mret 0) o = Ret (r, o1) /\
    stream_bytes o1 = stream_bytes o /\ other_streams (pl_file l) o o1 /\ unflushed o1 (pl_file l) <= 0) as (r & o1 & E1 & Hb & Ho & Hu).
  { unfold log_flushed in Hl. destruct (flush_pending_ l); [|exists 0, o; split; [done|]; split; [done|]; split; [apply quiet_others, quiet_streams_refl|auto]].
    destruct (fflush_law o (pl_file l)) as (Hb & Hr & Hu & Hn). eexists _, _. split; [apply call_run|]. split; [done|]. split; [|rewrite Hu by done; lia].
    intros s Hs. split; [auto|]. intros Hne. by rewrite Hb, Hn. }
  rewrite (IO_bind_step _ _ _ _ _ E1). destruct (negb (flush_every_seconds_ l =? 0)).
  - destruct (NowMicros_quiet o1) as (now & o2 & E2 & Hq). rewrite (IO_bind_step _ _ _ _ _ E2). exists now, o2. split; [done|].
    pose proof Hq as (Hb2 & Hu2 & _). split; [congruence|]. split; [|by rewrite Hu2].
    by eapply other_streams_trans; [|apply quiet_others].
  - exists (last_flush_micros_ l), o1. by split.
Qed.

(** Both turns in one: the bytes that are in the buffer. *)
Lemma print_entry_run bufsize tid format ap o : 0 < bufsize -> exists sec usec o',
  print_entry bufsize tid format ap o =
    Ret (if zlen (entry_header sec usec tid) <? bufsize then zlen (entry_header sec usec tid ++ vformat format ap) else zlen (entry_header sec usec tid),
         ztake (bufsize - 1) (entry_header sec usec tid ++ vformat format ap), (sec, usec), o') /\ quiet_streams o o'.
Proof.
  intros Hb. unfold print_entry. rewrite IO_call_step. destruct (time_stream_law o) as (Hs & Hu & Hr). destruct (sys_gettimeofday o) as [[sec usec] o1].
  cbn [fst snd] in *. exists sec, usec, o1. split; [|by split]. unfold mret, IO_ret. destruct (Z.ltb_spec (zlen (entry_header sec usec tid)) bufsize); [done|].
  do 4 f_equal. symmetry. apply ztake_app_le. lia.
Qed.

(** When [Logv] flushes: always for an interval of 0, else when the interval has elapsed since
    the last flush. *)
Definition flush_due (l : PosixLogger) (now_tv : Z * Z) : bool :=
  (flush_every_seconds_ l =? 0) ||
  (u64 (flush_every_seconds_ l * 1000000) <=? u64 (u64 (u64 now_tv.1 * 1000000 + now_tv.2) - last_flush_micros_ l)).

(** The logger and the system after [line] was written at the time [now_tv]: it is in the stream, with
    nothing behind it in the buffer if a flush was due; if not, a flush is pending. *)
Record line_written (l : PosixLogger) (line : Slice) (now_tv : Z * Z) (o : O) (l' : PosixLogger) (o' : O) : Prop := {
  lw_bytes : stream_bytes o' (pl_file l) = stream_bytes o (pl_file l) ++ line;
  lw_others : other_streams (pl_file l) o o';
  lw_same : pl_file l' = pl_file l /\ pl_fd l' = pl_fd l /\ flush_every_seconds_ l' = flush_every_seconds_ l /\ log_level_ l' = log_level_ l;
  lw_size : log_size_ l' = u64 (log_size_ l + zlen line);
  lw_flush : if flush_due l now_tv then flush_pending_ l' = false /\ unflushed o' (pl_file l) <= 0
    else flush_pending_ l' = true /\ last_flush_micros_ l' = last_flush_micros_ l /\ unflushed o' (pl_file l) <= unflushed o (pl_file l) + zlen line;
}.

Lemma line_written_quiet l line now_tv o o1 l' o' : quiet_streams o o1 -> line_written l line now_tv o1 l' o' -> line_written l line now_tv o l' o'.
Proof.
  intros Hq [Hb Ho Hs Hz Hf]. pose proof Hq as (Hqb & Hqu & _). rewrite Hqb in Hb. rewrite Hqu in Hf.
  constructor; try done. by eapply other_streams_trans; [apply quiet_others|].
Qed.

(** The end of [Logv], behind [fwrite]. *)
Lemma flush_turn l l2 now_tv o : l2 = pl_written l (log_size_ l2) -> writable o (pl_file l) -> exists l' o',
  (if flush_every_seconds_ l2 =? 0 then pl_Flush l2 else
      if u64 (flush_every_seconds_ l2 * 1000000) <=? u64 (u64 (u64 now_tv.1 * 1000000 + now_tv.2) - last_flush_micros_ l2) then pl_Flush l2 else mret l2) o = Ret (l', o') /\
  stream_bytes o' = stream_bytes o /\ other_streams (pl_file l) o o' /\
  if flush_due l now_tv then (exists last, l' = pl_flushed l2 last) /\ unflushed o' (pl_file l) <= 0 else l' = l2 /\ o' = o.
Proof.
  intros -> Hw. set (l2' := pl_written l _). unfold flush_due. change (flush_every_seconds_ l2') with (flush_every_seconds_ l).
  change (last_flush_micros_ l2') with (last_flush_micros_ l).
  destruct (pl_Flush_run l2' o) as (last & o3 & E3 & Hb & Ho & Hu); [done|by intros Hp|].
  destruct (flush_every_seconds_ l =? 0); [|destruct (u64 (flush_every_seconds_ l * 1000000) <=? _)].
  1-2: exists (pl_flushed l2' last), o3; do 3 (split; [done|]); cbn [orb]; split; [by exists last|done].
  exists l2', o. split; [done|]. split; [done|]. split; [|done]. apply quiet_others, quiet_streams_refl.
Qed.

(** A finished line: with room all of it is written, and counted. *)
Lemma write_entry_run l limit base now_tv o : writable o (pl_file l) -> zlen base < limit -> exists l' o',
  write_entry l limit base now_tv o = Ret (l', o') /\ line_written l (add_newline base) now_tv o l' o'.
Proof.
  intros Hroom Hlim. unfold write_entry. destruct (add_newline_spec base) as (t & Ht & Hlen).
  assert (0 < zlen (add_newline base)) as Hpos by (rewrite Ht, zlen_app; pose proof (zlen_nonneg t); change (zlen [x0a]) with 1; lia).
  rewrite (IO_bind_step _ _ tt o o) by (unfold io_assert; by replace (zlen (add_newline base) <=? limit) with true by lia).
  set (alloc := if negb _ then _ else _).
  assert (exists r o1, alloc o = Ret (r, o1) /\ quiet_streams o o1) as (r & o1 & E1 & Hq).
  { subst alloc. destruct (negb _); [|exists 0, o; split; [done|]; apply quiet_streams_refl]. eexists _, _. split; [apply call_run|]. apply keep_stream_law. }
  clearbody alloc. rewrite (IO_bind_step _ _ _ _ _ E1), IO_call_step. destruct (c_fwrite o1 (pl_file l) (add_newline base)) as [n o2] eqn:Ew. cbn [fst snd].
  pose proof Hq as (Hb1 & Hu1 & Hr1). destruct (fwrite_law _ _ _ _ _ Ew (Hr1 _ Hroom)) as (-> & Hb2 & Hu2 & Ho2).
  rewrite (IO_bind_step _ _ tt o2 o2) by (unfold io_assert; by rewrite Z.eqb_refl).
  replace (0 <? zlen (add_newline base)) with true by lia. cbv zeta iota. set (l2 := pl_written l _).
  destruct (flush_turn l l2 now_tv o2 eq_refl) as (l' & o' & E & Hb3 & Ho3 & Hl'); [by apply Ho2, Hr1|].
  exists l', o'. split; [exact E|]. apply (line_written_quiet _ _ _ _ o1); [exact Hq|].
  assert (other_streams (pl_file l) o1 o') as Ho by (eapply other_streams_trans; [exact Ho2|exact Ho3]).
  destruct (flush_due l now_tv) eqn:Ef.
  - destruct Hl' as [[last ->] Hu]. constructor; [by rewrite Hb3, Hb2|exact Ho|done|done|]. by rewrite Ef.
  - destruct Hl' as [-> ->]. constructor; [done|exact Ho|done|done|]. by rewrite Ef.
Qed.

Lemma Logv_run l format ap o : writable o (pl_file l) -> exists l' o' sec usec,
  pl_Logv l format ap o = Ret (l', o') /\
  line_written l (log_line sec usec (c_gettid o) (vformat format ap)) (sec, usec) o l' o'.
Proof.
  intros Hroom. unfold pl_Logv, log_line. set (tid := c_gettid o).
  destruct (print_entry_run 500 tid format ap o ltac:(lia)) as (sec & usec & o1 & E1 & Hq1). rewrite (IO_bind_step _ _ _ _ _ E1). cbv beta iota.
  assert (writable o1 (pl_file l)) as Hw1 by (by apply Hq1).
  destruct (Z.ltb_spec (if zlen (entry_header sec usec tid) <? 500 then zlen (entry_header sec usec tid ++ vformat format ap) else zlen (entry_header sec usec tid)) 500) as [Hs|Hs].
  - assert (zlen (entry_header sec usec tid ++ vformat format ap) < 500) as Hlt by (destruct (zlen (entry_header sec usec tid) <? 500) eqn:Eh; lia).
    rewrite (ztake_ge (500 - 1)) by lia.
    destruct (write_entry_run l 500 (entry_header sec usec tid ++ vformat format ap) (sec, usec) o1 Hw1 Hlt) as (l' & o' & E & Hx).
    exists l', o', sec, usec. rewrite (ztake_ge 65535) by lia. split; [exact E|]. by eapply line_written_quiet.
  - clear Hs. destruct (print_entry_run 65536 tid format ap o1 ltac:(lia)) as (sec2 & usec2 & o2 & E2 & Hq2). rewrite (IO_bind_step _ _ _ _ _ E2). cbv beta iota.
    change (65536 - 1) with 65535. assert (writable o2 (pl_file l)) as Hw2 by (by apply Hq2).
    destruct (write_entry_run l 65536 (ztake 65535 (entry_header sec2 usec2 tid ++ vformat format ap)) (sec2, usec2) o2 Hw2) as (l' & o' & E & Hx).
    { rewrite zlen_ztake by lia. lia. }
    exists l', o', sec2, usec2. split; [exact E|]. eapply line_written_quiet; [exact Hq1|]. by eapply line_written_quiet.
Qed.

(** A line that the stream does not take as a whole is the end of the process. *)
Lemma short_write_aborts l limit base now_tv o : zlen base < limit ->
  (forall o1, (c_fwrite o1 (pl_file l) (add_newline base)).1 <> zlen (add_newline base)) -> write_entry l limit base now_tv o = AssertFail.
Proof.
  intros Hlim Hw. unfold write_entry. destruct (add_newline_spec base) as (t & _ & Hlen).
  rewrite (IO_bind_step _ _ tt o o) by (unfold io_assert; by replace (zlen (add_newline base) <=? limit) with true by lia).
  set (alloc := if negb _ then _ else _). assert (exists r o1, alloc o = Ret (r, o1)) as (r & o1 & E1).
  { subst alloc. destruct (negb _); [|by exists 0, o]. eexists _, _. apply call_run. }
  clearbody alloc. rewrite (IO_bind_step _ _ _ _ _ E1), IO_call_step. unfold mbind, IO_bind at 1, io_assert.
  by replace (_ =? zlen (add_newline base)) with false by (specialize (Hw o1); lia).
Qed.
End logger.
