(* ===== verification/Kernel.v ===== *)
(** * Kernel: a system with files, descriptors, mappings, streams and locks

    A concrete instance of the system calls with paths, which shows that what the theorems on
    [PosixEnv] and [PosixLogger] rely on can be provided. Calls may be interrupted, record
    locks belong to the process and go with the first descriptor of the file that is closed.
    The numbers of descriptors are not used again, and a closed one still has its name. *)

From Stdlib Require Import Strings.Byte Strings.String.
From stdpp Require Import list.
From S2P Require Import Prelude.
From S2P Require Import Slice.
From S2P Require Import Coding.
From S2P Require Import Status.
From S2P Require Import FileApi.
From S2P Require Import IoPosix.
From S2P Require Import IoPosixTheorems.
From S2P Require Import IoPosixMmap.
From S2P Require Import EnvPosix.
From S2P Require Import EnvPosixTheorems.
From S2P Require Import PosixLogger.
From S2P Require Import PosixLoggerTheorems.

(** The files by their names; the names that descriptors and streams are open for, a stream
    with its position and whether it has met the end; the last stream that was opened to write
    each file; the number of the next descriptor or
    stream; [errno]; how many calls are still to be interrupted; the record locks of the
    process; the clock; the type of the file system; what is stored
    through descriptors that have no file; the object and the offset of the mapping at
    [k_addr], which takes the place of one that was there; how many bytes of a stream wait in its
    buffer, which is large. The bytes of a file are those that its streams were given. *)
Record Kernel : Type := mkKernel {
  k_files : Slice -> option (list byte);
  k_fds : Z -> option Slice;
  k_streams : Z -> option (Slice * Z * bool);
  k_owner : Slice -> option Z;
  k_next : nat;
  k_errno : Z;
  k_intr : nat;
  k_locks : Slice -> bool;
  k_now : Z;
  k_type : Z;
  k_void : Z -> list byte;
  k_map : option ((Slice + Z) * Z);
  k_unflushed : Z -> Z;
}.
Definition k_set_files (k : Kernel) f := mkKernel f (k_fds k) (k_streams k) (k_owner k) (k_next k) (k_errno k) (k_intr k) (k_locks k) (k_now k) (k_type k) (k_void k) (k_map k) (k_unflushed k).
Definition k_set_fds (k : Kernel) f n := mkKernel (k_files k) f (k_streams k) (k_owner k) n (k_errno k) (k_intr k) (k_locks k) (k_now k) (k_type k) (k_void k) (k_map k) (k_unflushed k).
Definition k_set_streams (k : Kernel) s n := mkKernel (k_files k) (k_fds k) s (k_owner k) n (k_errno k) (k_intr k) (k_locks k) (k_now k) (k_type k) (k_void k) (k_map k) (k_unflushed k).
Definition k_set_owner (k : Kernel) w := mkKernel (k_files k) (k_fds k) (k_streams k) w (k_next k) (k_errno k) (k_intr k) (k_locks k) (k_now k) (k_type k) (k_void k) (k_map k) (k_unflushed k).
Definition k_set_errno (k : Kernel) e := mkKernel (k_files k) (k_fds k) (k_streams k) (k_owner k) (k_next k) e (k_intr k) (k_locks k) (k_now k) (k_type k) (k_void k) (k_map k) (k_unflushed k).
Definition k_set_locks (k : Kernel) l := mkKernel (k_files k) (k_fds k) (k_streams k) (k_owner k) (k_next k) (k_errno k) (k_intr k) l (k_now k) (k_type k) (k_void k) (k_map k) (k_unflushed k).
Definition k_tick (k : Kernel) := mkKernel (k_files k) (k_fds k) (k_streams k) (k_owner k) (k_next k) (k_errno k) (k_intr k) (k_locks k) (k_now k + 1) (k_type k) (k_void k) (k_map k) (k_unflushed k).
Definition k_interrupted (k : Kernel) n := mkKernel (k_files k) (k_fds k) (k_streams k) (k_owner k) (k_next k) EINTR n (k_locks k) (k_now k) (k_type k) (k_void k) (k_map k) (k_unflushed k).
Definition k_empty (intr : nat) (type : Z) : Kernel := mkKernel (fun _ => None) (fun _ => None) (fun _ => None) (fun _ => None) 0 0 intr (fun _ => false) 1000 type (fun _ => []) None (fun _ => 0).

Definition k_set_map (k : Kernel) m := mkKernel (k_files k) (k_fds k) (k_streams k) (k_owner k) (k_next k) (k_errno k) (k_intr k) (k_locks k) (k_now k) (k_type k) (k_void k) m (k_unflushed k).
Definition k_set_void (k : Kernel) v := mkKernel (k_files k) (k_fds k) (k_streams k) (k_owner k) (k_next k) (k_errno k) (k_intr k) (k_locks k) (k_now k) (k_type k) v (k_map k) (k_unflushed k).
Definition k_addr : Z := 8192.

Definition upd {K A} `{EqDecision K} (x : K) (a : A) (m : K -> A) (y : K) : A := if decide (y = x) then a else m y.
Definition k_set_unflushed (k : Kernel) u := mkKernel (k_files k) (k_fds k) (k_streams k) (k_owner k) (k_next k) (k_errno k) (k_intr k) (k_locks k) (k_now k) (k_type k) (k_void k) (k_map k) u.
Lemma k_upd_eq {K A} `{EqDecision K} (x : K) (a : A) m : upd x a m x = a.
Proof. unfold upd. by rewrite decide_True. Qed.
Lemma k_upd_ne {K A} `{EqDecision K} (x : K) (a : A) m y : y <> x -> upd x a m y = m y.
Proof. intros Hn. unfold upd. by rewrite decide_False. Qed.

Definition k_bytes (k : Kernel) (f : Slice) : list byte := default [] (k_files k f).
Definition k_store (k : Kernel) (f : Slice) (c : list byte) : Kernel := k_set_files k (upd f (Some c) (k_files k)).
(** What a descriptor stands for: a file, or itself when it is not open. *)
Definition k_object (k : Kernel) (fd : Z) : Slice + Z := match k_fds k fd with Some f => inl f | None => inr fd end.
Definition k_object_bytes (k : Kernel) (x : Slice + Z) : list byte := match x with inl f => k_bytes k f | inr fd => k_void k fd end.
Definition k_object_store (k : Kernel) (x : Slice + Z) (c : list byte) : Kernel :=
  match x with inl f => k_store k f c | inr fd => k_set_void k (upd fd c (k_void k)) end.
Definition k_fd_bytes (k : Kernel) (fd : Z) : list byte := k_object_bytes k (k_object k fd).
Definition k_fd_store (k : Kernel) (fd : Z) (c : list byte) : Kernel := k_object_store k (k_object k fd) c.
Definition k_fail (k : Kernel) (e : Z) : Z * Kernel := (-1, k_set_errno k e).
Definition k_interruptible {A} (k : Kernel) (bad : A) (f : A * Kernel) : A * Kernel :=
  match k_intr k with S n => (bad, k_interrupted k n) | 0%nat => f end.
Definition k_stream_read (k : Kernel) (s n : Z) : (Z * list byte) * Kernel :=
  match k_streams k s with
  | Some (f, pos, _) =>
      let d := ztake n (zdrop pos (k_bytes k f)) in
      ((zlen d, d), k_set_streams k (upd s (Some (f, pos + zlen d, zlen d <? n)) (k_streams k)) (k_next k))
  | None => ((0, []), k)
  end.

#[export] Instance Kernel_posix : Posix Kernel := {
  errno := k_errno;
  strerror _ := str "error";
  kPageSize := 4096;
  sys_pread k fd n off := let d := ztake n (zdrop off (k_fd_bytes k fd)) in k_interruptible k (-1, []) ((zlen d, d), k);
  sys_pwrite k fd d off := k_interruptible k (-1) (zlen d, k_fd_store k fd (overwrite (k_fd_bytes k fd) off d));
  sys_write k fd d := k_interruptible k (-1) (zlen d, k_fd_store k fd (k_fd_bytes k fd ++ d));
  sys_close k fd := (0, k_set_locks k
    (match k_fds k fd with Some f => upd f false (k_locks k) | None => k_locks k end));
  sys_fsync k _ := (0, k);
  sys_fdatasync k _ := (0, k);
  sys_ftruncate k fd n := (0, k_fd_store k fd (ztake n (extend (k_fd_bytes k fd) n)));
  sys_fallocate k fd keep off n := (0, if keep then k else k_fd_store k fd (extend (k_fd_bytes k fd) (off + n)));
  sys_punch_hole k _ _ _ := (0, k);
  sys_sync_file_range k _ _ _ := (0, k);
  sys_fadvise k _ _ _ _ := (0, k);
  sys_memalign k n := (Some (4096, zrep n x23), k);
  sys_fstat k _ := ((0, (1, 2)), k);
  sys_getversion k _ := ((0, 3), k);
  sys_posix_fallocate k fd off n := (0, k_fd_store k fd (extend (k_fd_bytes k fd) (off + n)));
  sys_mmap k n fd off := if (n <=? 2 ^ 32) && (off mod 4096 =? 0) then (Some k_addr, k_set_map k (Some (k_object k fd, off))) else (None, k);
  sys_munmap k p n := if (p mod 4096 =? 0) && (0 <? n) then (0, k_set_map k None) else (-1, k);
  sys_msync k p _ := (if p mod 4096 =? 0 then 0 else -1, k);
  mem_store k p d := match k_map k with Some (x, off) => k_object_store k x (overwrite (k_object_bytes k x) (off + (p - k_addr)) d) | None => k end;
  c_fread := k_stream_read;
  c_feof k s := match k_streams k s with Some (_, _, eof) => eof | None => true end;
  c_ferror _ _ := false;
  c_clearerr k s := match k_streams k s with Some (f, pos, _) => k_set_streams k (upd s (Some (f, pos, false)) (k_streams k)) (k_next k) | None => k end;
  c_fseek_cur k s n := match k_streams k s with Some (f, pos, _) => (0, k_set_streams k (upd s (Some (f, pos + n, false)) (k_streams k)) (k_next k)) | None => (-1, k) end;
}.

(** A new descriptor or stream for the name [f]. *)
Definition k_handle (k : Kernel) : Z := Z.of_nat (k_next k) + 3.
Definition k_new_fd (k : Kernel) (f : Slice) : Z * Kernel := (k_handle k, k_set_fds k (upd (k_handle k) (Some f) (k_fds k)) (S (k_next k))).
Definition k_new_stream (k : Kernel) (f : Slice) : option Z * Kernel :=
  (Some (k_handle k), k_set_streams k (upd (k_handle k) (Some (f, 0, false)) (k_streams k)) (S (k_next k))).
Definition k_open (k : Kernel) (f : Slice) (flags : Z) : Z * Kernel :=
  k_interruptible k (-1)
    match k_files k f with
    | Some c => if Z.testbit flags 9 then k_new_fd (k_store k f []) f else k_new_fd k f
    | None => if Z.testbit flags 6 then k_new_fd (k_store k f []) f else k_fail k ENOENT
    end.
Definition k_fopen (k : Kernel) (f mode : Slice) : option Z * Kernel :=
  k_interruptible k None
    (if bool_decide (mode = str "w") then k_new_stream (k_set_owner (k_store k f []) (upd f (Some (k_handle k)) (k_owner k))) f
     else match k_files k f with Some _ => k_new_stream k f | None => (None, k_set_errno k ENOENT) end).
Definition k_move {A} (f g : Slice) (m : Slice -> option A) : Slice -> option A := upd f None (upd g (m f) m).
Definition k_rename (k : Kernel) (f g : Slice) : Z * Kernel :=
  match k_files k f with
  | None => k_fail k ENOENT
  | Some _ =>
      let re h := if decide (h = f) then g else h in
      (0, k_set_map (k_set_streams (k_set_fds (k_set_owner (k_set_files k (k_move f g (k_files k))) (k_move f g (k_owner k)))
            (fun fd => match k_fds k fd with Some h => Some (re h) | None => None end) (k_next k))
            (fun s => match k_streams k s with Some (h, pos, eof) => Some (re h, pos, eof) | None => None end) (k_next k))
            match k_map k with Some (inl h, off) => Some (inl (re h), off) | m => m end)
  end.
Definition k_fwrite (k : Kernel) (s : Z) (d : list byte) : Z * Kernel :=
  match k_streams k s with
  | Some (f, _, _) => (zlen d, k_set_unflushed (k_store k f (k_bytes k f ++ d)) (upd s (k_unflushed k s + zlen d) (k_unflushed k)))
  | None => (0, k)
  end.

#[export] Instance Kernel_paths : PosixPaths Kernel := {
  set_errno := k_set_errno;
  sys_open := k_open;
  sys_fopen := k_fopen;
  c_fileno _ s := s;
  sys_getfd k _ := (0, k);
  sys_setfd k _ _ := (0, k);
  sys_setlk k fd lock := match k_fds k fd with Some f => (0, k_set_locks k (upd f lock (k_locks k))) | None => k_fail k EINVAL end;
  sys_mmap_read k _ _ := (None, k);
  sys_access k f := match k_files k f with Some _ => (0, k) | None => k_fail k ENOENT end;
  sys_stat k f := match k_files k f with Some c => ((0, mkStat (zlen c) 0 false), k) | None => ((-1, mkStat 0 0 false), k_set_errno k ENOENT) end;
  sys_statfs k _ := ((0, k_type k), k);
  sys_unlink k f := match k_files k f with Some _ => (0, k_set_files k (upd f None (k_files k))) | None => k_fail k ENOENT end;
  sys_mkdir k _ := (0, k);
  sys_rmdir k _ := (0, k);
  sys_rename := k_rename;
  sys_link k _ _ := k_fail k EXDEV;
  sys_opendir k _ := (None, k_set_errno k ENOENT);
  sys_readdir k _ := (None, k);
  sys_closedir k _ := (0, k);
  sys_gettimeofday k := ((k_now k, 7), k_tick k);
  sys_clock_gettime k := ((k_now k, 0), k_tick k);
  sys_time k := (k_now k, k_tick k);
  sys_gethostname k _ := ((0, str "host"), k);
  sys_getcwd k _ := (Some (str "/"), k);
  sys_usleep k _ := k_tick k;
  c_getenv _ _ := None;
  c_geteuid _ := 0;
  c_localtime s := mkTm 70 0 1 0 0 s;
  c_gettid _ := 255;
  sys_pthread_join k _ := (0, k);
  c_fwrite := k_fwrite;
  c_fflush k s := (0, k_set_unflushed k (upd s 0 (k_unflushed k)));
  c_fclose k s := k_set_unflushed (k_set_streams k (upd s None (k_streams k)) (k_next k)) (upd s 0 (k_unflushed k));
}.

#[export] Instance Kernel_locks : FileLocks Kernel.
Proof.
  refine {| lock_file := k_fds; holds_lock := k_locks |}.
  - done.
  - intros k f flags fd k' E. simpl in E. unfold k_open, k_interruptible, k_new_fd, k_fail in E.
    destruct (k_intr k); [|injection E as <- <-; split; [done|lia]].
    destruct (k_files k f); [destruct (Z.testbit flags 9)|destruct (Z.testbit flags 6)]; injection E as <- <-; simpl;
      (split; [done|]); try lia; intros _; apply k_upd_eq.
  - intros k fd f r k' Hf E. simpl in *. injection E as <- <-. simpl. rewrite Hf. apply k_upd_eq.
  - intros k fd f lock r k' Hf E. simpl in *. rewrite Hf in E. injection E as <- <-. simpl. split; [done|]. intros _. apply k_upd_eq.
  - done.
Defined.

(** A stream writes to its file; there is always room. *)
Definition k_stream_bytes (k : Kernel) (s : Z) : list byte := match k_streams k s with Some (f, _, _) => k_bytes k f | None => [] end.
Definition k_owns (k : Kernel) (s : Z) (f : Slice) : Prop := (exists pos eof, k_streams k s = Some (f, pos, eof)) /\ k_owner k f = Some s.

Lemma k_bytes_store k f c g : k_bytes (k_store k f c) g = if decide (g = f) then c else k_bytes k g.
Proof. unfold k_bytes, k_store, upd. simpl. by destruct (decide (g = f)). Qed.

Lemma k_bytes_unflushed k u f : k_bytes (k_set_unflushed k u) f = k_bytes k f.
Proof. done. Qed.

#[export] Instance Kernel_streams : LogStreams Kernel.
Proof.
  refine {| stream_bytes := k_stream_bytes; writable k s := exists f, k_owns k s f; unflushed := k_unflushed |}; try done.
  - intros k s. split; [done|]. split; [done|]. split; [intros _; apply k_upd_eq|]. intros s' Hne. by apply k_upd_ne.
  - intros k s d n k' E (f & (pos & eof & Hs) & Ho). simpl in E. unfold k_fwrite in E. rewrite Hs in E. injection E as <- <-.
    unfold k_stream_bytes, k_owns. simpl. rewrite Hs. split; [done|]. split; [by rewrite k_bytes_unflushed, k_bytes_store, decide_True|]. split; [rewrite k_upd_eq; lia|].
    intros s' (g & (pos' & eof' & Hs') & Ho'). split; [by eauto 6|]. intros Hne. split; [|by apply k_upd_ne].
    rewrite Hs', k_bytes_unflushed, k_bytes_store, decide_False; [done|]. congruence.
Defined.
