(* ===== verification/EnvPosixProps.v ===== *)
(** * EnvPosixProps: what [PosixEnv] and [PosixLogger] do

    The properties over the laws of EnvPosixTheorems, with witnesses on the system of Kernel. *)

From Stdlib Require Import Strings.Byte Strings.String.
From stdpp Require Import list relations.
From S2P Require Import Prelude.
From S2P Require Import Slice.
From S2P Require Import Coding.
From S2P Require Import Status.
From S2P Require Import ThreadPool.
From S2P Require Import IoPosix.
From S2P Require Import IoPosixTheorems.
From S2P Require Import Env.
From S2P Require Import EnvPosix.
From S2P Require Import EnvPosixTheorems.
From S2P Require Import AutoRoll.
From S2P Require Import AutoRollTheorems.
From S2P Require Import MemEnv.
From S2P Require Import PosixLogger.
From S2P Require Import PosixLoggerTheorems.
From S2P Require Import Kernel.

(** ** Locks *)

(** C36: The table of the locked names. In every state that a new environment can reach by [LockFile],
    [UnlockFile] of locks that are out, and whatever else happens in the system, the table has
    exactly the names of the locks that are out, and no two of them have the same name. Both
    calls always return; [LockFile] fails and leaves the table as it is when the name is locked, and gives
    a lock out only when it was not; [UnlockFile] removes the name even when [fcntl] fails. As to the
    lock of the system: the process has it when [LockFile] has given a lock out; but a call that fails
    because the name is locked closes the descriptor it has opened, and with it the process loses
    the [fcntl] lock of the file, although the first lock is still out ([relock_loses_lock]). *)
Theorem lock_table `{Host} {O} `{PosixPaths O} page env pri (o : O) st :
  rtc lock_step (lock_init (PosixEnv_new page env pri) o) st ->
  NoDup (map lock_filename (live st)) /\ lockedFiles (ls_env st) ≡ₚ map lock_filename (live st) /\
  (forall fname o1, exists s r v o2, Posix_LockFile (ls_env st) fname o1 = Ret (s, r, v, o2) /\
    match r with
    | Some l => s = OK /\ lock_filename l = fname /\ (fname ∉ map lock_filename (live st)) /\ lockedFiles v = fname :: lockedFiles (ls_env st)
    | None => ok s = false /\ v = ls_env st
    end /\
    forall L : FileLocks O, match r with
    | Some l => holds_lock o2 fname = true
    | None => fname ∈ map lock_filename (live st) -> 0 <= (sys_open o1 fname (Z.lor O_RDWR O_CREAT)).1 -> holds_lock o2 fname = false
    end) /\
  (forall l o1, l ∈ live st -> exists s v o2, Posix_UnlockFile (ls_env st) l o1 = Ret (s, v, o2) /\ (lock_filename l ∉ lockedFiles v)).
Proof.
  intros Hr. destruct (locks_reachable (PosixEnv_new page env pri) o st eq_refl Hr) as [Hn Hp]. split; [done|]. split; [done|]. split.
  - intros fname o1. destruct (LockFile_run (ls_env st) fname o1) as (s & r & v & o2 & E & Hres & Hin). exists s, r, v, o2. split; [done|].
    destruct r as [l|]; simpl in Hres; split; try done.
    + destruct Hres as (-> & Hl & Hnin & ->). split; [done|]. split; [done|]. split; [|done]. by rewrite <- Hp.
    + intros L. by apply (LockFile_locks _ _ _ _ _ _ _ E).
    + intros L Hl Hfd. rewrite <- Hp in Hl. destruct (relock_loses _ _ _ Hl Hfd) as (o3 & E3 & Hh). rewrite E in E3. injection E3 as _ _ ->. exact Hh.
  - intros l o1 Hl. assert (lock_filename l ∈ lockedFiles (ls_env st)) as Hin by (rewrite Hp; by apply list_elem_of_fmap_2).
    destruct (UnlockFile_run (ls_env st) l o1 Hin) as (s & o2 & E). eexists s, _, o2. split; [exact E|]. simpl. intros Hx. apply list_elem_of_filter in Hx as [Hne _]. by apply Hne.
Qed.

Definition env0 : PosixEnv := PosixEnv_new 4096 1 (fun _ => 0).
Definition kernel0 : Kernel := k_empty 0 0.
(** One lock is out. *)
Definition locked_state : LockState (O := Kernel) :=
  match @Posix_LockFile le_host _ _ _ env0 (str "LOCK") kernel0 with
  | Ret (_, Some l, v, o) => mkLocks v o [l]
  | _ => mkLocks env0 kernel0 []
  end.
Lemma locked_state_step : rtc (@lock_step le_host Kernel _ _) (lock_init env0 kernel0) locked_state.
Proof. 
  destruct (@LockFile_run le_host Kernel _ _ env0 (str "LOCK") kernel0) as (s & r & v & o & E & _). pose proof (step_lock env0 kernel0 [] (str "LOCK") s r v o E) as Hs.
  unfold locked_state. destruct r as [l|]; [|discriminate E]. rewrite E. eapply rtc_l; [exact Hs|apply rtc_refl].
Qed.

Lemma lock_table_witness : lockedFiles (ls_env locked_state) = [str "LOCK"] /\
  exists s r v o2, @Posix_LockFile le_host _ _ _ (ls_env locked_state) (str "LOCK") (ls_os locked_state) = Ret (s, r, v, o2) /\
  match r with Some l => lock_filename l = str "LOCK" /\ (str "LOCK" ∉ map lock_filename (live locked_state)) | None => ok s = false end.
Proof.
  split; [reflexivity|].
  destruct (@lock_table le_host Kernel _ _ 4096 1 (fun _ => 0) kernel0 locked_state locked_state_step) as (_ & _ & Hl & _).
  destruct (Hl (str "LOCK") (ls_os locked_state)) as (s & r & v & o2 & E & Hr & _). exists s, r, v, o2. split; [exact E|].
  destruct r as [l|]; [|exact (proj1 Hr)]. destruct Hr as (_ & Hn & Hin & _). exact (conj Hn Hin).
Defined.

(** A second [LockFile] of a name takes the lock of the system away: it fails and leaves the table
    with the name, but it closes the descriptor that it has opened, and [fcntl] locks go with the
    first descriptor that the process closes. Another process can then have the lock, too,
    although the first lock is still out. *)
Lemma relock_loses_lock `{Host} {O} `{FileLocks O} v fname (o : O) s l v1 o1 :
  Posix_LockFile v fname o = Ret (s, Some l, v1, o1) -> 0 <= (sys_open o1 fname (Z.lor O_RDWR O_CREAT)).1 ->
  holds_lock o1 fname = true /\
  exists o2, Posix_LockFile v1 fname o1 = Ret (IOError_of (str "lock " ++ fname) ENOLCK, None, v1, o2) /\ holds_lock o2 fname = false.
Proof.
  intros E Hfd. split; [exact (LockFile_locks _ _ _ _ _ _ _ E)|].
  apply relock_loses; [|done]. destruct (LockFile_run v fname o) as (s2 & r2 & v2 & o2 & E2 & Hr & _). rewrite E in E2. injection E2 as <- <- <- <-.
  destruct Hr as (_ & _ & _ & ->). left.
Qed.

Lemma relock_loses_lock_witness : exists o2,
  @Posix_LockFile le_host _ _ _ (ls_env locked_state) (str "LOCK") (ls_os locked_state) = Ret (@IOError_of le_host _ _ (str "lock LOCK") ENOLCK, None, ls_env locked_state, o2) /\
  holds_lock o2 (str "LOCK") = false.
Proof.
  refine (proj2 (@relock_loses_lock le_host Kernel _ _ _ env0 (str "LOCK") kernel0 _ _ (ls_env locked_state) (ls_os locked_state) _ _)).
  - reflexivity.
  - vm_compute. discriminate.
Defined.

(** ** Direct writes *)

(** No file can be opened for direct writes. When they are asked for and no memory mapping is used,
    [NewWritableFile] returns an error because a call of [open] has failed, or it aborts: the
    constructor of [PosixDirectIOWritableFile] passes on the default options, which ask for memory
    mapped writes, and the constructor of its base class asserts that they do not. *)
Theorem direct_writes_abort `{Host} {O} `{PosixPaths O} fuel v fname opts (o : O) fd o1 : opt_use_direct_writes opts = true ->
  opt_use_mmap_writes opts = false \/ checkedDiskForMmap_ v = true /\ forceMmapOff v = true ->
  open_loop fuel fname (Z.lor O_CREAT (Z.lor O_RDWR O_TRUNC)) o = Ret (fd, o1) ->
  Posix_NewWritableFile fuel v fname opts o = AssertFail \/
  exists e o2, Posix_NewWritableFile fuel v fname opts o = Ret (IOError_of fname e, None, v, o2) /\ ok (IOError_of fname e) = false.
Proof.
  intros Hd Hm E. pose proof (direct_write_run fuel v fname opts o fd o1 Hd Hm E) as Hr. destruct (fd <? 0).
  { right. exists (errno o1), o1. split; [exact Hr|apply IOError_of_not_ok]. }
  destruct Hr as (fd2 & o2 & Hr). destruct (fd2 <? 0); [|by left]. right. exists (errno o2), o2. split; [exact Hr|apply IOError_of_not_ok].
Qed.

Definition direct_options : EnvOptions := mkEnvOptions true false false false true true true 0 true (1024 * 1024).
Lemma direct_writes_abort_witness : @Posix_NewWritableFile le_host _ _ _ 1 env0 (str "f") direct_options kernel0 = AssertFail.
Proof.
  destruct (@direct_writes_abort le_host Kernel Kernel_posix Kernel_paths 1 env0 (str "f") direct_options kernel0 3
    (k_open kernel0 (str "f") (Z.lor O_CREAT (Z.lor O_RDWR O_TRUNC))).2 eq_refl (or_introl eq_refl) eq_refl) as [E|(e & o2 & E & _)];
    [exact E|discriminate E].
Defined.

(** ** The log *)

(** C37: One line per entry. [PosixLogger::Logv] on a stream with room returns, appends to the file one
    line and leaves what other streams write alone: the time, the thread and the text, cut to
    65535 bytes, with a newline unless the last byte is one. So no line is longer than the buffer
    of 64 KiB, and [GetLogFileSize] has counted the line. When the interval is 0, or has elapsed since the last
    flush, [Logv] flushes: nothing waits in the buffer of the stream any more. Otherwise the
    line may wait there, and a flush is pending. At every moment everything is flushed if no flush is pending, so
    [Flush], which changes nothing else, leaves nothing in the buffer. *)
Theorem posix_log_line `{Host} {O} `{LogStreams O} `{!Printf} l (o : O) : writable o (pl_file l) -> log_flushed l o ->
  (forall format ap, exists l' o' sec usec, let line := log_line sec usec (c_gettid o) (vformat format ap) in
    pl_Logv l format ap o = Ret (l', o') /\ stream_bytes o' (pl_file l') = stream_bytes o (pl_file l) ++ line /\
    (forall s, writable o s -> writable o' s /\ (s <> pl_file l -> stream_bytes o' s = stream_bytes o s /\ unflushed o' s = unflushed o s)) /\
    pl_file l' = pl_file l /\ pl_GetLogFileSize l' = u64 (pl_GetLogFileSize l + zlen line) /\
    0 < zlen line <= 65536 /\ (exists t, line = t ++ [x0a]) /\ log_flushed l' o' /\
    (if flush_due l (sec, usec) then flush_pending_ l' = false /\ unflushed o' (pl_file l) <= 0
     else flush_pending_ l' = true /\ last_flush_micros_ l' = last_flush_micros_ l /\ unflushed o' (pl_file l) <= unflushed o (pl_file l) + zlen line)) /\
  (exists l' o', pl_Flush l o = Ret (l', o') /\ stream_bytes o' = stream_bytes o /\ pl_file l' = pl_file l /\
    pl_GetLogFileSize l' = pl_GetLogFileSize l /\ flush_pending_ l' = false /\ unflushed o' (pl_file l) <= 0).
Proof.
  intros Hw Hl. split.
  - intros format ap. destruct (Logv_run l format ap o Hw) as (l' & o' & sec & usec & E & [Hb Ho (Hf & _) Hsz Hfl]).
    exists l', o', sec, usec. cbv zeta. split; [exact E|]. rewrite Hf. do 4 (split; [done|]).
    destruct (log_line_spec sec usec (c_gettid o) (vformat format ap)) as [Hlen Ht]. split; [exact Hlen|]. split; [exact Ht|]. split; [|exact Hfl].
    intros Hp. rewrite Hf. destruct (flush_due l (sec, usec)); [by destruct Hfl|]. destruct Hfl as [Hp' _]. congruence.
  - destruct (pl_Flush_run l o Hw Hl) as (last & o' & E & Hb & _ & Hu). by exists (pl_flushed l last), o'.
Qed.

(** A log that was opened with an interval of 0. *)
Definition opened_log : PosixLogger := PosixLogger_new 3 3 0 ERROR_LEVEL.
Definition log_kernel : Kernel := (k_fopen kernel0 (str "LOG") (str "w")).2.
Lemma posix_log_line_witness : exists l' o',
  @pl_Logv Kernel _ _ plain_printf opened_log (str "hello") [] log_kernel = Ret (l', o') /\
  k_files o' (str "LOG") = Some (str "1970/01/01-00:00:1000.000007 ff hello" ++ [x0a]) /\ flush_pending_ l' = false /\ k_unflushed o' 3 <= 0.
Proof.
  destruct (@posix_log_line le_host Kernel _ _ _ plain_printf opened_log log_kernel) as [Hv _].
  { exists (str "LOG"). split; [by exists 0, false|reflexivity]. }
  { by vm_compute. }
  destruct (Hv (str "hello") []) as (l' & o' & sec & usec & E & _ & _ & _ & _ & _ & _ & _ & Hfl). destruct Hfl as [Hp Hu].
  exists l', o'. split; [exact E|]. split; [|exact (conj Hp Hu)].
  set (r := @pl_Logv Kernel _ _ plain_printf opened_log (str "hello") [] log_kernel) in E.
  assert (match r with Ret (_, k) => k_files k (str "LOG") = Some (str "1970/01/01-00:00:1000.000007 ff hello" ++ [x0a]) | _ => False end) as Hk by (vm_compute; reflexivity).
  rewrite E in Hk. exact Hk.
Defined.

(** With the default interval of five seconds: the first line is flushed, since [last_flush_micros_]
    begins at 0, the second one, in the same second, waits in the buffer until [Flush]. *)
Example log_line_waits :
  match @pl_Logv Kernel _ _ plain_printf (PosixLogger_new 3 3 5 ERROR_LEVEL) (str "one") [] log_kernel with
  | Ret (l1, k1) =>
      match @pl_Logv Kernel _ _ plain_printf l1 (str "two") [] k1 with
      | Ret (l2, k2) =>
          match pl_Flush l2 k2 with
          | Ret (l3, k3) => (k_unflushed k1 3, flush_pending_ l1, flush_pending_ l2, k_unflushed k3 3) = (0, false, true, 0) /\ 0 < k_unflushed k2 3
          | _ => False
          end
      | _ => False
      end
  | _ => False
  end.
Proof. vm_compute. done. Qed.
