(* ===== verification/PosixWorld.v ===== *)
(** * PosixWorld: [PosixEnv] as an environment

    The objects of a process that uses [PosixEnv] (open files and loggers on its heap, the
    environment and the system) as a state, and [PosixEnv] as an instance of the interface of
    Env, so that the functions of env.cc and the rolling log run over it. *)

From Stdlib Require Import Strings.Byte Strings.String.
From stdpp Require Import list gmap.
From S2P Require Import Prelude.
From S2P Require Import Slice.
From S2P Require Import Coding.
From S2P Require Import Status.
From S2P Require Import IoPosix.
From S2P Require Import Env.
From S2P Require Import EnvPosix.
From S2P Require Import PosixLogger.

(** Handles stand for the pointers to files and loggers. *)
Record World (O : Type) : Type := mkWorld {
  w_os : O;
  w_env : PosixEnv;
  w_writers : gmap nat OpenWritable;
  w_readers : gmap nat OpenSequential;
  w_loggers : gmap nat PosixLogger;
  w_next : nat;
}.
Arguments mkWorld {O} _ _ _ _ _ _.
Arguments w_os {O} _.
Arguments w_env {O} _.
Arguments w_writers {O} _.
Arguments w_readers {O} _.
Arguments w_loggers {O} _.
Arguments w_next {O} _.

Section world.
Context `{Host} {O : Type} `{PosixPaths O} `{!Printf}.
(** The fuel of the loops that repeat interrupted calls and that read directories, and the
    address of the buffers that callers pass. *)
Context (fuel : nat) (buffer : Z).

Definition w_set_os (w : World O) o : World O := mkWorld o (w_env w) (w_writers w) (w_readers w) (w_loggers w) (w_next w).
Definition w_set_env (w : World O) v : World O := mkWorld (w_os w) v (w_writers w) (w_readers w) (w_loggers w) (w_next w).
Definition w_set_writers (w : World O) m : World O := mkWorld (w_os w) (w_env w) m (w_readers w) (w_loggers w) (w_next w).
Definition w_set_readers (w : World O) m : World O := mkWorld (w_os w) (w_env w) (w_writers w) m (w_loggers w) (w_next w).
Definition w_set_loggers (w : World O) m : World O := mkWorld (w_os w) (w_env w) (w_writers w) (w_readers w) m (w_next w).
Definition w_bump (w : World O) : World O := mkWorld (w_os w) (w_env w) (w_writers w) (w_readers w) (w_loggers w) (S (w_next w)).

(** A program on the system. *)
Definition on_os {A} (m : IO (O := O) A) : IO (O := World O) A := fun w =>
  match m (w_os w) with Ret (a, o) => Ret (a, w_set_os w o) | AssertFail => AssertFail | Undef => Undef | NoFuel => NoFuel end.
Definition w_get : IO (O := World O) (World O) := fun w => Ret (w, w).
Definition w_mod (f : World O -> World O) : IO (O := World O) unit := fun w => Ret (tt, f w).

(** A new object in the heap. *)
Definition new_writer (f : OpenWritable) : IO (O := World O) nat := fun w => Ret (w_next w, w_bump (w_set_writers w (<[w_next w := f]> (w_writers w)))).
Definition new_reader (f : OpenSequential) : IO (O := World O) nat := fun w => Ret (w_next w, w_bump (w_set_readers w (<[w_next w := f]> (w_readers w)))).
Definition new_log (l : PosixLogger) : IO (O := World O) nat := fun w => Ret (w_next w, w_bump (w_set_loggers w (<[w_next w := l]> (w_loggers w)))).

(** The virtual methods of the open files. *)
Definition open_Append (f : OpenWritable) (data : Slice) : IO (O := O) (Status * OpenWritable) :=
  match f with
  | WritePosix p => '(s, p) ← Writable_Append (fuel + length data) p data; mret (s, WritePosix p)
  | WriteDirect p => '(s, p) ← DirectWritable_Append (fuel + length data) p buffer data; mret (s, WriteDirect p)
  | WriteMmap p => '(s, p) ← Mmap_Append (2 * length data + 2) p data; mret (s, WriteMmap p)
  end.
Definition open_Sync (f : OpenWritable) : IO (O := O) (Status * OpenWritable) :=
  match f with
  | WritePosix p => s ← Writable_Sync p; mret (s, f)
  | WriteDirect p => s ← Writable_Sync p; mret (s, f)
  | WriteMmap p => '(s, p) ← Mmap_Sync p; mret (s, WriteMmap p)
  end.
Definition open_delete (f : OpenWritable) : IO (O := O) unit :=
  match f with WritePosix p => Writable_delete p | WriteDirect p => Writable_delete p | WriteMmap p => Mmap_delete p end.
Definition open_Read (f : OpenSequential) (n : Z) : IO (O := O) (Status * Slice * OpenSequential) :=
  match f with
  | SeqPosix q => '(s, d) ← Sequential_Read fuel q n; mret (s, d, f)
  | SeqDirect q => '(s, d, q) ← DirectSequential_Read (fuel + Z.to_nat n) q n buffer; mret (s, d, SeqDirect q)
  end.
Definition open_close (f : OpenSequential) : IO (O := O) unit :=
  match f with SeqPosix q => Sequential_delete q | SeqDirect q => DirectSequential_delete q end.

(** A call of a method through a handle; a handle that stands for nothing is a bad pointer, and
    nothing for [delete]. *)
Definition with_writer {A} (h : nat) (m : OpenWritable -> IO (O := O) (A * OpenWritable)) : IO (O := World O) A :=
  w ← w_get;
  match w_writers w !! h with
  | Some f => '(a, f) ← on_os (m f); _ ← w_mod (fun w => w_set_writers w (<[h := f]> (w_writers w))); mret a
  | None => io_undef
  end.
Definition with_reader {A} (h : nat) (m : OpenSequential -> IO (O := O) (A * OpenSequential)) : IO (O := World O) A :=
  w ← w_get;
  match w_readers w !! h with
  | Some f => '(a, f) ← on_os (m f); _ ← w_mod (fun w => w_set_readers w (<[h := f]> (w_readers w))); mret a
  | None => io_undef
  end.
Definition with_log (h : nat) (m : PosixLogger -> IO (O := O) PosixLogger) : IO (O := World O) unit :=
  w ← w_get;
  match w_loggers w !! h with
  | Some l => l ← on_os (m l); w_mod (fun w => w_set_loggers w (<[h := l]> (w_loggers w)))
  | None => io_undef
  end.

(** The result of a call that opens, put into the heap. *)
Definition opened {F} (new : F -> IO (O := World O) nat) (r : Status * option F) : IO (O := World O) (Status * option nat) :=
  match r with
  | (s, Some f) => h ← new f; mret (s, Some h)
  | (s, None) => mret (s, None)
  end.
Definition world_NewWritableFile (fname : Slice) (options : EnvOptions) : IO (O := World O) (Status * option nat) :=
  w ← w_get;
  '(s, f, v) ← on_os (Posix_NewWritableFile fuel (w_env w) fname options);
  _ ← w_mod (fun w => w_set_env w v);
  opened new_writer (s, f).

#[export] Instance World_env : Env (World O) := {
  wfile := nat;
  sfile := nat;
  logger := nat;
  NewWritableFile := world_NewWritableFile;
  NewSequentialFile fname options := r ← on_os (Posix_NewSequentialFile fuel fname options); opened new_reader r;
  NewLogger fname flush_every_seconds := r ← on_os (Posix_NewLogger fname flush_every_seconds); opened new_log r;
  FileExists fname := on_os (Posix_FileExists fname);
  GetChildren dir := on_os (Posix_GetChildren fuel dir);
  GetFileSize_of fname := on_os (Posix_GetFileSize fname);
  DeleteFile fname := on_os (Posix_DeleteFile fname);
  RenameFile src target := on_os (Posix_RenameFile src target);
  CreateDirIfMissing name := on_os (Posix_CreateDirIfMissing name);
  NowMicros := on_os Posix_NowMicros;
  w_Append h data := with_writer h (fun f => open_Append f data);
  w_Sync h := with_writer h open_Sync;
  w_delete h := w ← w_get; match w_writers w !! h with Some f => _ ← w_mod (fun w => w_set_writers w (delete h (w_writers w))); on_os (open_delete f) | None => mret tt end;
  s_Read h n := with_reader h (fun f => open_Read f n);
  s_delete h := w ← w_get; match w_readers w !! h with Some f => _ ← w_mod (fun w => w_set_readers w (delete h (w_readers w))); on_os (open_close f) | None => mret tt end;
}.

(** The rest of the interface. Files for random access, directories and locks do not change, and
    stand for themselves; the file for reading and writing is that of the base class. *)
Definition with_env {A} (m : PosixEnv -> IO (O := O) (A * PosixEnv)) : IO (O := World O) A :=
  w ← w_get;
  '(a, v) ← on_os (m (w_env w));
  _ ← w_mod (fun w => w_set_env w v);
  mret a.
#[export] Instance World_system : EnvSystem (World O) := {
  rfile := OpenRandom;
  rwfile := Empty_set;
  directory := Z;
  file_lock := PosixFileLock;
  NewRandomAccessFile fname options := on_os (Posix_NewRandomAccessFile fname options);
  ReuseWritableFile fname old_fname options :=
    '(s, f) ← with_env (fun v => Posix_ReuseWritableFile fuel v fname old_fname options); opened new_writer (s, f);
  NewRandomRWFile fname options := mret (Env_NewRandomRWFile, None);
  NewDirectory name := on_os (Posix_NewDirectory name);
  ChildrenFileAttributes := GetChildrenFileAttributes;
  CreateDir name := on_os (Posix_CreateDir name);
  DeleteDir name := on_os (Posix_DeleteDir name);
  GetFileModificationTime fname := on_os (Posix_GetFileModificationTime fname);
  LinkFile src target := on_os (Posix_LinkFile src target);
  LockFile fname := with_env (fun v => Posix_LockFile v fname);
  UnlockFile lock := with_env (fun v => Posix_UnlockFile v lock);
  GetTestDirectory := on_os Posix_GetTestDirectory;
  NowNanos := on_os Posix_NowNanos;
  SleepForMicroseconds micros := on_os (Posix_SleepForMicroseconds micros);
  GetHostName len := on_os (Posix_GetHostName len);
  GetCurrentTime := on_os Posix_GetCurrentTime;
  GetAbsolutePath db_path := on_os (Posix_GetAbsolutePath db_path);
  TimeToString := Posix_TimeToString;
  OptimizeForLogWrite := Posix_OptimizeForLogWrite;
  OptimizeForManifestWrite := Posix_OptimizeForManifestWrite;
}.

(** The loggers, with the [Logv] of the base class for messages with a level. *)
Definition world_logger_with (logv : nat -> InfoLogLevel -> Slice -> va_list -> IO (O := World O) unit) : Logger (World O) nat := {|
  l_GetInfoLogLevel h w := match w_loggers w !! h with Some l => log_level_ l | None => ERROR_LEVEL end;
  l_Logv2 h format ap := with_log h (fun l => pl_Logv l format ap);
  l_Logv := logv;
  l_LogHeader h format ap := with_log h (fun l => pl_Logv l format ap);
  l_Flush h := with_log h pl_Flush;
  l_SetInfoLogLevel h level := with_log h (fun l => mret (mkPosixLogger (pl_file l) (log_size_ l) (pl_fd l) (last_flush_micros_ l) (flush_pending_ l) (flush_every_seconds_ l) level));
  l_GetLogFileSize h w := match w_loggers w !! h with Some l => pl_GetLogFileSize l | None => 0 end;
|}.
#[export] Instance world_logger : Logger (World O) (@logger (World O) World_env) :=
  world_logger_with (@Logger_Logv (World O) nat _ (world_logger_with (fun h _ => l_Logv2 (Logger := world_logger_with (fun _ _ _ _ => mret tt)) h))).

(** A process that begins. *)
Definition World_new (v : PosixEnv) (o : O) : World O := mkWorld o v ∅ ∅ ∅ 0.
End world.
