(* ===== verification/EnvThreads.v ===== *)
(** * EnvThreads ([include/rocksutil/env.h], [rutil/env_posix.cc])

    The threads of an environment: the part of the interface of [Env] that schedules work, with
    the defaults of the base class; [PosixEnv] as an instance; and its two pools as one machine,
    in which the calls of clients and the turns of the background threads interleave. *)

From stdpp Require Import list gmap.
From S2P Require Import Prelude.
From S2P Require Import ThreadPool.
From S2P Require Import ThreadPoolInv.
From S2P Require Import ThreadPoolTheorems.
From S2P Require Import IoPosix.
From S2P Require Import Env.
From S2P Require Import EnvPosix.
From S2P Require Import Kernel.
From S2P Require Import EnvPosixProps.
From S2P Require Import PosixWorld.


(** ** The interface *)

(** The handles of new threads and the threads that a signal wakes are choices of the system,
    as in ThreadPool; a call that queues, runs or cancels items returns these events. *)
Class EnvThreads (E : Type) : Type := {
  env_Schedule : list pthread_t -> gset pthread_t -> BGItem -> Z -> IO (O := E) (list event);
  env_UnSchedule : Z -> Z -> IO (O := E) (Z * list event);
  env_StartThread : pthread_t -> IO (O := E) unit;
  env_WaitForJoin : IO (O := E) unit;
  env_GetThreadPoolQueueLen : Z -> IO (O := E) Z;
  env_SetBackgroundThreads : list pthread_t -> Z -> Z -> IO (O := E) unit;
  env_IncBackgroundThreadsIfNeeded : list pthread_t -> Z -> Z -> IO (O := E) unit;
  env_LowerThreadPoolIOPriority : Z -> IO (O := E) unit;
}.

(** [Env::Priority], and the default arguments of [Schedule]. *)
Definition LOW : Z := 0.
Definition HIGH : Z := 1.
Definition plain_item (function arg : Z) : BGItem := mkItem arg function 0 None.

(** What the base class does. *)
Definition Env_UnSchedule {E} (arg pri : Z) : IO (O := E) (Z * list event) := mret (0, []).
Definition Env_WaitForJoin {E} : IO (O := E) unit := mret tt.
Definition Env_GetThreadPoolQueueLen {E} (pri : Z) : IO (O := E) Z := mret 0.
Definition Env_LowerThreadPoolIOPriority {E} (pool : Z) : IO (O := E) unit := mret tt.

(** ** [PosixEnv] *)

Section posix.
Context `{Host} {O : Type} `{PosixPaths O}.

#[export] Instance World_threads : EnvThreads (World O) := {
  env_Schedule ts woken item pri := with_env (fun v => io_lift (Posix_Schedule ts woken v item pri));
  env_UnSchedule arg pri := with_env (fun v => io_lift ('(count, es, v) ← Posix_UnSchedule v arg pri; mret (count, es, v)));
  env_StartThread t := with_env (fun v => mret (tt, Posix_StartThread t v));
  env_WaitForJoin := with_env (fun v => v ← Posix_WaitForJoin v; mret (tt, v));
  env_GetThreadPoolQueueLen pri := w ← w_get; io_lift (Posix_GetThreadPoolQueueLen (w_env w) pri);
  env_SetBackgroundThreads ts num pri := with_env (fun v => io_lift (Posix_SetBackgroundThreads ts v num pri));
  env_IncBackgroundThreadsIfNeeded ts num pri := with_env (fun v => io_lift (Posix_IncBackgroundThreadsIfNeeded ts v num pri));
  env_LowerThreadPoolIOPriority pool := with_env (fun v => io_lift (Posix_LowerThreadPoolIOPriority v pool));
}.

(** ** The machine *)

Abbreviation W := (World O).

(** A turn of the system or of a background thread on one pool. *)
Definition pool_turn (pri : Z) (a : action) : IO (O := W) (option (list event)) := fun w =>
  match thread_pools_ (w_env w) !! Z.to_nat pri with
  | Some p =>
      r ← perform a p;
      Ret (match r with
           | Some (es, p) => (Some es, w_set_env w (set_pools (w_env w) (<[Z.to_nat pri := p]> (thread_pools_ (w_env w)))))
           | None => (None, w)
           end)
  | None => Undef
  end.
(** A turn of the environment on the pool of priority [pri]: a call through the interface, or a
    turn that no client asks for. [JoinAllThreads] is called by the destructor only. *)
Definition env_turn (pri : Z) (a : action) : IO (O := W) (option (list event)) :=
  match a with
  | ASchedule ts woken item => es ← env_Schedule ts woken item pri; mret (Some es)
  | AUnSchedule arg => '(_, es) ← env_UnSchedule arg pri; mret (Some es)
  | ASetBackgroundThreads ts num true => _ ← env_SetBackgroundThreads ts num pri; mret (Some [])
  | ASetBackgroundThreads ts num false => _ ← env_IncBackgroundThreadsIfNeeded ts num pri; mret (Some [])
  | ALowerIOPriority => _ ← env_LowerThreadPoolIOPriority pri; mret (Some [])
  | AThread _ | ASpuriousWakeup _ => pool_turn pri a
  | AJoinAllThreads | AJoinNext => mret None
  end.

Definition pool_of (w : W) (pri : Z) : option Pool := thread_pools_ (w_env w) !! Z.to_nat pri.
Definition is_priority (pri : Z) : Prop := pri = LOW \/ pri = HIGH.

(** What happened on the pool of [pri]. *)
Definition events_on (pri : Z) (es : list (Z * event)) : list event := omap (fun '(i, e) => if i =? pri then Some e else None) es.

Inductive env_run (w0 : W) : list (Z * event) -> W -> Prop :=
| env_start : env_run w0 [] w0
| env_next es w pri p a es' w' : env_run w0 es w -> is_priority pri -> pool_of w pri = Some p -> allowed a p ->
    env_turn pri a w = Ret (Some es', w') -> env_run w0 (es ++ ((pri,.) <$> es')) w'.

(** The environment with another pool. *)
Definition put_pool (w : W) (pri : Z) (p : Pool) : W :=
  w_set_env w (set_pools (w_env w) (<[Z.to_nat pri := p]> (thread_pools_ (w_env w)))).

Lemma pool_of_put w pri p pri' : is_priority pri -> is_priority pri' -> is_Some (pool_of w pri) ->
  pool_of (put_pool w pri p) pri' = if pri' =? pri then Some p else pool_of w pri'.
Proof.
  intros Hp Hp' Hs. unfold pool_of, put_pool. cbn [w_env w_set_env thread_pools_ set_pools]. destruct (Z.eqb_spec pri' pri) as [->|Hne].
  - apply list_lookup_insert_eq. by apply lookup_lt_is_Some_1.
  - apply list_lookup_insert_ne. unfold is_priority, LOW, HIGH in *. lia.
Qed.

(** A turn of the environment is one of the pool. *)
Lemma env_turn_perform w pri p a : is_priority pri -> pool_of w pri = Some p -> a <> AJoinAllThreads -> a <> AJoinNext ->
  env_turn pri a w =
  match perform a p with
  | Ret (Some (es, p')) => Ret (Some es, put_pool w pri p')
  | Ret None => Ret (None, w)
  | AssertFail => AssertFail
  | Undef => Undef
  | NoFuel => NoFuel
  end.
Proof.
  intros Hp Ep Hj Hn. assert ((0 <=? pri) && (pri <=? 1) = true) as Hb by (destruct Hp as [->| ->]; done).
  unfold pool_of in Ep.
  destruct a as [ts woken item|arg|ts num []| | | |t|t]; try done; cbn [env_turn env_Schedule env_UnSchedule env_SetBackgroundThreads env_IncBackgroundThreadsIfNeeded env_LowerThreadPoolIOPriority World_threads perform];
    unfold pool_turn, with_env, w_get, w_mod, on_os, mbind, IO_bind, io_lift, mret, IO_ret, Posix_Schedule, Posix_UnSchedule, Posix_SetBackgroundThreads, Posix_IncBackgroundThreadsIfNeeded, Posix_LowerThreadPoolIOPriority, pool_priority, with_pool, put_pool, assert_that, SetBackgroundThreads, IncBackgroundThreadsIfNeeded;
    rewrite ?Hb, ?Ep; cbn -[Schedule UnSchedule SetBackgroundThreadsInternal BGThread LowerIOPriority].
  - by destruct (Schedule ts woken item p) as [[es p']| | |].
  - by destruct (UnSchedule arg p) as [[[c es] p']| | |].
  - by destruct (SetBackgroundThreadsInternal ts num true p) as [p'| | |].
  - by destruct (SetBackgroundThreadsInternal ts num false p) as [p'| | |].
  - done.
  - by destruct (BGThread t p) as [[[es p']|]| | |].
  - done.
Qed.

Lemma events_on_app pri e1 e2 : events_on pri (e1 ++ e2) = events_on pri e1 ++ events_on pri e2.
Proof. apply omap_app. Qed.
Lemma events_on_tagged pri pri' es : events_on pri' ((pri,.) <$> es) = if pri' =? pri then es else [].
Proof.
  unfold events_on. induction es as [|e es IH]; csimpl; [by destruct (pri' =? pri)|]. rewrite IH, (Z.eqb_sym pri' pri). by destruct (pri =? pri').
Qed.

(** A run of the environment is a run of each pool, which sees nothing of the other. *)
Lemma env_turn_not_join pri a w es w' : env_turn pri a w = Ret (Some es, w') -> a <> AJoinAllThreads /\ a <> AJoinNext.
Proof. by destruct a. Qed.
Lemma env_turn_inv pri p a w es w' : is_priority pri -> pool_of w pri = Some p -> allowed a p -> env_turn pri a w = Ret (Some es, w') ->
  a <> AJoinAllThreads /\ exists p', pool_step a es p p' /\ w' = put_pool w pri p'.
Proof.
  intros Hp Ep Ha Et. destruct (env_turn_not_join _ _ _ _ _ Et) as [Hj Hn]. split; [done|].
  rewrite (env_turn_perform w pri p a Hp Ep Hj Hn) in Et. destruct (perform a p) as [[[es1 p1]|]| | |] eqn:E; try done. injection Et as -> <-.
  exists p1. split; [by split|done].
Qed.

(** A pool of an environment in use, with its history. *)
Record in_use (es : list event) (p : Pool) : Prop := {
  iu_ok : pool_ok p;
  iu_history : history es p;
  iu_running : exit_all_threads_ p = false;
}.
Lemma in_use_step a es es' p p' : in_use es p -> a <> AJoinAllThreads -> pool_step a es' p p' -> in_use (es ++ es') p'.
Proof.
  intros [Hok Hh He] Hj Hs. split; [by eapply pool_step_ok|by eapply history_step|]. by destruct (pool_step_queue a es' p p' Hok He Hj Hs).
Qed.
Lemma in_use_new page env pr pri : is_priority pri ->
  exists p, thread_pools_ (PosixEnv_new page env pr) !! Z.to_nat pri = Some p /\ in_use [] p /\ queue_ p = [].
Proof.
  intros Hp. exists (SetHostEnv (SetThreadPriority (ThreadPoolImpl_new (pr pri)) pri) env). split; [by destruct Hp as [->| ->]|]. split; [|done].
  split; [|by split|done]. destruct (ThreadPoolImpl_new_ok (pr pri)) as [[] Hn]. by split.
Qed.

Lemma env_run_in_use w0 es w : (forall pri, is_priority pri -> exists p, pool_of w0 pri = Some p /\ in_use [] p) -> env_run w0 es w ->
  forall pri, is_priority pri -> exists p, pool_of w pri = Some p /\ in_use (events_on pri es) p.
Proof.
  intros Hinit. induction 1 as [|es w pri' p' a es' w' _ IH Hp' Ep' Ha Et]; [done|]. intros pri Hp. destruct (IH pri Hp) as (p & Ep & Hu).
  destruct (env_turn_inv _ _ _ _ _ _ Hp' Ep' Ha Et) as (Hj & p1 & Hs & ->).
  rewrite pool_of_put by done. rewrite events_on_app, events_on_tagged. destruct (Z.eqb_spec pri pri') as [<-|_].
  - exists p1. split; [done|]. rewrite Ep in Ep'. injection Ep' as <-. by eapply in_use_step.
  - exists p. split; [done|]. by rewrite app_nil_r.
Qed.

Lemma rest_ran es p : pool_ok p -> history es p -> exit_all_threads_ p = false -> at_rest p -> forall t, dequeued_by t es = ran_by t es.
Proof.
  intros Hok Hh He Hr t. destruct (at_rest_running p Hok Hr He) as (_ & _ & Hw). rewrite (hi_thread _ _ Hh). unfold running_on.
  destruct (threads p !! t) as [th|] eqn:Ht; [|by rewrite app_nil_r]. by rewrite (Hw _ _ Ht), app_nil_r.
Qed.
Lemma GetThreadPoolQueueLen_spec pri (w : World O) p : is_priority pri -> pool_of w pri = Some p -> pool_wf p ->
  env_GetThreadPoolQueueLen pri w = Ret (u32 (zlen (queue_ p)), w).
Proof.
  intros Hp Ep Hwf. assert ((0 <=? pri) && (pri <=? 1) = true) as Hb by (destruct Hp as [->| ->]; done). unfold pool_of in Ep.
  cbn [env_GetThreadPoolQueueLen World_threads]. unfold w_get, mbind, IO_bind, io_lift, Posix_GetThreadPoolQueueLen, pool_priority, assert_that, mret, IO_ret.
  rewrite Hb. bret. rewrite Ep. unfold GetQueueLen. by rewrite (wf_len _ Hwf).
Qed.

(** A process that begins with a new [PosixEnv]. *)
Definition new_process (page env : Z) (pr : Z -> Z) (o : O) : W := World_new (PosixEnv_new page env pr) o.
Lemma new_process_in_use page env pr o pri : is_priority pri -> exists p, pool_of (new_process page env pr o) pri = Some p /\ in_use [] p.
Proof. intros Hp. destruct (in_use_new page env pr pri Hp) as (p & E & Hu & _). by exists p. Qed.

(** C40: Whatever clients call through [Env] and however the background threads of both pools
    interleave, every turn returns, without an abort; each pool sees its own items only and starts
    them in their order, none lost or doubled; [GetThreadPoolQueueLen] tells the length of its
    queue; and a pool whose threads have nothing left to do has run every item that was not
    cancelled, each on the thread that took it. *)
Theorem environment_pools page env pr o es w pri : env_run (new_process page env pr o) es w -> is_priority pri ->
  exists p, pool_of w pri = Some p /\
    (forall a, allowed a p -> exists r, env_turn pri a w = Ret r) /\
    env_GetThreadPoolQueueLen pri w = Ret (u32 (zlen (queue_ p)), w) /\
    sublist (dequeued (events_on pri es) ++ queue_ p) (enqueued (events_on pri es)) /\
    enqueued (events_on pri es) ≡ₚ dequeued (events_on pri es) ++ cancelled (events_on pri es) ++ queue_ p /\
    (at_rest p -> queue_ p = [] /\ forall t, dequeued_by t (events_on pri es) = ran_by t (events_on pri es)).
Proof.
  intros Hrun Hp. destruct (env_run_in_use _ _ _ (fun pri => new_process_in_use page env pr o pri) Hrun pri Hp) as (p & Ep & [Hok Hh He]).
  exists p. split; [done|]. split; [|split; [|split; [|split]]].
  - intros a Ha. assert ((a = AJoinAllThreads \/ a = AJoinNext) \/ (a <> AJoinAllThreads /\ a <> AJoinNext)) as [[->| ->]|[Hj Hn]] by (destruct a; (by right) || (by left; auto)); [by eexists..|].
    rewrite (env_turn_perform w pri p a Hp Ep Hj Hn). destruct (perform_ok a p Hok Ha) as (r & -> & _).
    destruct r as [[es' p']|]; by eexists.
  - apply GetThreadPoolQueueLen_spec; [done|done|apply Hok].
  - apply (hi_order _ _ Hh).
  - apply (hi_all _ _ Hh).
  - intros Hr. destruct (at_rest_running p Hok Hr He) as (Hq & _). split; [done|]. by apply (rest_ran _ p).
Qed.
End posix.

(** ** An environment at work *)

Local Abbreviation demo_process := (new_process (O := Kernel) 4096 1 (fun _ => 7) kernel0).
Definition demo_work_item : BGItem := plain_item 3 4096.
Lemma fresh_one p : total_threads_limit_ p = 1 -> threads p = ∅ -> fresh_handles [1%positive] (total_threads_limit_ p) p.
Proof.
  intros -> Ht. split; [apply NoDup_singleton|]. split; [intros t _; by rewrite Ht, lookup_empty|]. pose proof (zlen_nonneg (bgthreads_ p)).
  change (zlen [1%positive]) with 1. lia.
Qed.

(** An item of high priority is scheduled, and taken by the thread that this starts. *)
Lemma environment_pools_witness : exists (w : World Kernel) p, pool_of w HIGH = Some p /\
  env_GetThreadPoolQueueLen HIGH w = Ret (0, w).
Proof.
  destruct (env_turn HIGH (ASchedule [1%positive] ∅ demo_work_item) demo_process) as [[[e1|] w1]| | |] eqn:E1; try (exfalso; by vm_compute in E1).
  assert (e1 = [Enqueued demo_work_item]) as -> by (vm_compute in E1; injection E1 as <- _; reflexivity).
  destruct (env_turn HIGH (AThread 1%positive) w1) as [[[e2|] w2]| | |] eqn:E2; try (exfalso; vm_compute in E1; injection E1 as <-; by vm_compute in E2).
  assert (env_run demo_process (([] ++ ((HIGH,.) <$> [Enqueued demo_work_item])) ++ ((HIGH,.) <$> e2)) w2) as Hrun.
  { destruct (pool_of demo_process HIGH) as [p0|] eqn:Ep0; [|by vm_compute in Ep0].
    assert (total_threads_limit_ p0 = 1 /\ threads p0 = ∅) as [Hl Ht] by (vm_compute in Ep0; injection Ep0 as <-; by split).
    destruct (pool_of w1 HIGH) as [p1|] eqn:Ep1; [|exfalso; vm_compute in E1; injection E1 as <-; by vm_compute in Ep1].
    apply (env_next _ _ w1 HIGH p1 (AThread 1%positive)); [|by right|exact Ep1|exact I|exact E2].
    apply (env_next _ _ demo_process HIGH p0 (ASchedule [1%positive] ∅ demo_work_item)); [apply env_start|by right|exact Ep0| |exact E1].
    split; [by apply fresh_one|]. intros (t & th & Hth & _). by rewrite Ht, lookup_empty in Hth. }
  destruct (environment_pools 4096 1 (fun _ => 7) kernel0 _ w2 HIGH Hrun (or_intror eq_refl)) as (p & Ep & _ & Hlen & _ & _ & _).
  exists w2, p. split; [exact Ep|]. rewrite Hlen. f_equal. f_equal.
  vm_compute in E1. injection E1 as <-. vm_compute in E2. injection E2 as _ <-. vm_compute in Ep. injection Ep as <-. reflexivity.
Defined.
