(* ===== verification/ThreadPoolExample.v ===== *)
(** * ThreadPoolExample ([examples/thread_pool_example.cc])

    The example of the thread pool as a machine: its [main] calls the environment, statement by
    statement, while the background threads take turns. *)

From stdpp Require Import list gmap.
From S2P Require Import Prelude.
From S2P Require Import ThreadPool.
From S2P Require Import ThreadPoolInv.
From S2P Require Import ThreadPoolTheorems.
From S2P Require Import IoPosix.
From S2P Require Import Env.
From S2P Require Import EnvPosix.
From S2P Require Import PosixWorld.
From S2P Require Import Kernel.
From S2P Require Import EnvPosixProps.
From S2P Require Import EnvThreads.

(** ** The program *)

(** The functions that are scheduled, and the address of [msg]. *)
Definition HighPrioFunc : Z := 1.
Definition HighPrioSlowFunc : Z := 2.
Definition LowPrioFunc : Z := 3.
Definition msg : Z := 4096.

Inductive statement : Type :=
| SLower (pri : Z)
| SSchedule (item : BGItem) (pri : Z)
| SIncThreads (num pri : Z)
| SPrintQueueLen (pri : Z)
| SUnSchedule (arg pri : Z)
| SWaitForJoin
| SSleep.

(** [main]; a [for] loop is as many statements as it has turns. *)
Definition thread_pool_main : list statement :=
  [SLower LOW;
   SSchedule (plain_item HighPrioFunc msg) HIGH; SSleep;
   SSchedule (plain_item LowPrioFunc msg) LOW; SSleep;
   SIncThreads 2 HIGH] ++
  concat (replicate 50 [SSchedule (plain_item HighPrioSlowFunc msg) HIGH; SSchedule (plain_item HighPrioFunc msg) HIGH]) ++
  [SSleep;
   SPrintQueueLen HIGH;
   SUnSchedule 0 HIGH;
   SPrintQueueLen HIGH;
   SWaitForJoin;
   SSleep].

Section example.
Context `{Host} {O : Type} `{PosixPaths O}.

(** The process: its objects, what is left of [main], what it printed, and what the pools did. *)
Record Example_state : Type := mkExample {
  x_world : World O;
  x_rest : list statement;
  x_out : list Z;
  x_events : list (Z * event);
}.

(** A statement; [ts] and [woken] are choices of the system. *)
Definition execute (ts : list pthread_t) (woken : gset pthread_t) (s : statement) : IO (O := World O) (list (Z * event) * list Z) :=
  match s with
  | SLower pri => _ ← env_LowerThreadPoolIOPriority pri; mret ([], [])
  | SSchedule item pri => es ← env_Schedule ts woken item pri; mret ((pri,.) <$> es, [])
  | SIncThreads num pri => _ ← env_IncBackgroundThreadsIfNeeded ts num pri; mret ([], [])
  | SPrintQueueLen pri => n ← env_GetThreadPoolQueueLen pri; mret ([], [n])
  | SUnSchedule arg pri => '(_, es) ← env_UnSchedule arg pri; mret ((pri,.) <$> es, [])
  | SWaitForJoin => _ ← env_WaitForJoin; mret ([], [])
  | SSleep => mret ([], [])
  end.

(** The turn of a pool that a statement is, if it is one. *)
Definition statement_turn (ts : list pthread_t) (woken : gset pthread_t) (s : statement) : option (Z * action) :=
  match s with
  | SLower pri => Some (pri, ALowerIOPriority)
  | SSchedule item pri => Some (pri, ASchedule ts woken item)
  | SIncThreads num pri => Some (pri, ASetBackgroundThreads ts num false)
  | SUnSchedule arg pri => Some (pri, AUnSchedule arg)
  | SPrintQueueLen _ | SWaitForJoin | SSleep => None
  end.
(** The system keeps its promises about the choices. *)
Definition choices_ok (ts : list pthread_t) (woken : gset pthread_t) (s : statement) (w : World O) : Prop :=
  match statement_turn ts woken s with
  | Some (pri, a) => exists p, pool_of w pri = Some p /\ allowed a p
  | None => True
  end.

Inductive example_step (x : Example_state) : Example_state -> Prop :=
| step_main ts woken s rest es out w : x_rest x = s :: rest -> choices_ok ts woken s (x_world x) ->
    execute ts woken s (x_world x) = Ret ((es, out), w) ->
    example_step x (mkExample w rest (x_out x ++ out) (x_events x ++ es))
| step_background pri a p es w : is_priority pri -> pool_of (x_world x) pri = Some p ->
    (exists t, a = AThread t \/ a = ASpuriousWakeup t) -> env_turn pri a (x_world x) = Ret (Some es, w) ->
    example_step x (mkExample w (x_rest x) (x_out x) (x_events x ++ ((pri,.) <$> es))).

Definition example_start (page env : Z) (pr : Z -> Z) (o : O) : Example_state :=
  mkExample (new_process page env pr o) thread_pool_main [] [].
Definition example_run (page env : Z) (pr : Z -> Z) (o : O) : Example_state -> Prop :=
  rtc example_step (example_start page env pr o).

(** ** What the statements done so far ask for *)

Definition scheduled_by (pri : Z) (s : statement) : list BGItem := match s with SSchedule item pri' => if pri' =? pri then [item] else [] | _ => [] end.
Definition scheduled (pri : Z) (l : list statement) : list BGItem := concat (map (scheduled_by pri) l).

(** The queue of [HIGH] was emptied and nothing was scheduled since; and for every length that is
    printed whether this is so. *)
Definition check_statement (c : bool * list bool) (s : statement) : bool * list bool :=
  match s with
  | SSchedule _ _ => (false, snd c)
  | SUnSchedule _ _ => (true, snd c)
  | SPrintQueueLen _ => (fst c, snd c ++ [fst c])
  | _ => c
  end.
Definition checks (l : list statement) : bool * list bool := fold_left check_statement l (false, []).

(** The statements of [main] name priorities, and tags are null. *)
Definition statement_ok (s : statement) : bool :=
  match s with
  | SLower pri => (0 <=? pri) && (pri <=? 1)
  | SSchedule item pri => (0 <=? pri) && (pri <=? 1) && (tag item =? 0)
  | SIncThreads num pri => (0 <=? pri) && (pri <=? 1) && (num <? 2147483648)
  | SPrintQueueLen pri => pri =? 1
  | SUnSchedule arg pri => (arg =? 0) && (pri =? 1)
  | SWaitForJoin | SSleep => true
  end.
Definition printed_ok (empty : bool) (n : Z) : Prop := 0 <= n <= 101 /\ (empty = true -> n = 0).

(** A pool at a point of [main]: it is in use, has the items that were scheduled on it, and only
    [HIGH] is ever emptied. *)
Record pool_inv (pri : Z) (l : list statement) (es : list event) (p : Pool) : Prop := {
  pi_use : in_use es p;
  pi_enqueued : enqueued es = scheduled pri l;
  pi_cancelled : pri = LOW -> cancelled es = [];
  pi_empty : pri = HIGH -> fst (checks l) = true -> queue_ p = [];
}.
Record example_inv (x : Example_state) (l : list statement) : Prop := {
  xi_main : thread_pool_main = l ++ x_rest x;
  xi_pool : forall pri, is_priority pri -> exists p, pool_of (x_world x) pri = Some p /\ pool_inv pri l (events_on pri (x_events x)) p;
  xi_out : Forall2 printed_ok (snd (checks l)) (x_out x);
  xi_join : threads_to_join_ (w_env (x_world x)) = [];
  xi_size : length (thread_pools_ (w_env (x_world x))) = 2%nat;
}.

Lemma priority_ok pri : (0 <=? pri) && (pri <=? 1) = true -> is_priority pri.
Proof. unfold is_priority, LOW, HIGH. lia. Qed.
Lemma main_ok l s rest : thread_pool_main = l ++ s :: rest -> statement_ok s = true.
Proof.
  intros E. assert (Forall (fun s => statement_ok s = true) thread_pool_main) as Hall by (apply (bool_decide_eq_true_1 _); by vm_compute).
  rewrite E, Forall_app in Hall. by destruct Hall as [_ [Hs _]%list.Forall_cons].
Qed.
Lemma main_high l rest : thread_pool_main = l ++ rest -> zlen (scheduled HIGH l) <= 101 /\ Forall (fun i => tag i = 0) (scheduled HIGH l).
Proof.
  intros E. assert (scheduled HIGH thread_pool_main = scheduled HIGH l ++ scheduled HIGH rest) as Es
    by (rewrite E; unfold scheduled; by rewrite map_app, concat_app).
  assert (zlen (scheduled HIGH thread_pool_main) = 101) as Hl by by vm_compute.
  assert (Forall (fun i => tag i = 0) (scheduled HIGH thread_pool_main)) as Ht by (apply (bool_decide_eq_true_1 _); by vm_compute).
  rewrite Es, zlen_app in Hl. rewrite Es, Forall_app in Ht. pose proof (zlen_nonneg (scheduled HIGH rest)). split; [lia|apply Ht].
Qed.
Lemma scheduled_snoc pri l s : scheduled pri (l ++ [s]) = scheduled pri l ++ scheduled_by pri s.
Proof. unfold scheduled. rewrite map_app, concat_app. simpl. by rewrite app_nil_r. Qed.
Lemma checks_snoc l s : checks (l ++ [s]) = check_statement (checks l) s.
Proof. unfold checks. by rewrite fold_left_app. Qed.

(** ** The invariant *)

Ltac unfold_io := unfold mbind, IO_bind, mret, IO_ret in *.
Lemma execute_turn ts woken s w pri a es out w' : statement_turn ts woken s = Some (pri, a) -> execute ts woken s w = Ret ((es, out), w') ->
  exists es0, env_turn pri a w = Ret (Some es0, w') /\ es = (pri,.) <$> es0 /\ out = [].
Proof.
  destruct s; intros [= <- <-] E; cbn [execute env_turn] in *; unfold_io;
    match type of E with context[match ?m with Ret _ => _ | _ => _ end] => destruct m as [[x1 w1]| | |] eqn:E1; try done end.
  - injection E as <- <- <-. by exists [].
  - injection E as <- <- <-. by exists x1.
  - injection E as <- <- <-. by exists [].
  - destruct x1 as [n es1]. injection E as <- <- <-. by exists es1.
Qed.

Lemma pool_inv_quiet pri l a es es' p p' : pool_inv pri l es p -> (exists t, a = AThread t \/ a = ASpuriousWakeup t) -> pool_step a es' p p' ->
  pool_inv pri l (es ++ es') p'.
Proof.
  intros [Hu He Hc Hq] Ha Hs. assert (a <> AJoinAllThreads) as Hj by (by destruct Ha as (t & [->| ->])).
  destruct (pool_step_queue a es' p p' (iu_ok _ _ Hu) (iu_running _ _ Hu) Hj Hs) as [_ Hx].
  assert (enqueued es' = [] /\ cancelled es' = [] /\ (queue_ p' = queue_ p \/ exists i, queue_ p = i :: queue_ p')) as (Ee & Ec & Eq)
    by (by destruct Ha as (t & [->| ->])).
  split.
  - by eapply in_use_step.
  - by rewrite enqueued_app, Ee, app_nil_r.
  - intros Hp. by rewrite cancelled_app, Ec, (Hc Hp).
  - intros Hp Hk. specialize (Hq Hp Hk). destruct Eq as [->|(i & Ei)]; [done|]. by rewrite Hq in Ei.
Qed.

(** A pool that the statement is not about. *)
Lemma pool_inv_other pri l s es p : pool_inv pri l es p -> scheduled_by pri s = [] -> (pri = HIGH -> fst (check_statement (checks l) s) = true -> fst (checks l) = true) ->
  pool_inv pri (l ++ [s]) es p.
Proof.
  intros [Hu He Hc Hq] Hs Hk. split; [done| |done|].
  - by rewrite scheduled_snoc, Hs, app_nil_r.
  - intros Hp. rewrite checks_snoc. intros Hx. by apply Hq, Hk.
Qed.

(** A statement that is a turn, on its pool. *)
Lemma pool_inv_statement ts woken s pri a l rest es es' p p' : thread_pool_main = l ++ s :: rest ->
  statement_turn ts woken s = Some (pri, a) -> pool_inv pri l es p -> pool_step a es' p p' ->
  pool_inv pri (l ++ [s]) (es ++ es') p'.
Proof.
  intros Em Et [Hu He Hc Hq] Hs. pose proof (main_ok _ _ _ Em) as Hok. assert (a <> AJoinAllThreads) as Hj by (destruct s; try discriminate Et; by injection Et as <- <-).
  destruct (pool_step_queue a es' p p' (iu_ok _ _ Hu) (iu_running _ _ Hu) Hj Hs) as [_ Hx]. pose proof (in_use_step _ _ _ _ _ Hu Hj Hs) as Hu'.
  assert (queue_ p' = queue_ p \/ (exists i, queue_ p = i :: queue_ p') -> queue_ p = [] -> queue_ p' = []) as Hempty
    by (intros [->|(i & ->)] ?; done).
  destruct s as [pri'|item pri'|num pri'|pri'|arg pri'| |]; try discriminate Et; injection Et as -> <-; destruct Hx as (Ee & Ec & Eq);
    (split; [done|rewrite enqueued_app, scheduled_snoc, Ee, He; cbn [scheduled_by]; rewrite ?Z.eqb_refl; reflexivity| |]).
  all: rewrite ?checks_snoc, ?cancelled_app, ?Ec; cbn [check_statement fst].
  all: try (intros Hp; by rewrite (Hc Hp)).
  - intros Hp Hk. auto.
  - done.
  - intros Hp Hk. auto.
  - intros ->. cbn in Hok. rewrite andb_false_r in Hok. done.
  - intros -> _. rewrite Eq. cbn in Hok. rewrite andb_true_r in Hok. apply Z.eqb_eq in Hok as ->. destruct (main_high l _ Em) as [_ Ht]. rewrite <- He in Ht.
    rewrite (hi_all _ _ (iu_history _ _ Hu)), !Forall_app in Ht. destruct Ht as (_ & _ & Ht).
    clear -Ht. induction Ht as [|i q Hi _ IH]; [done|]. rewrite filter_cons, decide_False by (intros Hx; by apply Hx). done.
Qed.

Lemma pool_inv_queue pri l rest es p : thread_pool_main = l ++ rest -> pri = HIGH -> pool_inv pri l es p -> 0 <= zlen (queue_ p) <= 101.
Proof.
  intros Em -> [Hu He _ _]. destruct (main_high _ _ Em) as [Hl _]. rewrite <- He in Hl. pose proof (zlen_nonneg (queue_ p)).
  apply iu_history, hi_order, sublist_length in Hu. rewrite length_app in Hu. unfold zlen in *. lia.
Qed.

Lemma priority_other pri pri' s a ts woken l : statement_turn ts woken s = Some (pri, a) -> pri' <> pri ->
  scheduled_by pri' s = [] /\ (statement_ok s = true -> pri' = HIGH -> fst (check_statement (checks l) s) = true -> fst (checks l) = true).
Proof.
  intros Et Hne. destruct s; try discriminate Et; injection Et as -> <-; cbn [scheduled_by check_statement fst statement_ok];
    rewrite ?(proj2 (Z.eqb_neq pri pri')) by congruence; (split; [done|]); intros Hok Hp Hk; try done.
  unfold HIGH in *. lia.
Qed.

Lemma inv_turn_statement ts woken s rest es out w x l pri a : example_inv x l -> x_rest x = s :: rest -> choices_ok ts woken s (x_world x) ->
  statement_turn ts woken s = Some (pri, a) -> execute ts woken s (x_world x) = Ret ((es, out), w) ->
  example_inv (mkExample w rest (x_out x ++ out) (x_events x ++ es)) (l ++ [s]).
Proof.
  intros [Em Hp Ho Hj Hz] Er Hc Et Ex. rewrite Er in Em. pose proof (main_ok _ _ _ Em) as Hok.
  assert (is_priority pri) as Hpri.
  { apply priority_ok. destruct s; try discriminate Et; injection Et as -> <-; cbn [statement_ok] in Hok; lia. }
  unfold choices_ok in Hc. rewrite Et in Hc. destruct Hc as (p & Ep & Ha).
  destruct (execute_turn _ _ _ _ _ _ _ _ _ Et Ex) as (es0 & Eturn & -> & ->).
  destruct (env_turn_inv _ _ _ _ _ _ Hpri Ep Ha Eturn) as (_ & p' & Hs & ->).
  split; cbn [x_rest x_world x_out x_events].
  - by rewrite <- app_assoc.
  - intros pri' Hpri'. destruct (Hp pri' Hpri') as (q & Eq & Hq). rewrite pool_of_put by done. rewrite events_on_app, events_on_tagged.
    destruct (Z.eqb_spec pri' pri) as [->|Hne].
    + exists p'. split; [done|]. rewrite Ep in Eq. injection Eq as <-. by eapply pool_inv_statement.
    + exists q. split; [done|]. rewrite app_nil_r. destruct (priority_other pri pri' s a ts woken l Et Hne) as [Hs' Hk]. apply pool_inv_other; auto.
  - rewrite app_nil_r, checks_snoc. destruct s; try discriminate Et; exact Ho.
  - exact Hj.
  - etrans; [apply length_insert|exact Hz].
Qed.

Lemma WaitForJoin_nothing (w : World O) : threads_to_join_ (w_env w) = [] -> env_WaitForJoin w = Ret (tt, w).
Proof.
  intros Hj. cbn [env_WaitForJoin World_threads]. unfold with_env, w_get, w_mod, on_os, mbind, IO_bind, mret, IO_ret, Posix_WaitForJoin.
  rewrite Hj. cbn. by destruct w as [o [] ? ? ? ?]; cbn in Hj |- *; subst.
Qed.

(** The other statements leave the world. *)
Lemma inv_other_statement ts woken s rest es out w x l : example_inv x l -> x_rest x = s :: rest ->
  statement_turn ts woken s = None -> execute ts woken s (x_world x) = Ret ((es, out), w) ->
  example_inv (mkExample w rest (x_out x ++ out) (x_events x ++ es)) (l ++ [s]).
Proof.
  intros [Em Hp Ho Hj Hz] Er Et Ex. rewrite Er in Em. pose proof (main_ok _ _ _ Em) as Hok.
  assert (w = x_world x /\ es = [] /\ Forall2 printed_ok (snd (checks (l ++ [s]))) (x_out x ++ out)) as (-> & -> & Ho').
  { rewrite checks_snoc. destruct s as [| | |pri| | |]; try discriminate Et; cbn [execute check_statement snd] in *; unfold_io.
    - apply Z.eqb_eq in Hok as ->. destruct (Hp HIGH ltac:(by right)) as (p & Ep & Hi). change 1 with HIGH in Ex.
      rewrite (GetThreadPoolQueueLen_spec HIGH _ p) in Ex; [|by right|done|apply (iu_ok _ _ (pi_use _ _ _ _ Hi))].
      pose proof (pool_inv_queue HIGH l _ _ p Em eq_refl Hi) as Hl. rewrite u32_small in Ex by lia. injection Ex as <- <- <-.
      split; [done|]. split; [done|]. apply Forall2_app; [done|]. constructor; [|constructor]. split; [done|]. intros Hk.
      by rewrite (pi_empty _ _ _ _ Hi eq_refl Hk).
    - rewrite WaitForJoin_nothing in Ex by done. injection Ex as <- <- <-. by rewrite app_nil_r.
    - injection Ex as <- <- <-. by rewrite app_nil_r. }
  split; cbn [x_rest x_world x_out x_events].
  - by rewrite <- app_assoc.
  - intros pri Hpri. destruct (Hp pri Hpri) as (p & Ep & Hi). exists p. split; [done|]. rewrite app_nil_r.
    apply pool_inv_other; [done|..]; by destruct s.
  - done.
  - done.
  - done.
Qed.

Lemma background_inv x l pri a p es w : example_inv x l -> is_priority pri -> pool_of (x_world x) pri = Some p ->
  (exists t, a = AThread t \/ a = ASpuriousWakeup t) -> env_turn pri a (x_world x) = Ret (Some es, w) ->
  example_inv (mkExample w (x_rest x) (x_out x) (x_events x ++ ((pri,.) <$> es))) l.
Proof.
  intros [Em Hp Ho Hj Hz] Hpri Ep Ha Et. assert (allowed a p) as Hal by (by destruct Ha as (t & [->| ->])).
  destruct (env_turn_inv _ _ _ _ _ _ Hpri Ep Hal Et) as (_ & p' & Hs & ->).
  split; cbn [x_rest x_world x_out x_events]; [done| |done|done|etrans; [apply length_insert|exact Hz]].
  intros pri' Hpri'. destruct (Hp pri' Hpri') as (q & Eq & Hq). rewrite pool_of_put by done. rewrite events_on_app, events_on_tagged.
  destruct (Z.eqb_spec pri' pri) as [->|Hne].
  - exists p'. split; [done|]. rewrite Ep in Eq. injection Eq as <-. by eapply pool_inv_quiet.
  - exists q. split; [done|]. by rewrite app_nil_r.
Qed.
Lemma example_step_inv x l x' : example_inv x l -> example_step x x' -> exists l', example_inv x' l'.
Proof.
  intros Hi [ts woken s rest es out w Er Hc Ex|pri a p es w Hpri Ep Ha Et]; [|exists l; by eapply background_inv].
  exists (l ++ [s]). destruct (statement_turn ts woken s) as [[pri a]|] eqn:Est; [by eapply inv_turn_statement|by eapply inv_other_statement].
Qed.
Lemma example_start_inv page env pr o : example_inv (example_start page env pr o) [].
Proof.
  split; [done| |constructor|done|done]. intros pri Hp. destruct (in_use_new page env pr pri Hp) as (p & E & Hu & Hq). exists p. split; [done|]. by split.
Qed.
Lemma example_run_inv page env pr o x : example_run page env pr o x -> exists l, example_inv x l.
Proof.
  intros Hr. assert (exists l, example_inv (example_start page env pr o) l) as Hi by (exists []; apply example_start_inv).
  unfold example_run in Hr. induction Hr as [x|x y z Hs _ IH]; [done|]. destruct Hi as (l & Hi). by eapply IH, example_step_inv.
Qed.

(** ** Progress *)

(** The system can always keep its promises. *)
Definition new_handles (limit : Z) (p : Pool) : list pthread_t := fresh_list (Z.to_nat limit) (dom (threads p)).
Lemma new_handles_fresh limit p : 0 <= limit -> fresh_handles (new_handles limit p) limit p.
Proof.
  intros Hl. split; [apply NoDup_fresh_list|]. split.
  - intros t Ht. apply not_elem_of_dom_1. by eapply fresh_list_is_fresh.
  - unfold zlen, new_handles. rewrite length_fresh_list. lia.
Qed.
Lemma choices_exist x l s rest : example_inv x l -> x_rest x = s :: rest -> exists ts woken, choices_ok ts woken s (x_world x).
Proof.
  intros [Em Hp Ho Hj Hz] Er. rewrite Er in Em. pose proof (main_ok _ _ _ Em) as Hok.
  assert (forall pri, (0 <=? pri) && (pri <=? 1) = true -> exists p, pool_of (x_world x) pri = Some p /\ pool_wf p) as Hwf.
  { intros pri Hb. destruct (Hp pri (priority_ok _ Hb)) as (p & Ep & Hi). exists p. split; [done|]. apply (iu_ok _ _ (pi_use _ _ _ _ Hi)). }
  unfold choices_ok. destruct s as [pri|item pri|num pri|pri|arg pri| |]; cbn [statement_turn statement_ok] in *; try (by exists [], ∅).
  - exists [], ∅. destruct (Hwf pri Hok) as (p & Ep & _). by exists p.
  - apply andb_true_iff in Hok as [Hb _]. destruct (Hwf pri Hb) as (p & Ep & Hw). exists (new_handles (total_threads_limit_ p) p), (dom (threads p)).
    exists p. split; [done|]. pose proof (wf_limit _ Hw). split; [apply new_handles_fresh; lia|]. intros (t & th & Ht & Hwait). exists t, th. by rewrite elem_of_dom, Ht.
  - apply andb_true_iff in Hok as [Hb Hn]. destruct (Hwf pri Hb) as (p & Ep & Hw). exists (new_handles (Z.max 1 num) p), ∅.
    exists p. split; [done|]. split; [change (2 ^ 31) with 2147483648; lia|]. apply new_handles_fresh. lia.
  - exists [], ∅. apply andb_true_iff in Hok as [_ ->%Z.eqb_eq]. destruct (Hp HIGH ltac:(by right)) as (p & Ep & Hi). exists p. split; [done|].
    pose proof (pool_inv_queue HIGH l _ _ p Em eq_refl Hi). cbn [allowed]. change (2 ^ 31) with 2147483648. lia.
Qed.
Lemma execute_returns ts woken x l s rest : example_inv x l -> x_rest x = s :: rest -> choices_ok ts woken s (x_world x) ->
  exists r, execute ts woken s (x_world x) = Ret r.
Proof.
  intros [Em Hp Ho Hj Hz] Er Hc. rewrite Er in Em. pose proof (main_ok _ _ _ Em) as Hok.
  destruct (statement_turn ts woken s) as [[pri a]|] eqn:Et.
  - assert (is_priority pri) as Hpri.
    { apply priority_ok. destruct s; try discriminate Et; injection Et as -> <-; cbn [statement_ok] in Hok; lia. }
    unfold choices_ok in Hc. rewrite Et in Hc. destruct Hc as (p & Ep & Ha). destruct (Hp pri Hpri) as (q & Eq & Hi). rewrite Ep in Eq. injection Eq as <-.
    assert (a <> AJoinAllThreads /\ a <> AJoinNext) as [Hn1 Hn2] by (destruct s; try discriminate Et; by injection Et as _ <-).
    pose proof (env_turn_perform (x_world x) pri p a Hpri Ep Hn1 Hn2) as Eturn. destruct (perform_ok a p (iu_ok _ _ (pi_use _ _ _ _ Hi)) Ha) as (r & Eperf & _).
    rewrite Eperf in Eturn. destruct s; try discriminate Et; injection Et as -> <-; cbn [execute env_turn] in *; unfold_io;
      match goal with |- context[match ?m with Ret _ => _ | _ => _ end] => destruct m as [[x1 w1]| | |] end;
      try (destruct r as [[es' p']|]; discriminate Eturn); try by eexists. destruct x1. by eexists.
  - destruct s as [| | |pri| | |]; try discriminate Et; cbn [execute]; unfold_io.
    + apply Z.eqb_eq in Hok as ->. destruct (Hp HIGH ltac:(by right)) as (p & Ep & Hi). change 1 with HIGH.
      rewrite (GetThreadPoolQueueLen_spec HIGH _ p); [by eexists|by right|done|apply (iu_ok _ _ (pi_use _ _ _ _ Hi))].
    + rewrite WaitForJoin_nothing by done. by eexists.
    + by eexists.
Qed.

(** The destructor of the static environment, when [main] has returned. *)
Lemma PosixEnv_delete_returns x l o : example_inv x l -> exists v, PosixEnv_delete (w_env (x_world x)) o = Ret (v, o).
Proof.
  intros [_ Hp _ Hj Hz]. destruct (Hp LOW ltac:(by left)) as (p0 & E0 & H0'). destruct (Hp HIGH ltac:(by right)) as (p1 & E1 & H1'). unfold pool_of in E0, E1.
  destruct (thread_pools_ (w_env (x_world x))) as [|q0 [|q1 [|]]] eqn:Ep; try discriminate Hz. cbn in E0, E1. injection E0 as ->. injection E1 as ->.
  unfold PosixEnv_delete, mbind, IO_bind, io_lift. rewrite Hj, Ep. cbn [join_all join_pools]. unfold mret at 1, IO_ret at 1.
  unfold JoinAllThreads. rewrite (iu_running _ _ (pi_use _ _ _ _ H0')), (iu_running _ _ (pi_use _ _ _ _ H1')). by eexists.
Qed.

Lemma dequeued_by_one es i : dequeued es = [i] -> exists t, dequeued_by t es = [i].
Proof.
  assert (forall t l, dequeued l = [] -> dequeued_by t l = []) as Hnil.
  { intros t. unfold dequeued, dequeued_by. induction l as [|e l IH]; [done|]. by destruct e; csimpl. }
  induction es as [|e es IH]; [done|]. destruct e as [j|t j|t j|j|t]; try exact IH.
  unfold dequeued. csimpl. intros [= -> E]. exists t. unfold dequeued_by. csimpl. rewrite bool_decide_true by done. f_equal. by apply Hnil.
Qed.

(** ** Completion *)

Lemma main_completes x l : example_inv x l -> exists x' l', rtc example_step x x' /\ example_inv x' l' /\ x_rest x' = [].
Proof.
  remember (x_rest x) as rest eqn:Er. revert x l Er. induction rest as [|s rest IH]; intros x l Er Hi; [by exists x, l|].
  destruct (choices_exist x l s rest Hi (eq_sym Er)) as (ts & woken & Hc). destruct (execute_returns ts woken x l s rest Hi (eq_sym Er) Hc) as ([[es out] w] & Ex).
  pose proof (step_main x ts woken s rest es out w (eq_sym Er) Hc Ex) as Hs. destruct (example_step_inv _ _ _ Hi Hs) as (l1 & Hi1).
  destruct (IH (mkExample w rest (x_out x ++ out) (x_events x ++ es)) l1 eq_refl Hi1) as (x' & l' & Hr & H'). exists x', l'. split; [|done]. by eapply rtc_l.
Qed.

(** A pool that is not at rest has a thread that can move. *)
Lemma rest_or_turn p : pool_ok p -> exit_all_threads_ p = false -> at_rest p \/ exists t es p', BGThread t p = Ret (Some (es, p')).
Proof.
  intros Hok He. destruct (wf_running _ (proj1 Hok) He) as [Hj Hx].
  destruct (decide (map_Forall (fun _ th => is_waiting th = true) (threads p))) as [Hw|Hw].
  - left. apply rest_when_waiting; [|done]. intros t th Ht. specialize (Hw t th Ht). unfold is_waiting in Hw. by destruct (at_ th).
  - right. apply map_not_Forall in Hw as (t & th & Ht & Hw); [|apply _]. exists t. specialize (Hx t th Ht).
    destruct (BGThread_turn p t th Hok Ht) as (es & p' & E & _); [|by exists es, p'].
    unfold is_waiting in Hw. destruct (at_ th); try done; [by left|right; eauto].
Qed.
Lemma pool_completes pri x l p : is_priority pri -> example_inv x l -> pool_of (x_world x) pri = Some p ->
  exists x' p', rtc example_step x x' /\ example_inv x' l /\ x_rest x' = x_rest x /\ pool_of (x_world x') pri = Some p' /\ at_rest p' /\
    forall pri', is_priority pri' -> pri' <> pri -> pool_of (x_world x') pri' = pool_of (x_world x) pri'.
Proof.
  intros Hpri. remember (Z.to_nat (pool_cost p)) as n eqn:En. revert x p En. induction n as [n IH] using lt_wf_ind. intros x p En Hi Ep.
  destruct (xi_pool _ _ Hi pri Hpri) as (q & Eq & Hq). rewrite Ep in Eq. injection Eq as <-. pose proof (iu_ok _ _ (pi_use _ _ _ _ Hq)) as Hok.
  destruct (rest_or_turn p Hok (iu_running _ _ (pi_use _ _ _ _ Hq))) as [Hr|(t & es & p1 & Et)]; [by exists x, p|].
  assert (env_turn pri (AThread t) (x_world x) = Ret (Some es, put_pool (x_world x) pri p1)) as Eturn
    by (rewrite (env_turn_perform _ pri p (AThread t)) by done; cbn [perform]; by rewrite Et).
  pose proof (step_background x pri (AThread t) p es _ Hpri Ep ltac:(eauto) Eturn) as Hs.
  assert (example_inv (mkExample (put_pool (x_world x) pri p1) (x_rest x) (x_out x) (x_events x ++ ((pri,.) <$> es))) l) as Hi1 by (eapply (background_inv x l pri (AThread t)); eauto).
  pose proof (work_cost (AThread t) es p p1 Hok I Et) as Hc. pose proof (pool_cost_nonneg p1).
  destruct (IH (Z.to_nat (pool_cost p1)) ltac:(lia) _ p1 eq_refl Hi1) as (x' & p' & Hr & Hi' & Er & Ep' & Hrest & Hother).
  { cbn [x_world]. rewrite pool_of_put by done. by rewrite Z.eqb_refl. }
  exists x', p'. split; [by eapply rtc_l|]. split; [done|]. split; [done|]. split; [done|]. split; [done|]. intros pri' Hp' Hne.
  rewrite (Hother pri' Hp' Hne). cbn [x_world]. rewrite pool_of_put by done. by rewrite (proj2 (Z.eqb_neq pri' pri)).
Qed.
Lemma example_completes x l : example_inv x l -> exists x' l', rtc example_step x x' /\ example_inv x' l' /\ x_rest x' = [] /\
  forall pri p, is_priority pri -> pool_of (x_world x') pri = Some p -> at_rest p.
Proof.
  intros Hi. destruct (main_completes x l Hi) as (x1 & l1 & Hr1 & Hi1 & E1).
  destruct (xi_pool _ _ Hi1 LOW ltac:(by left)) as (p1 & Ep1 & _). destruct (pool_completes LOW x1 l1 p1 ltac:(by left) Hi1 Ep1) as (x2 & p2 & Hr2 & Hi2 & E2 & Ep2 & Hrest2 & _).
  destruct (xi_pool _ _ Hi2 HIGH ltac:(by right)) as (q2 & Eq2 & _). destruct (pool_completes HIGH x2 l1 q2 ltac:(by right) Hi2 Eq2) as (x3 & q3 & Hr3 & Hi3 & E3 & Eq3 & Hrest3 & Ho).
  exists x3, l1. split; [by do 2 (etrans; [eassumption|])|]. split; [done|]. split; [congruence|]. intros pri p [->| ->] Ep.
  - rewrite (Ho LOW ltac:(by left) ltac:(done)), Ep2 in Ep. by injection Ep as <-.
  - rewrite Eq3 in Ep. by injection Ep as <-.
Qed.

(** The example of the thread pool, under every interleaving of its [main] with the background
    threads: [main] never has to wait and no call aborts, nor does the destructor of the
    environment after it; it prints the length of the queue, at most 101, and then 0, since the
    null tag of [UnSchedule] cancels all that is queued. Every run can go on until [main] has
    returned and the threads rest, and then every item of high priority has run or is cancelled,
    and the one of low priority has run. *)
Lemma thread_pool_example page env pr o x : example_run page env pr o x ->
  (forall s rest ts woken, x_rest x = s :: rest -> choices_ok ts woken s (x_world x) -> exists r, execute ts woken s (x_world x) = Ret r) /\
  (exists x', rtc example_step x x' /\ x_rest x' = [] /\ forall pri p, is_priority pri -> pool_of (x_world x') pri = Some p -> at_rest p) /\
  (x_rest x = [] ->
    (exists n, x_out x = [n; 0] /\ 0 <= n <= 101) /\
    (exists v, PosixEnv_delete (w_env (x_world x)) (w_os (x_world x)) = Ret (v, w_os (x_world x))) /\
    (forall p, pool_of (x_world x) HIGH = Some p -> at_rest p ->
      scheduled HIGH thread_pool_main ≡ₚ dequeued (events_on HIGH (x_events x)) ++ cancelled (events_on HIGH (x_events x)) /\
      forall t, dequeued_by t (events_on HIGH (x_events x)) = ran_by t (events_on HIGH (x_events x))) /\
    (forall p, pool_of (x_world x) LOW = Some p -> at_rest p -> exists t, ran_by t (events_on LOW (x_events x)) = [plain_item LowPrioFunc msg])).
Proof.
  intros (l & Hi)%example_run_inv. split; [|split].
  - intros s rest ts woken Er. by eapply execute_returns.
  - destruct (example_completes x l Hi) as (x' & l' & Hr & _ & E & Hrest). by exists x'.
  - intros Er. pose proof (PosixEnv_delete_returns x l (w_os (x_world x)) Hi) as Hdel. destruct Hi as [Em Hp Ho _ _]. rewrite Er, app_nil_r in Em. subst l.
    split; [|split; [done|split]].
    + change (snd (checks thread_pool_main)) with [false; true] in Ho.
      apply Forall2_cons_inv_l in Ho as (n & k & [Hn _] & Ho & ->). apply Forall2_cons_inv_l in Ho as (z & k' & [_ Hz] & ->%Forall2_nil_inv_l & ->).
      exists n. by rewrite Hz.
    + intros p Ep Hr. destruct (Hp HIGH ltac:(by right)) as (q & Eq & [[Hok Hh He] Hen _ Hq]). rewrite Ep in Eq. injection Eq as <-.
      destruct (at_rest_running p Hok Hr He) as (Hqe & _). rewrite <- Hen. split; [by rewrite (hi_all _ _ Hh), Hqe, app_nil_r|]. by apply (rest_ran _ _ Hok Hh He Hr).
    + intros p Ep Hr. destruct (Hp LOW ltac:(by left)) as (q & Eq & [[Hok Hh He] Hen Hc _]). rewrite Ep in Eq. injection Eq as <-.
      destruct (at_rest_running p Hok Hr He) as (Hqe & _). pose proof (hi_all _ _ Hh) as Hall. rewrite Hen, Hqe, (Hc eq_refl), !app_nil_r in Hall.
      change (scheduled LOW thread_pool_main) with [plain_item LowPrioFunc msg] in Hall. symmetry in Hall. apply Permutation_singleton_r in Hall.
      destruct (dequeued_by_one _ _ Hall) as (t & Et). exists t. by rewrite <- (rest_ran _ _ Hok Hh He Hr).
Qed.
End example.

(** The example on a concrete system, to its end. *)
Lemma thread_pool_example_witness : exists (x : Example_state (O := Kernel)) n, x_rest x = [] /\ x_out x = [n; 0] /\
  exists t, ran_by t (events_on LOW (x_events x)) = [plain_item LowPrioFunc msg].
Proof.
  assert (example_run 4096 1 (fun _ => 7) kernel0 (example_start 4096 1 (fun _ => 7) kernel0)) as H0 by apply rtc_refl.
  destruct (thread_pool_example 4096 1 (fun _ => 7) kernel0 _ H0) as (_ & (x & Hr & Er & Hrest) & _).
  destruct (thread_pool_example 4096 1 (fun _ => 7) kernel0 x Hr) as (_ & _ & Hend). destruct (Hend Er) as ((n & Hn & _) & _ & _ & Hlow).
  destruct (example_run_inv 4096 1 (fun _ => 7) kernel0 x Hr) as (l & Hi). destruct (xi_pool _ _ Hi LOW (or_introl eq_refl)) as (p & Ep & _).
  exists x, n. split; [exact Er|]. split; [exact Hn|]. exact (Hlow p Ep (Hrest LOW p (or_introl eq_refl) Ep)).
Defined.
