(* ===== verification/Wrappers.v ===== *)
(** * Wrappers ([EnvWrapper] and [WritableFileWrapper] of [include/rocksutil/env.h])

    The classes that forward calls to a target, as instances of the interfaces over those of the
    target, and the methods that they do not forward. *)

From Stdlib Require Import Strings.Byte Strings.String.
From stdpp Require Import list.
From S2P Require Import Prelude.
From S2P Require Import Slice.
From S2P Require Import Coding.
From S2P Require Import Status.
From S2P Require Import AlignedBuffer.
From S2P Require Import FileApi.
From S2P Require Import FileWriter.
From S2P Require Import FileWriterSpec.
From S2P Require Import FileWriterTheorems.
From S2P Require Import IoPosix.
From S2P Require Import Env.
From S2P Require Import EnvTheorems.
From S2P Require Import EnvPosix.
From S2P Require Import PosixLogger.
From S2P Require Import PosixWorld.
From S2P Require Import ThreadPool.
From S2P Require Import EnvThreads.

(** ** [WritableFileWrapper] *)

Record WritableFileWrapper (F : Type) : Type := mkFileWrapper { target_ : F }.
Arguments mkFileWrapper {F} _.
Arguments target_ {F} _.

(** A forwarded call. *)
Definition forward {F} (f : WritableFileWrapper F) (op : F -> Status * F) : Status * WritableFileWrapper F :=
  let '(s, t) := op (target_ f) in (s, mkFileWrapper t).

(** [UseOSBuffer], [UseDirectIO] and [GetRequiredBufferAlignment] are those of the base class. *)
#[export] Instance wrapped_file {F} `{WritableFile F} : WritableFile (WritableFileWrapper F) := {
  UseOSBuffer _ := default_UseOSBuffer;
  UseDirectIO _ := default_UseDirectIO;
  GetRequiredBufferAlignment _ := c_DefaultPageSize;
  IsSyncThreadSafe f := IsSyncThreadSafe (target_ f);
  file_Append f d := forward f (fun t => file_Append t d);
  PositionedAppend f p d i := forward f (fun t => PositionedAppend t p d i);
  Truncate f n := forward f (fun t => Truncate t n);
  file_Close f := forward f file_Close;
  file_Flush f := forward f file_Flush;
  file_Sync f := forward f file_Sync;
  file_Fsync f := forward f file_Fsync;
  file_RangeSync f a b := forward f (fun t => file_RangeSync t a b);
  file_InvalidateCache f a b := forward f (fun t => file_InvalidateCache t a b);
  file_PrepareWrite f a b := mkFileWrapper (file_PrepareWrite (target_ f) a b);
}.

#[export] Instance wrapped_settings {F} `{WritableSettings F} : WritableSettings (WritableFileWrapper F) := {
  wf_SetIOPriority f pri := mkFileWrapper (wf_SetIOPriority (target_ f) pri);
  wf_GetIOPriority f := wf_GetIOPriority (target_ f);
  wf_GetFileSize f := wf_GetFileSize (target_ f);
  wf_SetPreallocationBlockSize f size := mkFileWrapper (wf_SetPreallocationBlockSize (target_ f) size);
  wf_GetPreallocationStatus f := wf_GetPreallocationStatus (target_ f);
  wf_GetUniqueId f max_size := wf_GetUniqueId (target_ f) max_size;
  wf_Allocate f offset len := forward f (fun t => wf_Allocate t offset len);
}.

Lemma forward_spec {F} (f : WritableFileWrapper F) op : forward f op = ((op (target_ f)).1, mkFileWrapper (op (target_ f)).2).
Proof. unfold forward. by destruct (op (target_ f)). Qed.

(** The wrapper of a file that works through the OS buffer is such a file, with the same bytes:
    all that was shown of [WritableFileWriter] holds for it. *)
#[export] Instance wrapped_working {F} `{WorkingFile F} : WorkingFile (WritableFileWrapper F).
Proof.
  refine {| bytes_of f := bytes_of (target_ f); works f := works (target_ f) /\ UseOSBuffer (target_ f) = true;
    file_fits := file_fits (F := F); same_mode f f' := same_mode (target_ f) (target_ f') |}; simpl; try setoid_rewrite forward_spec; simpl.
  - apply file_fits_nil.
  - intros m n. apply file_fits_le.
  - intros f d [Hf Hos] _ Hfit. destruct (works_Append (target_ f) d Hf Hos Hfit) as (Ho & Hw & Hm & Hb).
    rewrite (proj1 (same_mode_spec _ _ Hm)). done.
  - discriminate.
  - intros f n [Hf Hos] Hn He. destruct (works_Truncate (target_ f) n Hf Hn) as (Ho & Hw & Hm & Hb); [by intros _; apply He|].
    rewrite (proj1 (same_mode_spec _ _ Hm)). done.
  - intros f [Hf _]. by apply works_Close.
  - intros f r [Hf Hos] Hr.
    assert (exists q, r = (q.1, mkFileWrapper q.2) /\ (q = file_Flush (target_ f) \/ q = file_Sync (target_ f) \/ q = file_Fsync (target_ f) \/
      (exists a b, 0 <= a /\ 0 <= b /\ a + b < 2 ^ 63 /\ q = file_RangeSync (target_ f) a b))) as (q & -> & Hq).
    { destruct Hr as [->|[->|[->|(a & b & Ha & Hb & Hab & ->)]]]; eexists; (split; [reflexivity|]); eauto 10. }
    destruct (works_quiet (target_ f) q Hf Hq) as (Ho & Hw & Hm & Hb). simpl. rewrite (proj1 (same_mode_spec _ _ Hm)). done.
  - intros f a b [Hf Hos]. destruct (works_PrepareWrite (target_ f) a b Hf) as (Hw & Hm & Hb). rewrite (proj1 (same_mode_spec _ _ Hm)). done.
  - done.
Defined.
(** A file for direct writes is not: what its wrapper says hides that it is one, so that a
    [WritableFileWriter] gives it data of any size and address with [Append]. *)
Lemma wrapper_hides_direct `{Host} {F} `{WritableFile F} new_chars (f : F) max sync w :
  WritableFileWriter_new new_chars (mkFileWrapper f) max sync = Ret w ->
  use_os_buffer_ w = true /\ direct_io_ w = false /\ forall data, exists s f', file_Append (mkFileWrapper f) data = (s, mkFileWrapper f') /\ file_Append f data = (s, f').
Proof.
  unfold WritableFileWriter_new. destruct (Alignment _ _) as [b| | |]; try done. simpl. destruct (AllocateNewBuffer _ _ _) as [b2| | |]; try done.
  simpl. intros E. injection E as <-. split; [done|]. split; [done|]. intros data. destruct (file_Append f data) as [s f'] eqn:E.
  exists s, f'. split; [|done].
  change (forward (mkFileWrapper f) (fun t => file_Append t data) = (s, mkFileWrapper f')). unfold forward. simpl. by rewrite E.
Qed.

(** ** [EnvWrapper] *)

(** The target is an [Env] of the same state; these methods are its own. *)
Definition EnvWrapper {E} (target : Env E) : Env E := {|
  NewWritableFile := NewWritableFile;
  NewSequentialFile := NewSequentialFile;
  NewLogger := NewLogger;
  FileExists := FileExists;
  GetChildren := GetChildren;
  GetFileSize_of := GetFileSize_of;
  DeleteFile := DeleteFile;
  RenameFile := RenameFile;
  CreateDirIfMissing := CreateDirIfMissing;
  NowMicros := NowMicros;
  w_Append := w_Append;
  w_Sync := w_Sync;
  w_delete := w_delete;
  s_Read := s_Read;
  s_delete := s_delete;
|}.
(** [NowNanos] and the two [OptimizeFor] are not forwarded: they are those of [Env]. *)
Definition EnvWrapper_system {E} (target : Env E) (s : @EnvSystem E target) : @EnvSystem E (EnvWrapper target) :=
  @Build_EnvSystem E (EnvWrapper target)
    (@rfile E target s)
    (@rwfile E target s)
    (@directory E target s)
    (@file_lock E target s)
    (@NewRandomAccessFile E target s)
    (@ReuseWritableFile E target s)
    (@NewRandomRWFile E target s)
    (@NewDirectory E target s)
    (@ChildrenFileAttributes E target s)
    (@CreateDir E target s)
    (@DeleteDir E target s)
    (@GetFileModificationTime E target s)
    (@LinkFile E target s)
    (@LockFile E target s)
    (@UnlockFile E target s)
    (@GetTestDirectory E target s)
    (@Env_NowNanos E (EnvWrapper target))
    (@SleepForMicroseconds E target s)
    (@GetHostName E target s)
    (@GetCurrentTime E target s)
    (@GetAbsolutePath E target s)
    (@TimeToString E target s)
    Env_OptimizeForLogWrite
    Env_OptimizeForManifestWrite.

(** All methods of the threads are forwarded. *)
Definition EnvWrapper_threads {E} (target : EnvThreads E) : EnvThreads E := {|
  env_Schedule := env_Schedule;
  env_UnSchedule := env_UnSchedule;
  env_StartThread := env_StartThread;
  env_WaitForJoin := env_WaitForJoin;
  env_GetThreadPoolQueueLen := env_GetThreadPoolQueueLen;
  env_SetBackgroundThreads := env_SetBackgroundThreads;
  env_IncBackgroundThreadsIfNeeded := env_IncBackgroundThreadsIfNeeded;
  env_LowerThreadPoolIOPriority := env_LowerThreadPoolIOPriority;
|}.

(** Around a [PosixEnv] the options for a log ask for memory mapping, which [PosixEnv] takes
    back, and the nanoseconds are whole microseconds of another clock. *)
Lemma EnvWrapper_drops_options `{Host} {O} `{PosixPaths O} fuel buffer :
  let env := World_env (O := O) fuel buffer in
  let posix := World_system fuel buffer in
  let wrapper := EnvWrapper_system env posix in
  opt_use_mmap_writes (@OptimizeForLogWrite _ _ wrapper EnvOptions_new) = true /\
  opt_use_mmap_writes (@OptimizeForLogWrite _ _ posix EnvOptions_new) = false /\
  forall w n w', @NowNanos _ _ wrapper w = Ret (n, w') -> exists us, n = u64 (us * 1000).
Proof.
  split; [done|]. split; [done|]. intros w n w' E.
  change ((us ← on_os Posix_NowMicros; mret (u64 (us * 1000))) w = Ret (n, w')) in E. unfold mbind, IO_bind in E.
  destruct (on_os Posix_NowMicros w) as [[us w1]| | |]; try done. injection E as <- _. by exists us.
Qed.

(** What was shown of the functions of env.cc holds for a wrapper of an environment. *)
Definition wrapped_files {E} (target : Env E) (files : @EnvFiles E target) : @EnvFiles E (EnvWrapper target) :=
  match files with
  | @Build_EnvFiles _ _ fo eo tr op wr rd l0 l1 l2 l3 l4 l5 l6 l7 l8 => @Build_EnvFiles E (EnvWrapper target) fo eo tr op wr rd l0 l1 l2 l3 l4 l5 l6 l7 l8
  end.
