(* ===== verification/PosixWorldTheorems.v ===== *)
(** * PosixWorldTheorems: [PosixEnv] keeps the promises of an environment

    What the calls of the system promise about named files, and from that the laws of EnvFiles
    for the environment of PosixWorld, whether its files are written with [write] or mapped. *)

From Stdlib Require Import Strings.Byte Strings.String.
From stdpp Require Import list gmap relations.
From S2P Require Import Prelude.
From S2P Require Import Slice.
From S2P Require Import Coding.
From S2P Require Import Status.
From S2P Require Import FileApi.
From S2P Require Import IoPosix.
From S2P Require Import IoPosixTheorems.
From S2P Require Import IoPosixMmap.
From S2P Require Import Env.
From S2P Require Import EnvTheorems.
From S2P Require Import EnvPosix.
From S2P Require Import EnvPosixTheorems.
From S2P Require Import PosixLogger.
From S2P Require Import PosixWorld.

(** ** What the system promises *)

(** The calls that change no file and keep descriptors and streams. *)
Inductive tree_call {O} `{PosixPaths O} (o : O) : O -> Prop :=
| tree_getfd fd : tree_call o (sys_getfd o fd).2
| tree_setfd fd flags : tree_call o (sys_setfd o fd flags).2
| tree_statfs f : tree_call o (sys_statfs o f).2
| tree_fdatasync fd : tree_call o (sys_fdatasync o fd).2
| tree_clearerr s : tree_call o (c_clearerr o s)
| tree_time : tree_call o (sys_gettimeofday o).2
| tree_access f : tree_call o (sys_access o f).2
| tree_keep_size fd a n : tree_call o (sys_fallocate o fd true a n).2
| tree_fflush s : tree_call o (c_fflush o s).2.

(** The calls by which [PosixMmapFile] changes the file of [fd]. *)
Inductive map_call {O} `{MmapFiles O} (fd : Z) (o : O) : O -> Prop :=
| map_fallocate off n : map_call fd o (sys_fallocate o fd false off n).2
| map_posix_fallocate off n : map_call fd o (sys_posix_fallocate o fd off n).2
| map_mmap n off : map_call fd o (sys_mmap o n fd off).2
| map_munmap p n : map_call fd o (sys_munmap o p n).2
| map_msync p n : map_call fd o (sys_msync o p n).2
| map_ftruncate n : map_call fd o (sys_ftruncate o fd n).2
| map_fdatasync : map_call fd o (sys_fdatasync o fd).2
| map_store p n off i d : mapped o fd p n off -> off + n <= zlen (file_bytes o fd) -> 0 <= i -> i + zlen d <= n -> map_call fd o (mem_store o (p + i) d).

Definition fast_type (t : Z) : bool := (t =? EXT4_SUPER_MAGIC) || (t =? XFS_SUPER_MAGIC) || (t =? TMPFS_MAGIC).

Definition calm {O} `{PosixFiles O} (slow : O -> Prop) (stream_open : O -> Z -> Prop) (o o' : O) : Prop :=
  ((slow o -> slow o') /\ (healthy o -> healthy o')) /\ (patience o' <= patience o)%nat /\ forall s, stream_open o s -> stream_open o' s.

(** [path_bytes o f] are the bytes of the file that is called [f]. [fd_of o fd f] says that
    [fd] was opened for the file that is or was called [f], [fd_path o fd f] that it still has this
    name, [fd_name o fd f] that [fd] is at its end, too; [stream_at o s f pos]
    that the stream [s] reads it at [pos]. [slow o] says that no disk is of a type for which
    writes are mapped, [stream_open o s] that the stream [s] is open. Signals interrupt only as
    often as [patience] says. *)
Class PosixTree (O : Type) `{PosixPaths O} `{!PosixFiles O} `{!MmapFiles O} := {
  path_bytes : O -> Slice -> option (list byte);
  fd_of : O -> Z -> Slice -> Prop;
  fd_path : O -> Z -> Slice -> Prop;
  fd_name : O -> Z -> Slice -> Prop;
  stream_at : O -> Z -> Slice -> Z -> Prop;
  slow : O -> Prop;
  stream_open : O -> Z -> Prop;
  fd_path_law : forall o fd f, fd_path o fd f -> path_bytes o f = Some (file_bytes o fd) /\ fd_of o fd f;
  fd_name_law : forall o fd f, fd_name o fd f -> fd_path o fd f /\ at_end o fd;
  tree_law : forall o o', tree_call o o' -> calm slow stream_open o o' /\ (forall g, path_bytes o' g = path_bytes o g) /\
    (forall fd f, fd_path o fd f -> fd_path o' fd f) /\ (forall fd f, fd_name o fd f -> fd_name o' fd f) /\
    (forall s f pos, stream_at o s f pos -> stream_at o' s f pos);
  map_law : forall o fd f o', fd_of o fd f -> map_call fd o o' -> calm slow stream_open o o' /\ same_but path_bytes f o o' /\ fd_of o' fd f /\
    (fd_path o fd f -> fd_path o' fd f);
  close_law : forall o fd r o', sys_close o fd = (r, o') -> calm slow stream_open o o' /\ forall g, path_bytes o' g = path_bytes o g;
  fclose_law : forall o s, let o' := c_fclose o s in calm slow (fun o s' => s' <> s /\ stream_open o s') o o' /\
    forall g, path_bytes o' g = path_bytes o g;
  statfs_law : forall o f, slow o -> (sys_statfs o f).1.1 <> 0 \/ fast_type (sys_statfs o f).1.2 = false;
  create_law : forall o f fd o', sys_open o f (Z.lor O_CREAT (Z.lor O_RDWR O_TRUNC)) = (fd, o') -> calm slow stream_open o o' /\ same_but path_bytes f o o' /\
    if fd <? 0 then errno o' = EINTR -> (patience o' < patience o)%nat else fd_name o' fd f /\ path_bytes o' f = Some [];
  write_tree_law : forall o fd f d r o', fd_name o fd f -> sys_write o fd d = (r, o') -> calm slow stream_open o o' /\ same_but path_bytes f o o' /\ fd_name o' fd f;
  unlink_law : forall o f r o', sys_unlink o f = (r, o') -> calm slow stream_open o o' /\ same_but path_bytes f o o' /\
    (forall fd g, fd_of o fd g -> fd_of o' fd g) /\ (r = 0 -> path_bytes o' f = None);
  fopen_read_law : forall o f s o', sys_fopen o f (str "r") = (s, o') -> calm slow stream_open o o' /\ (forall g, path_bytes o' g = path_bytes o g) /\
    match s with Some s => stream_at o' s f 0 /\ ~ stream_open o s /\ stream_open o' s | None => errno o' = EINTR -> (patience o' < patience o)%nat end;
  fread_law : forall o s f pos c n r bytes o', stream_at o s f pos -> path_bytes o f = Some c -> 0 <= pos -> 0 < n -> c_fread o s n = (r, bytes, o') ->
    calm slow stream_open o o' /\ (forall g, path_bytes o' g = path_bytes o g) /\ bytes = ztake r (zdrop pos c) /\ zlen bytes = r /\ r <= n /\
    stream_at o' s f (pos + r) /\ (r < n -> c_feof o' s = true -> zlen c <= pos + r) /\
    (r = 0 -> c_ferror o' s = true -> errno o' = EINTR -> (patience o' < patience o)%nat);
}.

(** ** The calls that a program makes *)

(** Every state that the program goes through comes from the one before by a step of [R]. *)
Definition steps {O} `{Posix O} (R : O -> O -> Prop) {A} (m : IO (O := O) A) : Prop := forall o a o', m o = Ret (a, o') -> rtc R o o'.

Section steps.
Context {O : Type} `{Posix O} (R : O -> O -> Prop).

Lemma steps_ret {A} (a : A) : steps R (mret a : IO A).
Proof. intros o x o' E. injection E as _ <-. apply rtc_refl. Qed.
Lemma steps_bind {A B} (m : IO A) (k : A -> IO B) : steps R m -> (forall a, steps R (k a)) -> steps R (m ≫= k).
Proof.
  intros Hm Hk o b o' E. unfold mbind, IO_bind in E. destruct (m o) as [[a o1]| | |] eqn:Em; try done.
  etrans; [by eapply Hm|by eapply Hk].
Qed.
Lemma steps_call {A} (f : O -> A * O) : (forall o, R o (f o).2) -> steps R (call f).
Proof. intros Hf o a o' E. unfold call in E. pose proof (Hf o) as Ho. destruct (f o). injection E as _ <-. by apply rtc_once. Qed.
Lemma steps_look {A} (f : O -> A) : steps R (fun o => Ret (f o, o)).
Proof. intros o a o' E. injection E as _ <-. apply rtc_refl. Qed.
Lemma steps_assert b : steps R (io_assert b).
Proof. intros o a o'. unfold io_assert. destruct b; [|done]. intros E. injection E as _ <-. apply rtc_refl. Qed.
Lemma steps_local {A B} (f : O -> B) (m : B -> IO A) : (forall b, steps R (m b)) -> steps R (fun o => m (f o) o).
Proof. intros Hm o a o' E. by eapply Hm. Qed.
End steps.

(** Follow the structure of a program down to its calls, and to parts that are known. *)
Create HintDb steps.
Ltac walk :=
  repeat first
    [ solve [auto 2 with steps nocore] | apply steps_ret | apply steps_assert | apply steps_look | apply steps_bind; [|intros ?] | apply steps_call; intros ?
    | match goal with |- steps _ (match ?x with _ => _ end) => destruct x end ].

Section system.
Context `{Host} {O : Type} `{PosixTree O}.

Lemma calm_refl (o : O) : calm slow stream_open o o.
Proof. done. Qed.
Lemma calm_trans (o1 o2 o3 : O) : calm slow stream_open o1 o2 -> calm slow stream_open o2 o3 -> calm slow stream_open o1 o3.
Proof. intros ((Hs1 & Hh1) & Hp1 & Ho1) ((Hs2 & Hh2) & Hp2 & Ho2). split; [auto|]. split; [lia|auto]. Qed.
Lemma same_but_trans f (o1 o2 o3 : O) : same_but path_bytes f o1 o2 -> same_but path_bytes f o2 o3 -> same_but path_bytes f o1 o3.
Proof. intros H12 H23 g Hg. by rewrite H23, H12. Qed.

Lemma same_but_refl f (o : O) : same_but path_bytes f o o.
Proof. by intros g _. Qed.

(** A part of a program that changes no file. *)
Record kept (o o' : O) : Prop := {
  kept_calm : calm slow stream_open o o';
  kept_files : forall g, path_bytes o' g = path_bytes o g;
  kept_paths : forall fd f, fd_path o fd f -> fd_path o' fd f;
  kept_fds : forall fd f, fd_name o fd f -> fd_name o' fd f;
  kept_streams : forall s f pos, stream_at o s f pos -> stream_at o' s f pos;
}.
Lemma os_kept_refl o : kept o o.
Proof. by constructor. Qed.
Lemma os_kept_trans o1 o2 o3 : kept o1 o2 -> kept o2 o3 -> kept o1 o3.
Proof.
  intros [C1 F1 P1 D1 S1] [C2 F2 P2 D2 S2]. constructor; auto; [by eapply calm_trans|]. intros g. by rewrite F2.
Qed.
Lemma kept_call o o' : tree_call o o' -> kept o o'.
Proof. intros Hc. destruct (tree_law o o' Hc) as (C & F & P & D & S). by constructor. Qed.
#[local] Hint Resolve os_kept_refl os_kept_trans kept_call calm_refl calm_trans same_but_refl : core.
#[local] Hint Constructors tree_call : core.

Lemma cloexec_kept fd opts o : exists o', SetFD_CLOEXEC fd opts o = Ret (tt, o') /\ kept o o'.
Proof.
  unfold SetFD_CLOEXEC. destruct (_ && _); [|by exists o; auto]. rewrite !IO_call_step. eexists. split; [reflexivity|]. eauto.
Qed.

(** ** Writing *)

Lemma open_loop_tree f fuel : forall o, (patience o < fuel)%nat -> exists fd o',
  open_loop fuel f (Z.lor O_CREAT (Z.lor O_RDWR O_TRUNC)) o = Ret (fd, o') /\ calm slow stream_open o o' /\ same_but path_bytes f o o' /\
  (0 <= fd -> fd_name o' fd f /\ path_bytes o' f = Some []).
Proof.
  induction fuel as [|fuel IH]; intros o Hf; [lia|]. cbn [open_loop]. rewrite IO_call_step.
  destruct (sys_open o f (Z.lor O_CREAT (Z.lor O_RDWR O_TRUNC))) as [fd o1] eqn:E. cbn [fst snd].
  destruct (create_law o f fd o1 E) as (Hc & Hs & Hfd). rewrite (IO_bind_step _ _ (errno o1) o1 o1) by done.
  destruct (Z.ltb_spec fd 0) as [Hneg|Hpos]; [destruct (Z.eqb_spec (errno o1) EINTR) as [He|He]|]; simpl.
  - specialize (Hfd He). destruct (IH o1 ltac:(lia)) as (fd2 & o2 & E2 & Hc2 & Hs2 & Hfd2). exists fd2, o2. split; [exact E2|].
    split; [eauto|]. split; [by eapply same_but_trans|]. done.
  - exists fd, o1. do 3 (split; [done|]). lia.
  - exists fd, o1. done.
Qed.

Definition mmap_off (v : PosixEnv) : Prop := checkedDiskForMmap_ v = true -> forceMmapOff v = true.
Lemma check_disk_tree v f opts o : exists v' o', check_disk v f opts o = Ret (v', o') /\ kept o o' /\ env_page_size_ v' = env_page_size_ v /\
  (slow o -> mmap_off v -> mmap_off v' /\ opt_use_mmap_writes opts && negb (forceMmapOff v') = false).
Proof.
  unfold check_disk. destruct (opt_use_mmap_writes opts) eqn:Em; simpl; [|exists v, o; auto 10].
  destruct (checkedDiskForMmap_ v) eqn:Ec; simpl; [exists v, o; split_and!; auto; intros _ Hv; by rewrite Hv|].
  assert (exists b o1, SupportsFastAllocate f o = Ret (b, o1) /\ kept o o1 /\ (slow o -> b = false)) as (b & o1 & E1 & Hk & Hb).
  { unfold SupportsFastAllocate. rewrite IO_call_step. pose proof (statfs_law o f) as Hd. pose proof (tree_statfs o f) as Ht.
    destruct (sys_statfs o f) as [[r t] o1]. cbn [fst snd] in *. eexists _, o1. split; [reflexivity|]. split; [auto|]. intros Hs.
    destruct (Z.eqb_spec r 0); simpl; [by destruct (Hd Hs)|done]. }
  rewrite (IO_bind_step _ _ _ _ _ E1). eexists _, o1. split; [reflexivity|]. split; [done|]. split; [done|]. intros Hs _. by rewrite (Hb Hs).
Qed.

(** What a new file for writing is. *)
Definition new_plain (w : OpenWritable) (f : Slice) (o : O) : Prop := exists p, w = WritePosix p /\ pw_base p = WritableFileBase_new /\ fd_name o (pw_fd p) f.
Definition mapped_writer (m : PosixMmapFile) (f : Slice) (o : O) (c : list byte) : Prop :=
  0 <= mm_fd m /\ fd_path o (mm_fd m) f /\ mmap_clean m o c /\ zlen c < 2 ^ 62.
Definition page_ok (v : PosixEnv) : Prop :=
  0 < env_page_size_ v <= 2 ^ 20 /\ Z.land (env_page_size_ v) (env_page_size_ v - 1) = 0 /\ (kPageSize (O := O) | env_page_size_ v).

Lemma NewWritable_tree fuel v f o : (patience o < fuel)%nat -> page_ok v -> exists s r v' o',
  Posix_NewWritableFile fuel v f EnvOptions_new o = Ret (s, r, v', o') /\ calm slow stream_open o o' /\ same_but path_bytes f o o' /\
  env_page_size_ v' = env_page_size_ v /\ (slow o -> mmap_off v -> mmap_off v' /\ forall m, r <> Some (WriteMmap m)) /\
  match r with
  | Some w => s = OK /\ path_bytes o' f = Some [] /\ (new_plain w f o' \/ exists m, w = WriteMmap m /\ mapped_writer m f o' [])
  | None => ok s = false
  end.
Proof.
  intros Hp Hpage. unfold Posix_NewWritableFile. destruct (open_loop_tree f fuel o Hp) as (fd & o1 & E1 & Hc1 & Hb1 & Hfd).
  rewrite (IO_bind_step _ _ _ _ _ E1). destruct (Z.ltb_spec fd 0) as [|Hpos].
  { rewrite fail_errno_step. eexists _, None, v, o1. split; [reflexivity|]. do 4 (split; [done|]). apply IOError_of_not_ok. }
  destruct (Hfd Hpos) as [Hn Hb]. destruct (cloexec_kept fd (Some EnvOptions_new) o1) as (o2 & E2 & Hk2). rewrite (IO_bind_step _ _ _ _ _ E2).
  destruct (check_disk_tree v f EnvOptions_new o2) as (v3 & o3 & E3 & Hk3 & Hpg & Hoff).
  rewrite (IO_bind_step _ _ _ _ _ E3). assert (kept o1 o3) as [Hc Hf Hpath Hd _] by eauto. rewrite <- Hf in Hb.
  assert (slow o -> mmap_off v -> mmap_off v3 /\ opt_use_mmap_writes EnvOptions_new && negb (forceMmapOff v3) = false) as Hslow.
  { intros Hs. apply Hoff. destruct Hk2 as [[[Hs2 _] _] _ _ _ _], Hc1 as [[Hs1 _] _]. auto. }
  destruct (opt_use_mmap_writes EnvOptions_new && negb (forceMmapOff v3)).
  - destruct (fd_path_law o3 fd f) as [Hpb _]; [by apply Hpath, fd_name_law|]. rewrite Hb in Hpb. injection Hpb as Hby.
    unfold new_mmap_file. destruct (PosixMmapFile_new_run f fd (env_page_size_ v3) true (opt_fallocate_with_keep_size EnvOptions_new) o3) as (m & Em & Hm & Hmf); [rewrite Hpg; apply Hpage..|done|done|].
    assert (new_mmap_file v3 f fd EnvOptions_new o3 = Ret (WriteMmap m, o3)) as E4 by (unfold new_mmap_file; by rewrite (IO_bind_step _ _ _ _ _ Em)).
    rewrite (IO_bind_step _ _ _ _ _ E4). eexists OK, _, v3, o3. split; [reflexivity|]. split; [eauto|]. split; [intros g Hg; by rewrite Hf, Hb1|].
    split; [done|]. split; [intros Hs Hv; by destruct (Hslow Hs Hv)|]. split; [done|]. split; [done|]. right. exists m. split; [done|].
    unfold mapped_writer. rewrite Hmf. split; [done|]. split; [by apply Hpath, fd_name_law|done].
  - change (opt_use_direct_writes EnvOptions_new) with false. cbv iota. eexists _, _, v3, o3. split; [reflexivity|]. split; [eauto|].
    split; [intros g Hg; by rewrite Hf, Hb1|]. split; [done|]. split; [intros Hs Hv; by destruct (Hslow Hs Hv)|]. split; [done|]. split; [done|].
    left. eexists. split; [reflexivity|]. split; [done|]. by apply Hd.
Qed.

(** Every turn of the loop of [Append] is a [write] to the same file. *)
Lemma write_loop_tree f fd fuel : forall src o e o', fd_name o fd f -> write_loop fuel fd src o = Ret (e, o') ->
  calm slow stream_open o o' /\ same_but path_bytes f o o' /\ fd_name o' fd f.
Proof.
  induction fuel as [|fuel IH]; intros src o e o' Hn; cbn [write_loop]; (destruct (negb (zlen src =? 0)); [|intros E; injection E as <- <-; auto]); [done|].
  rewrite IO_call_step.
  destruct (sys_write o fd src) as [r o1] eqn:E1. destruct (write_tree_law o fd f src r o1 Hn E1) as (Hc & Hb & Hn1). cbn [fst snd].
  assert (forall src2, write_loop fuel fd src2 o1 = Ret (e, o') -> calm slow stream_open o o' /\ same_but path_bytes f o o' /\ fd_name o' fd f) as Hnext.
  { intros src2 E2. destruct (IH src2 o1 e o' Hn1 E2) as (Hc2 & Hb2 & Hn2). split; [eauto|]. split; [by eapply same_but_trans|done]. }
  destruct (r <? 0).
  - rewrite (IO_bind_step _ _ (errno o1) o1 o1) by done. destruct (errno o1 =? EINTR); [apply Hnext|]. intros E; injection E as <- <-. auto.
  - destruct (zlen src <? r); [done|]. apply Hnext.
Qed.

Lemma fd_name_bytes o fd f : fd_name o fd f -> path_bytes o f = Some (file_bytes o fd) /\ at_end o fd.
Proof. intros [Hp Ha]%fd_name_law. split; [by apply fd_path_law|done]. Qed.
Lemma Append_tree fuel p f d o c : (patience o < fuel)%nat -> fd_name o (pw_fd p) f -> path_bytes o f = Some c -> exists s p' o',
  Writable_Append (fuel + length d) p d o = Ret (s, p', o') /\ calm slow stream_open o o' /\ same_but path_bytes f o o' /\ pw_base p' = pw_base p /\
  pw_fd p' = pw_fd p /\ fd_name o' (pw_fd p) f /\ (ok s = true -> path_bytes o' f = Some (c ++ d)).
Proof.
  intros Hf Hn Hc. destruct (fd_name_bytes o _ f Hn) as [Hb Ha].
  destruct (Writable_Append_run (fuel + length d) p d o Ha ltac:(lia)) as (s & p' & o' & k & E & _ & _ & Hby & Hk & Hs).
  exists s, p', o'. split; [exact E|].
  assert (calm slow stream_open o o' /\ same_but path_bytes f o o' /\ fd_name o' (pw_fd p) f) as (Hcalm & Hsame & Hn').
  { unfold Writable_Append in E. destruct (write_loop (fuel + length d) (pw_fd p) d o) as [[e o1]| | |] eqn:El.
    - destruct (write_loop_tree f _ _ _ _ _ _ Hn El) as (Hc1 & Hs1 & Hn1). rewrite (IO_bind_step _ _ _ _ _ El) in E.
      by destruct e; injection E as _ _ <-.
    - unfold mbind, IO_bind in E. by rewrite El in E.
    - unfold mbind, IO_bind in E. by rewrite El in E.
    - unfold mbind, IO_bind in E. by rewrite El in E. }
  split; [done|]. split; [done|]. destruct (ok s) eqn:Es.
  - destruct Hs as [-> ->]. split; [done|]. split; [done|]. split; [done|]. intros _. destruct (fd_name_bytes o' _ f Hn') as [-> _].
    rewrite Hb in Hc. injection Hc as <-. rewrite Hby. by rewrite ztake_ge by lia.
  - destruct Hs as [-> _]. do 3 (split; [done|]). done.
Qed.

Lemma Sync_tree p o : exists s o', Writable_Sync p o = Ret (s, o') /\ kept o o'.
Proof.
  unfold Writable_Sync. rewrite IO_call_step. unfold status_of. destruct (_ <? 0); (eexists _, _; split; [reflexivity|]); eauto.
Qed.

Lemma delete_tree f o : exists s o', Posix_DeleteFile f o = Ret (s, o') /\ calm slow stream_open o o' /\ same_but path_bytes f o o' /\
  (forall fd g, fd_of o fd g -> fd_of o' fd g) /\ (ok s = true -> path_bytes o' f = None).
Proof.
  unfold Posix_DeleteFile. rewrite IO_call_step. destruct (sys_unlink o f) as [r o1] eqn:E. destruct (unlink_law o f r o1 E) as (Hc & Hb & Ho & Hr). cbn [fst snd].
  unfold status_zero. destruct (Z.eqb_spec r 0); simpl; (eexists _, o1; split; [reflexivity|]).
  - auto.
  - do 3 (split; [done|]). by rewrite IOError_of_not_ok.
Qed.

Lemma Close_tree p o : pw_base p = WritableFileBase_new -> exists o', Writable_delete p o = Ret (tt, o') /\ calm slow stream_open o o' /\ forall g, path_bytes o' g = path_bytes o g.
Proof.
  intros Hb. unfold Writable_delete. destruct (0 <=? pw_fd p); [|by exists o; auto].
  destruct (sys_close o (pw_fd p)) as [r o1] eqn:E. destruct (close_law _ _ _ _ E) as [Hc Hf].
  assert (exists s, Writable_Close p o = Ret (s, set_fd p (-1), o1)) as (s & Es).
  { unfold Writable_Close, GetPreallocationStatus. rewrite Hb. simpl. rewrite (IO_bind_step _ _ 0 o o) by done. rewrite IO_call_step, E. cbn [fst snd].
    unfold status_of. destruct (r <? 0); by eexists. }
  rewrite (IO_bind_step _ _ _ _ _ Es). by exists o1.
Qed.

(** ** Writing mapped files *)

(** What the calls on the file of [fd] do. *)
Record file_step (fd : Z) (f : Slice) (o o' : O) : Prop := {
  fs_calm : calm slow stream_open o o';
  fs_files : same_but path_bytes f o o';
  fs_of : fd_of o' fd f;
  fs_path : fd_path o fd f -> fd_path o' fd f;
}.
Lemma map_calls fd f o o' : rtc (map_call fd) o o' -> fd_of o fd f -> file_step fd f o o'.
Proof.
  induction 1 as [o|o o1 o2 Hcall _ IH]; intros Hof; [by constructor; auto|]. destruct (map_law o fd f o1 Hof Hcall) as (Hc & Hs & Hof1 & Hp).
  destruct (IH Hof1) as [Hc2 Hs2 Hof2 Hp2]. constructor; [eauto|by eapply same_but_trans|done|auto].
Qed.

#[local] Hint Constructors map_call : core.
Lemma Unmap_steps f : steps (map_call (mm_fd f)) (UnmapCurrentRegion f).
Proof. unfold UnmapCurrentRegion. walk; auto. Qed.
Lemma MapNew_steps f : steps (map_call (mm_fd f)) (MapNewRegion f).
Proof. unfold MapNewRegion. walk; auto. Qed.
Lemma Msync_steps f : steps (map_call (mm_fd f)) (Msync f).
Proof. unfold Msync, mm_TruncateToPageBoundary, status_of. walk; auto. Qed.
#[local] Hint Resolve Msync_steps : steps.
Lemma Mmap_Sync_steps f : steps (map_call (mm_fd f)) (Mmap_Sync f).
Proof. unfold Mmap_Sync. walk; auto. Qed.

(** A turn that maps a region, with the file that it leaves. *)
Lemma remap_steps f o data s f' o' : mmap_inv f o data -> zlen data < 2 ^ 62 -> dst_ f = limit_ f ->
  ('(s, f) ← UnmapCurrentRegion f; if negb (ok s) then mret (s, f) else MapNewRegion f) o = Ret (s, f', o') -> rtc (map_call (mm_fd f)) o o'.
Proof.
  intros Hi Hb Hd E. destruct (Unmap_spec f o data Hi Hb Hd) as (s1 & f1 & o1 & E1 & _ & Hfd & _). pose proof (Unmap_steps f o _ o1 E1) as Hr.
  rewrite (IO_bind_step _ _ _ _ _ E1) in E. destruct (negb (ok s1)); [by injection E as _ _ <-|]. etrans; [exact Hr|]. rewrite <- Hfd. by eapply MapNew_steps.
Qed.

Lemma Mmap_Append_steps fuel : forall src f o data r o', mmap_inv f o data -> zlen data + zlen src < 2 ^ 62 ->
  Mmap_Append fuel f src o = Ret (r, o') -> rtc (map_call (mm_fd f)) o o'.
Proof.
  induction fuel as [|fuel IH]; intros src f o data r o' Hi Hb E; cbn [Mmap_Append] in E; (destruct (Z.ltb_spec 0 (zlen src)) as [Hpos|]; [|by injection E as _ <-]); [done|].
  assert (base_ f <= dst_ f <= limit_ f) as Hbd by (destruct Hi as [_ _ _ _ _ _ _ _ []]; lia).
  replace (base_ f <=? dst_ f) with true in E by lia. replace (dst_ f <=? limit_ f) with true in E by lia.
  rewrite !(IO_bind_step _ _ tt o o) in E by done. pose proof (zlen_nonneg data).
  assert (forall f1 o1 d m, mmap_inv f1 o1 data -> mm_fd f1 = mm_fd f -> base_ f1 <> 0 -> dst_ f1 + zlen d <= limit_ f1 -> zlen d + zlen m <= zlen src ->
    Mmap_Append fuel (set_region f1 (map_size_ f1) (base_ f1) (limit_ f1) (dst_ f1 + zlen d) (last_sync_ f1) (file_offset_ f1)) m (mem_store o1 (dst_ f1) d) = Ret (r, o') ->
    rtc (map_call (mm_fd f)) o1 o') as Hnext.
  { intros f1 o1 d m Hi1 Hfd1 Hb1 Hd Hm E1. pose proof Hi1 as [_ _ _ _ _ _ _ _ Hr1]. destruct Hr1 as [(? & _)|(H1b & H1d & H1l & _ & _ & _ & Hmp & Hfl)]; [lia|].
    destruct (store_spec f1 o1 data d Hi1 Hb1 Hd) as [Hi2 _]. rewrite Hfd1 in Hmp, Hfl.
    pose proof (map_store (mm_fd f) o1 (base_ f1) (map_size_ f1) (file_offset_ f1) (dst_ f1 - base_ f1) d Hmp Hfl ltac:(lia) ltac:(lia)) as Hst.
    replace (base_ f1 + (dst_ f1 - base_ f1)) with (dst_ f1) in Hst by lia. eapply rtc_l; [exact Hst|]. rewrite <- Hfd1.
    apply (IH m (set_region f1 (map_size_ f1) (base_ f1) (limit_ f1) (dst_ f1 + zlen d) (last_sync_ f1) (file_offset_ f1)) _ (data ++ d) r o' Hi2); [|exact E1].
    rewrite zlen_app. lia. }
  destruct (Z.eqb_spec (limit_ f - dst_ f) 0) as [Hfull|Hroom].
  - destruct (remap_spec f o data Hi ltac:(lia) ltac:(lia)) as (s & f1 & o1 & E1 & Hi1 & Hfd & _ & Hok).
    pose proof (remap_steps f o data s f1 o1 Hi ltac:(lia) ltac:(lia) E1) as Hr. rewrite (IO_bind_step _ _ _ _ _ E1) in E.
    destruct (ok s); cbn [negb] in E; [|by injection E as _ <-]. destruct (Hok eq_refl) as [Hlt Hb1]. etrans; [exact Hr|].
    replace (zlen src <=? limit_ f - dst_ f) with false in E by lia. replace (limit_ f - dst_ f) with 0 in E by lia. rewrite ztake_0, zdrop_0 in E.
    rewrite (IO_bind_step _ _ tt o1 (mem_store o1 (dst_ f1) [])) in E by done.
    apply (Hnext f1 o1 [] src Hi1 Hfd Hb1); [rewrite zlen_nil; lia|rewrite zlen_nil; lia|exact E].
  - rewrite (IO_bind_step _ _ (OK, f) o o) in E by done. cbn [negb] in E. change (negb (ok OK)) with false in E. cbv iota in E.
    set (n := if zlen src <=? limit_ f - dst_ f then zlen src else limit_ f - dst_ f) in *. assert (0 < n <= zlen src) as Hn by (unfold n; case_match; lia).
    assert (zlen (ztake n src) = n) as Hzn by (rewrite zlen_ztake; lia).
    rewrite (IO_bind_step _ _ tt o (mem_store o (dst_ f) (ztake n src))) in E by done.
    assert (base_ f <> 0) as Hb1 by (destruct Hi as [_ _ _ _ _ _ _ _ []]; lia).
    apply (Hnext f o (ztake n src) (zdrop n src) Hi eq_refl Hb1); rewrite ?Hzn; [unfold n; case_match; lia|rewrite zlen_zdrop; lia|exact E].
Qed.

Lemma mapped_append m f d o c : mapped_writer m f o c -> zlen c + zlen d < 2 ^ 62 -> exists s m' o', Mmap_Append (2 * length d + 2) m d o = Ret (s, m', o') /\
  file_step (mm_fd m) f o o' /\ mm_fd m' = mm_fd m /\ (ok s = true -> mapped_writer m' f o' (c ++ d)).
Proof.
  intros (Hfd & Hp & Hcl & Hlen) Hb. destruct (Mmap_Append_clean (2 * length d + 2) d m o c Hcl Hb ltac:(lia)) as (s & m' & o' & k & E & _ & Hfd' & _ & Hok).
  exists s, m', o'. split; [exact E|].
  assert (file_step (mm_fd m) f o o') as Hs by (apply map_calls; [by eapply Mmap_Append_steps; [apply Hcl| |exact E]|by apply fd_path_law]).
  split; [done|]. split; [done|]. intros Es. unfold mapped_writer. rewrite Hfd', zlen_app. split; [done|]. split; [by apply Hs|]. by split; [apply Hok|].
Qed.

Lemma mapped_sync m f o c : mapped_writer m f o c -> exists s m' o', Mmap_Sync m o = Ret (s, m', o') /\ file_step (mm_fd m) f o o' /\
  mapped_writer m' f o' c.
Proof.
  intros (Hfd & Hp & [Hi Hc] & Hlen). destruct (Sync_run m o c sys_fdatasync ltac:(constructor) Hi) as (s & last & o' & E & Hi' & _ & Hb).
  exists s, (synced m last), o'. split; [exact E|].
  assert (file_step (mm_fd m) f o o') as Hs by (apply map_calls; [by eapply Mmap_Sync_steps|by apply fd_path_law]).
  split; [done|]. split; [done|]. split; [by apply Hs|]. split; [|done]. split; [done|]. intros Hb0. simpl. rewrite Hb. by apply Hc.
Qed.

(** The destructor returns in any case, and closes the descriptor at the end. *)
Lemma Mmap_Close_calls m o : exists r o1 o', Mmap_Close m o = Ret (r, o') /\ rtc (map_call (mm_fd m)) o o1 /\ (sys_close o1 (mm_fd m)).2 = o'.
Proof.
  assert (exists s m1 o1, UnmapCurrentRegion m o = Ret (s, m1, o1) /\ mm_fd m1 = mm_fd m) as (s & m1 & o1 & E1 & Hfd).
  { unfold UnmapCurrentRegion. destruct (negb (base_ m =? 0)); [|by exists OK, m, o]. rewrite IO_call_step. destruct (negb _); by eexists _, _, _. }
  pose proof (Unmap_steps m o _ o1 E1) as Hr1. unfold Mmap_Close. rewrite (IO_bind_step _ _ _ _ _ E1), Hfd.
  match goal with |- context[mbind _ ?t o1] => assert (exists s2 o2, t o1 = Ret (s2, o2) /\ rtc (map_call (mm_fd m)) o1 o2) as (s2 & o2 & E2 & Hr2) end.
  { destruct (negb (ok s)); [rewrite (IO_bind_step _ _ (errno o1) o1 o1) by done; by eexists _, o1|]. destruct (0 <? _); [|by exists s, o1].
    rewrite IO_call_step. unfold status_of. destruct (_ <? 0); (eexists _, _; split; [reflexivity|]); apply rtc_once; auto. }
  rewrite (IO_bind_step _ _ _ _ _ E2), IO_call_step. destruct (sys_close o2 (mm_fd m)) as [r o3] eqn:E3. cbn [fst snd].
  match goal with |- context[mbind _ ?t o3] => assert (exists s4, t o3 = Ret (s4, o3)) as (s4 & E4) end.
  { destruct (r <? 0); [destruct (ok s2)|]; by eexists. }
  rewrite (IO_bind_step _ _ _ _ _ E4). eexists _, o2, o3. split; [reflexivity|]. split; [by etrans|]. by rewrite E3.
Qed.

Lemma Mmap_delete_tree m f o : fd_of o (mm_fd m) f -> exists o', Mmap_delete m o = Ret (tt, o') /\ calm slow stream_open o o' /\ same_but path_bytes f o o' /\
  forall c, mapped_writer m f o c -> exists c', path_bytes o' f = Some c' /\ padded c' c /\ (healthy o -> c' = c).
Proof.
  intros Hof. unfold Mmap_delete. destruct (Z.leb_spec 0 (mm_fd m)) as [Hpos|Hneg].
  2: { exists o. split; [done|]. split; [done|]. split; [done|]. intros c (Hfd & _). lia. }
  destruct (Mmap_Close_calls m o) as (r & o1 & o' & E & Hr & Ec). rewrite (IO_bind_step _ _ _ _ _ E). exists o'. split; [done|].
  destruct (map_calls _ f _ _ Hr Hof) as [Hc1 Hs1 _ Hp1]. destruct (sys_close o1 (mm_fd m)) as [rc o2] eqn:Eclose. cbn [snd] in Ec. subst o2.
  destruct (close_law _ _ _ _ Eclose) as [Hc2 Hf2]. split; [eauto|]. split; [intros g Hg; by rewrite Hf2, Hs1|].
  intros c (_ & Hp & Hcl & Hlen). destruct (Mmap_Close_run m o c Hcl Hlen) as (s & m' & o3 & E3 & _ & Hh & Hpad & Hok). rewrite E in E3. injection E3 as _ ->.
  destruct (IoPosixTheorems.close_law _ _ _ _ Eclose) as [Hb _]. destruct (fd_path_law _ _ _ (Hp1 Hp)) as [Hpb _]. exists (file_bytes o3 (mm_fd m)).
  split; [by rewrite Hf2, Hpb, Hb|]. split; [done|]. intros Hx. apply Hok, Hh, Hx.
Qed.
(** ** Reading *)

Lemma fopen_loop_tree f fuel : forall o, (patience o < fuel)%nat -> exists s o', fopen_loop fuel f (str "r") o = Ret (s, o') /\
  calm slow stream_open o o' /\ (forall g, path_bytes o' g = path_bytes o g) /\ match s with Some s => stream_at o' s f 0 /\ ~ stream_open o s /\ stream_open o' s | None => True end.
Proof.
  induction fuel as [|fuel IH]; intros o Hf; [lia|]. cbn [fopen_loop]. rewrite IO_call_step.
  destruct (sys_fopen o f (str "r")) as [s o1] eqn:E. destruct (fopen_read_law o f s o1 E) as (Hc & Hb & Hs). cbn [fst snd].
  rewrite (IO_bind_step _ _ (errno o1) o1 o1) by done. destruct s as [s|]; [by exists (Some s), o1|].
  destruct (Z.eqb_spec (errno o1) EINTR) as [He|He]; [|by exists None, o1]. specialize (Hs He).
  destruct (IH o1 ltac:(lia)) as (s2 & o2 & E2 & Hc2 & Hb2 & Hs2). exists s2, o2. split; [exact E2|]. split; [eauto|]. split; [intros g; by rewrite Hb2|].
  destruct s2 as [s2|]; [|done]. destruct Hs2 as (Hat & Hnew & Hopen). split; [done|]. split; [|done]. intros Hold. by apply Hnew, Hc.
Qed.

Lemma NewSequential_tree fuel f o : (patience o < fuel)%nat -> exists s r o', Posix_NewSequentialFile fuel f EnvOptions_new o = Ret (s, r, o') /\
  calm slow stream_open o o' /\ (forall g, path_bytes o' g = path_bytes o g) /\
  match r with
  | Some w => s = OK /\ exists q, w = SeqPosix q /\ sq_use_os_buffer q = true /\ stream_at o' (sq_file q) f 0 /\
      ~ stream_open o (sq_file q) /\ stream_open o' (sq_file q)
  | None => ok s = false
  end.
Proof.
  intros Hf. unfold Posix_NewSequentialFile. destruct (fopen_loop_tree f fuel o Hf) as (s & o1 & E1 & Hc & Hb & Hs). rewrite (IO_bind_step _ _ _ _ _ E1).
  destruct s as [s|].
  2: { rewrite fail_errno_step. eexists _, None, o1. split; [reflexivity|]. split; [done|]. split; [done|]. apply IOError_of_not_ok. }
  change (opt_use_direct_reads EnvOptions_new && negb (opt_use_mmap_writes EnvOptions_new)) with false. cbv iota.
  rewrite (IO_bind_step _ _ (c_fileno o1 s) o1 o1) by done. destruct (cloexec_kept (c_fileno o1 s) (Some EnvOptions_new) o1) as (o2 & E2 & [Hc2 Hf2 _ _ Hs2]).
  rewrite (IO_bind_step _ _ _ _ _ E2). eexists _, _, o2. split; [reflexivity|]. split; [eauto|]. split; [intros g; by rewrite Hf2|].
  destruct Hs as (Hat & Hnew & Hopen). split; [done|]. eexists. split; [reflexivity|]. split; [done|]. split; [by apply Hs2|]. split; [done|by apply Hc2].
Qed.

Lemma zlen_zdrop_le (c : list byte) pos k : 0 <= pos -> 0 <= k -> zlen c <= pos + k -> zlen (zdrop pos c) <= k.
Proof.
  intros Hp Hk Hc. destruct (Z.le_gt_cases pos (zlen c)); [rewrite zlen_zdrop by lia; lia|]. rewrite zdrop_ge by lia. exact Hk.
Qed.

Lemma fread_loop_tree s f pos c n fuel : 0 < n -> 0 <= pos -> forall o, (patience o < fuel)%nat -> stream_at o s f pos -> path_bytes o f = Some c ->
  exists d o', fread_loop fuel s n o = Ret (d, o') /\ calm slow stream_open o o' /\ (forall g, path_bytes o' g = path_bytes o g) /\
    stream_at o' s f (pos + zlen d) /\ zlen d <= n /\ d = ztake (zlen d) (zdrop pos c) /\ (zlen d < n -> c_feof o' s = true -> zlen c <= pos + zlen d).
Proof.
  intros Hn Hpos. induction fuel as [|fuel IH]; intros o Hf Hs Hc; [lia|]. cbn [fread_loop]. rewrite IO_call_step.
  destruct (c_fread o s n) as [[r bytes] o1] eqn:E. destruct (fread_law o s f pos c n r bytes o1 Hs Hc Hpos Hn E) as (Hcalm & Hb & Hby & Hl & Hr & Hs1 & Heof & Herr).
  cbn [fst snd]. rewrite (IO_bind_step _ _ ((r =? 0) && c_ferror o1 s && (errno o1 =? EINTR)) o1 o1) by done.
  destruct ((r =? 0) && c_ferror o1 s && (errno o1 =? EINTR)) eqn:Ea.
  - apply andb_true_iff in Ea as [[Hr0 He]%andb_true_iff Hi]. assert (patience o1 < patience o)%nat by (apply Herr; [lia|done|lia]).
    destruct (IH o1) as (d & o2 & E2 & Hc2 & Hb2 & Hs2 & Hrest); [lia| |by rewrite Hb|].
    { replace pos with (pos + r) by lia. exact Hs1. }
    exists d, o2. split; [exact E2|]. split; [eauto|]. split; [|done]. intros g. by rewrite Hb2.
  - exists bytes, o1. rewrite Hl. split; [done|]. do 5 (split; [done|]). done.
Qed.

Lemma Read_tree fuel q f pos c n o : 0 < n -> 0 <= pos -> (patience o < fuel)%nat -> sq_use_os_buffer q = true -> stream_at o (sq_file q) f pos ->
  path_bytes o f = Some c -> exists s d o', Sequential_Read fuel q n o = Ret (s, d, o') /\ calm slow stream_open o o' /\ (forall g, path_bytes o' g = path_bytes o g) /\
    (ok s = true -> d = ztake n (zdrop pos c) /\ stream_at o' (sq_file q) f (pos + zlen d)).
Proof.
  intros Hn Hpos Hf Hq Hs Hc. unfold Sequential_Read. destruct (fread_loop_tree (sq_file q) f pos c n fuel Hn Hpos o Hf Hs Hc) as (d & o1 & E1 & Hc1 & Hb1 & Hs1 & Hl & Hd & Heof).
  rewrite (IO_bind_step _ _ _ _ _ E1).
  set (m := if zlen d <? n then _ else _).
  assert (exists s o2, m o1 = Ret (s, o2) /\ kept o1 o2 /\ (ok s = true -> d = ztake n (zdrop pos c))) as (s & o2 & E2 & Hk & Hok).
  { subst m. destruct (Z.ltb_spec (zlen d) n) as [Hlt|Hge].
    - rewrite (IO_bind_step _ _ (c_feof o1 (sq_file q)) o1 o1) by done. destruct (c_feof o1 (sq_file q)) eqn:Ef.
      + rewrite IO_call_step. cbn [fst snd]. eexists _, _. split; [reflexivity|]. split; [eauto|]. intros _. specialize (Heof Hlt eq_refl).
        pose proof (zlen_nonneg d). rewrite Hd, !ztake_ge; [done| |]; apply zlen_zdrop_le; lia.
      + rewrite (IO_bind_step _ _ (errno o1) o1 o1) by done. eexists _, o1. split; [reflexivity|]. split; [auto|]. by rewrite IOError_of_not_ok.
    - exists OK, o1. split; [done|]. split; [auto|]. intros _. assert (zlen d = n) as Hz by lia. rewrite <- Hz. exact Hd. }
  clearbody m. rewrite (IO_bind_step _ _ _ _ _ E2), Hq. simpl negb. cbv iota. rewrite (IO_bind_step _ _ 0 o2 o2) by done.
  destruct Hk as [Hc2 Hf2 _ _ Hs2]. exists s, d, o2. split; [done|]. split; [eauto|]. split; [intros g; by rewrite Hf2|]. auto.
Qed.
End system.

(** ** The environment *)

Section world.
Context `{Host} {O : Type} `{PosixTree O} `{!Printf} (fuel : nat) (buffer : Z).
#[local] Existing Instance World_env.
#[local] Instance the_env : Env (World O) := World_env fuel buffer.

#[local] Hint Resolve calm_refl same_but_refl : core.

Lemma on_os_run {A} (m : IO (O := O) A) (w : World O) a o : m (w_os w) = Ret (a, o) -> on_os m w = Ret (a, w_set_os w o).
Proof. intros E. unfold on_os. by rewrite E. Qed.

Definition world_file (w : World O) (f : Slice) : option (list byte) := path_bytes (w_os w) f.

(** *** The invariant *)

(** The streams of the objects on the heap, by their handles. *)
Definition heap_stream (readers : gmap nat OpenSequential) (loggers : gmap nat PosixLogger) (k : nat + nat) : option Z :=
  match k with
  | inl h => match readers !! h with Some (SeqPosix q) => Some (sq_file q) | _ => None end
  | inr h => pl_file <$> loggers !! h
  end.
(** They are open, and no two objects have the same. *)
Definition streams_ok (o : O) (m : nat + nat -> option Z) : Prop := forall k s, m k = Some s ->
  stream_open o s /\ forall k', m k' = Some s -> k' = k.

Lemma streams_sub o o' m m' : streams_ok o m -> (forall k s, m' k = Some s -> m k = Some s /\ (stream_open o s -> stream_open o' s)) -> streams_ok o' m'.
Proof.
  intros Hm Hs k s Hk. destruct (Hs k s Hk) as [Hk0 Ho]. destruct (Hm k s Hk0) as [Hop Hu]. split; [auto|]. intros k' Hk'. apply Hu. by apply Hs.
Qed.
Lemma streams_new o o' m m' k s : streams_ok o m -> calm slow stream_open o o' -> ~ stream_open o s -> stream_open o' s -> m' k = Some s ->
  (forall k', k' <> k -> m' k' = m k') -> streams_ok o' m'.
Proof.
  intros Hm (_ & _ & Hc) Hn Ho Hk Hoth k0 s0 Hk0.
  assert (forall k', m' k' = Some s -> k' = k) as Hu.
  { intros k' Hk'. destruct (decide (k' = k)) as [|Hne]; [done|]. rewrite Hoth in Hk' by done. by destruct Hn, (Hm k' s Hk'). }
  destruct (decide (k0 = k)) as [->|Hne]; [rewrite Hk in Hk0; injection Hk0 as <-; by split|].
  pose proof Hk0 as Hk1. rewrite Hoth in Hk1 by done. destruct (Hm k0 s0 Hk1) as [Hop Hu0]. split; [auto|]. intros k' Hk'.
  destruct (decide (k' = k)) as [->|Hne']; [|apply Hu0; by rewrite <- Hoth]. rewrite Hk in Hk'. injection Hk' as <-. done.
Qed.

(** Signals are rarer than the fuel, the size of a page is a power of two (the system's or a
    multiple of it), and the streams are in
    order. *)
Record world_ok (w : World O) : Prop := {
  ok_patience : (patience (w_os w) < fuel)%nat;
  ok_page : page_ok (w_env w);
  ok_streams : streams_ok (w_os w) (heap_stream (w_readers w) (w_loggers w));
}.
(** A file that is mapped is cut to its size when it is closed, which a failing system may
    prevent. So the system is healthy, or no files are mapped. *)
Definition not_mapped (f : OpenWritable) : Prop := forall m, f <> WriteMmap m.
Definition world_trims (w : World O) : Prop :=
  healthy (w_os w) \/ (slow (w_os w) /\ mmap_off (w_env w) /\ map_Forall (fun _ => not_mapped) (w_writers w)).
(** What a file that is open for writing may change, and what it has been given. *)
Definition writer_opens (x : OpenWritable) (f : Slice) (o : O) : Prop :=
  (exists p, x = WritePosix p /\ pw_base p = WritableFileBase_new) \/ (exists m, x = WriteMmap m /\ fd_of o (mm_fd m) f).
Definition writer_writes (x : OpenWritable) (f : Slice) (c : list byte) (o : O) : Prop :=
  new_plain x f o /\ path_bytes o f = Some c \/ exists m, x = WriteMmap m /\ mapped_writer m f o c.
Definition world_opens (w : World O) (h : nat) (f : Slice) : Prop := exists x, w_writers w !! h = Some x /\ writer_opens x f (w_os w).
Definition world_writes (w : World O) (h : nat) (f : Slice) (c : list byte) : Prop := exists x, w_writers w !! h = Some x /\ writer_writes x f c (w_os w).
Definition world_reads (w : World O) (h : nat) (f : Slice) (pos : Z) : Prop := exists q, w_readers w !! h = Some (SeqPosix q) /\
  sq_use_os_buffer q = true /\ stream_at (w_os w) (sq_file q) f pos.

(** What keeps it: a calm step of the system with new writers, or with other streams. *)
Lemma ok_writers_step w o v m n : world_ok w -> calm slow stream_open (w_os w) o -> env_page_size_ v = env_page_size_ (w_env w) ->
  world_ok (mkWorld o v m (w_readers w) (w_loggers w) n).
Proof. intros [? Hpg Hst] (_ & Hp & Ho) Hv. constructor; simpl; [lia|unfold page_ok; by rewrite Hv|]. apply streams_sub with (1 := Hst). auto. Qed.
Lemma ok_streams_step w o r l n : world_ok w -> calm slow (fun _ _ => False) (w_os w) o -> streams_ok o (heap_stream r l) ->
  world_ok (mkWorld o (w_env w) (w_writers w) r l n).
Proof. intros [? ? _] (_ & Hp & _) Hst. constructor; simpl; [lia|done|done]. Qed.
Lemma ok_os w o : world_ok w -> calm slow stream_open (w_os w) o -> world_ok (w_set_os w o).
Proof. intros Hw Hc. by apply (ok_writers_step w). Qed.
Lemma trims_step w o v m r l n : calm slow stream_open (w_os w) o ->
  (slow (w_os w) -> mmap_off (w_env w) -> map_Forall (fun _ => not_mapped) (w_writers w) -> mmap_off v /\ map_Forall (fun _ => not_mapped) m) ->
  world_trims w -> world_trims (mkWorld o v m r l n).
Proof. intros ((Hs & Hh) & _) Hx [Ht|(Hs0 & Hv & Hm)]; [left; by apply Hh|right]. destruct (Hx Hs0 Hv Hm). split; [by apply Hs|done]. Qed.
Lemma calm_weak (open : O -> Z -> Prop) o o' : calm slow open o o' -> calm slow (fun _ _ => False) o o'.
Proof. by intros (? & ? & _). Qed.

(** A method that only uses the system. *)
Lemma os_method {A} (m : IO (O := O) A) (w : World O) a o : world_ok w -> m (w_os w) = Ret (a, o) -> calm slow stream_open (w_os w) o ->
  on_os m w = Ret (a, w_set_os w o) /\ world_ok (w_set_os w o).
Proof. intros Hw E Hc. split; [by apply on_os_run|by apply ok_os]. Qed.

(** A method of a file that is open for writing, and of one for reading. *)
Lemma writer_method {A} (m : OpenWritable -> IO (O := O) (A * OpenWritable)) w h f a f' o : w_writers w !! h = Some f ->
  m f (w_os w) = Ret (a, f', o) -> with_writer h m w = Ret (a, w_set_writers (w_set_os w o) (<[h := f']> (w_writers w))).
Proof.
  intros Hh E. unfold with_writer. rewrite (IO_bind_step _ _ w w w) by done. rewrite Hh.
  rewrite (IO_bind_step _ _ _ _ _ (on_os_run _ _ _ _ E)). reflexivity.
Qed.
Lemma reader_method {A} (m : OpenSequential -> IO (O := O) (A * OpenSequential)) w h f a f' o : w_readers w !! h = Some f ->
  m f (w_os w) = Ret (a, f', o) -> with_reader h m w = Ret (a, w_set_readers (w_set_os w o) (<[h := f']> (w_readers w))).
Proof.
  intros Hh E. unfold with_reader. rewrite (IO_bind_step _ _ w w w) by done. rewrite Hh.
  rewrite (IO_bind_step _ _ _ _ _ (on_os_run _ _ _ _ E)). reflexivity.
Qed.

(** *** The laws *)

Lemma writes_opens_world w h f c : world_writes w h f c -> world_opens w h f.
Proof.
  intros (x & Hx & Hw). exists x. split; [done|]. destruct Hw as [[(p & -> & Hp & _) _]|(m & -> & _ & Hp & _)]; [left; by exists p|right].
  exists m. split; [done|]. by apply fd_path_law.
Qed.

Lemma world_create f w : world_ok w -> exists s r w', world_NewWritableFile fuel f EnvOptions_new w = Ret (s, r, w') /\ world_ok w' /\
  (world_trims w -> world_trims w') /\ same_but world_file f w w' /\ if ok s then exists h, r = Some h /\ world_writes w' h f [] else r = None.
Proof.
  intros Hw. pose proof Hw as [Hp Hpg Hst].
  destruct (NewWritable_tree fuel (w_env w) f (w_os w) Hp Hpg) as (s & r & v' & o' & E & Hc & Hb & Hv & Hslow & Hr).
  unfold world_NewWritableFile. rewrite (IO_bind_step _ _ w w w) by done.
  rewrite (IO_bind_step _ _ _ _ _ (on_os_run _ _ _ _ E)). cbv beta iota. rewrite (IO_bind_step _ _ tt (w_set_os w o') (w_set_env (w_set_os w o') v')) by done.
  destruct r as [wf|]; simpl opened.
  - destruct Hr as (-> & Hf & Hr). eexists OK, _, _. split; [reflexivity|]. split; [by apply (ok_writers_step w)|]. split; [|split; [exact Hb|]].
    + apply trims_step; [done|]. intros Hs Hoff Hall. destruct (Hslow Hs Hoff) as [Hv' Hm]. split; [done|]. apply map_Forall_insert_2; [|done].
      intros m ->. by destruct (Hm m).
    + eexists. split; [reflexivity|]. exists wf. split; [apply lookup_insert_eq|]. destruct Hr as [Hr|Hr]; [by left|by right].
  - eexists s, None, _. split; [reflexivity|]. split; [by apply (ok_writers_step w)|]. split; [|split; [exact Hb|by rewrite Hr]].
    apply trims_step; [done|]. intros Hs Hoff Hall. by destruct (Hslow Hs Hoff).
Qed.

(** A method of an open file that leaves the other objects alone. *)
Lemma world_writer {A} (m : OpenWritable -> IO (O := O) (A * OpenWritable)) w h f x a x' o' (Q : A -> Prop) : world_ok w -> w_writers w !! h = Some x ->
  m x (w_os w) = Ret (a, x', o') -> calm slow stream_open (w_os w) o' -> same_but path_bytes f (w_os w) o' -> (not_mapped x -> not_mapped x') ->
  let w' := w_set_writers (w_set_os w o') (<[h := x']> (w_writers w)) in
  with_writer h m w = Ret (a, w') /\ world_ok w' /\ (world_trims w -> world_trims w') /\ same_but world_file f w w' /\ w_writers w' !! h = Some x'.
Proof.
  intros Hw Hx E Hc Hb Hm w'. split; [by apply (writer_method m w h x)|]. split; [by apply (ok_writers_step w)|]. split; [|split; [exact Hb|apply lookup_insert_eq]].
  apply trims_step; [done|]. intros Hs Hoff Hall. split; [done|]. apply map_Forall_insert_2; [|done]. apply Hm, (Hall h x Hx).
Qed.

Lemma world_append h f d c w : world_ok w -> world_writes w h f c -> zlen c + zlen d < 2 ^ 62 -> exists s w', w_Append h d w = Ret (s, w') /\ world_ok w' /\
  (world_trims w -> world_trims w') /\ same_but world_file f w w' /\ world_opens w' h f /\ (ok s = true -> world_writes w' h f (c ++ d)).
Proof.
  intros Hw (x & Hh & Hx) Hb. pose proof Hw as [Hp _ _].
  destruct Hx as [[(p & -> & Hpb & Hn) Hc]|(m & -> & Hm)].
  - destruct (Append_tree fuel p f d (w_os w) c Hp Hn Hc) as (s & p' & o' & E & Hcalm & Hsame & Hpb' & Hfd & Hn' & Hok).
    assert (open_Append fuel buffer (WritePosix p) d (w_os w) = Ret (s, WritePosix p', o')) as Eo by (simpl; by rewrite (IO_bind_step _ _ (s, p') _ o') by exact E).
    destruct (world_writer (fun x => open_Append fuel buffer x d) w h f (WritePosix p) s (WritePosix p') o' (fun _ => True) Hw Hh Eo Hcalm Hsame) as (Ew & Hw' & Ht & Hs & Hl); [done|].
    eexists s, _. split; [exact Ew|]. split; [done|]. split; [done|]. split; [done|]. rewrite Hpb in Hpb'. split; [exists (WritePosix p'); split; [done|]; left; by exists p'|].
    intros Es. exists (WritePosix p'). split; [done|]. left. split; [exists p'; rewrite Hfd; by split|by apply Hok].
  - destruct (mapped_append m f d (w_os w) c Hm Hb) as (s & m' & o' & E & [Hcalm Hsame Hof _] & Hfd & Hok).
    assert (open_Append fuel buffer (WriteMmap m) d (w_os w) = Ret (s, WriteMmap m', o')) as Eo by (simpl open_Append; by rewrite (IO_bind_step _ _ (s, m') _ o') by exact E).
    destruct (world_writer (fun x => open_Append fuel buffer x d) w h f (WriteMmap m) s (WriteMmap m') o' (fun _ => True) Hw Hh Eo Hcalm Hsame) as (Ew & Hw' & Ht & Hs & Hl).
    { intros Hx. by destruct (Hx m). }
    eexists s, _. split; [exact Ew|]. split; [done|]. split; [done|]. split; [done|]. split; [exists (WriteMmap m'); split; [done|]; right; exists m'; by rewrite Hfd|].
    intros Es. exists (WriteMmap m'). split; [done|]. right. exists m'. split; [done|by apply Hok].
Qed.

Lemma world_sync h f c w : world_ok w -> world_writes w h f c -> exists s w', w_Sync h w = Ret (s, w') /\ world_ok w' /\
  (world_trims w -> world_trims w') /\ same_but world_file f w w' /\ world_writes w' h f c.
Proof.
  intros Hw (x & Hh & Hx). destruct Hx as [[(p & -> & Hpb & Hn) Hc]|(m & -> & Hm)].
  - destruct (Sync_tree p (w_os w)) as (s & o' & E & [Hcalm Hf _ Hd _]).
    assert (open_Sync (WritePosix p) (w_os w) = Ret (s, WritePosix p, o')) as Eo by (simpl; by rewrite (IO_bind_step _ _ s _ o') by exact E).
    destruct (world_writer open_Sync w h f (WritePosix p) s (WritePosix p) o' (fun _ => True) Hw Hh Eo Hcalm) as (Ew & Hw' & Ht & Hs & Hl); [by intros g _|done|].
    eexists s, _. split; [exact Ew|]. split; [done|]. split; [done|]. split; [done|]. exists (WritePosix p). split; [done|]. left.
    split; [exists p; split; [done|]; split; [done|by apply Hd]|]. simpl. by rewrite Hf.
  - destruct (mapped_sync m f (w_os w) c Hm) as (s & m' & o' & E & [Hcalm Hsame _ _] & Hm').
    assert (open_Sync (WriteMmap m) (w_os w) = Ret (s, WriteMmap m', o')) as Eo by (simpl open_Sync; by rewrite (IO_bind_step _ _ (s, m') _ o') by exact E).
    destruct (world_writer open_Sync w h f (WriteMmap m) s (WriteMmap m') o' (fun _ => True) Hw Hh Eo Hcalm Hsame) as (Ew & Hw' & Ht & Hs & Hl).
    { intros Hx. by destruct (Hx m). }
    eexists s, _. split; [exact Ew|]. split; [done|]. split; [done|]. split; [done|]. exists (WriteMmap m'). split; [done|]. right. by exists m'.
Qed.

Lemma world_drop h f w : world_ok w -> world_opens w h f -> exists w', w_delete h w = Ret (tt, w') /\ world_ok w' /\ same_but world_file f w w' /\
  forall c, world_writes w h f c -> exists c', world_file w' f = Some c' /\ padded c' c /\ (world_trims w -> c' = c).
Proof.
  intros Hw (x & Hh & Hx). simpl w_delete. rewrite (IO_bind_step _ _ w w w) by done. rewrite Hh.
  set (w1 := w_set_writers w (delete h (w_writers w))). rewrite (IO_bind_step _ _ tt w w1) by done.
  assert (exists o', open_delete x (w_os w) = Ret (tt, o') /\ calm slow stream_open (w_os w) o' /\ same_but path_bytes f (w_os w) o' /\
    forall c, writer_writes x f c (w_os w) -> exists c', path_bytes o' f = Some c' /\ padded c' c /\ ((healthy (w_os w) \/ not_mapped x) -> c' = c)) as (o' & E & Hc & Hs & Hcont).
  { destruct Hx as [(p & -> & Hpb)|(m & -> & Hof)].
    - destruct (Close_tree p (w_os w) Hpb) as (o' & E & Hc & Hf). exists o'. split; [exact E|]. split; [done|]. split; [by intros g _|].
      intros c [[_ Hpath]|(m & Hm & _)]; [|done]. exists c. rewrite Hf. split; [done|]. split; [apply padded_refl|done].
    - destruct (Mmap_delete_tree m f (w_os w) Hof) as (o' & E & Hc & Hs & Hm). exists o'. split; [exact E|]. do 2 (split; [done|]).
      intros c [[(p & Hp & _) _]|(m2 & Hm2 & Hm3)]; [done|]. injection Hm2 as <-. destruct (Hm c Hm3) as (c' & Hc' & Hpad & Hh'). exists c'. split; [done|].
      split; [done|]. intros [Hx|Hx]; [by apply Hh'|by destruct (Hx m)]. }
  exists (w_set_os w1 o'). split; [by apply on_os_run|]. split; [by apply (ok_writers_step w)|]. split; [exact Hs|].
  intros c (x2 & Hx2 & Hw2). rewrite Hh in Hx2. injection Hx2 as <-. destruct (Hcont c Hw2) as (c' & Hc' & Hpad & Heq). exists c'. split; [done|]. split; [done|].
  intros [Ht|(_ & _ & Hall)]; [auto|]. apply Heq. right. by apply (Hall h x).
Qed.

Lemma world_open f w : world_ok w -> exists s r w', NewSequentialFile f EnvOptions_new w = Ret (s, r, w') /\ world_ok w' /\
  (forall g, world_file w' g = world_file w g) /\ (ok s = true -> exists h, r = Some h /\ world_reads w' h f 0).
Proof.
  intros Hw. pose proof Hw as [Hp Hpg Hst]. destruct (NewSequential_tree fuel f (w_os w) Hp) as (s & r & o' & E & Hc & Hf & Hr).
  simpl NewSequentialFile. rewrite (IO_bind_step _ _ _ _ _ (on_os_run _ _ _ _ E)). destruct r as [q|]; simpl opened.
  - destruct Hr as (-> & q' & -> & Hq & Hat & Hnew & Hopen). eexists OK, _, _. split; [reflexivity|]. split.
    + apply (ok_streams_step w); [done|by eapply calm_weak|]. apply streams_new with (1 := Hst) (2 := Hc) (k := inl (w_next w)) (3 := Hnew); [done| |].
      * simpl. by rewrite lookup_insert_eq.
      * intros [h|h] Hne; [|done]. simpl. rewrite lookup_insert_ne; [done|]. intros Eh. apply Hne. by rewrite <- Eh.
    + split; [exact Hf|]. intros _. eexists. split; [reflexivity|]. exists q'. split; [apply lookup_insert_eq|]. by split.
  - eexists s, None, _. split; [reflexivity|]. split; [by apply ok_os|]. split; [exact Hf|]. congruence.
Qed.

Lemma world_read h f pos c n w : world_ok w -> world_reads w h f pos -> world_file w f = Some c -> 0 < n -> 0 <= pos ->
  exists s d w', s_Read h n w = Ret (s, d, w') /\ world_ok w' /\ (forall g, world_file w' g = world_file w g) /\
    (ok s = true -> d = ztake n (zdrop pos c) /\ world_reads w' h f (pos + zlen d)).
Proof.
  intros Hw (q & Hh & Hq & Hat) Hc Hn Hpos. pose proof Hw as [Hp Hpg Hst].
  destruct (Read_tree fuel q f pos c n (w_os w) Hn Hpos Hp Hq Hat Hc) as (s & d & o' & E & Hcalm & Hf & Hok).
  assert (open_Read fuel buffer (SeqPosix q) n (w_os w) = Ret (s, d, SeqPosix q, o')) as Eo by (simpl; by rewrite (IO_bind_step _ _ (s, d) _ o') by exact E).
  eexists s, d, _. split; [by apply (reader_method (fun f => open_Read fuel buffer f n) w h (SeqPosix q))|]. split.
  - apply (ok_streams_step w); [done|by eapply calm_weak|]. apply streams_sub with (1 := Hst). intros k s0 Hk. split; [|apply Hcalm].
    destruct k as [h'|h']; [|done]. simpl in *. destruct (decide (h' = h)) as [->|Hne]; [rewrite lookup_insert_eq in Hk; by rewrite Hh|by rewrite lookup_insert_ne in Hk].
  - split; [exact Hf|]. intros Hs2. destruct (Hok Hs2) as [Hd Hat2]. split; [exact Hd|]. exists q. split; [apply lookup_insert_eq|]. by split.
Qed.

Lemma world_close h w : world_ok w -> exists w', s_delete h w = Ret (tt, w') /\ world_ok w' /\ forall g, world_file w' g = world_file w g.
Proof.
  intros Hw. pose proof Hw as [Hp Hpg Hst]. simpl s_delete. rewrite (IO_bind_step _ _ w w w) by done.
  destruct (_ !! _) as [rf|] eqn:Eh; [|exists w; split; [reflexivity|]; by split].
  set (w1 := w_set_readers w (delete h (w_readers w))). rewrite (IO_bind_step _ _ tt w w1) by done.
  assert (forall k s, heap_stream (w_readers w1) (w_loggers w1) k = Some s -> k <> inl h /\ heap_stream (w_readers w) (w_loggers w) k = Some s) as Hsub.
  { intros [h'|h'] s Hk; [|by split]. simpl in *. destruct (decide (h' = h)) as [->|Hne]; [by rewrite lookup_delete_eq in Hk|].
    rewrite lookup_delete_ne in Hk by done. split; [congruence|done]. }
  destruct rf as [q|q]; simpl open_close.
  - destruct (fclose_law (w_os w) (sq_file q)) as [Hc Hf]. eexists. split; [by apply on_os_run|]. split; [|exact Hf].
    apply (ok_streams_step w); [done|by eapply calm_weak|]. apply streams_sub with (1 := Hst). intros k s Hk. destruct (Hsub k s Hk) as [Hne Hk0]. split; [done|].
    intros Ho. apply Hc. split; [|done]. intros ->. apply Hne. symmetry. apply (Hst k (sq_file q) Hk0). simpl. by rewrite Eh.
  - exists w1. split; [done|]. split; [|done]. apply (ok_streams_step w); [done|done|]. apply streams_sub with (1 := Hst). intros k s Hk. by destruct (Hsub k s Hk).
Qed.

Lemma world_delete f w : world_ok w -> exists s w', DeleteFile f w = Ret (s, w') /\ world_ok w' /\ same_but world_file f w w' /\
  (forall h g, world_opens w h g -> world_opens w' h g) /\ (ok s = true -> world_file w' f = None).
Proof.
  intros Hw. destruct (delete_tree f (w_os w)) as (s & o' & E & Hc & Hb & Hof & Hok). destruct (os_method _ w _ _ Hw E Hc) as [E2 Hw2]. exists s, (w_set_os w o').
  split; [exact E2|]. split; [done|]. split; [exact Hb|]. split; [|exact Hok]. intros h g (x & Hx & [Hp|(m & Hm & Hmf)]); exists x; (split; [done|]); [by left|].
  right. exists m. split; [done|]. by apply Hof.
Qed.

#[export] Instance World_files : EnvFiles (World O).
Proof using All.
  exact {| file_of := world_file; env_ok := world_ok; trims := world_trims; opens := world_opens; writes := world_writes; reads := world_reads;
    writes_opens := writes_opens_world; new_writable_law := world_create; append_law := world_append; sync_law := world_sync; delete_law := world_delete;
    drop_law := world_drop; new_sequential_law := world_open; read_law := world_read; s_close_law := world_close |}.
Defined.
End world.
