(* ===== verification/PosixWorldLogs.v ===== *)
(** * PosixWorldLogs: the loggers of [PosixEnv] keep the promises of loggers

    What the calls of the system promise about the streams that write named files, and from that
    the laws of LogFiles for the environment of PosixWorld, so that what was shown of
    [AutoRollLogger] holds over [PosixLogger] and [PosixEnv]. *)

From Stdlib Require Import Strings.Byte Strings.String.
From stdpp Require Import list gmap relations.
From S2P Require Import Prelude.
From S2P Require Import Slice.
From S2P Require Import Coding.
From S2P Require Import Status.
From S2P Require Import FileApi.
From S2P Require Import IoPosix.
From S2P Require Import IoPosixTheorems.
From S2P Require Import Env.
From S2P Require Import EnvTheorems.
From S2P Require Import AutoRoll.
From S2P Require Import AutoRollTheorems.
From S2P Require Import EnvPosix.
From S2P Require Import EnvPosixTheorems.
From S2P Require Import PosixLogger.
From S2P Require Import PosixLoggerTheorems.
From S2P Require Import PosixWorld.
From S2P Require Import PosixWorldTheorems.

(** ** What the system promises *)

(** [log_name o s f] says that the stream [s] is the last that was opened to write the file that
    is called [f] now. [renames_work o] says that [rename] does not fail on files that are there.
    [access] fails only for names that no file has. *)
Class NamedLogs (O : Type) `{PosixTree O} `{!LogStreams O} := {
  log_name : O -> Z -> Slice -> Prop;
  renames_work : O -> Prop;
  log_name_law : forall o s f, log_name o s f -> writable o s /\ path_bytes o f = Some (stream_bytes o s);
  log_tree_law : forall o o', tree_call o o' -> (forall s f, log_name o s f -> log_name o' s f) /\ (renames_work o -> renames_work o');
  log_write_law : forall o s f d, log_name o s f -> let o' := (c_fwrite o s d).2 in
    calm slow stream_open o o' /\ same_but path_bytes f o o' /\ forall s' g, log_name o s' g -> log_name o' s' g;
  fopen_write_law : forall o f s o', sys_fopen o f (str "w") = (s, o') -> calm slow stream_open o o' /\ same_but path_bytes f o o' /\
    match s with Some s => ~ stream_open o s /\ stream_open o' s /\ log_name o' s f /\ path_bytes o' f = Some [] | None => True end;
  access_law : forall o f r o', sys_access o f = (r, o') -> if r =? 0 then path_bytes o f <> None else path_bytes o f = None /\ errno o' = ENOENT;
  rename_call_law : forall o f g c r o', path_bytes o f = Some c -> f <> g -> sys_rename o f g = (r, o') -> calm slow stream_open o o' /\
    (renames_work o -> r = 0) /\
    (r = 0 -> path_bytes o' g = Some c /\ path_bytes o' f = None /\ forall h, h <> f -> h <> g -> path_bytes o' h = path_bytes o h);
}.

(** The calls that a logger makes with the stream [s]. *)
Inductive log_step {O} `{PosixPaths O} (s : Z) (o : O) : O -> Prop :=
| log_look o' : tree_call o o' -> log_step s o o'
| log_put d : log_step s o (c_fwrite o s d).2.

Section logs.
Context `{Host} {O : Type} `{NamedLogs O} `{!Printf}.

#[local] Hint Constructors tree_call log_step : core.
#[local] Hint Resolve calm_refl same_but_refl calm_trans same_but_trans : core.

Lemma pl_Flush_steps l : steps (log_step (pl_file l)) (pl_Flush l).
Proof. unfold pl_Flush, Posix_NowMicros. walk; auto. Qed.

Lemma write_entry_steps l limit base tv : steps (log_step (pl_file l)) (write_entry l limit base tv).
Proof. unfold write_entry. walk; auto; by apply (pl_Flush_steps (pl_written _ _)). Qed.

#[local] Hint Resolve write_entry_steps : steps.

Lemma pl_Logv_steps l format ap : steps (log_step (pl_file l)) (pl_Logv l format ap).
Proof.
  apply (steps_local _ c_gettid (fun tid => '(p, base, tv) ← print_entry 500 tid format ap;
    if p <? 500 then write_entry l 500 base tv else '(p, base, tv) ← print_entry 65536 tid format ap; write_entry l 65536 base tv)).
  intros tid. unfold print_entry. walk; auto.
Qed.

(** What such a program leaves alone. *)
Record logs_kept (f : Slice) (o o' : O) : Prop := {
  lk_calm : calm slow stream_open o o';
  lk_files : same_but path_bytes f o o';
  lk_names : forall s g, log_name o s g -> log_name o' s g;
}.

Lemma log_steps_kept s f o o' : rtc (log_step s) o o' -> log_name o s f -> logs_kept f o o'.
Proof.
  induction 1 as [o|o o1 o2 Hstep _ IH]; intros Hn; [constructor; auto|].
  assert (logs_kept f o o1) as [Hc1 Hf1 Hn1].
  { destruct Hstep as [o1 Ht|d]; [|by destruct (log_write_law o s f d Hn) as (? & ? & ?)].
    destruct (tree_law o o1 Ht) as (Hc & Hf & _), (log_tree_law o o1 Ht) as [Hl _]. constructor; [done| |done]. intros g _. apply Hf. }
  destruct (IH (Hn1 _ _ Hn)) as [Hc2 Hf2 Hn2]. constructor; [by eapply calm_trans|by eapply same_but_trans|auto].
Qed.

(** What calls that only look leave alone. *)
Record names_kept (o o' : O) : Prop := {
  nk_calm : calm slow stream_open o o';
  nk_files : forall g, path_bytes o' g = path_bytes o g;
  nk_names : forall s g, log_name o s g -> log_name o' s g;
  nk_renames : renames_work o -> renames_work o';
}.
Lemma tree_kept o o' : rtc tree_call o o' -> names_kept o o'.
Proof.
  induction 1 as [o|o o1 o2 Ht _ [Hc2 Hf2 Hn2 Hr2]]; [constructor; auto|].
  destruct (tree_law o o1 Ht) as (Hc & Hf & _), (log_tree_law o o1 Ht) as [Hl Hr]. constructor; [by eapply calm_trans| |auto|auto]. intros g. by rewrite Hf2.
Qed.

(** ** The methods of [PosixEnv] that a rolling log uses *)

Lemma NowMicros_tree o : exists now o', Posix_NowMicros o = Ret (now, o') /\ 0 <= now < 2 ^ 64 /\ names_kept o o'.
Proof.
  unfold Posix_NowMicros. rewrite IO_call_step. pose proof (tree_time o) as Ht. destruct (sys_gettimeofday o) as [[sec usec] o1]. cbn [fst snd] in *.
  eexists _, o1. split; [reflexivity|]. split; [apply u64_range|]. by apply tree_kept, rtc_once.
Qed.

Lemma FileExists_tree f o : exists s o', Posix_FileExists f o = Ret (s, o') /\ (ok s = true <-> path_bytes o f <> None) /\ names_kept o o'.
Proof.
  unfold Posix_FileExists. rewrite IO_call_step. pose proof (tree_access o f) as Ht. destruct (sys_access o f) as [r o1] eqn:E. cbn [fst snd] in *.
  pose proof (access_law o f r o1 E) as Hr. assert (names_kept o o1) as Hk by (by apply tree_kept, rtc_once). destruct (r =? 0).
  - exists OK, o1. done.
  - destruct Hr as [Hn He]. rewrite (IO_bind_step _ _ (errno o1) o1 o1) by done. rewrite He. eexists _, o1. split; [reflexivity|]. split; [|done]. by rewrite Hn.
Qed.

Lemma RenameFile_tree f g c o : path_bytes o f = Some c -> f <> g -> exists s o', Posix_RenameFile f g o = Ret (s, o') /\ calm slow stream_open o o' /\
  (renames_work o -> ok s = true) /\
  (ok s = true -> path_bytes o' g = Some c /\ path_bytes o' f = None /\ forall h, h <> f -> h <> g -> path_bytes o' h = path_bytes o h).
Proof.
  intros Hc Hne. unfold Posix_RenameFile. rewrite IO_call_step. destruct (sys_rename o f g) as [r o1] eqn:E. cbn [fst snd].
  destruct (rename_call_law o f g c r o1 Hc Hne E) as (Hcalm & Hw & Hok). unfold status_zero. destruct (Z.eqb_spec r 0); simpl.
  - exists OK, o1. auto.
  - eexists _, o1. split; [reflexivity|]. split; [done|]. rewrite IOError_of_not_ok. split; [|done]. intros Hr. by destruct n; auto.
Qed.

Lemma NewLogger_tree f n o : exists s r o', Posix_NewLogger f n o = Ret (s, r, o') /\ calm slow stream_open o o' /\ same_but path_bytes f o o' /\
  match r with
  | Some l => s = OK /\ log_size_ l = 0 /\ ~ stream_open o (pl_file l) /\ stream_open o' (pl_file l) /\ log_name o' (pl_file l) f /\ path_bytes o' f = Some []
  | None => ok s = false
  end.
Proof.
  unfold Posix_NewLogger. rewrite IO_call_step. destruct (sys_fopen o f (str "w")) as [r o1] eqn:E. cbn [fst snd].
  destruct (fopen_write_law o f r o1 E) as (Hc & Hf & Hr). destruct r as [s|].
  2: { rewrite fail_errno_step. eexists _, None, o1. split; [reflexivity|]. split; [done|]. split; [done|]. apply IOError_of_not_ok. }
  destruct Hr as (Hnew & Hopen & Hn & He). rewrite (IO_bind_step _ _ (c_fileno o1 s) o1 o1) by done. rewrite IO_call_step.
  set (o2 := (sys_fallocate o1 _ _ _ _).2). destruct (cloexec_kept (c_fileno o1 s) None o2) as (o3 & E3 & _). rewrite (IO_bind_step _ _ _ _ _ E3).
  assert (names_kept o1 o3) as [Hc3 Hf3 Hn3 _].
  { apply tree_kept. eapply rtc_l; [apply (tree_keep_size o1)|]. eapply (fun H : steps tree_call _ => H _ _ _ E3). unfold SetFD_CLOEXEC. walk; auto. }
  eexists OK, _, o3. split; [reflexivity|]. split; [by eapply calm_trans|]. split; [intros g Hg; by rewrite Hf3, Hf|]. simpl.
  split; [done|]. split; [done|]. split; [done|]. split; [by apply Hc3|]. split; [auto|by rewrite Hf3].
Qed.
End logs.

(** ** The environment *)

Section world.
Context `{Host} {O : Type} `{NamedLogs O} `{!Printf} (fuel : nat) (buffer : Z).
#[local] Instance log_env : Env (World O) := World_env fuel buffer.
#[local] Existing Instance World_files.

(** The logger writes to the file, which has as many bytes as it has counted. *)
Definition world_logs (w : World O) (h : nat) (f : Slice) : Prop := exists l c, w_loggers w !! h = Some l /\ log_name (w_os w) (pl_file l) f /\
  path_bytes (w_os w) f = Some c /\ log_size_ l = u64 (zlen c).
Definition world_entry (t : Slice) (b : list byte) : Prop := exists sec usec tid, b = log_line sec usec tid t.
Definition world_renames (w : World O) : Prop := renames_work (w_os w).

Lemma names_looking w o : world_ok fuel w -> names_kept (w_os w) o ->
  looking (world_ok fuel) world_file world_logs world_renames w (w_set_os w o).
Proof.
  intros Hw [Hc Hf Hn Hr]. split; [by apply ok_os|]. split; [exact Hf|]. split; [|exact Hr].
  intros h f (l & c & Hl & Hlf & Hfc & Hs). exists l, c. split; [done|]. split; [by apply Hn|]. split; [by rewrite <- Hfc; apply Hf|done].
Qed.

Lemma world_now w : world_ok fuel w -> exists now w', NowMicros w = Ret (now, w') /\ 0 <= now < 2 ^ 64 /\
  looking (world_ok fuel) world_file world_logs world_renames w w'.
Proof.
  intros Hw. destruct (NowMicros_tree (w_os w)) as (now & o & E & Hn & Hk). exists now, (w_set_os w o). split; [by apply on_os_run|].
  split; [done|by apply names_looking].
Qed.
Lemma world_exists f w : world_ok fuel w -> exists s w', FileExists f w = Ret (s, w') /\ (ok s = true <-> world_file w f <> None) /\
  looking (world_ok fuel) world_file world_logs world_renames w w'.
Proof.
  intros Hw. destruct (FileExists_tree f (w_os w)) as (s & o & E & Hs & Hk). exists s, (w_set_os w o). split; [by apply on_os_run|].
  split; [done|by apply names_looking].
Qed.
Lemma world_rename f g c w : world_ok fuel w -> world_file w f = Some c -> f <> g -> exists s w', RenameFile f g w = Ret (s, w') /\ world_ok fuel w' /\
  (world_renames w -> ok s = true) /\
  (ok s = true -> world_file w' g = Some c /\ world_file w' f = None /\ forall h, h <> f -> h <> g -> world_file w' h = world_file w h).
Proof.
  intros Hw Hc Hne. destruct (RenameFile_tree f g c (w_os w) Hc Hne) as (s & o & E & Hcalm & Hr & Hok). exists s, (w_set_os w o).
  split; [by apply on_os_run|]. split; [by apply ok_os|]. by split.
Qed.

Lemma world_new_logger f n w : world_ok fuel w -> exists s r w', NewLogger f n w = Ret (s, r, w') /\ world_ok fuel w' /\ same_but world_file f w w' /\
  (if ok s then exists h, r = Some h /\ world_logs w' h f /\ world_file w' f = Some [] else r = None).
Proof.
  intros Hw. destruct (NewLogger_tree f n (w_os w)) as (s & r & o & E & Hc & Hf & Hr). simpl NewLogger.
  rewrite (IO_bind_step _ _ _ _ _ (on_os_run _ _ _ _ E)). destruct r as [l|]; simpl opened.
  - destruct Hr as (-> & Hz & Hnew & Hopen & Hn & He). eexists OK, _, _. split; [reflexivity|]. split.
    + apply (ok_streams_step fuel w); [done|by eapply calm_weak|].
      apply streams_new with (1 := ok_streams _ _ Hw) (2 := Hc) (k := inr (w_next w)) (3 := Hnew); [done| |].
      * simpl. by rewrite lookup_insert_eq.
      * intros [h|h] Hne; [done|]. simpl. rewrite lookup_insert_ne; [done|]. intros Eh. apply Hne. by rewrite <- Eh.
    + split; [exact Hf|]. eexists. split; [reflexivity|]. split; [|exact He]. exists l, []. split; [apply lookup_insert_eq|]. by rewrite Hz.
  - eexists s, None, _. split; [reflexivity|]. split; [by apply ok_os|]. split; [exact Hf|]. by rewrite Hr.
Qed.

(** An entry leaves the other loggers alone, since they have streams of their own. *)
Lemma logs_after_entry w h l l' f o k g b : world_ok fuel w -> w_loggers w !! h = Some l -> pl_file l' = pl_file l -> log_name (w_os w) (pl_file l) f ->
  logs_kept f (w_os w) o -> stream_bytes o (pl_file l) = stream_bytes (w_os w) (pl_file l) ++ b -> log_size_ l' = u64 (log_size_ l + zlen b) ->
  (forall s, writable (w_os w) s -> s <> pl_file l -> stream_bytes o s = stream_bytes (w_os w) s) ->
  world_logs w k g -> world_logs (w_set_loggers (w_set_os w o) (<[h := l']> (w_loggers w))) k g.
Proof.
  intros Hw Hh Hs Hn [_ _ Hk] Hb Hz Hoth (l2 & c2 & Hl2 & Hn2 & Hc2 & Hz2). pose proof (Hk _ _ Hn2) as Hn2'.
  destruct (log_name_law _ _ _ Hn2) as [Hw2 Hb2], (log_name_law _ _ _ Hn2') as [_ Hb2']. rewrite Hb2 in Hc2. injection Hc2 as <-.
  destruct (decide (k = h)) as [->|Hne].
  - rewrite Hh in Hl2. injection Hl2 as <-. exists l', (stream_bytes o (pl_file l)). split; [apply lookup_insert_eq|]. rewrite Hs. do 2 (split; [done|]).
    rewrite Hz, Hb, zlen_app, Hz2. unfold wrap. apply Zplus_mod_idemp_l.
  - exists l2, (stream_bytes o (pl_file l2)). split; [simpl; by rewrite lookup_insert_ne|]. do 2 (split; [done|]). rewrite Hoth; [done|done|].
    intros En. destruct (ok_streams _ _ Hw (inr h) (pl_file l)) as [_ Hu]; [simpl; by rewrite Hh|].
    specialize (Hu (inr k)). simpl in Hu. rewrite Hl2 in Hu. simpl in Hu. rewrite En in Hu. by destruct Hne; injection (Hu eq_refl).
Qed.

Lemma world_logv h f c format ap w : world_ok fuel w -> world_logs w h f -> world_file w f = Some c -> exists w' b,
  l_Logv2 (Logger := world_logger fuel buffer) h format ap w = Ret (tt, w') /\ world_ok fuel w' /\ world_entry (vformat format ap) b /\
  world_file w' f = Some (c ++ b) /\ same_but world_file f w w' /\ (forall k g, world_logs w k g -> world_logs w' k g).
Proof.
  intros Hw (l & c' & Hl & Hn & Hc' & Hz) Hc. destruct (log_name_law _ _ _ Hn) as [Hwr Hb].
  destruct (Logv_run l format ap (w_os w) Hwr) as (l' & o & sec & usec & E & [Hb' Hoth (Hs & _) Hsz _]).
  pose proof (log_steps_kept _ _ _ _ (pl_Logv_steps l format ap _ _ _ E) Hn) as Hk. pose proof Hk as [Hcalm Hfiles Hnames].
  set (b := log_line _ _ _ _) in *. exists (w_set_loggers (w_set_os w o) (<[h := l']> (w_loggers w))), b. split.
  { simpl. unfold with_log. rewrite (IO_bind_step _ _ w w w) by done. rewrite Hl. by rewrite (IO_bind_step _ _ _ _ _ (on_os_run _ _ _ _ E)). }
  split.
  { apply (ok_streams_step fuel w); [done|by eapply calm_weak|]. apply streams_sub with (1 := ok_streams _ _ Hw). intros k s Hks. split; [|apply Hcalm].
    destruct k as [k|k]; [done|]. simpl in *. destruct (decide (k = h)) as [->|Hne]; [rewrite lookup_insert_eq in Hks; by rewrite Hl; simpl; rewrite <- Hs|].
    by rewrite lookup_insert_ne in Hks. }
  split; [by exists sec, usec, (c_gettid (w_os w))|]. split.
  { unfold world_file in *. simpl. destruct (log_name_law _ _ _ (Hnames _ _ Hn)) as [_ ->]. rewrite Hb'. congruence. }
  split; [exact Hfiles|]. intros k g. apply (logs_after_entry w h l l' f o k g b); try done. intros s Hs0. by apply Hoth.
Qed.

(** A rolling log may use it, if [vsnprintf] copies its argument for ["%s"]. *)
Definition World_logs (string_ok : forall t, vformat (str "%s") (va_string t) = t) :
  @LogFiles (World O) _ log_env (World_files fuel buffer) (world_logger fuel buffer).
Proof using All.
  refine {| logs_to := world_logs; entry := world_entry; renames := world_renames; string_law := string_ok;
    now_law := world_now; exists_law := world_exists; rename_law := world_rename; new_logger_law := world_new_logger; logv_law := world_logv |}.
  intros h f c w (l & c' & Hl & _ & Hc' & Hz) Hc. change (path_bytes (w_os w) f = Some c) in Hc. rewrite Hc' in Hc. injection Hc as <-. simpl. by rewrite Hl.
Defined.
End world.
