(* ===== verification/KernelTree.v ===== *)
(** * KernelTree: the system of Kernel keeps what is asked of named files and logs *)

From Stdlib Require Import Strings.Byte Strings.String.
From stdpp Require Import list gmap.
From S2P Require Import Prelude.
From S2P Require Import Slice.
From S2P Require Import Coding.
From S2P Require Import Status.
From S2P Require Import FileApi.
From S2P Require Import IoPosix.
From S2P Require Import IoPosixTheorems.
From S2P Require Import IoPosixMmap.
From S2P Require Import EnvTheorems.
From S2P Require Import EnvPosix.
From S2P Require Import EnvPosixTheorems.
From S2P Require Import PosixLogger.
From S2P Require Import PosixLoggerTheorems.
From S2P Require Import Kernel.
From S2P Require Import PosixWorldTheorems.
From S2P Require Import PosixWorldLogs.

Lemma k_object_bytes_store k x c : k_object_bytes (k_object_store k x c) x = c.
Proof. destruct x as [f|fd]; simpl; [rewrite k_bytes_store; by rewrite decide_True|apply k_upd_eq]. Qed.
Lemma k_object_store_object k x c fd : k_object (k_object_store k x c) fd = k_object k fd.
Proof. by destruct x. Qed.
Lemma k_fd_bytes_store k fd c : k_fd_bytes (k_fd_store k fd c) fd = c.
Proof. unfold k_fd_bytes, k_fd_store. rewrite k_object_store_object. apply k_object_bytes_store. Qed.
Lemma k_fd_store_fds k fd c : k_fds (k_fd_store k fd c) = k_fds k.
Proof. unfold k_fd_store. by destruct (k_object k fd). Qed.
Lemma k_fd_store_intr k fd c : k_intr (k_fd_store k fd c) = k_intr k /\ k_errno (k_fd_store k fd c) = k_errno k.
Proof. unfold k_fd_store. by destruct (k_object k fd). Qed.

Definition k_open_fd (k : Kernel) (fd : Z) : Prop := exists f, k_fds k fd = Some f.

#[export] Instance Kernel_files : PosixFiles Kernel.
Proof.
  refine {| file_bytes := k_fd_bytes; at_end := k_open_fd; positional := k_open_fd; patience := k_intr; healthy _ := True |}; simpl.
  - intros k fd n off r d k' Hn Ho E. unfold k_interruptible in E. destruct (k_intr k) as [|i] eqn:Ei; injection E as <- <- <-.
    + split; [done|]. split; [done|]. pose proof (zlen_ztake n (zdrop off (k_fd_bytes k fd)) ltac:(lia)) as Hl.
      pose proof (zlen_nonneg (zdrop off (k_fd_bytes k fd))). split; [apply moved; [lia|done|lia]|].
      split; [apply ztake_len|]. split; [done|]. intros Hz. pose proof (zlen_nonneg (k_fd_bytes k fd)).
      destruct (Z.le_gt_cases (zlen (k_fd_bytes k fd)) off); [done|]. rewrite zlen_zdrop in Hl by lia. lia.
    + split; [done|]. split; [done|]. split; [apply interrupted; [done|done|simpl; lia]|]. by rewrite ztake_neg by lia.
  - intros k fd d r k' Hd Ha E. unfold k_interruptible in E. destruct (k_intr k) as [|i] eqn:Ei; injection E as <- <-.
    + destruct (k_fd_store_intr k fd (k_fd_bytes k fd ++ d)) as [Hi He]. rewrite k_fd_bytes_store by done. rewrite ztake_ge by lia.
      unfold k_open_fd. rewrite k_fd_store_fds, He, Hi. do 3 (split; [done|]). split; [apply moved; [lia|done|lia]|lia].
    + rewrite ztake_neg, app_nil_r by lia. do 3 (split; [done|]). split; [apply interrupted; [done|done|simpl; lia]|done].
  - intros k fd d off r k' Hd Ha Ho E. unfold k_interruptible in E. destruct (k_intr k) as [|i] eqn:Ei; injection E as <- <-.
    + destruct (k_fd_store_intr k fd (overwrite (k_fd_bytes k fd) off d)) as [Hi He]. rewrite k_fd_bytes_store by done. rewrite ztake_ge by lia.
      unfold k_open_fd. rewrite k_fd_store_fds, He, Hi. do 3 (split; [done|]). split; [apply moved; [lia|done|lia]|lia].
    + rewrite ztake_neg, overwrite_nil by lia. do 3 (split; [done|]). split; [apply interrupted; [done|done|simpl; lia]|done].
  - intros k fd r k' Hq. inversion Hq; subst; done.
  - intros k fd r k' E. injection E as <- <-. done.
  - intros k n r k' Hn E. injection E as <- <-. split_and!; try done. apply zlen_zrep. lia.
  - done.
Defined.

#[export] Instance Kernel_mmap : MmapFiles Kernel.
Proof.
  refine {| mapped k fd p n off := p = k_addr /\ n <= 2 ^ 32 /\ k_map k = Some (k_object k fd, off) |}.
  - intros k fd off n r k' Ho Hn E. injection E as <- <-. split; [apply k_fd_bytes_store|done].
  - intros k fd off n r k' Ho Hn E. injection E as <- <-. split; [apply k_fd_bytes_store|done].
  - intros k fd off n r k' Ho Hn E. simpl in E. change kPageSize with 4096.
    destruct ((n <=? 2 ^ 32) && (off mod 4096 =? 0)) eqn:Ec; injection E as <- <-; (split; [done|]); (split; [intros _; split; [done|]; intros Hle Hoff|]); try done.
    + unfold k_addr. change (2 ^ 32) with 4294967296 in *. change (2 ^ 64) with 18446744073709551616. split; [done|]. split; [lia|]. split; [by exists 2|]. split; [done|]. split; [lia|done].
    + rewrite (proj2 (Z.leb_le _ _) Hle), (proj2 (Z.mod_divide off 4096 ltac:(done)) Hoff) in Ec. done.
  - intros k fd p n off i d (-> & Hn & Hm) Hb Hi Hd. simpl. rewrite Hm. replace (k_addr + i - k_addr) with i by lia. fold (k_fd_bytes k fd).
    fold (k_fd_store k fd (overwrite (k_fd_bytes k fd) (off + i) d)). split; [apply k_fd_bytes_store|]. split; [|done]. split; [done|]. split; [done|].
    unfold k_fd_store. rewrite k_object_store_object. by destruct (k_object k fd).
  - intros k fd p n r k' E. simpl in E. change kPageSize with 4096. destruct ((p mod 4096 =? 0) && (0 <? n)) eqn:Ec; injection E as <- <-; (split; [done|]); [done|].
    split; [|done]. intros _. split; [done|]. intros Hp Hn. rewrite (proj2 (Z.mod_divide p 4096 ltac:(done)) Hp), (proj2 (Z.ltb_lt _ _) Hn) in Ec. done.
  - intros k fd n r k' Hn E. injection E as <- <-. simpl. rewrite k_fd_bytes_store. split; [|done]. by rewrite ztake_extend.
  - intros k fd p n r k' E. injection E as <- <-. split; [done|]. split; [|done]. intros _. split; [done|].
    intros Hp _ _. by rewrite (proj2 (Z.mod_divide p 4096 ltac:(done)) Hp).
  - intros k fd r k' q m off Hq. by inversion Hq; subst.
Defined.

(** A descriptor stands for a file while it is there; no disk is fast when the type of the file
    system is none of the three. *)
Definition k_fd_name (k : Kernel) (fd : Z) (f : Slice) : Prop := k_fds k fd = Some f /\ is_Some (k_files k f).
Definition k_stream_at (k : Kernel) (s : Z) (f : Slice) (pos : Z) : Prop := exists eof, k_streams k s = Some (f, pos, eof).

Lemma k_open_spec k f fd k' : k_open k f (Z.lor O_CREAT (Z.lor O_RDWR O_TRUNC)) = (fd, k') ->
  fd = -1 /\ (exists n, k_intr k = S n /\ k' = k_interrupted k n) \/ fd = k_handle k /\ k' = (k_new_fd (k_store k f []) f).2.
Proof.
  unfold k_open, k_interruptible. destruct (k_intr k) as [|n]; [|intros E; injection E as <- <-; left; eauto].
  change (Z.testbit (Z.lor O_CREAT (Z.lor O_RDWR O_TRUNC)) 9) with true. change (Z.testbit (Z.lor O_CREAT (Z.lor O_RDWR O_TRUNC)) 6) with true. cbv iota.
  destruct (k_files k f); intros E; injection E as <- <-; by right.
Qed.

Lemma same_but_store k f c (k' : Kernel) : k_files k' = k_files (k_store k f c) -> same_but k_files f k k'.
Proof. intros E g Hg. rewrite E. by apply k_upd_ne. Qed.

(** The streams that have been handed out; their numbers are not used again. *)
Definition k_stream_open (k : Kernel) (s : Z) : Prop := s < k_handle k.

Lemma k_calm (k k' : Kernel) : k_type k' = k_type k -> (k_intr k' <= k_intr k)%nat -> (k_next k <= k_next k')%nat ->
  calm (fun k => fast_type (k_type k) = false) k_stream_open k k'.
Proof. intros Ht Hi Hn. split; [split; [by rewrite Ht|done]|]. split; [done|]. intros s. unfold k_stream_open, k_handle. lia. Qed.
#[local] Hint Resolve k_calm : core.

(** What is stored in the object of a descriptor only changes its file. *)
Lemma k_store_step k fd f c (k' : Kernel) : k' = k_object_store k (inl f) c -> k_fds k fd = Some f ->
  calm (fun k => fast_type (k_type k) = false) k_stream_open k k' /\ same_but k_files f k k' /\ k_fds k' fd = Some f /\ (k_fd_name k fd f -> k_fd_name k' fd f).
Proof.
  intros -> Hf. split; [done|]. split; [by eapply same_but_store|]. split; [done|]. intros _. split; [done|]. simpl. rewrite k_upd_eq. by eexists.
Qed.

#[export] Instance Kernel_tree : PosixTree Kernel.
Proof.
  refine {| path_bytes := k_files; fd_of k fd f := k_fds k fd = Some f; fd_path := k_fd_name; fd_name := k_fd_name; stream_at := k_stream_at;
    slow k := fast_type (k_type k) = false; stream_open := k_stream_open |}.
  - intros k fd f [Hf [c Hc]]. split; [|done]. simpl. unfold k_fd_bytes, k_object, k_object_bytes, k_bytes. by rewrite Hf, Hc.
  - intros k fd f Hf. split; [done|]. exists f. apply Hf.
  - intros k k' Hc. destruct Hc; try done; simpl.
    + destruct (k_streams k s) as [[[f pos] eof]|] eqn:Es; [|done].
      split; [by apply k_calm|]. split; [done|]. split; [done|]. split; [done|]. intros s' f' pos' [eof' Hs']. unfold k_stream_at. simpl. unfold upd.
      destruct (decide (s' = s)) as [->|]; [|by exists eof']. exists false. congruence.
    + by destruct (k_files k f).
  - intros k fd f k' Hf Hcall. destruct Hcall as [off n|off n|n off|p n|p n|n| |p n off i d (-> & Hn & Hm) Hfit Hi Hd]; simpl; try done.
    1-2, 5: unfold k_fd_store; (eapply k_store_step; [|done]); unfold k_object; by rewrite Hf.
    + destruct (_ && _); done.
    + destruct (_ && _); done.
    + rewrite Hm. unfold k_object. rewrite Hf. by eapply k_store_step.
  - intros k fd r k' E. by injection E as <- <-.
  - intros k s. done.
  - intros k f Hs. by right.
  - intros k f fd k' E. apply k_open_spec in E as [[-> (n & Hn & ->)]|[-> ->]].
    + split; [apply k_calm; simpl; [done|lia|done]|]. split; [done|]. intros _. simpl. lia.
    + split; [apply k_calm; simpl; [done|done|lia]|]. split; [by apply (same_but_store k f [])|]. unfold k_handle. destruct (Z.ltb_spec (Z.of_nat (k_next k) + 3) 0); [lia|].
      unfold k_fd_name, k_handle. simpl. rewrite !k_upd_eq. split; [|done]. split; [done|by eexists].
  - intros k fd f d r k' [Hf Hx] E. simpl in E. unfold k_interruptible in E. destruct (k_intr k) as [|n] eqn:Ei; injection E as <- <-.
    + unfold k_fd_store, k_object. rewrite Hf. split; [done|]. split; [by eapply same_but_store|]. split; [done|]. simpl. rewrite k_upd_eq. by eexists.
    + split; [apply k_calm; simpl; [done|lia|done]|]. by split.
  - intros k f r k' E. simpl in E. destruct (k_files k f) eqn:Ef; injection E as <- <-.
    + split; [done|]. split; [intros g Hg; by apply k_upd_ne|]. split; [done|]. intros _. apply k_upd_eq.
    + do 3 (split; [done|]). done.
  - intros k f s k' E. simpl in E. unfold k_fopen, k_interruptible in E. change (bool_decide (str "r" = str "w")) with false in E. cbv iota in E.
    destruct (k_intr k) as [|n] eqn:Ei; [|injection E as <- <-; split; [apply k_calm; simpl; [done|lia|done]|]; split; [done|]; intros _; simpl; lia].
    destruct (k_files k f); injection E as <- <-; [split; [apply k_calm; simpl; [done|done|lia]|]|split; [by apply k_calm|]]; (split; [done|]).
    + split; [exists false; apply k_upd_eq|]. unfold k_stream_open, k_handle. simpl. lia.
    + intros He. discriminate He.
  - intros k s f pos c n r d k' [eof Hs] Hc Hpos Hn E. simpl in *. unfold k_stream_read in E. rewrite Hs in E. injection E as <- <- <-.
    assert (k_bytes k f = c) as -> by (unfold k_bytes; by rewrite Hc). pose proof (zlen_ztake n (zdrop pos c) ltac:(lia)) as Hl.
    split; [done|]. split; [done|]. split; [apply ztake_len|]. split; [done|]. split; [lia|]. split; [eexists; apply k_upd_eq|]. split; [|done].
    intros Hlt _. pose proof (zlen_nonneg c). destruct (Z.le_gt_cases (zlen c) pos); [pose proof (zlen_nonneg (ztake n (zdrop pos c))); lia|].
    rewrite zlen_zdrop in Hl by lia. lia.
Defined.

(** A stream writes a file while it is there and no other stream was opened to write it. *)
Definition k_log_name (k : Kernel) (s : Z) (f : Slice) : Prop := k_owns k s f /\ is_Some (k_files k f).

Lemma k_rename_spec k f g c r k' : k_files k f = Some c -> f <> g -> k_rename k f g = (r, k') ->
  r = 0 /\ k_type k' = k_type k /\ k_intr k' = k_intr k /\ k_next k' = k_next k /\
  k_files k' g = Some c /\ k_files k' f = None /\ forall h, h <> f -> h <> g -> k_files k' h = k_files k h.
Proof.
  intros Hc Hne. unfold k_rename. rewrite Hc. intros E. injection E as <- <-. simpl. unfold k_move.
  rewrite k_upd_eq, (k_upd_ne f None) by done. rewrite k_upd_eq, Hc. split_and!; try done. intros h Hf Hg. by rewrite !k_upd_ne.
Qed.

#[export] Instance Kernel_logs : NamedLogs Kernel.
Proof.
  refine {| log_name := k_log_name; renames_work _ := True |}.
  - intros k s f [Ho [c Hc]]. split; [by exists f|]. simpl. unfold k_stream_bytes, k_bytes. destruct Ho as [(pos & eof & ->) _]. by rewrite Hc.
  - intros k k' Hc. split; [|done]. intros s' f' Hn. destruct Hc as [| | | |s| |f| |]; try done; simpl.
    + destruct (k_streams k s) as [[[g pos'] eof']|] eqn:Es; [|done]. destruct Hn as [[(pos & eof & Hs) Ho] Hf]. split; [|done]. split; [|done]. simpl. unfold upd.
      destruct (decide (s' = s)) as [->|]; [|by eauto]. rewrite Es in Hs. injection Hs as -> _ _. by eauto.
    + by destruct (k_files k f).
  - intros k s f d [[(pos & eof & Hs) Ho] Hf]. simpl. unfold k_fwrite. rewrite Hs. cbn [snd]. split; [by apply k_calm|].
    split; [by eapply same_but_store|]. intros s' g [Ho' Hg]. split; [done|]. simpl. unfold upd. destruct (decide (g = f)); [by eexists|done].
  - intros k f s k' E. simpl in E. unfold k_fopen, k_interruptible in E. change (bool_decide (str "w" = str "w")) with true in E. cbv iota in E.
    destruct (k_intr k) as [|n] eqn:Ei; injection E as <- <-; [|split; [apply k_calm; simpl; [done|lia|done]|]; done].
    split; [apply k_calm; simpl; [done|done|lia]|]. split; [by apply (same_but_store k f [])|]. split; [change (~ k_handle k < k_handle k); lia|].
    split; [change (k_handle k < Z.of_nat (S (k_next k)) + 3); unfold k_handle; lia|]. unfold k_log_name, k_owns. simpl. rewrite !k_upd_eq. split; [|done]. split; [|by eexists].
    split; [by eauto|done].
  - intros k f r k' E. simpl in *. destruct (k_files k f); injection E as <- <-; done.
  - intros k f g c r k' Hc Hne E. destruct (k_rename_spec k f g c r k' Hc Hne E) as (-> & Ht & Hi & Hn & Hr).
    split; [apply k_calm; [done|lia|lia]|]. by split.
Defined.
