(* ===== verification/PosixWorldProps.v ===== *)
(** * PosixWorldProps: the functions of env.cc over [PosixEnv]

    The property of a process that uses [PosixEnv], with a witness on the system of Kernel, and a
    rolling log over [PosixEnv] and [PosixLogger] on that system. *)

From Stdlib Require Import Strings.Byte Strings.String.
From stdpp Require Import list gmap.
From S2P Require Import Prelude.
From S2P Require Import Slice.
From S2P Require Import Coding.
From S2P Require Import Status.
From S2P Require Import IoPosix.
From S2P Require Import IoPosixTheorems.
From S2P Require Import IoPosixMmap.
From S2P Require Import Env.
From S2P Require Import EnvTheorems.
From S2P Require Import AutoRoll.
From S2P Require Import AutoRollTheorems.
From S2P Require Import MemEnv.
From S2P Require Import EnvProps.
From S2P Require Import EnvPosix.
From S2P Require Import PosixLogger.
From S2P Require Import Kernel.
From S2P Require Import PosixWorld.
From S2P Require Import PosixWorldTheorems.
From S2P Require Import PosixWorldLogs.
From S2P Require Import KernelTree.

(** C38: [PosixEnv] implements what [WriteStringToFile] and [ReadFileToString] rely on, with the
    default options, whether the disk is of a type for which files are mapped or not. Over a system
    whose calls fail and are interrupted as they like the
    first one, from [open] to the destructor of the file, returns and touches no other file; when
    it returns OK the file on the disk is the string, and zeros behind it. It is exactly the string
    if files are not mapped or the system is healthy. The second one then returns, and
    gives the string when it returns OK; both leave the environment in order. *)
Theorem posix_string_file `{Host} {O} `{PosixTree O} fuel buffer data fname sync turns (w : World O) :
  let env := World_env fuel buffer in
  world_ok fuel w -> zlen data < 2 ^ 62 -> zlen data <= kBufferSize * (Z.of_nat turns - 1) ->
  exists s w1, WriteStringToFile (H0 := env) data fname sync w = Ret (s, w1) /\ world_ok fuel w1 /\
    (forall g, g <> fname -> path_bytes (w_os w1) g = path_bytes (w_os w) g) /\
    (ok s = true -> exists c, path_bytes (w_os w1) fname = Some c /\ padded c data /\
      (world_trims w -> c = data /\
        exists s2 d w2, ReadFileToString (H0 := env) turns fname w1 = Ret (s2, d, w2) /\ world_ok fuel w2 /\
          (forall g, path_bytes (w_os w2) g = path_bytes (w_os w1) g) /\ (ok s2 = true -> d = data))).
Proof.
  intros env Hw Hl Hd. destruct (WriteStringToFile_spec (H1 := World_files fuel buffer) data fname sync w Hw Hl) as (s & w1 & E1 & Hw1 & Hs1 & Hok).
  exists s, w1. split; [exact E1|]. split; [exact Hw1|]. split; [exact Hs1|]. intros Hs. destruct (Hok Hs) as (c & Hc & Hp & Hx). exists c.
  split; [exact Hc|]. split; [exact Hp|]. intros Ht. rewrite (Hx Ht) in Hc |- *. split; [done|].
  exact (ReadFileToString_spec (H1 := World_files fuel buffer) turns fname data w1 Hw1 Hc Hd).
Qed.

#[local] Existing Instance le_host.

(** A process on an ext4 disk whose first three calls are interrupted. *)
Definition world0 : World Kernel := World_new (PosixEnv_new 4096 1 (fun _ => 0)) (k_empty 3 EXT4_SUPER_MAGIC).
Lemma world0_ok : world_ok 10 world0.
Proof. constructor; [simpl; lia|split; [by vm_compute|split; [done|exact (Z.divide_refl 4096)]]|]. intros [h|h] s; done. Qed.

Lemma posix_string_file_witness : exists s w1,
  WriteStringToFile (H0 := World_env 10 0) (str "hello") (str "f") true world0 = Ret (s, w1) /\
  (ok s = true -> exists s2 d w2, ReadFileToString (H0 := World_env 10 0) 2 (str "f") w1 = Ret (s2, d, w2) /\ (ok s2 = true -> d = str "hello")).
Proof.
  destruct (@posix_string_file le_host Kernel _ _ _ _ Kernel_tree 10 0 (str "hello") (str "f") true 2 world0 world0_ok) as (s & w1 & E1 & _ & _ & Hok);
    [reflexivity|vm_compute; discriminate|].
  exists s, w1. split; [exact E1|]. intros Hs. destruct (Hok Hs) as (c & _ & _ & Hx). destruct (Hx (or_introl I)) as (_ & s2 & d & w2 & E2 & _ & _ & Hd).
  exists s2, d, w2. exact (conj E2 Hd).
Defined.

(** Both calls do return OK there, and the file was mapped. *)
Example posix_string_file_ok :
  match WriteStringToFile (H0 := World_env 10 0) (str "hello") (str "f") true world0 with
  | Ret (s, w1) =>
      match ReadFileToString (H0 := World_env 10 0) 2 (str "f") w1 with
      | Ret (s2, d, _) => ok s = true /\ ok s2 = true /\ d = str "hello" /\ forceMmapOff (w_env w1) = false
      | _ => False
      end
  | _ => False
  end.
Proof. vm_compute. done. Qed.

(** ** A rolling log over [PosixEnv] *)

(** A process with a log of three bytes in the directory d, whose logger may write one; its
    clock stands at 1000 seconds. *)
Definition log_kernel : Kernel := mkKernel (upd (str "d/LOG") (Some (str "old")) (fun _ => None)) (fun _ => None)
  (upd 3 (Some (str "d/LOG", 0, false)) (fun _ => None)) (upd (str "d/LOG") (Some 3) (fun _ => None)) 1 0 0 (fun _ => false) 1000 0 (fun _ => []) None (fun _ => 0).
Definition log_world : World Kernel := mkWorld log_kernel (PosixEnv_new 4096 1 (fun _ => 0)) ∅ ∅ {[ 0%nat := mkPosixLogger 3 3 3 0 false 0 INFO_LEVEL ]} 1.
Definition rolling_logger : @AutoRollLogger (World Kernel) (World_env 10 0) :=
  @mkAutoRoll (World Kernel) (World_env 10 0) (str "d/LOG") (str "d") (Some 0%nat) OK 1 0 [str "header"] 0 0 0 100 0 INFO_LEVEL.

Lemma log_world_ok : world_ok 10 log_world.
Proof.
  constructor; [simpl; lia|split; [by vm_compute|split; [done|exact (Z.divide_refl 4096)]]|]. intros [h|h] s; [done|]. simpl. destruct (decide (h = 0%nat)) as [->|Hne].
  - intros E. injection E as <-. split; [done|]. intros [k|k]; [done|]. simpl. destruct (decide (k = 0%nat)) as [->|Hk]; [done|]. by rewrite lookup_singleton_ne.
  - by rewrite lookup_singleton_ne.
Qed.

Definition log_world_logs : @LogFiles (World Kernel) plain_printf (World_env 10 0) (World_files 10 0) (world_logger 10 0) :=
  World_logs 10 0 (fun t => eq_refl).
Lemma log_world_running : @running _ _ _ _ _ log_world_logs rolling_logger log_world (str "old").
Proof.
  split; [exact log_world_ok|]. do 2 (split; [done|]). exists 0%nat. split; [done|]. split; [|reflexivity].
  exists (mkPosixLogger 3 3 3 0 false 0 INFO_LEVEL), (str "old"). split; [done|]. split; [|done]. split; [|by eexists]. split; [|done]. by exists 0, false.
Qed.
Lemma log_world_few : @few_files _ _ (World_files 10 0) log_world 2.
Proof.
  exists [str "d/LOG"]. split; [|split; [simpl; lia|lia]]. intros f Hf. apply list_elem_of_singleton.
  change (upd (str "d/LOG") (Some (str "old")) (fun _ => None) f <> None) in Hf. unfold upd in Hf. case_decide; [done|by destruct Hf].
Qed.

Lemma roll_keeps_logs_witness : exists a' w',
  @ar_Logv le_host _ (World_env 10 0) plain_printf (world_logger 10 0) 2 rolling_logger (str "m") [] log_world = Ret (a', w') /\
  @rolled _ _ _ _ _ log_world_logs rolling_logger a' log_world w' (str "old") (str "m").
Proof.
  destruct (@roll_keeps_logs le_host (World Kernel) plain_printf (World_env 10 0) (World_files 10 0) (world_logger 10 0) log_world_logs 2 rolling_logger
    (str "m") [] (str "old") log_world log_world_running I log_world_few) as [(roll & a' & w' & E1 & _ & Hr & _ & Hx) _].
  rewrite Hr in Hx by (vm_compute; intuition discriminate). exists a', w'. exact (conj E1 Hx).
Defined.

(** The files after this call: the old log under a name with the time, and the new one with two
    lines. *)
Example rolling_log_files :
  match @ar_Logv le_host _ (World_env 10 0) plain_printf (world_logger 10 0) 2 rolling_logger (str "m") [] log_world with
  | Ret (_, w) => k_files (w_os w) (str "d/LOG.old.1000000007") = Some (str "old") /\
      k_files (w_os w) (str "d/LOG") =
        Some (str "1970/01/01-00:00:1002.000007 ff header" ++ [x0a] ++ str "1970/01/01-00:00:1003.000007 ff m" ++ [x0a])
  | _ => False
  end.
Proof. vm_compute. done. Qed.
